(* ===== verification/_CoqProject ===== *)
-Q . S2P
Prelude.v
StateList.v
GoSort.v
States.v
SchemaDef.v
MachTime.v
Mutation.v
Relations.v
Subscriptions.v
Machine.v
Queue.v
Waits.v
Transition.v
Run.v
QueueSpec.v
Semantics.v
Invariants.v
Lifecycle.v
Mixins.v
Negotiation.v
HandlerLoop.v
Calls.v
Checks.v
Helpers.v
Requests.v
NetMach.v
Rpc.v
RpcSync.v
History.v
HistKv.v
Pipes.v
Pool.v
Topic.v
Gossip.v
GoStrings.v
Effects.v
RpcConn.v
Logging.v
Dbg.v
Graph.v
GraphText.v
RpcMux.v
Node.v
Members.v
Shipped.v
DbgClient.v
DbgView.v
DbgHandlers.v
DbgRuns.v
DbgServer.v
