(* ===== verification/Prelude.v ===== *)
(** * asyncmachine-go: a verification library for the state-machine engine

    The program ([src/pkg/machine], and [src/pkg/rpc] for machines that are
    elsewhere) is a library for machines with many states
    active at once.  A _mutation_ (add, remove, set) names states; the
    _relations_ of the schema (Add, Require, Remove, After) resolve it into
    target states; _handlers_ of the states negotiate and react; every state
    has a _tick_, odd while the state is active; _subscriptions_ close channels
    when states, ticks or the queue get somewhere.  Mutations wait in a queue
    that one caller at a time processes.

    ** The files

    - [Prelude]: outcomes (a value, a panic, a goroutine that waits for ever),
      code that threads a state ([run]) with its partial ([keeps], [hoare]) and
      total ([returns]) specifications, machine integers, Go slices.
    - [StateList]: the helpers of [mach_utils.go] on names, indexes and ticks.
    - [GoSort]: [sort.SliceStable], the insertion sort and the merges of Go's
      library, since the order of target states shows.
    - [States]: the names and groups that reflection reads off the structs of a
      schema ([NewStates], [NewStateGroups] of [schema.go]).
    - [SchemaDef]: states and schemas ([schema.go], [State] of
      [mach_utils.go]): merging, prefixing, parsing.
    - [MachTime]: [Time], [TimeIndex] and [Clock] ([mach_misc.go]).
    - [Mutation]: mutations, steps, result codes, arguments ([mutation.go],
      [types.go]).
    - [Relations]: the default resolver ([relations.go]): target states,
      sorting, the topological sort of the Require graph, auto states.
    - [Subscriptions]: [subscriptions.go], each kind of wait with its index.
    - [Machine]: the machine's record, its accessors ([Module Mach]), setting
      the active states, [SetSchema], [Export] and [Import] ([machine.go]).
    - [Queue]: queueing and the mutation methods ([Module Api]), written over
      the [processQueue] they end in.
    - [Transition]: [transition.go] and the calling of handlers ([machine.go]):
      handlers are programs ([prog]) that call the machine and end by
      returning, panicking or overrunning their time.
    - [Run]: the loop of [processQueue].
    - [QueueSpec]: queue ticks. [Semantics]: the reference semantics of
      mutations without handlers, and that the engine refines it.
      [Invariants]: what holds with any handlers. [Negotiation]: what a
      transition can do before its final phase.
    - [Lifecycle]: making machines ([New]), binding and detaching handlers,
      groups, breakpoints, disposal. [Mixins]: the handlers of [pkg/states].
    - [HandlerLoop]: the goroutines of a handler call: the caller, the handler
      loops and the disposal that closes their channels, with every order of
      their steps ([processHandlers], [handlerLoop], [recoverToErr],
      [doDispose]). [Calls]: what a handler's name is turned into, and its
      caches ([Module Handler]); evals ([Module Evals]); functions run outside
      of handlers ([Go], [Fork]).
    - [Waits]: the When methods of machines ([machine.go]) over the
      subscriptions.
    - [Checks]: asking before mutating; [Helpers]: waiting for channels and
      mutations, conditions; [Requests]: retried requests, promises, loop guards,
      and helpers on schemas and transitions ([pkg/helpers/help.go]).
    - [NetMach]: network machines ([pkg/rpc/netmach.go]), local copies of
      machines elsewhere: the clock a server sets, the waits on it, and
      mutations through a connection ([NetMachConn], a class).
    - [Rpc]: the server's tracer, diffs, pushes and remote methods, and the
      client's handshake, clock updates and calls ([rpc.go], [rpc_server.go],
      [rpc_client.go]); the source machine is a class ([StateSource]).
    - [RpcSync]: the client in step with the source.
    - [Effects]: what handlers over connections have in common: fields, calls,
      goroutines, and waiting longer after each try.
    - [RpcConn]: connecting, shaking hands, retrying, listening and stopping
      ([Module Cli], [Module Srv]), errors ([Module Errs]).
    - [History]: the in-process history ([pkg/history/history.go]): what a
      tracer records and drops ([Module Tracer]), queries ([Module Hist]).
    - [HistKv]: histories in key-value databases ([pkg/history/bbolt],
      [pkg/history/badger]): stores ([KvStore]) and encodings ([Enc]) are classes
      with laws, the two packages instances of a third ([Backend]).
    - [Pipes]: mutations forwarded between machines ([pkg/states/pipes]); the
      target is a class ([PipeTarget]) with laws, which [Machine] satisfies by
      the lemmas of [Semantics].
    - [Pool]: the pools of goroutines ([PoolFork] of [machine.go]).
    - [Topic]: the handlers of a topic ([pkg/pubsub/topic.go]), whose peers
      broadcast the clocks of their machines. [Gossip]: what they promise.
    - [Node]: the supervisor of a pool of workers ([pkg/node/supervisor.go]),
      its handlers and goroutines and the steps they make up. [Members]: the
      bootstraps, workers and clients it talks to.
    - [GoStrings]: splitting, trimming, sorting and quoting strings. [Logging]:
      what machines log ([mach_misc.go], [machine.go], [rpc.go]): entries,
      semantic loggers ([Module Sem], [NetSem]), tracers ([Trace]), events and
      contexts ([Ev]). [Dbg]: the tracer that sends transitions to the debugger
      ([pkg/telemetry/dbg/dbg.go]).
    - [Graph]: the network graph made of such messages ([pkg/graph/graph.go]), on
      a class of graphs with laws; [GraphText]: the graph as Markdown and XML.
    - [RpcMux]: the servers and clients behind one port ([pkg/rpc/mux.go]).
    - [Shipped]: the schemas of the packages and tools, as data.
    - The debugger ([src/tools/debugger]), another machine: [DbgClient], what it
      knows of a machine that reports to it, and addresses of transitions
      ([Module Addr]); [DbgView], filters, the cursor, the history and the parsing
      of messages; [DbgHandlers], its handlers; [DbgRuns], what they promise in
      every order; [DbgServer], the queue of messages in front of it and the
      connections to other debuggers.

    ** How the parts interact

    [Queue.queueMutation] appends a mutation and promises it a queue tick;
    [Run.processQueue] pops mutations and, for each, sets up a transition
    ([newTransition]), runs it ([emitEvents]: negotiation handlers, then
    [setActiveStates], then final handlers, then the auto states prepended to
    the queue) and lets the subscriptions see it.  The queue is being processed
    while handlers run, so their own calls only queue ([processQueue_nested]).
    A panic in a handler ([recoverToErr]) cancels the transition, rolls back the
    states whose final handlers did not run, and prepends the Exception state.

    A [Server] traces the source ([TransitionEnd]) and sends what changed since
    the last message ([calcUpdate]), by itself ([PushClient]) or as the answer
    to a mutation ([newMsgMutation]).  A [Client] adds the differences to the
    clock of its [NetMach] and compares checksums ([clockUpdate]); the methods
    of the network machine become calls of the client ([World_conn]).

    A history traces its machine too: the end of a transition becomes a record
    when the configuration asks for it.  A topic keeps a [NetMach] per machine of
    its peers, moved by their messages ([nm_update]).  A pipe is a final handler of one
    machine that calls another, mostly in a goroutine of its own ([ps_go]).

    ** What the theorems show

    - Resolution ([Relations]): target states are duplicate-free, closed under
      Require, reachable by Add; conflicts only through Add; requested states
      without conflicts are kept; resolving panics exactly on unknown states;
      the topological sort ends and is right.
    - Meaning ([Semantics]): without handlers each mutation ends and does what
      the reference semantics says, what it predicts is what happens, and
      processing the queue ends ([processQueue_drains]); [mutate_refines] goes
      from the call on an idle machine to its answer.
    - Safety with any handlers ([Invariants], [Negotiation]): ticks are odd
      exactly for active states in every reachable machine; checks and canceled
      transitions change nothing; one refusing Enter handler is enough; whatever
      is true of all target states is true of the active states of reachable
      machines, so states that exclude each other never are active together.
    - Concurrency ([HandlerLoop], [Calls]): the one-step model of handler calls is
      what the goroutines do in every order ([processHandlers_refines]); results
      are not mixed up until a deadline is missed ([results_own]; after one they
      are, [late_panic_misdelivered], [stale_result_delivered]); calls end
      ([calls_return]) but for a panic while [Exception] is handled
      ([exception_panic_blocks]); with [PanicToException] only three races with
      the disposal, all of which happen ([disposal_races]), send on a channel it
      closed ([crashes_are_races]); an eval runs at most once, and before it is
      answered true ([eval_answers]).
    - Schemas ([States], [Shipped], [Lifecycle]): the schemas of the 17 packages
      and tools in [packages] (mixins only as they are merged into these) are
      well-formed, and the groups listed there are exclusive in every machine that
      can be reached from [New]; the group of the REPL and the one of the node
      client are not among them ([repl_group_not_exclusive],
      [node_client_group_unknown]).  A disposed machine is inert, and those who
      wait on its states, ticks, arguments and queue are let go ([doDispose_spec]),
      not those who wait on sums of time and queries ([dispose_forgets]).
    - Helpers ([Checks], [Helpers], [Requests]): on an idle machine without
      handlers, asking before adding is right and asking before removing never
      removes; a wait ends by its deadline and says how; what a transition's times
      tell.
    - Queue ([QueueSpec]): consecutive promises, honoured when popped.
    - Waits ([Subscriptions]): what closes, and when.
    - Replication ([NetMach], [RpcSync]): a clock update leaves the time given
      and the states it makes active, with what they require; after a handshake
      the client mirrors the source's tracked states through every interleaving
      of transitions, pushes, replies and deliveries, provided that the
      differences fit their fields and that no push is about ticks only
      ([nothing_lost]); [dropped_tick_drifts] shows that the last condition is
      needed.
    - Connections ([RpcConn]): when a handshake is done, how long reconnecting
      takes, and that pushes in intervals end with the first [RpcReady].
    - Records ([History]): what is recorded, that a memory is bounded and its
      records right, and what a query finds. [HistKv]: what it finds in a
      database, whatever order its goroutines write and trim in.
    - Composition ([Pipes]): a one-to-one binding mirrors its source when the
      goroutines run in the order they were started ([pipes_mirror]), and not
      when they do not ([pipes_reorder]).
    - Gossip ([Gossip]): a topic never gets to know a machine of a peer, since
      introducing one panics ([topic_knows_no_machine]); what the handlers would do
      with known ones, for when this is fixed: clocks received in any order leave
      the latest ([MsgUpdates_latest]); who is asked for what is missing, and how
      many messages go out in a time window.
    - Nodes ([Node], [Members]): a pool never outgrows its limit if one worker is
      forked at a time ([pool_bounded]; [pool1_overflows] for two); workers hand
      over as they should ([fork_handshake]), are killed
      by the end of [Start] only ([only_Start_kills]), and are never given to a client
      ([requests_vetoed]).
    - Observation ([Logging], [Dbg], [Graph], [GraphText]): the pipes two
      machines log are read back as the edge between them ([pipes_paired]); what
      is queued for the debugger is sent in order ([work_off_all]); the XML of a
      graph ends whatever machines claim of their parents ([Markup_total]).
    - The debugger: no handler panics, whatever users do and whatever readable
      messages clients send, as long as machines keep their states and parent,
      no machine is above itself, and no messages are collected
      ([debugger_runs]; [stuck_at_bad], [cycle_overflows] and [gc_leaves] show
      what happens else); the cursor shows what passes the filters and skips nothing
      that does ([cursor_shows]); errors are found where they were reported
      ([errors_seen]); collecting messages ends ([GcMsgs_ends]); what comes in is
      handed over once and in order ([messages_delivered]); addresses are read back
      ([Address_round]); a connection to another debugger that
      is down has a dial under way ([fwd_dials]).
    - Data ([StateList], [SchemaDef], [MachTime], [Machine]): round trips,
      bounds, wrap-around.

    ** Bounds and fuel

    Ticks are [Z] modulo 2^64, queue lengths modulo 2^32 and 2^16, as the code
    stores them.  [queueLoop] takes fuel and answers [Block] without it;
    [processQueue_drains] shows that one round per auto mutation and two per
    other mutation are enough without handlers.  [parseAdd_loop],
    [parseRequire_loop] and [visit] take the number of states as fuel;
    [parseAdd_loop_fuel], [parseRequire_loop_spec] and [TopologicalSort_spec]
    show that this is enough.  The order theorem of [sortRequire] covers lists
    of fewer than 20 states, which Go's sort handles by insertion.  The messages
    of [Rpc] keep their widths: [uint32] ticks, [uint16] indexes and queue
    ticks, [uint8] machine ticks and checksums; [fits] bounds what may pass.
    The steps of handler calls need no fuel: [measure] bounds them.

    ** Parameters

    What the source leaves to chance or to others is an argument: the order a
    map is ranged over ([order], [autoOrder]), random identifiers ([randId]),
    whether a context is done ([done]), the methods reflection finds on a
    handler ([hb_method]; [hd_methods] and [hd_fields]), how the code of a handler ends ([Exec] of
    [HandlerLoop]), the functions of evals ([evals]), the hash of a
    schema ([schemaHash]), the parser of remote arguments ([unmarshal]), what
    the network does to a call ([NetOutcome]), the draws of [rand.Intn] ([rnd]),
    the codec of messages ([Codec]), the cache of errors of a worker
    ([cache_new], [cache_add], [cache_count]), what waits, calls and
    processes of a node end in, the library of graphs ([GraphLib], [GraphLaws]),
    and the formatting of log messages.

    ** Not modelled

    Locks, and the interleaving of goroutines but for those of [HandlerLoop],
    [Calls], [Node], [Pipes], [Gossip] and [RpcSync] (calls from outside are taken
    one at a time, which is what the queue's lock gives), the log messages and
    tracer calls of transitions ([Logging] takes the messages as they come),
    submachines and dispose handlers.  [HandlerLoop] leaves out the source of the
    exception that a panic becomes.  Of [rpc]: the state machines the server and
    the client drive (the names of their active states are data here), the codec
    and the REPL.  Of the debugger: what is drawn, but for the address bar (log, reader,
    diagrams, toolbars, dialogs), files and command-line parameters, playing, the garbage collection
    of log entries; the goroutine that selects a client runs as one step, with
    neither its context nor the end of the log.  Of the other
    packages: the SQL database of [history], the transport of [pubsub] (libp2p),
    the loggers, mirrors and debugging of [helpers], the processes of [node],
    OpenTelemetry, Prometheus, integrations, and the tools besides the debugger
    (REPL, visualizer, generator, relay): they parse parameters, print, and call
    libraries. *)

From stdpp Require Export base gmap sets list strings fin_maps sorting pretty.
From Stdlib Require Export ZArith Lia.

#[global] Open Scope Z_scope.
#[export] Set Warnings "-clear-no-such-hyp,-notation-overridden,-register-all".

(** ** Outcomes: what running a piece of Go code can end in. *)

(** [Ok a]: the code returned [a]; [Panic msg]: an unrecovered run-time panic
    left the code; [Block]: the goroutine waits for ever on a channel nobody
    serves. *)
Inductive outcome (A : Type) : Type :=
| Ok (a : A)
| Panic (msg : string)
| Block.
Arguments Ok {A} a.
Arguments Panic {A} msg.
Arguments Block {A}.

#[export] Instance outcome_ret : MRet outcome := @Ok.
#[export] Instance outcome_bind : MBind outcome := fun A B f m =>
  match m with
  | Ok a => f a
  | Panic s => Panic s
  | Block => Block
  end.
#[export] Instance outcome_fmap : FMap outcome := fun A B f m =>
  match m with
  | Ok a => Ok (f a)
  | Panic s => Panic s
  | Block => Block
  end.

Lemma outcome_bind_ok {A B} (f : A → outcome B) (m : outcome A) b :
  m ≫= f = Ok b ↔ ∃ a, m = Ok a ∧ f a = Ok b.
Proof. destruct m; simpl; naive_solver. Qed.

Lemma outcome_fmap_ok {A B} (f : A → B) (m : outcome A) b :
  f <$> m = Ok b ↔ ∃ a, m = Ok a ∧ f a = b.
Proof. destruct m; simpl; naive_solver. Qed.

Lemma mapM_ok_nil {A B} (f : A → outcome B) : mapM f [] = Ok [].
Proof. done. Qed.

Lemma mapM_ok_cons {A B} (f : A → outcome B) x l y k :
  f x = Ok y → mapM f l = Ok k → mapM f (x :: l) = Ok (y :: k).
Proof. intros H1 H2. unfold mapM in *. simpl. rewrite H1. simpl. by rewrite H2. Qed.

(** A loop that succeeds on each element returns the list of results. *)
Lemma mapM_ok_fmap {A B C} (f : B → outcome C) (g : A → B) (h : A → C) l :
  (∀ x, x ∈ l → f (g x) = Ok (h x)) → mapM f (g <$> l) = Ok (h <$> l).
Proof.
  induction l as [|x l IH]; intros Hf; [done|]. rewrite !fmap_cons.
  apply mapM_ok_cons; [apply Hf; left|]. apply IH. intros y Hy. apply Hf. by right.
Qed.

Lemma mapM_ok_Forall2 {A B} (f : A → outcome B) l k :
  mapM f l = Ok k ↔ Forall2 (λ x y, f x = Ok y) l k.
Proof.
  split.
  - revert k. induction l as [|x l IH]; intros k; cbn.
    { intros [= <-]. constructor. }
    unfold mbind, outcome_bind. destruct (f x) as [y| |] eqn:Hy; [|done..].
    change (foldr _ _ l) with (mapM f l). destruct (mapM f l) as [k'| |] eqn:Hk; [|done..].
    intros [= <-]. constructor; [done|]. by apply IH.
  - induction 1 as [|x y l k Hx _ IH]; [done|]. by apply mapM_ok_cons.
Qed.

Definition is_ok {A} (m : outcome A) : bool :=
  match m with Ok _ => true | _ => false end.

(** Inversion of monadic code that returned. *)
Ltac inv_ok :=
  repeat match goal with
  | H : _ ≫= _ = Ok _ |- _ => apply outcome_bind_ok in H; destruct H as (? & ? & ?)
  | H : _ <$> _ = Ok _ |- _ => apply outcome_fmap_ok in H; destruct H as (? & ? & ?)
  | H : mret _ = Ok _ |- _ => unfold mret, outcome_ret in H
  | H : Ok _ = Ok _ |- _ => injection H as H
  | H : Panic _ = Ok _ |- _ => discriminate H
  | H : Block = Ok _ |- _ => discriminate H
  end; simplify_eq.

(** ** Stateful code: a state of type [S] is threaded through code that can
    fail. *)

Definition run (S A : Type) : Type := S → outcome (A * S).

#[export] Instance run_ret {S} : MRet (run S) := λ A a s, Ok (a, s).
#[export] Instance run_bind {S} : MBind (run S) := λ A B f e s,
  match e s with
  | Ok (a, s') => f a s'
  | Panic msg => Panic msg
  | Block => Block
  end.

Definition get {S} : run S S := λ s, Ok (s, s).
Definition gets {S A} (f : S → A) : run S A := λ s, Ok (f s, s).
Definition modify {S} (f : S → S) : run S () := λ s, Ok ((), f s).
Definition lift {S A} (e : outcome A) : run S A := λ s, a ← e; Ok (a, s).

Definition panic {S A} (msg : string) : run S A := λ _, Panic msg.
Definition block {S A} : run S A := λ _, Block.

(** Code whose state outlives its panics: what was written before one stays. *)
Definition held (S A : Type) : Type := S → S * outcome A.

#[export] Instance held_ret {S} : MRet (held S) := λ A a s, (s, Ok a).
#[export] Instance held_bind {S} : MBind (held S) := λ A B f e s,
  match e s with
  | (s', Ok a) => f a s'
  | (s', Panic msg) => (s', Panic msg)
  | (s', Block) => (s', Block)
  end.

Definition hget {S} : held S S := λ s, (s, Ok s).
Definition hmodify {S} (f : S → S) : held S () := λ s, (f s, Ok ()).
Definition hlift {S A} (e : outcome A) : held S A := λ s, (s, e).

(** [for _, x := range l]. *)
Fixpoint hfor {S A} (f : A → held S ()) (l : list A) : held S () :=
  match l with
  | [] => mret ()
  | x :: l => f x ;; hfor f l
  end.

(** [e] keeps [P], however it ends. *)
Definition holds {S A} (P : S → Prop) (e : held S A) : Prop := ∀ s, P s → P (e s).1.

(** What held code keeps, and one run of it. *)

Section held.
Context {S : Type}.
Implicit Types (P : S → Prop).

Lemma holds_ret {A} P (a : A) : holds P (mret a).
Proof. by intros s Hs. Qed.

Lemma holds_bind {A B} P (e : held S A) (f : A → held S B) :
  holds P e → (∀ a, holds P (f a)) → holds P (e ≫= f).
Proof.
  intros He Hf s Hs. specialize (He s Hs). unfold mbind, held_bind.
  destruct (e s) as [s' [a|msg|]]; cbn in *; [by apply Hf|done..].
Qed.

Lemma holds_hget P : holds P hget.
Proof. by intros s Hs. Qed.

Lemma holds_hlift {A} P (e : outcome A) : holds P (hlift e).
Proof. by intros s Hs. Qed.

Lemma holds_hmodify P (f : S → S) : (∀ s, P s → P (f s)) → holds P (hmodify f).
Proof. intros Hf s Hs. by apply Hf. Qed.

Lemma holds_hfor {A} P (f : A → held S ()) l : (∀ x, holds P (f x)) → holds P (hfor f l).
Proof. intros Hf. induction l as [|x l IH]; [apply holds_ret|]. cbn. by apply holds_bind. Qed.

Lemma held_get_bind {A} (f : S → held S A) s : (hget ≫= f) s = f s s.
Proof. done. Qed.
Lemma held_modify_bind {A} (g : S → S) (f : () → held S A) s : (hmodify g ≫= f) s = f () (g s).
Proof. done. Qed.
Lemma held_ret_bind {A B} (a : A) (f : A → held S B) s : (mret a ≫= f) s = f a s.
Proof. done. Qed.
Lemma held_lift_bind {A B} (e : outcome A) a (f : A → held S B) s :
  e = Ok a → (hlift e ≫= f) s = f a s.
Proof. by intros ->. Qed.
Lemma held_ok_bind {A B} (e : held S A) a (f : A → held S B) s s' :
  e s = (s', Ok a) → (e ≫= f) s = f a s'.
Proof. unfold mbind, held_bind. by intros ->. Qed.
Lemma held_panic_bind {A B} (e : held S A) msg (f : A → held S B) s s' :
  e s = (s', Panic msg) → (e ≫= f) s = (s', Panic msg).
Proof. unfold mbind, held_bind. by intros ->. Qed.

(** Total correctness of one run. *)
Definition ends {A} (e : held S A) (s : S) (Q : A → S → Prop) : Prop :=
  ∃ a s', e s = (s', Ok a) ∧ Q a s'.

Lemma ends_bind {A B} (e : held S A) (f : A → held S B) s Q :
  ends e s (λ a s1, ends (f a) s1 Q) → ends (e ≫= f) s Q.
Proof.
  intros (a & s1 & He & b & s2 & Hf & HQ). exists b, s2. split; [|done].
  unfold mbind, held_bind. by rewrite He.
Qed.

Lemma ends_ret {A} (a : A) s (Q : A → S → Prop) : Q a s → ends (mret a) s Q.
Proof. intros HQ. by exists a, s. Qed.

Lemma ends_mono {A} (e : held S A) s (Q Q' : A → S → Prop) :
  ends e s Q → (∀ a s', Q a s' → Q' a s') → ends e s Q'.
Proof. intros (a & s' & He & HQ) Hm. exists a, s'. auto. Qed.
End held.

(** [e] keeps the property [P] of the state whenever it returns. *)
Definition keeps {S A} (P : S → Prop) (e : run S A) : Prop :=
  ∀ s a s', P s → e s = Ok (a, s') → P s'.

(** Partial correctness: what holds of the result and the state when [e]
    returns. *)
Definition hoare {S A} (P : S → Prop) (e : run S A) (Q : A → S → Prop) : Prop :=
  ∀ s a s', P s → e s = Ok (a, s') → Q a s'.

(** Total correctness of one run. *)
Definition returns {S A} (e : run S A) (s : S) (Q : A → S → Prop) : Prop :=
  ∃ a s', e s = Ok (a, s') ∧ Q a s'.

Section run.
Context {S : Type}.
Implicit Types (P : S → Prop).

Lemma run_bind_ok {A B} (f : A → run S B) (e : run S A) s b s' :
  (e ≫= f) s = Ok (b, s') ↔ ∃ a s1, e s = Ok (a, s1) ∧ f a s1 = Ok (b, s').
Proof.
  unfold mbind, run_bind. destruct (e s) as [[a s1]|msg|]; split; try naive_solver.
Qed.

Lemma keeps_ret {A} P (a : A) : keeps P (mret a).
Proof. intros s a' s' HP [= _ <-]. done. Qed.

Lemma keeps_bind {A B} P (f : A → run S B) (e : run S A) :
  keeps P e → (∀ a, keeps P (f a)) → keeps P (e ≫= f).
Proof.
  intros He Hf s b s' HP (a & s1 & H1 & H2)%run_bind_ok. eapply Hf, H2. by eapply He.
Qed.

Lemma keeps_panic {A} P msg : keeps P (@panic S A msg).
Proof. by intros s a s' HP ?. Qed.

Lemma keeps_block {A} P : keeps P (@block S A).
Proof. by intros s a s' HP ?. Qed.

Lemma keeps_get P : keeps P get.
Proof. by intros s a s' HP [= _ <-]. Qed.

Lemma keeps_gets {A} P (f : S → A) : keeps P (gets f).
Proof. by intros s a s' HP [= _ <-]. Qed.

Lemma keeps_modify P (f : S → S) : (∀ s, P s → P (f s)) → keeps P (modify f).
Proof. intros Hf s a s' HP [= _ <-]. auto. Qed.

Lemma keeps_lift {A} P (e : outcome A) : keeps P (lift e).
Proof. intros s a s' HP H. unfold lift in H. destruct e; by simplify_eq/=. Qed.

Lemma keeps_hoare {A} P (e : run S A) : keeps P e ↔ hoare P e (λ _, P).
Proof. done. Qed.

Lemma hoare_bind {A B} P (R : A → S → Prop) Q (f : A → run S B) (e : run S A) :
  hoare P e R → (∀ a, hoare (R a) (f a) Q) → hoare P (e ≫= f) Q.
Proof.
  intros He Hf s b s' HP (a & s1 & H1 & H2)%run_bind_ok. eapply Hf, H2. by eapply He.
Qed.

Lemma hoare_conseq {A} P P' (Q Q' : A → S → Prop) (e : run S A) :
  hoare P' e Q' → (∀ s, P s → P' s) → (∀ a s, Q' a s → Q a s) → hoare P e Q.
Proof. intros He HP HQ s a s' Hs Hr. eapply HQ, He, Hr. by apply HP. Qed.

Lemma hoare_ret {A} P (Q : A → S → Prop) a : (∀ s, P s → Q a s) → hoare P (mret a) Q.
Proof. intros HQ s a' s' HP [= <- <-]. auto. Qed.

Lemma hoare_get P (Q : S → S → Prop) : (∀ s, P s → Q s s) → hoare P get Q.
Proof. intros HQ s a s' HP [= <- <-]. auto. Qed.

Lemma hoare_modify P (Q : () → S → Prop) (f : S → S) :
  (∀ s, P s → Q () (f s)) → hoare P (modify f) Q.
Proof. intros HQ s a s' HP [= <- <-]. auto. Qed.

Lemma hoare_lift {A} P (e : outcome A) : hoare P (lift e) (λ a s, P s ∧ e = Ok a).
Proof. intros s a s' HP H. unfold lift in H. destruct e; by simplify_eq/=. Qed.

Lemma returns_bind {A B} (f : A → run S B) (e : run S A) s Q :
  returns e s (λ a s1, returns (f a) s1 Q) → returns (e ≫= f) s Q.
Proof.
  intros (a & s1 & H1 & b & s2 & H2 & HQ). exists b, s2. split; [|done].
  apply run_bind_ok. eauto.
Qed.

Lemma returns_ret {A} (a : A) s (Q : A → S → Prop) : Q a s → returns (mret a) s Q.
Proof. intros HQ. by exists a, s. Qed.

Lemma returns_mono {A} (e : run S A) s (Q Q' : A → S → Prop) :
  returns e s Q → (∀ a s', Q a s' → Q' a s') → returns e s Q'.
Proof. intros (a & s' & He & HQ) Hm. exists a, s'. auto. Qed.

(** Code is deterministic: what two specifications say holds of the same run. *)
Lemma returns_and {A} (e : run S A) s (Q Q' : A → S → Prop) :
  returns e s Q → returns e s Q' → returns e s (λ a s', Q a s' ∧ Q' a s').
Proof.
  intros (a & s1 & He & HQ) (a' & s1' & He' & HQ'). rewrite He in He'. injection He' as <- <-.
  by exists a, s1.
Qed.
End run.

Create HintDb keeps.
#[export] Hint Resolve keeps_panic keeps_block keeps_ret keeps_bind keeps_get keeps_gets keeps_modify keeps_lift : keeps.

(** Walk through monadic code to show that it keeps a property. *)
Ltac keeps_step :=
  match goal with
  | |- keeps _ (mret _) => apply keeps_ret
  | |- keeps _ (_ ≫= _) => apply keeps_bind; [|intros ?]
  | |- keeps _ get => apply keeps_get
  | |- keeps _ (gets _) => apply keeps_gets
  | |- keeps _ (modify _) => apply keeps_modify; intros ? ?
  | |- keeps _ (lift _) => apply keeps_lift
  | |- keeps _ (match ?x with _ => _ end) => destruct x eqn:?
  end.
Ltac keeps := repeat (keeps_step || (solve [eauto with keeps])).

(** ** Machine integers. Ticks are Go [uint64] values, kept as [Z] with their
    wrap-around written out; indexes are Go [int] values ([-1] for missing). *)

Definition two64 : Z := 2 ^ 64.
Definition wrap64 (z : Z) : Z := z `mod` two64.
Definition wrap16 (z : Z) : Z := z `mod` 2 ^ 16.
Definition is_u64 (z : Z) : Prop := 0 ≤ z < two64.

Lemma two64_val : two64 = 18446744073709551616.
Proof. reflexivity. Qed.

Lemma wrap64_u64 z : is_u64 (wrap64 z).
Proof. unfold is_u64, wrap64. apply Z.mod_pos_bound. reflexivity. Qed.

Lemma wrap64_id z : is_u64 z → wrap64 z = z.
Proof. apply Z.mod_small. Qed.

(** 2^64 is even, so wrapping around keeps the parity. *)
Lemma wrap64_odd z : Z.odd (wrap64 z) = Z.odd z.
Proof.
  unfold wrap64. rewrite (Z.div_mod z two64) at 2 by (rewrite two64_val; lia).
  rewrite Z.odd_add, Z.odd_mul. replace (Z.odd two64) with false by reflexivity.
  by destruct (Z.odd (z `mod` two64)).
Qed.

Lemma wrap64_add_l a b : wrap64 (wrap64 a + b) = wrap64 (a + b).
Proof. unfold wrap64. by rewrite Zplus_mod_idemp_l. Qed.

Lemma wrap64_add_r a b : wrap64 (a + wrap64 b) = wrap64 (a + b).
Proof. unfold wrap64. by rewrite Zplus_mod_idemp_r. Qed.

Lemma wrap64_sub_l a b : wrap64 (wrap64 a - b) = wrap64 (a - b).
Proof. unfold wrap64. by rewrite Zminus_mod_idemp_l. Qed.

Lemma wrap64_sub_r a b : wrap64 (a - wrap64 b) = wrap64 (a - b).
Proof. unfold wrap64. by rewrite Zminus_mod_idemp_r. Qed.

(** ** Go slices *)

Section slices.
Context {A : Type} `{EqDecision A}.
Implicit Types (l k : list A) (x y : A).

(** [slices.Contains] *)
Definition contains l x : bool := bool_decide (x ∈ l).

(** [slices.Index]: the position of the first occurrence, or -1. *)
Definition index_of l x : Z :=
  match list_find (x =.) l with
  | Some (i, _) => Z.of_nat i
  | None => -1
  end.

Lemma contains_true l x : contains l x = true ↔ x ∈ l.
Proof. apply bool_decide_eq_true. Qed.

Lemma contains_false l x : contains l x = false ↔ x ∉ l.
Proof. apply bool_decide_eq_false. Qed.

Lemma contains_cons l x y :
  contains (y :: l) x = bool_decide (x = y) || contains l x.
Proof.
  unfold contains. destruct (decide (x = y)) as [->|Hne].
  - rewrite (bool_decide_eq_true_2 (y = y)) by done. simpl.
    apply bool_decide_eq_true_2. left.
  - rewrite (bool_decide_eq_false_2 (x = y)) by done. simpl.
    apply bool_decide_ext. rewrite elem_of_cons. naive_solver.
Qed.

Lemma index_of_in l x :
  x ∈ l → 0 ≤ index_of l x ∧ l !! Z.to_nat (index_of l x) = Some x.
Proof.
  intros Hin. unfold index_of. destruct (list_find (x =.) l) as [[i y]|] eqn:Hf.
  - apply list_find_Some in Hf as (Hl & <- & _). rewrite Nat2Z.id. split; [lia|done].
  - rewrite list_find_None, Forall_forall in Hf. by destruct (Hf x).
Qed.

Lemma index_of_not_in l x : x ∉ l → index_of l x = -1.
Proof.
  intros Hn. unfold index_of. destruct (list_find (x =.) l) as [[i y]|] eqn:Hf; [|done].
  apply list_find_Some in Hf as (Hl & <- & _). destruct Hn. by eapply list_elem_of_lookup_2.
Qed.

Lemma index_of_neg l x : index_of l x = -1 → x ∉ l.
Proof. intros Hi Hin. destruct (index_of_in l x Hin). lia. Qed.

Lemma index_of_lookup l i x :
  NoDup l → l !! i = Some x → index_of l x = Z.of_nat i.
Proof.
  intros Hnd Hl. destruct (index_of_in l x) as [Hge Hi]; [by eapply list_elem_of_lookup_2|].
  rewrite (NoDup_lookup l _ _ _ Hnd Hl Hi). lia.
Qed.

Lemma index_of_inj l x y :
  x ∈ l → index_of l x = index_of l y → x = y.
Proof.
  intros Hx He. destruct (index_of_in l x Hx) as [Hge Hi].
  destruct (decide (y ∈ l)) as [Hy|Hy].
  - destruct (index_of_in l y Hy) as [_ Hj]. rewrite <- He in Hj. congruence.
  - rewrite (index_of_not_in l y Hy) in He. lia.
Qed.

(** The first element that passes a test: a loop that returns from its body. *)
Fixpoint find_first {B} (f : B → bool) (l : list B) : option B :=
  match l with
  | [] => None
  | x :: l => if f x then Some x else find_first f l
  end.

Lemma find_first_some {B} (f : B → bool) (l : list B) (b : B) :
  find_first f l = Some b → b ∈ l ∧ f b = true.
Proof.
  induction l as [|y l IH]; simpl; [done|]. destruct (f y) eqn:Hf.
  - intros [= ->]. split; [left|done].
  - intros [? ?]%IH. split; [by right|done].
Qed.

Lemma find_first_none {B} (f : B → bool) (l : list B) :
  find_first f l = None ↔ ∀ b : B, b ∈ l → f b = false.
Proof.
  induction l as [|y l IH]; simpl; [set_solver|]. destruct (f y) eqn:Hf.
  - split; [done|]. intros Hall. specialize (Hall y ltac:(left)). congruence.
  - rewrite IH. set_solver.
Qed.

(** [slices.Delete(l, i, j)]: panics when [l[i:j]] is out of range. *)
Definition slices_delete l (i j : Z) : outcome (list A) :=
  if bool_decide (0 ≤ i ≤ j ∧ j ≤ Z.of_nat (length l))
  then Ok (take (Z.to_nat i) l ++ drop (Z.to_nat j) l)
  else Panic "slice bounds out of range".

(** [l[i]] with Go's bounds check. *)
Definition slice_get l (i : Z) : outcome A :=
  if bool_decide (0 ≤ i) then
    match l !! Z.to_nat i with
    | Some x => Ok x
    | None => Panic "index out of range"
    end
  else Panic "index out of range".

(** [l[i] = x] with Go's bounds check. *)
Definition slice_set l (i : Z) (x : A) : outcome (list A) :=
  if bool_decide (0 ≤ i < Z.of_nat (length l)) then Ok (<[Z.to_nat i := x]> l)
  else Panic "index out of range".

(** A map-backed "seen" set that keeps the first occurrence of each element. *)
Fixpoint uniq_seen (seen l : list A) : list A :=
  match l with
  | [] => []
  | x :: l =>
      if bool_decide (x ∈ seen) then uniq_seen seen l
      else x :: uniq_seen (x :: seen) l
  end.

Lemma elem_of_uniq_seen seen l x :
  x ∈ uniq_seen seen l ↔ x ∈ l ∧ x ∉ seen.
Proof.
  revert seen. induction l as [|y l IH]; intros seen; simpl.
  { rewrite elem_of_nil. tauto. }
  case_bool_decide as Hy; rewrite ?elem_of_cons, IH, ?elem_of_cons;
    destruct (decide (x = y)) as [->|]; tauto.
Qed.

Lemma NoDup_uniq_seen seen l : NoDup (uniq_seen seen l).
Proof.
  revert seen. induction l as [|y l IH]; intros seen; simpl; [constructor|].
  case_bool_decide; [done|]. constructor; [|done].
  rewrite elem_of_uniq_seen. set_solver.
Qed.

Lemma uniq_seen_id seen l :
  NoDup l → (∀ x, x ∈ l → x ∉ seen) → uniq_seen seen l = l.
Proof.
  intros Hnd. revert seen. induction Hnd as [|y l Hy Hnd IH]; intros seen Hs; [done|].
  simpl. rewrite bool_decide_eq_false_2 by (apply Hs; left). f_equal.
  apply IH. intros x Hx. rewrite elem_of_cons. intros [->|Hin]; [done|].
  apply (Hs x); [by right|done].
Qed.

Lemma slice_get_ok l i x :
  slice_get l i = Ok x ↔ 0 ≤ i ∧ l !! Z.to_nat i = Some x.
Proof.
  unfold slice_get. case_bool_decide; [|naive_solver].
  destruct (l !! Z.to_nat i); naive_solver.
Qed.

Lemma slice_get_nat l (i : nat) x : l !! i = Some x → slice_get l (Z.of_nat i) = Ok x.
Proof. intros Hl. apply slice_get_ok. rewrite Nat2Z.id. split; [lia|done]. Qed.

Lemma slice_set_in l i x :
  0 ≤ i < Z.of_nat (length l) → slice_set l i x = Ok (<[Z.to_nat i := x]> l).
Proof. intros Hi. unfold slice_set. by rewrite bool_decide_eq_true_2. Qed.

Lemma slices_delete_ok l i j l' :
  slices_delete l i j = Ok l' ↔
  (0 ≤ i ≤ j ∧ j ≤ Z.of_nat (length l)) ∧ l' = take (Z.to_nat i) l ++ drop (Z.to_nat j) l.
Proof. unfold slices_delete. case_bool_decide; naive_solver. Qed.

(** Deleting the first occurrence of an element of a duplicate-free slice. *)
Lemma slices_delete_index l x :
  NoDup l → x ∈ l →
  slices_delete l (index_of l x) (index_of l x + 1)
    = Ok (filter (λ y, y ≠ x) l).
Proof.
  intros Hnd Hin. destruct (index_of_in l x Hin) as [Hge Hi].
  apply slices_delete_ok. pose proof (lookup_lt_Some _ _ _ Hi).
  split; [lia|]. replace (Z.to_nat (index_of l x + 1)) with (S (Z.to_nat (index_of l x))) by lia.
  rewrite <- (take_drop_middle l _ _ Hi) at 1. rewrite filter_app, filter_cons.
  rewrite decide_False by naive_solver.
  rewrite <- (take_drop_middle l _ _ Hi), NoDup_app, NoDup_cons in Hnd.
  destruct Hnd as (_ & Hd1 & Hd2 & _).
  assert (Hall : ∀ k, x ∉ k → filter (λ y, y ≠ x) k = k).
  { clear. induction k as [|y k IH]; intros Hn; [done|].
    rewrite filter_cons, decide_True by set_solver. f_equal. apply IH. set_solver. }
  rewrite !Hall; [done| done |]. intros Hx. apply (Hd1 x Hx). left.
Qed.

Lemma filter_eq_self (P : A → Prop) `{!∀ x, Decision (P x)} l :
  (∀ x, x ∈ l → P x) → filter P l = l.
Proof.
  induction l as [|y l IH]; intros Hl; [done|].
  rewrite filter_cons, decide_True by (apply Hl; left). f_equal.
  apply IH. intros x Hx. apply Hl. by right.
Qed.

Lemma filter_none (P : A → Prop) `{!∀ x, Decision (P x)} l :
  (∀ x, x ∈ l → ¬ P x) → filter P l = [].
Proof.
  induction l as [|y l IH]; intros Hl; [done|].
  rewrite filter_cons, decide_False by (apply Hl; left).
  apply IH. intros x Hx. apply Hl. by right.
Qed.

Lemma length_filter_le (P : A → Prop) `{!∀ x, Decision (P x)} l :
  (length (filter P l) ≤ length l)%nat.
Proof. induction l as [|y l IH]; [done|]. rewrite filter_cons. case_decide; simpl; lia. Qed.

Lemma filter_length_eq (P : A → Prop) `{!∀ x, Decision (P x)} l :
  length (filter P l) = length l → ∀ x, x ∈ l → P x.
Proof.
  induction l as [|y l IH]; intros Hl x Hx; [set_solver|].
  rewrite filter_cons in Hl. case_decide as HP; simpl in Hl.
  - apply elem_of_cons in Hx as [->|Hx]; [done|]. apply IH; [lia|done].
  - pose proof (length_filter_le P l). lia.
Qed.
End slices.

Create Rewrite HintDb go.
#[export] Hint Rewrite @contains_true @contains_false @bool_decide_eq_true @bool_decide_eq_false
  negb_true_iff negb_false_iff andb_true_iff orb_true_iff andb_false_iff orb_false_iff : go.

(** Turn every boolean test of the code in the context into the proposition
    it decides. *)
Ltac reflect := repeat (progress (autorewrite with go in * )).

(** Case analysis on the tests of the code under analysis. *)
Ltac go_cases :=
  repeat (case_match; simplify_eq/=); reflect.

(** Decide a closed decidable proposition by computation. *)
Ltac compute_decide := refine (bool_decide_unpack _ _); vm_compute; exact I.
