(* ===== verification/StateList.v ===== *)
(** * State lists, ticks and slice helpers ([pkg/machine/mach_utils.go])

    The [S] type (an ordered list of state names) with its index and set
    operations, the parity reading of ticks, the generic slice helpers of the
    package and the handler-name parser.  A Go slice is a [list]; the
    operations that may index out of range return an [outcome]. *)

From S2P Require Import Prelude.
#[local] Open Scope Z_scope.

(** ** Ticks *)

Definition IsActiveTick (tick : Z) : bool := bool_decide (tick `mod` 2 = 1).

Definition NextActive (tick : Z) : Z :=
  if IsActiveTick tick then wrap64 (tick + 2) else wrap64 (tick + 1).

Definition NextInactive (tick : Z) : Z :=
  if negb (IsActiveTick tick) then wrap64 (tick + 2) else wrap64 (tick + 1).

Definition NextActiveIn (tick : Z) : Z := if IsActiveTick tick then 2 else 1.

Definition NextInactiveIn (tick : Z) : Z :=
  if negb (IsActiveTick tick) then 2 else 1.

(** [Result] is a [uint64]: [Executed], [Canceled], and everything from
    [Queued] on is the queue tick the mutation will run at. *)
Definition Executed : Z := 0.
Definition Canceled : Z := 1.
Definition Queued : Z := 2.

Definition IsQueuedResult (result : Z) : bool := bool_decide (result > Canceled).

Definition Result_String (r : Z) : string :=
  if bool_decide (r = Executed) then "executed"
  else if bool_decide (r = Canceled) then "canceled"
  else "queued".

(** ** Standard library strings (ASCII) *)

Definition is_space (c : Ascii.ascii) : bool :=
  let n := Ascii.nat_of_ascii c in
  bool_decide (n = 32%nat) || (bool_decide (9 ≤ n)%nat && bool_decide (n ≤ 13)%nat).

Fixpoint trim_left (s : string) : string :=
  match s with
  | String c s' => if is_space c then trim_left s' else s
  | EmptyString => EmptyString
  end.

Definition TrimSpace (s : string) : string :=
  String.rev (trim_left (String.rev (trim_left s))).

Definition HasPrefix (s prefix : string) : bool := String.prefix prefix s.

Definition HasSuffix (s suffix : string) : bool :=
  String.prefix (String.rev suffix) (String.rev s).

Definition str_len (s : string) : Z := Z.of_nat (String.length s).

(** [s[i:j]] with the bounds known to hold. *)
Definition substring (s : string) (i j : Z) : string :=
  String.substring (Z.to_nat i) (Z.to_nat (j - i)) s.

Definition TrimPrefix (s prefix : string) : string :=
  if HasPrefix s prefix then substring s (str_len prefix) (str_len s) else s.

Definition TrimSuffix (s suffix : string) : string :=
  if HasSuffix s suffix then substring s 0 (str_len s - str_len suffix) else s.

Definition str_join (sep : string) (l : list string) : string :=
  String.concat sep l.

(** ** Slice helpers of the package *)

Definition slicesFilter {A} (coll : list A) (fn : A → bool) : list A :=
  filter (λ x, Is_true (fn x)) coll.

Definition slicesReverse {A} (coll : list A) : list A := rev coll.

Definition slicesUniq {A} `{EqDecision A} (coll : list A) : list A :=
  uniq_seen [] coll.

Definition slicesNone {A} `{EqDecision A} (col1 col2 : list A) : bool :=
  forallb (λ el, negb (contains col1 el)) col2.

Definition slicesEvery {A} `{EqDecision A} (col1 col2 : list A) : bool :=
  forallb (λ el, contains col1 el) col2.

(** A clone of [coll] without the first occurrence of [el]. *)
Definition slicesWithout {A} `{EqDecision A} (coll : list A) (el : A) : list A :=
  let idx := index_of coll el in
  if bool_decide (idx = -1) then coll
  else take (Z.to_nat idx) coll ++ drop (Z.to_nat (idx + 1)) coll.

(** [slices.DeleteFunc] compacts in place: the shortened slice, and what the
    caller's slice of the same array reads afterwards (the tail is zeroed). *)
Definition slices_DeleteFunc (coll : list string) (del : string → bool)
  : list string * list string :=
  let kept := slicesFilter coll (λ x, negb (del x)) in
  (kept, kept ++ replicate (length coll - length kept) "").

Definition truncateStr (s : string) (maxLength : Z) : outcome string :=
  if bool_decide (str_len s ≤ maxLength) then Ok s
  else if bool_decide (maxLength < 0) then Panic "slice bounds out of range"
  else if bool_decide (maxLength < 5) then Ok (substring s 0 maxLength)
  else Ok (substring s 0 (maxLength - 3) +:+ "...").

Definition j (states : list string) : string := str_join " " states.
Definition jw (states : list string) (sep : string) : string := str_join sep states.

(** ** State lists *)

Definition IndexToStates (index : list string) (states : list Z)
  : outcome (list string) :=
  mapM (λ i,
    if bool_decide (Z.of_nat (length index) > i) && negb (bool_decide (i = -1))
    then slice_get index i
    else Ok ("unknown" +:+ pretty i)) states.

Definition StatesToIndex (index states : list string) : list Z :=
  (λ s, index_of index (TrimSpace s)) <$> states.

Definition StatesDiff (states1 states2 : list string) : list string :=
  slicesFilter states1 (λ name, negb (contains states2 name)).

Definition StatesShared (states1 states2 : list string) : list string :=
  slicesFilter states1 (λ name, contains states2 name).

Definition StatesEqual (states1 states2 : list string) : bool :=
  slicesEvery states1 states2 && slicesEvery states2 states1.

Definition StatesPrefix (prefix : string) (states : list string) : list string :=
  (λ name, prefix +:+ name) <$> states.

Definition StatesWithPrefix (prefix : string) (states : list string) : list string :=
  slicesFilter states (λ name, HasPrefix name prefix).

Definition SAdd (states : list (list string)) : list string :=
  match states with
  | [] => []
  | s0 :: rest => slicesUniq (fold_left (λ s st, s ++ st) rest s0)
  end.

(** The loop over the groups starts at index 1, as in the source. *)
Definition SRem (src : list string) (states : list (list string)) : list string :=
  match states with
  | [] => src
  | _ :: rest => fold_left (λ s group, fold_left slicesWithout group s) rest src
  end.

Module S.
Definition FilterIndex (s : list string) (idxs : list Z) := IndexToStates s idxs.
Definition Unique (s : list string) := slicesUniq s.
Definition Add (s : list string) (states : list (list string)) : list string :=
  match states with
  | [] => s
  | _ => slicesUniq (mjoin (s :: states))
  end.
Definition FilterPrefix (s : list string) (prefix : list string) : list string :=
  fold_left (λ ret p, Add ret [StatesWithPrefix p s]) prefix [].
Definition FilterMatch (matchString : string → bool) (s : list string) : list string :=
  slicesFilter s matchString.
Definition Prefix (s : list string) (prefix : string) := StatesPrefix prefix s.
Definition Add1 (s : list string) (state : list string) : list string :=
  slicesUniq (s ++ state).
Definition Delete (s : list string) (states : list (list string)) := SRem s states.
Definition Delete1 (s : list string) (states : list string) := SRem s [states].
Definition Sub (s other : list string) := StatesDiff s other.
Definition Shared (s other : list string) := StatesShared s other.
Definition Equal (s other : list string) := StatesEqual s other.
Definition EqualOrder (s other : list string) : bool :=
  if negb (bool_decide (length s = length other)) then false
  else forallb (λ p, bool_decide (p.1 = TrimSpace p.2)) (zip s other).
Definition Index (s states : list string) := StatesToIndex s states.
Definition Index1 (s : list string) (state : string) := index_of s state.
Definition EqualIndex (s : list string) (otherIdx : list Z) : bool :=
  bool_decide (Index s [] = otherIdx).
Definition Has (s : list string) (state : string) := contains s state.
Definition HasN (s states : list string) : bool := slicesEvery s states.
Definition Remove1 (s : list string) (state : string) :=
  slices_DeleteFunc s (λ x, bool_decide (x = state)).
Definition Remove (s states : list string) :=
  slices_DeleteFunc s (λ x, contains states x).
End S.

(** ** Handler names *)

Definition SuffixEnter := "Enter".
Definition SuffixExit := "Exit".
Definition SuffixState := "State".
Definition SuffixEnd := "End".
Definition PrefixErr := "Err".
Definition StateAny := "Any".
Definition StateException := "Exception".
Definition StateHeartbeat := "Heartbeat".
Definition StateHealthcheck := "Healthcheck".
Definition StateStart := "Start".
Definition StateMachineRestored := "MachineRestored".

Definition handlerSuffixes : list string :=
  [SuffixEnter; SuffixExit; SuffixState; SuffixEnd; StateAny].

(** The suffix loop of [IsHandler]: the first suffix that fits decides. *)
Definition handler_suffix (method : string) : option string :=
  snd <$> list_find (λ suffix,
    Is_true (HasSuffix method suffix
      && negb (bool_decide (str_len method = str_len suffix))
      && negb (bool_decide (method = StateAny +:+ suffix)))) handlerSuffixes.

(** The [FooBar] loops: the first pair of states whose names make the method. *)
Definition handler_pair (states : list string) (method : string)
  : option (string * string) :=
  snd <$> list_find (λ p : string * string,
    Is_true (HasPrefix method p.1 && bool_decide (p.1 +:+ p.2 = method)))
    (s ← states; (λ ss, (s, ss)) <$> states).

Definition IsHandler (states : list string) (method : string) : string * string :=
  if bool_decide (method = StateAny +:+ SuffixEnter)
     || bool_decide (method = StateAny +:+ SuffixState) then ("", "")
  else match handler_suffix method with
  | Some suffix => (substring method 0 (str_len method - str_len suffix), "")
  | None =>
      if HasPrefix method StateAny
         && negb (bool_decide (str_len method = str_len StateAny))
         && negb (bool_decide (method = StateAny +:+ SuffixState))
      then (substring method (str_len StateAny) (str_len method), "")
      else match handler_pair states method with
      | Some p => p
      | None => ("", "")
      end
  end.

(** ** Lemmas: the slice helpers *)

Section slice_lemmas.
Context {A : Type}.
Implicit Types (l : list A) (f : A → bool).

Lemma elem_of_slicesFilter l f x : x ∈ slicesFilter l f ↔ x ∈ l ∧ f x = true.
Proof. unfold slicesFilter. rewrite list_elem_of_filter, Is_true_true. tauto. Qed.

Lemma NoDup_slicesFilter l f : NoDup l → NoDup (slicesFilter l f).
Proof. apply NoDup_filter. Qed.

Lemma slicesFilter_cons x l f :
  slicesFilter (x :: l) f = if f x then x :: slicesFilter l f else slicesFilter l f.
Proof. unfold slicesFilter. rewrite filter_cons. by destruct (f x). Qed.

Lemma slicesFilter_app l1 l2 f :
  slicesFilter (l1 ++ l2) f = slicesFilter l1 f ++ slicesFilter l2 f.
Proof. apply filter_app. Qed.

Lemma slicesFilter_ext l f g :
  (∀ x, x ∈ l → f x = g x) → slicesFilter l f = slicesFilter l g.
Proof.
  intros Hfg. induction l as [|x l IH]; [done|].
  rewrite !slicesFilter_cons, IH, Hfg by set_solver. done.
Qed.

Lemma slicesFilter_all l f : (∀ x, x ∈ l → f x = true) → slicesFilter l f = l.
Proof. intros Hf. apply filter_eq_self. intros x Hx. rewrite Is_true_true. auto. Qed.

Lemma slicesFilter_none l f : (∀ x, x ∈ l → f x = false) → slicesFilter l f = [].
Proof.
  intros Hf. induction l as [|x l IH]; [done|].
  rewrite slicesFilter_cons, Hf by left. apply IH. set_solver.
Qed.

Lemma length_slicesFilter l f : (length (slicesFilter l f) ≤ length l)%nat.
Proof. apply length_filter_le. Qed.

Lemma slicesFilter_full l f :
  length (slicesFilter l f) = length l → ∀ x, x ∈ l → f x = true.
Proof.
  intros Hl x Hx. apply Is_true_true.
  apply (filter_length_eq (λ x, Is_true (f x)) l); done.
Qed.

Lemma slicesReverse_eq l : slicesReverse l = reverse l.
Proof. apply rev_alt. Qed.

Lemma elem_of_slicesReverse l x : x ∈ slicesReverse l ↔ x ∈ l.
Proof. rewrite slicesReverse_eq. apply elem_of_reverse. Qed.

Lemma NoDup_slicesReverse l : NoDup (slicesReverse l) ↔ NoDup l.
Proof. rewrite slicesReverse_eq. by rewrite reverse_Permutation. Qed.
End slice_lemmas.

Section slice_lemmas_eq.
Context {A : Type} `{EqDecision A}.
Implicit Types (l : list A).

Lemma elem_of_slicesUniq l x : x ∈ slicesUniq l ↔ x ∈ l.
Proof. unfold slicesUniq. rewrite elem_of_uniq_seen. set_solver. Qed.

Lemma NoDup_slicesUniq l : NoDup (slicesUniq l).
Proof. apply NoDup_uniq_seen. Qed.

Lemma slicesUniq_id l : NoDup l → slicesUniq l = l.
Proof. intros Hl. apply uniq_seen_id; [done|]. set_solver. Qed.

Lemma slicesEvery_true l1 l2 : slicesEvery l1 l2 = true ↔ ∀ x, x ∈ l2 → x ∈ l1.
Proof.
  unfold slicesEvery. rewrite forallb_forall. setoid_rewrite <- list_elem_of_In.
  by setoid_rewrite contains_true.
Qed.

Lemma slicesNone_true l1 l2 : slicesNone l1 l2 = true ↔ ∀ x, x ∈ l2 → x ∉ l1.
Proof.
  unfold slicesNone. rewrite forallb_forall. setoid_rewrite <- list_elem_of_In.
  setoid_rewrite negb_true_iff. by setoid_rewrite contains_false.
Qed.

Lemma slicesWithout_not_in l x : x ∉ l → slicesWithout l x = l.
Proof.
  intros Hx. unfold slicesWithout. rewrite index_of_not_in by done.
  by rewrite bool_decide_eq_true_2.
Qed.

Lemma slicesWithout_nodup l x :
  NoDup l → slicesWithout l x = filter (λ y, y ≠ x) l.
Proof.
  intros Hnd. destruct (decide (x ∈ l)) as [Hx|Hx].
  - unfold slicesWithout. destruct (index_of_in l x Hx) as [Hge Hi].
    rewrite bool_decide_eq_false_2 by lia.
    pose proof (slices_delete_index l x Hnd Hx) as Hd.
    apply slices_delete_ok in Hd as [_ ->]. done.
  - rewrite slicesWithout_not_in by done. symmetry. apply filter_eq_self. by intros y Hy ->.
Qed.

Lemma slicesWithout_perm l x : x ∈ l → l ≡ₚ x :: slicesWithout l x.
Proof.
  intros Hx. unfold slicesWithout. destruct (index_of_in l x Hx) as [Hge Hi].
  rewrite bool_decide_eq_false_2 by lia.
  replace (Z.to_nat (index_of l x + 1)) with (S (Z.to_nat (index_of l x))) by lia.
  rewrite Permutation_middle. by rewrite take_drop_middle.
Qed.

Lemma NoDup_slicesWithout l x : NoDup l → NoDup (slicesWithout l x).
Proof. intros Hl. rewrite slicesWithout_nodup by done. by apply NoDup_filter. Qed.

Lemma not_elem_of_slicesWithout l x : NoDup l → x ∉ slicesWithout l x.
Proof. intros Hl. rewrite slicesWithout_nodup, list_elem_of_filter by done. by intros [? _]. Qed.

Lemma elem_of_slicesWithout_ne l x y : y ≠ x → y ∈ slicesWithout l x ↔ y ∈ l.
Proof.
  intros Hne. destruct (decide (x ∈ l)) as [Hx|Hx]; [|by rewrite slicesWithout_not_in].
  unfold slicesWithout. destruct (index_of_in l x Hx) as [Hge Hi].
  rewrite bool_decide_eq_false_2 by lia.
  replace (Z.to_nat (index_of l x + 1)) with (S (Z.to_nat (index_of l x))) by lia.
  set (n := Z.to_nat (index_of l x)) in *.
  assert (y ∈ l ↔ y ∈ take n l ++ x :: drop (S n) l) as -> by (by rewrite take_drop_middle).
  rewrite !elem_of_app, elem_of_cons. tauto.
Qed.

Lemma slicesWithout_subseteq l x y : y ∈ slicesWithout l x → y ∈ l.
Proof.
  destruct (decide (y = x)) as [->|]; [|by rewrite elem_of_slicesWithout_ne].
  unfold slicesWithout. case_bool_decide; [done|].
  rewrite elem_of_app. intros [Hy|Hy].
  - apply elem_of_take in Hy as (i & Hi & _). by eapply list_elem_of_lookup_2.
  - apply list_elem_of_lookup_1 in Hy as (i & Hi). rewrite lookup_drop in Hi.
    by eapply list_elem_of_lookup_2.
Qed.
End slice_lemmas_eq.

(** ** Lemmas: state lists *)

Lemma elem_of_StatesDiff s1 s2 x : x ∈ StatesDiff s1 s2 ↔ x ∈ s1 ∧ x ∉ s2.
Proof.
  unfold StatesDiff. by rewrite elem_of_slicesFilter, negb_true_iff, contains_false.
Qed.

Lemma elem_of_StatesShared s1 s2 x : x ∈ StatesShared s1 s2 ↔ x ∈ s1 ∧ x ∈ s2.
Proof. unfold StatesShared. by rewrite elem_of_slicesFilter, contains_true. Qed.

Lemma NoDup_StatesDiff s1 s2 : NoDup s1 → NoDup (StatesDiff s1 s2).
Proof. apply NoDup_slicesFilter. Qed.

Lemma StatesDiff_nil s1 s2 : StatesDiff s1 s2 = [] ↔ (∀ x, x ∈ s1 → x ∈ s2).
Proof.
  split.
  - intros Hd x Hx. destruct (decide (x ∈ s2)) as [|Hn]; [done|].
    assert (x ∈ StatesDiff s1 s2) as Hin by (by apply elem_of_StatesDiff).
    rewrite Hd in Hin. by apply elem_of_nil in Hin.
  - intros Hs. apply slicesFilter_none. intros x Hx.
    rewrite negb_false_iff, contains_true. auto.
Qed.

Lemma StatesEqual_true s1 s2 : StatesEqual s1 s2 = true ↔ (∀ x, x ∈ s1 ↔ x ∈ s2).
Proof.
  unfold StatesEqual. rewrite andb_true_iff, !slicesEvery_true. naive_solver.
Qed.

(** State lists up to order and repetition: what [S.Equal] decides. *)
Definition S_equiv (s1 s2 : list string) : Prop := StatesEqual s1 s2 = true.

#[export] Instance S_equiv_equivalence : Equivalence S_equiv.
Proof.
  split; unfold S_equiv.
  - intros s. by apply StatesEqual_true.
  - intros s1 s2. rewrite !StatesEqual_true. naive_solver.
  - intros s1 s2 s3. rewrite !StatesEqual_true. naive_solver.
Qed.

#[export] Instance contains_proper :
  Proper (S_equiv ==> eq ==> eq) (contains (A := string)).
Proof.
  intros s1 s2 Hs ? x ->. unfold S_equiv in Hs. rewrite StatesEqual_true in Hs.
  apply bool_decide_ext, Hs.
Qed.

#[export] Instance StatesDiff_proper :
  Proper (S_equiv ==> S_equiv ==> S_equiv) StatesDiff.
Proof.
  intros s1 s2 Hs s3 s4 Hs'. unfold S_equiv in *. rewrite StatesEqual_true in *.
  intros x. by rewrite !elem_of_StatesDiff, Hs, Hs'.
Qed.

#[export] Hint Rewrite @elem_of_slicesFilter @elem_of_slicesUniq @elem_of_slicesReverse
  elem_of_StatesDiff elem_of_StatesShared @slicesEvery_true @slicesNone_true : go.

Create HintDb go_nodup.
#[export] Hint Resolve NoDup_slicesFilter NoDup_slicesUniq NoDup_StatesDiff : go_nodup.

Lemma IsActiveTick_odd t : IsActiveTick t = Z.odd t.
Proof.
  unfold IsActiveTick. rewrite Zmod_odd. destruct (Z.odd t); by rewrite bool_decide_decide.
Qed.

Lemma IsActiveTick_add1 t : IsActiveTick (wrap64 (t + 1)) = negb (IsActiveTick t).
Proof.
  rewrite !IsActiveTick_odd, wrap64_odd, Z.odd_add. by destruct (Z.odd t).
Qed.

Lemma IsActiveTick_add2 t : IsActiveTick (wrap64 (t + 2)) = IsActiveTick t.
Proof.
  rewrite !IsActiveTick_odd, wrap64_odd, Z.odd_add. by destruct (Z.odd t).
Qed.

Lemma index_names (index states : list string) :
  NoDup index →
  (∀ s, s ∈ states → s ∈ index ∧ TrimSpace s = s) →
  IndexToStates index (StatesToIndex index states) = Ok states.
Proof.
  intros Hnd Hs. unfold IndexToStates, StatesToIndex.
  rewrite <- (list_fmap_id states) at 2. apply mapM_ok_fmap. intros s Hin.
  destruct (Hs s Hin) as [Hx ->]. destruct (index_of_in index s Hx) as [Hge Hi].
  pose proof (lookup_lt_Some _ _ _ Hi).
  rewrite (bool_decide_eq_true_2 (_ > _)), (bool_decide_eq_false_2 (_ = -1)) by lia.
  simpl. unfold slice_get. by rewrite bool_decide_eq_true_2, Hi by lia.
Qed.

(** ** Properties *)

(** Names to indexes and back is the identity on known, trimmed names of a
    duplicate-free index: the mutation queue stores indexes, the transitions
    read names. *)
Theorem index_names_roundtrip (index states : list string) :
  NoDup index →
  (∀ s, s ∈ states → s ∈ index ∧ TrimSpace s = s) →
  IndexToStates index (StatesToIndex index states) = Ok states.
Proof. apply index_names. Qed.

Example index_names_roundtrip_witness :
  IndexToStates ["A"; "B"; "C"] (StatesToIndex ["A"; "B"; "C"] ["C"; "A"]) = Ok ["C"; "A"].
Proof.
  apply (index_names_roundtrip ["A"; "B"; "C"] ["C"; "A"]).
  - by apply (bool_decide_unpack (NoDup _)).
  - intros s Hs. split; [set_solver|].
    by repeat (apply elem_of_cons in Hs as [->|Hs]; [reflexivity|]); apply elem_of_nil in Hs.
Defined.

(** [NextActive] is the least active tick strictly after the given one (up to
    the wrap-around of [uint64]), and [NextActiveIn] its distance. *)
Theorem NextActive_least (t : Z) :
  is_u64 t →
  IsActiveTick (NextActive t) = true
  ∧ NextActive t = wrap64 (t + NextActiveIn t)
  ∧ (∀ u, t < u < t + NextActiveIn t → IsActiveTick u = false).
Proof.
  intros Ht. unfold NextActive, NextActiveIn.
  destruct (IsActiveTick t) eqn:Ha.
  - rewrite IsActiveTick_add2. split; [done|]. split; [done|].
    intros u Hu. replace u with (t + 1) by lia.
    rewrite IsActiveTick_odd in *. rewrite Z.odd_add, Ha. done.
  - rewrite IsActiveTick_add1, Ha. split; [done|]. split; [done|]. intros u Hu. lia.
Qed.

Example NextActive_least_witness : is_u64 3 ∧ IsActiveTick (NextActive 3) = true.
Proof. split; [by vm_compute|]. apply (NextActive_least 3). by vm_compute. Defined.

(** [S.Delete1] removes nothing: [SRem] skips its first group. *)
Theorem Delete1_keeps_all (s states : list string) : S.Delete1 s states = s.
Proof. reflexivity. Qed.

(** [S.EqualIndex] compares with the index of the empty list, so it only
    accepts the empty index. *)
Theorem EqualIndex_only_empty (s : list string) (idx : list Z) :
  S.EqualIndex s idx = true ↔ idx = [].
Proof. unfold S.EqualIndex. rewrite bool_decide_eq_true. naive_solver. Qed.

(** [S.Add] is set union without duplicates, in first-seen order. *)
Theorem S_Add_union (s : list string) (states : list (list string)) x :
  (x ∈ S.Add s states ↔ x ∈ s ∨ ∃ g, g ∈ states ∧ x ∈ g)
  ∧ (states ≠ [] → NoDup (S.Add s states)).
Proof.
  unfold S.Add. destruct states as [|g gs].
  { split; [|done]. set_solver. }
  split; [|intros _; apply NoDup_slicesUniq].
  rewrite elem_of_slicesUniq, list_elem_of_join. setoid_rewrite (elem_of_cons _ _ s). split.
  - intros (l & Hx & [->|Hl]); eauto.
  - intros [Hx|(l & Hl & Hx)]; eauto.
Qed.
