(* ===== verification/GoSort.v ===== *)
(** * [sort.SliceStable] of the Go standard library

    The relation resolver sorts state lists with [sort.SliceStable] and
    comparison functions that are not always orders (the [After] relation),
    so the algorithm itself is modelled: insertion sort on blocks of 20
    elements, then in-place merging by rotations ([symMerge]).  The slice is a
    list; [less x y] compares two elements, as the closures of the source do
    after reading [states[i]] and [states[j]]. *)

From S2P Require Import Prelude.

Section sort.
Context {A : Type} (less : A → A → bool).

(** The inner loop of the insertion sort: [x] moves left over the sorted
    prefix (kept reversed) while it is less than its left neighbour. *)
Fixpoint ins_rev (x : A) (rp : list A) : list A :=
  match rp with
  | [] => [x]
  | y :: rp' => if less x y then y :: ins_rev x rp' else x :: y :: rp'
  end.

Definition insertion_sort (l : list A) : list A :=
  reverse (fold_left (λ rp x, ins_rev x rp) l []).

(** Binary searches of [symMerge]: the least [i] in [[lo, hi)] where the
    monotone test fails, as the loop computes it. *)
Fixpoint bin_search (fuel : nat) (right : nat → bool) (lo hi : nat) : nat :=
  match fuel with
  | O => lo
  | S fuel =>
      if (lo <? hi)%nat then
        let h := Nat.div2 (lo + hi) in
        if right h then bin_search fuel right (S h) hi
        else bin_search fuel right lo h
      else lo
  end.

Definition less_at (d : list A) (i k : nat) : bool :=
  match d !! i, d !! k with
  | Some x, Some y => less x y
  | _, _ => false
  end.

(** Exchange of the adjacent blocks [d[start:m]] and [d[m:stop]]. *)
Definition rotate (d : list A) (start m stop : nat) : list A :=
  take start d ++ take (stop - m) (drop m d) ++ take (m - start) (drop start d)
  ++ drop stop d.

(** [symMerge] of [d[0:m]] and [d[m:len(d)]]. *)
Fixpoint sym_merge (fuel : nat) (d : list A) (m : nat) : list A :=
  match fuel with
  | O => d
  | S fuel =>
      let b := length d in
      if (m =? 1)%nat then
        let i := bin_search b (λ h, less_at d h 0) m b in
        rotate d 0 1 i
      else if (b - m =? 1)%nat then
        let i := bin_search b (λ h, negb (less_at d m h)) 0 m in
        rotate d i m b
      else
        let mid := Nat.div2 b in
        let n := (mid + m)%nat in
        let '(start, r) := if (mid <? m)%nat then ((n - b)%nat, mid) else (0%nat, m) in
        let p := (n - 1)%nat in
        let start := bin_search b (λ c, negb (less_at d (p - c) c)) start r in
        let stop := (n - start)%nat in
        let d := if (start <? m)%nat && (m <? stop)%nat then rotate d start m stop else d in
        let left := take mid d in
        let right := drop mid d in
        let left :=
          if (0 <? start)%nat && (start <? mid)%nat then sym_merge fuel left start else left in
        let right :=
          if (mid <? stop)%nat && (stop <? b)%nat
          then sym_merge fuel right (stop - mid) else right in
        left ++ right
  end.

(** One pass of merges over consecutive pairs of sorted blocks. *)
Fixpoint merge_pass (fuel block : nat) (l : list A) : list A :=
  match fuel with
  | O => l
  | S fuel =>
      if (2 * block <=? length l)%nat then
        sym_merge (length l) (take (2 * block) l) block
        ++ merge_pass fuel block (drop (2 * block) l)
      else if (block <? length l)%nat then sym_merge (length l) l block
      else l
  end.

Fixpoint merge_loop (fuel block : nat) (l : list A) : list A :=
  match fuel with
  | O => l
  | S fuel =>
      if (block <? length l)%nat
      then merge_loop fuel (2 * block) (merge_pass (length l) block l)
      else l
  end.

(** Insertion sort of each block of 20 elements, the last one shorter. *)
Fixpoint sort_blocks (fuel : nat) (l : list A) : list A :=
  match fuel with
  | O => l
  | S fuel =>
      if (20 <=? length l)%nat
      then insertion_sort (take 20 l) ++ sort_blocks fuel (drop 20 l)
      else insertion_sort l
  end.

Definition slice_stable (l : list A) : list A :=
  merge_loop (length l) 20 (sort_blocks (S (length l)) l).

(** ** The result is a permutation, whatever [less] is *)

Lemma ins_rev_perm x rp : ins_rev x rp ≡ₚ x :: rp.
Proof.
  induction rp as [|y rp IH]; simpl; [done|]. case_match; [|done].
  rewrite IH. apply Permutation_swap.
Qed.

Lemma fold_ins_perm l rp : fold_left (λ rp x, ins_rev x rp) l rp ≡ₚ rp ++ l.
Proof.
  revert rp. induction l as [|x l IH]; intros rp; simpl; [by rewrite app_nil_r|].
  rewrite IH, ins_rev_perm. simpl. by rewrite Permutation_middle.
Qed.

Lemma insertion_sort_perm l : insertion_sort l ≡ₚ l.
Proof. unfold insertion_sort. by rewrite reverse_Permutation, fold_ins_perm. Qed.

Lemma bin_search_bounds fuel right lo hi :
  (lo ≤ hi)%nat → (lo ≤ bin_search fuel right lo hi ≤ hi)%nat.
Proof.
  revert lo hi. induction fuel as [|fuel IH]; intros lo hi Hle; simpl; [lia|].
  case_match eqn:Hlt; [|lia]. apply Nat.ltb_lt in Hlt.
  pose proof (Nat.div2_div (lo + hi)) as Hd.
  pose proof (Nat.div_mod_eq (lo + hi) 2). pose proof (Nat.mod_upper_bound (lo + hi) 2).
  case_match.
  - destruct (IH (S (Nat.div2 (lo + hi))) hi); lia.
  - destruct (IH lo (Nat.div2 (lo + hi))); lia.
Qed.

Lemma rotate_perm d start m stop :
  (start ≤ m ≤ stop)%nat → rotate d start m stop ≡ₚ d.
Proof.
  intros Hr. unfold rotate.
  rewrite <- (take_drop start d) at 5. apply Permutation_app_head.
  rewrite <- (take_drop (m - start) (drop start d)) at 2.
  rewrite (Permutation_app_comm (take (stop - m) _)), <- app_assoc.
  apply Permutation_app_head. rewrite drop_drop.
  replace (start + (m - start))%nat with m by lia.
  rewrite (Permutation_app_comm (drop stop d)).
  rewrite <- (take_drop (stop - m) (drop m d)) at 2. apply Permutation_app_head.
  rewrite drop_drop. by replace (m + (stop - m))%nat with stop by lia.
Qed.

Lemma sym_merge_perm fuel d m : (m ≤ length d)%nat → sym_merge fuel d m ≡ₚ d.
Proof.
  revert d m. induction fuel as [|fuel IH]; intros d m Hm; [done|]. cbn [sym_merge].
  destruct (Nat.eqb_spec m 1) as [->|Hm1].
  { apply rotate_perm. destruct (bin_search_bounds (length d) (λ h, less_at d h 0) 1 (length d)); lia. }
  destruct (Nat.eqb_spec (length d - m) 1) as [Hb|Hb].
  { apply rotate_perm.
    destruct (bin_search_bounds (length d) (λ h, negb (less_at d m h)) 0 m); lia. }
  destruct (if (Nat.div2 (length d) <? m)%nat then _ else _) as [start r].
  set (st := bin_search _ _ start r). set (stop := (Nat.div2 (length d) + m - st)%nat).
  set (d' := if _ && _ then rotate d st m stop else d).
  assert (Hd' : d' ≡ₚ d).
  { unfold d'. destruct (Nat.ltb_spec st m), (Nat.ltb_spec m stop); try done.
    apply rotate_perm. lia. }
  assert (Hlen : length d' = length d) by (by rewrite Hd').
  transitivity d'; [|done].
  transitivity (take (Nat.div2 (length d)) d' ++ drop (Nat.div2 (length d)) d');
    [|by rewrite take_drop].
  apply Permutation_app; case_match eqn:Hc; try done;
    apply andb_true_iff in Hc as [H1 H2]; apply Nat.ltb_lt in H1, H2; apply IH.
  - rewrite length_take, Hlen. pose proof (Nat.div2_div (length d)) as Hd.
    pose proof (Nat.div_mod_eq (length d) 2). lia.
  - rewrite length_drop, Hlen. lia.
Qed.

Lemma merge_pass_perm fuel block l : merge_pass fuel block l ≡ₚ l.
Proof.
  revert l. induction fuel as [|fuel IH]; intros l; [done|]. cbn [merge_pass].
  destruct (Nat.leb_spec (2 * block) (length l)).
  - rewrite sym_merge_perm, IH by (rewrite length_take; lia). by rewrite take_drop.
  - destruct (Nat.ltb_spec block (length l)); [|done]. apply sym_merge_perm. lia.
Qed.

Lemma merge_loop_perm fuel block l : merge_loop fuel block l ≡ₚ l.
Proof.
  revert block l. induction fuel as [|fuel IH]; intros block l; [done|]. cbn [merge_loop].
  case_match; [|done]. by rewrite IH, merge_pass_perm.
Qed.

Lemma sort_blocks_perm fuel l : sort_blocks fuel l ≡ₚ l.
Proof.
  revert l. induction fuel as [|fuel IH]; intros l; [done|]. cbn [sort_blocks].
  case_match; [|apply insertion_sort_perm].
  by rewrite insertion_sort_perm, IH, take_drop.
Qed.

Lemma slice_stable_perm l : slice_stable l ≡ₚ l.
Proof. unfold slice_stable. by rewrite merge_loop_perm, sort_blocks_perm. Qed.

Lemma elem_of_slice_stable l x : x ∈ slice_stable l ↔ x ∈ l.
Proof. by rewrite slice_stable_perm. Qed.

Lemma NoDup_slice_stable l : NoDup (slice_stable l) ↔ NoDup l.
Proof. by rewrite slice_stable_perm. Qed.

Lemma length_slice_stable l : length (slice_stable l) = length l.
Proof. by rewrite slice_stable_perm. Qed.

(** ** Up to one block, the result is sorted

    [slice_stable] is the insertion sort below 20 elements; when [less] comes
    from a rank (as the topological order of the resolver does) the result is
    sorted by rank. *)

Lemma slice_stable_small l : (length l < 20)%nat → slice_stable l = insertion_sort l.
Proof.
  intros Hl. unfold slice_stable. cbn [sort_blocks].
  destruct (Nat.leb_spec 20 (length l)); [lia|].
  destruct (length l) as [|n] eqn:E; [done|]. cbn [merge_loop].
  assert (length (insertion_sort l) = S n) as -> by (by rewrite insertion_sort_perm).
  destruct (Nat.ltb_spec 20 (S n)); [lia|done].
Qed.

Lemma StronglySorted_lookup (R : A → A → Prop) l i k x y :
  StronglySorted R l → (i < k)%nat → l !! i = Some x → l !! k = Some y → R x y.
Proof.
  intros Hs Hik Hi Hk. rewrite <- (take_drop k l) in Hs.
  apply (StronglySorted_app_1_elem_of _ _ _ x y Hs).
  - apply list_elem_of_lookup. exists i. by rewrite lookup_take_lt.
  - apply list_elem_of_lookup. exists 0%nat. by rewrite lookup_drop, Nat.add_0_r.
Qed.

Section ranked.
Context (rank : A → Z) (Hrank : ∀ x y, less x y = bool_decide (rank x < rank y)).

Lemma ins_rev_sorted x rp :
  StronglySorted (λ a b, rank b ≤ rank a) rp →
  StronglySorted (λ a b, rank b ≤ rank a) (ins_rev x rp).
Proof.
  induction 1 as [|y rp Hs IH Hy]; simpl; [by repeat constructor|].
  rewrite Hrank. case_bool_decide as Hlt.
  - constructor; [done|]. rewrite ins_rev_perm. constructor; [lia|done].
  - constructor; [by constructor|]. constructor; [lia|].
    eapply Forall_impl; [done|]. simpl. lia.
Qed.

Lemma fold_ins_sorted l rp :
  StronglySorted (λ a b, rank b ≤ rank a) rp →
  StronglySorted (λ a b, rank b ≤ rank a) (fold_left (λ rp x, ins_rev x rp) l rp).
Proof. revert rp. induction l as [|x l IH]; intros rp Hs; simpl; [done|]. by apply IH, ins_rev_sorted. Qed.

Lemma StronglySorted_reverse (R : A → A → Prop) l :
  StronglySorted (λ a b, R b a) l → StronglySorted R (reverse l).
Proof.
  induction 1 as [|x l Hs IH Hx]; [by constructor|].
  rewrite reverse_cons. apply StronglySorted_app_2; [|done|by repeat constructor].
  intros a b Ha Hb. apply list_elem_of_singleton in Hb as ->.
  rewrite elem_of_reverse in Ha. rewrite Forall_forall in Hx. by apply Hx.
Qed.

Lemma slice_stable_sorted l :
  (length l < 20)%nat → StronglySorted (λ a b, rank a ≤ rank b) (slice_stable l).
Proof.
  intros Hl. rewrite slice_stable_small by done. unfold insertion_sort.
  apply StronglySorted_reverse, fold_ins_sorted. constructor.
Qed.
End ranked.
End sort.

#[export] Hint Rewrite @elem_of_slice_stable @NoDup_slice_stable : go.
