(* ===== verification/States.v ===== *)
(** * Definitions of states and groups ([pkg/machine/schema.go])

    A schema's states are the string fields of a Go struct, which
    [NewStates] fills with the names of the fields by reflection; embedded
    structs inherit states, struct fields nest them under a prefix.  Groups of
    states are structs too ([NewStateGroups]).  [Shipped] has the definitions
    of the packages. *)

From S2P Require Import Prelude StateList.

#[local] Open Scope Z_scope.

(** ** Values of structs *)

(** A field of a struct value: one that holds an [A], one that reflection
    cannot set or that is of another kind, and a pointer to a struct, anonymous
    (embedded) or not. A [nil] pointer reads as the zero struct of its type,
    which is what the code allocates before it goes in. *)
Inductive Field (A : Type) : Type :=
| FVal (name : string) (value : A)
| FHidden (name : string) (value : string)
| FPtr (anonymous : bool) (name : string) (fields : list (Field A)).
Arguments FVal {A} name value.
Arguments FHidden {A} name value.
Arguments FPtr {A} anonymous name fields.

(** The base every definition embeds. *)
Definition StatesBase : list (Field string) :=
  [FVal "Exception" ""; FHidden "names" ""; FHidden "groups" ""; FHidden "groupsOrder" "";
   FHidden "prefix" ""].

Definition field_name {A} (f : Field A) : string :=
  match f with FVal n _ | FHidden n _ | FPtr _ n _ => n end.

Section Field_ind'.
Context {A : Type} (P : Field A → Prop).
Hypothesis HVal : ∀ n v, P (FVal n v).
Hypothesis HHidden : ∀ n v, P (FHidden n v).
Hypothesis HPtr : ∀ b n fs, Forall P fs → P (FPtr b n fs).

Fixpoint Field_ind' (f : Field A) : P f :=
  match f with
  | FVal n v => HVal n v
  | FHidden n v => HHidden n v
  | FPtr b n fs => HPtr b n fs
      ((fix go (l : list (Field A)) : Forall P l :=
          match l with
          | [] => List.Forall_nil P
          | f :: l => @List.Forall_cons (Field A) P f l (Field_ind' f) (go l)
          end) fs)
  end.
End Field_ind'.

(** Embedded structs within embedded structs. *)
Fixpoint field_depth {A} (f : Field A) : nat :=
  match f with
  | FPtr true _ fs => S (foldr Nat.max 0 (field_depth <$> fs))
  | _ => 0
  end%nat.

(** How many fields called [name] are promoted from [d] levels of embedding. *)
Fixpoint count_at {A} (d : nat) (name : string) (fs : list (Field A)) : nat :=
  match d with
  | O => length (filter (λ f, field_name f = name) fs)
  | S d => sum_list_with (λ f, match f with
                              | FPtr true _ fs' => count_at d name fs'
                              | _ => O
                              end) fs
  end.

(** [FieldByName]: the level of the shallowest field of that name; none when
    there is no such field, or several on that level. *)
Definition FieldByName {A} (fs : list (Field A)) (name : string) : option nat :=
  match filter (λ d, count_at d name fs ≠ O) (seq 0 (S (foldr Nat.max O (field_depth <$> fs)))) with
  | [] => None
  | d :: _ => if decide (count_at d name fs = 1%nat) then Some d else None
  end.

Fixpoint field_at {A} (d : nat) (name : string) (fs : list (Field A)) : option (Field A) :=
  match d with
  | O => head (filter (λ f, field_name f = name) fs)
  | S d => head (omap (λ f, match f with
                            | FPtr true _ fs' => field_at d name fs'
                            | _ => None
                            end) fs)
  end.

(** [dst.FieldByName(name).Set(x)], the field being [d] levels down. *)
Fixpoint set_at {A} (d : nat) (x : Field A) (fs : list (Field A)) : list (Field A) :=
  match d with
  | O => (λ f, if decide (field_name f = field_name x)
               then match f with FHidden _ _ => f | _ => x end else f) <$> fs
  | S d => (λ f, match f with FPtr true n fs' => FPtr true n (set_at d x fs') | _ => f end) <$> fs
  end.

(** ** [NewStates] *)

(** What [parseStateNames] fills: the names so far, the indexes of each group's
    states, the order of the groups. *)
Record Parsed := mkParsed {
  p_names : list string;
  p_groups : gmap string (list Z);
  p_order : list string;
}.

(** Entering a struct: [if group != "StatesBase" { ... }]. *)
Definition enter_group (group : string) (p : Parsed) : Parsed :=
  if bool_decide (group = "StatesBase") then p
  else mkParsed p.(p_names) (<[group := []]> p.(p_groups)) (p.(p_order) ++ [group]).

(** A local state name. *)
Definition add_name (group stateName : string) (p : Parsed) : Parsed :=
  if contains p.(p_names) stateName then p
  else
    let groups := if bool_decide (group = "StatesBase") then p.(p_groups)
      else <[group := default [] (p.(p_groups) !! group) ++ [Z.of_nat (length p.(p_names))]]>
             p.(p_groups) in
    mkParsed (p.(p_names) ++ [stateName]) groups p.(p_order).

(** [base.prefix = prefix] in the struct's own [StatesBase]. *)
Definition set_prefix {A} (prefix : string) (fs : list (Field A)) : list (Field A) :=
  (λ f, match f with
        | FPtr true n bs =>
            if bool_decide (n = "StatesBase") then
              FPtr true n ((λ b, match b with
                | FHidden m v => FHidden m (if bool_decide (m = "prefix") then prefix else v)
                | _ => b
                end) <$> bs)
            else f
        | _ => f
        end) <$> fs.

(** Setting the prefix of a nested struct. Its [StatesBase] is its own field;
    one promoted from an embedded struct is behind a pointer that is still
    [nil]. *)
Definition nest_prefix {A} (prefix : string) (fs : list (Field A)) : outcome (list (Field A)) :=
  match FieldByName fs "StatesBase" with
  | None => Ok fs
  | Some O => Ok (set_prefix prefix fs)
  | Some (S _) => Panic "reflect: indirection through nil pointer to embedded struct"
  end.

(** The loop of [parseStateNames] over the fields of one struct. *)
Section parse_fields.
Context (parse_field : Field string → Parsed → outcome (Field string * Parsed)).

Fixpoint parse_fields (fs : list (Field string)) (p : Parsed)
  : outcome (list (Field string) * Parsed) :=
  match fs with
  | [] => Ok ([], p)
  | f :: fs =>
      '(f', p1) ← parse_field f p;
      '(fs', p2) ← parse_fields fs p1;
      Ok (f' :: fs', p2)
  end.
End parse_fields.

(** The body of that loop. The prefix of a nested struct is set after its
    fields are read, which never look at it. *)
Fixpoint parse_field (group prefix : string) (f : Field string) (p : Parsed)
  : outcome (Field string * Parsed) :=
  match f with
  | FVal n _ =>
      let stateName := prefix +:+ n in
      Ok (FVal n stateName, add_name group stateName p)
  | FHidden n v => Ok (f, p)
  | FPtr true n fs =>
      '(fs', p') ← parse_fields (parse_field n prefix) fs (enter_group n p);
      Ok (FPtr true n fs', p')
  | FPtr false n fs =>
      '(fs', p') ← parse_fields (parse_field n (prefix +:+ n)) fs (enter_group n p);
      fs'' ← nest_prefix (prefix +:+ n) fs';
      Ok (FPtr false n fs'', p')
  end.

Definition parseStateNames (fs : list (Field string)) (group prefix : string) (p : Parsed)
  : outcome (list (Field string) * Parsed) :=
  parse_fields (parse_field group prefix) fs (enter_group group p).

(** The struct with its names, what [Names] and [StateGroups] return. *)
Record StatesDef := mkStatesDef {
  sd_fields : list (Field string);
  sd_names : list string;
  sd_groups : gmap string (list Z);
  sd_groupsOrder : list string;
}.

Definition SetNames (names : list string) (s : StatesDef) : StatesDef :=
  mkStatesDef s.(sd_fields) (slicesUniq names) s.(sd_groups) s.(sd_groupsOrder).
Definition SetStateGroups (groups : gmap string (list Z)) (order : list string) (s : StatesDef)
  : StatesDef :=
  mkStatesDef s.(sd_fields) s.(sd_names) groups order.

Definition NewStates (states : list (Field string)) : outcome StatesDef :=
  '(fs, p) ← parseStateNames states "self" "" (mkParsed [] ∅ []);
  Ok (SetStateGroups p.(p_groups) p.(p_order)
       (SetNames p.(p_names) (mkStatesDef fs [] ∅ []))).

(** ** [NewStateGroups] *)

(** The groups of a mixin become those of the new struct, field by field. *)
Definition copyFields {A} (src dst : list (Field A)) : list (Field A) :=
  fold_left (λ dst f,
    match FieldByName dst (field_name f) with
    | Some d => set_at d f dst
    | None => dst
    end) src dst.

Definition NewStateGroups {A} (groups : list (Field A)) (mixins : list (list (Field A)))
  : list (Field A) :=
  fold_left (λ groups mixin, copyFields mixin groups) mixins groups.

(** [sg.Name]: a group of the struct, [nil] when it is not set. *)
Definition group (groups : list (Field (list string))) (name : string) : list string :=
  match FieldByName groups name with
  | Some d => match field_at d name groups with Some (FVal _ l) => l | _ => [] end
  | None => []
  end.

(** ** What [NewStates] computes *)

(** The names of the states, in the order of the fields, as often as they
    occur. *)
Fixpoint flat (prefix : string) (f : Field string) : list string :=
  match f with
  | FVal n _ => [prefix +:+ n]
  | FHidden _ _ => []
  | FPtr true _ fs => mjoin (flat prefix <$> fs)
  | FPtr false n fs => mjoin (flat (prefix +:+ n) <$> fs)
  end.

(** Every string field holds its name, prefixed with the path to it. *)
Inductive assigned (prefix : string) : Field string → Field string → Prop :=
| as_val n v : assigned prefix (FVal n v) (FVal n (prefix +:+ n))
| as_hidden n v v' : assigned prefix (FHidden n v) (FHidden n v')
| as_embed n fs fs' : Forall2 (assigned prefix) fs fs' → assigned prefix (FPtr true n fs) (FPtr true n fs')
| as_nest n fs fs' : Forall2 (assigned (prefix +:+ n)) fs fs' →
    assigned prefix (FPtr false n fs) (FPtr false n fs').

(** Every nested struct has a [StatesBase] of its own, or none. *)
Fixpoint based (f : Field string) : bool :=
  match f with
  | FPtr true _ fs => forallb based fs
  | FPtr false _ fs =>
      forallb based fs && match FieldByName fs "StatesBase" with Some (S _) => false | _ => true end
  | _ => true
  end.

(** A list without repetitions that grows by the names it does not have. *)
Definition grow (l names : list string) : list string :=
  fold_left (λ l n, if contains l n then l else l ++ [n]) names l.

Lemma uniq_seen_ext (l : list string) seen seen' :
  (∀ x, x ∈ seen ↔ x ∈ seen') → uniq_seen seen l = uniq_seen seen' l.
Proof.
  revert seen seen'. induction l as [|x l IH]; intros seen seen' H; cbn; [done|].
  rewrite (bool_decide_ext _ _ (H x)). case_bool_decide; [by apply IH|]. f_equal. apply IH. set_solver.
Qed.

Lemma grow_uniq_seen names l : grow l names = l ++ uniq_seen l names.
Proof.
  revert l. induction names as [|n names IH]; intros l; cbn; [by rewrite app_nil_r|].
  unfold grow in IH. rewrite IH. unfold contains. case_bool_decide; [done|].
  rewrite <- app_assoc. cbn. do 2 f_equal. apply uniq_seen_ext. set_solver.
Qed.

Lemma grow_app names names' l : grow l (names ++ names') = grow (grow l names) names'.
Proof. apply fold_left_app. Qed.

(** What holds of the names and groups at any time. *)
Record parsed_wf (p : Parsed) : Prop := {
  pw_nodup : NoDup p.(p_names);
  pw_order : ∀ g, is_Some (p.(p_groups) !! g) ↔ g ∈ p.(p_order);
  pw_bound : ∀ g l i, p.(p_groups) !! g = Some l → i ∈ l → 0 ≤ i < Z.of_nat (length p.(p_names));
  pw_disjoint : ∀ g g' l l' i, p.(p_groups) !! g = Some l → p.(p_groups) !! g' = Some l' →
    i ∈ l → i ∈ l' → g = g';
}.

(** The group that names go to has been entered. *)
Definition inside (group : string) (p : Parsed) : Prop :=
  group = "StatesBase" ∨ group ∈ p.(p_order).

Lemma enter_group_wf g p :
  parsed_wf p → parsed_wf (enter_group g p) ∧ inside g (enter_group g p)
  ∧ p_names (enter_group g p) = p_names p ∧ p_order p ⊆ p_order (enter_group g p).
Proof.
  intros [H1 H2 H3 H4]. unfold enter_group. case_bool_decide as Hg; [by split; [|split; [left|]]|].
  split; [|split; [right; cbn; set_solver|split; [done|cbn; set_solver]]]. split; cbn; [done|..].
  - intros g'. rewrite lookup_insert_is_Some, H2. destruct (decide (g = g')); set_solver.
  - intros g' l i. rewrite lookup_insert_Some. intros [[_ <-]|[_ Hl]] Hi; [set_solver|by eapply H3].
  - intros g1 g2 l1 l2 i. rewrite !lookup_insert_Some.
    intros [[_ <-]|[_ Hl1]] [[_ <-]|[_ Hl2]] Hi1 Hi2; [set_solver..|by eapply H4].
Qed.

Lemma add_name_wf g n p :
  parsed_wf p → inside g p →
  parsed_wf (add_name g n p) ∧ p_names (add_name g n p) = grow p.(p_names) [n]
  ∧ p_order (add_name g n p) = p_order p.
Proof.
  intros [H1 H2 H3 H4] Hg. unfold add_name, grow. cbn [fold_left].
  destruct (contains (p_names p) n) eqn:Hn; [by split|]. reflect. split; [|done].
  assert (Hnd : NoDup (p_names p ++ [n])).
  { apply NoDup_app. split; [done|]. split; [set_solver|apply NoDup_singleton]. }
  assert (Hb : ∀ g l i, p_groups p !! g = Some l → i ∈ l → 0 ≤ i < Z.of_nat (length (p_names p ++ [n]))).
  { intros g' l i Hl Hi. rewrite length_app. specialize (H3 g' l i Hl Hi). lia. }
  destruct (bool_decide (g = "StatesBase")) eqn:Hgb; reflect; split; cbn [p_names p_groups p_order]; try done.
  - intros g'. rewrite lookup_insert_is_Some, H2. destruct Hg as [?|Hg]; [done|].
    destruct (decide (g = g')); naive_solver.
  - intros g' l i. rewrite lookup_insert_Some. intros [[_ <-]|[_ Hl]] Hi; [|by eapply Hb].
    apply elem_of_app in Hi as [Hi|Hi].
    + destruct (p_groups p !! g) eqn:Hl; [by eapply Hb|by apply elem_of_nil in Hi].
    + apply list_elem_of_singleton in Hi as ->. rewrite length_app. cbn. lia.
  - assert (Hnew : ∀ g' l, p_groups p !! g' = Some l → Z.of_nat (length (p_names p)) ∉ l).
    { intros g' l Hl Hi. specialize (H3 g' l _ Hl Hi). lia. }
    assert (Hold : ∀ g' l i, p_groups p !! g' = Some l → i ∈ l →
      i ∈ default [] (p_groups p !! g) ++ [Z.of_nat (length (p_names p))] → g' = g).
    { intros g' l i Hl Hi Hi'. apply elem_of_app in Hi' as [Hi'|Hi'].
      - destruct (p_groups p !! g) eqn:Hl'; [by eapply H4|by apply elem_of_nil in Hi'].
      - apply list_elem_of_singleton in Hi' as ->. by destruct (Hnew g' l). }
    intros g1 g2 l1 l2 i. rewrite !lookup_insert_Some.
    intros [[<- <-]|[_ Hl1]] [[<- <-]|[_ Hl2]] Hi1 Hi2; [done|symmetry; by eapply Hold|by eapply Hold|by eapply H4].
Qed.

(** Setting names keeps the shape of a struct. *)
Lemma assigned_depth prefix f f' : assigned prefix f f' → field_depth f' = field_depth f.
Proof.
  revert prefix f'. induction f as [n v|n v|b n fs IH] using Field_ind'; intros prefix f' H;
    inversion H as [| |? ? fs' Hfs|]; subst; [done..| |done].
  cbn. do 2 f_equal. clear H. induction Hfs as [|g g' fs fs' Hg _ IHfs]; [done|].
  inversion IH; subst. cbn. f_equal; [by eapply H1|by apply IHfs].
Qed.

Lemma assigned_count d prefix name fs fs' :
  Forall2 (assigned prefix) fs fs' → count_at d name fs' = count_at d name fs.
Proof.
  revert prefix fs fs'. induction d as [|d IH]; intros prefix fs fs'; induction 1 as [|f f' fs fs' Hf _ IHfs];
    [done| |done|]; cbn [count_at] in *.
  - rewrite !filter_cons. assert (field_name f' = field_name f) as -> by (by destruct Hf).
    case_decide; cbn; by rewrite IHfs.
  - cbn. rewrite IHfs. f_equal. destruct Hf as [| |n gs gs' Hgs|]; [done..| |done]. by eapply IH.
Qed.

Lemma assigned_FieldByName prefix name fs fs' :
  Forall2 (assigned prefix) fs fs' → FieldByName fs' name = FieldByName fs name.
Proof.
  intros H. unfold FieldByName.
  assert (field_depth <$> fs' = field_depth <$> fs) as ->.
  { induction H as [|f f' fs fs' Hf _ IH]; [done|]. cbn. f_equal; [by eapply assigned_depth|done]. }
  rewrite (list_filter_iff (λ d, count_at d name fs' ≠ O) (λ d, count_at d name fs ≠ O)).
  - case_match; [done|]. by rewrite (assigned_count _ prefix name fs fs').
  - intros d. by rewrite (assigned_count d prefix name fs fs').
Qed.

Lemma set_prefix_assigned prefix q fs fs' :
  Forall2 (assigned prefix) fs fs' → Forall2 (assigned prefix) fs (set_prefix q fs').
Proof.
  induction 1 as [|f f' fs fs' Hf _ IH]; [constructor|]. constructor; [|done].
  destruct Hf as [| |n gs gs' Hgs|]; try by constructor. case_bool_decide; [|by constructor].
  constructor. clear IH. induction Hgs as [|g g' gs gs' Hg _ IH]; [constructor|]. constructor; [|done].
  destruct Hg; by constructor.
Qed.

(** Parsing one field: what it assigns, and what it adds. *)
Definition parses (prefix : string) (f : Field string) (p : Parsed) (r : Field string * Parsed) : Prop :=
  assigned prefix f r.1 ∧ parsed_wf r.2 ∧ p_names r.2 = grow (p_names p) (flat prefix f)
  ∧ p_order p ⊆ p_order r.2.

Lemma inside_mono g p p' : p_order p ⊆ p_order p' → inside g p → inside g p'.
Proof. intros H [?|?]; [by left|right; by apply H]. Qed.

Lemma parse_fields_spec group prefix fs p :
  Forall (λ f, ∀ p, parsed_wf p → inside group p → based f = true →
    ∃ r, parse_field group prefix f p = Ok r ∧ parses prefix f p r) fs →
  parsed_wf p → inside group p → forallb based fs = true →
  ∃ fs' p', parse_fields (parse_field group prefix) fs p = Ok (fs', p')
    ∧ Forall2 (assigned prefix) fs fs' ∧ parsed_wf p'
    ∧ p_names p' = grow (p_names p) (mjoin (flat prefix <$> fs)) ∧ p_order p ⊆ p_order p'.
Proof.
  intros H. revert p. induction H as [|f fs Hf _ IH]; intros p Hp Hin Hb; [by eexists _, _|].
  cbn in Hb. apply andb_true_iff in Hb as [Hb1 Hb2].
  destruct (Hf p Hp Hin Hb1) as ([f' p1] & He & H1 & H2 & H3 & H4). cbn in H1, H2, H3, H4.
  destruct (IH p1 H2 (inside_mono _ _ _ H4 Hin) Hb2) as (fs' & p2 & He' & H5 & H6 & H7 & H8).
  exists (f' :: fs'), p2. cbn. rewrite He. cbn. rewrite He'. cbn.
  split; [done|]. split; [by constructor|]. split; [done|]. split; [|set_solver].
  rewrite H7, H3. unfold grow. symmetry. apply fold_left_app.
Qed.

Lemma parse_field_spec f group prefix p :
  parsed_wf p → inside group p → based f = true →
  ∃ r, parse_field group prefix f p = Ok r ∧ parses prefix f p r.
Proof.
  revert group prefix p. induction f as [n v|n v|b n fs IH] using Field_ind'; intros group prefix p Hp Hin Hb.
  - eexists. split; [done|]. destruct (add_name_wf group (prefix +:+ n) p Hp Hin) as (H1 & H2 & H3).
    split; [constructor|]. split; [done|]. split; [done|]. cbn. by rewrite H3.
  - eexists. split; [done|]. by split; [constructor|].
  - destruct (enter_group_wf n p Hp) as (H1 & H2 & H3 & H4). destruct b; cbn in Hb.
    + destruct (parse_fields_spec n prefix fs (enter_group n p)) as (fs' & p' & He & H5 & H6 & H7 & H8);
        [by eapply Forall_impl; [exact IH|]; intros f Hf; apply Hf|done..|].
      exists (FPtr true n fs', p'). cbn. rewrite He. split; [done|]. unfold parses. cbn -[grow].
      split; [by constructor|]. split; [done|]. split; [by rewrite H7, H3|set_solver].
    + apply andb_true_iff in Hb as [Hb1 Hb2].
      destruct (parse_fields_spec n (prefix +:+ n) fs (enter_group n p)) as (fs' & p' & He & H5 & H6 & H7 & H8);
        [by eapply Forall_impl; [exact IH|]; intros f Hf; apply Hf|done..|].
      cbn. rewrite He. cbn. unfold nest_prefix.
      rewrite (assigned_FieldByName (prefix +:+ n) "StatesBase" fs fs') by done.
      destruct (FieldByName fs "StatesBase") as [[|d]|]; [|done|]; (eexists; split; [done|]; unfold parses; cbn -[grow]);
        (split; [constructor; try done; by apply set_prefix_assigned|]); (split; [done|]);
        (split; [by rewrite H7, H3|set_solver]).
Qed.

(** ** Properties *)

(** [NewStates] returns on every struct whose nested structs have a
    [StatesBase] of their own. Every string field then holds its own name, with
    the path of nested structs before it; the names are those of the fields in
    the order of the struct, embedded structs in their place, each once; the
    groups are the structs, and a group's indexes are those of names, no name
    being of two groups. *)
Theorem NewStates_spec fs :
  forallb based fs = true →
  ∃ sd, NewStates fs = Ok sd
  ∧ Forall2 (assigned "") fs (sd_fields sd)
  ∧ sd_names sd = slicesUniq (mjoin (flat "" <$> fs))
  ∧ (∀ g, is_Some (sd_groups sd !! g) ↔ g ∈ sd_groupsOrder sd)
  ∧ (∀ g l i, sd_groups sd !! g = Some l → i ∈ l → 0 ≤ i < Z.of_nat (length (sd_names sd)))
  ∧ (∀ g g' l l' i, sd_groups sd !! g = Some l → sd_groups sd !! g' = Some l' →
       i ∈ l → i ∈ l' → g = g').
Proof.
  intros Hb.
  assert (H0 : parsed_wf (mkParsed [] ∅ [])).
  { split; cbn; [constructor|..].
    - intros g. rewrite lookup_empty. split; [by intros []|by intros ?%elem_of_nil].
    - by intros g l i ?%lookup_empty_Some.
    - by intros g g' l l' i ?%lookup_empty_Some. }
  destruct (enter_group_wf "self" _ H0) as (H1 & H2 & H3 & _).
  destruct (parse_fields_spec "self" "" fs _ (Forall_true _ _ (λ f, parse_field_spec f "self" "")) H1 H2 Hb)
    as (fs' & p & He & H4 & [Hn Ho Hbd Hd] & H5 & _).
  eexists. unfold NewStates, parseStateNames. rewrite He. split; [done|]. cbn.
  rewrite (slicesUniq_id (p_names p)) by done. split; [done|]. split; [|by split].
  rewrite H5, H3. cbn. unfold slicesUniq. by rewrite grow_uniq_seen.
Qed.

Example NewStates_spec_witness :
  let leaf := [FPtr true "StatesBase" StatesBase; FVal "Go" ""] in
  let def := [FPtr true "StatesBase" StatesBase; FVal "A" ""; FPtr true "LeafDef" leaf; FPtr false "Sub" leaf] in
  ∃ sd, NewStates def = Ok sd ∧ sd_names sd = ["Exception"; "A"; "Go"; "SubException"; "SubGo"]
  ∧ sd_groups sd !! "Sub" = Some [4].
Proof.
  intros leaf def. destruct (NewStates_spec def) as (sd & He & _ & Hn & _); [reflexivity|].
  exists sd. split; [exact He|]. split; [rewrite Hn; reflexivity|].
  vm_compute in He. injection He as <-. reflexivity.
Defined.
