(* ===== verification/SchemaDef.v ===== *)
(** * States and schemas ([pkg/machine/schema.go], [State] of [mach_utils.go])

    A schema maps state names to their properties and relations.  A relation
    is a Go slice whose [nil] and empty values differ ([State.Set] only
    replaces relations that are not [nil]), hence [option (list string)].
    Go ranges over maps in an unspecified order: the operations whose result
    depends on it take the order of the keys as an argument. *)

From S2P Require Import Prelude StateList.

#[local] Open Scope Z_scope.

(** A relation slice; [None] is [nil]. *)
Definition rel := option (list string).
Definition elems (r : rel) : list string := default [] r.

Record State := mkState {
  st_Auto : bool;
  st_Multi : bool;
  st_Require : rel;
  st_Add : rel;
  st_Remove : rel;
  st_After : rel;
  st_Tags : rel;
}.

#[export] Instance State_eq_dec : EqDecision State.
Proof. solve_decision. Defined.

(** The zero value of the Go struct: what indexing a map with an unknown name
    returns. *)
Definition zeroState : State := mkState false false None None None None None.
#[export] Instance State_inhabited : Inhabited State := populate zeroState.

Definition set_Require (st : State) (r : rel) : State :=
  mkState st.(st_Auto) st.(st_Multi) r st.(st_Add) st.(st_Remove) st.(st_After) st.(st_Tags).
Definition set_Add (st : State) (r : rel) : State :=
  mkState st.(st_Auto) st.(st_Multi) st.(st_Require) r st.(st_Remove) st.(st_After) st.(st_Tags).
Definition set_Remove (st : State) (r : rel) : State :=
  mkState st.(st_Auto) st.(st_Multi) st.(st_Require) st.(st_Add) r st.(st_After) st.(st_Tags).
Definition set_After (st : State) (r : rel) : State :=
  mkState st.(st_Auto) st.(st_Multi) st.(st_Require) st.(st_Add) st.(st_Remove) r st.(st_Tags).
Definition set_Auto (st : State) (b : bool) : State :=
  mkState b st.(st_Multi) st.(st_Require) st.(st_Add) st.(st_Remove) st.(st_After) st.(st_Tags).
Definition set_Multi (st : State) (b : bool) : State :=
  mkState st.(st_Auto) b st.(st_Require) st.(st_Add) st.(st_Remove) st.(st_After) st.(st_Tags).

(** ** Operations on one state *)

(** A deep copy; [nil] relations stay [nil]. *)
Definition State_Clone (s : State) : State :=
  {| st_Auto := s.(st_Auto);
     st_Multi := s.(st_Multi);
     st_Require := (match s.(st_Require) with Some l => Some l | None => None end);
     st_Add := (match s.(st_Add) with Some l => Some l | None => None end);
     st_Remove := (match s.(st_Remove) with Some l => Some l | None => None end);
     st_After := (match s.(st_After) with Some l => Some l | None => None end);
     st_Tags := (match s.(st_Tags) with Some l => Some l | None => None end) |}.

(** One relation of [StateAdd]: extended when the overlay has it. *)
Definition rel_extend (r o : rel) : rel :=
  match o with Some l => Some (SAdd [elems r; l]) | None => r end.

(** One relation of [StateSet]: replaced when the overlay has it. *)
Definition rel_replace (r o : rel) : rel :=
  match o with Some l => Some l | None => r end.

Definition StateAdd (source overlay : State) : State :=
  let s := State_Clone source in
  let o := State_Clone overlay in
  let s := if o.(st_Auto) then set_Auto s true else s in
  let s := if o.(st_Multi) then set_Multi s true else s in
  let s := set_Add s (rel_extend s.(st_Add) o.(st_Add)) in
  let s := set_Remove s (rel_extend s.(st_Remove) o.(st_Remove)) in
  let s := set_Require s (rel_extend s.(st_Require) o.(st_Require)) in
  set_After s (rel_extend s.(st_After) o.(st_After)).

Definition StateSet (source : State) (auto multi : bool) (overlay : State) : State :=
  let s := State_Clone source in
  let o := State_Clone overlay in
  let s := set_Auto s auto in
  let s := set_Multi s multi in
  let s := set_Add s (rel_replace s.(st_Add) o.(st_Add)) in
  let s := set_Remove s (rel_replace s.(st_Remove) o.(st_Remove)) in
  let s := set_Require s (rel_replace s.(st_Require) o.(st_Require)) in
  set_After s (rel_replace s.(st_After) o.(st_After)).

Definition State_Extend (s overlay : State) : State := StateAdd s overlay.
Definition State_Set (s : State) (auto multi : bool) (overlay : State) : State :=
  StateSet s auto multi overlay.
Definition State_SetRels (s overlay : State) : State :=
  StateSet s s.(st_Auto) s.(st_Multi) overlay.
Definition State_HasTag (s : State) (tag : string) : bool := contains (elems s.(st_Tags)) tag.

(** ** Schemas *)

(** Indexing the Go map: the zero value for unknown names. *)
Definition schema_get (s : gmap string State) (name : string) : State :=
  default zeroState (s !! name).

(** [maps.Keys], in the model's own order. *)
Definition keys (s : gmap string State) : list string := (map_to_list s).*1.

Definition Schema_Clone (s : gmap string State) : gmap string State := State_Clone <$> s.

Definition Schema_Merge (s : gmap string State) (schemas : list (gmap string State))
  : gmap string State :=
  match schemas with
  | [] => s
  | _ =>
      let ret := fold_left (λ ret x, x ∪ ret) schemas (Schema_Clone s) in
      Schema_Clone (delete "" ret)
  end.

Definition SchemaMerge (schemas : list (gmap string State)) : gmap string State :=
  match schemas with
  | [] => ∅
  | [s] => s
  | _ => Schema_Clone (fold_left (λ ret x, x ∪ ret) schemas ∅)
  end.

(** The renaming of [Schema.Prefix]: relation targets are tested with the
    name of the state that owns the relation, as in the source. *)
Definition prefix_name (prefix : string) (skipPrefixed : bool) (name r : string) : string :=
  if negb skipPrefixed || negb (HasPrefix name prefix) then prefix +:+ r else r.

Definition Schema_Prefix (order : list string) (s : gmap string State) (prefix : string)
    (skipPrefixed : bool) (optAllowlist optSkiplist : list string) : gmap string State :=
  fold_left (λ ret name,
    let st := State_Clone (schema_get s name) in
    if bool_decide (0 < length optAllowlist)%nat && negb (contains optAllowlist name) then ret
    else if bool_decide (0 < length optSkiplist)%nat && contains optSkiplist name then ret
    else
      let ren := fmap (M := list) (prefix_name prefix skipPrefixed name) in
      let st := set_After st (ren <$> st.(st_After)) in
      let st := set_Add st (ren <$> st.(st_Add)) in
      let st := set_Remove st (ren <$> st.(st_Remove)) in
      let st := set_Require st (ren <$> st.(st_Require)) in
      <[prefix_name prefix skipPrefixed name name := st]> ret) order ∅.

(** *** [Schema.Parse] *)

Definition rel_without (r : rel) (x : string) : rel := (λ l, slicesWithout l x) <$> r.

(** [for _, n := range l { if !known(n) { r = slicesWithout(r, n) } }] *)
Definition drop_unknown (states : list string) (r : rel) : rel :=
  fold_left (λ r n, if negb (contains states n) then rel_without r n else r) (elems r) r.

(** The loop over [state.Add]: (Add, Remove) after it. *)
Definition parse_adds (states : list string) (add remove : rel) : rel * rel :=
  fold_left (λ '(add, remove) a,
    if contains (elems remove) a then (add, rel_without remove a)
    else if negb (contains states a) then (rel_without add a, remove)
    else (add, remove)) (elems add) (add, remove).

(** [if slices.Contains(r, name) { r = slicesWithout(r, name) }] *)
Definition drop_self (r : rel) (name : string) : rel :=
  if contains (elems r) name then rel_without r name else r.

Definition parse_state (states : list string) (name : string) (state : State) : State :=
  let state := set_Remove state (drop_self state.(st_Remove) name) in
  let '(add, remove) := parse_adds states state.(st_Add) state.(st_Remove) in
  let state := set_Remove (set_Add state add) remove in
  let state := set_After state (drop_self state.(st_After) name) in
  let state := set_Remove state (drop_unknown states state.(st_Remove)) in
  let state := set_After state (drop_unknown states state.(st_After)) in
  set_Remove state (drop_unknown states state.(st_Remove)).

(** The require-remove conflicts of one state, found before unknown names are
    dropped. *)
Definition parse_conflicts (states : list string) (name : string) (state : State)
  : list (string * string) :=
  let '(_, remove) := parse_adds states state.(st_Add) (drop_self state.(st_Remove) name) in
  (λ r, (name, r)) <$> slicesFilter (elems state.(st_Require)) (contains (elems remove)).

(** The parsed schema, and the joined conflicts ([nil] error when empty). *)
Definition Schema_Parse (order : list string) (s : gmap string State)
  : gmap string State * list (string * string) :=
  let states := keys s in
  (fold_left (λ parsed name, <[name := parse_state states name (schema_get s name)]> parsed)
     order (Schema_Clone s),
   mjoin ((λ name, parse_conflicts states name (schema_get s name)) <$> order)).

Definition Schema_FilterByTag (s : gmap string State) (tag : string) : gmap string State :=
  filter (λ p : string * State, Is_true (contains (elems p.2.(st_Tags)) tag)) s.

Definition Schema_FilterByTagKey (s : gmap string State) (key : string) : gmap string State :=
  filter (λ p : string * State,
    Is_true (existsb (λ t, HasPrefix t (key +:+ ":")) (elems p.2.(st_Tags)))) s.

Definition Schema_Names (order : list string) (s : gmap string State) : list string :=
  slicesFilter order (λ n, bool_decide (is_Some (s !! n))).

Definition StatesByTag (order : list string) (s : gmap string State) (tag : string)
  : list string :=
  slicesFilter order (λ n,
    existsb (λ t, bool_decide (t = tag) || HasPrefix t (tag +:+ ":"))
      (elems (schema_get s n).(st_Tags))).

Definition Schema_AdjacentStates (s : gmap string State) (state : string) : list string :=
  match s !! state with
  | None => []
  | Some data =>
      elems data.(st_Add) ++ elems data.(st_After) ++ elems data.(st_Require)
      ++ elems data.(st_Remove)
  end.

Definition prefixRels (prefix : string) (states : list string) (rels : rel) : rel :=
  match rels with
  | None => None
  | Some l => Some ((λ r, if negb (contains states r) then r else prefix +:+ r) <$> l)
  end.

Definition Schema_Nest (s : gmap string State) (prefix : string) (states : list string)
  : gmap string State :=
  fold_left (λ ret state,
    let st := schema_get s state in
    let st := set_Require st (prefixRels prefix states st.(st_Require)) in
    let st := set_Add st (prefixRels prefix states st.(st_Add)) in
    let st := set_Remove st (prefixRels prefix states st.(st_Remove)) in
    let st := set_After st (prefixRels prefix states st.(st_After)) in
    <[prefix +:+ state := st]> ret) states ∅.

Definition Schema_Get (s : gmap string State) (state : string) : State :=
  match s !! state with Some st => st | None => zeroState end.

(** ** Lemmas *)

Lemma elems_without r x : elems (rel_without r x) = slicesWithout (elems r) x.
Proof.
  destruct r; simpl; [done|]. by rewrite slicesWithout_not_in by set_solver.
Qed.

Lemma rel_without_subseteq r x y : y ∈ elems (rel_without r x) → y ∈ elems r.
Proof. rewrite elems_without. apply slicesWithout_subseteq. Qed.

(** Occurrences of a name. *)
Definition cnt (x : string) (l : list string) : nat := length (filter (λ y, y = x) l).

Lemma cnt_perm x l k : l ≡ₚ k → cnt x l = cnt x k.
Proof. intros Hp. unfold cnt. by rewrite Hp. Qed.

Lemma cnt_cons x y l : cnt x (y :: l) = ((if decide (y = x) then 1 else 0) + cnt x l)%nat.
Proof. unfold cnt. rewrite filter_cons. by case_decide. Qed.

Lemma cnt_0 x l : cnt x l = 0%nat ↔ x ∉ l.
Proof.
  unfold cnt. rewrite length_zero_iff_nil. split.
  - intros Hf Hx. assert (x ∈ filter (λ y, y = x) l) as Hin by (by apply list_elem_of_filter).
    rewrite Hf in Hin. by apply elem_of_nil in Hin.
  - intros Hx. induction l as [|y l IH]; [done|].
    rewrite filter_cons, decide_False by set_solver. apply IH. set_solver.
Qed.

Lemma cnt_without x y l :
  cnt x (slicesWithout l y) = (cnt x l - if decide (y = x) then 1 else 0)%nat.
Proof.
  destruct (decide (y ∈ l)) as [Hy|Hy].
  - rewrite (cnt_perm x l _ (slicesWithout_perm l y Hy)), cnt_cons. lia.
  - rewrite slicesWithout_not_in by done. case_decide as Hx; [subst|lia].
    apply cnt_0 in Hy. lia.
Qed.

Lemma fold_drop_unknown states l r x :
  (x ∈ elems (fold_left (λ r n, if negb (contains states n) then rel_without r n else r) l r)
    → x ∈ elems r)
  ∧ (x ∈ states →
     (x ∈ elems (fold_left (λ r n, if negb (contains states n) then rel_without r n else r) l r)
      ↔ x ∈ elems r))
  ∧ (x ∉ states → (cnt x (elems r) ≤ cnt x l)%nat →
     x ∉ elems (fold_left (λ r n, if negb (contains states n) then rel_without r n else r) l r)).
Proof.
  revert r. induction l as [|y l IH]; intros r; simpl.
  { split; [done|]. split; [done|]. intros _ Hc. apply cnt_0. unfold cnt in *. simpl in *. lia. }
  specialize (IH (if negb (contains states y) then rel_without r y else r)) as (IH1 & IH2 & IH3).
  destruct (contains states y) eqn:Hy; reflect; simpl in *.
  - split; [done|]. split; [done|]. intros Hx Hc. apply IH3; [done|].
    rewrite cnt_cons, decide_False in Hc by naive_solver. done.
  - split; [|split].
    + intros Hin. by eapply rel_without_subseteq, IH1.
    + intros Hx. rewrite IH2, elems_without by done.
      apply elem_of_slicesWithout_ne. naive_solver.
    + intros Hx Hc. apply IH3; [done|]. rewrite elems_without, cnt_without.
      rewrite cnt_cons in Hc. lia.
Qed.

Lemma elem_of_drop_unknown states r x :
  x ∈ elems (drop_unknown states r) ↔ x ∈ elems r ∧ x ∈ states.
Proof.
  unfold drop_unknown. destruct (fold_drop_unknown states (elems r) r x) as (H1 & H2 & H3).
  destruct (decide (x ∈ states)); [naive_solver|]. split; [|tauto]. intros Hin.
  by destruct H3.
Qed.

Lemma NoDup_rel_without r x : NoDup (elems r) → NoDup (elems (rel_without r x)).
Proof. rewrite elems_without. apply NoDup_slicesWithout. Qed.

Lemma drop_self_subseteq r n x : x ∈ elems (drop_self r n) → x ∈ elems r.
Proof. unfold drop_self. case_match; [apply rel_without_subseteq|done]. Qed.

Lemma drop_self_nodup r n :
  NoDup (elems r) → NoDup (elems (drop_self r n)) ∧ n ∉ elems (drop_self r n).
Proof.
  intros Hnd. unfold drop_self. destruct (contains _ n) eqn:Hc; reflect; [|done].
  split; [by apply NoDup_rel_without|]. rewrite elems_without.
  by apply not_elem_of_slicesWithout.
Qed.

Lemma fold_parse_adds states l add remove add' remove' :
  fold_left (λ '(add, remove) a,
    if contains (elems remove) a then (add, rel_without remove a)
    else if negb (contains states a) then (rel_without add a, remove)
    else (add, remove)) l (add, remove) = (add', remove') →
  (∀ x, x ∈ elems add' → x ∈ elems add) ∧ (∀ x, x ∈ elems remove' → x ∈ elems remove)
  ∧ (NoDup (elems remove) → NoDup (elems remove') ∧ (∀ x, x ∈ l → x ∉ elems remove'))
  ∧ (∀ x, x ∉ l → (x ∈ elems remove ↔ x ∈ elems remove')).
Proof.
  revert add remove. induction l as [|a l IH]; intros add remove Hf; simpl in Hf.
  { simplify_eq. split; [done|]. split; [done|]. split; [|done].
    intros Hnd. split; [done|]. intros x Hx. by apply elem_of_nil in Hx. }
  repeat case_match; reflect; apply IH in Hf as (H1 & H2 & H3 & H4).
  - split; [done|]. split; [eauto using rel_without_subseteq|]. split.
    + intros Hnd. destruct H3 as [Hnd' H3]; [by apply NoDup_rel_without|].
      split; [done|]. intros x [->|Hx]%elem_of_cons; [|by apply H3].
      intros Hin. apply H2 in Hin. rewrite elems_without in Hin.
      by apply not_elem_of_slicesWithout in Hin.
    + intros x Hx. rewrite not_elem_of_cons in Hx. rewrite <- H4, elems_without by tauto.
      rewrite elem_of_slicesWithout_ne by tauto. done.
  - split; [eauto using rel_without_subseteq|]. split; [done|]. split.
    + intros Hnd. destruct (H3 Hnd) as [Hnd' H3']. split; [done|].
      intros x [->|Hx]%elem_of_cons; [|by apply H3']. intros Hin. apply H2 in Hin. done.
    + intros x Hx. rewrite not_elem_of_cons in Hx. apply H4. tauto.
  - split; [done|]. split; [done|]. split.
    + intros Hnd. destruct (H3 Hnd) as [Hnd' H3']. split; [done|].
      intros x [->|Hx]%elem_of_cons; [|by apply H3']. intros Hin. apply H2 in Hin. done.
    + intros x Hx. rewrite not_elem_of_cons in Hx. apply H4. tauto.
Qed.

Lemma schema_fold_lookup (f : string → State) order (m : gmap string State) n :
  fold_left (λ p name, <[name := f name]> p) order m !! n
  = if decide (n ∈ order) then Some (f n) else m !! n.
Proof.
  revert m. induction order as [|a order IH]; intros m; cbn [fold_left].
  { rewrite decide_False; [done|]. apply not_elem_of_nil. }
  rewrite IH. destruct (decide (n ∈ order)) as [Hin|Hin].
  - rewrite decide_True; [done|]. by right.
  - destruct (decide (n = a)) as [->|Hne].
    + rewrite decide_True by left. by rewrite lookup_insert_eq.
    + rewrite decide_False by set_solver. by rewrite lookup_insert_ne.
Qed.

Lemma elem_of_keys (s : gmap string State) n : n ∈ keys s ↔ is_Some (s !! n).
Proof.
  unfold keys. rewrite list_elem_of_fmap. split.
  - intros ([k st] & -> & Hin). apply elem_of_map_to_list in Hin. simpl. eauto.
  - intros [st Hst]. exists (n, st). by rewrite elem_of_map_to_list.
Qed.

Lemma NoDup_keys (s : gmap string State) : NoDup (keys s).
Proof. apply NoDup_fst_map_to_list. Qed.

Lemma State_Clone_id s : State_Clone s = s.
Proof. by destruct s as [? ? [] [] [] [] []]. Qed.

Lemma Schema_Clone_id s : Schema_Clone s = s.
Proof.
  unfold Schema_Clone. rewrite <- (map_fmap_id s) at 2. apply map_fmap_ext.
  intros. apply State_Clone_id.
Qed.

(** Parsing works state by state, in any iteration order of the map. *)
Lemma Schema_Parse_lookup order s n :
  (∀ k, k ∈ order ↔ is_Some (s !! k)) →
  (Schema_Parse order s).1 !! n = parse_state (keys s) n <$> s !! n.
Proof.
  intros Ho. unfold Schema_Parse. simpl. rewrite schema_fold_lookup, Schema_Clone_id.
  destruct (decide (n ∈ order)) as [Hin|Hin].
  - apply Ho in Hin as [st Hst]. unfold schema_get. by rewrite Hst.
  - rewrite Ho in Hin. destruct (s !! n); [|done]. by destruct Hin.
Qed.

(** ** Properties *)

(** What [Schema.Parse] establishes for each state, whatever order the map is
    walked in: the properties and the Require relation are kept; Remove and
    After only name states of the schema; without repeated names in the
    relations, no state removes or follows itself and no state removes what
    it adds. *)
Theorem Schema_Parse_wf (order : list string) (s : gmap string State) n st st' :
  (∀ k, k ∈ order ↔ is_Some (s !! k)) →
  s !! n = Some st → (Schema_Parse order s).1 !! n = Some st' →
  st'.(st_Auto) = st.(st_Auto) ∧ st'.(st_Multi) = st.(st_Multi)
  ∧ st'.(st_Require) = st.(st_Require)
  ∧ (∀ x, x ∈ elems st'.(st_Add) → x ∈ elems st.(st_Add))
  ∧ (∀ x, x ∈ elems st'.(st_Remove) → x ∈ elems st.(st_Remove) ∧ is_Some (s !! x))
  ∧ (∀ x, x ∈ elems st'.(st_After) → x ∈ elems st.(st_After) ∧ is_Some (s !! x))
  ∧ (NoDup (elems st.(st_Remove)) →
     (n ∉ elems st'.(st_Remove))
     ∧ (∀ x, x ∈ elems st.(st_Add) → x ∉ elems st'.(st_Remove)))
  ∧ (NoDup (elems st.(st_After)) → n ∉ elems st'.(st_After)).
Proof.
  intros Ho Hst Hst'. rewrite Schema_Parse_lookup, Hst in Hst' by done. simpl in Hst'.
  injection Hst' as <-. unfold parse_state. cbn [set_Remove st_Remove st_Add].
  destruct (parse_adds (keys s) (st_Add st) (drop_self (st_Remove st) n)) as [add' rm'] eqn:Hp.
  unfold parse_adds in Hp. apply fold_parse_adds in Hp as (P1 & P2 & P3 & P4). simpl.
  setoid_rewrite elem_of_drop_unknown. setoid_rewrite elem_of_drop_unknown.
  setoid_rewrite elem_of_keys.
  do 3 (split; [done|]). split; [done|]. split; [|split; [|split]].
  - intros x [[Hx Hs] _]. split; [|done]. by eapply drop_self_subseteq, P2.
  - intros x [Hx Hs]. split; [|done]. by eapply drop_self_subseteq.
  - intros Hnd. destruct (drop_self_nodup (st_Remove st) n Hnd) as [Hnd1 Hn].
    destruct (P3 Hnd1) as [Hnd2 Hadd]. split.
    + intros [[Hin _] _]. by apply P2 in Hin.
    + intros x Hx [[Hin _] _]. by apply (Hadd x).
  - intros Hnd. destruct (drop_self_nodup (st_After st) n Hnd) as [_ Hn]. tauto.
Qed.

Example Schema_Parse_wf_witness :
  let s : gmap string State :=
    {["A" := mkState false false None (Some ["B"]) (Some ["A"; "B"; "X"]) (Some ["A"; "C"]) None;
      "B" := zeroState]} in
  ∃ st', (Schema_Parse (keys s) s).1 !! "A" = Some st' ∧ ("A" ∉ elems st'.(st_Remove))
         ∧ ("A" ∉ elems st'.(st_After)).
Proof.
  intros s. set (st := mkState false false None (Some ["B"]) (Some ["A"; "B"; "X"]) (Some ["A"; "C"]) None).
  destruct ((Schema_Parse (keys s) s).1 !! "A") as [st'|] eqn:E.
  - exists st'. split; [done|].
    destruct (Schema_Parse_wf (keys s) s "A" st st' (elem_of_keys s)) as (_&_&_&_&_&_&H1&H2);
      [reflexivity|exact E|].
    split; [apply (proj1 (H1 ltac:(compute_decide)))|apply H2; compute_decide].
  - vm_compute in E. discriminate E.
Defined.

(** Merging schemas overrides state by state: the last schema that defines a
    state wins, and the nameless state never survives. *)
Theorem Schema_Merge_last_wins s ss x n :
  Schema_Merge s (ss ++ [x]) !! ""  = None
  ∧ (n ≠ "" → Schema_Merge s (ss ++ [x]) !! n
       = match x !! n with Some st => Some st | None => Schema_Merge s ss !! n end).
Proof.
  assert (Hm : Schema_Merge s (ss ++ [x])
    = delete "" (x ∪ fold_left (λ ret x, x ∪ ret) ss s)).
  { unfold Schema_Merge. destruct (ss ++ [x]) eqn:E; [by destruct ss|].
    rewrite <- E, fold_left_app, !Schema_Clone_id. done. }
  rewrite Hm. split; [apply lookup_delete_eq|]. intros Hn.
  rewrite lookup_delete_ne, lookup_union by done.
  assert (Schema_Merge s ss !! n = fold_left (λ ret x, x ∪ ret) ss s !! n) as ->.
  { unfold Schema_Merge. destruct ss; [done|].
    rewrite !Schema_Clone_id. by rewrite lookup_delete_ne. }
  destruct (x !! n), (fold_left _ ss s !! n); done.
Qed.

Example Schema_Merge_last_wins_witness :
  Schema_Merge {["A" := zeroState]} ([] ++ [{["A" := set_Auto zeroState true]}]) !! "A"
  = Some (set_Auto zeroState true).
Proof.
  destruct (Schema_Merge_last_wins {["A" := zeroState]} []
    {["A" := set_Auto zeroState true]} "A") as [_ H]. by rewrite H.
Defined.

(** [State.Set] replaces exactly the relations the overlay has, [State.Extend]
    only ever adds to them. *)
Theorem State_Set_Extend_spec (s o : State) (auto multi : bool) x :
  (State_Set s auto multi o).(st_Auto) = auto
  ∧ (State_Set s auto multi o).(st_Multi) = multi
  ∧ (State_Set s auto multi o).(st_Require)
      = (if decide (o.(st_Require) = None) then s.(st_Require) else o.(st_Require))
  ∧ (State_Extend s o).(st_Auto) = s.(st_Auto) || o.(st_Auto)
  ∧ (State_Extend s o).(st_Multi) = s.(st_Multi) || o.(st_Multi)
  ∧ (x ∈ elems (State_Extend s o).(st_Require)
       ↔ x ∈ elems s.(st_Require) ∨ x ∈ elems o.(st_Require))
  ∧ (x ∈ elems (State_Extend s o).(st_Add) ↔ x ∈ elems s.(st_Add) ∨ x ∈ elems o.(st_Add))
  ∧ (x ∈ elems (State_Extend s o).(st_Remove)
       ↔ x ∈ elems s.(st_Remove) ∨ x ∈ elems o.(st_Remove))
  ∧ (State_Extend s o).(st_Tags) = s.(st_Tags).
Proof.
  assert (Hext : ∀ r o', x ∈ elems (rel_extend r o') ↔ x ∈ elems r ∨ x ∈ elems o').
  { intros r [l|]; simpl; [|set_solver]. rewrite elem_of_slicesUniq. apply elem_of_app. }
  unfold State_Set, State_Extend, StateSet, StateAdd. rewrite !State_Clone_id.
  destruct s as [au mu rq ad rm af tg], o as [au' mu' rq' ad' rm' af' tg'].
  split; [done|]. split; [done|]. split; [by destruct rq'|].
  destruct au, mu, au', mu'; simpl; rewrite !Hext; done.
Qed.

(** A prefixed schema with [skipPrefixed] can point at names it does not
    define: relation targets follow the owner's prefix, not their own. *)
Example Schema_Prefix_dangling :
  let s : gmap string State :=
    {["FooA" := mkState false false (Some ["Bar"]) None None None None; "Bar" := zeroState]} in
  let p := Schema_Prefix (keys s) s "Foo" true [] [] in
  (st_Require <$> p !! "FooA") = Some (Some ["Bar"]) ∧ p !! "Bar" = None
  ∧ is_Some (p !! "FooBar").
Proof. vm_compute. split; [done|]. split; [done|]. eauto. Qed.
