(* ===== verification/MachTime.v ===== *)
(** * Machine time ([pkg/machine/mach_misc.go], [Clock] of [types.go])

    [Time] is the list of the ticks of all the states, in the order of the
    state names; [TimeIndex] binds it to those names; [Clock] is the same
    keyed by name.  Indexing out of range panics where the source does not
    guard it. *)

From S2P Require Import Prelude StateList.

#[local] Open Scope Z_scope.

(** ** [Time] *)

(** [ret[idx] = 1] for each active index. *)
Definition mark_active (t : list Z) (activeStates : list Z) : outcome (list Z) :=
  fold_left (λ r idx, r ≫= λ t, slice_set t idx 1) activeStates (Ok t).

Definition NewTime (index : list Z) (activeStates : list Z) : outcome (list Z) :=
  mark_active (replicate (length index) 0) activeStates.

Definition len (t : list Z) : Z := Z.of_nat (length t).

Module Time.
Definition Increment (t : list Z) (idx : Z) : outcome (list Z) :=
  if bool_decide (idx < len t) then
    v ← slice_get t idx; slice_set t idx (wrap64 (v + 1))
  else Ok t.

(** [int(tick)] on a 64-bit platform. *)
Definition to_int (tick : Z) : Z :=
  if bool_decide (tick < 2 ^ 63) then tick else tick - two64.

Definition String (t : list Z) : string :=
  fold_left (λ ret tick,
    (if negb (bool_decide (ret = "")) then ret +:+ " " else ret) +:+ pretty (to_int tick))
    t "".

Definition Add (t t2 : list Z) : list Z :=
  if negb (bool_decide (length t = length t2)) then t
  else zip_with (λ a b, wrap64 (a + b)) t t2.

Definition Filter (t : list Z) (idxs : list Z) : outcome (list Z) :=
  mapM (λ idx, if bool_decide (idx >= len t) then Ok 0 else slice_get t idx) idxs.

(** [idxs = None] is the [nil] slice: the total sum. *)
Definition Sum (t : list Z) (idxs : option (list Z)) : outcome Z :=
  match idxs with
  | None => Ok (fold_left (λ sum v, wrap64 (sum + v)) t 0)
  | Some idxs =>
      fold_left (λ r idx, r ≫= λ sum,
        if bool_decide (idx >= len t) then Ok sum
        else v ← slice_get t idx; Ok (wrap64 (sum + v))) idxs (Ok 0)
  end.

Definition DiffSince (t before : list Z) : list Z :=
  if negb (bool_decide (length t = length before)) then replicate (length t) 0
  else zip_with (λ a b, wrap64 (a - b)) t before.

Definition NonZeroStates (t : list Z) : list Z :=
  omap (λ p : nat * Z, if negb (bool_decide (p.2 = 0)) then Some (Z.of_nat p.1) else None)
    (imap pair t).

Fixpoint After (t : list Z) (orEqual : bool) (time2 : list Z) : bool :=
  match t, time2 with
  | t1 :: t, t2 :: time2 =>
      if bool_decide (t1 < t2) || (bool_decide (t1 = t2) && negb orEqual) then false
      else After t orEqual time2
  | _, _ => true
  end.

Fixpoint Before (t : list Z) (orEqual : bool) (time2 : list Z) : bool :=
  match t, time2 with
  | t1 :: t, t2 :: time2 =>
      if bool_decide (t1 > t2) || (bool_decide (t1 = t2) && negb orEqual) then false
      else Before t orEqual time2
  | _, _ => true
  end.

(** The comparison loop of [Equal]: [time2[i]] is not guarded. *)
Fixpoint equal_loop (t time2 : list Z) : outcome bool :=
  match t, time2 with
  | [], _ => Ok true
  | _ :: _, [] => Panic "index out of range"
  | t1 :: t, t2 :: time2 =>
      if negb (bool_decide (t1 = t2)) then Ok false else equal_loop t time2
  end.

Definition Equal (t : list Z) (strict : bool) (time2 : list Z) : outcome bool :=
  if strict && negb (bool_decide (length t = length time2)) then Ok false
  else equal_loop t time2.

Definition Tick (t : list Z) (idx : Z) : outcome Z :=
  if bool_decide (len t <= idx) then Ok 0 else slice_get t idx.

Definition Is1 (t : list Z) (idx : Z) : outcome bool :=
  if bool_decide (idx = -1) || bool_decide (idx >= len t) then Ok false
  else v ← slice_get t idx; Ok (IsActiveTick v).

Fixpoint is_loop (t idxs : list Z) : outcome bool :=
  match idxs with
  | [] => Ok true
  | idx :: idxs =>
      if bool_decide (idx = -1) then Ok false
      else v ← slice_get t idx;
           if negb (IsActiveTick v) then Ok false else is_loop t idxs
  end.

Definition Is (t idxs : list Z) : outcome bool :=
  if bool_decide (idxs = []) then Ok false else is_loop t idxs.

Fixpoint Not (t idxs : list Z) : outcome bool :=
  match idxs with
  | [] => Ok true
  | idx :: idxs =>
      if bool_decide (idx = -1) then Not t idxs
      else v ← slice_get t idx;
           if IsActiveTick v then Ok false else Not t idxs
  end.

Definition Not1 (t : list Z) (idx : Z) : outcome bool :=
  if bool_decide (idx = -1) || bool_decide (idx >= len t) then Ok false
  else v ← slice_get t idx; Ok (negb (IsActiveTick v)).

Fixpoint Any (t : list Z) (idxs : list (list Z)) : outcome bool :=
  match idxs with
  | [] => Ok false
  | l :: idxs => b ← Is t l; if b : bool then Ok true else Any t idxs
  end.

Fixpoint Any1 (t : list Z) (idxs : list Z) : outcome bool :=
  match idxs with
  | [] => Ok false
  | idx :: idxs => b ← Is1 t idx; if b : bool then Ok true else Any1 t idxs
  end.

(** The [idxs] argument is not read. *)
Definition ActiveStates (t : list Z) (idxs : option (list Z)) : list Z :=
  omap (λ p : nat * Z, if IsActiveTick p.2 then Some (Z.of_nat p.1) else None)
    (imap pair t).
End Time.

(** [mTime.Sum(nil)], which always returns. *)
Definition time_sum (t : list Z) : Z := fold_left (λ sum v, wrap64 (sum + v)) t 0.

(** Sums, without the wrap-around in between. *)
Definition zsum (l : list Z) : Z := foldr Z.add 0 l.

Lemma time_sum_eq l : time_sum l = wrap64 (zsum l).
Proof.
  unfold time_sum. assert (H : ∀ l a, fold_left (λ sum v, wrap64 (sum + v)) l (wrap64 a)
    = wrap64 (a + zsum l)).
  { induction l0 as [|v l0 IH]; intros a; cbn. { by rewrite Z.add_0_r. }
    rewrite wrap64_add_l, IH. f_equal. fold (zsum l0). lia. }
  specialize (H l 0). by replace (wrap64 0) with 0 in H by reflexivity.
Qed.

(** The sum of a difference is the difference of the sums. *)
Lemma zsum_diff t before :
  length t = length before →
  wrap64 (zsum (zip_with (λ a b, wrap64 (a - b)) t before)) = wrap64 (zsum t - zsum before).
Proof.
  revert before. induction t as [|a t IH]; intros [|b before] Hl; try done.
  cbn. fold (zsum (zip_with (λ a b, wrap64 (a - b)) t before)) (zsum t) (zsum before).
  rewrite wrap64_add_l, <- wrap64_add_r, IH by (by injection Hl). rewrite wrap64_add_r. f_equal. lia.
Qed.

(** Reading a time at indexes; the ones past its end read as zero. *)
Definition pick (t : list Z) (idxs : list Z) : list Z := (λ i, default 0 (t !! Z.to_nat i)) <$> idxs.

Lemma Filter_ok t idxs l :
  Time.Filter t idxs = Ok l ↔ (∀ i, i ∈ idxs → 0 ≤ i) ∧ l = pick t idxs.
Proof.
  unfold Time.Filter. rewrite mapM_ok_Forall2. unfold pick. split.
  - intros Hf. assert (Hi : ∀ i v, (if bool_decide (i >= len t) then Ok 0 else slice_get t i) = Ok v →
      0 ≤ i ∧ v = default 0 (t !! Z.to_nat i)).
    { intros i v. unfold len. case_bool_decide as Hlen.
      - intros [= <-]. split; [lia|]. by rewrite lookup_ge_None_2 by lia.
      - intros [Hge ->]%slice_get_ok. done. }
    induction Hf as [|i v idxs l Hv Hf [IH1 IH2]].
    + split; [|done]. by intros i ?%elem_of_nil.
    + apply Hi in Hv as [Hge ->]. split; [|by subst l]. intros x [->|Hx]%elem_of_cons; auto.
  - intros [Hi ->]. induction idxs as [|i idxs IH]; constructor.
    + unfold len. specialize (Hi i ltac:(left)). case_bool_decide as Hlen.
      * by rewrite lookup_ge_None_2 by lia.
      * destruct (lookup_lt_is_Some_2 t (Z.to_nat i)) as [v Hv]; [lia|]. rewrite Hv. by apply slice_get_ok.
    + apply IH. intros x Hx. apply Hi. by right.
Qed.

Lemma Filter_pick t idxs : (∀ i, i ∈ idxs → 0 ≤ i) → Time.Filter t idxs = Ok (pick t idxs).
Proof. intros Hi. by apply Filter_ok. Qed.

Lemma Sum_pick t idxs :
  (∀ i, i ∈ idxs → 0 ≤ i) → Time.Sum t (Some idxs) = Ok (time_sum (pick t idxs)).
Proof.
  intros Hi. rewrite time_sum_eq. unfold Time.Sum.
  assert (Hgen : ∀ a, fold_left (λ r idx, r ≫= λ sum,
      if bool_decide (idx >= len t) then Ok sum
      else v ← slice_get t idx; Ok (wrap64 (sum + v))) idxs (Ok (wrap64 a))
    = Ok (wrap64 (a + zsum (pick t idxs)))).
  { induction idxs as [|i idxs IH]; intros a; cbn. { by rewrite Z.add_0_r. }
    fold (zsum (pick t idxs)). specialize (Hi i ltac:(left)) as Hge. unfold len in *. case_bool_decide as Hlen.
    - rewrite lookup_ge_None_2 by lia. apply IH. intros x Hx. apply Hi. by right.
    - destruct (lookup_lt_is_Some_2 t (Z.to_nat i)) as [v Hv]; [lia|].
      assert (slice_get t i = Ok v) as -> by (by apply slice_get_ok). cbn. rewrite Hv, wrap64_add_l, IH.
      + f_equal. f_equal. unfold zsum. cbn. fold (pick t idxs). lia.
      + intros x Hx. apply Hi. by right. }
  apply (Hgen 0).
Qed.

(** ** [TimeIndex] *)

Record TimeIndex := mkTimeIndex { ti_Time : list Z; ti_Index : list string }.

Definition NewTimeIndex (index : list string) (activeStates : list Z) : outcome TimeIndex :=
  t ← mark_active (replicate (length index) 0) activeStates;
  Ok (mkTimeIndex t index).

Definition Time_ToIndex (t : list Z) (index : list string) : TimeIndex := mkTimeIndex t index.

Module TimeIndex.
Definition StateName (t : TimeIndex) (idx : Z) : outcome string :=
  if bool_decide (idx >= Z.of_nat (length t.(ti_Index))) then Ok ""
  else slice_get t.(ti_Index) idx.

Definition Sum (t : TimeIndex) (states : list string) : outcome Z :=
  Time.Sum t.(ti_Time) (Some (StatesToIndex t.(ti_Index) states)).

Definition Filter (t : TimeIndex) (states : list string) : outcome TimeIndex :=
  r ← Time.Filter t.(ti_Time) (StatesToIndex t.(ti_Index) states);
  Ok (Time_ToIndex r states).

Definition NonZeroStates (t : TimeIndex) : outcome (list string) :=
  IndexToStates t.(ti_Index) (Time.NonZeroStates t.(ti_Time)).

Definition Is (t : TimeIndex) (states : list string) : outcome bool :=
  Time.Is t.(ti_Time) (StatesToIndex t.(ti_Index) states).

Definition Is1 (t : TimeIndex) (state : string) : outcome bool :=
  Time.Is t.(ti_Time) (StatesToIndex t.(ti_Index) [state]).

Definition Not (t : TimeIndex) (states : list string) : outcome bool :=
  Time.Not t.(ti_Time) (StatesToIndex t.(ti_Index) states).

Definition Not1 (t : TimeIndex) (state : string) : outcome bool :=
  Time.Not t.(ti_Time) (StatesToIndex t.(ti_Index) [state]).

Definition Any (t : TimeIndex) (states : list string) : outcome bool :=
  Time.Any t.(ti_Time) ((λ s, StatesToIndex t.(ti_Index) [s]) <$> states).

Definition Any1 (t : TimeIndex) (states : list string) : outcome bool :=
  Time.Any1 t.(ti_Time) (StatesToIndex t.(ti_Index) states).

(** [states = None] is [nil]: no restriction. *)
Definition ActiveStates (t : TimeIndex) (states : option (list string)) : list string :=
  omap (λ p : nat * Z,
    if negb (IsActiveTick p.2) then None
    else
      let name := default ("unknown" +:+ pretty (Z.of_nat p.1)) (t.(ti_Index) !! p.1) in
      match states with
      | Some l => if negb (contains l name) then None else Some name
      | None => Some name
      end) (imap pair t.(ti_Time)).

Definition String (t : TimeIndex) : string := j (ActiveStates t None).
End TimeIndex.

(** ** [Clock] *)

(** Reading the Go map: 0 for unknown names. *)
Definition tick_of (c : gmap string Z) (s : string) : Z := default 0 (c !! s).

(** The sum is commutative, so the order of the map does not matter. *)
Definition Clock_Sum (c : gmap string Z) (states : list string) : Z :=
  map_fold (λ name v sum,
    if bool_decide (0 < length states)%nat && negb (contains states name) then sum
    else wrap64 (sum + v)) 0 c.

(** ** Lemmas *)

Lemma mark_active_ok t idxs :
  (∀ i, i ∈ idxs → 0 ≤ i < len t) →
  ∃ t', mark_active t idxs = Ok t' ∧ length t' = length t
    ∧ ∀ k, t' !! k = if decide (Z.of_nat k ∈ idxs) then (λ _, 1) <$> t !! k else t !! k.
Proof.
  unfold mark_active, len. revert t. induction idxs as [|i idxs IH]; intros t Hi; cbn [fold_left].
  { exists t. split; [done|]. split; [done|]. intros k. rewrite decide_False; [done|].
    apply not_elem_of_nil. }
  destruct (Hi i) as [Hlo Hhi]; [left|]. cbn [mbind outcome_bind].
  rewrite slice_set_in by lia.
  destruct (IH (<[Z.to_nat i:=1]> t)) as (t' & Ht' & Hlen & Hlk).
  { intros k Hk. rewrite length_insert. apply Hi. by right. }
  exists t'. split; [done|]. rewrite length_insert in Hlen. split; [done|].
  intros k. rewrite Hlk. destruct (decide (k = Z.to_nat i)) as [->|Hne].
  - rewrite list_lookup_insert_eq by lia. destruct (lookup_lt_is_Some_2 t (Z.to_nat i)) as [v Hv]; [lia|].
    rewrite Hv, (decide_True (P := _ ∈ i :: idxs)) by (rewrite Z2Nat.id by lia; left).
    by destruct (decide _).
  - rewrite list_lookup_insert_ne by done.
    assert (Z.of_nat k ∈ i :: idxs ↔ Z.of_nat k ∈ idxs) as Hk.
    { rewrite elem_of_cons. split; [|tauto]. intros [Hki|]; [|done]. lia. }
    destruct (decide (Z.of_nat k ∈ idxs)); [rewrite decide_True by tauto|rewrite decide_False by tauto];
      done.
Qed.

Lemma wrap64_diff_add a b : is_u64 a → wrap64 (b + wrap64 (a - b)) = a.
Proof.
  intros Ha. rewrite wrap64_add_r. replace (b + (a - b)) with a by lia. by apply wrap64_id.
Qed.

(** ** Properties *)

(** Differences of machine times can be added back, wrap-around included: the
    encoding the network machines use for clock updates. *)
Theorem DiffSince_Add_roundtrip (before after : list Z) :
  length before = length after → Forall is_u64 after →
  Time.Add before (Time.DiffSince after before) = after.
Proof.
  intros Hlen Hu. unfold Time.Add, Time.DiffSince.
  rewrite (bool_decide_eq_true_2 (length after = _)) by done. simpl.
  rewrite length_zip_with, <- Hlen, Nat.min_id.
  rewrite bool_decide_eq_true_2 by done. simpl.
  revert before Hlen. induction Hu as [|a after Ha Hu IH]; intros [|b before] Hlen; try done.
  simpl in *. rewrite wrap64_diff_add by done. f_equal. apply IH. lia.
Qed.

Example DiffSince_Add_roundtrip_witness :
  Time.Add [3; 5] (Time.DiffSince [4; 2] [3; 5]) = [4; 2].
Proof.
  apply (DiffSince_Add_roundtrip [3; 5] [4; 2]); [reflexivity|].
  repeat constructor; by vm_compute.
Defined.

(** [After] and [Before] compare every common tick, not "at least 1 tick". *)
Theorem Time_After_pointwise (t t2 : list Z) (orEqual : bool) :
  Time.After t orEqual t2 = true ↔
  ∀ i a b, t !! i = Some a → t2 !! i = Some b → if orEqual then b ≤ a else b < a.
Proof.
  revert t2. induction t as [|x t IH]; intros [|y t2]; simpl.
  - split; [|done]. intros _ i a b Ha. by rewrite lookup_nil in Ha.
  - split; [|done]. intros _ i a b Ha. by rewrite lookup_nil in Ha.
  - split; [|done]. intros _ i a b _ Hb. by rewrite lookup_nil in Hb.
  - destruct (bool_decide (x < y) || _) eqn:Hc; reflect.
    + split; [done|]. intros Hall. specialize (Hall 0%nat x y eq_refl eq_refl).
      destruct orEqual; simpl in *; destruct Hc as [Hc|[Hc1 Hc2]]; try discriminate; lia.
    + rewrite IH. split.
      * intros Hall [|i] a b Ha Hb; simpl in *; [|by eapply Hall].
        simplify_eq. destruct orEqual; simpl in *; destruct Hc as [Hc1 [Hc2|Hc2]]; try discriminate; lia.
      * intros Hall i a b Ha Hb. by apply (Hall (S i)).
Qed.

(** [Time.Is] on known indexes is "all of them are active" and never panics;
    an empty list gives false, unlike [Machine.Is]. *)
Theorem Time_Is_spec (t idxs : list Z) :
  idxs ≠ [] → (∀ i, i ∈ idxs → -1 ≤ i < len t) →
  ∃ b, Time.Is t idxs = Ok b
    ∧ (b = true ↔ ∀ i, i ∈ idxs → ∃ v, 0 ≤ i ∧ t !! Z.to_nat i = Some v ∧ Z.odd v = true).
Proof.
  intros Hne Hi. unfold Time.Is. rewrite bool_decide_eq_false_2 by done. clear Hne.
  unfold len in Hi. induction idxs as [|i idxs IH]; cbn [Time.is_loop].
  { exists true. split; [done|]. split; [|done]. intros _ i Hn. by apply elem_of_nil in Hn. }
  destruct IH as (b & Hb & IH); [intros; apply Hi; by right|].
  case_bool_decide as Hm.
  { exists false. split; [done|]. split; [done|]. intros Hall.
    destruct (Hall i) as (v & Hv & _); [left|]. lia. }
  destruct (Hi i) as [Hlo Hhi]; [left|].
  destruct (lookup_lt_is_Some_2 t (Z.to_nat i)) as [v Hv]; [lia|].
  assert (slice_get t i = Ok v) as -> by (apply slice_get_ok; split; [lia|done]).
  cbn [mbind outcome_bind]. rewrite IsActiveTick_odd.
  destruct (Z.odd v) eqn:Ho; simpl.
  - exists b. split; [done|]. rewrite IH. split.
    + intros Hall k [->|Hk]%elem_of_cons; [|by apply Hall]. exists v. split; [lia|done].
    + intros Hall k Hk. apply Hall. by right.
  - exists false. split; [done|]. split; [done|]. intros Hall.
    destruct (Hall i) as (v' & _ & Hv' & Ho'); [left|]. congruence.
Qed.

Example Time_Is_spec_witness : ∃ b, Time.Is [1; 2; 3] [0; 2] = Ok b.
Proof.
  destruct (Time_Is_spec [1; 2; 3] [0; 2]) as (b & Hb & _); [done| |by exists b].
  unfold len; simpl. intros i Hi.
  repeat (apply elem_of_cons in Hi as [->|Hi]; [lia|]). by apply elem_of_nil in Hi.
Defined.

(** The index slice of a mutation reads back as exactly the called names, in
    index order. *)
Theorem NewTimeIndex_active (index : list string) (idxs : list Z) :
  (∀ i, i ∈ idxs → 0 ≤ i < Z.of_nat (length index)) →
  ∃ ti, NewTimeIndex index idxs = Ok ti
    ∧ ∀ s, s ∈ TimeIndex.ActiveStates ti None
        ↔ ∃ k : nat, Z.of_nat k ∈ idxs ∧ index !! k = Some s.
Proof.
  intros Hi. unfold NewTimeIndex.
  destruct (mark_active_ok (replicate (length index) 0) idxs) as (t & Ht & Hlen & Hlk).
  { intros i Hin. unfold len. rewrite length_replicate. by apply Hi. }
  exists (mkTimeIndex t index). rewrite Ht. split; [done|]. intros s.
  rewrite length_replicate in Hlen. unfold TimeIndex.ActiveStates. simpl.
  rewrite list_elem_of_omap. split.
  - intros ([k v] & Hin & Hs). apply list_elem_of_lookup_1 in Hin as [i Hin].
    rewrite list_lookup_imap in Hin. destruct (t !! i) as [v'|] eqn:Hv; simplify_eq/=.
    pose proof (lookup_lt_Some _ _ _ Hv). rewrite Hlk, lookup_replicate_2 in Hv by lia.
    exists k. destruct (decide (Z.of_nat k ∈ idxs)) as [Hk|Hk]; simplify_eq/=.
    split; [done|]. destruct (index !! k) eqn:Hidx; simplify_eq/=; [done|].
    apply lookup_ge_None in Hidx. specialize (Hi _ Hk). lia.
  - intros (k & Hk & Hs). exists (k, 1). pose proof (lookup_lt_Some _ _ _ Hs). split.
    + apply (list_elem_of_lookup_2 _ k). rewrite list_lookup_imap, Hlk.
      rewrite decide_True, lookup_replicate_2 by done. done.
    + simpl. by rewrite Hs.
Qed.

Example NewTimeIndex_active_witness :
  ∃ ti, NewTimeIndex ["A"; "B"; "C"] [2; 0] = Ok ti.
Proof.
  destruct (NewTimeIndex_active ["A"; "B"; "C"] [2; 0]) as (ti & H & _); [|by exists ti].
  simpl. intros i Hi.
  repeat (apply elem_of_cons in Hi as [->|Hi]; [lia|]). by apply elem_of_nil in Hi.
Defined.

(** [Time.ActiveStates] ignores its argument: the documented restriction to the
    passed indexes is not applied. *)
Theorem Time_ActiveStates_ignores_idxs (t : list Z) (idxs : option (list Z)) :
  Time.ActiveStates t idxs = Time.ActiveStates t None.
Proof. reflexivity. Qed.

(** Asking a [TimeIndex] for the sum or filter of a name it does not know
    indexes with -1 and panics. *)
Theorem TimeIndex_Sum_unknown_panics (ti : TimeIndex) (s : string) :
  TrimSpace s ∉ ti.(ti_Index) → is_ok (TimeIndex.Sum ti [s]) = false.
Proof.
  intros Hs. unfold TimeIndex.Sum, StatesToIndex. rewrite list_fmap_singleton.
  rewrite index_of_not_in by done. cbn [Time.Sum fold_left mbind outcome_bind]. unfold len.
  rewrite bool_decide_eq_false_2 by lia. done.
Qed.
