(* ===== verification/Mutation.v ===== *)
(** * Mutations and transition steps ([pkg/machine/mutation.go], enums of
    [types.go], argument maps of [schema.go])

    A mutation is a request to add, remove or set states, carried by index
    through the queue.  Steps are the log of relations and handlers of a
    transition. *)

From S2P Require Import Prelude StateList MachTime.

#[local] Open Scope Z_scope.

Inductive MutationType := MutationAdd | MutationRemove | MutationSet | mutationEval.

#[export] Instance MutationType_eq_dec : EqDecision MutationType.
Proof. solve_decision. Defined.

Definition MutationType_String (m : MutationType) : string :=
  match m with
  | MutationAdd => "add"
  | MutationRemove => "remove"
  | MutationSet => "set"
  | mutationEval => "eval"
  end.

Definition MutationType_StringShort (m : MutationType) : string :=
  match m with
  | MutationAdd => " +"
  | MutationRemove => "- "
  | MutationSet => "= "
  | mutationEval => "e "
  end.

Inductive Relation := RelationAfter | RelationAdd | RelationRequire | RelationRemove.

#[export] Instance Relation_eq_dec : EqDecision Relation.
Proof. solve_decision. Defined.

Definition Relation_String (r : Relation) : string :=
  match r with
  | RelationAfter => "after"
  | RelationAdd => "add"
  | RelationRequire => "require"
  | RelationRemove => "remove"
  end.

(** ** Arguments *)

(** Values of an [A] map, as far as [==] tells them apart: numbers, strings,
    the exception record of the package, the [CheckDone] channel of a check,
    and anything else by identity. *)
Inductive Val :=
| VInt (z : Z)
| VStr (s : string)
| VException (err : string)
| VCheck (ch : nat)
| VOther (id : Z).

#[export] Instance Val_eq_dec : EqDecision Val.
Proof. solve_decision. Defined.

(** [args1] has every binding of [args2]. A missing key reads as the [nil]
    interface, which equals no value of the model. *)
Definition compareArgs (args1 args2 : gmap string Val) : bool :=
  forallb (λ p : string * Val, bool_decide (args1 !! p.1 = Some p.2)) (map_to_list args2).

Definition PassMerge (args : list (gmap string Val)) : gmap string Val :=
  fold_left (λ ret set, set ∪ ret) args ∅.

(** [ArgIndex]: where typed arguments live in an [A] map. *)
Definition ArgIndex (ns state : string) : string := ns +:+ "__" +:+ state.
Definition APrefix := "_am".
Definition exceptionKey : string := ArgIndex APrefix StateException.
Definition checkKey : string := ArgIndex APrefix StateAny.

(** [Pass(&AException{Err: err})] *)
Definition passException (err : string) : gmap string Val := {[exceptionKey := VException err]}.

Definition OptArgs (args : list (gmap string Val)) : gmap string Val :=
  match args with a :: _ => a | [] => ∅ end.

(** ** Mutations *)

Record MutSource := mkMutSource { src_MachId : string; src_TxId : string; src_MachTime : Z }.

Record Mutation := mkMutation {
  mut_Type : MutationType;
  mut_Called : list Z;
  mut_Args : gmap string Val;
  mut_IsAuto : bool;
  mut_Source : option MutSource;
  mut_IsCheck : bool;
  mut_QueueTickNow : Z;
  mut_QueueLen : Z;
  mut_QueueTick : Z;
  mut_QueueToken : Z;
  mut_ctx : option nat;
  mut_evalSource : string;
  mut_cacheCalled : option (list string);
}.

(** A mutation literal of the source: the queue fields start at zero. *)
Definition newMutation (ty : MutationType) (called : list Z) (args : gmap string Val)
    (isAuto isCheck : bool) (src : option MutSource) : Mutation :=
  mkMutation ty called args isAuto src isCheck 0 0 0 0 None "" None.

Definition Mutation_IsCalled (m : Mutation) (idx : Z) : bool := contains m.(mut_Called) idx.

Definition Mutation_CalledIndex (m : Mutation) (index : list string) : outcome TimeIndex :=
  NewTimeIndex index m.(mut_Called).

Definition Mutation_StringFromIndex (m : Mutation) (index : list string) : outcome string :=
  called ← NewTimeIndex index m.(mut_Called);
  Ok ("[" +:+ MutationType_String m.(mut_Type) +:+ "] " +:+ j (TimeIndex.ActiveStates called None)).

(** [mapper = None] is a [nil] function. *)
Definition Mutation_MapArgs (m : Mutation)
    (mapper : option (gmap string Val → gmap string string)) : gmap string string :=
  match mapper with None => ∅ | Some f => f m.(mut_Args) end.

(** The names are sorted, so the order of the map does not show. *)
Definition MutationFormatArgs (sort : list string → list string)
    (matched : gmap string string) : string :=
  if bool_decide (matched = ∅) then ""
  else
    let names := sort (map_to_list matched).*1 in
    " (" +:+ str_join " "
      ((λ k, k +:+ "=" +:+ default "" (matched !! k)) <$> names) +:+ ")".

Definition Mutation_LogArgs (sort : list string → list string) (m : Mutation)
    (mapper : option (gmap string Val → gmap string string)) : string :=
  MutationFormatArgs sort (Mutation_MapArgs m mapper).

(** The queue fields are dropped. *)
Definition Mutation_Clone (m : Mutation) : Mutation :=
  mkMutation m.(mut_Type) m.(mut_Called) m.(mut_Args) m.(mut_IsAuto) m.(mut_Source)
    m.(mut_IsCheck) 0 0 0 0 m.(mut_ctx) m.(mut_evalSource) m.(mut_cacheCalled).

(** Fields set by the queue. *)
Definition set_queue (m : Mutation) (tickNow qlen tick token : Z)
    (cache : option (list string)) : Mutation :=
  mkMutation m.(mut_Type) m.(mut_Called) m.(mut_Args) m.(mut_IsAuto) m.(mut_Source)
    m.(mut_IsCheck) tickNow qlen tick token m.(mut_ctx) m.(mut_evalSource) cache.

(** ** Steps *)

Inductive StepType :=
| StepRelation | StepHandler | StepSet | StepRemove | StepRemoveNotActive
| StepRequested | StepCancel.

#[export] Instance StepType_eq_dec : EqDecision StepType.
Proof. solve_decision. Defined.

Definition StepType_String (t : StepType) : string :=
  match t with
  | StepRelation => "rel"
  | StepHandler => "handler"
  | StepSet => "activate"
  | StepRemove => "deactivate"
  | StepRemoveNotActive => "deactivate-passive"
  | StepRequested => "called"
  | StepCancel => "cancel"
  end.

Record Step := mkStep {
  step_Type : StepType;
  step_RelType : Relation;
  step_IsFinal : bool;
  step_IsSelf : bool;
  step_IsEnter : bool;
  step_FromState : string;
  step_FromStateIdx : Z;
  step_ToState : string;
  step_ToStateIdx : Z;
}.

(** A name stored in the step wins over the index. *)
Definition step_state (name : string) (idx : Z) (index : list string) : outcome string :=
  if negb (bool_decide (name = "")) then Ok name
  else if bool_decide (idx = -1) then Ok ""
  else if bool_decide (idx < Z.of_nat (length index)) then slice_get index idx
  else Ok "".

Definition Step_GetFromState (s : Step) (index : list string) : outcome string :=
  step_state s.(step_FromState) s.(step_FromStateIdx) index.

Definition Step_GetToState (s : Step) (index : list string) : outcome string :=
  step_state s.(step_ToState) s.(step_ToStateIdx) index.

Definition newStep (from to : string) (stepType : StepType) (relType : Relation) : Step :=
  mkStep stepType relType false false false
    from (if bool_decide (from = "") then -1 else 0)
    to (if bool_decide (to = "") then -1 else 0).

Definition newSteps (from : string) (toStates : list string) (stepType : StepType)
    (relType : Relation) : list Step :=
  (λ to, newStep from to stepType relType) <$> toStates.

Definition bold (s : string) : string :=
  if negb (bool_decide (s = "")) then "**" +:+ s +:+ "**" else s.

Definition Step_StringFromIndex (s : Step) (idx : list string) : outcome string :=
  from ← Step_GetFromState s idx;
  to ← Step_GetToState s idx;
  let to := if bool_decide (from = "") && bool_decide (to = "") then StateAny else to in
  let from := bold from in
  let to := bold to in
  let line :=
    if negb (bool_decide (from = "")) && negb (bool_decide (to = ""))
    then from +:+ " " +:+ Relation_String s.(step_RelType) +:+ " " +:+ to
    else from in
  let line := if bool_decide (line = "") then to else line in
  if bool_decide (s.(step_Type) = StepRelation) then Ok line
  else
    let suffix :=
      if bool_decide (s.(step_Type) = StepHandler) then
        if s.(step_IsSelf) then line
        else if s.(step_IsFinal) && s.(step_IsEnter) then SuffixState
        else if s.(step_IsFinal) && negb s.(step_IsEnter) then SuffixEnd
        else if negb s.(step_IsFinal) && s.(step_IsEnter) then SuffixEnter
        else SuffixExit
      else "" in
    Ok (StepType_String s.(step_Type) +:+ " " +:+ line +:+ suffix).

(** ** Lemmas *)

Lemma compareArgs_subseteq args1 args2 : compareArgs args1 args2 = true ↔ args2 ⊆ args1.
Proof.
  unfold compareArgs. rewrite forallb_forall, map_subseteq_spec. split.
  - intros Hall k v Hk. specialize (Hall (k, v)). rewrite bool_decide_eq_true in Hall.
    apply Hall, list_elem_of_In. by apply elem_of_map_to_list.
  - intros Hs [k v] Hin. apply list_elem_of_In, elem_of_map_to_list in Hin.
    rewrite bool_decide_eq_true. by apply Hs.
Qed.

(** ** Properties *)

(** Merging argument maps: the last map that binds a key wins. *)
Theorem PassMerge_last_wins (args : list (gmap string Val)) (a : gmap string Val) k :
  PassMerge (args ++ [a]) !! k
  = match a !! k with Some v => Some v | None => PassMerge args !! k end.
Proof.
  unfold PassMerge. rewrite fold_left_app. simpl. rewrite lookup_union.
  by destruct (a !! k), (fold_left _ args ∅ !! k).
Qed.

(** Cloning a mutation and printing commute, and a clone is not queued. *)
Theorem Mutation_Clone_spec (m : Mutation) index :
  Mutation_StringFromIndex (Mutation_Clone m) index = Mutation_StringFromIndex m index
  ∧ (∀ i, Mutation_IsCalled (Mutation_Clone m) i = Mutation_IsCalled m i)
  ∧ (Mutation_Clone m).(mut_QueueTick) = 0
  ∧ Mutation_Clone (Mutation_Clone m) = Mutation_Clone m.
Proof. done. Qed.
