(* ===== verification/Relations.v ===== *)
(** * Relations between states ([pkg/machine/relations.go])

    The default resolver turns the states a mutation wants to set into the
    target states of its transition, by the [Add], [Remove], [Require] and
    [After] relations, and collects the [Auto] states that may follow.  The
    topology used to order the handlers is a depth-first topological sort of
    the [Require] graph.

    The resolver's fields ([Machine.schema], [Machine.activeStates], the
    transition's mutation, [Index], [topology], [statesBefore]) are the record
    [Resolver]; log messages and the steps of the semantic logger (off by
    default) are left out. *)

From S2P Require Import Prelude StateList GoSort SchemaDef MachTime Mutation.

#[local] Open Scope Z_scope.

Record Resolver := mkResolver {
  rr_schema : gmap string State;
  rr_active : list string;
  rr_disposing : bool;
  rr_type : MutationType;
  rr_called : list Z;
  rr_Index : list string;
  rr_topology : list string;
  rr_statesBefore : list string;
}.

(** ** The Require graph *)

(** [graph.vertices]: outgoing edges of each vertex. *)
Abbreviation graph := (gmap string (list string)).

Definition newGraph : graph := ∅.

Definition nbrs (g : graph) (v : string) : list string := default [] (g !! v).

Definition AddEdge (g : graph) (src dest : string) : graph :=
  <[src := nbrs g src ++ [dest]]> g.

(** The variables captured by [visit]. *)
Record Dfs := mkDfs {
  dfs_visited : gset string;
  dfs_temp : gset string;
  dfs_stack : list string;
}.

(** The [for] over neighbours: stops at the first error. *)
Fixpoint visit_list (visit : string → Dfs → option (string + Dfs)) (l : list string) (st : Dfs)
  : option (string + Dfs) :=
  match l with
  | [] => Some (inr st)
  | v :: l =>
      match visit v st with
      | Some (inr st) => visit_list visit l st
      | r => r
      end
  end.

(** [fuel] bounds the depth of the recursion; [None] when it runs out. *)
Fixpoint visit (fuel : nat) (g : graph) (node : string) (st : Dfs) : option (string + Dfs) :=
  match fuel with
  | O => None
  | S fuel =>
      if bool_decide (node ∈ st.(dfs_temp))
      then Some (inl ("state " +:+ node +:+ " has a Require cycle"))
      else if bool_decide (node ∈ st.(dfs_visited)) then Some (inr st)
      else
        match visit_list (visit fuel g) (nbrs g node)
                (mkDfs st.(dfs_visited) ({[node]} ∪ st.(dfs_temp)) st.(dfs_stack)) with
        | Some (inr st) =>
            Some (inr (mkDfs ({[node]} ∪ st.(dfs_visited)) (st.(dfs_temp) ∖ {[node]})
                         (st.(dfs_stack) ++ [node])))
        | r => r
        end
  end.

(** The outer loop ranges over a map: [order] is the order it comes in. *)
Definition sort_from (fuel : nat) (g : graph) (order : list string) (st : Dfs)
  : option (string + Dfs) :=
  visit_list (λ node st,
    if bool_decide (node ∈ st.(dfs_visited)) then Some (inr st) else visit fuel g node st)
    order st.

Definition graph_nodes (g : graph) : list string :=
  (map_to_list g).*1 ++ mjoin (map_to_list g).*2.

Definition TopologicalSort (order : list string) (g : graph) : option (string + list string) :=
  match sort_from (S (length (graph_nodes g))) g order (mkDfs ∅ ∅ []) with
  | Some (inr st) => Some (inr st.(dfs_stack))
  | Some (inl e) => Some (inl e)
  | None => None
  end.

(** The graph [NewSchema] builds: an edge from each state to each state it
    requires. *)
Definition require_graph (schema : gmap string State) (states : list string) : graph :=
  fold_left (λ g name,
    fold_left (λ g req, AddEdge g name req) (elems (schema_get schema name).(st_Require)) g)
    states newGraph.

(** The topology after [NewSchema]: a cycle keeps the previous one. *)
Definition NewSchema (order : list string) (schema : gmap string State) (states : list string)
    (topology : list string) : list string :=
  match TopologicalSort order (require_graph schema states) with
  | Some (inr sorted) => sorted
  | _ => topology
  end.

(** ** Parsing states *)

(** [Machine.mustParseStates]: unknown names panic. *)
Definition mustParseStates (disposing : bool) (schema : gmap string State) (states : list string)
  : outcome (list string) :=
  if disposing then Ok []
  else if forallb (λ s, bool_decide (is_Some (schema !! s))) states
  then if bool_decide (NoDup states) then Ok states else Ok (slicesUniq states)
  else Panic "state missing".

(** ** Relations *)

(** The [Add] relation of a state without the states called for removal. *)
Definition add_targets (rr : Resolver) (state : State) : list string :=
  slicesFilter (elems state.(st_Add)) (λ add,
    negb (bool_decide (rr.(rr_type) = MutationRemove)
          && contains rr.(rr_called) (index_of rr.(rr_Index) add))).

(** The body of the inner loop of [parseAdd], on [(ret, visited, changed)]. *)
Definition parseAdd_body (rr : Resolver) (acc : list string * list string * bool) (name : string)
  : list string * list string * bool :=
  let '(ret, visited, changed) := acc in
  let state := schema_get rr.(rr_schema) name in
  if contains rr.(rr_statesBefore) name && negb state.(st_Multi) then acc
  else if contains visited name then acc
  else match add_targets rr state with
       | [] => acc
       | addStates => (ret ++ addStates, visited ++ [name], true)
       end.

Fixpoint parseAdd_loop (fuel : nat) (rr : Resolver) (states ret visited : list string)
  : option (list string) :=
  match fuel with
  | O => None
  | S fuel =>
      let '(ret, visited, changed) :=
        fold_left (parseAdd_body rr) states (ret, visited, false) in
      if changed : bool then parseAdd_loop fuel rr states ret visited else Some ret
  end.

(** Two rounds are enough, see [parseAdd_loop_fuel]. *)
Definition parseAdd (rr : Resolver) (states : list string) : list string :=
  default [] (parseAdd_loop 2 rr states states []).

Definition stateBlockedBy (rr : Resolver) (blockingStates : list string) (blocked : string)
  : list string :=
  slicesFilter blockingStates (λ blocking,
    contains (elems (schema_get rr.(rr_schema) blocking).(st_Remove)) blocked).

Definition getMissingRequires (state : State) (targetStates : list string) : list string :=
  slicesFilter (elems state.(st_Require)) (λ req, negb (contains targetStates req)).

Definition require_pass (rr : Resolver) (targetStates : list string) : list string :=
  slicesFilter targetStates (λ name,
    bool_decide (getMissingRequires (schema_get rr.(rr_schema) name) targetStates = [])).

Fixpoint parseRequire_loop (fuel : nat) (rr : Resolver) (lengthBefore : nat)
    (targetStates : list string) : option (list string) :=
  if bool_decide (lengthBefore = length targetStates) then Some targetStates
  else match fuel with
       | O => None
       | S fuel =>
           parseRequire_loop fuel rr (length targetStates) (require_pass rr targetStates)
       end.

Definition parseRequire (rr : Resolver) (targetStates : list string) : list string :=
  default [] (parseRequire_loop (S (length targetStates)) rr 0 targetStates).

(** The filter of [TargetStates] that drops blocked states; [alreadyBlocked]
    is its mutable map. *)
Fixpoint drop_blocked (rr : Resolver) (blocking alreadyBlocked l : list string) : list string :=
  match l with
  | [] => []
  | name :: l =>
      match slicesFilter (stateBlockedBy rr blocking name)
              (λ blockerName, negb (contains alreadyBlocked blockerName)) with
      | [] => name :: drop_blocked rr blocking alreadyBlocked l
      | _ => drop_blocked rr blocking (name :: alreadyBlocked) l
      end
  end.

(** ** Sorting *)

Definition require_less (rr : Resolver) (name1 name2 : string) : bool :=
  bool_decide (index_of rr.(rr_topology) name1 < index_of rr.(rr_topology) name2).

Definition sortRequire (rr : Resolver) (states : list string) : list string :=
  slice_stable (require_less rr) states.

Definition after_less (rr : Resolver) (name1 name2 : string) : bool :=
  let state1 := schema_get rr.(rr_schema) name1 in
  let state2 := schema_get rr.(rr_schema) name2 in
  if contains (elems state1.(st_After)) name2 then false
  else contains (elems state2.(st_After)) name1.

Definition SortStates (rr : Resolver) (states : list string) : list string :=
  slice_stable (after_less rr) (sortRequire rr states).

(** ** Target states *)

(** The states that survive blocking, in reverse order. *)
Definition unblocked (rr : Resolver) (statesToSet : list string) : list string :=
  drop_blocked rr statesToSet [] (slicesReverse statesToSet).

Definition removed_by (rr : Resolver) (resolved : list string) : list string :=
  resolved ≫= λ name, elems (schema_get rr.(rr_schema) name).(st_Remove).

(** What [TargetStates] does after the first round of [Require]. *)
Definition resolve (rr : Resolver) (statesToSet : list string) : list string :=
  let resolvedS := unblocked rr statesToSet in
  let toRemove := removed_by rr resolvedS in
  let resolvedS := slicesFilter (parseAdd rr resolvedS) (λ name, negb (contains toRemove name)) in
  let resolvedS := slicesUniq resolvedS in
  parseRequire rr (slicesReverse resolvedS).

Definition TargetStates (rr : Resolver) (statesToSet : list string) : outcome (list string) :=
  statesToSet ← mustParseStates rr.(rr_disposing) rr.(rr_schema) statesToSet;
  let statesToSet := slicesUniq (parseAdd rr statesToSet) in
  let statesToSet := parseRequire rr statesToSet in
  Ok (SortStates rr (resolve rr statesToSet)).

(** [Machine.is] and [Machine.Has1] on a single state, as the resolver calls
    them. *)
Definition is_active (rr : Resolver) (s : string) : bool :=
  negb rr.(rr_disposing) && contains rr.(rr_Index) s && contains rr.(rr_active) s.
Definition has_state (rr : Resolver) (s : string) : bool :=
  negb rr.(rr_disposing) && contains rr.(rr_Index) s.

(** ** Auto states *)

(** The range over the schema comes in [order]. *)
Definition auto_states (rr : Resolver) (order : list string) : list string :=
  slicesFilter order (λ s,
    (schema_get rr.(rr_schema) s).(st_Auto)
    && negb (is_active rr s)
    && negb (existsb (λ active,
               contains (elems (schema_get rr.(rr_schema) active).(st_Remove)) s)
               rr.(rr_active))).

Definition NewAutoMutation (order : list string) (rr : Resolver)
  : option (Mutation * list string) :=
  match auto_states rr order with
  | [] => None
  | toAdd =>
      let called := if rr.(rr_disposing) then [] else StatesToIndex rr.(rr_Index) toAdd in
      let mut := newMutation MutationAdd called ∅ true false None in
      Some (set_queue mut 0 0 0 0 (Some toAdd), toAdd)
  end.

(** ** Inspection: [None] is the error of an unknown state. *)

Definition RelationsBetween (rr : Resolver) (fromState toState : string)
  : option (list Relation) :=
  if negb (has_state rr fromState) then None
  else if negb (has_state rr toState) then None
  else
    let state := schema_get rr.(rr_schema) fromState in
    let has (r : rel) (k : Relation) := if contains (elems r) toState then [k] else [] in
    Some (has state.(st_Add) RelationAdd ++ has state.(st_Require) RelationRequire
          ++ has state.(st_Remove) RelationRemove ++ has state.(st_After) RelationAfter).

Definition RelationsOf (rr : Resolver) (fromState : string) : option (list Relation) :=
  if negb (has_state rr fromState) then None
  else
    let state := schema_get rr.(rr_schema) fromState in
    let has (r : rel) (k : Relation) := match r with Some _ => [k] | None => [] end in
    Some (has state.(st_Add) RelationAdd ++ has state.(st_Require) RelationRequire
          ++ has state.(st_Remove) RelationRemove ++ has state.(st_After) RelationAfter).

(** A state that points at [toState] by several relations is listed once for
    each. *)
Definition InboundRelationsOf (order : list string) (rr : Resolver) (toState : string)
  : option (list string) :=
  if negb (has_state rr toState) then None
  else Some (order ≫= λ name,
    if bool_decide (name = toState) then []
    else
      let state := schema_get rr.(rr_schema) name in
      let has (r : rel) := if contains (elems r) toState then [name] else [] in
      has state.(st_Add) ++ has state.(st_Require) ++ has state.(st_Remove)
      ++ has state.(st_After)).

(** ** Lemmas: [parseAdd] *)

Section resolver.
Context (rr : Resolver).
Implicit Types (l k states : list string) (x y name : string).

(** What a state brings in: nothing when it was active before, unless it is a
    multi state. *)
Definition add_of name : list string :=
  let state := schema_get rr.(rr_schema) name in
  if contains rr.(rr_statesBefore) name && negb state.(st_Multi) then []
  else add_targets rr state.

Lemma bind_uniq_seen (c : string → list string) s1 s2 l :
  (∀ y, c y ≠ [] → y ∈ s1 ↔ y ∈ s2) → uniq_seen s1 l ≫= c = uniq_seen s2 l ≫= c.
Proof.
  revert s1 s2. induction l as [|x l IH]; intros s1 s2 Hs; [done|]. simpl.
  destruct (decide (c x = [])) as [Hx|Hx].
  - transitivity (uniq_seen s1 l ≫= c); [|transitivity (uniq_seen s2 l ≫= c); [by apply IH|]].
    + case_bool_decide; [done|]. rewrite bind_cons, Hx. apply IH. set_solver.
    + case_bool_decide; [done|]. rewrite bind_cons, Hx. apply IH. set_solver.
  - rewrite (bool_decide_ext (x ∈ s1) (x ∈ s2)) by auto. case_bool_decide; [by apply IH|].
    rewrite !bind_cons. f_equal. apply IH. set_solver.
Qed.

(** One round appends what the states not visited yet bring in. *)
Lemma parseAdd_round states ret visited ch :
  ∃ visited' ch',
    fold_left (parseAdd_body rr) states (ret, visited, ch)
    = (ret ++ (uniq_seen visited states ≫= add_of), visited', ch')
    ∧ (∀ x, x ∈ states → add_of x ≠ [] → x ∈ visited')
    ∧ (∀ x, x ∈ visited → x ∈ visited')
    ∧ (ch' = false ↔ ch = false ∧ ∀ x, x ∈ states → add_of x ≠ [] → x ∈ visited).
Proof.
  revert ret visited ch. induction states as [|x l IH]; intros ret visited ch; cbn [fold_left uniq_seen].
  { exists visited, ch. cbn. rewrite app_nil_r. set_solver. }
  assert (Hskip : add_of x = [] ∨ x ∈ visited →
    parseAdd_body rr (ret, visited, ch) x = (ret, visited, ch)).
  { unfold add_of, parseAdd_body. intros Hx. case_match; [done|]. case_match eqn:Hv; [done|].
    apply contains_false in Hv. destruct Hx as [->|Hx]; done. }
  destruct (decide (add_of x = [] ∨ x ∈ visited)) as [Hx|Hx].
  - rewrite (Hskip Hx). destruct (IH ret visited ch) as (v' & c' & -> & H1 & H2 & H3).
    exists v', c'. split; [|set_solver]. do 3 f_equal.
    case_bool_decide; [done|]. destruct Hx as [Hx|]; [|done]. rewrite bind_cons, Hx.
    apply bind_uniq_seen. set_solver.
  - assert (add_of x ≠ [] ∧ (x ∉ visited)) as [Hx' Hv] by tauto. clear Hx. rename Hx' into Hx.
    assert (parseAdd_body rr (ret, visited, ch) x = (ret ++ add_of x, visited ++ [x], true)) as ->.
    { clear -Hx Hv. unfold add_of, parseAdd_body in *. case_match; [done|].
      rewrite (proj2 (contains_false visited x) Hv). by case_match. }
    destruct (IH (ret ++ add_of x) (visited ++ [x]) true) as (v' & c' & -> & H1 & H2 & H3).
    exists v', c'. rewrite bool_decide_eq_false_2 by done. rewrite bind_cons, <- (assoc_L (++)).
    split; [|split; [set_solver|split; [set_solver|]]].
    + do 4 f_equal. apply bind_uniq_seen. set_solver.
    + split; [naive_solver|]. intros [_ Hall]. destruct Hv. apply Hall; [left|done].
Qed.

(** Two rounds of the loop are enough, and more change nothing. *)
Lemma parseAdd_loop_fuel fuel states :
  (2 <= fuel)%nat →
  parseAdd_loop fuel rr states states [] = Some (states ++ (slicesUniq states ≫= add_of)).
Proof.
  intros Hf. destruct fuel as [|[|fuel]]; [lia..|]. cbn [parseAdd_loop].
  destruct (parseAdd_round states states [] false) as (v & c & -> & Hv & _ & Hc).
  destruct c; [|done]. fold (slicesUniq states).
  destruct (parseAdd_round states (states ++ (slicesUniq states ≫= add_of)) v false)
    as (v2 & c2 & -> & _ & _ & Hc2).
  assert (uniq_seen v states ≫= add_of = []) as ->.
  { apply elem_of_nil_inv. intros y (x & Hy & Hx)%list_elem_of_bind.
    apply elem_of_uniq_seen in Hx as [Hx Hn]. apply Hn, Hv; [done|]. intros He.
    rewrite He in Hy. set_solver. }
  rewrite (proj2 Hc2) by done. by rewrite app_nil_r.
Qed.

Lemma parseAdd_eq states : parseAdd rr states = states ++ (slicesUniq states ≫= add_of).
Proof. unfold parseAdd. by rewrite parseAdd_loop_fuel. Qed.

Lemma elem_of_parseAdd states x :
  x ∈ parseAdd rr states ↔ x ∈ states ∨ ∃ y, y ∈ states ∧ x ∈ add_of y.
Proof.
  rewrite parseAdd_eq, elem_of_app, list_elem_of_bind. setoid_rewrite elem_of_slicesUniq.
  naive_solver.
Qed.

Lemma add_of_subseteq x y : x ∈ add_of y → x ∈ elems (schema_get rr.(rr_schema) y).(st_Add).
Proof.
  unfold add_of, add_targets. case_match; [set_solver|]. by intros [??]%elem_of_slicesFilter.
Qed.

(** ** Lemmas: [parseRequire] *)

Definition requires x : list string := elems (schema_get rr.(rr_schema) x).(st_Require).
Definition removes x : list string := elems (schema_get rr.(rr_schema) x).(st_Remove).

(** Every state of the list has all the states it requires in [k]. *)
Definition require_closed l k : Prop := ∀ x, x ∈ l → ∀ r, r ∈ requires x → r ∈ k.

Lemma getMissingRequires_nil x l :
  getMissingRequires (schema_get rr.(rr_schema) x) l = [] ↔ ∀ r, r ∈ requires x → r ∈ l.
Proof.
  unfold getMissingRequires. split.
  - intros He r Hr. destruct (contains l r) eqn:Hc; [by apply contains_true|].
    exfalso. apply (not_elem_of_nil r). rewrite <- He. apply elem_of_slicesFilter.
    by rewrite Hc.
  - intros Hall. apply slicesFilter_none. intros r Hr.
    apply negb_false_iff, contains_true. by apply Hall.
Qed.

Lemma elem_of_require_pass x l :
  x ∈ require_pass rr l ↔ x ∈ l ∧ ∀ r, r ∈ requires x → r ∈ l.
Proof.
  unfold require_pass. by rewrite elem_of_slicesFilter, bool_decide_eq_true, getMissingRequires_nil.
Qed.

Lemma require_pass_fixpoint l :
  length (require_pass rr l) = length l → require_pass rr l = l.
Proof.
  intros Hl. unfold require_pass, slicesFilter in *. apply filter_eq_self.
  exact (filter_length_eq _ _ Hl).
Qed.

(** The loop stops within its fuel, on the greatest sublist that is closed
    under [Require]. *)
Lemma parseRequire_loop_spec fuel n l :
  n = length l ∧ require_pass rr l = l ∨ (n ≠ length l ∧ length l < fuel)%nat →
  ∃ ret, parseRequire_loop fuel rr n l = Some ret
    ∧ ret `sublist_of` l ∧ require_closed ret ret
    ∧ ∀ k, k ⊆ l → require_closed k k → k ⊆ ret.
Proof.
  revert n l. induction fuel as [|fuel IH]; intros n l H; cbn [parseRequire_loop].
  all: destruct H as [[-> Hfix]|[Hne Hlt]].
  1,3: rewrite bool_decide_eq_true_2 by done; exists l; split_and!; [done|done| |by auto];
       intros x Hx; rewrite <- Hfix in Hx; by apply elem_of_require_pass in Hx as [_ ?].
  - lia.
  - rewrite bool_decide_eq_false_2 by done.
    assert (Hsub : require_pass rr l `sublist_of` l) by apply sublist_filter.
    pose proof (sublist_length _ _ Hsub).
    destruct (IH (length l) (require_pass rr l)) as (ret & Hr & Hs & Hc & Hmax).
    { destruct (decide (length l = length (require_pass rr l))) as [He|He]; [left|right; lia].
      split; [done|]. rewrite (require_pass_fixpoint l) by done. by apply require_pass_fixpoint. }
    exists ret. split_and!; [done|by etrans|done|]. intros k Hk Hkc. apply Hmax; [|done].
    intros x Hx. apply elem_of_require_pass. split; [by apply Hk|]. intros r Hr'.
    apply Hk. by apply (Hkc x).
Qed.

Lemma parseRequire_spec l :
  ∃ ret, parseRequire_loop (S (length l)) rr 0 l = Some ret
    ∧ parseRequire rr l = ret ∧ ret `sublist_of` l ∧ require_closed ret ret
    ∧ ∀ k, k ⊆ l → require_closed k k → k ⊆ ret.
Proof.
  unfold parseRequire. destruct (parseRequire_loop_spec (S (length l)) 0 l) as (ret & Hr & Hs).
  - destruct l as [|x l]; [by left|right; simpl; lia].
  - exists ret. by rewrite Hr.
Qed.

Lemma parseRequire_sublist l : parseRequire rr l `sublist_of` l.
Proof. by destruct (parseRequire_spec l) as (ret & _ & -> & ? & _). Qed.

Lemma parseRequire_subseteq l x : x ∈ parseRequire rr l → x ∈ l.
Proof. intros Hx. by eapply elem_of_sublist, parseRequire_sublist. Qed.

Lemma NoDup_parseRequire l : NoDup l → NoDup (parseRequire rr l).
Proof. intros Hl. eapply sublist_NoDup, parseRequire_sublist; done. Qed.

Lemma parseRequire_closed l : require_closed (parseRequire rr l) (parseRequire rr l).
Proof. by destruct (parseRequire_spec l) as (ret & _ & -> & _ & ? & _). Qed.

Lemma parseRequire_greatest l k : k ⊆ l → require_closed k k → k ⊆ parseRequire rr l.
Proof. destruct (parseRequire_spec l) as (ret & _ & -> & _ & _ & Hm). apply Hm. Qed.

Lemma parseRequire_all l : require_closed l l → parseRequire rr l = l.
Proof.
  intros Hc. unfold parseRequire. destruct l as [|x l]; [done|]. cbn [parseRequire_loop].
  assert (Hp : require_pass rr (x :: l) = x :: l).
  { apply require_pass_fixpoint. f_equal. apply slicesFilter_all. intros y Hy.
    apply bool_decide_eq_true, getMissingRequires_nil. by apply Hc. }
  rewrite bool_decide_eq_false_2 by done. rewrite Hp. cbn [length parseRequire_loop].
  by rewrite bool_decide_eq_true_2.
Qed.

(** ** Lemmas: blocking *)

Lemma elem_of_stateBlockedBy l x y : y ∈ stateBlockedBy rr l x ↔ y ∈ l ∧ x ∈ removes y.
Proof. unfold stateBlockedBy. by rewrite elem_of_slicesFilter, contains_true. Qed.

Lemma drop_blocked_cons blocking ab x l :
  drop_blocked rr blocking ab (x :: l)
  = if decide (Forall (.∈ ab) (stateBlockedBy rr blocking x))
    then x :: drop_blocked rr blocking ab l else drop_blocked rr blocking (x :: ab) l.
Proof.
  cbn [drop_blocked]. destruct (slicesFilter _ _) as [|z k] eqn:He.
  - rewrite decide_True; [done|]. apply Forall_forall. intros y Hy.
    destruct (contains ab y) eqn:Hc; [by apply contains_true|]. exfalso.
    apply (not_elem_of_nil y). rewrite <- He. apply elem_of_slicesFilter. by rewrite Hc.
  - rewrite decide_False; [done|]. intros Hall.
    assert (Hz : z ∈ z :: k) by left. rewrite <- He in Hz.
    apply elem_of_slicesFilter in Hz as [Hz Hn].
    apply negb_true_iff, contains_false in Hn. apply Hn.
    by rewrite Forall_forall in Hall; apply Hall.
Qed.

Lemma drop_blocked_sublist blocking ab l : drop_blocked rr blocking ab l `sublist_of` l.
Proof.
  revert ab. induction l as [|x l IH]; intros ab; [constructor|]. rewrite drop_blocked_cons.
  case_decide; by constructor.
Qed.

Lemma drop_blocked_subseteq blocking ab l x : x ∈ drop_blocked rr blocking ab l → x ∈ l.
Proof. intros Hx. by eapply elem_of_sublist, drop_blocked_sublist. Qed.

(** A state that is neither dropped already nor dropped later blocks what it
    removes. *)
Lemma drop_blocked_by blocking ab l x y :
  y ∉ ab → y ∉ l → y ∈ blocking → x ∈ removes y → x ∉ drop_blocked rr blocking ab l.
Proof.
  revert ab. induction l as [|w l IH]; intros ab Hab Hl Hy Hrem; [cbn; set_solver|].
  apply not_elem_of_cons in Hl as [Hw Hl]. rewrite drop_blocked_cons. case_decide as Hall.
  - apply not_elem_of_cons. split; [|by apply IH]. intros ->. apply Hab.
    rewrite Forall_forall in Hall. apply Hall. by apply elem_of_stateBlockedBy.
  - apply IH; set_solver.
Qed.

(** Whatever blocks a surviving state has itself been dropped. *)
Lemma drop_blocked_blocker blocking ab l x y :
  NoDup l → (∀ z, z ∈ ab → z ∉ l) →
  x ∈ drop_blocked rr blocking ab l → y ∈ blocking → x ∈ removes y →
  y ∉ drop_blocked rr blocking ab l.
Proof.
  intros Hnd. revert ab. induction Hnd as [|z l Hz Hnd IH]; intros ab Hab Hx Hy Hrem;
    [cbn in Hx; set_solver|].
  rewrite drop_blocked_cons in Hx |- *. case_decide as Hall.
  - apply elem_of_cons in Hx as [->|Hx].
    + assert (y ∈ ab).
      { rewrite Forall_forall in Hall. by apply Hall, elem_of_stateBlockedBy. }
      specialize (Hab y ltac:(done)). apply not_elem_of_cons in Hab as [? Hl].
      apply not_elem_of_cons. split; [done|]. by intros ?%drop_blocked_subseteq.
    + apply not_elem_of_cons. split.
      * intros ->. revert Hx. apply (drop_blocked_by _ _ _ _ z); [|done..]. intros Hz'.
        apply (Hab z Hz'). left.
      * apply (IH ab); try done. intros v Hv. specialize (Hab v Hv). set_solver.
  - apply (IH (z :: ab)); try done. intros v [->|Hv]%elem_of_cons; [done|].
    specialize (Hab v Hv). set_solver.
Qed.

(** A state nobody removes survives. *)
Lemma drop_blocked_free blocking ab l :
  (∀ x y, x ∈ l → y ∈ blocking → x ∉ removes y) → drop_blocked rr blocking ab l = l.
Proof.
  revert ab. induction l as [|x l IH]; intros ab Hf; [done|]. rewrite drop_blocked_cons.
  rewrite decide_True.
  - f_equal. apply IH. intros z y Hz. apply Hf. by right.
  - apply Forall_forall. intros y [Hy Hrem]%elem_of_stateBlockedBy. exfalso.
    apply (Hf x y); [left|done|done].
Qed.

(** ** Lemmas: target states *)

Lemma mustParseStates_spec disposing schema l :
  mustParseStates disposing schema l
  = if disposing then Ok []
    else if decide (Forall (λ s, is_Some (schema !! s)) l) then Ok (slicesUniq l)
    else Panic "state missing".
Proof.
  unfold mustParseStates. destruct disposing; [done|].
  destruct (forallb _ l) eqn:Hf.
  - rewrite forallb_forall in Hf. rewrite decide_True.
    + case_bool_decide; [|done]. by rewrite slicesUniq_id.
    + apply Forall_forall. intros s Hs%list_elem_of_In. by apply Hf, bool_decide_eq_true in Hs.
  - rewrite decide_False; [done|]. rewrite Forall_forall. intros Hall.
    apply not_true_iff_false in Hf. apply Hf.
    apply forallb_forall. intros s Hs%list_elem_of_In. by apply bool_decide_eq_true, Hall.
Qed.

(** The states [TargetStates] works with after the first round. *)
Definition parsed l : list string := parseRequire rr (slicesUniq (parseAdd rr (slicesUniq l))).

Lemma TargetStates_eq l :
  TargetStates rr l
  = if rr.(rr_disposing) then Ok (SortStates rr (resolve rr (parsed [])))
    else if decide (Forall (λ s, is_Some (rr.(rr_schema) !! s)) l)
    then Ok (SortStates rr (resolve rr (parsed l))) else Panic "state missing".
Proof.
  unfold TargetStates. rewrite mustParseStates_spec. destruct (rr_disposing rr); [done|].
  by case_decide.
Qed.

Lemma TargetStates_ok l ts :
  TargetStates rr l = Ok ts →
  (rr.(rr_disposing) = true ∧ ts = SortStates rr (resolve rr (parsed [])))
  ∨ Forall (λ s, is_Some (rr.(rr_schema) !! s)) l ∧ ts = SortStates rr (resolve rr (parsed l)).
Proof.
  rewrite TargetStates_eq. generalize (SortStates rr (resolve rr (parsed []))) as t1.
  generalize (SortStates rr (resolve rr (parsed l))) as t2. intros t2 t1 H.
  destruct (rr_disposing rr); [by left; inv_ok|]. right. case_decide; by inv_ok.
Qed.

Lemma SortStates_perm l : SortStates rr l ≡ₚ l.
Proof. unfold SortStates, sortRequire. by rewrite !slice_stable_perm. Qed.

Lemma NoDup_parsed l : NoDup (parsed l).
Proof. apply NoDup_parseRequire, NoDup_uniq_seen. Qed.

Lemma slicesReverse_reverse l : slicesReverse l = reverse l.
Proof. unfold slicesReverse, reverse. apply rev_alt. Qed.

Lemma NoDup_resolve l : NoDup (resolve rr l).
Proof.
  apply NoDup_parseRequire. rewrite slicesReverse_reverse, reverse_Permutation. apply NoDup_uniq_seen.
Qed.

Lemma elem_of_unblocked l x : x ∈ unblocked rr l → x ∈ l.
Proof. intros Hx%drop_blocked_subseteq. by rewrite elem_of_slicesReverse in Hx. Qed.

Lemma elem_of_resolve l x :
  x ∈ resolve rr l →
  (x ∉ removed_by rr (unblocked rr l)) ∧
  (x ∈ unblocked rr l ∨ ∃ y, y ∈ unblocked rr l ∧ x ∈ add_of y).
Proof.
  intros Hx%parseRequire_subseteq.
  rewrite elem_of_slicesReverse, elem_of_slicesUniq, elem_of_slicesFilter, elem_of_parseAdd,
    negb_true_iff, contains_false in Hx. tauto.
Qed.

Lemma elem_of_parsed l x : x ∈ parsed l → x ∈ l ∨ ∃ y, y ∈ l ∧ x ∈ add_of y.
Proof.
  intros Hx%parseRequire_subseteq. rewrite elem_of_slicesUniq, elem_of_parseAdd in Hx.
  by setoid_rewrite elem_of_slicesUniq in Hx.
Qed.

Lemma TargetStates_parsed l ts :
  TargetStates rr l = Ok ts →
  ∃ k, k ⊆ l ∧ Forall (λ s, is_Some (rr.(rr_schema) !! s)) k
    ∧ ts = SortStates rr (resolve rr (parsed k)).
Proof.
  intros [[_ ->]|[Hk ->]]%TargetStates_ok; [exists []|by exists l]. split_and!; [set_solver|by constructor|done].
Qed.

Lemma TargetStates_NoDup l ts : TargetStates rr l = Ok ts → NoDup ts.
Proof.
  intros (k & _ & _ & ->)%TargetStates_parsed. rewrite SortStates_perm. apply NoDup_resolve.
Qed.

Lemma TargetStates_closed l ts : TargetStates rr l = Ok ts → require_closed ts ts.
Proof.
  intros (k & _ & _ & ->)%TargetStates_parsed x Hx r Hr. rewrite SortStates_perm in Hx |- *.
  by apply (parseRequire_closed _ x).
Qed.

Lemma TargetStates_reach l ts x :
  TargetStates rr l = Ok ts → x ∈ ts →
  ∃ y, y ∈ l ∧ is_Some (rr.(rr_schema) !! y) ∧ rtc (λ a b, b ∈ add_of a) y x.
Proof.
  intros (k & Hk & Hknown & ->)%TargetStates_parsed Hx. rewrite SortStates_perm in Hx.
  rewrite Forall_forall in Hknown.
  assert (Hp : ∀ x, x ∈ parsed k → ∃ y, y ∈ k ∧ rtc (λ a b, b ∈ add_of a) y x).
  { intros z [Hz|(y & Hy & Hz)]%elem_of_parsed; [by exists z|exists y].
    split; [done|]. by apply rtc_once. }
  assert (∃ y, y ∈ k ∧ rtc (λ a b, b ∈ add_of a) y x) as (y & Hy & Hr); [|exists y; auto].
  apply elem_of_resolve in Hx as [_ [Hx|(y & Hy & Hx)]].
  - by apply Hp, elem_of_unblocked.
  - destruct (Hp y) as (z & Hz & Hr); [by apply elem_of_unblocked|].
    exists z. split; [done|]. by eapply rtc_r.
Qed.

Lemma TargetStates_kept l :
  rr.(rr_disposing) = false →
  (∀ s, s ∈ l → is_Some (rr.(rr_schema) !! s)) →
  require_closed (parseAdd rr l) (parseAdd rr l) →
  (∀ x y, x ∈ parseAdd rr l → y ∈ parseAdd rr l → x ∉ removes y) →
  ∃ ts, TargetStates rr l = Ok ts ∧ parseAdd rr l ⊆ ts.
Proof.
  intros Hd Hk Hreq Hrem. rewrite TargetStates_eq, Hd, decide_True by (by apply Forall_forall).
  eexists. split; [done|].
  assert (Hin : ∀ x, x ∈ slicesUniq (parseAdd rr (slicesUniq l)) ↔ x ∈ parseAdd rr l).
  { intros x. rewrite elem_of_slicesUniq, !elem_of_parseAdd. by setoid_rewrite elem_of_slicesUniq. }
  unfold parsed. rewrite parseRequire_all; [|intros x Hx r Hr; rewrite Hin in *; by eapply Hreq].
  intros x Hx. rewrite SortStates_perm. unfold resolve, unblocked.
  rewrite drop_blocked_free.
  2:{ intros a b Ha Hb. rewrite elem_of_slicesReverse in Ha. apply Hrem; by apply Hin. }
  apply (parseRequire_greatest _ (parseAdd rr l)); [|done|done].
  intros a Ha. rewrite elem_of_slicesReverse, elem_of_slicesUniq, elem_of_slicesFilter,
    elem_of_parseAdd, elem_of_slicesReverse, Hin, negb_true_iff, contains_false.
  split; [by left|]. unfold removed_by. intros (b & Hb1 & Hb2)%list_elem_of_bind.
  rewrite elem_of_slicesReverse, Hin in Hb2. by apply (Hrem a b).
Qed.

(** *** States that are never set together *)

(** Of two states that remove each other and are removed by nobody else, one
    survives. *)
Lemma drop_blocked_last blocking ab l x y :
  x ∈ ab → y ∈ l → (∀ b, b ∈ blocking → y ∈ removes b → b = x) → y ∈ drop_blocked rr blocking ab l.
Proof.
  revert ab. induction l as [|w l IH]; intros ab Hx Hy Hb; [by apply elem_of_nil in Hy|].
  rewrite drop_blocked_cons. apply elem_of_cons in Hy as [<-|Hy].
  - rewrite decide_True; [left|]. apply Forall_forall.
    intros b [H1 H2]%elem_of_stateBlockedBy. by rewrite (Hb b).
  - case_decide; [right|]; apply IH; try done. by right.
Qed.

Lemma drop_blocked_pair blocking ab l x y :
  x ≠ y → x ∈ l → (y ∈ blocking → y ∈ l) →
  (∀ b, b ∈ blocking → x ∈ removes b → b = y) → (∀ b, b ∈ blocking → y ∈ removes b → b = x) →
  x ∈ drop_blocked rr blocking ab l ∨ y ∈ drop_blocked rr blocking ab l.
Proof.
  intros Hne. revert ab. induction l as [|w l IH]; intros ab Hx Hy Hbx Hby; [by apply elem_of_nil in Hx|].
  rewrite drop_blocked_cons. case_decide as Hall.
  - destruct (decide (w = x)) as [->|Hwx]; [by left; left|].
    destruct (decide (w = y)) as [->|Hwy]; [by right; left|].
    destruct (IH ab) as [?|?]; [set_solver..| |]; [left|right]; by right.
  - destruct (decide (w = x)) as [->|Hwx].
    + right. apply not_Forall_Exists in Hall; [|intros ?; apply _].
      apply Exists_exists in Hall as (b & [H1 H2]%elem_of_stateBlockedBy & _).
      rewrite (Hbx b H1 H2) in H1. apply (drop_blocked_last _ _ _ x); [left|set_solver|done].
    + destruct (decide (w = y)) as [->|Hwy].
      * left. apply (drop_blocked_last _ _ _ y); [left|set_solver|done].
      * apply IH; set_solver.
Qed.

Lemma unblocked_unremoved l z : z ∈ l → (∀ w, z ∉ removes w) → z ∈ unblocked rr l.
Proof.
  intros Hz Hw. unfold unblocked.
  assert (Hz' : z ∈ slicesReverse l) by by rewrite elem_of_slicesReverse.
  revert Hz'. generalize ([] : list string). induction (slicesReverse l) as [|w k IH]; intros ab Hin;
    [by apply elem_of_nil in Hin|]. rewrite drop_blocked_cons. apply elem_of_cons in Hin as [<-|Hin].
  - rewrite decide_True; [left|]. apply Forall_forall. intros b [_ Hb]%elem_of_stateBlockedBy.
    by destruct (Hw b).
  - case_decide; [right|]; by apply IH.
Qed.

(** One of two states removes the other, and so does whatever brings it in. *)
Definition excludes x y : Prop :=
  y ∈ removes x ∧ ∀ z, x ∈ elems (schema_get rr.(rr_schema) z).(st_Add) → y ∈ removes z.

(** Two states that remove each other; nobody else removes them, but for states
    that nobody removes, and nothing that is itself brought in by an [Add]
    relation brings in the first or is required by it. *)
Record contenders x y : Prop := {
  co_mutual : y ∈ removes x ∧ x ∈ removes y ∧ (x ∉ removes x) ∧ (y ∉ removes y);
  co_removed : ∀ z, x ∈ removes z ∨ y ∈ removes z → z = x ∨ z = y ∨ (∀ w, z ∉ removes w);
  co_added : ∀ z, x ∈ elems (schema_get rr.(rr_schema) z).(st_Add) →
    ∀ w, z ∉ elems (schema_get rr.(rr_schema) w).(st_Add);
  co_required : ∀ r, r ∈ requires x → ∀ w, r ∉ elems (schema_get rr.(rr_schema) w).(st_Add);
}.

Lemma TargetStates_excludes l ts x y :
  TargetStates rr l = Ok ts → excludes x y → x ∈ ts → y ∉ ts.
Proof.
  intros (k & _ & _ & ->)%TargetStates_parsed [Hrem Hadd] Hx Hy. rewrite SortStates_perm in Hx, Hy.
  apply elem_of_resolve in Hy as [Hy _]. apply Hy. unfold removed_by. apply list_elem_of_bind.
  apply elem_of_resolve in Hx as [_ [Hx|(z & Hz & Hx)]]; [by exists x|].
  exists z. split; [|done]. apply Hadd. by apply add_of_subseteq in Hx.
Qed.

Lemma TargetStates_contenders l ts x y :
  TargetStates rr l = Ok ts → contenders x y → x ∈ ts → y ∉ ts.
Proof.
  intros Hts [(Hyx & Hxy & Hxx & Hyy) Hrem Hadd Hreq] Hx Hy.
  pose proof (TargetStates_closed l ts Hts) as Hcl.
  apply TargetStates_parsed in Hts as (k & _ & _ & ->). rewrite SortStates_perm in Hx, Hy.
  set (S1 := parsed k) in *. destruct (elem_of_resolve _ _ Hx) as [Hnx HKx].
  destruct (elem_of_resolve _ _ Hy) as [Hny _].
  assert (Hno : ∀ w, w ∈ unblocked rr S1 → (x ∉ removes w) ∧ (y ∉ removes w)).
  { intros w Hw. unfold removed_by in Hnx, Hny. rewrite list_elem_of_bind in Hnx, Hny.
    split; intros ?; [apply Hnx|apply Hny]; by exists w. }
  assert (HS1 : ∀ r, r ∈ resolve rr S1 → (∀ w, r ∉ elems (schema_get rr.(rr_schema) w).(st_Add)) → r ∈ S1).
  { intros r [_ [Hr|(z & _ & Hr)]]%elem_of_resolve Hn; [by apply elem_of_unblocked|].
    by apply add_of_subseteq, Hn in Hr. }
  destruct HKx as [HKx|(z & Hz & Hxz)]; [by destruct (Hno x HKx)|].
  assert (HxS1 : x ∈ S1).
  { assert (Hsub : x :: S1 ⊆ S1); [|apply Hsub; left].
    apply parseRequire_greatest.
    - intros w [->|Hw]%elem_of_cons; [|by apply parseRequire_subseteq].
      rewrite elem_of_slicesUniq, elem_of_parseAdd. right. exists z. split; [|done].
      apply elem_of_unblocked in Hz. rewrite elem_of_slicesUniq.
      apply elem_of_parsed in Hz as [Hz|(v & _ & Hz)]; [done|].
      apply add_of_subseteq in Hz, Hxz. by destruct (Hadd z Hxz v).
    - intros w [->|Hw]%elem_of_cons r Hr; right; [|by apply (parseRequire_closed _ w)].
      apply HS1; [|by apply Hreq]. rewrite <- (SortStates_perm (resolve rr S1)).
      apply (Hcl x); [by rewrite SortStates_perm|done]. }
  assert (Hb : ∀ b, b ∈ S1 → x ∈ removes b ∨ y ∈ removes b → b = x ∨ b = y).
  { intros b HbS1 Hb. destruct (Hrem b Hb) as [?|[?|Hfree]]; [by left|by right|].
    destruct (Hno b) as [H1 H2]; [by apply unblocked_unremoved|]. by destruct Hb. }
  destruct (drop_blocked_pair S1 [] (slicesReverse S1) x y) as [H|H].
  - intros ->. done.
  - by rewrite elem_of_slicesReverse.
  - by rewrite elem_of_slicesReverse.
  - intros b H1 H2. by destruct (Hb b H1 (or_introl H2)) as [ -> | -> ].
  - intros b H1 H2. by destruct (Hb b H1 (or_intror H2)) as [ -> | -> ].
  - by destruct (Hno x H).
  - by destruct (Hno y H).
Qed.

(** Without relations, the target states are the states to set. *)
Lemma TargetStates_plain l :
  rr.(rr_disposing) = false → (∀ s, s ∈ l → is_Some (rr.(rr_schema) !! s)) →
  (∀ s, requires s = [] ∧ removes s = [] ∧ elems (schema_get rr.(rr_schema) s).(st_Add) = []) →
  ∃ ts, TargetStates rr l = Ok ts ∧ ∀ x, x ∈ ts ↔ x ∈ l.
Proof.
  intros Hd Hk Hp.
  assert (Ha : ∀ x y, x ∉ add_of y).
  { intros x y Hx%add_of_subseteq. destruct (Hp y) as (_ & _ & E). rewrite E in Hx.
    by apply not_elem_of_nil in Hx. }
  destruct (TargetStates_kept l) as (ts & Hts & Hin); [done|done|..].
  - intros x _ r Hr. destruct (Hp x) as (E & _). rewrite E in Hr. by apply not_elem_of_nil in Hr.
  - intros x y _ _ Hr. destruct (Hp y) as (_ & E & _). rewrite E in Hr. by apply not_elem_of_nil in Hr.
  - exists ts. split; [done|]. intros x. split.
    + intros Hx. destruct (TargetStates_reach l ts x Hts Hx) as (y & Hy & _ & Hr).
      apply rtc_inv_r in Hr as [->|(z & _ & Hz)]; [done|by apply Ha in Hz].
    + intros Hx. apply Hin, elem_of_parseAdd. by left.
Qed.

(** ** Properties: target states *)

(** The resolver fails only on states the schema does not have. *)
Theorem TargetStates_panics l :
  TargetStates rr l = Panic "state missing"
  ↔ rr.(rr_disposing) = false ∧ ∃ s, s ∈ l ∧ rr.(rr_schema) !! s = None.
Proof.
  rewrite TargetStates_eq. generalize (SortStates rr (resolve rr (parsed []))) as t1.
  generalize (SortStates rr (resolve rr (parsed l))) as t2. intros t2 t1.
  destruct (rr_disposing rr); [naive_solver|].
  case_decide as Hall; rewrite Forall_forall in Hall; (split; [|try done]); try done.
  - intros [_ (s & Hs & Hn)]. destruct (Hall s Hs). congruence.
  - intros _. split; [done|].
    destruct (list_find (λ s, rr.(rr_schema) !! s = None) l) as [[i s]|] eqn:Hf.
    + apply list_find_Some in Hf as (Hi & Hn & _). exists s.
      split; [by eapply list_elem_of_lookup_2|done].
    + destruct Hall. intros s Hs. apply list_find_None in Hf. rewrite Forall_forall in Hf.
      specialize (Hf s Hs). by apply not_eq_None_Some.
Qed.

(** C11: Target states are duplicate-free, closed under [Require], and each of them
    is a known state that was to be set, or implied by one through a chain of
    [Add] relations. *)
Theorem TargetStates_sound l ts :
  TargetStates rr l = Ok ts →
  NoDup ts
  ∧ (∀ x r, x ∈ ts → r ∈ requires x → r ∈ ts)
  ∧ (∀ x, x ∈ ts → ∃ y, y ∈ l ∧ is_Some (rr.(rr_schema) !! y) ∧ rtc (λ a b, b ∈ add_of a) y x).
Proof.
  intros Hts. split_and!; [by eapply TargetStates_NoDup| |intros x; by apply TargetStates_reach].
  intros x r Hx. by apply (TargetStates_closed _ _ Hts x).
Qed.

(** States without conflicts and with their requirements among them are all
    set, together with what they imply. *)
Theorem TargetStates_keeps l :
  rr.(rr_disposing) = false →
  (∀ s, s ∈ l → is_Some (rr.(rr_schema) !! s)) →
  require_closed (parseAdd rr l) (parseAdd rr l) →
  (∀ x y, x ∈ parseAdd rr l → y ∈ parseAdd rr l → x ∉ removes y) →
  ∃ ts, TargetStates rr l = Ok ts ∧ parseAdd rr l ⊆ ts.
Proof. apply TargetStates_kept. Qed.
End resolver.

(** ** Lemmas: the topological sort *)

Section topology.
Context (g : graph).
Implicit Types (v w c : string) (st : Dfs).

Definition edge v w : Prop := w ∈ nbrs g v.

(** Every neighbour of a finished vertex is finished, and earlier. *)
Definition topo_sorted (l : list string) : Prop :=
  ∀ i v w, l !! i = Some v → edge v w → ∃ k, (k < i)%nat ∧ l !! k = Some w.

Record dfs_inv st : Prop := {
  inv_nodup : NoDup st.(dfs_stack);
  inv_visited : ∀ v, v ∈ st.(dfs_visited) ↔ v ∈ st.(dfs_stack);
  inv_temp : st.(dfs_temp) ## st.(dfs_visited);
  inv_sorted : topo_sorted st.(dfs_stack);
}.

(** What visiting leaves: the vertex is finished, nothing is forgotten. *)
Record dfs_step st st' : Prop := {
  step_inv : dfs_inv st';
  step_temp : st'.(dfs_temp) = st.(dfs_temp);
  step_visited : st.(dfs_visited) ⊆ st'.(dfs_visited);
}.

Definition dfs_result (post : Dfs → Prop) (r : option (string + Dfs)) : Prop :=
  match r with
  | None => False
  | Some (inl _) => ∃ c, tc edge c c
  | Some (inr st') => post st'
  end.

Lemma dfs_step_trans st1 st2 st3 : dfs_step st1 st2 → dfs_step st2 st3 → dfs_step st1 st3.
Proof. intros [] []. split; [done|congruence|set_solver]. Qed.

Lemma visit_list_spec f l st :
  dfs_inv st →
  (∀ v st0, v ∈ l → dfs_step st st0 →
     dfs_result (λ st', dfs_step st0 st' ∧ v ∈ st'.(dfs_visited)) (f v st0)) →
  dfs_result (λ st', dfs_step st st' ∧ ∀ v, v ∈ l → v ∈ st'.(dfs_visited)) (visit_list f l st).
Proof.
  revert st. induction l as [|v l IH]; intros st Hi Hf; cbn [visit_list].
  { split; [by split|]. set_solver. }
  pose proof (Hf v st ltac:(left) ltac:(by split)) as Hv.
  destruct (f v st) as [[e|st1]|]; [done| |done]. destruct Hv as [Hst1 Hv].
  specialize (IH st1 (step_inv _ _ Hst1) (λ w st0 Hw H0, Hf w st0 (list_elem_of_further _ _ _ Hw)
    (dfs_step_trans _ _ _ Hst1 H0))).
  destruct (visit_list f l st1) as [[e|st2]|]; [done| |done].
  destruct IH as [Hst2 Hall]. split; [by eapply dfs_step_trans|].
  intros w [->|Hw]%elem_of_cons; [by apply (step_visited _ _ Hst2)|by apply Hall].
Qed.

(** Finishing a vertex whose neighbours are all finished. *)
Lemma dfs_finish st node :
  dfs_inv st → node ∉ st.(dfs_visited) → (∀ w, edge node w → w ∈ st.(dfs_visited)) →
  dfs_inv (mkDfs ({[node]} ∪ st.(dfs_visited)) (st.(dfs_temp) ∖ {[node]})
             (st.(dfs_stack) ++ [node])).
Proof.
  intros [Hnd Hvis Htmp Hs] Hn Hnb. split; cbn.
  - apply NoDup_app. split_and!; [done| |by apply NoDup_singleton].
    intros v Hv ->%list_elem_of_singleton. by apply Hn, Hvis.
  - intros v. rewrite elem_of_union, elem_of_singleton, elem_of_app, list_elem_of_singleton, Hvis.
    tauto.
  - set_solver.
  - intros i v w Hi Hw. apply lookup_app_Some in Hi as [Hi|[Hle Hi]].
    + destruct (Hs i v w Hi Hw) as (k & Hk & Hl). exists k. split; [done|]. by apply lookup_app_l_Some.
    + apply list_lookup_singleton_Some in Hi as [Hi ->].
      specialize (Hnb w Hw). apply Hvis, list_elem_of_lookup in Hnb as [k Hk].
      exists k. pose proof (lookup_lt_Some _ _ _ Hk). split; [lia|]. by apply lookup_app_l_Some.
Qed.

Definition nodes : gset string := list_to_set (graph_nodes g).

Lemma edge_nodes v w : edge v w → v ∈ nodes ∧ w ∈ nodes.
Proof.
  unfold edge, nbrs, nodes, graph_nodes. rewrite !elem_of_list_to_set, !elem_of_app.
  destruct (g !! v) as [l|] eqn:Hg; cbn; [|set_solver]. intros Hw.
  apply elem_of_map_to_list in Hg. split.
  - left. apply list_elem_of_fmap. by exists (v, l).
  - right. apply list_elem_of_join. exists l. split; [done|]. apply list_elem_of_fmap. by exists (v, l).
Qed.

Lemma size_list_to_set_le (l : list string) : (size (list_to_set l : gset string) <= length l)%nat.
Proof.
  induction l as [|x l IH]; cbn; [by rewrite size_empty|]. rewrite size_union_alt, size_singleton.
  assert (size (list_to_set l ∖ {[x]} : gset string) <= size (list_to_set l : gset string))%nat;
    [|lia]. apply subseteq_size. set_solver.
Qed.

Lemma size_difference_add (ns ts : gset string) v :
  v ∈ ns → v ∉ ts → (size (ns ∖ ({[v]} ∪ ts)) < size (ns ∖ ts))%nat.
Proof.
  intros Hv Ht. apply subset_size. split; [set_solver|]. intros Hs.
  assert (Hin : v ∈ ns ∖ ({[v]} ∪ ts)) by (apply Hs; set_solver). set_solver.
Qed.

(** With fuel for every vertex that is not on the path yet, visiting ends. *)
Lemma visit_spec fuel node st :
  dfs_inv st → (size (nodes ∖ st.(dfs_temp)) < fuel)%nat →
  (node ∈ nodes) →
  (∀ t, t ∈ st.(dfs_temp) → tc edge t node) →
  dfs_result (λ st', dfs_step st st' ∧ node ∈ st'.(dfs_visited)) (visit fuel g node st).
Proof.
  revert node st. induction fuel as [|fuel IH]; intros node st Hi Hf Hn Ht; [lia|].
  cbn [visit]. case_bool_decide as Htmp; [exists node; by apply Ht|].
  case_bool_decide as Hvis; [by split; [split|]|].
  set (st1 := mkDfs _ _ _).
  assert (Hi1 : dfs_inv st1).
  { destruct Hi. split; cbn; [done|done|set_solver|done]. }
  opose proof* (visit_list_spec (visit fuel g) (nbrs g node) st1 Hi1) as Hl.
  { intros v st0 Hv [Hi0 Htmp0 _]. destruct (edge_nodes node v Hv) as [_ Hvn].
    apply IH; [done| |done|]; rewrite Htmp0; cbn.
    - eapply Nat.lt_le_trans; [by apply size_difference_add|by apply Nat.lt_succ_r].
    - intros t [->%elem_of_singleton|Htt]%elem_of_union; [by apply tc_once|].
      by eapply tc_r; [apply Ht|]. }
  destruct (visit_list (visit fuel g) (nbrs g node) st1) as [[e|st2]|]; [done| |done].
  destruct Hl as [[Hi2 Htmp2 Hvis2] Hall].
  assert (Hnv : node ∉ dfs_visited st2).
  { pose proof (inv_temp _ Hi2) as Hdisj. rewrite Htmp2 in Hdisj. cbn in Hdisj. set_solver. }
  split; [split; cbn|cbn; set_solver].
  - by apply dfs_finish.
  - rewrite Htmp2. cbn. set_solver.
  - cbn in Hvis2. set_solver.
Qed.

Lemma topo_sorted_path l v w i :
  topo_sorted l → tc edge v w → l !! i = Some v → ∃ k, (k < i)%nat ∧ l !! k = Some w.
Proof.
  intros Hs Hp. revert i. induction Hp as [v w He|v u w He Hp IH]; intros i Hi; [by eapply Hs|].
  destruct (Hs i v u Hi He) as (k & Hk & Hl). destruct (IH k Hl) as (k' & Hk' & Hl').
  exists k'. split; [lia|done].
Qed.

(** ** Properties: the topological sort *)

Lemma TopologicalSort_correct (order : list string) :
  (∀ v, v ∈ order ↔ is_Some (g !! v)) →
  ∃ r, TopologicalSort order g = Some r ∧
    match r with
    | inl _ => ∃ c, tc edge c c
    | inr l => NoDup l ∧ topo_sorted l ∧ (∀ v w, edge v w → v ∈ l) ∧ ∀ c, ¬ tc edge c c
    end.
Proof.
  intros Ho. unfold TopologicalSort, sort_from.
  set (f := λ node st, if bool_decide _ then _ else _).
  opose proof* (visit_list_spec f order (mkDfs ∅ ∅ [])) as Hl.
  { split; cbn; [constructor|set_solver|set_solver|intros ? ? ?; by rewrite lookup_nil]. }
  { intros v st0 Hv [Hi0 Htmp0 _]. unfold f. case_bool_decide; [by split; [split|]|].
    cbn in Htmp0. apply visit_spec; [done| | |rewrite Htmp0; set_solver].
    - rewrite Htmp0, difference_empty_L. unfold nodes.
      pose proof (size_list_to_set_le (graph_nodes g)). lia.
    - apply Ho in Hv as [l Hv]. unfold nodes, graph_nodes. apply elem_of_list_to_set, elem_of_app.
      left. apply list_elem_of_fmap. exists (v, l). split; [done|]. by apply elem_of_map_to_list. }
  destruct (visit_list f order _) as [[e|st]|]; [by exists (inl e)| |done].
  destruct Hl as [[[Hnd Hvis _ Hs] _ _] Hall]. exists (inr (dfs_stack st)). split; [done|].
  assert (Hin : ∀ v w, edge v w → v ∈ dfs_stack st).
  { intros v w Hw. apply Hvis, Hall, Ho. unfold edge, nbrs in Hw.
    destruct (g !! v); [done|]. cbn in Hw. set_solver. }
  split_and!; [done..|]. intros c Hc.
  assert (Hcs : c ∈ dfs_stack st) by (inversion Hc; subst; eauto).
  apply list_elem_of_lookup in Hcs as [i Hi].
  destruct (topo_sorted_path _ _ _ _ Hs Hc Hi) as (k & Hk & Hl).
  pose proof (NoDup_lookup _ _ _ _ Hnd Hi Hl). lia.
Qed.

(** C39: The sort always ends, whatever order the map is ranged over. It fails
    exactly on cyclic graphs; otherwise each vertex with edges is listed once,
    after everything it points at. *)
Theorem TopologicalSort_spec (order : list string) :
  (∀ v, v ∈ order ↔ is_Some (g !! v)) →
  ∃ r, TopologicalSort order g = Some r ∧
    match r with
    | inl _ => ∃ c, tc edge c c
    | inr l => NoDup l ∧ topo_sorted l ∧ (∀ v w, edge v w → v ∈ l) ∧ ∀ c, ¬ tc edge c c
    end.
Proof. apply TopologicalSort_correct. Qed.
End topology.

(** ** The Require graph of a schema *)

Lemma nbrs_AddEdge g src dest v :
  nbrs (AddEdge g src dest) v = if decide (v = src) then nbrs g src ++ [dest] else nbrs g v.
Proof.
  unfold AddEdge, nbrs. case_decide as Hv; [subst; by rewrite lookup_insert_eq|].
  by rewrite lookup_insert_ne.
Qed.

Lemma nbrs_fold_AddEdge g src l v :
  nbrs (fold_left (λ g req, AddEdge g src req) l g) v
  = if decide (v = src) then nbrs g src ++ l else nbrs g v.
Proof.
  revert g. induction l as [|x l IH]; intros g; cbn [fold_left].
  { case_decide; subst; by rewrite ?app_nil_r. }
  rewrite IH, !nbrs_AddEdge. rewrite (decide_True (P := src = src)) by done.
  case_decide; [by rewrite <- (assoc_L (++))|done].
Qed.

(** [NewSchema] draws the edges of the [Require] relation, and nothing else. *)
Lemma edge_require_graph schema states v w :
  edge (require_graph schema states) v w
  ↔ v ∈ states ∧ w ∈ elems (schema_get schema v).(st_Require).
Proof.
  unfold edge, require_graph. set (f := λ g name, _).
  assert (Hg : ∀ g, w ∈ nbrs (fold_left f states g) v
    ↔ w ∈ nbrs g v ∨ (v ∈ states ∧ w ∈ elems (st_Require (schema_get schema v)))).
  { induction states as [|x l IH]; intros g; cbn [fold_left]; [set_solver|].
    rewrite IH. unfold f at 1. rewrite nbrs_fold_AddEdge, elem_of_cons.
    case_decide; subst; rewrite ?elem_of_app; naive_solver. }
  rewrite Hg. unfold newGraph, nbrs at 1. rewrite lookup_empty. set_solver.
Qed.

(** In a schema without [Require] cycles, [sortRequire] puts every state after
    the states it requires, so their handlers run first. (Up to 19 states, the
    range in which the library sorts by plain insertion.) *)
Theorem sortRequire_order (rr : Resolver) order topology l i k x y :
  (∀ v, v ∈ order ↔ is_Some (require_graph rr.(rr_schema) rr.(rr_Index) !! v)) →
  (∀ c, ¬ tc (edge (require_graph rr.(rr_schema) rr.(rr_Index))) c c) →
  rr.(rr_topology) = NewSchema order rr.(rr_schema) rr.(rr_Index) topology →
  (length l < 20)%nat →
  sortRequire rr l !! i = Some x → sortRequire rr l !! k = Some y →
  x ∈ rr.(rr_Index) → y ∈ requires rr x → (k < i)%nat.
Proof.
  intros Ho Hac Ht Hl Hi Hk Hx Hy. unfold NewSchema in Ht.
  destruct (TopologicalSort_correct _ order Ho) as ([e|t] & Hr & Hspec); rewrite Hr in Ht.
  { destruct Hspec as [c Hc]. by destruct (Hac c). }
  destruct Hspec as (Hnd & Hs & Hin & _).
  assert (He : edge (require_graph rr.(rr_schema) rr.(rr_Index)) x y).
  { by apply edge_require_graph. }
  destruct (proj1 (list_elem_of_lookup _ _) (Hin _ _ He)) as [a Ha].
  destruct (Hs a x y Ha He) as (b & Hab & Hb).
  set (rank := index_of rr.(rr_topology)).
  assert (Hrx : rank x = Z.of_nat a) by (unfold rank; rewrite Ht; by apply index_of_lookup).
  assert (Hry : rank y = Z.of_nat b) by (unfold rank; rewrite Ht; by apply index_of_lookup).
  pose proof (slice_stable_sorted (require_less rr) rank (λ _ _, eq_refl) l Hl) as Hsort.
  destruct (decide (k < i)%nat) as [|Hge]; [done|exfalso].
  assert (Hle : rank x ≤ rank y); [|lia].
  destruct (decide (i = k)) as [->|Hne].
  - assert (x = y) as -> by (unfold sortRequire in *; congruence). lia.
  - apply (StronglySorted_lookup _ _ i k x y Hsort); [lia|done|done].
Qed.

Lemma existsb_removes rr s :
  existsb (λ a, contains (removes rr a) s) rr.(rr_active) = false
  ↔ ∀ a, a ∈ rr.(rr_active) → s ∉ removes rr a.
Proof.
  rewrite <- not_true_iff_false, existsb_exists. setoid_rewrite contains_true.
  setoid_rewrite <- list_elem_of_In. naive_solver.
Qed.

(** The auto mutation adds exactly the [Auto] states that are neither active
    nor removed by an active state. *)
Theorem NewAutoMutation_spec order rr :
  match NewAutoMutation order rr with
  | None => ∀ s, s ∈ order → (schema_get rr.(rr_schema) s).(st_Auto) = true →
      is_active rr s = true ∨ ∃ a, a ∈ rr.(rr_active) ∧ s ∈ removes rr a
  | Some (mut, toAdd) =>
      mut.(mut_Type) = MutationAdd ∧ mut.(mut_IsAuto) = true ∧ mut.(mut_IsCheck) = false
      ∧ toAdd ≠ [] ∧ mut.(mut_cacheCalled) = Some toAdd
      ∧ (rr.(rr_disposing) = false → mut.(mut_Called) = StatesToIndex rr.(rr_Index) toAdd)
      ∧ ∀ s, s ∈ toAdd ↔ s ∈ order ∧ (schema_get rr.(rr_schema) s).(st_Auto) = true
          ∧ is_active rr s = false ∧ ∀ a, a ∈ rr.(rr_active) → s ∉ removes rr a
  end.
Proof.
  assert (Hauto : ∀ s, s ∈ auto_states rr order ↔ s ∈ order
    ∧ (schema_get rr.(rr_schema) s).(st_Auto) = true
    ∧ is_active rr s = false ∧ ∀ a, a ∈ rr.(rr_active) → s ∉ removes rr a).
  { intros s. rewrite <- existsb_removes. unfold auto_states, removes.
    rewrite elem_of_slicesFilter, !andb_true_iff, !negb_true_iff. tauto. }
  unfold NewAutoMutation. destruct (auto_states rr order) as [|a l] eqn:He.
  - intros s Hs Ha. destruct (is_active rr s) eqn:Hact; [by left|right].
    destruct (existsb (λ a, contains (removes rr a) s) rr.(rr_active)) eqn:Hex.
    + apply existsb_exists in Hex as (b & Hb%list_elem_of_In & Hc%contains_true). eauto.
    + destruct (not_elem_of_nil s). apply Hauto. split_and!; try done. by apply existsb_removes.
  - cbn. split_and!; try done. by intros ->.
Qed.

(** ** Witnesses and a finding *)

(** [A] implies [B], which implies [C], which removes the active [D]. *)
Definition chain_schema : gmap string State :=
  {[ "A" := set_Add zeroState (Some ["B"]); "B" := set_Add zeroState (Some ["C"]);
     "C" := set_Remove zeroState (Some ["D"]); "D" := zeroState ]}.

Definition chain_resolver (active : list string) (called : list Z) : Resolver :=
  mkResolver chain_schema active false MutationAdd called ["A"; "B"; "C"; "D"] [] active.

(** A conflict that survives: the second round of [Add] brings [C] in, whose
    [Remove] relation is not applied any more. *)
Example TargetStates_second_level_conflict :
  TargetStates (chain_resolver ["D"] [0]) ["A"; "D"] = Ok ["C"; "A"; "D"; "B"]
  ∧ "D" ∈ removes (chain_resolver ["D"] [0]) "C".
Proof. split; [vm_compute; reflexivity|compute_decide]. Qed.

Example TargetStates_sound_witness :
  ∃ ts, TargetStates (chain_resolver ["D"] [0]) ["A"; "D"] = Ok ts ∧ NoDup ts.
Proof.
  eexists. split; [vm_compute; reflexivity|].
  apply (TargetStates_sound (chain_resolver ["D"] [0]) ["A"; "D"]). vm_compute; reflexivity.
Defined.


Example TargetStates_keeps_witness :
  ∃ ts, TargetStates (chain_resolver ["D"] [1]) ["B"; "A"] = Ok ts
    ∧ parseAdd (chain_resolver ["D"] [1]) ["B"; "A"] ⊆ ts.
Proof.
  apply (TargetStates_keeps (chain_resolver ["D"] [1]) ["B"; "A"]).
  - reflexivity.
  - apply Forall_forall. compute_decide.
  - intros x Hx r Hr. change (parseAdd _ _) with ["B"; "A"; "C"; "B"] in Hx. exfalso.
    repeat (apply elem_of_cons in Hx as [->|Hx]); vm_compute in Hr; set_solver.
  - intros x y Hx Hy Hr. change (parseAdd _ _) with ["B"; "A"; "C"; "B"] in Hx, Hy.
    repeat (apply elem_of_cons in Hy as [->|Hy]); try (vm_compute in Hr; set_solver).
Defined.

Definition req_schema : gmap string State :=
  {[ "A" := set_Require zeroState (Some ["B"]); "B" := zeroState ]}.

Definition req_resolver : Resolver :=
  mkResolver req_schema [] false MutationAdd [0] ["A"; "B"] ["B"; "A"] [].

Lemma req_edge v w : edge (require_graph req_schema ["A"; "B"]) v w → v = "A" ∧ w = "B".
Proof.
  intros [Hv Hw]%edge_require_graph. apply elem_of_cons in Hv as [->|Hv].
  - vm_compute in Hw. set_solver.
  - apply list_elem_of_singleton in Hv as ->. vm_compute in Hw. set_solver.
Qed.

Lemma req_order v : v ∈ ["A"] ↔ is_Some (require_graph req_schema ["A"; "B"] !! v).
Proof.
  change (require_graph req_schema ["A"; "B"]) with ({["A" := ["B"]]} : graph).
  rewrite list_elem_of_singleton, lookup_singleton_is_Some. naive_solver.
Qed.

Example TopologicalSort_spec_witness :
  ∃ r, TopologicalSort ["A"] (require_graph req_schema ["A"; "B"]) = Some r.
Proof.
  destruct (TopologicalSort_spec (require_graph req_schema ["A"; "B"]) ["A"] req_order)
    as (r & Hr & _). by exists r.
Defined.

Example sortRequire_order_witness :
  sortRequire req_resolver ["A"; "B"] = ["B"; "A"] ∧ (0 < 1)%nat.
Proof.
  split; [reflexivity|].
  apply (sortRequire_order req_resolver ["A"] [] ["A"; "B"] 1 0 "A" "B").
  - apply req_order.
  - intros c Hc. inversion Hc as [? ? H1|? y ? H1 H2]; subst.
    + apply req_edge in H1 as [? ?]. congruence.
    + apply req_edge in H1 as [-> ->]. inversion H2 as [? ? H3|? ? ? H3 _]; subst;
        apply req_edge in H3 as [? _]; done.
  - reflexivity.
  - simpl; lia.
  - reflexivity.
  - reflexivity.
  - compute_decide.
  - compute_decide.
Defined.
