(* ===== verification/Subscriptions.v ===== *)
(** * Subscriptions ([pkg/machine/subscriptions.go])

    The [When*] methods register bindings, each with its own channel, and the
    queue closes the channels of the bindings a transition has matched.
    Bindings are shared pointers (a binding of several states is listed under
    each of them and under its context), so they live in a store indexed by
    the identity of their channel, and the index maps hold identities.

    [ctx.Err() != nil] is the argument [done], on context identities.  The
    machine's clock map is shared with the subscriptions until [SetClock]
    replaces it by a copy: [sm_clock] is [None] while it is shared.  The
    order in which Go ranges over a map only shows in the order of the returned
    channels, all of which the caller closes. *)

From S2P Require Import Prelude StateList MachTime Mutation.

#[local] Open Scope Z_scope.

(** A channel, by identity; [None] is [Subscriptions.Closed]. *)
Abbreviation Chan := (option nat).
Abbreviation Ctx := (option nat).

Record WhenBinding := mkWhen {
  wb_Negation : bool;
  wb_States : gmap string bool;
  wb_Matched : Z;
  wb_Total : Z;
  wb_Ctx : Ctx;
}.

Record WhenTimeBinding := mkWhenTime {
  tb_Index : gmap string Z;
  tb_Matched : Z;
  tb_Total : Z;
  tb_Times : list Z;
  tb_Completed : gmap string bool;
  tb_Ctx : Ctx;
}.

Record WhenTimeSumBinding := mkWhenTimeSum {
  sb_Ch : nat;
  sb_MTime : Z;
  sb_Ctx : Ctx;
}.

#[export] Instance WhenTimeSumBinding_eq_dec : EqDecision WhenTimeSumBinding.
Proof. solve_decision. Defined.

Record WhenArgsBinding := mkWhenArgs {
  ab_ch : nat;
  ab_handler : string;
  ab_args : gmap string Val;
  ab_ctx : Ctx;
}.

#[export] Instance WhenArgsBinding_eq_dec : EqDecision WhenArgsBinding.
Proof. solve_decision. Defined.

Record whenQueryBinding := mkWhenQuery {
  qb_ctx : Ctx;
  qb_fn : gmap string Z → bool;
}.

Record whenQueueBinding := mkWhenQueue {
  ub_ch : nat;
  ub_tick : Z;
}.

#[export] Instance whenQueueBinding_eq_dec : EqDecision whenQueueBinding.
Proof. solve_decision. Defined.

(** One index per kind of subscription: a store of the bindings that change,
    the index of the source, and the index by context. *)
Record WhenIndex := mkWhenIndex {
  wi_store : gmap nat WhenBinding;
  wi_when : gmap string (list nat);
  wi_whenCtx : gmap nat (list nat);
}.

Record TimeWaits := mkTimeWaits {
  ti_store : gmap nat WhenTimeBinding;
  ti_whenTime : gmap string (list nat);
  ti_whenTimeCtx : gmap nat (list nat);
}.

Record SumWaits := mkSumWaits {
  si_whenTimeSum : list WhenTimeSumBinding;
  si_whenTimeSumCtx : gmap nat (list WhenTimeSumBinding);
}.

Record ArgsWaits := mkArgsWaits {
  ai_whenArgs : gmap string (list WhenArgsBinding);
  ai_whenArgsCtx : gmap nat (list WhenArgsBinding);
}.

Record QueryWaits := mkQueryWaits {
  qi_store : gmap nat whenQueryBinding;
  qi_whenQuery : list nat;
  qi_whenQueryCtx : gmap nat (list nat);
}.

Record QueueWaits := mkQueueWaits {
  ui_whenQueueEnds : list nat;
  ui_whenQueue : list whenQueueBinding;
}.

Record Subscriptions := mkSubs {
  sm_next : nat;
  sm_clock : option (gmap string Z);
  sm_stateCtx : gmap string nat;
  sm_when : WhenIndex;
  sm_time : TimeWaits;
  sm_sum : SumWaits;
  sm_args : ArgsWaits;
  sm_query : QueryWaits;
  sm_queue : QueueWaits;
}.

Definition NewSubscriptionManager : Subscriptions :=
  mkSubs 0 None ∅ (mkWhenIndex ∅ ∅ ∅) (mkTimeWaits ∅ ∅ ∅) (mkSumWaits [] ∅)
    (mkArgsWaits ∅ ∅) (mkQueryWaits ∅ [] ∅) (mkQueueWaits [] []).

(** ** Index maps: [m[k] = append(m[k], x)], and [slicesWithout] with the
    removal of entries that become empty. *)

Section index.
Context `{Countable K} {A : Type} `{EqDecision A}.
Implicit Types (m : gmap K (list A)) (k : K) (x : A).

Definition entries m k : list A := default [] (m !! k).

Definition idx_add m k x : gmap K (list A) := <[k := entries m k ++ [x]]> m.

(** The context maps drop an entry once it is empty. *)
Definition ctx_del m k x : gmap K (list A) :=
  match slicesWithout (entries m k) x with
  | [] => delete k m
  | l => <[k := l]> m
  end.

(** The state maps drop an entry of length 1 before looking at it. *)
Definition idx_del m k x : gmap K (list A) :=
  if bool_decide (length (entries m k) = 1%nat) then delete k m
  else <[k := slicesWithout (entries m k) x]> m.
End index.

(** [if ctx != nil { m[ctx] = append(m[ctx], x) }] *)
Definition ctx_add {A} (m : gmap nat (list A)) (ctx : Ctx) (x : A) : gmap nat (list A) :=
  match ctx with Some c => <[c := entries m c ++ [x]]> m | None => m end.

(** [if ctx != nil && gcCtx { ... }] *)
Definition ctx_gc {A} `{EqDecision A} (gcCtx : bool) (m : gmap nat (list A)) (ctx : Ctx) (x : A)
  : gmap nat (list A) :=
  match ctx with Some c => if gcCtx then ctx_del m c x else m | None => m end.

(** The entries of expired contexts. *)
Definition expired_entries {A} (done : nat → bool) (m : gmap nat (list A)) : list (nat * list A) :=
  slicesFilter (map_to_list m) (λ p, done p.1).

Definition is_expired (done : nat → bool) (ctx : Ctx) : bool :=
  match ctx with Some c => done c | None => false end.

(** ** State contexts *)

(** The contexts to cancel, and the map without them. *)
Definition ProcessStateCtx (activated deactivated : list string) (sc : gmap string nat)
  : gmap string nat * list nat :=
  fold_left (λ acc s,
    match acc.1 !! s with
    | Some c => (delete s acc.1, acc.2 ++ [c])
    | None => acc
    end) (activated ++ deactivated) (sc, []).

(** ** When and WhenNot *)

Definition gcWhenBinding (ch : nat) (binding : WhenBinding) (gcCtx : bool) (wi : WhenIndex)
  : WhenIndex :=
  fold_left (λ wi state,
    mkWhenIndex wi.(wi_store) (idx_del wi.(wi_when) state ch)
      (ctx_gc gcCtx wi.(wi_whenCtx) binding.(wb_Ctx) ch))
    (map_to_list binding.(wb_States)).*1 wi.

Definition processWhenCtx (done : nat → bool) (wi : WhenIndex) : WhenIndex * list nat :=
  let expired := expired_entries done wi.(wi_whenCtx) in
  let chs := expired ≫= snd in
  let wi := fold_left (λ wi ch,
    match wi.(wi_store) !! ch with
    | Some binding => gcWhenBinding ch binding false wi
    | None => wi
    end) chs wi in
  (mkWhenIndex wi.(wi_store) wi.(wi_when)
     (fold_left (λ m c, delete c m) expired.*1 wi.(wi_whenCtx)), chs).

(** One tick of a binding: the state [s] became active, or inactive. *)
Definition whenStep (s : string) (active : bool) (b : WhenBinding) : WhenBinding :=
  let was := default false (b.(wb_States) !! s) in
  let matched :=
    if active then
      if was then b.(wb_Matched)
      else if b.(wb_Negation) then b.(wb_Matched) - 1 else b.(wb_Matched) + 1
    else
      if was then if b.(wb_Negation) then b.(wb_Matched) + 1 else b.(wb_Matched) - 1
      else b.(wb_Matched) in
  mkWhen b.(wb_Negation) (<[s := active]> b.(wb_States)) matched b.(wb_Total) b.(wb_Ctx).

Definition whenVisit (s : string) (active : bool) (acc : WhenIndex * list nat) (ch : nat)
  : WhenIndex * list nat :=
  let wi := acc.1 in
  match wi.(wi_store) !! ch with
  | None => acc
  | Some b =>
      let b := whenStep s active b in
      let wi := mkWhenIndex (<[ch := b]> wi.(wi_store)) wi.(wi_when) wi.(wi_whenCtx) in
      if bool_decide (b.(wb_Matched) < b.(wb_Total)) then (wi, acc.2)
      else (gcWhenBinding ch b true wi, acc.2 ++ [ch])
  end.

Definition ProcessWhen (done : nat → bool) (activated deactivated : list string)
    (wi : WhenIndex) : WhenIndex * list nat :=
  fold_left (λ acc s,
    fold_left (whenVisit s (contains activated s)) (entries acc.1.(wi_when) s) acc)
    (activated ++ deactivated) (processWhenCtx done wi).

(** The channel returned, the index after it, and whether a fresh channel was
    used. *)
Definition register_when (neg : bool) (isf : list string → bool) (states : list string) (ctx : Ctx)
    (next : nat) (wi : WhenIndex) : WhenIndex :=
  let setMap := fold_left (λ m s, <[s := isf [s]]> m) states ∅ in
  let matched := Z.of_nat (length (slicesFilter states (λ s, xorb neg (isf [s])))) in
  let binding := mkWhen neg setMap matched (Z.of_nat (length states)) ctx in
  mkWhenIndex (<[next := binding]> wi.(wi_store))
    (fold_left (λ m s, idx_add m s next) states wi.(wi_when))
    (ctx_add wi.(wi_whenCtx) ctx next).

(** An existing binding for the same states and context is reused. *)
Definition reuse_when (neg : bool) (states : list string) (ctx : Ctx) (wi : WhenIndex) (s0 : string)
  : option nat :=
  find_first (λ ch,
    match wi.(wi_store) !! ch with
    | Some b => Bool.eqb neg b.(wb_Negation)
        && StatesEqual (map_to_list b.(wb_States)).*1 states && bool_decide (b.(wb_Ctx) = ctx)
    | None => false
    end) (entries wi.(wi_when) s0).

Definition When (isf : list string → bool) (done : nat → bool) (states : list string) (ctx : Ctx)
    (next : nat) (wi : WhenIndex) : outcome (WhenIndex * Chan) :=
  if isf states || is_expired done ctx then Ok (wi, None)
  else
    s0 ← slice_get states 0;
    match reuse_when false states ctx wi s0 with
    | Some ch => Ok (wi, Some ch)
    | None => Ok (register_when false isf states ctx next wi, Some next)
    end.

Definition WhenNot (isf : list string → bool) (notf : list string → outcome bool)
    (done : nat → bool) (states : list string) (ctx : Ctx) (next : nat) (wi : WhenIndex)
  : outcome (WhenIndex * Chan) :=
  none ← notf states;
  if (none : bool) || is_expired done ctx then Ok (wi, None)
  else
    s0 ← slice_get states 0;
    match reuse_when true states ctx wi s0 with
    | Some ch => Ok (wi, Some ch)
    | None => Ok (register_when true isf states ctx next wi, Some next)
    end.

(** ** WhenTime *)

Definition gcWhenTimeBinding (ch : nat) (binding : WhenTimeBinding) (gcCtx : bool)
    (ti : TimeWaits) : TimeWaits :=
  fold_left (λ ti state,
    mkTimeWaits ti.(ti_store) (idx_del ti.(ti_whenTime) state ch)
      (ctx_gc gcCtx ti.(ti_whenTimeCtx) binding.(tb_Ctx) ch))
    (map_to_list binding.(tb_Index)).*1 ti.

Definition processWhenTimeCtx (done : nat → bool) (ti : TimeWaits) : TimeWaits * list nat :=
  let expired := expired_entries done ti.(ti_whenTimeCtx) in
  let chs := expired ≫= snd in
  let ti := fold_left (λ ti ch,
    match ti.(ti_store) !! ch with
    | Some binding => gcWhenTimeBinding ch binding false ti
    | None => ti
    end) chs ti in
  (mkTimeWaits ti.(ti_store) ti.(ti_whenTime)
     (fold_left (λ m c, delete c m) expired.*1 ti.(ti_whenTimeCtx)), chs).

(** [binding.Times[binding.Index[s]]] *)
Definition tb_time (b : WhenTimeBinding) (s : string) : Z :=
  default 0 (b.(tb_Times) !! Z.to_nat (default 0 (b.(tb_Index) !! s))).

Definition timeStep (clock : gmap string Z) (s : string) (b : WhenTimeBinding)
  : WhenTimeBinding :=
  if negb (default false (b.(tb_Completed) !! s)) && bool_decide (tb_time b s ≤ tick_of clock s)
  then mkWhenTime b.(tb_Index) (b.(tb_Matched) + 1) b.(tb_Total) b.(tb_Times)
         (<[s := true]> b.(tb_Completed)) b.(tb_Ctx)
  else b.

Definition timeVisit (done : nat → bool) (clock : gmap string Z) (s : string)
    (acc : TimeWaits * list nat) (ch : nat) : TimeWaits * list nat :=
  let ti := acc.1 in
  match ti.(ti_store) !! ch with
  | None => acc
  | Some b =>
      let b := timeStep clock s b in
      let ti := mkTimeWaits (<[ch := b]> ti.(ti_store)) ti.(ti_whenTime) ti.(ti_whenTimeCtx) in
      if bool_decide (b.(tb_Matched) < b.(tb_Total)) && negb (is_expired done b.(tb_Ctx))
      then (ti, acc.2)
      else (gcWhenTimeBinding ch b true ti, acc.2 ++ [ch])
  end.

Definition ProcessWhenTime (done : nat → bool) (clock before : gmap string Z) (ti : TimeWaits)
  : TimeWaits * list nat :=
  let allTicked :=
    (slicesFilter (map_to_list before) (λ p, negb (bool_decide (tick_of clock p.1 = p.2)))).*1 in
  fold_left (λ acc s,
    fold_left (timeVisit done clock s) (entries acc.1.(ti_whenTime) s) acc)
    allTicked (processWhenTimeCtx done ti).

Definition statesToMapIndex (states : list string) : gmap string Z :=
  fold_left (λ m p, <[p.2 := Z.of_nat p.1]> m) (imap pair states) ∅.

(** The callers check that [states] and [times] have the same length. *)
Definition WhenTime (done : nat → bool) (clock : gmap string Z) (states : list string)
    (times : list Z) (ctx : Ctx) (next : nat) (ti : TimeWaits) : outcome (TimeWaits * Chan) :=
  s0 ← slice_get states 0;
  let index := statesToMapIndex states in
  match find_first (λ ch,
    match ti.(ti_store) !! ch with
    | Some b => match Time.Equal b.(tb_Times) true times with Ok e => e | _ => false end
        && bool_decide (index = b.(tb_Index)) && bool_decide (b.(tb_Ctx) = ctx)
    | None => false
    end) (entries ti.(ti_whenTime) s0) with
  | Some ch => Ok (ti, Some ch)
  | None =>
      let reached (p : string * Z) := bool_decide (p.2 ≤ tick_of clock p.1) in
      let pairs := zip states times in
      if forallb reached pairs || is_expired done ctx then Ok (ti, None)
      else
        let completed := fold_left (λ m p, <[p.1 := reached p]> m) pairs ∅ in
        let matched := Z.of_nat (length (slicesFilter pairs reached)) in
        let binding :=
          mkWhenTime index matched (Z.of_nat (length states)) times completed ctx in
        Ok (mkTimeWaits (<[next := binding]> ti.(ti_store))
              (fold_left (λ m s, idx_add m s next) states ti.(ti_whenTime))
              (ctx_add ti.(ti_whenTimeCtx) ctx next), Some next)
  end.

(** ** WhenTimeSum *)

Definition gcWhenTimeSumBinding (binding : WhenTimeSumBinding) (gcCtx : bool) (si : SumWaits)
  : SumWaits :=
  if contains si.(si_whenTimeSum) binding
  then mkSumWaits (slicesWithout si.(si_whenTimeSum) binding)
         (ctx_gc gcCtx si.(si_whenTimeSumCtx) binding.(sb_Ctx) binding)
  else si.

(** Expired bindings are closed, but their context stays in the map: the
    source deletes it from the map of another kind, which is returned as the
    list of contexts to delete there. *)
Definition processWhenTimeSumCtx (done : nat → bool) (si : SumWaits)
  : SumWaits * list nat * list nat :=
  let expired := expired_entries done si.(si_whenTimeSumCtx) in
  let bs := expired ≫= snd in
  (fold_left (λ si b, gcWhenTimeSumBinding b false si) bs si, sb_Ch <$> bs, expired.*1).

(** The loop over a sorted list stops at the first sum not reached. *)
Fixpoint sum_matches (sum : Z) (l : list WhenTimeSumBinding) : list WhenTimeSumBinding :=
  match l with
  | [] => []
  | b :: l => if bool_decide (b.(sb_MTime) > sum) then [] else b :: sum_matches sum l
  end.

Definition ProcessWhenTimeSum (done : nat → bool) (clock : gmap string Z) (si : SumWaits)
  : SumWaits * list nat * list nat :=
  let '(si, ret, wrong) := processWhenTimeSumCtx done si in
  let matched := sum_matches (Clock_Sum clock []) si.(si_whenTimeSum) in
  (fold_left (λ si b, gcWhenTimeSumBinding b true si) matched si,
   ret ++ (sb_Ch <$> matched), wrong).

(** [slices.Insert] at the first position whose sum is not smaller. *)
Fixpoint insert_sum (b : WhenTimeSumBinding) (l : list WhenTimeSumBinding)
  : list WhenTimeSumBinding :=
  match l with
  | [] => [b]
  | c :: l' => if bool_decide (c.(sb_MTime) < b.(sb_MTime)) then c :: insert_sum b l' else b :: l
  end.

Definition WhenTimeSum (clock : gmap string Z) (mtime : Z) (ctx : Ctx) (next : nat)
    (si : SumWaits) : SumWaits * Chan :=
  match find_first (λ b, bool_decide (b.(sb_MTime) = mtime)) si.(si_whenTimeSum) with
  | Some b => (si, Some b.(sb_Ch))
  | None =>
      if bool_decide (mtime ≤ Clock_Sum clock []) then (si, None)
      else
        let binding := mkWhenTimeSum next mtime ctx in
        (mkSumWaits (insert_sum binding si.(si_whenTimeSum))
           (ctx_add si.(si_whenTimeSumCtx) ctx binding), Some next)
  end.

(** ** WhenArgs *)

Definition gcWhenArgsBinding (binding : WhenArgsBinding) (gcCtx : bool) (ai : ArgsWaits)
  : ArgsWaits :=
  mkArgsWaits (idx_del ai.(ai_whenArgs) binding.(ab_handler) binding)
    (ctx_gc gcCtx ai.(ai_whenArgsCtx) binding.(ab_ctx) binding).

Definition processWhenArgsCtx (done : nat → bool) (ai : ArgsWaits) : ArgsWaits * list nat :=
  let expired := expired_entries done ai.(ai_whenArgsCtx) in
  let bs := expired ≫= snd in
  let ai := fold_left (λ ai b, gcWhenArgsBinding b false ai) bs ai in
  (mkArgsWaits ai.(ai_whenArgs)
     (fold_left (λ m c, delete c m) expired.*1 ai.(ai_whenArgsCtx)), ab_ch <$> bs).

(** [name] and [args] are those of the event. *)
Definition ProcessWhenArgs (done : nat → bool) (name : string) (args : gmap string Val)
    (ai : ArgsWaits) : ArgsWaits * list nat :=
  let '(ai, ret) := processWhenArgsCtx done ai in
  let matched := slicesFilter (entries ai.(ai_whenArgs) name)
    (λ b, compareArgs args b.(ab_args) || is_expired done b.(ab_ctx)) in
  (fold_left (λ ai b, gcWhenArgsBinding b true ai) matched ai, ret ++ (ab_ch <$> matched)).

(** A binding is reused when the new arguments are among its own. *)
Definition WhenArgs (done : nat → bool) (state : string) (args : gmap string Val) (ctx : Ctx)
    (next : nat) (ai : ArgsWaits) : ArgsWaits * Chan :=
  if is_expired done ctx then (ai, None)
  else
    let handler := state +:+ SuffixState in
    match find_first (λ b, compareArgs b.(ab_args) args) (entries ai.(ai_whenArgs) handler) with
    | Some b => (ai, Some b.(ab_ch))
    | None =>
        let binding := mkWhenArgs next handler args ctx in
        (mkArgsWaits (idx_add ai.(ai_whenArgs) handler binding)
           (ctx_add ai.(ai_whenArgsCtx) ctx binding), Some next)
    end.

Definition HasWhenArgs (ai : ArgsWaits) : bool := negb (bool_decide (ai.(ai_whenArgs) = ∅)).

(** ** WhenQuery *)

(** A single remaining binding is dropped unseen; otherwise the binding is
    looked up, and [slices.Delete] panics when it is not there. *)
Definition gcWhenQueryBinding (ch : nat) (gcCtx : bool) (qi : QueryWaits) : outcome QueryWaits :=
  let ctx := match qi.(qi_store) !! ch with Some b => b.(qb_ctx) | None => None end in
  let ctxs := ctx_gc gcCtx qi.(qi_whenQueryCtx) ctx ch in
  if bool_decide (length qi.(qi_whenQuery) = 1%nat)
  then Ok (mkQueryWaits qi.(qi_store) [] ctxs)
  else
    let idx := index_of qi.(qi_whenQuery) ch in
    l ← slices_delete qi.(qi_whenQuery) idx (idx + 1);
    Ok (mkQueryWaits qi.(qi_store) l ctxs).

Definition gc_queries (gcCtx : bool) (chs : list nat) (qi : QueryWaits) : outcome QueryWaits :=
  fold_left (λ r ch, r ≫= gcWhenQueryBinding ch gcCtx) chs (Ok qi).

(** Like [processWhenTimeSumCtx], this deletes the expired contexts from
    another map, and returns them. *)
Definition processWhenQueryCtx (done : nat → bool) (qi : QueryWaits)
  : outcome (QueryWaits * list nat * list nat) :=
  let expired := expired_entries done qi.(qi_whenQueryCtx) in
  let chs := expired ≫= snd in
  qi ← gc_queries false chs qi;
  Ok (qi, chs, expired.*1).

Definition ProcessWhenQuery (done : nat → bool) (clock : gmap string Z) (qi : QueryWaits)
  : outcome (QueryWaits * list nat * list nat) :=
  r ← processWhenQueryCtx done qi;
  let '(qi, ret, wrong) := r in
  let matched := slicesFilter qi.(qi_whenQuery) (λ ch,
    match qi.(qi_store) !! ch with
    | Some b => b.(qb_fn) clock || is_expired done b.(qb_ctx)
    | None => false
    end) in
  qi ← gc_queries true matched qi;
  Ok (qi, ret ++ matched, wrong).

Definition WhenQuery (done : nat → bool) (fn : gmap string Z → bool) (ctx : Ctx) (next : nat)
    (qi : QueryWaits) : QueryWaits * Chan :=
  if is_expired done ctx then (qi, None)
  else (mkQueryWaits (<[next := mkWhenQuery ctx fn]> qi.(qi_store))
          (qi.(qi_whenQuery) ++ [next]) (ctx_add qi.(qi_whenQueryCtx) ctx next), Some next).

(** ** Waiting for the queue *)

Definition ProcessWhenQueueEnds (ui : QueueWaits) : QueueWaits * list nat :=
  (mkQueueWaits [] ui.(ui_whenQueue), ui.(ui_whenQueueEnds)).

(** Matched positions are collected in order and deleted from the last. *)
Definition ProcessWhenQueue (queueTick : Z) (ui : QueueWaits) : outcome (QueueWaits * list nat) :=
  let hits := filter (λ p : nat * whenQueueBinding, p.2.(ub_tick) ≤ queueTick)
    (imap pair ui.(ui_whenQueue)) in
  l ← fold_left (λ r idx, r ≫= λ l, slices_delete l (Z.of_nat idx) (Z.of_nat idx + 1))
        (reverse hits.*1) (Ok ui.(ui_whenQueue));
  Ok (mkQueueWaits ui.(ui_whenQueueEnds) l, (λ p, p.2.(ub_ch)) <$> hits).

Definition WhenQueueEnds (next : nat) (ui : QueueWaits) : QueueWaits * Chan :=
  (mkQueueWaits (ui.(ui_whenQueueEnds) ++ [next]) ui.(ui_whenQueue), Some next).

Definition WhenQueue (tick : Z) (next : nat) (ui : QueueWaits) : QueueWaits * Chan :=
  (mkQueueWaits ui.(ui_whenQueueEnds) (ui.(ui_whenQueue) ++ [mkWhenQueue next tick]), Some next).

(** The channels closed by [QueueFlush]; nothing is unregistered. *)
Definition QueueFlush (ui : QueueWaits) : list nat :=
  ui.(ui_whenQueueEnds) ++ (ub_ch <$> ui.(ui_whenQueue)).

(** ** The whole manager *)

Definition SetClock (clock : gmap string Z) (sm : Subscriptions) : Subscriptions :=
  mkSubs sm.(sm_next) (Some clock) sm.(sm_stateCtx) sm.(sm_when) sm.(sm_time) sm.(sm_sum)
    sm.(sm_args) sm.(sm_query) sm.(sm_queue).

(** The clock the subscriptions read; [clock] is the machine's. *)
Definition subs_clock (clock : gmap string Z) (sm : Subscriptions) : gmap string Z :=
  default clock sm.(sm_clock).

Definition NewStateCtx (state : string) (sm : Subscriptions) : Subscriptions * nat :=
  match sm.(sm_stateCtx) !! state with
  | Some c => (sm, c)
  | None =>
      (mkSubs (S sm.(sm_next)) sm.(sm_clock) (<[state := sm.(sm_next)]> sm.(sm_stateCtx))
         sm.(sm_when) sm.(sm_time) sm.(sm_sum) sm.(sm_args) sm.(sm_query) sm.(sm_queue),
       sm.(sm_next))
  end.

(** Channels closed by [dispose]; the bindings of [WhenTimeSum] and
    [WhenQuery] are not among them. *)
Definition dispose (sm : Subscriptions) : list nat :=
  mjoin (map_to_list sm.(sm_when).(wi_when)).*2
  ++ mjoin (map_to_list sm.(sm_time).(ti_whenTime)).*2
  ++ (ab_ch <$> mjoin (map_to_list sm.(sm_args).(ai_whenArgs)).*2)
  ++ QueueFlush sm.(sm_queue).

(** What [Machine.processSubscriptions] runs after an accepted transition, in
    its order: the new manager and the channels to close. *)
Definition process_all (done : nat → bool) (clock before : gmap string Z) (queueTick : Z)
    (activated deactivated : list string) (sm : Subscriptions) : outcome (Subscriptions * list nat) :=
  let clock := subs_clock clock sm in
  let '(wi, r1) := ProcessWhen done activated deactivated sm.(sm_when) in
  let '(ti, r2) := ProcessWhenTime done clock before sm.(sm_time) in
  let '(si, r3, wrong1) := ProcessWhenTimeSum done clock sm.(sm_sum) in
  let ti := mkTimeWaits ti.(ti_store) ti.(ti_whenTime)
    (fold_left (λ m c, delete c m) wrong1 ti.(ti_whenTimeCtx)) in
  u ← ProcessWhenQueue queueTick sm.(sm_queue);
  q ← ProcessWhenQuery done clock sm.(sm_query);
  let '(ui, r4) := u in
  let '(qi, r5, wrong2) := q in
  let ai := mkArgsWaits sm.(sm_args).(ai_whenArgs)
    (fold_left (λ m c, delete c m) wrong2 sm.(sm_args).(ai_whenArgsCtx)) in
  Ok (mkSubs sm.(sm_next) sm.(sm_clock) sm.(sm_stateCtx) wi ti si ai qi ui,
      r1 ++ r2 ++ r3 ++ r4 ++ r5).

(** ** Lemmas: index maps *)

Section index_lemmas.
Context `{Countable K} {A : Type} `{EqDecision A}.
Implicit Types (m : gmap K (list A)) (k : K) (x y : A).

Lemma slicesWithout_elem (l : list A) x y :
  NoDup l → y ∈ slicesWithout l x ↔ y ∈ l ∧ y ≠ x.
Proof.
  intros Hnd. rewrite slicesWithout_nodup by done. rewrite list_elem_of_filter. tauto.
Qed.

Lemma entries_idx_add m k k' x :
  entries (idx_add m k x) k' = if decide (k' = k) then entries m k ++ [x] else entries m k'.
Proof.
  unfold entries, idx_add. case_decide as Hk; [subst; by rewrite lookup_insert_eq|].
  by rewrite lookup_insert_ne.
Qed.

(** Deleting a listed element: the shortcut for single entries is harmless. *)
Lemma entries_idx_del m k k' x :
  x ∈ entries m k →
  entries (idx_del m k x) k' = if decide (k' = k) then slicesWithout (entries m k) x
                               else entries m k'.
Proof.
  intros Hx. unfold idx_del. case_bool_decide as Hl; unfold entries at 1.
  - case_decide as Hk; [subst|by rewrite lookup_delete_ne].
    rewrite lookup_delete_eq. destruct (entries m k) as [|y [|]]; try done.
    apply list_elem_of_singleton in Hx as ->. symmetry. unfold slicesWithout.
    rewrite (index_of_lookup [y] 0 y) by (done || by apply NoDup_singleton). done.
  - case_decide as Hk; [subst; by rewrite lookup_insert_eq|by rewrite lookup_insert_ne].
Qed.
End index_lemmas.

(** ** Lemmas: one binding *)

(** The states a binding waits for. *)
Definition wb_dom (b : WhenBinding) (s : string) : Prop := is_Some (b.(wb_States) !! s).

(** The condition a binding waits for. *)
Definition satisfied (b : WhenBinding) (act : string → bool) : Prop :=
  ∀ s, wb_dom b s → act s = negb b.(wb_Negation).

Definition match_count (neg : bool) (m : gmap string bool) : Z :=
  Z.of_nat (size (filter (λ p : string * bool, p.2 = negb neg) m)).

(** The fields of a binding agree with the active states. *)
Record binding_ok (act : string → bool) (b : WhenBinding) : Prop := {
  bo_states : ∀ s v, b.(wb_States) !! s = Some v → v = act s;
  bo_matched : b.(wb_Matched) = match_count b.(wb_Negation) b.(wb_States);
  bo_total : b.(wb_Total) = Z.of_nat (size b.(wb_States));
}.

Lemma match_count_insert neg m s v v0 :
  m !! s = Some v0 →
  match_count neg (<[s := v]> m)
  = match_count neg m - (if decide (v0 = negb neg) then 1 else 0)
    + (if decide (v = negb neg) then 1 else 0).
Proof.
  intros Hs. unfold match_count.
  assert (Hd : ∀ m : gmap string bool, m !! s = None →
    ∀ w, Z.of_nat (size (filter (λ p : string * bool, p.2 = negb neg) (<[s := w]> m)))
    = Z.of_nat (size (filter (λ p : string * bool, p.2 = negb neg) m))
      + (if decide (w = negb neg) then 1 else 0)).
  { clear. intros m Hs w. case_decide as Hw.
    - rewrite map_filter_insert_True by done. rewrite map_size_insert_None; [lia|].
      apply map_lookup_filter_None. by left.
    - rewrite map_filter_insert_False by done. by rewrite delete_id, Z.add_0_r. }
  rewrite <- (insert_delete_id m s v0 Hs) at 2. rewrite <- insert_delete_eq.
  rewrite !Hd by apply lookup_delete_eq. lia.
Qed.

Lemma whenStep_ok act b s v :
  binding_ok act b → wb_dom b s →
  binding_ok (λ s', if decide (s' = s) then v else act s') (whenStep s v b).
Proof.
  intros [Hst Hm Ht] [v0 Hs]. unfold whenStep. split; cbn [wb_States wb_Matched wb_Total wb_Negation].
  - intros s' w. destruct (decide (s' = s)) as [->|Hne].
    + rewrite lookup_insert_eq. by intros [= ->].
    + rewrite lookup_insert_ne by done. apply Hst.
  - rewrite (match_count_insert _ _ _ _ v0 Hs), <- Hm, Hs. cbn.
    destruct v, v0, (wb_Negation b); repeat case_decide; simplify_eq/=; lia.
  - by rewrite map_size_insert_Some.
Qed.

Lemma whenStep_dom b s v s' : wb_dom b s → wb_dom (whenStep s v b) s' ↔ wb_dom b s'.
Proof.
  intros Hs. unfold wb_dom, whenStep. cbn. destruct (decide (s' = s)) as [->|Hne].
  - rewrite lookup_insert_eq. naive_solver.
  - by rewrite lookup_insert_ne.
Qed.

(** A binding is matched exactly when its condition holds. *)
Lemma binding_ok_satisfied act b :
  binding_ok act b → satisfied b act ↔ b.(wb_Total) ≤ b.(wb_Matched).
Proof.
  intros [Hst Hm Ht]. rewrite Hm, Ht. unfold match_count.
  set (f := filter _ _).
  assert (Hsub : f ⊆ b.(wb_States)) by apply map_filter_subseteq.
  assert (Hsat : satisfied b act ↔ f = b.(wb_States)).
  { unfold satisfied, f. split.
    - intros Hs. apply map_eq. intros s. apply option_eq. intros v.
      rewrite map_lookup_filter_Some. split; [tauto|]. intros Hv. split; [done|]. cbn.
      rewrite (Hst s v Hv). apply Hs. by exists v.
    - intros He s [v Hv]. rewrite <- (Hst s v Hv). rewrite <- He in Hv.
      by apply map_lookup_filter_Some in Hv as [_ ?]. }
  rewrite Hsat. split; [intros ->; lia|]. intros Hle.
  apply map_subseteq_size_eq; [done|lia].
Qed.

(** ** Lemmas: the When index *)

Definition upd (act : string → bool) (s : string) (v : bool) : string → bool :=
  λ s', if decide (s' = s) then v else act s'.

(** What does not change in a binding: its kind and its states. *)
Record wb_same (b b' : WhenBinding) : Prop := {
  ws_neg : b.(wb_Negation) = b'.(wb_Negation);
  ws_dom : ∀ s, wb_dom b s ↔ wb_dom b' s;
}.

#[export] Instance wb_same_equiv : Equivalence wb_same.
Proof.
  split.
  - intros b. by split.
  - intros b b' [H1 H2]. by split.
  - intros a b c [H1 H2] [H3 H4]. split; [congruence|]. intros s. by rewrite H2, H4.
Qed.

#[export] Instance satisfied_proper :
  Proper (wb_same ==> pointwise_relation string eq ==> iff) satisfied.
Proof.
  intros b b' [Hn Hd] f g Hfg. unfold satisfied. setoid_rewrite Hd. rewrite Hn.
  by setoid_rewrite Hfg.
Qed.

Definition store_same (st st' : gmap nat WhenBinding) : Prop :=
  ∀ ch, option_Forall2 wb_same (st !! ch) (st' !! ch).

#[export] Instance store_same_equiv : Equivalence store_same.
Proof. split; [by intros st ch|by intros ? ? H ch|]. intros ? ? ? H1 H2 ch. etrans; [apply H1|apply H2]. Qed.

Lemma store_same_lookup st st' ch b :
  store_same st st' → st !! ch = Some b → ∃ b', st' !! ch = Some b' ∧ wb_same b b'.
Proof. intros Hs Hb. specialize (Hs ch). rewrite Hb in Hs. inversion Hs; eauto. Qed.

Lemma store_same_insert st ch b b' :
  st !! ch = Some b → wb_same b b' → store_same st (<[ch := b']> st).
Proof.
  intros Hb Hs ch'. destruct (decide (ch' = ch)) as [->|Hne].
  - rewrite lookup_insert_eq, Hb. by constructor.
  - by rewrite lookup_insert_ne.
Qed.

Lemma whenStep_same b s v : wb_dom b s → wb_same b (whenStep s v b).
Proof. intros Hs. split; [done|]. intros s'. by rewrite whenStep_dom. Qed.

(** Well-formed: bindings are listed once under each of their states, agree
    with the active states ([f ch] as far as channel [ch] has seen), and wait
    for something that does not hold yet. *)
Record when_wf_at (f : nat → string → bool) (wi : WhenIndex) : Prop := {
  ww_nodup : ∀ s, NoDup (entries wi.(wi_when) s);
  ww_reg : ∀ s ch, ch ∈ entries wi.(wi_when) s →
    ∃ b, wi.(wi_store) !! ch = Some b ∧ ∀ s', wb_dom b s' ↔ ch ∈ entries wi.(wi_when) s';
  ww_ok : ∀ s ch b, ch ∈ entries wi.(wi_when) s → wi.(wi_store) !! ch = Some b →
    binding_ok (f ch) b ∧ ¬ satisfied b (f ch);
}.

Definition when_wf (act : string → bool) (wi : WhenIndex) : Prop := when_wf_at (λ _, act) wi.

Lemma gcWhenBinding_store ch b g wi : (gcWhenBinding ch b g wi).(wi_store) = wi.(wi_store).
Proof.
  unfold gcWhenBinding. revert wi. induction (map_to_list (wb_States b)).*1 as [|k ks IH];
    intros wi; [done|]. cbn [fold_left]. by rewrite IH.
Qed.

Lemma gcWhenBinding_entries ch b g wi s :
  (∀ s, wb_dom b s → ch ∈ entries wi.(wi_when) s) →
  entries (gcWhenBinding ch b g wi).(wi_when) s
  = if decide (wb_dom b s) then slicesWithout (entries wi.(wi_when) s) ch
    else entries wi.(wi_when) s.
Proof.
  intros Hin. unfold gcWhenBinding.
  assert (Hks : ∀ k, k ∈ (map_to_list (wb_States b)).*1 ↔ wb_dom b k).
  { intros k. rewrite list_elem_of_fmap. unfold wb_dom. split.
    - intros ([k' v] & -> & Hv%elem_of_map_to_list). by exists v.
    - intros [v Hv%elem_of_map_to_list]. by exists (k, v). }
  assert (Hnd : NoDup (map_to_list (wb_States b)).*1) by apply NoDup_fst_map_to_list.
  rewrite (decide_ext _ (s ∈ (map_to_list (wb_States b)).*1) _ _ (symmetry (Hks s))).
  assert (Hin' : ∀ k, k ∈ (map_to_list (wb_States b)).*1 → ch ∈ entries wi.(wi_when) k).
  { intros k Hk. by apply Hin, Hks. }
  clear Hin Hks. revert wi Hin'. induction Hnd as [|k ks Hk Hnd IH]; intros wi Hin'.
  { cbn. by rewrite decide_False by set_solver. }
  cbn [fold_left]. rewrite IH; cbn [wi_when].
  - rewrite entries_idx_del by (apply Hin'; left).
    destruct (decide (s = k)) as [->|Hne].
    + by rewrite decide_False, decide_True by (done || left).
    + apply decide_ext. set_solver.
  - intros k' Hk'. rewrite entries_idx_del by (apply Hin'; left).
    rewrite decide_False by (intros ->; done). apply Hin'. by right.
Qed.

(** From [wi] to [wi'], closing the channels [fired] and no others. *)
Record closes (wi wi' : WhenIndex) (fired : list nat) : Prop := {
  cl_same : store_same wi.(wi_store) wi'.(wi_store);
  cl_live : ∀ s ch, ch ∈ entries wi'.(wi_when) s ↔ ch ∈ entries wi.(wi_when) s ∧ ch ∉ fired;
}.

Lemma closes_nil wi : closes wi wi [].
Proof. split; [done|set_solver]. Qed.

Lemma closes_trans wi1 wi2 wi3 l1 l2 :
  closes wi1 wi2 l1 → closes wi2 wi3 l2 → closes wi1 wi3 (l1 ++ l2).
Proof.
  intros [Hs1 Hl1] [Hs2 Hl2]. split; [by etrans|]. intros s ch.
  rewrite Hl2, Hl1, elem_of_app. tauto.
Qed.

Lemma whenVisit_spec f act s v wi ret ch :
  when_wf_at f wi → ch ∈ entries wi.(wi_when) s → f ch = act →
  ∃ wi' fired,
    whenVisit s v (wi, ret) ch = (wi', ret ++ fired)
    ∧ when_wf_at (λ c, if decide (c = ch) then upd act s v else f c) wi'
    ∧ closes wi wi' fired
    ∧ (∀ c, c ∈ fired ↔ c = ch ∧ ∃ b, wi.(wi_store) !! ch = Some b ∧ satisfied b (upd act s v)).
Proof.
  intros [Hnd Hreg Hok] Hin Hf. destruct (Hreg s ch Hin) as (b & Hb & Hdom).
  assert (Hbs : wb_dom b s) by by apply Hdom.
  destruct (Hok s ch b Hin Hb) as [Hbok _]. rewrite Hf in Hbok.
  pose proof (whenStep_same b s v Hbs) as Hsame.
  assert (Hbok' : binding_ok (upd act s v) (whenStep s v b)) by by apply whenStep_ok.
  pose proof (store_same_insert _ ch b _ Hb Hsame) as Hst.
  unfold whenVisit. cbn [fst snd]. rewrite Hb.
  set (wi1 := mkWhenIndex _ _ _).
  assert (Hreg1 : ∀ s' c, c ∈ entries (wi_when wi) s' →
    ∃ b, wi1.(wi_store) !! c = Some b ∧ ∀ s'', wb_dom b s'' ↔ c ∈ entries (wi_when wi) s'').
  { intros s' c Hc. destruct (Hreg s' c Hc) as (bc & Hbc & Hdc). cbn.
    destruct (store_same_lookup _ _ c bc Hst Hbc) as (b' & Hb' & Hs').
    exists b'. split; [done|]. intros s''. by rewrite <- (ws_dom _ _ Hs'). }
  case_bool_decide as Hm.
  - exists wi1, []. rewrite app_nil_r. assert (Hns : ¬ satisfied (whenStep s v b) (upd act s v)).
    { rewrite (binding_ok_satisfied _ _ Hbok'). lia. }
    split_and!; [done| |by split; [|set_solver]|].
    + split; [done|done|]. intros s' c bc Hc Hbc. cbn in Hbc. destruct (decide (c = ch)) as [->|Hne].
      * rewrite lookup_insert_eq in Hbc. by simplify_eq.
      * rewrite lookup_insert_ne in Hbc by done. by apply (Hok s').
    + intros c. split; [set_solver|]. intros (_ & b' & Hb' & Hsat). simplify_eq.
      destruct Hns. by rewrite <- Hsame.
  - assert (Hsat : satisfied (whenStep s v b) (upd act s v)).
    { rewrite (binding_ok_satisfied _ _ Hbok'). lia. }
    exists (gcWhenBinding ch (whenStep s v b) true wi1), [ch].
    assert (Hlive : ∀ s' c, c ∈ entries (gcWhenBinding ch (whenStep s v b) true wi1).(wi_when) s'
      ↔ c ∈ entries wi.(wi_when) s' ∧ c ≠ ch).
    { intros s' c. rewrite gcWhenBinding_entries.
      2:{ intros s''. rewrite whenStep_dom by done. apply Hdom. }
      cbn [wi1 wi_when]. case_decide as Hd; [by apply slicesWithout_elem|].
      rewrite whenStep_dom, Hdom in Hd by done. naive_solver. }
    split_and!; [done| | |].
    + split.
      * intros s'. rewrite gcWhenBinding_entries.
        2:{ intros s''. rewrite whenStep_dom by done. apply Hdom. }
        cbn [wi1 wi_when]. case_decide; [by apply NoDup_slicesWithout|done].
      * intros s' c [Hc Hne]%Hlive. rewrite gcWhenBinding_store.
        destruct (Hreg1 s' c Hc) as (bc & Hbc & Hdc). exists bc. split; [done|]. intros s''.
        rewrite Hdc, Hlive. tauto.
      * intros s' c bc [Hc Hne]%Hlive. rewrite gcWhenBinding_store. cbn. rewrite decide_False by done.
        rewrite lookup_insert_ne by done. by apply (Hok s').
    + split; [by rewrite gcWhenBinding_store|]. intros s' c. rewrite Hlive. set_solver.
    + intros c. rewrite list_elem_of_singleton. split; [|by intros [-> _]]. intros ->. split; [done|].
      exists b. split; [done|]. by rewrite Hsame.
Qed.

(** The bindings of a list [l] of channels of [s] see the change, in turn. *)
Lemma whenVisits_spec act s v l wi ret :
  when_wf_at (λ c, if decide (c ∈ l) then act else upd act s v) wi →
  NoDup l → (∀ ch, ch ∈ l → ch ∈ entries wi.(wi_when) s) →
  ∃ wi' fired,
    fold_left (whenVisit s v) l (wi, ret) = (wi', ret ++ fired)
    ∧ when_wf (upd act s v) wi'
    ∧ closes wi wi' fired
    ∧ (∀ c, c ∈ fired ↔ c ∈ l ∧ ∃ b, wi.(wi_store) !! c = Some b ∧ satisfied b (upd act s v)).
Proof.
  intros Hwf Hnd. revert wi ret Hwf. induction Hnd as [|ch l Hch Hnd IH]; intros wi ret Hwf Hin.
  { exists wi, []. rewrite app_nil_r. split_and!; [done| |apply closes_nil|set_solver].
    destruct Hwf. by split. }
  cbn [fold_left].
  destruct (whenVisit_spec _ act s v wi ret ch Hwf) as (wi1 & l1 & -> & Hwf1 & Hc1 & Hf1).
  { apply Hin. left. }
  { rewrite decide_True by left. done. }
  destruct (IH wi1 (ret ++ l1)) as (wi2 & l2 & -> & Hwf2 & Hc2 & Hf2).
  { destruct Hwf1 as [H1 H2 H3]. split; [done|done|]. intros s' c b Hc Hb.
    specialize (H3 s' c b Hc Hb). cbn in H3.
    destruct (decide (c = ch)) as [->|Hne]; [by rewrite decide_False by done|].
    rewrite (decide_ext _ (c ∈ ch :: l)); [done|]. rewrite elem_of_cons. naive_solver. }
  { intros c Hc. apply (cl_live _ _ _ Hc1). split; [apply Hin; by right|]. intros [-> _]%Hf1. done. }
  exists wi2, (l1 ++ l2). rewrite (assoc_L (++)). split_and!; [done|done|by eapply closes_trans|].
  intros c. rewrite elem_of_app, elem_of_cons, Hf1, Hf2.
  pose proof (cl_same _ _ _ Hc1 c) as Hsame. split.
  - intros [[-> ?]|(? & b & Hb & Hs)]; [naive_solver|]. split; [by right|].
    rewrite Hb in Hsame. inversion Hsame as [b0 ? Hw Hb0|]; subst. exists b0. split; [done|].
    by rewrite Hw.
  - intros [[->|Hl] (b & Hb & Hs)]; [by left; eauto|right]. split; [done|].
    rewrite Hb in Hsame. inversion Hsame as [? b1 Hw Hb1|]; subst. exists b1. split; [done|].
    by rewrite <- Hw.
Qed.

(** The activity after the states of [all] have been processed, in order. *)
Definition acts (activated : list string) (all : list string) (act : string → bool)
  : string → bool :=
  fold_left (λ a s, upd a s (contains activated s)) all act.

(** One state of the transition. *)
Lemma whenState_spec act s v wi ret :
  when_wf act wi →
  ∃ wi' fired,
    fold_left (whenVisit s v) (entries wi.(wi_when) s) (wi, ret) = (wi', ret ++ fired)
    ∧ when_wf (upd act s v) wi' ∧ closes wi wi' fired
    ∧ ∀ c, c ∈ fired → ∃ b, c ∈ entries wi.(wi_when) s ∧ wi.(wi_store) !! c = Some b
        ∧ satisfied b (upd act s v) ∧ wb_dom b s.
Proof.
  intros [Hnd Hreg Hok].
  destruct (whenVisits_spec act s v (entries wi.(wi_when) s) wi ret) as (wi' & l & He & Hwf & Hc & Hf).
  - split; [done|done|]. intros s' c b Hc Hb. destruct (Hok s' c b Hc Hb) as [Hbok Hns].
    case_decide as Hin; [done|].
    assert (Hag : ∀ s'', wb_dom b s'' → upd act s v s'' = act s'').
    { intros s'' Hd. unfold upd. case_decide; [subst|done]. destruct Hin.
      destruct (Hreg s' c Hc) as (b' & Hb' & Hdom). simplify_eq. by apply Hdom. }
    split.
    + destruct Hbok. split; [|done|done]. intros s'' w Hw. rewrite Hag by (by exists w). eauto.
    + intros Hs. apply Hns. intros s'' Hd. rewrite <- Hag by done. by apply Hs.
  - apply Hnd.
  - done.
  - exists wi', l. split_and!; [done|done|done|]. intros c [Hc' (b & Hb & Hs)]%Hf.
    exists b. split_and!; try done. destruct (Hreg s c Hc') as (b' & Hb' & Hdom). simplify_eq.
    by apply Hdom.
Qed.

(** All states of the transition: a closed binding was satisfied right after
    one of its own states was processed. *)
Lemma whenStates_spec activated all act wi ret :
  when_wf act wi →
  ∃ wi' fired,
    fold_left (λ acc s, fold_left (whenVisit s (contains activated s))
      (entries acc.1.(wi_when) s) acc) all (wi, ret) = (wi', ret ++ fired)
    ∧ when_wf (acts activated all act) wi' ∧ closes wi wi' fired
    ∧ ∀ c, c ∈ fired → ∃ s b pre post, all = pre ++ s :: post
        ∧ wi.(wi_store) !! c = Some b ∧ wb_dom b s
        ∧ satisfied b (acts activated (pre ++ [s]) act).
Proof.
  revert act wi ret. induction all as [|s all IH]; intros act wi ret Hwf.
  { exists wi, []. rewrite app_nil_r. split_and!; [done|done|apply closes_nil|set_solver]. }
  cbn [fold_left fst].
  destruct (whenState_spec act s (contains activated s) wi ret Hwf)
    as (wi1 & l1 & -> & Hwf1 & Hc1 & Hf1).
  destruct (IH _ wi1 (ret ++ l1) Hwf1) as (wi2 & l2 & He & Hwf2 & Hc2 & Hf2).
  exists wi2, (l1 ++ l2). rewrite (assoc_L (++)). split_and!; [done|done|by eapply closes_trans|].
  intros c [Hc|Hc]%elem_of_app.
  - destruct (Hf1 c Hc) as (b & Hin & Hb & Hs & Hd).
    by exists s, b, [], all.
  - destruct (Hf2 c Hc) as (s' & b & pre & post & -> & Hb & Hd & Hs).
    pose proof (cl_same _ _ _ Hc1 c) as Hsame. rewrite Hb in Hsame.
    inversion Hsame as [b0 ? Hw Hb0|]; subst.
    exists s', b0, (s :: pre), post. split_and!; [done|done|by apply (ws_dom _ _ Hw)|]. by rewrite Hw.
Qed.

Lemma acts_eq activated all act s :
  acts activated all act s = if decide (s ∈ all) then contains activated s else act s.
Proof.
  unfold acts. revert act. induction all as [|s0 all IH]; intros act; [done|].
  cbn [fold_left]. rewrite IH. unfold upd. destruct (decide (s ∈ all)) as [Hs|Hs].
  - by rewrite decide_True by by right.
  - case_decide as He; [subst; by rewrite decide_True by left|].
    rewrite decide_False; [done|]. set_solver.
Qed.

(** The active states after a transition. *)
Definition act_after (activated deactivated : list string) (act : string → bool) : string → bool :=
  λ s, if contains activated s then true else if contains deactivated s then false else act s.

Lemma acts_after activated deactivated act s :
  acts activated (activated ++ deactivated) act s = act_after activated deactivated act s.
Proof.
  rewrite acts_eq. unfold act_after, contains. repeat case_bool_decide; case_decide; set_solver.
Qed.

Lemma when_wf_ext act act' wi : (∀ s, act s = act' s) → when_wf act wi → when_wf act' wi.
Proof.
  intros He [H1 H2 H3]. split; [done|done|]. intros s ch b Hc Hb.
  destruct (H3 s ch b Hc Hb) as [[Hs Hm Ht] Hns]. split.
  - split; [|done|done]. intros s' v Hv. rewrite <- He. eauto.
  - intros Hsat. apply Hns. intros s' Hd. rewrite He. by apply Hsat.
Qed.

Lemma fired_sound activated deactivated act b s pre post :
  activated ++ deactivated = pre ++ s :: post → wb_dom b s →
  satisfied b (acts activated (pre ++ [s]) act) →
  if b.(wb_Negation) then satisfied b (act_after activated deactivated act)
  else ∀ s', wb_dom b s' → act s' = true ∨ s' ∈ activated.
Proof.
  intros He Hd Hs. unfold satisfied in *. destruct (wb_Negation b).
  - pose proof (Hs s Hd) as Hsn. rewrite acts_eq, decide_True in Hsn by set_solver.
    apply contains_false in Hsn.
    assert (Hpre : ∀ x, x ∈ activated → x ∈ pre).
    { apply app_eq_inv in He as [(k & -> & Hk)|(k & -> & Hk)]; [|set_solver].
      destruct k as [|y k]; [set_solver|]. cbn in Hk. simplify_eq. set_solver. }
    intros s' Hd'. specialize (Hs s' Hd'). rewrite acts_eq in Hs. unfold act_after.
    destruct (contains activated s') eqn:Ha.
    + apply contains_true in Ha. by rewrite decide_True in Hs by set_solver.
    + destruct (contains deactivated s') eqn:Hde; [done|].
      rewrite decide_False in Hs; [done|]. apply contains_false in Ha, Hde.
      assert (s' ∉ activated ++ deactivated) by set_solver. rewrite He in *. set_solver.
  - intros s' Hd'. specialize (Hs s' Hd'). rewrite acts_eq in Hs.
    case_decide; [right; by apply contains_true|by left].
Qed.

(** ** Properties *)

(** C38: Subscriptions to states. After a transition every binding whose condition
    holds is closed. A closed [WhenNot] binding holds; a closed [When] binding
    only had each of its states active before the transition or activated by
    it. The others stay registered, and the index stays well-formed. *)
Theorem ProcessWhen_spec done activated deactivated act wi :
  expired_entries done wi.(wi_whenCtx) = [] →
  when_wf act wi →
  ∃ wi' fired,
    ProcessWhen done activated deactivated wi = (wi', fired)
    ∧ when_wf (act_after activated deactivated act) wi'
    ∧ ∀ s ch b, ch ∈ entries wi.(wi_when) s → wi.(wi_store) !! ch = Some b →
        (satisfied b (act_after activated deactivated act) → ch ∈ fired)
        ∧ (ch ∈ fired →
           if b.(wb_Negation) then satisfied b (act_after activated deactivated act)
           else ∀ s', wb_dom b s' → act s' = true ∨ s' ∈ activated)
        ∧ (ch ∈ entries wi'.(wi_when) s ↔ ch ∉ fired).
Proof.
  intros Hexp Hwf. unfold ProcessWhen, processWhenCtx. rewrite Hexp. cbn [fold_left mbind list_bind fmap list_fmap].
  replace (mkWhenIndex _ _ _) with wi by by destruct wi.
  destruct (whenStates_spec activated (activated ++ deactivated) act wi [] Hwf)
    as (wi' & fired & -> & Hwf' & Hc & Hf).
  apply (when_wf_ext _ _ _ (acts_after activated deactivated act)) in Hwf'.
  exists wi', fired. split_and!; [done|done|]. intros s ch b Hin Hb.
  assert (Hlive : ch ∈ entries (wi_when wi') s ↔ ch ∉ fired).
  { rewrite (cl_live _ _ _ Hc). tauto. }
  split_and!; [| |done].
  - intros Hs. destruct (decide (ch ∈ fired)) as [|Hn]; [done|exfalso].
    destruct (store_same_lookup _ _ ch b (cl_same _ _ _ Hc) Hb) as (b' & Hb' & Hw).
    destruct (ww_ok _ _ Hwf' s ch b' (proj2 Hlive Hn) Hb') as [_ []]. by rewrite <- Hw.
  - intros (s' & b' & pre & post & He & Hb' & Hd & Hs)%Hf. simplify_eq. by eapply fired_sound.
Qed.

Lemma entries_fold_add (l : list string) (m : gmap string (list nat)) ch s :
  NoDup l →
  entries (fold_left (λ m s, idx_add m s ch) l m) s
  = if decide (s ∈ l) then entries m s ++ [ch] else entries m s.
Proof.
  intros Hnd. revert m. induction Hnd as [|s0 l Hs0 Hnd IH]; intros m; [done|].
  cbn [fold_left]. rewrite IH, entries_idx_add.
  destruct (decide (s = s0)) as [->|Hne].
  - by rewrite decide_False, decide_True by (done || left).
  - apply decide_ext. set_solver.
Qed.

Lemma set_map_lookup_gen {A} (f : string → A) l (m : gmap string A) s :
  fold_left (λ m s, <[s := f s]> m) l m !! s = if decide (s ∈ l) then Some (f s) else m !! s.
Proof.
  revert m. induction l as [|s0 l IH]; intros m; [done|]. cbn [fold_left]. rewrite IH.
  destruct (decide (s ∈ l)) as [Hs|Hs]; [by rewrite decide_True by by right|].
  destruct (decide (s = s0)) as [->|Hne].
  - rewrite lookup_insert_eq. by rewrite decide_True by left.
  - rewrite lookup_insert_ne by done. rewrite decide_False; [done|]. set_solver.
Qed.

Lemma set_map_lookup (f : string → bool) l (m : gmap string bool) s :
  fold_left (λ m s, <[s := f s]> m) l m !! s = if decide (s ∈ l) then Some (f s) else m !! s.
Proof. apply set_map_lookup_gen. Qed.

Lemma set_map_counts neg (f : string → bool) l :
  NoDup l →
  size (fold_left (λ m s, <[s := f s]> m) l (∅ : gmap string bool)) = length l
  ∧ match_count neg (fold_left (λ m s, <[s := f s]> m) l (∅ : gmap string bool))
    = Z.of_nat (length (slicesFilter l (λ s, xorb neg (f s)))).
Proof.
  intros Hnd.
  enough (Hgen : ∀ m : gmap string bool, (∀ s, s ∈ l → m !! s = None) →
    size (fold_left (λ m s, <[s := f s]> m) l m) = (size m + length l)%nat
    ∧ match_count neg (fold_left (λ m s, <[s := f s]> m) l m)
      = match_count neg m + Z.of_nat (length (slicesFilter l (λ s, xorb neg (f s))))).
  { destruct (Hgen ∅) as [H1 H2]; [intros; apply lookup_empty|]. rewrite map_size_empty in H1.
    split; [done|]. rewrite H2. unfold match_count. rewrite map_filter_empty, map_size_empty. lia. }
  induction Hnd as [|s0 l Hs0 Hnd IH]; intros m Hm; cbn [fold_left length]; [split; cbn; lia|].
  destruct (IH (<[s0 := f s0]> m)) as [H1 H2].
  { intros s Hs. rewrite lookup_insert_ne by (intros ->; done). apply Hm. by right. }
  rewrite H1, H2, map_size_insert_None by (apply Hm; left). split; [lia|].
  rewrite slicesFilter_cons. unfold match_count.
  assert (Hd : filter (λ p : string * bool, p.2 = negb neg) m !! s0 = None).
  { apply map_lookup_filter_None. left. apply Hm. left. }
  destruct (decide (f s0 = negb neg)) as [He|He].
  - rewrite map_filter_insert_True, map_size_insert_None by done.
    assert (xorb neg (f s0) = true) as -> by (rewrite He; by destruct neg). cbn [length]. lia.
  - rewrite map_filter_insert_False by done. rewrite delete_id by (apply Hm; left).
    assert (xorb neg (f s0) = false) as -> by (destruct neg, (f s0); done). lia.
Qed.

(** A fresh binding whose condition does not hold yet keeps the index
    well-formed. *)
Lemma register_when_wf neg isf act states ctx next wi :
  when_wf act wi → NoDup states → (∀ s, isf [s] = act s) →
  (∃ s, s ∈ states ∧ act s ≠ negb neg) →
  (∀ s, next ∉ entries wi.(wi_when) s) →
  when_wf act (register_when neg isf states ctx next wi)
  ∧ ∃ b, (register_when neg isf states ctx next wi).(wi_store) !! next = Some b
      ∧ b.(wb_Negation) = neg ∧ (∀ s, wb_dom b s ↔ s ∈ states)
      ∧ (∀ s, next ∈ entries (register_when neg isf states ctx next wi).(wi_when) s ↔ s ∈ states).
Proof.
  intros [Hnd Hreg Hok] Hst Hisf (sx & Hsx & Hax) Hfresh.
  set (wi' := register_when _ _ _ _ _ _).
  assert (Hnd' : ∀ s, NoDup (entries wi'.(wi_when) s)).
  { intros s. unfold wi', register_when. cbn. rewrite entries_fold_add by done.
    case_decide; [|done]. apply NoDup_app. split_and!; [done| |by apply NoDup_singleton].
    intros c Hc ->%list_elem_of_singleton. by apply (Hfresh s). }
  assert (Hent : ∀ s ch, ch ∈ entries wi'.(wi_when) s
    ↔ ch ∈ entries wi.(wi_when) s ∨ (ch = next ∧ s ∈ states)).
  { intros s ch. unfold wi', register_when. cbn. rewrite entries_fold_add by done.
    case_decide; rewrite ?elem_of_app, ?list_elem_of_singleton; naive_solver. }
  assert (Hnext : ∀ s, next ∈ entries wi'.(wi_when) s ↔ s ∈ states).
  { intros s. rewrite Hent. split; [intros [?|[_ ?]]; [by destruct (Hfresh s)|done]|by right]. }
  assert (Hold : ∀ s ch, ch ∈ entries wi.(wi_when) s → ch ≠ next).
  { intros s ch Hc ->. by apply (Hfresh s). }
  set (setMap := fold_left (λ m s, <[s := isf [s]]> m) states (∅ : gmap string bool)).
  set (b := mkWhen neg setMap (Z.of_nat (length (slicesFilter states (λ s, xorb neg (isf [s])))))
    (Z.of_nat (length states)) ctx).
  assert (Hsto : wi'.(wi_store) = <[next := b]> wi.(wi_store)) by done.
  assert (Hb : wi'.(wi_store) !! next = Some b) by (rewrite Hsto; apply lookup_insert_eq).
  clearbody wi'.
  assert (Hdom : ∀ s, wb_dom b s ↔ s ∈ states).
  { intros s. unfold wb_dom, b, setMap. cbn.
    rewrite (set_map_lookup (λ s, isf [s])), lookup_empty. case_decide; naive_solver. }
  split; [|by exists b].
  split.
  - done.
  - intros s ch [Hc|[-> Hs]]%Hent.
    + destruct (Hreg s ch Hc) as (b' & Hb' & Hd'). exists b'. rewrite Hsto.
      rewrite lookup_insert_ne by exact (not_eq_sym (Hold _ _ Hc)). split; [done|]. intros s'.
      rewrite Hd', Hent. pose proof (Hold s ch Hc). naive_solver.
    + exists b. split; [done|]. intros s'. by rewrite Hdom, Hnext.
  - intros s ch b' [Hc|[-> Hs]]%Hent Hb'.
    + rewrite Hsto, lookup_insert_ne in Hb' by exact (not_eq_sym (Hold _ _ Hc)). exact (Hok s ch b' Hc Hb').
    + simplify_eq. destruct (set_map_counts neg (λ s, isf [s]) states Hst) as [H1 H2].
      split; [split; cbn|].
      * intros s' v. unfold setMap. rewrite (set_map_lookup (λ s, isf [s])), lookup_empty.
        case_decide; intros [= <-]. apply Hisf.
      * by rewrite <- H2.
      * by rewrite <- H1.
      * intros Hs'. apply Hax. apply Hs'. by apply Hdom.
Qed.

(** What a returned channel stands for. *)
Definition waits_for (neg : bool) (states : list string) (ch : nat) (wi : WhenIndex) : Prop :=
  ∃ b, wi.(wi_store) !! ch = Some b ∧ b.(wb_Negation) = neg
    ∧ ∀ s, (wb_dom b s ↔ s ∈ states) ∧ (ch ∈ entries wi.(wi_when) s ↔ s ∈ states).

Lemma reuse_when_spec neg states ctx wi act s0 ch :
  when_wf act wi → reuse_when neg states ctx wi s0 = Some ch → waits_for neg states ch wi.
Proof.
  intros [_ Hreg _] [Hin Hb]%find_first_some.
  destruct (Hreg s0 ch Hin) as (b & Hbs & Hdom). rewrite Hbs in Hb.
  apply andb_true_iff in Hb as [[Hn%eqb_prop Hs]%andb_true_iff _].
  rewrite StatesEqual_true in Hs. exists b. split_and!; [done|done|]. intros s. rewrite <- Hdom.
  assert (wb_dom b s ↔ s ∈ states); [|tauto]. rewrite <- Hs, list_elem_of_fmap. unfold wb_dom. split.
  - intros [v Hv%elem_of_map_to_list]. by exists (s, v).
  - intros ([s' v] & -> & Hv%elem_of_map_to_list). by exists v.
Qed.

(** [When] returns a closed channel exactly when the states are active (or the
    context is done), and otherwise the channel of a registered binding that
    waits for exactly those states. *)
Theorem When_spec isf done states ctx next act wi :
  when_wf act wi → NoDup states → states ≠ [] →
  (∀ l, isf l = true ↔ ∀ s, s ∈ l → act s = true) →
  (∀ s, next ∉ entries wi.(wi_when) s) →
  ∃ wi' ch, When isf done states ctx next wi = Ok (wi', ch) ∧ when_wf act wi' ∧
    match ch with
    | None => wi' = wi ∧ ((∀ s, s ∈ states → act s = true) ∨ is_expired done ctx = true)
    | Some c => (∃ s, s ∈ states ∧ act s = false) ∧ waits_for false states c wi'
    end.
Proof.
  intros Hwf Hnd Hne Hisf Hfresh. unfold When.
  destruct (isf states) eqn:Hi; cbn [orb].
  { exists wi, None. split_and!; [done|done|done|]. left. by apply Hisf. }
  destruct (is_expired done ctx); [exists wi, None; auto|].
  destruct states as [|s0 l]; [done|]. rewrite (slice_get_nat _ 0 s0) by done. cbn [mbind outcome_bind].
  assert (Hex : ∃ s, s ∈ s0 :: l ∧ act s = false).
  { destruct (list_find (λ s, act s = false) (s0 :: l)) as [[i s]|] eqn:Hf.
    - apply list_find_Some in Hf as (Hl & Ha & _). exists s. split; [|done].
      by eapply list_elem_of_lookup_2.
    - apply list_find_None in Hf. rewrite Forall_forall in Hf. exfalso.
      apply not_true_iff_false in Hi. apply Hi, Hisf. intros s Hs. specialize (Hf s Hs).
      by destruct (act s). }
  destruct (reuse_when false (s0 :: l) ctx wi s0) as [ch|] eqn:Hr.
  { exists wi, (Some ch). split_and!; [done|done|done|]. by eapply reuse_when_spec. }
  destruct (register_when_wf false isf act (s0 :: l) ctx next wi Hwf Hnd) as (Hwf' & b & Hb & Hn & Hd & Hin).
  - intros s. apply eq_iff_eq_true. rewrite Hisf. split; [|set_solver]. intros Hs. apply Hs. left.
  - destruct Hex as (s & Hs & Ha). exists s. split; [done|]. rewrite Ha. done.
  - done.
  - eexists _, (Some next). split_and!; [done|done|done|]. exists b. split_and!; [done|done|]. auto.
Qed.

(** A transition that activates [B] and deactivates [A] closes a [When] channel
    for both, although they were never active together: the activated states
    are processed first. *)
Example ProcessWhen_spurious :
  let act (s : string) := bool_decide (s = "A") in
  let isf := forallb act in
  match When isf (λ _, false) ["A"; "B"] None 0 (mkWhenIndex ∅ ∅ ∅) with
  | Ok (wi, Some ch) =>
      (ProcessWhen (λ _, false) ["B"] ["A"] wi).2 = [ch]
      ∧ act_after ["B"] ["A"] act "A" = false
  | _ => False
  end.
Proof. vm_compute. done. Qed.

Lemma when_wf_empty act : when_wf act (mkWhenIndex ∅ ∅ ∅).
Proof. split; unfold entries; cbn; intros s; rewrite lookup_empty; cbn; [constructor|set_solver..]. Qed.

Example When_spec_witness :
  ∃ wi' ch, When (forallb (λ _, false)) (λ _, false) ["A"; "B"] None 7 (mkWhenIndex ∅ ∅ ∅)
    = Ok (wi', ch).
Proof.
  destruct (When_spec (forallb (λ _, false)) (λ _, false) ["A"; "B"] None 7 (λ _, false)
    (mkWhenIndex ∅ ∅ ∅)) as (wi' & ch & H & _).
  - apply when_wf_empty.
  - compute_decide.
  - done.
  - intros l. rewrite forallb_forall. setoid_rewrite list_elem_of_In. done.
  - intros s. unfold entries. cbn. rewrite lookup_empty. cbn. set_solver.
  - by exists wi', ch.
Defined.

Definition two_states : WhenIndex :=
  register_when false (forallb (λ _, false)) ["A"; "B"] None 7 (mkWhenIndex ∅ ∅ ∅).

Lemma two_states_wf : when_wf (λ _, false) two_states.
Proof.
  apply register_when_wf.
  - apply when_wf_empty.
  - compute_decide.
  - done.
  - exists "A". split; [left|done].
  - intros s. unfold entries. cbn. rewrite lookup_empty. cbn. set_solver.
Qed.

Example ProcessWhen_spec_witness :
  ∃ wi' fired, ProcessWhen (λ _, false) ["B"; "A"] [] two_states = (wi', fired)
    ∧ fired = [7%nat].
Proof.
  destruct (ProcessWhen_spec (λ _, false) ["B"; "A"] [] (λ _, false) two_states eq_refl
    two_states_wf) as (wi' & fired & H & _).
  exists wi', fired. split; [exact H|]. change fired with (wi', fired).2. rewrite <- H.
  vm_compute. reflexivity.
Defined.

(** ** Sums and queue ticks *)

Lemma sum_matches_app sum l :
  ∃ rest, l = sum_matches sum l ++ rest
    ∧ match rest with b :: _ => b.(sb_MTime) > sum | [] => True end.
Proof.
  induction l as [|b l (rest & He & Hr)]; [by exists []|]. cbn [sum_matches].
  case_bool_decide as Hb; [by exists (b :: l)|]. exists rest. cbn. by rewrite <- He.
Qed.

Lemma sum_matches_le sum l b : b ∈ sum_matches sum l → b.(sb_MTime) ≤ sum.
Proof.
  induction l as [|c l IH]; cbn [sum_matches]; [set_solver|].
  case_bool_decide; [set_solver|]. intros [->|]%elem_of_cons; [lia|auto].
Qed.

Definition sum_sorted (l : list WhenTimeSumBinding) : Prop :=
  StronglySorted (λ a b, a.(sb_MTime) ≤ b.(sb_MTime)) l.

Lemma gc_sum_prefix pre rest ctxs :
  ∃ ctxs', fold_left (λ si b, gcWhenTimeSumBinding b true si) pre (mkSumWaits (pre ++ rest) ctxs)
    = mkSumWaits rest ctxs'.
Proof.
  revert ctxs. induction pre as [|b pre IH]; intros ctxs; [by exists ctxs|].
  cbn [fold_left app]. unfold gcWhenTimeSumBinding at 2. cbn [si_whenTimeSum si_whenTimeSumCtx].
  rewrite (proj2 (contains_true _ _)) by left.
  assert (slicesWithout (b :: pre ++ rest) b = pre ++ rest) as ->; [|apply IH].
  unfold slicesWithout, index_of. cbn [list_find]. rewrite decide_True by done. done.
Qed.

(** The sum subscriptions are kept sorted, and a transition closes exactly
    those whose sum has been reached. *)
Theorem ProcessWhenTimeSum_exact done clock si :
  expired_entries done si.(si_whenTimeSumCtx) = [] →
  sum_sorted si.(si_whenTimeSum) →
  let sum := Clock_Sum clock [] in
  ∃ si', ProcessWhenTimeSum done clock si
    = (si', sb_Ch <$> filter (λ b, b.(sb_MTime) ≤ sum) si.(si_whenTimeSum), [])
    ∧ si'.(si_whenTimeSum) = filter (λ b, sum < b.(sb_MTime)) si.(si_whenTimeSum)
    ∧ sum_sorted si'.(si_whenTimeSum).
Proof.
  intros He Hs sum. unfold ProcessWhenTimeSum, processWhenTimeSumCtx. rewrite He.
  cbn [mbind list_bind fmap list_fmap fold_left]. fold sum.
  destruct (sum_matches_app sum si.(si_whenTimeSum)) as (rest & Hl & Hr).
  set (ms := sum_matches sum (si_whenTimeSum si)) in *.
  assert (Hrest : ∀ b, b ∈ rest → sum < b.(sb_MTime)).
  { rewrite Hl in Hs. apply StronglySorted_app_1_r in Hs. destruct rest as [|b0 rest]; [set_solver|].
    apply StronglySorted_inv in Hs as [_ Hall]. rewrite Forall_forall in Hall.
    intros b [->|Hb]%elem_of_cons; [lia|]. specialize (Hall b Hb). lia. }
  assert (Hms : ∀ b, b ∈ ms → b.(sb_MTime) ≤ sum) by (intros b; apply sum_matches_le).
  destruct si as [l ctxs]. cbn [si_whenTimeSum si_whenTimeSumCtx] in *.
  replace (mkSumWaits l ctxs) with (mkSumWaits (ms ++ rest) ctxs) by (by f_equal).
  destruct (gc_sum_prefix ms rest ctxs) as (ctxs' & Hgc). rewrite Hgc.
  assert (Hf1 : filter (λ b, b.(sb_MTime) ≤ sum) l = ms).
  { rewrite Hl, filter_app, (filter_eq_self _ ms) by done.
    rewrite filter_none; [by rewrite app_nil_r|]. intros b Hb. specialize (Hrest b Hb). lia. }
  assert (Hf2 : filter (λ b, sum < b.(sb_MTime)) l = rest).
  { rewrite Hl, filter_app, (filter_eq_self _ rest) by done.
    rewrite filter_none; [done|]. intros b Hb. specialize (Hms b Hb). lia. }
  exists (mkSumWaits rest ctxs'). rewrite Hf1. split_and!; [done|by rewrite Hf2|].
  unfold sum_sorted in *. rewrite Hl in Hs. by apply StronglySorted_app_1_r in Hs.
Qed.

(** Registering a sum keeps the order. *)
Lemma insert_sum_sorted b l : sum_sorted l → sum_sorted (insert_sum b l).
Proof.
  unfold sum_sorted. induction 1 as [|c l Hs IH Hc]; cbn [insert_sum]; [by repeat constructor|].
  assert (Hin : ∀ x, x ∈ insert_sum b l → x = b ∨ x ∈ l).
  { clear. induction l as [|d l IH]; cbn [insert_sum]; [set_solver|].
    case_bool_decide; set_solver. }
  case_bool_decide as Hlt.
  - constructor; [done|]. apply Forall_forall. intros x [->|Hx]%Hin; [lia|].
    rewrite Forall_forall in Hc. auto.
  - constructor; [by constructor|]. constructor; [lia|]. eapply Forall_impl; [done|].
    cbn. lia.
Qed.

Example ProcessWhenTimeSum_exact_witness :
  ∃ si', ProcessWhenTimeSum (λ _, false) {["A" := 5]}
      (mkSumWaits [mkWhenTimeSum 1 4 None; mkWhenTimeSum 2 9 None] ∅) = (si', [1%nat], [])
    ∧ sum_sorted si'.(si_whenTimeSum).
Proof.
  destruct (ProcessWhenTimeSum_exact (λ _, false) {["A" := 5]}
    (mkSumWaits [mkWhenTimeSum 1 4 None; mkWhenTimeSum 2 9 None] ∅)) as (si' & H & _ & Hs).
  - reflexivity.
  - repeat constructor; cbn; lia.
  - exists si'. split; [|exact Hs]. etransitivity; [exact H|]. vm_compute. reflexivity.
Defined.

Lemma slices_delete_app {A} `{EqDecision A} (l k : list A) i j l' :
  slices_delete l i j = Ok l' → slices_delete (l ++ k) i j = Ok (l' ++ k).
Proof.
  intros [Hb ->]%slices_delete_ok. apply slices_delete_ok. rewrite length_app. split; [lia|].
  rewrite take_app_le, drop_app_le by lia. by rewrite (assoc_L (++)).
Qed.

Lemma fold_delete_app {A} `{EqDecision A} (idxs : list nat) (l k l' : list A) :
  fold_left (λ r idx, r ≫= λ l, slices_delete l (Z.of_nat idx) (Z.of_nat idx + 1)) idxs (Ok l)
    = Ok l' →
  fold_left (λ r idx, r ≫= λ l, slices_delete l (Z.of_nat idx) (Z.of_nat idx + 1)) idxs
    (Ok (l ++ k)) = Ok (l' ++ k).
Proof.
  revert l. induction idxs as [|i idxs IH]; intros l; cbn [fold_left]; [by intros [= ->]|].
  cbn [mbind outcome_bind]. destruct (slices_delete l _ _) as [l1|m|] eqn:Hd.
  - rewrite (slices_delete_app _ k _ _ _ Hd). apply IH.
  - intros H. exfalso. clear -H. induction idxs; cbn in H; [done|auto].
  - intros H. exfalso. clear -H. induction idxs; cbn in H; [done|auto].
Qed.

(** Deleting the collected positions from the last one on leaves the elements
    that did not match. *)
Lemma fold_delete_hits {A} `{EqDecision A} (P : A → Prop) `{!∀ x, Decision (P x)} (l : list A) :
  fold_left (λ r idx, r ≫= λ l, slices_delete l (Z.of_nat idx) (Z.of_nat idx + 1))
    (reverse (filter (λ p : nat * A, P p.2) (imap pair l)).*1) (Ok l)
  = Ok (filter (λ x, ¬ P x) l).
Proof.
  induction l as [|x l IH] using rev_ind; [done|].
  rewrite imap_app, !filter_app, fmap_app, reverse_app. cbn [imap]. rewrite !filter_cons, !filter_nil.
  cbn [snd]. rewrite Nat.add_0_r. destruct (decide (P x)) as [HP|HP].
  - cbn [fmap list_fmap reverse rev_append app fold_left fst].
    rewrite (decide_False (P := ¬ P x)) by tauto. rewrite app_nil_r.
    assert (Hd : Ok (l ++ [x]) ≫= (λ l0, slices_delete l0 (Z.of_nat (length l)) (Z.of_nat (length l) + 1))
      = Ok l).
    { cbn. apply slices_delete_ok. rewrite length_app. cbn. split; [lia|].
      rewrite Nat2Z.id. replace (Z.to_nat (Z.of_nat (length l) + 1)) with (length (l ++ [x]))
        by (rewrite length_app; cbn; lia).
      by rewrite drop_all, app_nil_r, take_app_length. }
    by rewrite Hd.
  - rewrite (decide_True (P := ¬ P x)) by done. cbn [fmap list_fmap reverse rev_append app].
    by apply fold_delete_app.
Qed.

Lemma fmap_snd_filter {A} (P : A → Prop) `{!∀ x, Decision (P x)} (l : list A) :
  (filter (λ p : nat * A, P p.2) (imap pair l)).*2 = filter P l.
Proof.
  assert (Hgen : ∀ f : nat → nat, (filter (λ p : nat * A, P p.2) (imap (λ i, pair (f i)) l)).*2
    = filter P l); [|apply (Hgen id)].
  induction l as [|x l IH]; intros f; [done|]. cbn [imap]. rewrite !filter_cons. cbn [snd].
  specialize (IH (f ∘ S)). unfold compose in *. case_decide; cbn [fmap list_fmap]; [|done].
  f_equal. exact IH.
Qed.

Lemma ProcessWhenQueue_eq queueTick ui :
  ProcessWhenQueue queueTick ui
  = Ok (mkQueueWaits ui.(ui_whenQueueEnds)
          (filter (λ b, ¬ b.(ub_tick) ≤ queueTick) ui.(ui_whenQueue)),
        ub_ch <$> filter (λ b, b.(ub_tick) ≤ queueTick) ui.(ui_whenQueue)).
Proof.
  unfold ProcessWhenQueue. set (hits := filter _ _).
  pose proof (fold_delete_hits (λ b, ub_tick b ≤ queueTick) ui.(ui_whenQueue)) as Hd.
  change (filter _ (imap pair ui.(ui_whenQueue))) with hits in Hd.
  pose proof (fmap_snd_filter (λ b, ub_tick b ≤ queueTick) ui.(ui_whenQueue)) as Hh.
  change (filter _ (imap pair ui.(ui_whenQueue))) with hits in Hh.
  rewrite <- Hh, <- list_fmap_compose.
  clearbody hits. cbv beta in Hd. by rewrite Hd.
Qed.

(** Without queries, processing the subscriptions always ends. *)
Lemma process_all_no_queries done clock before tick a d sm :
  sm.(sm_query).(qi_whenQuery) = [] → sm.(sm_query).(qi_whenQueryCtx) = ∅ →
  ∃ sm' chs, process_all done clock before tick a d sm = Ok (sm', chs)
    ∧ sm'.(sm_args) = sm.(sm_args) ∧ sm'.(sm_query) = sm.(sm_query).
Proof.
  intros H1 H2. unfold process_all.
  destruct (ProcessWhen _ _ _ _) as [wi r1], (ProcessWhenTime _ _ _ _) as [ti r2],
    (ProcessWhenTimeSum _ _ _) as [[si r3] w1].
  rewrite ProcessWhenQueue_eq. cbn [mbind outcome_bind].
  destruct (sm_query sm) as [store l ctxs] eqn:E. cbn in H1, H2. subst l ctxs.
  unfold ProcessWhenQuery, processWhenQueryCtx, expired_entries. cbn.
  rewrite map_to_list_empty. cbn. eexists _, _. split; [done|]. cbn. split; [by destruct (sm_args sm)|done].
Qed.

(** Waiting for a queue tick: exactly the bindings whose tick has been reached
    are closed, whatever their order, and the deletions never go out of
    bounds. *)
Theorem ProcessWhenQueue_exact queueTick ui :
  ProcessWhenQueue queueTick ui
  = Ok (mkQueueWaits ui.(ui_whenQueueEnds)
          (filter (λ b, ¬ b.(ub_tick) ≤ queueTick) ui.(ui_whenQueue)),
        ub_ch <$> filter (λ b, b.(ub_tick) ≤ queueTick) ui.(ui_whenQueue)).
Proof. apply ProcessWhenQueue_eq. Qed.

(** A query subscription whose context is done stays in the context map (the
    source deletes it from the map of another kind): the second transition
    after the context is done looks it up again and panics. *)
Theorem ProcessWhenQuery_expired_panics done fn c clock next :
  done c = true →
  ∃ qi qi' wrong,
    WhenQuery (λ _, false) fn (Some c) next (mkQueryWaits ∅ [] ∅) = (qi, Some next)
    ∧ ProcessWhenQuery done clock qi = Ok (qi', [next], wrong)
    ∧ ∃ msg, ProcessWhenQuery done clock qi' = Panic msg.
Proof.
  intros Hd. unfold WhenQuery. cbn [is_expired].
  set (qi := mkQueryWaits _ _ _).
  assert (Hqi : qi = mkQueryWaits {[next := mkWhenQuery (Some c) fn]} [next] {[c := [next]]}) by done.
  assert (Hexp : expired_entries done ({[c := [next]]} : gmap nat (list nat)) = [(c, [next])]).
  { unfold expired_entries. rewrite map_to_list_singleton. rewrite slicesFilter_cons. cbn [fst].
    by rewrite Hd. }
  exists qi, (mkQueryWaits {[next := mkWhenQuery (Some c) fn]} [] {[c := [next]]}), [c].
  rewrite Hqi. unfold ProcessWhenQuery, processWhenQueryCtx. cbn [qi_whenQueryCtx]. rewrite Hexp.
  split_and!; [done| |].
  - unfold gc_queries. cbn [mbind list_bind app fold_left outcome_bind fmap list_fmap snd].
    unfold gcWhenQueryBinding. cbn [qi_store qi_whenQuery qi_whenQueryCtx].
    rewrite lookup_singleton_eq. cbn. done.
  - exists "slice bounds out of range". unfold gc_queries.
    cbn [mbind list_bind app fold_left outcome_bind fmap list_fmap snd].
    unfold gcWhenQueryBinding. cbn [qi_store qi_whenQuery qi_whenQueryCtx].
    rewrite lookup_singleton_eq. done.
Qed.

Example ProcessWhenQuery_expired_panics_witness :
  ∃ qi qi' wrong,
    WhenQuery (λ _, false) (λ _, false) (Some 4%nat) 9 (mkQueryWaits ∅ [] ∅) = (qi, Some 9%nat)
    ∧ ProcessWhenQuery (λ c, bool_decide (c = 4%nat)) ∅ qi = Ok (qi', [9%nat], wrong)
    ∧ ∃ msg, ProcessWhenQuery (λ c, bool_decide (c = 4%nat)) ∅ qi' = Panic msg.
Proof.
  apply (ProcessWhenQuery_expired_panics (λ c, bool_decide (c = 4%nat)) (λ _, false) 4 ∅ 9).
  reflexivity.
Defined.
