(* ===== verification/Machine.v ===== *)
(** * The machine: its state and what can be read from it
    ([pkg/machine/machine.go], [pkg/machine/transition.go])

    One record holds what the methods of [Machine] read and write, grouped
    like the mutexes of the source group it; the running transition ([m.t]) is
    part of it.  Locks, log messages, tracers and user callbacks have no
    effect on this state and are left out.  Every accessor returns a fixed
    value while the machine is being disposed. *)

From S2P Require Import Prelude StateList SchemaDef MachTime Mutation Relations Subscriptions.

#[local] Open Scope Z_scope.

Record Transition := mkTx {
  tx_Id : string;
  tx_Mutation : Mutation;
  tx_TimeBefore : list Z;
  tx_TimeAfter : list Z;
  tx_TargetIndexes : list Z;
  tx_Enters : list string;
  tx_Exits : list string;
  tx_IsCompleted : bool;
  tx_IsAccepted : bool;
  tx_latestHandlerIsEnter : bool;
  tx_latestHandlerIsFinal : bool;
  tx_latestHandlerToState : string;
  tx_TargetStates : list string;
  tx_StatesBefore : list string;
  tx_ClockBefore : gmap string Z;
  tx_cacheActivated : list string;
  tx_cacheDeactivated : list string;
  tx_cacheSchema : gmap string State;
}.

(** [schemaMx] *)
Record SchemaPart := mkSchemaPart {
  sp_schema : gmap string State;
  sp_stateNames : list string;
  sp_topology : list string;
  sp_machineTick : Z;
  sp_statesVerified : bool;
}.

(** [activeStatesMx] *)
Record StatePart := mkStatePart {
  st_activeStates : list string;
  st_clock : gmap string Z;
  st_activatedAt : gmap string Z;
}.

(** [queueMx]; [queueLen] is the atomic copy of the queue's length. *)
Record QueuePart := mkQueuePart {
  q_queue : list Mutation;
  q_queueTick : Z;
  q_queueTicksPending : Z;
  q_queueToken : Z;
  q_queueLen : Z;
  q_queueProcessing : bool;
  q_queueRunning : bool;
}.

(** Atomic flags and options. [f_loop]: a handler loop goroutine is there to
    take calls; [f_backoff]: what [Backoff()] answers. *)
Record Flags := mkFlags {
  f_id : string;
  f_QueueLimit : Z;
  f_PanicToException : bool;
  f_handlerLoopRunning : bool;
  f_loop : bool;
  f_disposing : bool;
  f_disposed : bool;
  f_backoff : bool;
  f_panicCaught : bool;
  f_err : option string;
}.

Record Machine := mkMachine {
  m_flags : Flags;
  m_sp : SchemaPart;
  m_st : StatePart;
  m_q : QueuePart;
  m_subs : Subscriptions;
  m_closed : list nat;
  m_checks : list (nat * bool);
  m_t : option Transition;
}.

(** [m_closed] are the channels closed so far, [m_checks] the answered checks:
    the channel and the [Canceled] field written before closing it. *)

(** ** Field access and update *)

Definition schema (m : Machine) := m.(m_sp).(sp_schema).
Definition stateNames (m : Machine) := m.(m_sp).(sp_stateNames).
Definition activeStates (m : Machine) := m.(m_st).(st_activeStates).
Definition clock (m : Machine) := m.(m_st).(st_clock).
Definition activatedAt (m : Machine) := m.(m_st).(st_activatedAt).
Definition queue (m : Machine) := m.(m_q).(q_queue).
Definition queueLen (m : Machine) := m.(m_q).(q_queueLen).
Definition queueTick (m : Machine) := m.(m_q).(q_queueTick).
Definition pending (m : Machine) := m.(m_q).(q_queueTicksPending).
Definition disposing (m : Machine) := m.(m_flags).(f_disposing).
Definition disposed (m : Machine) := m.(m_flags).(f_disposed).

Definition with_flags (f : Flags → Flags) (m : Machine) : Machine :=
  mkMachine (f m.(m_flags)) m.(m_sp) m.(m_st) m.(m_q) m.(m_subs) m.(m_closed) m.(m_checks) m.(m_t).
Definition with_sp (sp : SchemaPart) (m : Machine) : Machine :=
  mkMachine m.(m_flags) sp m.(m_st) m.(m_q) m.(m_subs) m.(m_closed) m.(m_checks) m.(m_t).
Definition with_st (st : StatePart) (m : Machine) : Machine :=
  mkMachine m.(m_flags) m.(m_sp) st m.(m_q) m.(m_subs) m.(m_closed) m.(m_checks) m.(m_t).
Definition with_q (q : QueuePart) (m : Machine) : Machine :=
  mkMachine m.(m_flags) m.(m_sp) m.(m_st) q m.(m_subs) m.(m_closed) m.(m_checks) m.(m_t).
Definition with_subs (subs : Subscriptions) (chs : list nat) (m : Machine) : Machine :=
  mkMachine m.(m_flags) m.(m_sp) m.(m_st) m.(m_q) subs (m.(m_closed) ++ chs) m.(m_checks)
    m.(m_t).
Definition with_t (t : option Transition) (m : Machine) : Machine :=
  mkMachine m.(m_flags) m.(m_sp) m.(m_st) m.(m_q) m.(m_subs) m.(m_closed) m.(m_checks) t.

Definition with_check (ch : nat) (canceled : bool) (m : Machine) : Machine :=
  mkMachine m.(m_flags) m.(m_sp) m.(m_st) m.(m_q) m.(m_subs) (m.(m_closed) ++ [ch])
    (m.(m_checks) ++ [(ch, canceled)]) m.(m_t).

Definition set_err (e : string) (f : Flags) : Flags :=
  mkFlags f.(f_id) f.(f_QueueLimit) f.(f_PanicToException) f.(f_handlerLoopRunning) f.(f_loop)
    f.(f_disposing) f.(f_disposed) f.(f_backoff) f.(f_panicCaught) (Some e).
Definition set_panicCaught (b : bool) (f : Flags) : Flags :=
  mkFlags f.(f_id) f.(f_QueueLimit) f.(f_PanicToException) f.(f_handlerLoopRunning) f.(f_loop)
    f.(f_disposing) f.(f_disposed) f.(f_backoff) b f.(f_err).
Definition set_loop (b : bool) (f : Flags) : Flags :=
  mkFlags f.(f_id) f.(f_QueueLimit) f.(f_PanicToException) f.(f_handlerLoopRunning) b
    f.(f_disposing) f.(f_disposed) f.(f_backoff) f.(f_panicCaught) f.(f_err).
Definition set_backoff (b : bool) (f : Flags) : Flags :=
  mkFlags f.(f_id) f.(f_QueueLimit) f.(f_PanicToException) f.(f_handlerLoopRunning) f.(f_loop)
    f.(f_disposing) f.(f_disposed) b f.(f_panicCaught) f.(f_err).

(** The index of a state of [s], with the name it pairs with. *)
Inductive Position := PositionAny | PositionFirst | PositionLast.

#[export] Instance Position_eq_dec : EqDecision Position.
Proof. solve_decision. Defined.

(** ** Accessors *)

Module Mach.

Definition StateNames (m : Machine) : list string := stateNames m.

Definition mustParseStates (m : Machine) (states : list string) : outcome (list string) :=
  Relations.mustParseStates (disposing m) (schema m) states.

(** Without duplicates among the known states, the known states come back in
    the order of a map; with duplicates the whole list comes back, deduped. *)
Definition ParseStates (m : Machine) (states : list string) : list string :=
  if disposing m then []
  else
    let known := slicesFilter states (λ s, bool_decide (is_Some (schema m !! s))) in
    if bool_decide (NoDup known) then known else slicesUniq states.

(** [is] *)
Definition is_ (m : Machine) (states : list string) : bool :=
  negb (disposing m)
  && forallb (λ s, contains (stateNames m) s && contains (activeStates m) s) states.

Definition Is := is_.
Definition Is1 (m : Machine) (state : string) : bool := Is m [state].

Definition not_ (m : Machine) (states : list string) : outcome bool :=
  l ← mustParseStates m states; Ok (slicesNone l (activeStates m)).

Definition Not (m : Machine) (states : list string) : outcome bool :=
  if disposing m then Ok false else not_ m states.
Definition Not1 (m : Machine) (state : string) : outcome bool := Not m [state].

Definition Any (m : Machine) (states : list (list string)) : bool := existsb (Is m) states.
Definition Any1 (m : Machine) (states : list string) : bool := existsb (Is1 m) states.

Definition Has (m : Machine) (states : list string) : bool :=
  negb (disposing m) && slicesEvery (stateNames m) states.
Definition Has1 (m : Machine) (state : string) : bool := Has m [state].

Definition IsErr (m : Machine) : bool := Is m [StateException].
Definition Err (m : Machine) : option string := m.(m_flags).(f_err).
Definition Backoff (m : Machine) : bool := m.(m_flags).(f_backoff).

(** [None] is the [nil] list: all states. *)
Definition time (m : Machine) (states : option (list string)) : list Z :=
  if disposed m then [] else tick_of (clock m) <$> default (stateNames m) states.
Definition Time := time.

Definition Clock (m : Machine) (states : option (list string)) : gmap string Z :=
  if disposing m then ∅
  else list_to_map ((λ s, (s, tick_of (clock m) s)) <$> default (stateNames m) states).

Definition Tick (m : Machine) (state : string) : Z :=
  if disposing m then 0 else tick_of (clock m) state.

Definition QueueTick (m : Machine) : Z := queueTick m.
Definition MachineTick (m : Machine) : Z := m.(m_sp).(sp_machineTick).
Definition QueueLen (m : Machine) : Z := wrap16 (queueLen m).
Definition SchemaVer (m : Machine) : Z := Z.of_nat (length (StateNames m)).
Definition Schema (m : Machine) : gmap string State := Schema_Clone (schema m).
Definition Queue (m : Machine) : list Mutation := if disposing m then [] else queue m.
Definition StatesVerified (m : Machine) : bool := m.(m_sp).(sp_statesVerified).

Definition ActivatedAt (m : Machine) (state : string) : Z :=
  if disposed m then 0 else tick_of (activatedAt m) state.

Definition Index1 (m : Machine) (state : string) : Z :=
  if disposing m then -1 else index_of (stateNames m) state.
Definition Index (m : Machine) (states : list string) : list Z :=
  if disposing m then [] else StatesToIndex (stateNames m) states.

(** Ranges over a map: the order does not show. *)
Definition IsClock (m : Machine) (c : gmap string Z) : bool :=
  negb (disposing m)
  && forallb (λ p, bool_decide (tick_of (clock m) p.1 = p.2)) (map_to_list c).
Definition WasClock (m : Machine) (c : gmap string Z) : bool :=
  negb (disposing m)
  && forallb (λ p, bool_decide (p.2 ≤ tick_of (clock m) p.1)) (map_to_list c).

(** The loop of [IsTime] and [WasTime]: [states[i]] is not guarded. *)
Fixpoint time_loop (ok : Z → Z → bool) (m : Machine) (t : list Z) (states : list string)
  : outcome bool :=
  match t, states with
  | [], _ => Ok true
  | _ :: _, [] => Panic "index out of range"
  | tick :: t, s :: states =>
      if ok (tick_of (clock m) s) tick then time_loop ok m t states else Ok false
  end.

Definition IsTime (m : Machine) (t : list Z) (states : option (list string)) : outcome bool :=
  if disposing m then Ok false
  else time_loop (λ now tick, bool_decide (now = tick)) m t (default (stateNames m) states).
Definition WasTime (m : Machine) (t : list Z) (states : option (list string)) : outcome bool :=
  if disposing m then Ok false
  else time_loop (λ now tick, bool_decide (tick ≤ now)) m t (default (stateNames m) states).

Definition ActiveStates (m : Machine) (states : option (list string)) : list string :=
  if disposing m then []
  else match states with
       | None => activeStates m
       | Some l => slicesFilter l (contains (activeStates m))
       end.

Definition Switch (m : Machine) (groups : list (list string)) : string :=
  default "" (find_first (contains (ActiveStates m None)) (mjoin groups)).

(** A state with its tick, as printed. *)
Definition print_state (m : Machine) (s : string) : string :=
  s +:+ ":" +:+ pretty (tick_of (clock m) s).

Definition String (m : Machine) : string :=
  if disposing m then ""
  else "(" +:+ str_join " " (print_state m <$> slicesFilter (stateNames m) (contains (activeStates m)))
       +:+ ")".

Definition StringAll (m : Machine) : string :=
  if disposing m then ""
  else
    "(" +:+ str_join " " (print_state m <$> slicesFilter (stateNames m) (contains (activeStates m)))
    +:+ ") [" +:+ str_join " "
      (print_state m <$> slicesFilter (stateNames m) (λ s, negb (contains (activeStates m) s)))
    +:+ "]".

Definition newline : string := String.String (Ascii.ascii_of_nat 10) EmptyString.

Definition inspect_rel (label : string) (r : rel) : string :=
  match r with Some l => "    |" +:+ label +:+ j l +:+ newline | None => "" end.

Definition Inspect (m : Machine) (states : option (list string)) : string :=
  if disposing m then ""
  else foldr (λ name ret,
    let state := schema_get (schema m) name in
    (if contains (activeStates m) name then "1" else "0") +:+ " " +:+ name +:+ newline
    +:+ "    |Tick     " +:+ pretty (tick_of (clock m) name) +:+ newline
    +:+ (if state.(st_Auto) then "    |Auto     true" +:+ newline else "")
    +:+ (if state.(st_Multi) then "    |Multi    true" +:+ newline else "")
    +:+ inspect_rel "Add      " state.(st_Add)
    +:+ inspect_rel "Require  " state.(st_Require)
    +:+ inspect_rel "Remove   " state.(st_Remove)
    +:+ inspect_rel "After    " state.(st_After)
    +:+ ret) "" (default (stateNames m) states).

(** *** Looking into the queue *)

(** The condition both queue searches share. *)
Definition queued_match (m : Machine) (mutType : MutationType) (states : list string)
    (withoutArgsOnly statesStrictEqual : bool) (minQueueTick : Z) (isCheck : bool)
    (mut : Mutation) : bool :=
  negb (bool_decide (0 < minQueueTick) && bool_decide (mut.(mut_QueueTick) < minQueueTick))
  && Bool.eqb mut.(mut_IsCheck) isCheck
  && bool_decide (mut.(mut_Type) = mutType)
  && ((withoutArgsOnly && bool_decide (mut.(mut_Args) = ∅)) || negb withoutArgsOnly)
  && (if statesStrictEqual then bool_decide (length mut.(mut_Called) = length states)
      else bool_decide (length states <= length mut.(mut_Called))%nat)
  && slicesEvery mut.(mut_Called) (Index m states).

(** Positions are Go [uint16] values of the searched part of the queue. *)
Definition IsQueued (m : Machine) (mutType : MutationType) (states : list string)
    (withoutArgsOnly statesStrictEqual : bool) (minQueueTick : Z) (isCheck : bool)
    (position : Position) : outcome (bool * Z * Z) :=
  if disposing m then Ok (false, 0, 0)
  else
    iter ← match position with
           | PositionAny => Ok (queue m)
           | PositionLast => Ok (drop (length (queue m) - 1) (queue m))
           | PositionFirst =>
               if bool_decide (queue m = []) then Panic "slice bounds out of range"
               else Ok (take 1 (queue m))
           end;
    match find_first (λ p, queued_match m mutType states withoutArgsOnly statesStrictEqual
                             minQueueTick isCheck p.2) (imap pair iter) with
    | Some (i, mut) => Ok (true, wrap16 (Z.of_nat i), mut.(mut_QueueTick))
    | None => Ok (false, 0, 0)
    end.

(** The count is tested after each match, so the threshold is at least 1. *)
Definition IsQueuedAbove (m : Machine) (threshold : Z) (mutType : MutationType)
    (states : list string) (withoutArgsOnly statesStrictEqual : bool) (minQueueTick : Z) : bool :=
  negb (disposing m)
  && (let c := length (slicesFilter (queue m)
        (queued_match m mutType states withoutArgsOnly statesStrictEqual minQueueTick false)) in
      bool_decide (0 < c)%nat && bool_decide (threshold ≤ Z.of_nat c)).

(** Every arm of the final [switch] answers like [found]. *)
Definition WillBe (m : Machine) (states : list string) (position : Position) : outcome bool :=
  r ← IsQueued m MutationAdd states false false 0 false position; Ok r.1.1.
Definition WillBe1 (m : Machine) (state : string) (position : Position) : outcome bool :=
  WillBe m [state] position.
Definition WillBeRemoved (m : Machine) (states : list string) (position : Position)
  : outcome bool :=
  r ← IsQueued m MutationRemove states false false 0 false position; Ok r.1.1.
Definition WillBeRemoved1 (m : Machine) (state : string) (position : Position) : outcome bool :=
  WillBeRemoved m [state] position.

Fixpoint WillBeAny (m : Machine) (states : list string) : outcome bool :=
  match states with
  | [] => Ok false
  | s :: states =>
      b ← WillBe1 m s PositionAny;
      if b : bool then Ok true else WillBeAny m states
  end.

Definition detectQueueDuplicates (m : Machine) (mutationType : MutationType)
    (states : list string) (isCheck : bool) : outcome bool :=
  if disposing m then Ok false
  else r ← IsQueued m mutationType states true true 0 isCheck PositionAny; Ok r.1.1.

End Mach.

(** ** Setting the active states *)

(** [m.clock[name] += n] *)
Definition clock_add (n : Z) (c : gmap string Z) (name : string) : gmap string Z :=
  <[name := wrap64 (tick_of c name + n)]> c.

(** The ticks of the target states: one for a state that activates, two for a
    called multi state that stays active. *)
Definition tick_target (schema : gmap string State) (previous called : list string)
    (c : gmap string Z) (name : string) : gmap string Z :=
  if negb (contains previous name) then clock_add 1 c name
  else if contains called name && (schema_get schema name).(st_Multi) then clock_add 2 c name
  else c.

Definition tick_clock (schema : gmap string State) (previous called targets : list string)
    (c : gmap string Z) : gmap string Z :=
  fold_left (clock_add 1) (StatesDiff previous targets)
    (fold_left (tick_target schema previous called) targets c).

Definition setActiveStates (called targets : list string) (m : Machine) : Machine :=
  if disposing m then m
  else
    let previous := activeStates m in
    let c := tick_clock (schema m) previous called targets (clock m) in
    let toActivate := slicesFilter targets (λ s, negb (contains previous s)) in
    let m' := with_st (mkStatePart targets c (activatedAt m)) m in
    let sum := match MachTime.Time.Sum (Mach.time m' None) None with Ok v => v | _ => 0 end in
    with_st (mkStatePart targets c
      (fold_left (λ a s, <[s := sum]> a) toActivate (activatedAt m))) m'.

(** ** Verifying and replacing the schema *)

Inductive SchemaError :=
| ErrNoName | ErrUndefined (state : string) | ErrMissing (missing : list string)
| ErrTransition | ErrTooShort | ErrLength | ErrConflicts (l : list (string * string))
| ErrUnverified | ErrImportId | ErrStateUnknown (state : string).

(** All names are checked before the first error is returned. *)
Definition verifyStates (states : list string) (m : Machine) : SchemaError + Machine :=
  match slicesFilter states (λ s, negb (bool_decide (is_Some (schema m !! s)))) with
  | s :: _ => inl (if contains states "" then ErrNoName else ErrUndefined s)
  | [] =>
      if contains states "" then inl ErrNoName
      else if bool_decide (length states < length (stateNames m))%nat
      then inl (ErrMissing (StatesDiff (stateNames m) states))
      else
        let sp := m.(m_sp) in
        inr (with_sp (mkSchemaPart sp.(sp_schema) (slicesUniq states) sp.(sp_topology)
                        sp.(sp_machineTick) true) m)
  end.

Definition VerifyStates (states : list string) (m : Machine) : SchemaError + Machine :=
  if disposing m then inr m else verifyStates states m.

(** The error and the machine it leaves behind: the schema is replaced before
    the names are verified. [order] is the order the new schema is ranged over
    in, [torder] the one of its Require graph. *)
Definition SetSchema (order torder : list string) (newSchema : gmap string State)
    (names : list string) (m : Machine) : option SchemaError * Machine :=
  if bool_decide (is_Some m.(m_t)) then (Some ErrTransition, m)
  else if bool_decide (size newSchema <= size (schema m))%nat then (Some ErrTooShort, m)
  else if negb (bool_decide (size newSchema = length names)) then (Some ErrLength, m)
  else
    match Schema_Parse order newSchema with
    | (_, (_ :: _) as errs) => (Some (ErrConflicts errs), m)
    | (parsed, []) =>
        let sp := m.(m_sp) in
        let m := with_sp (mkSchemaPart parsed sp.(sp_stateNames) sp.(sp_topology)
                            sp.(sp_machineTick) sp.(sp_statesVerified)) m in
        match verifyStates names m with
        | inl e => (Some e, m)
        | inr m =>
            let m := with_subs (SetClock (Mach.Clock m None) m.(m_subs)) [] m in
            let sp := m.(m_sp) in
            (None, with_sp (mkSchemaPart sp.(sp_schema) sp.(sp_stateNames)
               (Relations.NewSchema torder sp.(sp_schema) sp.(sp_stateNames) sp.(sp_topology))
               sp.(sp_machineTick) sp.(sp_statesVerified)) m)
        end
    end.

(** ** Export and import *)

Record Serialized := mkSerialized {
  ser_ID : string;
  ser_StateNames : list string;
  ser_Time : list Z;
  ser_QueueTick : Z;
  ser_MachineTick : Z;
}.

Definition Export (m : Machine) : SchemaError + (Serialized * gmap string State) :=
  if Mach.StatesVerified m
  then inr (mkSerialized m.(m_flags).(f_id) (stateNames m) (Mach.time m None) (queueTick m)
              (Mach.MachineTick m), Schema_Clone (schema m))
  else inl ErrUnverified.

(** The loop over the imported times stops at the first unknown state, with
    the previous ones already set; [data.StateNames[idx]] is not guarded. *)
Fixpoint import_times (known names : list string) (times : list Z) (st : StatePart)
  : outcome (option string * StatePart) :=
  match times, names with
  | [], _ => Ok (None, st)
  | _ :: _, [] => Panic "index out of range"
  | v :: times, state :: names =>
      if negb (contains known state) then Ok (Some state, st)
      else
        let active := if IsActiveTick v then st.(st_activeStates) ++ [state]
                      else st.(st_activeStates) in
        import_times known names times
          (mkStatePart active (<[state := v]> st.(st_clock)) st.(st_activatedAt))
  end.

Definition uint32_succ (z : Z) : Z := (z + 1) `mod` 2 ^ 32.

(** Importing into a machine that has the [MachineRestored] state adds it while
    the locks are held, and waits for itself. *)
Definition Import (data : Serialized) (m : Machine) : outcome (option SchemaError * Machine) :=
  if negb (bool_decide (m.(m_flags).(f_id) = data.(ser_ID))) then Ok (Some ErrImportId, m)
  else if negb (bool_decide (size (schema m) = length data.(ser_StateNames)))
  then Ok (Some ErrLength, m)
  else
    r ← import_times (stateNames m) data.(ser_StateNames) data.(ser_Time)
          (mkStatePart [] (clock m) (activatedAt m));
    match r with
    | (Some s, st) => Ok (Some (ErrStateUnknown s), with_st st m)
    | (None, st) =>
        let sp := m.(m_sp) in
        let m := with_sp (mkSchemaPart sp.(sp_schema) data.(ser_StateNames) sp.(sp_topology)
                   (uint32_succ data.(ser_MachineTick)) true) (with_st st m) in
        if Mach.Has1 m StateMachineRestored && negb (Mach.Backoff m)
           && bool_decide (wrap16 (queueLen m) < m.(m_flags).(f_QueueLimit))
        then Block else Ok (None, m)
    end.

(** ** Lemmas: ticks *)

Lemma tick_of_insert c s v s' : tick_of (<[s := v]> c) s' = if decide (s' = s) then v else tick_of c s'.
Proof.
  unfold tick_of. case_decide as Hs; [subst; by rewrite lookup_insert_eq|].
  by rewrite lookup_insert_ne.
Qed.

Lemma tick_of_clock_add n c s s' :
  tick_of (clock_add n c s) s' = if decide (s' = s) then wrap64 (tick_of c s + n) else tick_of c s'.
Proof. apply tick_of_insert. Qed.

Lemma fold_clock_add n l c s :
  NoDup l →
  tick_of (fold_left (clock_add n) l c) s
  = if decide (s ∈ l) then wrap64 (tick_of c s + n) else tick_of c s.
Proof.
  intros Hnd. revert c. induction Hnd as [|x l Hx Hnd IH]; intros c; [done|].
  cbn [fold_left]. rewrite IH, tick_of_clock_add. destruct (decide (s = x)) as [->|Hne].
  - by rewrite decide_False, decide_True by (done || left).
  - apply decide_ext. set_solver.
Qed.

(** How far the tick of a target state moves. *)
Definition target_delta (schema : gmap string State) (previous called : list string)
    (s : string) : option Z :=
  if negb (contains previous s) then Some 1
  else if contains called s && (schema_get schema s).(st_Multi) then Some 2 else None.

Lemma tick_target_delta schema previous called c x s :
  tick_of (tick_target schema previous called c x) s
  = match target_delta schema previous called x with
    | Some n => if decide (s = x) then wrap64 (tick_of c s + n) else tick_of c s
    | None => tick_of c s
    end.
Proof.
  unfold tick_target, target_delta. repeat case_match; try done; rewrite tick_of_clock_add;
    by case_decide; subst.
Qed.

Lemma fold_tick_target schema previous called l c s :
  NoDup l →
  tick_of (fold_left (tick_target schema previous called) l c) s
  = match target_delta schema previous called s with
    | Some n => if decide (s ∈ l) then wrap64 (tick_of c s + n) else tick_of c s
    | None => tick_of c s
    end.
Proof.
  intros Hnd. revert c. induction Hnd as [|x l Hx Hnd IH]; intros c.
  { cbn. by destruct (target_delta schema previous called s). }
  cbn [fold_left]. rewrite IH, tick_target_delta. destruct (decide (s = x)) as [->|Hne].
  - destruct (target_delta schema previous called x); [|done].
    by rewrite decide_False, decide_True by (done || left).
  - assert (Hid : match target_delta schema previous called x with
      | Some n => tick_of c s | None => tick_of c s end = tick_of c s).
    { by destruct (target_delta schema previous called x). }
    rewrite Hid. destruct (target_delta schema previous called s); [|done].
    apply decide_ext. set_solver.
Qed.

(** The ticks after a change of the active states. *)
Lemma tick_clock_eq schema previous called targets c s :
  NoDup previous → NoDup targets →
  tick_of (tick_clock schema previous called targets c) s
  = if contains targets s then
      match target_delta schema previous called s with
      | Some n => wrap64 (tick_of c s + n)
      | None => tick_of c s
      end
    else if contains previous s then wrap64 (tick_of c s + 1)
    else tick_of c s.
Proof.
  intros Hp Ht. unfold tick_clock.
  rewrite fold_clock_add by by apply NoDup_StatesDiff. rewrite fold_tick_target by done.
  destruct (contains targets s) eqn:Hct.
  - pose proof Hct as Hct'. apply contains_true in Hct'.
    rewrite decide_False by (rewrite elem_of_StatesDiff; tauto).
    case_match; [|done]. by rewrite decide_True.
  - apply contains_false in Hct. destruct (contains previous s) eqn:Hcp.
    + pose proof Hcp as Hcp'. apply contains_true in Hcp'.
      rewrite decide_True by by rewrite elem_of_StatesDiff.
      destruct (target_delta schema previous called s); [|done]. by rewrite (decide_False (P := s ∈ targets)).
    + apply contains_false in Hcp.
      rewrite decide_False by (rewrite elem_of_StatesDiff; tauto).
      case_match; [|done]. by rewrite decide_False.
Qed.

Lemma setActiveStates_active called targets m :
  disposing m = false → activeStates (setActiveStates called targets m) = targets.
Proof. unfold setActiveStates. by intros ->. Qed.

Lemma setActiveStates_clock called targets m :
  disposing m = false →
  clock (setActiveStates called targets m)
  = tick_clock (schema m) (activeStates m) called targets (clock m).
Proof. unfold setActiveStates. by intros ->. Qed.

Lemma setActiveStates_subs called targets m : m_subs (setActiveStates called targets m) = m_subs m.
Proof. unfold setActiveStates. by destruct (disposing m). Qed.

(** ** The clock invariant *)

(** Active states are listed once, and are exactly those with an odd tick. *)
Record parity (m : Machine) : Prop := {
  par_nodup : NoDup (activeStates m);
  par_tick : ∀ s, IsActiveTick (tick_of (clock m) s) = contains (activeStates m) s;
}.

Lemma parity_clock m m' :
  m'.(m_st).(st_activeStates) = m.(m_st).(st_activeStates) →
  m'.(m_st).(st_clock) = m.(m_st).(st_clock) → parity m → parity m'.
Proof. intros Ha Hc [H1 H2]. split; unfold activeStates, clock in *; rewrite ?Ha, ?Hc; auto. Qed.

Lemma IsActiveTick_wrap_add n t :
  IsActiveTick (wrap64 (t + n)) = xorb (IsActiveTick t) (IsActiveTick n).
Proof. by rewrite !IsActiveTick_odd, wrap64_odd, Z.odd_add. Qed.

(** ** Properties *)

(** Changing the active states keeps the clock invariant: a state is active
    exactly when its tick is odd. *)
Theorem setActiveStates_parity called targets m :
  NoDup targets → parity m → parity (setActiveStates called targets m).
Proof.
  intros Ht [Hnd Hp]. destruct (disposing m) eqn:Hd.
  { unfold setActiveStates. by rewrite Hd. }
  split.
  - by rewrite setActiveStates_active.
  - intros s. rewrite setActiveStates_active, setActiveStates_clock by done.
    rewrite tick_clock_eq by done. specialize (Hp s). unfold target_delta.
    destruct (contains targets s), (contains (activeStates m) s); cbn [negb];
      [destruct (contains called s && _)|..]; by rewrite ?IsActiveTick_wrap_add, Hp.
Qed.

(** Each tick moves by one when its state changes, by two when a called multi
    state stays active, and not at all otherwise; newly active states remember
    the machine time of the change, the others keep theirs. *)
Theorem setActiveStates_ticks called targets m s :
  disposing m = false → NoDup targets → NoDup (activeStates m) → is_u64 (tick_of (clock m) s) →
  let m' := setActiveStates called targets m in
  let was := contains (activeStates m) s in
  let will := contains targets s in
  tick_of (clock m') s = wrap64 (tick_of (clock m) s +
    (if xorb was will then 1
     else if will && contains called s && (schema_get (schema m) s).(st_Multi) then 2 else 0))
  ∧ (negb was && will = false → activatedAt m' !! s = activatedAt m !! s)
  ∧ (negb was && will = true → ∃ sum, MachTime.Time.Sum (Mach.time m' None) None = Ok sum
       ∧ activatedAt m' !! s = Some sum).
Proof.
  intros Hd Ht Hnd Hu m' was will. subst m' was will. split.
  - rewrite setActiveStates_clock by done. rewrite tick_clock_eq by done. unfold target_delta.
    destruct (contains targets s), (contains (activeStates m) s); cbn [negb xorb andb]; try done;
      [destruct (contains called s && _); [done|]|]; by rewrite Z.add_0_r, wrap64_id.
  - unfold setActiveStates. rewrite Hd. cbn [activatedAt with_st m_st st_activatedAt].
    set (sum := match Time.Sum _ None with Ok v => v | _ => 0 end).
    assert (Hl : fold_left (λ a s, <[s := sum]> a)
        (slicesFilter targets (λ s, negb (contains (activeStates m) s))) (activatedAt m) !! s
      = if negb (contains (activeStates m) s) && contains targets s then Some sum
        else activatedAt m !! s).
    { rewrite (set_map_lookup_gen (λ _, sum)).
      rewrite (decide_ext _ (negb (contains (activeStates m) s) && contains targets s = true)).
      - by destruct (_ && _).
      - rewrite elem_of_slicesFilter, andb_true_iff, contains_true. tauto. }
    unfold activatedAt in *. rewrite Hl. split; intros ->; [done|]. by exists sum.
Qed.

Definition ticked_machine (active : list string) (c : gmap string Z) (sch : gmap string State)
    (names : list string) : Machine :=
  mkMachine (mkFlags "m" 1000 true false false false false false false None)
    (mkSchemaPart sch names [] 0 true) (mkStatePart active c ∅)
    (mkQueuePart [] 1 0 0 0 false false) NewSubscriptionManager [] [] None.

(** [A] is on at tick 3 and multi, [B] is off at tick 2. *)
Definition machine_ab : Machine :=
  ticked_machine ["A"] {["A" := 3; "B" := 2]}
    {["A" := set_Multi zeroState true; "B" := zeroState]} ["A"; "B"].

Lemma machine_ab_parity : parity machine_ab.
Proof.
  split; [by apply NoDup_singleton|]. intros s.
  change (clock machine_ab) with (<["A" := 3]> (<["B" := 2]> (∅ : gmap string Z))).
  change (activeStates machine_ab) with ["A"]. rewrite !tick_of_insert.
  destruct (decide (s = "A")) as [->|Ha]; [done|].
  assert (contains ["A"] s = false) as -> by (apply contains_false; set_solver).
  by destruct (decide (s = "B")).
Qed.

Example setActiveStates_parity_witness :
  parity (setActiveStates ["A"; "B"] ["B"; "A"] machine_ab)
  ∧ clock (setActiveStates ["A"; "B"] ["B"; "A"] machine_ab) !! "A" = Some 5.
Proof.
  split; [|vm_compute; reflexivity]. apply setActiveStates_parity; [compute_decide|].
  apply machine_ab_parity.
Defined.

Example setActiveStates_ticks_witness :
  tick_of (clock (setActiveStates ["A"; "B"] ["B"; "A"] machine_ab)) "A" = wrap64 5.
Proof.
  destruct (setActiveStates_ticks ["A"; "B"] ["B"; "A"] machine_ab "A") as [H _];
    [reflexivity|compute_decide|compute_decide|by vm_compute|]. exact H.
Defined.

Lemma import_times_fmap known names (f : string → Z) st :
  (∀ s, s ∈ names → s ∈ known) →
  ∃ st', import_times known names (f <$> names) st = Ok (None, st')
    ∧ st'.(st_activeStates)
      = st.(st_activeStates) ++ slicesFilter names (λ s, IsActiveTick (f s))
    ∧ ∀ s, tick_of st'.(st_clock) s = if decide (s ∈ names) then f s else tick_of st.(st_clock) s.
Proof.
  revert st. induction names as [|x names IH]; intros st Hk.
  { exists st. rewrite app_nil_r. by split_and!. }
  rewrite fmap_cons. cbn [import_times].
  rewrite (proj2 (contains_true _ _)) by (apply Hk; left). cbn [negb].
  set (st1 := mkStatePart _ _ _).
  destruct (IH st1) as (st' & -> & Ha & Hc); [set_solver|]. exists st'. split_and!; [done| |].
  - rewrite Ha, slicesFilter_cons. cbn. by destruct (IsActiveTick (f x)); rewrite <- ?(assoc_L (++)).
  - intros s. rewrite Hc. cbn. rewrite tick_of_insert.
    destruct (decide (s ∈ names)) as [Hs|Hs]; [by rewrite decide_True by by right|].
    destruct (decide (s = x)) as [->|Hne]; [by rewrite decide_True by left|].
    rewrite decide_False; [done|]. set_solver.
Qed.

(** C40: Importing what another instance of the machine exported restores its ticks,
    its active states and the order of its state names, and counts one more
    machine tick, in a machine without the state [MachineRestored].  With this
    state, and when the mutation would be queued, [Import] adds it while it holds
    the locks that adding takes, and waits for ever. *)
Theorem Export_Import_roundtrip m m' data sch :
  Export m = inr (data, sch) → disposed m = false → parity m →
  (∀ s, s ∈ activeStates m → s ∈ stateNames m) →
  m'.(m_flags).(f_id) = m.(m_flags).(f_id) →
  size (schema m') = length (stateNames m) →
  (∀ s, s ∈ stateNames m → s ∈ stateNames m') →
  (StateMachineRestored ∉ stateNames m →
   ∃ m'', Import data m' = Ok (None, m'')
     ∧ stateNames m'' = stateNames m
     ∧ (∀ s, s ∈ stateNames m → tick_of (clock m'') s = tick_of (clock m) s)
     ∧ (∀ s, s ∈ activeStates m'' ↔ s ∈ activeStates m)
     ∧ Mach.MachineTick m'' = uint32_succ (Mach.MachineTick m)
     ∧ schema m'' = schema m')
  ∧ (StateMachineRestored ∈ stateNames m → disposing m' = false → Mach.Backoff m' = false →
     wrap16 (queueLen m') < m'.(m_flags).(f_QueueLimit) → Import data m' = Block).
Proof.
  intros He Hdis [_ Hpar] Hact Hid Hsize Hnames. unfold Export in He.
  destruct (Mach.StatesVerified m); [|done]. injection He as <- <-. unfold Import.
  cbn [ser_ID ser_StateNames ser_Time ser_MachineTick].
  rewrite bool_decide_eq_true_2 by done. cbn [negb].
  rewrite bool_decide_eq_true_2 by done. cbn [negb].
  unfold Mach.time. rewrite Hdis. cbn [default].
  destruct (import_times_fmap (stateNames m') (stateNames m) (tick_of (clock m))
    (mkStatePart [] (clock m') (activatedAt m')) Hnames) as (st' & -> & Ha & Hc).
  cbn [mbind outcome_bind].
  set (mi := with_sp _ _).
  split; intros Hrest; cycle 1.
  { intros Hd Hb Hq. assert (Mach.Has1 mi StateMachineRestored = true) as ->.
    { unfold Mach.Has1, Mach.Has. change (disposing mi) with (disposing m'). rewrite Hd. cbn.
      rewrite andb_true_r. by apply contains_true. }
    change (Mach.Backoff mi) with (Mach.Backoff m'). rewrite Hb.
    change (queueLen mi) with (queueLen m'). by rewrite bool_decide_eq_true_2 by exact Hq. }
  assert (Hhas : Mach.Has1 mi StateMachineRestored = false).
  { unfold Mach.Has1, Mach.Has. apply andb_false_iff. right. apply not_true_iff_false.
    rewrite slicesEvery_true. intros Hall. apply Hrest. apply (Hall StateMachineRestored). left. }
  rewrite Hhas. cbn [andb]. exists mi. split_and!; try done.
  - intros s Hs. change (clock mi) with (st_clock st'). rewrite Hc. by rewrite decide_True.
  - intros s. change (activeStates mi) with (st_activeStates st'). rewrite Ha. cbn [st_activeStates app].
    rewrite elem_of_slicesFilter, Hpar, contains_true. naive_solver.
Qed.

Example Export_Import_roundtrip_witness :
  ∃ data sch m'', Export machine_ab = inr (data, sch)
    ∧ Import data (ticked_machine [] ∅ (schema machine_ab) ["B"; "A"]) = Ok (None, m'')
    ∧ stateNames m'' = ["A"; "B"].
Proof.
  destruct (Export_Import_roundtrip machine_ab
    (ticked_machine [] ∅ (schema machine_ab) ["B"; "A"])
    (mkSerialized "m" ["A"; "B"] [3; 2] 1 0) (Schema_Clone (schema machine_ab)))
    as [H1 _].
  - vm_compute. reflexivity.
  - reflexivity.
  - apply machine_ab_parity.
  - intros s Hs. change (activeStates machine_ab) with ["A"] in Hs.
    change (stateNames machine_ab) with ["A"; "B"]. set_solver.
  - reflexivity.
  - reflexivity.
  - intros s. change (stateNames machine_ab) with ["A"; "B"]. cbn. set_solver.
  - destruct H1 as (m'' & H & Hn & _).
    { change (stateNames machine_ab) with ["A"; "B"]. compute_decide. }
    eexists _, _, m''. split; [vm_compute; reflexivity|]. split; [exact H|exact Hn].
Defined.

(** After [SetSchema] the subscriptions read a copy of the clock: a tick of the
    machine no longer reaches them. *)
Theorem SetSchema_stale_clock order torder newSchema names m m' :
  SetSchema order torder newSchema names m = (None, m') → disposing m = false →
  ∀ called targets,
    m'.(m_subs).(sm_clock) = (setActiveStates called targets m').(m_subs).(sm_clock)
    ∧ subs_clock (clock (setActiveStates called targets m')) m'.(m_subs)
      = subs_clock (clock m') m'.(m_subs).
Proof.
  unfold SetSchema. do 3 (case_bool_decide; cbn [negb]; try done).
  destruct (Schema_Parse order newSchema) as [parsed [|]]; [|done].
  destruct (verifyStates _ _) as [|mv]; [done|]. intros [= <-] Hd called targets. split.
  - by rewrite setActiveStates_subs.
  - done.
Qed.

(** A failed [SetSchema] can leave the new schema behind, with the old state
    names: the schema is replaced before the names are verified. *)
Example SetSchema_partial_failure :
  let sch : gmap string State := {["A" := zeroState; "B" := zeroState; "C" := zeroState]} in
  let m := ticked_machine [] ∅ {["A" := zeroState]} ["A"] in
  let r := SetSchema (keys sch) [] sch ["A"; "B"; "X"] m in
  r.1 = Some (ErrUndefined "X") ∧ size (schema r.2) = 3%nat ∧ stateNames r.2 = ["A"].
Proof. vm_compute. done. Qed.

(** Asking for the first queued mutation of an empty queue panics. *)
Theorem IsQueued_first_panics m mutType states noArgs strict tick isCheck :
  disposing m = false → queue m = [] →
  Mach.IsQueued m mutType states noArgs strict tick isCheck PositionFirst
  = Panic "slice bounds out of range".
Proof. intros Hd Hq. unfold Mach.IsQueued. rewrite Hd, Hq. done. Qed.
