(* ===== verification/Queue.v ===== *)
(** * Queueing mutations ([pkg/machine/machine.go])

    A mutation enters the queue at the end ([queueMutation], which hands out
    queue ticks) or at the front ([PrependMut], for auto mutations, checks,
    errors and evals, which get a token but no tick), and then the caller
    tries to process the queue.  The mutation methods are written over the
    [processQueue] they end with: the real one for calls from outside, and
    [processQueue_nested] for calls made while the queue is being processed
    (from handlers), where the flag [queueProcessing] sends them back. *)

From S2P Require Import Prelude StateList SchemaDef MachTime Mutation Relations Machine.

#[local] Open Scope Z_scope.

Definition wrap32 (z : Z) : Z := z `mod` 2 ^ 32.

(** [int32(n)] *)
Definition int32 (z : Z) : Z := (z + 2 ^ 31) `mod` 2 ^ 32 - 2 ^ 31.

(** What a method reads of an event: its ids, and [TimeBefore] of the
    transition its machine is in. *)
Record EventSrc := mkEventSrc {
  es_MachineId : string;
  es_TransitionId : string;
  es_timeBefore : option (list Z);
}.

Definition event_source (e : EventSrc) : MutSource :=
  mkMutSource e.(es_MachineId) e.(es_TransitionId)
    (match e.(es_timeBefore) with
     | Some t => match MachTime.Time.Sum t None with Ok v => v | _ => 0 end
     | None => 0
     end).

(** Errors, as far as [AddErr] tells them apart. *)
Inductive GoErr := GoError (msg : string) | ContextCanceled.

(** ** The queue's record *)

Definition push_back (mut : Mutation) (q : QueuePart) : QueuePart :=
  mkQueuePart (q.(q_queue) ++ [mut]) q.(q_queueTick) (wrap64 (q.(q_queueTicksPending) + 1))
    q.(q_queueToken) (wrap32 (Z.of_nat (length (q.(q_queue) ++ [mut]))))
    q.(q_queueProcessing) q.(q_queueRunning).

Definition push_front (isEval : bool) (mut : Mutation) (q : QueuePart) : QueuePart :=
  mkQueuePart (mut :: q.(q_queue)) q.(q_queueTick) q.(q_queueTicksPending)
    (if isEval then q.(q_queueToken) else wrap64 (q.(q_queueToken) + 1))
    (wrap32 (Z.of_nat (S (length q.(q_queue))))) q.(q_queueProcessing) q.(q_queueRunning).

(** ** Entering the queue *)

(** The assigned queue tick, or [Executed] for a detected duplicate. *)
Definition queueMutation (mutType : MutationType) (states : list string)
    (args : gmap string Val) (event : option EventSrc) : run Machine Z :=
  m ← get;
  statesParsed ← lift (Mach.mustParseStates m states);
  let multi := existsb (λ s, (schema_get (schema m) s).(st_Multi)) statesParsed in
  dup ← (if negb multi && bool_decide (args = ∅)
         then lift (Mach.detectQueueDuplicates m mutType statesParsed false)
         else mret false);
  if dup : bool then mret Executed
  else
    let mut0 := newMutation mutType (Mach.Index m statesParsed) args false false
                  (event_source <$> event) in
    let lenQ := Z.of_nat (S (length (queue m))) in
    let tick := wrap64 (wrap64 (pending m + 1) + queueTick m) in
    let mut := set_queue mut0 (queueTick m) (int32 lenQ) tick 0 (Some statesParsed) in
    modify (λ m, with_q (push_back mut m.(m_q)) m) ;;
    mret tick.

(** [Machine.processQueue] of a call made while the queue is processed. *)
Definition processQueue_nested : run Machine Z :=
  m ← get;
  if bool_decide (queueLen m = 0) || disposing m then mret Canceled else mret Queued.

Module Api.
Section api.
Context (processQueue : run Machine Z).

Definition PrependMut (mut : Mutation) : run Machine Z :=
  m ← get;
  if disposing m then mret Canceled
  else
    let isEval := bool_decide (mut.(mut_Type) = mutationEval) in
    names ← lift (IndexToStates (Mach.StateNames m) mut.(mut_Called));
    statesParsed ← lift (Mach.mustParseStates m names);
    let lenQ := Z.of_nat (S (length (queue m))) in
    let mut :=
      if isEval then mut
      else set_queue mut (queueTick m) (int32 lenQ) mut.(mut_QueueTick)
             (wrap64 (m.(m_q).(q_queueToken) + 1)) (Some statesParsed) in
    modify (λ m, with_q (push_front isEval mut m.(m_q)) m) ;;
    processQueue.

(** [uint16(m.queueLen.Load()) >= m.QueueLimit] *)
Definition over_limit (m : Machine) : bool :=
  bool_decide (m.(m_flags).(f_QueueLimit) ≤ wrap16 (queueLen m)).

(** The tail of the mutation methods, after the mutation was queued. *)
Definition process_queued (tick : Z) : run Machine Z :=
  if bool_decide (tick = Executed) then mret Executed
  else
    res ← processQueue;
    mret (if bool_decide (res = Queued) then tick else res).

Definition Add (states : list string) (args : gmap string Val) : run Machine Z :=
  m ← get;
  if disposing m || Mach.Backoff m then mret Canceled
  else if over_limit m && (negb (contains states StateException) || Mach.IsErr m)
  then mret Canceled
  else tick ← queueMutation MutationAdd states args None; process_queued tick.

Definition Add1 (state : string) (args : gmap string Val) : run Machine Z := Add [state] args.

(** Removing states that are already gone, during a transition and with an
    empty queue, is skipped. *)
Definition skip_remove (m : Machine) (states : list string) : bool :=
  bool_decide (queue m = []) && bool_decide (is_Some m.(m_t))
  && negb (Mach.Any m ((λ s, [s]) <$> states)).

Definition Remove (states : list string) (args : gmap string Val) : run Machine Z :=
  m ← get;
  if disposing m || Mach.Backoff m then mret Canceled
  else if over_limit m && (negb (contains states StateException) || negb (Mach.IsErr m))
  then mret Canceled
  else if skip_remove m states then mret Executed
  else tick ← queueMutation MutationRemove states args None; process_queued tick.

Definition Remove1 (state : string) (args : gmap string Val) : run Machine Z :=
  Remove [state] args.

Definition Set_ (states : list string) (args : gmap string Val) : run Machine Z :=
  m ← get;
  if disposing m || over_limit m then mret Canceled
  else tick ← queueMutation MutationSet states args None; process_queued tick.

Definition EvAdd (event : EventSrc) (states : list string) (args : gmap string Val)
  : run Machine Z :=
  m ← get;
  if disposing m || Mach.Backoff m || over_limit m then mret Canceled
  else tick ← queueMutation MutationAdd states args (Some event); process_queued tick.

Definition EvAdd1 (event : EventSrc) (state : string) (args : gmap string Val)
  : run Machine Z := EvAdd event [state] args.

Definition EvRemove (event : EventSrc) (states : list string) (args : gmap string Val)
  : run Machine Z :=
  m ← get;
  if disposing m || Mach.Backoff m || over_limit m then mret Canceled
  else if skip_remove m states then mret Executed
  else tick ← queueMutation MutationRemove states args (Some event); process_queued tick.

Definition EvRemove1 (event : EventSrc) (state : string) (args : gmap string Val)
  : run Machine Z := EvRemove event [state] args.

Definition Toggle (states : list string) (args : gmap string Val) : run Machine Z :=
  m ← get;
  if disposing m then mret Canceled
  else if Mach.Is m states then Remove states args else Add states args.

Definition Toggle1 (state : string) (args : gmap string Val) : run Machine Z :=
  m ← get;
  if disposing m then mret Canceled
  else if Mach.Is1 m state then Remove1 state args else Add1 state args.

Definition EvToggle (e : EventSrc) (states : list string) (args : gmap string Val)
  : run Machine Z :=
  m ← get;
  if disposing m then mret Canceled
  else if Mach.Is m states then EvRemove e states args else EvAdd e states args.

Definition EvToggle1 (e : EventSrc) (state : string) (args : gmap string Val)
  : run Machine Z :=
  m ← get;
  if disposing m then mret Canceled
  else if Mach.Is1 m state then EvRemove1 e state args else EvAdd1 e state args.

(** [err = None] is [nil]. *)
Definition AddErrState (state : string) (err : option GoErr) (args : gmap string Val)
  : run Machine Z :=
  m ← get;
  match err with
  | Some (GoError msg) =>
      if disposing m || Mach.Backoff m || over_limit m then mret Canceled
      else
        modify (with_flags (set_err msg)) ;;
        Add [state; StateException] (PassMerge [args; passException msg])
  | _ => mret Canceled
  end.

Definition AddErr (err : option GoErr) (args : gmap string Val) : run Machine Z :=
  AddErrState StateException err args.

Definition EvAddErrState (event : EventSrc) (state : string) (err : option GoErr)
    (args : gmap string Val) : run Machine Z :=
  m ← get;
  match err with
  | Some (GoError msg) =>
      if disposing m || Mach.Backoff m || over_limit m then mret Canceled
      else
        modify (with_flags (set_err msg)) ;;
        EvAdd event [state; StateException] (PassMerge [args; passException msg])
  | _ => mret Canceled
  end.

Definition EvAddErr (event : EventSrc) (err : option GoErr) (args : gmap string Val)
  : run Machine Z := EvAddErrState event StateException err args.

Definition CanAdd (states : list string) (args : gmap string Val) : run Machine Z :=
  m ← get;
  if disposing m || Mach.Backoff m then mret Canceled
  else PrependMut (newMutation MutationAdd (Mach.Index m states) args false true None).

Definition CanAdd1 (state : string) (args : gmap string Val) : run Machine Z :=
  CanAdd [state] args.

Definition CanRemove (states : list string) (args : gmap string Val) : run Machine Z :=
  m ← get;
  if disposing m || Mach.Backoff m then mret Canceled
  else PrependMut (newMutation MutationRemove (Mach.Index m states) args false true None).

(** The arguments are dropped. *)
Definition CanRemove1 (state : string) (args : gmap string Val) : run Machine Z :=
  CanRemove [state] ∅.

(** A recovered panic value, turned into an error; [None] when there was no
    panic. *)
Definition PanicToErrState (state : string) (r : option string) (args : gmap string Val)
  : run Machine () :=
  m ← get;
  if negb m.(m_flags).(f_PanicToException) || disposing m then mret ()
  else match r with
       | None => mret ()
       | Some msg => AddErrState state (Some (GoError msg)) args ;; mret ()
       end.

Definition PanicToErr (r : option string) (args : gmap string Val) : run Machine () :=
  PanicToErrState StateException r args.

End api.
End Api.
