(* ===== verification/Waits.v ===== *)
(** * Waiting on a machine ([When*], [NewStateCtx] of [machine.go])

    The first part lifts the operations of [Subscriptions] on one kind of wait
    to the whole manager ([sub_When] and so on), which both local machines and
    network machines embed.  The second part is the methods of
    [machine.Machine]: guards, parsing of state names, then the manager. *)

From S2P Require Import Prelude StateList SchemaDef MachTime Mutation Relations Subscriptions Machine Queue.

#[local] Open Scope Z_scope.

(** ** On the manager *)

(** A fresh channel was handed out, or not. *)
Definition bump (ch : Chan) (sm : Subscriptions) : nat :=
  if bool_decide (ch = Some sm.(sm_next)) then S sm.(sm_next) else sm.(sm_next).

Definition sub_When (isf : list string → bool) (done : nat → bool) (states : list string)
    (ctx : Ctx) (sm : Subscriptions) : outcome (Subscriptions * Chan) :=
  r ← When isf done states ctx sm.(sm_next) sm.(sm_when);
  let '(wi, ch) := (r : WhenIndex * Chan) in
  Ok (mkSubs (bump ch sm) sm.(sm_clock) sm.(sm_stateCtx) wi sm.(sm_time) sm.(sm_sum)
        sm.(sm_args) sm.(sm_query) sm.(sm_queue), ch).

Definition sub_WhenNot (isf : list string → bool) (notf : list string → outcome bool)
    (done : nat → bool) (states : list string) (ctx : Ctx) (sm : Subscriptions)
  : outcome (Subscriptions * Chan) :=
  r ← WhenNot isf notf done states ctx sm.(sm_next) sm.(sm_when);
  let '(wi, ch) := (r : WhenIndex * Chan) in
  Ok (mkSubs (bump ch sm) sm.(sm_clock) sm.(sm_stateCtx) wi sm.(sm_time) sm.(sm_sum)
        sm.(sm_args) sm.(sm_query) sm.(sm_queue), ch).

Definition sub_WhenTime (done : nat → bool) (clock : gmap string Z) (states : list string)
    (times : list Z) (ctx : Ctx) (sm : Subscriptions) : outcome (Subscriptions * Chan) :=
  r ← WhenTime done clock states times ctx sm.(sm_next) sm.(sm_time);
  let '(ti, ch) := (r : TimeWaits * Chan) in
  Ok (mkSubs (bump ch sm) sm.(sm_clock) sm.(sm_stateCtx) sm.(sm_when) ti sm.(sm_sum)
        sm.(sm_args) sm.(sm_query) sm.(sm_queue), ch).

Definition sub_WhenTimeSum (clock : gmap string Z) (mtime : Z) (ctx : Ctx) (sm : Subscriptions)
  : Subscriptions * Chan :=
  let '(si, ch) := WhenTimeSum clock mtime ctx sm.(sm_next) sm.(sm_sum) in
  (mkSubs (bump ch sm) sm.(sm_clock) sm.(sm_stateCtx) sm.(sm_when) sm.(sm_time) si
     sm.(sm_args) sm.(sm_query) sm.(sm_queue), ch).

Definition sub_WhenArgs (done : nat → bool) (state : string) (args : gmap string Val) (ctx : Ctx)
    (sm : Subscriptions) : Subscriptions * Chan :=
  let '(ai, ch) := WhenArgs done state args ctx sm.(sm_next) sm.(sm_args) in
  (mkSubs (bump ch sm) sm.(sm_clock) sm.(sm_stateCtx) sm.(sm_when) sm.(sm_time) sm.(sm_sum)
     ai sm.(sm_query) sm.(sm_queue), ch).

Definition sub_WhenQuery (done : nat → bool) (fn : gmap string Z → bool) (ctx : Ctx)
    (sm : Subscriptions) : Subscriptions * Chan :=
  let '(qi, ch) := WhenQuery done fn ctx sm.(sm_next) sm.(sm_query) in
  (mkSubs (bump ch sm) sm.(sm_clock) sm.(sm_stateCtx) sm.(sm_when) sm.(sm_time) sm.(sm_sum)
     sm.(sm_args) qi sm.(sm_queue), ch).

Definition sub_queue (f : nat → QueueWaits → QueueWaits * Chan) (sm : Subscriptions)
  : Subscriptions * Chan :=
  let '(ui, ch) := f sm.(sm_next) sm.(sm_queue) in
  (mkSubs (bump ch sm) sm.(sm_clock) sm.(sm_stateCtx) sm.(sm_when) sm.(sm_time) sm.(sm_sum)
     sm.(sm_args) sm.(sm_query) ui, ch).

(** ** On a machine *)

Module Wait.
Section wait.
Context (done : nat → bool) (processQueue : run Machine Z).

Definition subscribe (f : Subscriptions → outcome (Subscriptions * Chan)) : run Machine Chan :=
  m ← get;
  r ← lift (f m.(m_subs));
  let '(sm, ch) := (r : Subscriptions * Chan) in
  modify (with_subs sm []) ;;
  mret ch.

Definition When (states : list string) (ctx : Ctx) : run Machine Chan :=
  m ← get;
  if disposed m then mret None
  else
    states ← lift (Mach.mustParseStates m states);
    subscribe (sub_When (Mach.is_ m) done states ctx).

Definition When1 (state : string) (ctx : Ctx) : run Machine Chan := When [state] ctx.

Definition WhenErr (disposeCtx : Ctx) : run Machine Chan := When [StateException] disposeCtx.

Definition WhenNot (states : list string) (ctx : Ctx) : run Machine Chan :=
  m ← get;
  if disposed m then mret None
  else
    states ← lift (Mach.mustParseStates m states);
    subscribe (sub_WhenNot (Mach.is_ m) (Mach.not_ m) done states ctx).

Definition WhenNot1 (state : string) (ctx : Ctx) : run Machine Chan := WhenNot [state] ctx.

Definition WhenTime (states : list string) (times : list Z) (ctx : Ctx) : run Machine Chan :=
  m ← get;
  if disposed m then mret None
  else if negb (bool_decide (length states = length times)) || bool_decide (states = []) then
    Api.AddErr processQueue
      (Some (GoError ("whenTime: states and times must have the same length ("
                      +:+ j states +:+ ") > 0"))) ∅ ;;
    mret None
  else subscribe (sub_WhenTime done (subs_clock (clock m) m.(m_subs)) states times ctx).

Definition WhenTime1 (state : string) (ticks : Z) (ctx : Ctx) : run Machine Chan :=
  WhenTime [state] [ticks] ctx.

Definition WhenTimeSum (mtime : Z) (ctx : Ctx) : run Machine Chan :=
  m ← get;
  if disposed m then mret None
  else
    sum ← lift (MachTime.Time.Sum (Mach.Time m None) None);
    if bool_decide (mtime ≤ sum) then mret None
    else subscribe (λ sm, Ok (sub_WhenTimeSum (subs_clock (clock m) sm) mtime ctx sm)).

(** [uint64(ticks) + m.Tick(state)] *)
Definition WhenTicks (state : string) (ticks : Z) (ctx : Ctx) : run Machine Chan :=
  m ← get;
  WhenTime [state] [wrap64 (wrap64 ticks + Mach.Tick m state)] ctx.

Definition WhenNextActive (state : string) (ctx : Ctx) : run Machine Chan :=
  m ← get;
  WhenTicks state (NextActiveIn (Mach.Tick m state)) ctx.

Definition WhenQuery (clockCheck : gmap string Z → bool) (ctx : Ctx) : run Machine Chan :=
  m ← get;
  if disposed m then mret None
  else subscribe (λ sm, Ok (sub_WhenQuery done clockCheck ctx sm)).

Definition WhenQueueEnds : run Machine Chan :=
  m ← get;
  if disposed m || negb m.(m_q).(q_queueRunning) then mret None
  else subscribe (λ sm, Ok (sub_queue Subscriptions.WhenQueueEnds sm)).

Definition WhenQueue (tick : Z) : run Machine Chan :=
  m ← get;
  if disposed m || bool_decide (tick ≤ queueTick m) then mret None
  else subscribe (λ sm, Ok (sub_queue (Subscriptions.WhenQueue tick) sm)).

Definition WhenArgs (state : string) (args : gmap string Val) (ctx : Ctx) : run Machine Chan :=
  m ← get;
  if disposed m then mret None
  else
    states ← lift (Mach.mustParseStates m [state]);
    s ← lift (slice_get states 0);
    subscribe (λ sm, Ok (sub_WhenArgs done s args ctx sm)).

(** [None] is a context that is never done. *)
Definition NewStateCtx (state : string) : run Machine Ctx :=
  m ← get;
  if disposing m then mret None
  else
    lift (Mach.mustParseStates m [state]) ;;
    let '(sm, c) := Subscriptions.NewStateCtx state m.(m_subs) in
    modify (with_subs sm []) ;;
    mret (Some c).

(** [inl ()] is a context canceled already. *)
Definition NewStateCtxActive (state : string) : run Machine (() + Ctx) :=
  m ← get;
  if negb (Mach.Is1 m state) then mret (inl ()) else c ← NewStateCtx state; mret (inr c).

End wait.

Definition Url (m : Machine) (incTime : bool) : outcome string :=
  let txId := match m.(m_t) with Some t => t.(tx_Id) | None => "" end in
  sum ← MachTime.Time.Sum (Mach.Time m None) None;
  let suf := if (incTime || bool_decide (m.(m_t) = None)) && bool_decide (0 < sum)
             then "?t=" +:+ pretty sum else "" in
  Ok ("mach://" +:+ m.(m_flags).(f_id) +:+ txId +:+ suf).

End Wait.

(** ** Subscribing leaves the machine alone *)

Lemma subscribe_only f m ch m' :
  Wait.subscribe f m = Ok (ch, m') →
  ∃ sm, f m.(m_subs) = Ok (sm, ch) ∧ m' = with_subs sm [] m.
Proof.
  unfold Wait.subscribe, mbind, run_bind, get, lift, modify, mret, run_ret.
  destruct (f (m_subs m)) as [[sm c]|msg|] eqn:E; cbn; intros H; simplify_eq. by exists sm.
Qed.

(** A wait for a queue tick that was processed already is over at once; any
    other is registered under that tick. *)
Lemma WhenQueue_spec tick m :
  disposed m = false →
  Wait.WhenQueue tick m
  = if bool_decide (tick ≤ queueTick m) then Ok (None, m)
    else Ok (Some m.(m_subs).(sm_next),
             with_subs (sub_queue (Subscriptions.WhenQueue tick) m.(m_subs)).1 [] m).
Proof. intros Hd. unfold Wait.WhenQueue, mbind, run_bind, get. rewrite Hd. by case_bool_decide. Qed.
