(* ===== verification/Transition.v ===== *)
(** * Transitions ([pkg/machine/transition.go], handlers of [machine.go])

    A transition resolves the target states of a mutation, lets the
    negotiation handlers refuse it, sets the active states and runs the final
    handlers.  Handlers are user code: a binding maps method names to programs
    that call the machine, read it, and end in one of the ways the handler
    loop can observe ([prog]).  The queue is being processed all along, so
    the calls of a handler only ever queue mutations.

    [slices.Delete] on the cached target states works in place: the self
    handlers range over the slice it shrinks. *)

From S2P Require Import Prelude StateList SchemaDef MachTime Mutation Relations Subscriptions Machine Queue.

#[local] Open Scope Z_scope.

(** ** Handlers *)

(** A call of the machine's mutation methods. *)
Inductive ApiCall :=
| CallAdd (states : list string) (args : gmap string Val)
| CallRemove (states : list string) (args : gmap string Val)
| CallSet (states : list string) (args : gmap string Val)
| CallToggle (states : list string) (args : gmap string Val)
| CallEvAdd (e : EventSrc) (states : list string) (args : gmap string Val)
| CallEvRemove (e : EventSrc) (states : list string) (args : gmap string Val)
| CallAddErr (state : string) (err : option GoErr) (args : gmap string Val)
| CallCanAdd (states : list string) (args : gmap string Val)
| CallCanRemove (states : list string) (args : gmap string Val)
| CallPrepend (mut : Mutation).

(** The body of a handler: it returns, panics, overruns [HandlerTimeout] but
    ends before [HandlerDeadline], or overruns both. *)
Inductive prog :=
| HEnd (ret : bool)
| HPanic (err : string)
| HLate
| HDeadline
| HCall (c : ApiCall) (k : Z → prog)
| HRead (k : Machine → prog).

Inductive hresult := REnd (ret : bool) | RPanic (err : string) | RLate | RDeadline.

(** The call, with the [processQueue] it ends in. *)
Definition api_call (processQueue : run Machine Z) (c : ApiCall) : run Machine Z :=
  match c with
  | CallAdd l a => Api.Add processQueue l a
  | CallRemove l a => Api.Remove processQueue l a
  | CallSet l a => Api.Set_ processQueue l a
  | CallToggle l a => Api.Toggle processQueue l a
  | CallEvAdd e l a => Api.EvAdd processQueue e l a
  | CallEvRemove e l a => Api.EvRemove processQueue e l a
  | CallAddErr s e a => Api.AddErrState processQueue s e a
  | CallCanAdd l a => Api.CanAdd processQueue l a
  | CallCanRemove l a => Api.CanRemove processQueue l a
  | CallPrepend mut => Api.PrependMut processQueue mut
  end.

(** A call made by a handler: the queue is being processed. *)
Definition run_call : ApiCall → run Machine Z := api_call processQueue_nested.

(** A panic inside a called method is a panic of the handler. *)
Fixpoint run_prog (p : prog) : run Machine hresult :=
  match p with
  | HEnd b => mret (REnd b)
  | HPanic e => mret (RPanic e)
  | HLate => mret RLate
  | HDeadline => mret RDeadline
  | HCall c k => λ m,
      match run_call c m with
      | Ok (r, m') => run_prog (k r) m'
      | Panic msg => Ok (RPanic msg, m)
      | Block => Block
      end
  | HRead k => λ m, run_prog (k m) m
  end.

(** A set of bound handlers: the prefix of [BindOpts.StatePrefix] and the
    method lookup. *)
Record Binding := mkBinding {
  hb_StatePrefix : string;
  hb_method : string → option (gmap string Val → prog);
}.

(** ** Updating the running transition *)

Definition tx_set_targets (idxs : list Z) (targets : list string) (t : Transition) : Transition :=
  mkTx t.(tx_Id) t.(tx_Mutation) t.(tx_TimeBefore) t.(tx_TimeAfter) idxs t.(tx_Enters)
    t.(tx_Exits) t.(tx_IsCompleted) t.(tx_IsAccepted) t.(tx_latestHandlerIsEnter)
    t.(tx_latestHandlerIsFinal) t.(tx_latestHandlerToState) targets t.(tx_StatesBefore)
    t.(tx_ClockBefore) t.(tx_cacheActivated) t.(tx_cacheDeactivated) t.(tx_cacheSchema).
Definition tx_set_moves (exits enters : list string) (t : Transition) : Transition :=
  mkTx t.(tx_Id) t.(tx_Mutation) t.(tx_TimeBefore) t.(tx_TimeAfter) t.(tx_TargetIndexes) enters
    exits t.(tx_IsCompleted) t.(tx_IsAccepted) t.(tx_latestHandlerIsEnter)
    t.(tx_latestHandlerIsFinal) t.(tx_latestHandlerToState) t.(tx_TargetStates)
    t.(tx_StatesBefore) t.(tx_ClockBefore) t.(tx_cacheActivated) t.(tx_cacheDeactivated)
    t.(tx_cacheSchema).
Definition tx_set_accepted (b : bool) (t : Transition) : Transition :=
  mkTx t.(tx_Id) t.(tx_Mutation) t.(tx_TimeBefore) t.(tx_TimeAfter) t.(tx_TargetIndexes)
    t.(tx_Enters) t.(tx_Exits) t.(tx_IsCompleted) b t.(tx_latestHandlerIsEnter)
    t.(tx_latestHandlerIsFinal) t.(tx_latestHandlerToState) t.(tx_TargetStates)
    t.(tx_StatesBefore) t.(tx_ClockBefore) t.(tx_cacheActivated) t.(tx_cacheDeactivated)
    t.(tx_cacheSchema).
Definition tx_set_completed (t : Transition) : Transition :=
  mkTx t.(tx_Id) t.(tx_Mutation) t.(tx_TimeBefore) t.(tx_TimeAfter) t.(tx_TargetIndexes)
    t.(tx_Enters) t.(tx_Exits) true t.(tx_IsAccepted) t.(tx_latestHandlerIsEnter)
    t.(tx_latestHandlerIsFinal) t.(tx_latestHandlerToState) t.(tx_TargetStates)
    t.(tx_StatesBefore) t.(tx_ClockBefore) t.(tx_cacheActivated) t.(tx_cacheDeactivated)
    t.(tx_cacheSchema).
Definition tx_set_latest (isEnter isFinal : bool) (to : string) (t : Transition) : Transition :=
  mkTx t.(tx_Id) t.(tx_Mutation) t.(tx_TimeBefore) t.(tx_TimeAfter) t.(tx_TargetIndexes)
    t.(tx_Enters) t.(tx_Exits) t.(tx_IsCompleted) t.(tx_IsAccepted) isEnter isFinal to
    t.(tx_TargetStates) t.(tx_StatesBefore) t.(tx_ClockBefore) t.(tx_cacheActivated)
    t.(tx_cacheDeactivated) t.(tx_cacheSchema).
Definition tx_set_after (after : list Z) (t : Transition) : Transition :=
  mkTx t.(tx_Id) t.(tx_Mutation) t.(tx_TimeBefore) after t.(tx_TargetIndexes) t.(tx_Enters)
    t.(tx_Exits) t.(tx_IsCompleted) t.(tx_IsAccepted) t.(tx_latestHandlerIsEnter)
    t.(tx_latestHandlerIsFinal) t.(tx_latestHandlerToState) t.(tx_TargetStates)
    t.(tx_StatesBefore) t.(tx_ClockBefore) t.(tx_cacheActivated) t.(tx_cacheDeactivated)
    t.(tx_cacheSchema).
Definition tx_set_activated (activated deactivated : list string) (t : Transition) : Transition :=
  mkTx t.(tx_Id) t.(tx_Mutation) t.(tx_TimeBefore) t.(tx_TimeAfter) t.(tx_TargetIndexes)
    t.(tx_Enters) t.(tx_Exits) t.(tx_IsCompleted) t.(tx_IsAccepted) t.(tx_latestHandlerIsEnter)
    t.(tx_latestHandlerIsFinal) t.(tx_latestHandlerToState) t.(tx_TargetStates)
    t.(tx_StatesBefore) t.(tx_ClockBefore) activated deactivated t.(tx_cacheSchema).

(** The running transition; using it while there is none is a nil pointer. *)
Definition get_t : run Machine Transition := λ m,
  match m.(m_t) with
  | Some t => Ok (t, m)
  | None => Panic "nil pointer dereference"
  end.

Definition modify_t (f : Transition → Transition) : run Machine () :=
  modify (λ m, with_t (f <$> m.(m_t)) m).

(** ** Reading a transition *)

Module Tx.

Definition IsAuto (t : Transition) : bool := t.(tx_Mutation).(mut_IsAuto).
Definition Type_ (t : Transition) : MutationType := t.(tx_Mutation).(mut_Type).
Definition Args (t : Transition) : gmap string Val := t.(tx_Mutation).(mut_Args).
Definition TargetStates (t : Transition) : list string := t.(tx_TargetStates).
Definition StatesBefore (t : Transition) : list string := t.(tx_StatesBefore).
Definition ClockBefore (t : Transition) : gmap string Z := t.(tx_ClockBefore).

(** From the cache, or from the indexes. *)
Definition CalledStates (m : Machine) (t : Transition) : outcome (list string) :=
  match t.(tx_Mutation).(mut_cacheCalled) with
  | Some l => Ok l
  | None => IndexToStates (Mach.StateNames m) t.(tx_Mutation).(mut_Called)
  end.

Definition IsHealth (m : Machine) (t : Transition) : outcome bool :=
  c ← CalledStates m t;
  Ok (match c with
      | [s] => bool_decide (Type_ t = MutationAdd)
          && (bool_decide (s = StateHealthcheck) || bool_decide (s = StateHeartbeat))
      | _ => false
      end).

Definition ClockAfter (m : Machine) (t : Transition) : gmap string Z :=
  list_to_map (zip (Mach.StateNames m) t.(tx_TimeAfter)).

Definition TimeIndexAfter (m : Machine) (t : Transition) : TimeIndex :=
  mkTimeIndex t.(tx_TimeAfter) (Mach.StateNames m).
Definition TimeIndexBefore (m : Machine) (t : Transition) : TimeIndex :=
  mkTimeIndex t.(tx_TimeBefore) (Mach.StateNames m).
Definition TimeIndexCalled (m : Machine) (t : Transition) : outcome TimeIndex :=
  NewTimeIndex (Mach.StateNames m) t.(tx_Mutation).(mut_Called).
Definition TimeIndexTimeDiff (m : Machine) (t : Transition) : outcome TimeIndex :=
  NewTimeIndex (Mach.StateNames m)
    (MachTime.Time.NonZeroStates (MachTime.Time.DiffSince t.(tx_TimeAfter) t.(tx_TimeBefore))).

End Tx.

(** [Transition.statesToSet] *)
Definition statesToSet (m : Machine) (mutType : MutationType) (states : list string)
  : list string :=
  match mutType with
  | MutationRemove => slicesFilter (activeStates m) (λ s, negb (contains states s))
  | MutationAdd => states ++ activeStates m
  | MutationSet => states
  | mutationEval => []
  end.

(** The resolver's fields for a transition of the machine. *)
Definition resolver (m : Machine) (t : Transition) : Resolver :=
  mkResolver (schema m) (activeStates m) (disposing m) (Tx.Type_ t)
    t.(tx_Mutation).(mut_Called) (stateNames m) m.(m_sp).(sp_topology) (Tx.StatesBefore t).

Definition setupExitEnter : run Machine () :=
  m ← get;
  t ← get_t;
  called ← lift (Tx.CalledStates m t);
  let targets := Tx.TargetStates t in
  let exits := SortStates (resolver m t) (StatesDiff (activeStates m) targets) in
  let enters := slicesFilter targets (λ s,
    negb (Mach.is_ m [s])
    || ((schema_get (schema m) s).(st_Multi) && contains called s)) in
  modify_t (tx_set_moves exits enters).

Definition setupAccepted : run Machine () :=
  m ← get;
  t ← get_t;
  if bool_decide (Tx.Type_ t = MutationRemove) then mret ()
  else
    called ← lift (Tx.CalledStates m t);
    let notAccepted := StatesDiff called (Tx.TargetStates t) in
    if Tx.IsAuto t && bool_decide (length notAccepted < length called)%nat then mret ()
    else
      (if Tx.IsAuto t then modify_t (tx_set_accepted false) else mret ()) ;;
      if bool_decide (notAccepted = []) then mret ()
      else if t.(tx_Mutation).(mut_IsCheck)
              && existsb (λ s, (schema_get t.(tx_cacheSchema) s).(st_Multi)) called
      then mret ()
      else modify_t (tx_set_accepted false).

(** [tAfter[idx] += n] *)
Definition bump (index : list string) (n : Z) (r : outcome (list Z)) (name : string)
  : outcome (list Z) :=
  t ← r;
  let idx := index_of index name in
  v ← slice_get t idx;
  slice_set t idx (wrap64 (v + n)).

(** The predicted [TimeAfter]. *)
Definition predict (schema : gmap string State) (index activeStates called targets : list string)
    (tNow : list Z) : outcome (list Z) :=
  let r := fold_left (λ r name,
    if negb (contains activeStates name) then bump index 1 r name
    else if contains called name && (schema_get schema name).(st_Multi) then bump index 2 r name
    else r) targets (Ok tNow) in
  fold_left (bump index 1) (StatesDiff activeStates targets) r.

Section transition.
Context (randId : Machine → string) (done : nat → bool) (bindings : list Binding).
Context (autoOrder : Machine → list string).

Definition newTransition (mut : Mutation) : run Machine () :=
  m ← get;
  let tNow := Mach.time m None in
  let t := mkTx (randId m) mut tNow [] [] [] [] false true false false "" []
             (activeStates m) (clock m) [] [] (schema m) in
  modify (with_t (Some t)) ;;
  m ← get;
  called ← lift (Tx.CalledStates m t);
  let toSet := statesToSet m (Tx.Type_ t) called in
  targets ← lift (Relations.TargetStates (resolver m t) toSet);
  tAfter ← (if mut.(mut_IsCheck) then mret tNow
            else lift (predict (schema m) (stateNames m) (activeStates m) called targets tNow));
  modify_t (λ t, tx_set_after tAfter (tx_set_targets (Mach.Index m targets) targets t)) ;;
  setupAccepted ;;
  t ← get_t;
  if t.(tx_IsAccepted) then setupExitEnter else mret ().

(** ** Panics of handlers *)

(** The final handlers from the failed one on did not run: their states are
    rolled back. *)
Fixpoint rollback (isEnter : bool) (toState : string) (found : bool) (finals active : list string)
  : list string :=
  match finals with
  | [] => active
  | s :: finals =>
      let found := found || bool_decide (toState = s) in
      let active :=
        if negb found then active
        else if isEnter then slicesWithout active s
        else active ++ [s] in
      rollback isEnter toState found finals active
  end.

Definition recoverFinalPhase : run Machine () :=
  m ← get;
  t ← get_t;
  let active := rollback t.(tx_latestHandlerIsEnter) t.(tx_latestHandlerToState) false
    (t.(tx_Exits) ++ t.(tx_Enters)) (activeStates m) in
  called ← lift (Tx.CalledStates m t);
  modify (setActiveStates called active).

(** The goroutine of the handler loop has ended; only the last step starts a
    new one. *)
Definition recoverToErr (err : string) : run Machine () :=
  m ← get;
  if disposing m then mret ()
  else
    modify (with_flags (set_panicCaught true)) ;;
    t ← get_t;
    if Mutation_IsCalled t.(tx_Mutation) (Mach.Index1 m StateException) then mret ()
    else
      modify (with_flags (set_err err)) ;;
      (if t.(tx_latestHandlerIsFinal) then recoverFinalPhase else mret ()) ;;
      modify_t (λ t, tx_set_completed (tx_set_accepted false t)) ;;
      let src := mkMutSource m.(m_flags).(f_id) t.(tx_Id) 0 in
      let errMut := newMutation MutationAdd (Mach.Index m [StateException])
                      (passException err) false false (Some src) in
      Api.PrependMut processQueue_nested errMut ;;
      modify (with_flags (set_loop true)).

(** ** Calling handlers *)

Definition isFinalName (name : string) : bool := HasSuffix name SuffixState || HasSuffix name SuffixEnd.

(** The queue is dropped together with its pending ticks. *)
Definition drop_queue (q : QueuePart) : QueuePart :=
  mkQueuePart [] q.(q_queueTick) 0 q.(q_queueToken) 0 q.(q_queueProcessing) q.(q_queueRunning).

(** A handler that overran its deadline: the queue is dropped and the error
    queued. *)
Definition handlerDeadline (name : string) : run Machine () :=
  m ← get;
  t ← get_t;
  modify (λ m, with_flags (set_loop true) (with_q (drop_queue m.(m_q)) m)) ;;
  let e := mkEventSrc m.(m_flags).(f_id) t.(tx_Id) (Some t.(tx_TimeBefore)) in
  let err := "handler timeout: " +:+ name in
  Api.EvAddErr processQueue_nested e (Some (GoError err)) (passException err) ;;
  modify (with_flags (set_backoff true)).

(** [ProcessWhenArgs], after all handlers of the event. *)
Definition handlersDone (name : string) (args : gmap string Val) : run Machine () :=
  modify (λ m,
    let '(ai, chs) := ProcessWhenArgs done name args m.(m_subs).(sm_args) in
    let sm := m.(m_subs) in
    with_subs (mkSubs sm.(sm_next) sm.(sm_clock) sm.(sm_stateCtx) sm.(sm_when) sm.(sm_time)
                 sm.(sm_sum) ai sm.(sm_query) sm.(sm_queue)) chs m).

(** One bound method: [Some] result stops the loop over the bindings. *)
Definition callHandler (name : string) (args : gmap string Val)
    (body : gmap string Val → prog) : run Machine (option Z) :=
  m ← get;
  if negb m.(m_flags).(f_loop) then block
  else
    t ← get_t;
    r ← (if t.(tx_IsAccepted) && negb t.(tx_IsCompleted) then run_prog (body args)
         else mret (REnd false));
    let refused (ret : bool) := if isFinalName name || ret then None else Some Canceled in
    match r with
    | REnd ret => mret (refused ret)
    | RPanic err =>
        if m.(m_flags).(f_PanicToException)
        then modify (with_flags (set_loop false)) ;; recoverToErr err ;; mret (refused false)
        else panic err
    | RLate => mret (Some Canceled)
    | RDeadline => handlerDeadline name ;; mret (Some Canceled)
    end.

Fixpoint processHandlers_loop (name : string) (args : gmap string Val) (hs : list Binding)
    (handlerCalled : bool) : run Machine (Z * bool) :=
  match hs with
  | [] => handlersDone name args ;; mret (Executed, handlerCalled)
  | h :: hs =>
      m ← get;
      if disposing m then handlersDone name args ;; mret (Executed, handlerCalled)
      else if negb (HasPrefix name h.(hb_StatePrefix))
      then processHandlers_loop name args hs handlerCalled
      else
        match h.(hb_method) (TrimPrefix name h.(hb_StatePrefix)) with
        | None => processHandlers_loop name args hs handlerCalled
        | Some body =>
            r ← callHandler name args body;
            match r with
            | Some res => mret (res, true)
            | None => processHandlers_loop name args hs true
            end
        end
  end.

Definition processHandlers (name : string) (args : gmap string Val) : run Machine (Z * bool) :=
  m ← get;
  if disposing m then mret (Canceled, false)
  else processHandlers_loop name args bindings false.

Definition handle (name : string) (args : gmap string Val) (isFinal isEnter : bool)
  : run Machine (Z * bool) :=
  m ← get;
  if disposing m then mret (Canceled, false)
  else
    modify_t (λ t, tx_set_latest isEnter isFinal t.(tx_latestHandlerToState) t) ;;
    r ← processHandlers name args;
    m ← get;
    if m.(m_flags).(f_panicCaught)
    then modify (with_flags (set_panicCaught false)) ;; mret (Canceled, r.2)
    else mret r.

(** [t.latestHandlerToState = to], then [handle]. *)
Definition emitHandler (to : string) (isFinal isEnter : bool) (event : string)
    (args : gmap string Val) : run Machine Z :=
  modify_t (λ t, tx_set_latest t.(tx_latestHandlerIsEnter) t.(tx_latestHandlerIsFinal) to t) ;;
  r ← handle event args isFinal isEnter;
  mret r.1.

(** ** Negotiation *)

(** Partial acceptance of an auto transition: [s] leaves the target states. *)
Definition dropTarget (s : string) : run Machine () :=
  t ← get_t;
  let targets := Tx.TargetStates t in
  let idx := index_of targets s in
  idxs ← lift (slices_delete t.(tx_TargetIndexes) idx (idx + 1));
  targets ← lift (slices_delete targets idx (idx + 1));
  modify_t (tx_set_targets idxs targets).

Definition isAutoState (t : Transition) (s : string) : bool :=
  (schema_get t.(tx_cacheSchema) s).(st_Auto).

Fixpoint emitExitEvents (exits : list string) : run Machine Z :=
  match exits with
  | [] => mret Executed
  | s :: exits =>
      t ← get_t;
      ret ← emitHandler "" false false (s +:+ SuffixExit) (Tx.Args t);
      if bool_decide (ret = Canceled) then
        if Tx.IsAuto t && isAutoState t s then dropTarget s ;; emitExitEvents exits
        else mret ret
      else emitExitEvents exits
  end.

Fixpoint emitEnterEvents (enters : list string) : run Machine Z :=
  match enters with
  | [] => mret Executed
  | s :: enters =>
      t ← get_t;
      ret ← emitHandler s false true (s +:+ SuffixEnter) (Tx.Args t);
      if bool_decide (ret = Canceled) then
        if Tx.IsAuto t && isAutoState t s then dropTarget s ;; emitEnterEvents enters
        else mret ret
      else emitEnterEvents enters
  end.

(** [n] more positions from [i] on of the slice being ranged over: positions
    past its shrunk end read as the empty string. The last result counts. *)
Fixpoint emitSelfEvents (n i : nat) (ret : Z) : run Machine Z :=
  match n with
  | O => mret ret
  | S n =>
      m ← get;
      t ← get_t;
      let s := default "" (Tx.TargetStates t !! i) in
      if negb (Mach.Is m [s]) then emitSelfEvents n (S i) ret
      else
        ret ← emitHandler s false false (s +:+ s) (Tx.Args t);
        if bool_decide (ret = Canceled) then
          if Tx.IsAuto t && isAutoState t s then dropTarget s ;; emitSelfEvents n (S i) ret
          else mret ret
        else emitSelfEvents n (S i) ret
  end.

(** The handlers between a state before and a state after; refused auto states
    leave a copy of the target states, where they may be missing already. *)
Definition dropNewAfter (s : string) : run Machine () :=
  t ← get_t;
  let newAfter := Tx.TargetStates t in
  let idx := index_of newAfter s in
  if bool_decide (idx = -1) then mret ()
  else
    idxs ← lift (slices_delete t.(tx_TargetIndexes) idx (idx + 1));
    newAfter ← lift (slices_delete newAfter idx (idx + 1));
    modify_t (tx_set_targets idxs newAfter).

Fixpoint emitStateStateEvents (pairs : list (string * string)) : run Machine Z :=
  match pairs with
  | [] => mret Executed
  | (b, a) :: pairs =>
      if bool_decide (b = a) then emitStateStateEvents pairs
      else
        t ← get_t;
        ret ← emitHandler "" false false (b +:+ a) (Tx.Args t);
        if bool_decide (ret = Canceled) then
          if Tx.IsAuto t && isAutoState t a then dropNewAfter a ;; emitStateStateEvents pairs
          else mret ret
        else emitStateStateEvents pairs
  end.

(** ** Final handlers *)

Fixpoint emitFinalEvents (enters finals : list string) : run Machine Z :=
  match finals with
  | [] => mret Executed
  | s :: finals =>
      t ← get_t;
      let isEnter := contains enters s in
      let name := s +:+ (if isEnter then SuffixState else SuffixEnd) in
      ret ← emitHandler (if isEnter then s else "") true isEnter name (Tx.Args t);
      if bool_decide (ret = Canceled) then mret ret else emitFinalEvents enters finals
  end.

(** Steps are taken one after the other until one cancels. *)
Definition unless_canceled (result : Z) (next : run Machine Z) : run Machine Z :=
  if bool_decide (result = Canceled) then mret result else next.

(** The negotiation phase, when handlers are bound. *)
Definition negotiate (result : Z) : run Machine Z :=
  result ← unless_canceled result (t ← get_t; emitExitEvents t.(tx_Exits));
  result ← unless_canceled result (t ← get_t; emitEnterEvents t.(tx_Enters));
  result ← unless_canceled result
    (t ← get_t;
     if bool_decide (Tx.Type_ t = MutationRemove) then mret result
     else emitSelfEvents (length (Tx.TargetStates t)) 0 Executed);
  result ← unless_canceled result
    (t ← get_t;
     emitStateStateEvents (Tx.StatesBefore t ≫= λ b, (λ a, (b, a)) <$> Tx.TargetStates t));
  t ← get_t;
  let result := if Tx.IsAuto t && bool_decide (t.(tx_TargetIndexes) = []) then Canceled
                else result in
  unless_canceled result
    (emitHandler StateAny false true (StateAny +:+ SuffixEnter) (Tx.Args t)).

(** Partially accepted auto transitions resolve their target states again. *)
Definition resolveAgain : run Machine () :=
  m ← get;
  t ← get_t;
  called ← lift (Tx.CalledStates m t);
  let rejected := StatesDiff called (Tx.TargetStates t) in
  let calledClean := StatesDiff called rejected in
  let toSet := statesToSet m MutationAdd calledClean in
  targets ← lift (Relations.TargetStates (resolver m t) toSet);
  modify_t (tx_set_targets (Mach.Index m targets) targets) ;;
  setupExitEnter.

(** [ProcessStateCtx]: the contexts of the changed states are cancelled. *)
Definition cancelStateCtx (activated deactivated : list string) : run Machine () :=
  modify (λ m,
    let '(sc, cancels) := ProcessStateCtx activated deactivated m.(m_subs).(sm_stateCtx) in
    let sm := m.(m_subs) in
    with_subs (mkSubs sm.(sm_next) sm.(sm_clock) sc sm.(sm_when) sm.(sm_time) sm.(sm_sum)
                 sm.(sm_args) sm.(sm_query) sm.(sm_queue)) cancels m).

(** Setting the active states and running the final handlers. *)
Definition apply_targets (called : list string) : run Machine Z :=
  t ← get_t;
  modify (setActiveStates called (Tx.TargetStates t)) ;;
  m ← get;
  let before := Tx.StatesBefore t in
  let activated := if Tx.IsAuto t then StatesDiff (activeStates m) before else t.(tx_Enters) in
  let deactivated := if Tx.IsAuto t then StatesDiff before (activeStates m) else t.(tx_Exits) in
  modify_t (tx_set_activated activated deactivated) ;;
  cancelStateCtx activated deactivated ;;
  m ← get;
  modify_t (tx_set_after (Mach.time m None)) ;;
  result ← (if m.(m_flags).(f_handlerLoopRunning) || HasWhenArgs m.(m_subs).(sm_args)
            then emitFinalEvents t.(tx_Enters) (t.(tx_Exits) ++ t.(tx_Enters))
            else mret Executed);
  (if bool_decide (result = Canceled) then recoverFinalPhase else mret ()) ;;
  mret result.

(** Queueing the auto states after a change. *)
Definition queueAuto (hasStateChanged : bool) : run Machine () :=
  m ← get;
  t ← get_t;
  health ← lift (Tx.IsHealth m t);
  if negb (disposing m) && hasStateChanged && negb (Tx.IsAuto t) && negb health then
    match NewAutoMutation (autoOrder m) (resolver m t) with
    | Some (mut, _) => Api.PrependMut processQueue_nested mut ;; mret ()
    | None => mret ()
    end
  else mret ().

(** The phase that sets the states, unless the transition is canceled, and
    queues the auto states. *)
Definition settle (called : list string) (timeBefore : list Z) (result : Z) : run Machine Z :=
  r ← (if negb (bool_decide (result = Canceled)) then
         result ← apply_targets called;
         m ← get;
         same ← lift (Mach.IsTime m timeBefore None);
         mret (result, negb same)
       else
         m ← get;
         modify_t (tx_set_after (Mach.time m None)) ;;
         mret (result, false));
  let '(result, hasStateChanged) := (r : Z * bool) in
  m ← get;
  t ← get_t;
  result ← (if negb (bool_decide (result = Canceled)) && m.(m_flags).(f_handlerLoopRunning)
            then emitHandler StateAny true true (StateAny +:+ SuffixState) (Tx.Args t)
            else mret result);
  (if bool_decide (result = Canceled) then modify_t (tx_set_accepted false)
   else queueAuto hasStateChanged) ;;
  mret result.

(** The second half of [emitEvents] for mutations that are not checks. *)
Definition execute (called : list string) (result : Z) : run Machine Z :=
  t ← get_t;
  (if Tx.IsAuto t then resolveAgain else mret ()) ;;
  settle called t.(tx_TimeBefore) result.

(** What [emitEvents] answers for a transition that was not canceled. *)
Definition final_result (called : list string) : run Machine Z :=
  m ← get;
  t ← get_t;
  if bool_decide (Tx.Type_ t = MutationRemove) then
    none ← lift (Mach.Not m called);
    mret (if none : bool then Executed else Canceled)
  else if Tx.IsAuto t
          && bool_decide (length (Tx.StatesBefore t) < length (Tx.TargetStates t))%nat
  then mret Executed
  else if negb (Tx.IsAuto t) && Mach.Is m (Tx.TargetStates t) then mret Executed
  else mret Canceled.

Definition emitEvents : run Machine Z :=
  m ← get;
  t ← get_t;
  called ← lift (Tx.CalledStates m t);
  let result := if t.(tx_IsAccepted) then Executed else Canceled in
  result ← (if m.(m_flags).(f_handlerLoopRunning) then negotiate result else mret result);
  result ←
    (if negb t.(tx_Mutation).(mut_IsCheck) then execute called result
     else
       (if bool_decide (result = Canceled) then modify_t (tx_set_accepted false) else mret ()) ;;
       mret result);
  modify_t tx_set_completed ;;
  if bool_decide (result = Canceled) then mret Canceled
  else if t.(tx_Mutation).(mut_IsCheck) then mret result
  else final_result called.

End transition.
