(* ===== verification/Run.v ===== *)
(** * Processing the queue ([Machine.processQueue])

    The loop pops one mutation after the other and runs its transition, with
    the subscriptions of accepted ones.  Handlers may queue more mutations
    while it runs, so the loop takes fuel: [Block] when it runs out.  A context
    that is done skips its mutation, and an eval runs in place. *)

From S2P Require Import Prelude StateList SchemaDef MachTime Mutation Relations Subscriptions Machine Queue Transition.

#[local] Open Scope Z_scope.

Section run.
Context (randId : Machine → string) (done : nat → bool) (bindings : list Binding).
Context (autoOrder : Machine → list string) (evals : string → prog).

(** [m.queue = m.queue[1:]] and the queue tick of ticking mutations. *)
Definition pop_front (mut : Mutation) (rest : list Mutation) (q : QueuePart) : QueuePart :=
  mkQueuePart rest
    (if bool_decide (0 < mut.(mut_QueueTick)) then wrap64 (q.(q_queueTick) + 1) else q.(q_queueTick))
    (if bool_decide (0 < mut.(mut_QueueTick)) then wrap64 (q.(q_queueTicksPending) - 1)
     else q.(q_queueTicksPending))
    q.(q_queueToken) (wrap32 (Z.of_nat (length rest))) q.(q_queueProcessing) true.

Definition set_processing (processing running : bool) (m : Machine) : Machine :=
  with_q (mkQueuePart m.(m_q).(q_queue) m.(m_q).(q_queueTick) m.(m_q).(q_queueTicksPending)
            m.(m_q).(q_queueToken) m.(m_q).(q_queueLen) processing running) m.

(** [Machine.processSubscriptions] *)
Definition processSubscriptions : run Machine () :=
  m ← get;
  t ← get_t;
  r ← lift (process_all done (clock m) (Tx.ClockBefore t) (queueTick m) t.(tx_cacheActivated)
              t.(tx_cacheDeactivated) m.(m_subs));
  let '(sm, chs) := (r : Subscriptions * list nat) in
  modify (with_subs sm chs).

(** Answering a check: [args.Canceled] is set to whether the transition was
    accepted. *)
Definition answerCheck : run Machine () :=
  t ← get_t;
  match (Tx.Args t) !! checkKey with
  | Some (VCheck ch) => modify (with_check ch t.(tx_IsAccepted))
  | _ => mret ()
  end.

(** A panic of the evaluated function is not recovered here. *)
Definition runEval (mut : Mutation) : run Machine () :=
  r ← run_prog (evals mut.(mut_evalSource));
  match r with RPanic msg => panic msg | _ => mret () end.

(** One popped mutation: the result it adds, if any. *)
Definition runMutation (mut : Mutation) : run Machine (option Z) :=
  if match mut.(mut_ctx) with Some c => done c | None => false end
  then mret (Some Executed)
  else if bool_decide (mut.(mut_Type) = mutationEval) then runEval mut ;; mret None
  else
    newTransition randId mut ;;
    res ← emitEvents done bindings autoOrder;
    t ← get_t;
    (if mut.(mut_IsCheck) then answerCheck
     else if t.(tx_IsAccepted) then processSubscriptions else mret ()) ;;
    mret (Some res).

(** The loop, with the results so far; [None] for the early return while
    disposing. *)
Fixpoint queueLoop (fuel : nat) (ret : list Z) : run Machine (option (list Z)) :=
  m ← get;
  if negb (bool_decide (0 < queueLen m)) then mret (Some ret)
  else match fuel with
  | O => block
  | S fuel =>
      if disposing m then mret None
      else match queue m with
      | [] => mret None
      | mut :: rest =>
          modify (λ m, with_q (pop_front mut rest m.(m_q)) m) ;;
          r ← runMutation mut;
          queueLoop fuel (ret ++ match r with Some v => [v] | None => [] end)
      end
  end.

Definition queueEnds : run Machine () :=
  modify (λ m,
    let '(ui, chs) := ProcessWhenQueueEnds m.(m_subs).(sm_queue) in
    let sm := m.(m_subs) in
    with_subs (mkSubs sm.(sm_next) sm.(sm_clock) sm.(sm_stateCtx) sm.(sm_when) sm.(sm_time)
                 sm.(sm_sum) sm.(sm_args) sm.(sm_query) ui) chs m).

Definition processQueue (fuel : nat) : run Machine Z :=
  m ← get;
  if bool_decide (queueLen m = 0) || disposing m then mret Canceled
  else if m.(m_q).(q_queueProcessing) then mret Queued
  else
    modify (set_processing true false) ;;
    r ← queueLoop fuel [];
    match r with
    | None => mret Canceled
    | Some ret =>
        modify (λ m, set_processing false false (with_t None m)) ;;
        queueEnds ;;
        mret (match ret with [] => Canceled | v :: _ => v end)
    end.

(** The mutation methods, called from outside. *)
Definition Add (fuel : nat) := Api.Add (processQueue fuel).
Definition Remove (fuel : nat) := Api.Remove (processQueue fuel).
Definition Set_ (fuel : nat) := Api.Set_ (processQueue fuel).
Definition Toggle (fuel : nat) := Api.Toggle (processQueue fuel).
Definition AddErr (fuel : nat) := Api.AddErr (processQueue fuel).
Definition CanAdd (fuel : nat) := Api.CanAdd (processQueue fuel).
Definition CanRemove (fuel : nat) := Api.CanRemove (processQueue fuel).
Definition PrependMut (fuel : nat) := Api.PrependMut (processQueue fuel).

(** Calls made while the queue is processed come back at once. *)
Lemma processQueue_processing fuel m :
  m.(m_q).(q_queueProcessing) = true → processQueue fuel m = processQueue_nested m.
Proof.
  intros Hp. unfold processQueue, processQueue_nested, mbind, run_bind, get. rewrite Hp.
  by destruct (_ || _).
Qed.

End run.
