(* ===== verification/QueueSpec.v ===== *)
(** * What the queue promises

    Queue ticks number the mutations that entered through the mutation
    methods: [queue_ok] says which number each queued one carries, and the
    theorems say that [queueMutation] hands out the next number (or detects a
    duplicate) and that taking a mutation off the queue advances the queue's
    tick to exactly the number it was promised. *)

From S2P Require Import Prelude StateList SchemaDef MachTime Mutation Relations Subscriptions Machine Queue Transition Run.

#[local] Open Scope Z_scope.

(** Mutations that move the queue tick; prepended ones do not. *)
Definition ticking (mut : Mutation) : Prop := 0 < mut.(mut_QueueTick).

#[export] Instance ticking_dec mut : Decision (ticking mut).
Proof. unfold ticking. apply _. Defined.

Record queue_ok (q : QueuePart) : Prop := {
  qo_ticks : mut_QueueTick <$> filter ticking q.(q_queue)
             = seqZ (q.(q_queueTick) + 1) q.(q_queueTicksPending);
  qo_pending : 0 ≤ q.(q_queueTicksPending);
  qo_tick : 1 ≤ q.(q_queueTick);
  qo_max : q.(q_queueTick) + q.(q_queueTicksPending) < two64;
}.

Lemma queue_ok_push_back mut q :
  queue_ok q → q.(q_queueTick) + q.(q_queueTicksPending) + 1 < two64 →
  mut.(mut_QueueTick) = q.(q_queueTick) + q.(q_queueTicksPending) + 1 →
  queue_ok (push_back mut q).
Proof.
  intros [Ht Hp H1 _] Hmax Hm.
  assert (Hw : wrap64 (q_queueTicksPending q + 1) = q_queueTicksPending q + 1).
  { apply wrap64_id. unfold is_u64. lia. }
  split; cbn; rewrite ?Hw; try lia.
  rewrite filter_app, fmap_app, Ht, (filter_cons_True _ mut) by (unfold ticking; lia).
  rewrite seqZ_app by lia. f_equal. rewrite seqZ_cons by lia. cbn. f_equal. lia.
Qed.

Lemma queue_ok_push_front isEval mut q :
  queue_ok q → mut.(mut_QueueTick) = 0 → queue_ok (push_front isEval mut q).
Proof.
  intros [Ht Hp H1 Hmax] Hm. split; [|done..].
  change (q_queue (push_front isEval mut q)) with (mut :: q_queue q).
  by rewrite filter_cons_False by (unfold ticking; lia).
Qed.

(** The first promised tick of a queue that starts with a ticking mutation. *)
Lemma queue_ok_head mut rest q :
  queue_ok q → q.(q_queue) = mut :: rest → ticking mut →
  mut.(mut_QueueTick) = q.(q_queueTick) + 1 ∧ 0 < q.(q_queueTicksPending)
  ∧ mut_QueueTick <$> filter ticking rest
    = seqZ (q.(q_queueTick) + 2) (q.(q_queueTicksPending) - 1).
Proof.
  intros [Ht Hp _ _] Hq Hm. rewrite Hq, filter_cons_True in Ht by done.
  destruct (decide (q_queueTicksPending q = 0)) as [H0|H0].
  { rewrite H0 in Ht. done. }
  rewrite (seqZ_cons _ (q_queueTicksPending q)) in Ht by lia. rewrite fmap_cons in Ht.
  injection Ht as H1 H2. split_and!; [done|lia|]. rewrite H2. f_equal; lia.
Qed.

Lemma queue_ok_pop_front mut rest q :
  queue_ok q → q.(q_queue) = mut :: rest → 0 ≤ mut.(mut_QueueTick) →
  queue_ok (pop_front mut rest q)
  ∧ (pop_front mut rest q).(q_queueTick)
    = if decide (ticking mut) then mut.(mut_QueueTick) else q.(q_queueTick).
Proof.
  intros Hok Hq H0. pose proof Hok as [Ht Hp H1 Hmax]. destruct (decide (ticking mut)) as [Hm|Hm].
  - destruct (queue_ok_head mut rest q Hok Hq Hm) as (Hh & Hpos & Hrest).
    unfold pop_front. rewrite !bool_decide_eq_true_2 by done.
    rewrite !wrap64_id by (unfold is_u64; lia). cbn. split; [|lia].
    split; cbn; try lia. rewrite Hrest. f_equal; lia.
  - unfold pop_front. rewrite !bool_decide_eq_false_2 by done. cbn. split; [|done].
    rewrite Hq, filter_cons_False in Ht by done. split; cbn; done || lia.
Qed.

(** The last tick promised stays the same. *)
Lemma pop_front_total mut rest q :
  queue_ok q → q.(q_queue) = mut :: rest →
  (pop_front mut rest q).(q_queueTick) + (pop_front mut rest q).(q_queueTicksPending)
  = q.(q_queueTick) + q.(q_queueTicksPending).
Proof.
  intros Hok Hq. pose proof Hok as [Ht Hp H1 Hmax]. destruct (decide (ticking mut)) as [Hm|Hm].
  - destruct (queue_ok_head mut rest q Hok Hq Hm) as (_ & Hpos & _).
    unfold pop_front. rewrite !bool_decide_eq_true_2 by done.
    rewrite !wrap64_id by (unfold is_u64; lia). cbn. lia.
  - unfold pop_front. by rewrite !bool_decide_eq_false_2 by done.
Qed.

(** What a duplicate is: the same kind of mutation, without arguments, queued
    with exactly these states. *)
Definition duplicate_of (m : Machine) (ty : MutationType) (states : list string)
    (mut : Mutation) : Prop :=
  mut ∈ queue m ∧ mut.(mut_Type) = ty ∧ mut.(mut_Args) = ∅ ∧ mut.(mut_IsCheck) = false
  ∧ length mut.(mut_Called) = length states
  ∧ ∀ i, i ∈ Mach.Index m states → i ∈ mut.(mut_Called).

Lemma detectQueueDuplicates_true m ty states :
  Mach.detectQueueDuplicates m ty states false = Ok true → ∃ mut, duplicate_of m ty states mut.
Proof.
  unfold Mach.detectQueueDuplicates, Mach.IsQueued. destruct (disposing m); [done|].
  cbn [mbind outcome_bind]. destruct (find_first _ _) as [[i mut]|] eqn:Hf; [|done]. intros _.
  exists mut. apply find_first_some in Hf as [Hin Hm]. cbn [snd] in Hm.
  apply elem_of_lookup_imap in Hin as (k & y & Hp & Hy). injection Hp as -> ->.
  unfold Mach.queued_match in Hm. rewrite !andb_true_iff in Hm.
  destruct Hm as [[[[[_ Hc] Ht] Ha] Hl] He]. unfold duplicate_of. split_and!.
  - by eapply list_elem_of_lookup_2.
  - by apply bool_decide_eq_true in Ht.
  - rewrite orb_false_r in Ha. by apply bool_decide_eq_true in Ha.
  - by apply eqb_prop in Hc.
  - by apply bool_decide_eq_true in Hl.
  - by apply slicesEvery_true.
Qed.

(** ** Properties *)

(** A mutation method either finds the same mutation queued already, without
    arguments, and changes nothing, or appends the mutation and promises it
    the next free queue tick, a number no result code uses. *)
Theorem queueMutation_spec ty states args ev m r m' :
  queue_ok m.(m_q) → queueTick m + pending m + 1 < two64 →
  queueMutation ty states args ev m = Ok (r, m') →
  ∃ parsed, Mach.mustParseStates m states = Ok parsed ∧
  ((r = Executed ∧ m' = m ∧ args = ∅ ∧ ∃ mut, duplicate_of m ty parsed mut)
   ∨ (r = queueTick m + pending m + 1 ∧ Queued ≤ r ∧ ∃ mut,
       m' = with_q (push_back mut m.(m_q)) m
       ∧ mut.(mut_Type) = ty ∧ mut.(mut_Called) = Mach.Index m parsed ∧ mut.(mut_Args) = args
       ∧ mut.(mut_IsCheck) = false ∧ mut.(mut_QueueTick) = r
       ∧ mut.(mut_cacheCalled) = Some parsed ∧ queue_ok m'.(m_q))).
Proof.
  intros Hok Hmax. unfold queueMutation. intros (m0 & m1 & [= <- <-] & H)%run_bind_ok.
  apply run_bind_ok in H as (parsed & m1 & Hl & H). unfold lift in Hl.
  apply outcome_bind_ok in Hl as (p & Hp & Heq). injection Heq as <- <-. exists p. split; [done|].
  apply run_bind_ok in H as (dup & m1 & Hd & H).
  assert (m1 = m ∧ (dup = true → args = ∅ ∧ ∃ mut, duplicate_of m ty p mut)) as [-> Hdup].
  { destruct (_ && _) eqn:Hc; [|by injection Hd as <- <-].
    apply andb_true_iff in Hc as [_ Ha%bool_decide_eq_true]. unfold lift in Hd.
    apply outcome_bind_ok in Hd as (b & Hb & Heq). injection Heq as <- <-. split; [done|]. intros ->.
    split; [done|]. by apply detectQueueDuplicates_true. }
  destruct dup.
  { injection H as <- <-. left. destruct (Hdup eq_refl) as [-> Hm]. auto. }
  right. injection H as <- <-. pose proof Hok as [_ Hpend Htick _].
  assert (Hw : wrap64 (wrap64 (pending m + 1) + queueTick m) = queueTick m + pending m + 1).
  { rewrite wrap64_add_l, wrap64_id; [lia|]. unfold is_u64, pending, queueTick in *. lia. }
  rewrite Hw. split_and!; [done|unfold Queued, queueTick, pending in *; lia|]. eexists. split_and!; try done.
  cbn. apply queue_ok_push_back; done.
Qed.

(** Taking a mutation off the queue moves the queue tick to the one promised
    to the mutation, and leaves it alone for mutations without a promise; the
    ticks of the mutations left stay consecutive. *)
Theorem pop_front_tick mut rest q :
  queue_ok q → q.(q_queue) = mut :: rest → 0 ≤ mut.(mut_QueueTick) →
  queue_ok (pop_front mut rest q)
  ∧ (pop_front mut rest q).(q_queueTick)
    = (if decide (ticking mut) then mut.(mut_QueueTick) else q.(q_queueTick))
  ∧ (pop_front mut rest q).(q_queue) = rest.
Proof. intros Hok Hq H0. destruct (queue_ok_pop_front mut rest q Hok Hq H0). done. Qed.

(** After a missed handler deadline the queue is dropped with its promises, and
    the next mutation is promised the tick of a dropped one: a wait on the
    dropped mutation ends when the other is processed. *)
Theorem drop_queue_reuses_ticks mut q :
  queue_ok q → 0 < q.(q_queueTicksPending) → mut.(mut_QueueTick) = q.(q_queueTick) + 1 →
  queue_ok (push_back mut (drop_queue q))
  ∧ ∃ lost, lost ∈ q.(q_queue) ∧ lost.(mut_QueueTick) = mut.(mut_QueueTick).
Proof.
  intros [Ht Hp H1 Hmax] Hpos Hm. split.
  - apply queue_ok_push_back; cbn; [by split; cbn; lia||done|lia|lia].
  - assert (Hin : q.(q_queueTick) + 1 ∈ mut_QueueTick <$> filter ticking q.(q_queue)).
    { rewrite Ht. apply elem_of_seqZ. lia. }
    apply list_elem_of_fmap in Hin as (lost & Hl & Hin). exists lost.
    apply list_elem_of_filter in Hin as [_ Hin]. split; [done|]. by rewrite Hm.
Qed.

(** ** Witnesses *)

Definition queued_ab : Machine := with_q (mkQueuePart [] 1 0 0 0 false false) machine_ab.

Lemma queue_ok_empty tick token len processing running :
  1 ≤ tick < two64 → queue_ok (mkQueuePart [] tick 0 token len processing running).
Proof. intros Ht. split; cbn; [done|lia..]. Qed.

Example queueMutation_spec_witness :
  ∃ r m', queueMutation MutationAdd ["B"] ∅ None queued_ab = Ok (r, m') ∧ Queued ≤ r.
Proof.
  destruct (queueMutation MutationAdd ["B"] ∅ None queued_ab) as [[r m']|msg|] eqn:E;
    [|vm_compute in E; discriminate E..].
  exists r, m'. split; [done|].
  destruct (queueMutation_spec MutationAdd ["B"] ∅ None queued_ab r m')
    as (p & _ & [(Hr & _)|(_ & H & _)]);
    [apply queue_ok_empty; rewrite two64_val; lia|vm_compute; reflexivity|exact E| |exact H].
  rewrite Hr in E. vm_compute in E. discriminate E.
Defined.

Definition mut_tick (tick : Z) : Mutation :=
  set_queue (newMutation MutationAdd [0] ∅ false false None) 1 1 tick 0 None.

Definition one_queued : QueuePart := push_back (mut_tick 2) (mkQueuePart [] 1 0 0 0 false false).

Lemma one_queued_ok : queue_ok one_queued.
Proof. apply queue_ok_push_back; [apply queue_ok_empty| |]; rewrite ?two64_val; cbn; lia. Qed.

Example pop_front_tick_witness : (pop_front (mut_tick 2) [] one_queued).(q_queueTick) = 2.
Proof.
  destruct (pop_front_tick (mut_tick 2) [] one_queued one_queued_ok) as (_ & -> & _);
    [reflexivity|cbn; lia|]. reflexivity.
Defined.

Example drop_queue_reuses_ticks_witness :
  ∃ lost, lost ∈ one_queued.(q_queue) ∧ lost.(mut_QueueTick) = 2.
Proof.
  apply (drop_queue_reuses_ticks (mut_tick 2) one_queued one_queued_ok); reflexivity.
Defined.
