(* ===== verification/Semantics.v ===== *)
(** * What a mutation means: the reference semantics

    Without handlers, a mutation is a function of the schema and the active
    states: the relations pick the target states, the mutation is accepted or
    rejected as a whole, and an accepted one sets the active states and moves
    the ticks ([accepts], [outcome_of]).  The theorems say that a transition of
    the engine does exactly this, that the ticks it predicts before it runs are
    the ones it ends with, and that processing the queue ends. *)

From S2P Require Import Prelude StateList SchemaDef MachTime Mutation Relations Subscriptions Machine Queue Transition Run QueueSpec.

#[local] Open Scope Z_scope.

(** ** Running monadic code step by step *)

Section steps.
Context {S : Type}.

Lemma run_get_bind {A} (f : S → run S A) s : (get ≫= f) s = f s s.
Proof. done. Qed.
Lemma run_modify_bind {A} (g : S → S) (f : () → run S A) s : (modify g ≫= f) s = f () (g s).
Proof. done. Qed.
Lemma run_ret_bind {A B} (a : B) (f : B → run S A) s : (mret a ≫= f) s = f a s.
Proof. done. Qed.
Lemma run_lift_bind {A B} (e : outcome B) b (f : B → run S A) s :
  e = Ok b → (lift e ≫= f) s = f b s.
Proof. by intros ->. Qed.
Lemma run_ok_bind {A B} (e : run S B) b s s' (f : B → run S A) :
  e s = Ok (b, s') → (e ≫= f) s = f b s'.
Proof. intros He. unfold mbind, run_bind. by rewrite He. Qed.
End steps.

Lemma run_get_t_bind {A} (f : Transition → run Machine A) m t :
  m.(m_t) = Some t → (get_t ≫= f) m = f t m.
Proof. intros Ht. unfold mbind, run_bind, get_t. by rewrite Ht. Qed.

Lemma modify_t_run (f : Transition → Transition) m t :
  m.(m_t) = Some t → modify_t f m = Ok ((), with_t (Some (f t)) m).
Proof. intros Ht. unfold modify_t, modify. by rewrite Ht. Qed.

(** ** Predicting the time after *)

Lemma bump_fmap index n c x :
  NoDup index → x ∈ index →
  bump index n (Ok (tick_of c <$> index)) x = Ok (tick_of (clock_add n c x) <$> index).
Proof.
  intros Hnd Hx. destruct (index_of_in index x Hx) as [Hge Hi]. unfold bump.
  cbn [mbind outcome_bind]. unfold slice_get. rewrite bool_decide_eq_true_2 by done.
  rewrite list_lookup_fmap, Hi. cbn. pose proof (lookup_lt_Some _ _ _ Hi) as Hlt.
  rewrite slice_set_in by (rewrite length_fmap; lia). f_equal. apply list_eq. intros k.
  rewrite list_lookup_insert, !list_lookup_fmap, length_fmap.
  case_decide as Hk.
  - destruct Hk as [<- _]. rewrite Hi. cbn. rewrite tick_of_clock_add. by rewrite decide_True.
  - destruct (index !! k) as [y|] eqn:Hy; [|done]. cbn. f_equal.
    rewrite tick_of_clock_add, decide_False; [done|]. intros ->. apply Hk.
    split; [|done]. by apply (NoDup_lookup index _ _ x).
Qed.

Lemma fold_bump_target schema active called index targets c :
  NoDup index → targets ⊆ index →
  fold_left (λ r name,
    if negb (contains active name) then bump index 1 r name
    else if contains called name && (schema_get schema name).(st_Multi) then bump index 2 r name
    else r) targets (Ok (tick_of c <$> index))
  = Ok (tick_of (fold_left (tick_target schema active called) targets c) <$> index).
Proof.
  intros Hnd. revert c. induction targets as [|x targets IH]; intros c Hsub; [done|].
  cbn [fold_left]. unfold tick_target at 2.
  assert (x ∈ index ∧ targets ⊆ index) as [Hx Ht] by set_solver.
  destruct (negb _); [rewrite bump_fmap by done; by apply IH|].
  destruct (_ && _); [rewrite bump_fmap by done; by apply IH|]. by apply IH.
Qed.

Lemma fold_bump_rest index rest c :
  NoDup index → rest ⊆ index →
  fold_left (bump index 1) rest (Ok (tick_of c <$> index))
  = Ok (tick_of (fold_left (clock_add 1) rest c) <$> index).
Proof.
  intros Hnd. revert c. induction rest as [|x rest IH]; intros c Hsub; [done|].
  cbn [fold_left]. rewrite bump_fmap by set_solver. apply IH. set_solver.
Qed.

Lemma predict_ticks schema index active called targets c :
  NoDup index → active ⊆ index → targets ⊆ index →
  predict schema index active called targets (tick_of c <$> index)
  = Ok (tick_of (tick_clock schema active called targets c) <$> index).
Proof.
  intros Hnd Ha Ht. unfold predict, tick_clock. rewrite fold_bump_target by done.
  apply fold_bump_rest; [done|]. intros x [Hx _]%elem_of_StatesDiff. by apply Ha.
Qed.

Lemma setActiveStates_time called targets m :
  disposing m = false → disposed m = false →
  Mach.time (setActiveStates called targets m) None
  = tick_of (tick_clock (schema m) (activeStates m) called targets (clock m)) <$> stateNames m.
Proof. intros Hd Hdd. unfold setActiveStates. rewrite Hd. unfold Mach.time. cbn. unfold disposed in *. cbn. by rewrite Hdd. Qed.

(** ** The reference semantics *)

(** Whether the relations accept a mutation. *)
Definition accepts (mut : Mutation) (sch : gmap string State) (called targets : list string)
  : bool :=
  let rejected := StatesDiff called targets in
  if bool_decide (mut.(mut_Type) = MutationRemove) then true
  else if mut.(mut_IsAuto) then
    bool_decide (length rejected < length called)%nat
  else bool_decide (rejected = [])
       || mut.(mut_IsCheck) && existsb (λ s, (schema_get sch s).(st_Multi)) called.

Definition called_of (m : Machine) (mut : Mutation) : outcome (list string) :=
  match mut.(mut_cacheCalled) with
  | Some l => Ok l
  | None => IndexToStates (stateNames m) mut.(mut_Called)
  end.

(** The transition before anything is resolved. *)
Definition tx_start (randId : Machine → string) (m : Machine) (mut : Mutation) : Transition :=
  mkTx (randId m) mut (Mach.time m None) [] [] [] [] false true false false "" []
    (activeStates m) (clock m) [] [] (schema m).

Definition resolver_of (m : Machine) (mut : Mutation) : Resolver :=
  resolver m (tx_start (λ _, "") m mut).

Definition targets_of (m : Machine) (mut : Mutation) (called : list string)
  : outcome (list string) :=
  Relations.TargetStates (resolver_of m mut) (statesToSet m mut.(mut_Type) called).

(** ** Setting up a transition *)

Lemma tx_set_accepted_id t : t.(tx_IsAccepted) = true → tx_set_accepted true t = t.
Proof. destruct t; cbn. by intros ->. Qed.

Lemma with_t_id m t : m.(m_t) = Some t → with_t (Some t) m = m.
Proof. destruct m; cbn. by intros ->. Qed.

Lemma setupAccepted_run m t called :
  m.(m_t) = Some t → t.(tx_IsAccepted) = true → Tx.CalledStates m t = Ok called →
  setupAccepted m = Ok ((), with_t (Some (tx_set_accepted
    (accepts t.(tx_Mutation) t.(tx_cacheSchema) called t.(tx_TargetStates)) t)) m).
Proof.
  intros Ht Hacc Hc. unfold setupAccepted. rewrite run_get_bind, (run_get_t_bind _ m t Ht).
  unfold accepts, Tx.Type_, Tx.IsAuto, Tx.TargetStates.
  destruct (bool_decide (mut_Type (tx_Mutation t) = MutationRemove)).
  { by rewrite tx_set_accepted_id, with_t_id. }
  rewrite (run_lift_bind _ _ _ _ Hc). set (rejected := StatesDiff called _).
  destruct (mut_IsAuto (tx_Mutation t)); cbn [andb].
  - destruct (bool_decide (length rejected < length called)%nat) eqn:Hl.
    { by rewrite tx_set_accepted_id, with_t_id. }
    rewrite (run_ok_bind _ _ _ _ _ (modify_t_run _ m t Ht)).
    destruct (bool_decide (rejected = [])); [done|]. destruct (_ && _); [done|].
    exact (modify_t_run _ (with_t (Some (tx_set_accepted false t)) m) _ eq_refl).
  - rewrite run_ret_bind. case_bool_decide; [by rewrite tx_set_accepted_id, with_t_id|].
    cbn [orb]. destruct (_ && _); [by rewrite tx_set_accepted_id, with_t_id|]. by apply modify_t_run.
Qed.

(** The states a transition leaves and enters. *)
Definition exits_of (m : Machine) (t : Transition) : list string :=
  SortStates (resolver m t) (StatesDiff (activeStates m) t.(tx_TargetStates)).
Definition enters_of (m : Machine) (called targets : list string) : list string :=
  slicesFilter targets (λ s,
    negb (Mach.is_ m [s]) || ((schema_get (schema m) s).(st_Multi) && contains called s)).

Lemma setupExitEnter_run m t called :
  m.(m_t) = Some t → Tx.CalledStates m t = Ok called →
  setupExitEnter m = Ok ((), with_t (Some (tx_set_moves (exits_of m t)
    (enters_of m called t.(tx_TargetStates)) t)) m).
Proof.
  intros Ht Hc. unfold setupExitEnter. rewrite run_get_bind, (run_get_t_bind _ m t Ht).
  rewrite (run_lift_bind _ _ _ _ Hc). by apply modify_t_run.
Qed.

(** The transition [newTransition] sets up. *)
Definition tx_ready (randId : Machine → string) (m : Machine) (mut : Mutation)
    (called targets : list string) (tAfter : list Z) : Transition :=
  let t := tx_set_after tAfter (tx_set_targets (Mach.Index m targets) targets
             (tx_start randId m mut)) in
  let t := tx_set_accepted (accepts mut (schema m) called targets) t in
  if accepts mut (schema m) called targets
  then tx_set_moves (exits_of m t) (enters_of m called targets) t else t.

Lemma newTransition_run randId m mut called targets tAfter :
  called_of m mut = Ok called → targets_of m mut called = Ok targets →
  (if mut.(mut_IsCheck) then tAfter = Mach.time m None
   else predict (schema m) (stateNames m) (activeStates m) called targets (Mach.time m None)
        = Ok tAfter) →
  newTransition randId mut m
  = Ok ((), with_t (Some (tx_ready randId m mut called targets tAfter)) m).
Proof.
  intros Hc Ht Hp. unfold newTransition. rewrite run_get_bind, run_modify_bind, run_get_bind.
  fold (tx_start randId m mut). set (m1 := with_t _ m).
  assert (Hc1 : Tx.CalledStates m1 (tx_start randId m mut) = Ok called) by exact Hc.
  rewrite (run_lift_bind _ _ _ _ Hc1).
  assert (Ht1 : Relations.TargetStates (resolver m1 (tx_start randId m mut))
    (statesToSet m1 (Tx.Type_ (tx_start randId m mut)) called) = Ok targets) by exact Ht.
  rewrite (run_lift_bind _ _ _ _ Ht1).
  assert (Hp1 : (if mut_IsCheck mut then mret (Mach.time m None)
    else lift (predict (schema m1) (stateNames m1) (activeStates m1) called targets
                 (Mach.time m None))) m1 = Ok (tAfter, m1)).
  { destruct (mut_IsCheck mut); [by subst|]. exact (f_equal (λ o, a ← o; Ok (a, m1)) Hp). }
  rewrite (run_ok_bind _ _ _ _ _ Hp1).
  rewrite (run_ok_bind _ _ _ _ _ (modify_t_run _ m1 _ eq_refl)).
  set (t2 := tx_set_after _ _). set (m2 := with_t _ m1).
  rewrite (run_ok_bind _ _ _ _ _ (setupAccepted_run m2 t2 called eq_refl eq_refl Hc)).
  erewrite run_get_t_bind by reflexivity.
  change (accepts (tx_Mutation t2) (tx_cacheSchema t2) called (tx_TargetStates t2))
    with (accepts mut (schema m) called targets).
  unfold tx_ready. fold t2. cbn [tx_set_accepted tx_IsAccepted].
  destruct (accepts mut (schema m) called targets); [|done].
  exact (setupExitEnter_run (with_t (Some (tx_set_accepted true t2)) m2) _ called eq_refl Hc).
Qed.

(** ** No handlers *)

(** A machine without handlers, ready to run a transition. *)
Record quiet (m : Machine) : Prop := {
  qt_alive : disposing m = false ∧ disposed m = false;
  qt_handlers : m.(m_flags).(f_handlerLoopRunning) = false;
  qt_args : HasWhenArgs m.(m_subs).(sm_args) = false;
}.

(** The subscriptions a transition reads but does not change. *)
Definition waits (m : Machine) : ArgsWaits * QueryWaits :=
  (m.(m_subs).(sm_args), m.(m_subs).(sm_query)).

Lemma waits_args m m' : waits m' = waits m → m'.(m_subs).(sm_args) = m.(m_subs).(sm_args).
Proof. by intros [= ? _]. Qed.

(** Two machines that differ in their subscriptions only, and in their
    transition. *)
Record same_core (m m' : Machine) : Prop := {
  sc_flags : m'.(m_flags) = m.(m_flags);
  sc_sp : m'.(m_sp) = m.(m_sp);
  sc_st : m'.(m_st) = m.(m_st);
  sc_q : m'.(m_q) = m.(m_q);
  sc_args : waits m' = waits m;
}.

Lemma cancelStateCtx_returns activated deactivated m :
  returns (cancelStateCtx activated deactivated) m (λ _ m', same_core m m' ∧ m'.(m_t) = m.(m_t)).
Proof.
  unfold cancelStateCtx, returns, modify. eexists _, _. split; [done|].
  destruct (ProcessStateCtx _ _ _). by split; [split|].
Qed.

Lemma quiet_same_core m m' : same_core m m' → quiet m → quiet m'.
Proof.
  intros [Hf Hs Hst Hq Ha%waits_args] [H1 H2 H3]. unfold disposing, disposed in *. split; unfold disposing, disposed; rewrite ?Hf, ?Ha; auto.
Qed.

Section semantics.
Context (randId : Machine → string) (done : nat → bool) (bindings : list Binding).
Context (autoOrder : Machine → list string) (evals : string → prog).

(** Setting the active states of a quiet machine. *)
Lemma apply_targets_returns called m t :
  quiet m → m.(m_t) = Some t →
  returns (apply_targets done bindings called) m (λ r m',
    r = Executed ∧ same_core (setActiveStates called t.(tx_TargetStates) m) m'
    ∧ ∃ a d, m'.(m_t) = Some (tx_set_after (Mach.time m' None) (tx_set_activated a d t))).
Proof.
  intros Hq Ht. unfold apply_targets. eapply returns_bind. exists t, m.
  split; [unfold get_t; by rewrite Ht|]. apply returns_bind.
  set (m1 := setActiveStates called (Tx.TargetStates t) m). exists (), m1. split; [done|].
  assert (Hm1 : m1.(m_t) = Some t) by (unfold m1, setActiveStates; by destruct (disposing m)).
  assert (Hq1 : quiet m1).
  { destruct Hq as [[H1 H1'] H2 H3]. unfold m1, setActiveStates. by rewrite H1. }
  apply returns_bind. exists m1, m1. split; [done|].
  apply returns_bind. eexists _, _. split; [by apply modify_t_run|].
  apply returns_bind. eapply returns_mono; [apply cancelStateCtx_returns|]. intros [] m2 [Hs Ht2].
  apply returns_bind. exists m2, m2. split; [done|].
  cbn in Ht2. apply returns_bind. eexists _, _. split; [by apply modify_t_run|].
  assert (Hs' : same_core m1 m2) by (destruct Hs as [S1 S2 S3 S4 S5]; by split).
  destruct (quiet_same_core _ _ Hs' Hq1) as [_ -> ->]. cbn [orb].
  apply returns_bind, returns_ret. rewrite bool_decide_eq_false_2 by done.
  apply returns_bind, returns_ret, returns_ret. split; [done|].
  split; [destruct Hs' as [S1 S2 S3 S4 S5]; by split|]. eexists _, _. cbn. reflexivity.
Qed.

Lemma time_loop_fmap (names : list string) (f : string → Z) m :
  Mach.time_loop (λ now tick, bool_decide (now = tick)) m (f <$> names) names
  = Ok (bool_decide (tick_of (clock m) <$> names = f <$> names)).
Proof.
  induction names as [|s names IH]; [done|]. cbn [fmap list_fmap Mach.time_loop]. rewrite IH.
  destruct (decide (tick_of (clock m) s = f s)) as [Hs|Hs].
  - rewrite (bool_decide_eq_true_2 (tick_of _ s = _)) by done. f_equal.
    apply bool_decide_ext. rewrite Hs. split; [by intros <-|by intros [=]].
  - rewrite (bool_decide_eq_false_2 (tick_of _ s = _)) by done. f_equal.
    symmetry. apply bool_decide_eq_false_2. by intros [=].
Qed.

Lemma IsTime_fmap m (f : string → Z) :
  disposing m = false →
  Mach.IsTime m (f <$> stateNames m) None
  = Ok (bool_decide (tick_of (clock m) <$> stateNames m = f <$> stateNames m)).
Proof. intros Hd. unfold Mach.IsTime. rewrite Hd. apply time_loop_fmap. Qed.

(** Names that are known, trimmed and listed once. *)
Record named (m : Machine) : Prop := {
  na_nodup : NoDup (stateNames m);
  na_known : ∀ s, is_Some (schema m !! s) ↔ s ∈ stateNames m;
  na_trim : ∀ s, s ∈ stateNames m → TrimSpace s = s;
  na_add : ∀ s x, x ∈ elems (schema_get (schema m) s).(st_Add) → x ∈ stateNames m;
  na_active : NoDup (activeStates m) ∧ activeStates m ⊆ stateNames m;
}.

(** The auto states to queue, in the order the schema is ranged over. *)
Definition autos (m : Machine) : list string :=
  auto_states (mkResolver (schema m) (activeStates m) (disposing m) MutationAdd [] (stateNames m)
                 [] []) (autoOrder m).

Hypothesis Horder : ∀ m s, s ∈ autoOrder m ↔ is_Some (schema m !! s).
Hypothesis Hnodup : ∀ m, NoDup (autoOrder m).

Lemma mustParseStates_known m l :
  disposing m = false → NoDup l → (∀ s, s ∈ l → is_Some (schema m !! s)) →
  Mach.mustParseStates m l = Ok l.
Proof.
  intros Hd Hnd Hk. unfold Mach.mustParseStates. rewrite mustParseStates_spec, Hd.
  rewrite decide_True by (by apply Forall_forall). f_equal. by apply slicesUniq_id.
Qed.

(** The mutation that adds the auto states. *)
Record auto_mutation (m : Machine) (toAdd : list string) (mut : Mutation) : Prop := {
  am_type : mut.(mut_Type) = MutationAdd;
  am_auto : mut.(mut_IsAuto) = true;
  am_check : mut.(mut_IsCheck) = false;
  am_called : mut.(mut_Called) = StatesToIndex (stateNames m) toAdd;
  am_cache : mut.(mut_cacheCalled) = Some toAdd;
  am_rest : mut.(mut_ctx) = None ∧ mut.(mut_QueueTick) = 0 ∧ mut.(mut_Args) = ∅;
}.

(** Only the queue differs. *)
Record same_but_queue (m m' : Machine) : Prop := {
  sq_flags : m'.(m_flags) = m.(m_flags);
  sq_sp : m'.(m_sp) = m.(m_sp);
  sq_st : m'.(m_st) = m.(m_st);
  sq_subs : m'.(m_subs) = m.(m_subs) ∧ m'.(m_closed) = m.(m_closed);
  sq_t : m'.(m_t) = m.(m_t);
}.

Lemma processQueue_nested_returns m : returns processQueue_nested m (λ _ m', m' = m).
Proof.
  unfold processQueue_nested. apply returns_bind. exists m, m. split; [done|].
  destruct (_ || _); by apply returns_ret.
Qed.

Lemma elem_of_autos m s : s ∈ autos m → s ∈ autoOrder m.
Proof. unfold autos, auto_states. rewrite elem_of_slicesFilter. tauto. Qed.

(** Prepending the mutation of the auto states. *)
Lemma prepend_autos_returns m mut :
  quiet m → named m → autos m ≠ [] →
  mut = set_queue (newMutation MutationAdd (StatesToIndex (stateNames m) (autos m)) ∅ true false None)
          0 0 0 0 (Some (autos m)) →
  returns (Api.PrependMut processQueue_nested mut) m (λ _ m', same_but_queue m m'
    ∧ ∃ mut', queue m' = mut' :: queue m ∧ queueLen m' = wrap32 (Z.of_nat (length (queue m')))
        ∧ queueTick m' = queueTick m ∧ pending m' = pending m
        ∧ m'.(m_q).(q_queueProcessing) = m.(m_q).(q_queueProcessing)
        ∧ auto_mutation m (autos m) mut').
Proof.
  intros [[Hd _] _ _] [Hnd Hk Htr _ _] Hne ->. unfold Api.PrependMut.
  assert (Hin : ∀ s, s ∈ autos m → s ∈ stateNames m ∧ TrimSpace s = s).
  { intros s Hs%elem_of_autos. assert (s ∈ stateNames m) by by apply Hk, Horder. auto. }
  apply returns_bind. exists m, m. split; [done|]. rewrite Hd.
  apply returns_bind. exists (autos m), m. split.
  { exact (f_equal (λ o, a ← o; Ok (a, m)) (index_names _ _ Hnd Hin)). }
  apply returns_bind. exists (autos m), m. split.
  { unfold lift. rewrite mustParseStates_known; [done|done| |].
    - apply NoDup_slicesFilter, Hnodup.
    - intros s Hs. by apply Hk, Hin. }
  apply returns_bind. eexists _, _. split; [done|].
  eapply returns_mono; [apply processQueue_nested_returns|]. intros _ m' ->.
  split; [by split|]. eexists. split_and!; [done..|]. by split.
Qed.

(** Whether a transition is a health check, which queues no auto states. *)
Definition is_health (mut : Mutation) (called : list string) : bool :=
  match called with
  | [s] => bool_decide (mut.(mut_Type) = MutationAdd)
      && (bool_decide (s = StateHealthcheck) || bool_decide (s = StateHeartbeat))
  | _ => false
  end.

(** The auto states due: neither active nor removed by an active state. *)
Definition due (m : Machine) (s : string) : Prop :=
  (schema_get (schema m) s).(st_Auto) = true ∧ (s ∉ activeStates m)
  ∧ ∀ a, a ∈ activeStates m → s ∉ elems (schema_get (schema m) a).(st_Remove).

(** What a transition that left the machine [m] adds to the front of [q]. *)
Definition queues_autos (wanted : bool) (m : Machine) (q' q : list Mutation) : Prop :=
  (q' = q ∧ (wanted = true → ∀ s, ¬ due m s))
  ∨ (wanted = true ∧ ∃ mut toAdd, q' = mut :: q ∧ auto_mutation m toAdd mut
     ∧ toAdd ≠ [] ∧ NoDup toAdd ∧ ∀ s, s ∈ toAdd ↔ due m s).

Lemma autos_due m s : quiet m → named m → s ∈ autos m ↔ due m s.
Proof.
  intros [[Hd _] _ _] [_ Hk _ _ [_ Ha]]. unfold autos, auto_states, due, is_active.
  rewrite elem_of_slicesFilter, Horder, !andb_true_iff, !negb_true_iff. cbn [rr_active rr_schema rr_disposing rr_Index].
  rewrite Hd, (existsb_removes (mkResolver (schema m) (activeStates m) false MutationAdd []
    (stateNames m) [] []) s). cbn [negb andb]. rewrite andb_false_iff, !contains_false.
  split.
  - intros (Hs & [Hauto Hn] & Hr). split_and!; [done| |done]. intros Hin. destruct Hn; auto.
  - intros (Hauto & Hn & Hr). split_and!; [|done|auto|done].
    unfold schema_get in Hauto. destruct (schema m !! s); [done|]. by cbn in Hauto.
Qed.

(** What stays of the queue's record. *)
Record queue_kept (m m' : Machine) : Prop := {
  qk_tick : queueTick m' = queueTick m;
  qk_pending : pending m' = pending m;
  qk_processing : m'.(m_q).(q_queueProcessing) = m.(m_q).(q_queueProcessing);
  qk_len : queueLen m = wrap32 (Z.of_nat (length (queue m))) →
           queueLen m' = wrap32 (Z.of_nat (length (queue m')));
}.

Lemma queueAuto_returns m t called changed :
  quiet m → named m → m.(m_t) = Some t → Tx.CalledStates m t = Ok called →
  returns (queueAuto autoOrder changed) m (λ _ m', same_but_queue m m' ∧ queue_kept m m'
    ∧ queues_autos (changed && negb (mut_IsAuto (tx_Mutation t))
                    && negb (is_health (tx_Mutation t) called)) m (queue m') (queue m)).
Proof.
  intros Hq Hn Ht Hc. unfold queueAuto. apply returns_bind. exists m, m. split; [done|].
  apply returns_bind. exists t, m. split; [unfold get_t; by rewrite Ht|].
  apply returns_bind. exists (is_health (tx_Mutation t) called), m. split.
  { unfold lift, Tx.IsHealth. rewrite Hc. done. }
  destruct Hq as [[Hd Hdd] Hh Ha]. rewrite Hd. unfold Tx.IsAuto. cbn [negb andb].
  destruct (changed && negb (mut_IsAuto (tx_Mutation t))
            && negb (is_health (tx_Mutation t) called)) eqn:Hw.
  2:{ apply returns_ret. split; [by split|]. split; [by split|]. by left. }
  change (NewAutoMutation (autoOrder m) (resolver m t)) with
    (match autos m with
     | [] => None
     | toAdd =>
         Some (set_queue (newMutation MutationAdd
           (if disposing m then [] else StatesToIndex (stateNames m) toAdd) ∅ true false None)
           0 0 0 0 (Some toAdd), toAdd)
     end).
  assert (Hq : quiet m) by by split. rewrite Hd. destruct (autos m) as [|a l] eqn:Hau.
  { apply returns_ret. split; [by split|]. split; [by split|]. left. split; [done|].
    intros _ s Hs%autos_due; [|done..]. rewrite Hau in Hs. by apply not_elem_of_nil in Hs. }
  rewrite <- Hau. apply returns_bind. eapply returns_mono.
  { apply (prepend_autos_returns m); [done|done|by rewrite Hau|reflexivity]. }
  intros r m' (Hs & mut' & Hqu & Hlen & Htick & Hp & Hproc & Ham). apply returns_ret.
  split; [done|]. split; [by split|]. right. split; [done|]. exists mut', (autos m).
  split_and!; [done..|by rewrite Hau|by apply NoDup_slicesFilter|].
  intros s. by apply autos_due.
Qed.

Lemma queues_autos_ext wanted m m' q' q :
  m'.(m_sp) = m.(m_sp) → m'.(m_st) = m.(m_st) →
  queues_autos wanted m q' q → queues_autos wanted m' q' q.
Proof.
  intros Hsp Hst. assert (Hdue : ∀ s, due m' s ↔ due m s).
  { intros s. unfold due, schema, activeStates. by rewrite Hsp, Hst. }
  intros [[-> Hn]|(Hw & mut & l & -> & Ha & Hne & Hnd & Hl)]; [left|right].
  - split; [done|]. intros Hw s. rewrite Hdue. by apply Hn.
  - split; [done|]. exists mut, l. split_and!; try done.
    + destruct Ha as [H1 H2 H3 H4 H5 H6]. split; try done. unfold stateNames. by rewrite Hsp.
    + intros s. by rewrite Hl, Hdue.
Qed.

Lemma quiet_set called targets m : quiet m → quiet (setActiveStates called targets m).
Proof. intros [[H1 H1'] H2 H3]. unfold setActiveStates. by rewrite H1. Qed.

Lemma set_kept called targets m :
  (setActiveStates called targets m).(m_flags) = m.(m_flags)
  ∧ (setActiveStates called targets m).(m_sp) = m.(m_sp)
  ∧ (setActiveStates called targets m).(m_q) = m.(m_q)
  ∧ (setActiveStates called targets m).(m_subs) = m.(m_subs)
  ∧ (setActiveStates called targets m).(m_t) = m.(m_t).
Proof. unfold setActiveStates. by destruct (disposing m). Qed.

Lemma named_set called targets m :
  quiet m → NoDup targets → targets ⊆ stateNames m → named m →
  named (setActiveStates called targets m).
Proof.
  intros [[H1 _] _ _] Hnd Hsub [N1 N2 N3 N4 N5]. unfold setActiveStates. rewrite H1.
  by split.
Qed.

Lemma named_kept m m' : m'.(m_sp) = m.(m_sp) → m'.(m_st) = m.(m_st) → named m → named m'.
Proof.
  intros Hsp Hst [N1 N2 N3 N4 N5]. split; unfold stateNames, schema, activeStates in *;
    rewrite ?Hsp, ?Hst; done.
Qed.

(** The ticks of two clocks on the known states. *)
Definition same_ticks (m : Machine) (c : gmap string Z) : bool :=
  bool_decide (tick_of (clock m) <$> stateNames m = tick_of c <$> stateNames m).

Lemma same_ticks_ext m m' c : m'.(m_sp) = m.(m_sp) → m'.(m_st) = m.(m_st) →
  same_ticks m' c = same_ticks m c.
Proof. intros Hsp Hst. unfold same_ticks, clock, stateNames. by rewrite Hsp, Hst. Qed.

(** A transition after its states are set. *)
Record tx_settled (m : Machine) (t t' : Transition) : Prop := {
  ts_mut : t'.(tx_Mutation) = t.(tx_Mutation);
  ts_accepted : t'.(tx_IsAccepted) = t.(tx_IsAccepted);
  ts_targets : t'.(tx_TargetStates) = t.(tx_TargetStates);
  ts_before : t'.(tx_StatesBefore) = t.(tx_StatesBefore) ∧ t'.(tx_ClockBefore) = t.(tx_ClockBefore);
  ts_after : t'.(tx_TimeAfter) = Mach.time m None;
}.

Lemma settle_accepted m t called c0 :
  quiet m → named m → m.(m_t) = Some t → NoDup t.(tx_TargetStates) →
  t.(tx_TargetStates) ⊆ stateNames m → called_of m t.(tx_Mutation) = Ok called →
  let m1 := setActiveStates called t.(tx_TargetStates) m in
  returns (settle done bindings autoOrder called (tick_of c0 <$> stateNames m) Executed) m
    (λ r m', r = Executed ∧ m'.(m_flags) = m.(m_flags) ∧ m'.(m_sp) = m.(m_sp)
      ∧ m'.(m_st) = m1.(m_st) ∧ waits m' = waits m ∧ queue_kept m m'
      ∧ queues_autos (negb (same_ticks m1 c0) && negb (mut_IsAuto (tx_Mutation t))
                      && negb (is_health (tx_Mutation t) called)) m1 (queue m') (queue m)
      ∧ ∃ t', m'.(m_t) = Some t' ∧ tx_settled m' t t').
Proof.
  intros Hq Hn Ht Hnd Hsub Hc m1. unfold settle. rewrite bool_decide_eq_false_2 by done. cbn [negb].
  destruct (set_kept called (tx_TargetStates t) m) as (Kf & Ksp & Kq & Ksubs & _).
  fold m1 in Kf, Ksp, Kq, Ksubs.
  pose proof (quiet_set called (tx_TargetStates t) m Hq) as Hq1. fold m1 in Hq1.
  pose proof (named_set called (tx_TargetStates t) m Hq Hnd Hsub Hn) as Hn1. fold m1 in Hn1.
  apply returns_bind. apply returns_bind.
  eapply returns_mono; [by apply apply_targets_returns|].
  intros r m2 (-> & Hs & a & d & Ht2). fold m1 in Hs.
  pose proof (quiet_same_core _ _ Hs Hq1) as Hq2. destruct Hs as [S1 S2 S3 S4 S5].
  pose proof (named_kept m1 m2 S2 S3 Hn1) as Hn2. pose proof Hq2 as [[Hd2 Hdd2] Hrun2 Hargs2].
  apply returns_bind. exists m2, m2. split; [done|].
  assert (Hnames : stateNames m2 = stateNames m) by (unfold stateNames; congruence).
  apply returns_bind. exists (same_ticks m2 c0), m2. split.
  { unfold lift. rewrite <- Hnames, IsTime_fmap by done. done. }
  apply returns_ret. apply returns_bind. exists m2, m2. split; [done|].
  apply returns_bind. eexists _, m2. split; [unfold get_t; by rewrite Ht2|].
  rewrite Hrun2. cbn [andb negb]. rewrite bool_decide_eq_false_2 by done.
  apply returns_bind, returns_ret. rewrite bool_decide_eq_false_2 by done. apply returns_bind.
  eapply returns_mono.
  { eapply (queueAuto_returns m2 _ called); [done|done|exact Ht2|].
    unfold Tx.CalledStates, called_of in *. cbn. unfold Mach.StateNames. by rewrite Hnames. }
  intros [] m3 ([Q1 Q2 Q3 [Q4 _] Q5] & Hk & Hau). apply returns_ret.
  assert (Hqu : queue m2 = queue m) by (unfold queue; congruence).
  assert (Hwt : waits m3 = waits m).
  { unfold waits in *. rewrite Q4, <- Ksubs. exact S5. }
  split_and!; [done|congruence..| | |].
  - destruct Hk as [K1 K2 K3 K4]. unfold queueTick, pending, queueLen, queue in *.
    split; unfold queueTick, pending, queueLen, queue; [congruence..|]. intros Hl. apply K4. congruence.
  - rewrite <- Hqu. eapply queues_autos_ext; [symmetry; exact S2|symmetry; exact S3|].
    unfold same_ticks, clock, stateNames in *. rewrite <- S3, <- S2. exact Hau.
  - eexists. split; [by rewrite Q5|]. split; try done. cbn. unfold Mach.time, disposed, stateNames, clock.
    by rewrite Q1, Q2, Q3.
Qed.

Lemma settle_canceled m t called before :
  m.(m_t) = Some t → m.(m_flags).(f_handlerLoopRunning) = false →
  settle done bindings autoOrder called before Canceled m
  = Ok (Canceled, with_t (Some (tx_set_accepted false (tx_set_after (Mach.time m None) t))) m).
Proof.
  intros Ht Hr. unfold settle. rewrite bool_decide_eq_true_2 by done. cbn [negb].
  assert (He : (m0 ← get; modify_t (tx_set_after (Mach.time m0 None)) ;; mret (Canceled, false)) m
    = Ok ((Canceled, false), with_t (Some (tx_set_after (Mach.time m None) t)) m)).
  { rewrite run_get_bind. by rewrite (run_ok_bind _ _ _ _ _ (modify_t_run _ m t Ht)). }
  rewrite (run_ok_bind _ _ _ _ _ He). clear He. rewrite run_get_bind.
  erewrite run_get_t_bind by reflexivity. rewrite bool_decide_eq_true_2 by done. cbn [negb andb].
  rewrite run_ret_bind, bool_decide_eq_true_2 by done.
  by erewrite run_ok_bind by (by apply modify_t_run).
Qed.

Lemma emitEvents_quiet m t called :
  quiet m → m.(m_t) = Some t → t.(tx_Mutation).(mut_IsCheck) = false →
  Tx.CalledStates m t = Ok called →
  emitEvents done bindings autoOrder m
  = (result ← execute done bindings autoOrder called
                (if t.(tx_IsAccepted) then Executed else Canceled);
     modify_t tx_set_completed ;;
     if bool_decide (result = Canceled) then mret Canceled else final_result called) m.
Proof.
  intros [_ Hr _] Ht Hc Hcalled. unfold emitEvents. rewrite run_get_bind, (run_get_t_bind _ m t Ht).
  rewrite (run_lift_bind _ _ _ _ Hcalled), Hr, run_ret_bind, Hc. cbn [negb].
  reflexivity.
Qed.

(** The answer to an accepted mutation. *)
Lemma final_result_returns m t called :
  quiet m → named m → m.(m_t) = Some t → activeStates m = t.(tx_TargetStates) →
  NoDup called → called ⊆ stateNames m →
  (Tx.Type_ t = MutationRemove → ∀ s, s ∈ called → s ∉ t.(tx_TargetStates)) →
  returns (final_result called) m (λ r m', m' = m ∧ r =
    if mut_IsAuto (tx_Mutation t) && negb (bool_decide (Tx.Type_ t = MutationRemove)) then
      if bool_decide (length t.(tx_StatesBefore) < length t.(tx_TargetStates))%nat
      then Executed else Canceled
    else Executed).
Proof.
  intros [[Hd Hdd] _ _] [N1 N2 N3 N4 [N5 N6]] Ht Hact Hnd Hknown Hrem. unfold final_result.
  apply returns_bind. exists m, m. split; [done|].
  apply returns_bind. exists t, m. split; [unfold get_t; by rewrite Ht|].
  destruct (bool_decide (Tx.Type_ t = MutationRemove)) eqn:Hty.
  - apply bool_decide_eq_true in Hty. rewrite andb_false_r. apply returns_bind.
    exists true, m. split; [|by apply returns_ret].
    unfold lift, Mach.Not. rewrite Hd. unfold Mach.not_. rewrite mustParseStates_known; [|done..|].
    2:{ intros s Hs. by apply N2, Hknown. }
    cbn [mbind outcome_bind]. do 3 f_equal. apply slicesNone_true. intros s Hs.
    rewrite Hact in Hs. intros Hin. by apply (Hrem Hty s Hin).
  - rewrite andb_true_r. unfold Tx.IsAuto, Tx.StatesBefore, Tx.TargetStates.
    destruct (mut_IsAuto (tx_Mutation t)); cbn [andb negb].
    + destruct (bool_decide (length (tx_StatesBefore t) < length (tx_TargetStates t))%nat);
        by apply returns_ret.
    + assert (Mach.Is m (tx_TargetStates t) = true) as ->; [|by apply returns_ret].
      unfold Mach.Is, Mach.is_. rewrite Hd. cbn [negb andb]. apply forallb_forall.
      intros s Hs%list_elem_of_In. rewrite <- Hact in Hs.
      apply andb_true_iff. split; apply contains_true; auto.
Qed.

(** ** Target states of well-formed mutations *)

(** A mutation of the states [called]. *)
Record well_called (m : Machine) (mut : Mutation) (called : list string) : Prop := {
  wc_of : called_of m mut = Ok called;
  wc_idx : mut.(mut_Called) = StatesToIndex (stateNames m) called;
  wc_known : called ⊆ stateNames m;
  wc_nodup : NoDup called;
}.

Lemma statesToSet_known m ty called :
  named m → called ⊆ stateNames m → statesToSet m ty called ⊆ stateNames m.
Proof.
  intros [_ _ _ _ [_ Ha]] Hc s. destruct ty; cbn.
  - rewrite elem_of_app. intros [?|?]; auto.
  - rewrite elem_of_slicesFilter. intros [? _]. auto.
  - auto.
  - by intros ?%not_elem_of_nil.
Qed.

Lemma targets_known m rr l :
  named m → rr.(rr_schema) = schema m → rr.(rr_disposing) = false → l ⊆ stateNames m →
  ∃ targets, Relations.TargetStates rr l = Ok targets ∧ NoDup targets ∧ targets ⊆ stateNames m.
Proof.
  intros [N1 N2 N3 N4 N5] Hs Hd Hl. assert (∃ ts, Relations.TargetStates rr l = Ok ts) as [ts Hts].
  { rewrite TargetStates_eq, Hd, decide_True by (apply Forall_forall; intros s Hs'; rewrite Hs; by apply N2, Hl).
    by eexists. }
  exists ts. split; [done|]. split; [by eapply TargetStates_NoDup|]. intros x Hx.
  destruct (TargetStates_reach rr l ts x Hts Hx) as (y & Hy & _ & Hr).
  apply rtc_inv_r in Hr as [->|(z & _ & Hz)]; [by apply Hl|].
  apply add_of_subseteq in Hz. rewrite Hs in Hz. by eapply N4.
Qed.

(** A removed state is never a target: its [Add] relations are cut. *)
Lemma removed_not_target m mut called targets s :
  named m → mut.(mut_Type) = MutationRemove → well_called m mut called →
  targets_of m mut called = Ok targets → s ∈ called → s ∉ targets.
Proof.
  intros [N1 N2 N3 N4 N5] Hty [W1 W2 W3 W4] Hts Hs Hin. unfold targets_of in Hts. rewrite Hty in Hts.
  destruct (TargetStates_reach _ _ _ _ Hts Hin) as (y & Hy & _ & Hr). cbn in Hy.
  apply rtc_inv_r in Hr as [->|(z & _ & Hz)].
  - apply elem_of_slicesFilter in Hy as [_ Hy%negb_true_iff%contains_false]. done.
  - unfold add_of, add_targets in Hz. destruct (_ && _); [by apply not_elem_of_nil in Hz|].
    apply elem_of_slicesFilter in Hz as [_ Hz].
    apply negb_true_iff, andb_false_iff in Hz as [Hz|Hz].
    + apply bool_decide_eq_false in Hz. by apply Hz.
    + apply contains_false in Hz. apply Hz.
      change (rr_called (resolver_of m mut)) with (mut_Called mut).
      change (rr_Index (resolver_of m mut)) with (stateNames m).
      rewrite W2. apply list_elem_of_fmap. exists s. split; [|done]. by rewrite N3 by auto.
Qed.

(** ** Whole transitions *)

Lemma quiet_with_t t m : quiet m → quiet (with_t t m).
Proof. by intros [H1 H2 H3]. Qed.

Lemma named_with_t t m : named m → named (with_t t m).
Proof. by apply named_kept. Qed.

Lemma set_with_t called targets t m :
  setActiveStates called targets (with_t t m) = with_t t (setActiveStates called targets m).
Proof.
  unfold setActiveStates. change (disposing (with_t t m)) with (disposing m).
  by destruct (disposing m).
Qed.

Lemma set_st_ext called targets m m' :
  m'.(m_flags) = m.(m_flags) → m'.(m_sp) = m.(m_sp) → m'.(m_st) = m.(m_st) →
  m_st (setActiveStates called targets m') = m_st (setActiveStates called targets m).
Proof.
  destruct m, m'; cbn. intros -> -> ->. unfold setActiveStates, disposing. cbn.
  by destruct (f_disposing _).
Qed.

Lemma quiet_kept m m' : m'.(m_flags) = m.(m_flags) → waits m' = waits m →
  quiet m → quiet m'.
Proof.
  intros Hf Ha%waits_args [H1 H2 H3]. unfold disposing, disposed in *.
  split; unfold disposing, disposed; rewrite ?Hf, ?Ha; done.
Qed.

Lemma time_fmap m : disposed m = false → Mach.time m None = tick_of (clock m) <$> stateNames m.
Proof. intros Hd. unfold Mach.time. by rewrite Hd. Qed.

Lemma newTransition_returns mut m called targets :
  quiet m → named m → called_of m mut = Ok called → targets_of m mut called = Ok targets →
  targets ⊆ stateNames m →
  ∃ tAfter, newTransition randId mut m
      = Ok ((), with_t (Some (tx_ready randId m mut called targets tAfter)) m)
    ∧ (mut.(mut_IsCheck) = false →
       tAfter = Mach.time (setActiveStates called targets m) None).
Proof.
  intros [[Hd Hdd] _ _] [N1 N2 N3 N4 [N5 N6]] Hc Ht Hsub.
  destruct (mut_IsCheck mut) eqn:Hck.
  - exists (Mach.time m None). split; [|done]. apply newTransition_run; [done..|]. by rewrite Hck.
  - eexists. split; [apply newTransition_run; [done..|]|intros _; reflexivity].
    rewrite Hck, setActiveStates_time, time_fmap by done. by apply predict_ticks.
Qed.

(** The answer and the state a mutation without handlers leaves. *)
Record mutation_result (m : Machine) (mut : Mutation) (called targets : list string)
    (r : Z) (m' : Machine) : Prop := {
  mr_kept : m'.(m_flags) = m.(m_flags) ∧ m'.(m_sp) = m.(m_sp)
            ∧ waits m' = waits m;
  mr_queue : queue_kept m m';
  mr_result : r = if accepts mut (schema m) called targets then Executed else Canceled;
  mr_states : m'.(m_st) = if accepts mut (schema m) called targets
                          then (setActiveStates called targets m).(m_st) else m.(m_st);
  mr_autos : if accepts mut (schema m) called targets
             then queues_autos (negb (same_ticks m' (clock m)) && negb (is_health mut called))
                    m' (queue m') (queue m)
             else queue m' = queue m;
  mr_tx : ∃ t, m'.(m_t) = Some t ∧ t.(tx_Mutation) = mut
            ∧ t.(tx_IsAccepted) = accepts mut (schema m) called targets
            ∧ t.(tx_ClockBefore) = clock m ∧ t.(tx_TimeAfter) = Mach.time m' None;
}.

Lemma mutation_returns mut m called targets :
  quiet m → named m → well_called m mut called →
  mut.(mut_IsAuto) = false → mut.(mut_IsCheck) = false →
  targets_of m mut called = Ok targets → NoDup targets → targets ⊆ stateNames m →
  returns (newTransition randId mut ;; emitEvents done bindings autoOrder) m
    (mutation_result m mut called targets).
Proof.
  intros Hq Hn Hw Hauto Hcheck Hts Hnd Hsub. pose proof Hw as [W1 W2 W3 W4].
  destruct (newTransition_returns mut m called targets Hq Hn W1 Hts Hsub) as (tAfter & Hnew & _).
  apply returns_bind. eexists _, _. split; [exact Hnew|].
  set (t := tx_ready randId m mut called targets tAfter). set (m1 := with_t (Some t) m).
  assert (Hmut : tx_Mutation t = mut).
  { unfold t, tx_ready. by destruct (accepts _ _ _ _). }
  assert (Hacc : tx_IsAccepted t = accepts mut (schema m) called targets).
  { unfold t, tx_ready. by destruct (accepts _ _ _ _) eqn:E. }
  assert (Htt : tx_TargetStates t = targets ∧ tx_TimeBefore t = Mach.time m None
    ∧ tx_ClockBefore t = clock m).
  { unfold t, tx_ready. by destruct (accepts _ _ _ _). }
  destruct Htt as (Htt & Htb & Hcb).
  assert (Hcalled : Tx.CalledStates m1 t = Ok called).
  { unfold Tx.CalledStates. rewrite Hmut. exact W1. }
  unfold returns. rewrite (emitEvents_quiet m1 t called); [|by apply quiet_with_t|done|by rewrite Hmut|exact Hcalled].
  rewrite Hacc. apply returns_bind. unfold execute. unfold returns.
  rewrite (run_get_t_bind _ m1 t) by done. unfold Tx.IsAuto. rewrite Hmut, Hauto, run_ret_bind.
  rewrite Htb, (time_fmap m) by apply Hq.
  destruct (accepts mut (schema m) called targets) eqn:Ha.
  - eapply returns_mono.
    { apply (settle_accepted m1 t called (clock m));
        [by apply quiet_with_t|by apply named_with_t|done|by rewrite Htt|by rewrite Htt|].
      rewrite Hmut. exact W1. }
    intros r m2 (-> & F1 & F2 & F3 & F4 & F5 & F6 & t2 & Ht2 & [T1 T2 T3 [T4 T4'] T5]).
    rewrite Htt in T3, F3, F6. rewrite Hmut in T1, F6. unfold m1 in F3, F6.
    rewrite set_with_t in F3, F6. rewrite Hauto in F6. cbn [negb] in F6. rewrite andb_true_r in F6.
    assert (Hact : activeStates m2 = targets).
    { unfold activeStates. rewrite F3. cbn. apply setActiveStates_active, Hq. }
    apply returns_bind. eexists _, _. split; [by apply modify_t_run|].
    rewrite bool_decide_eq_false_2 by done. set (m3 := with_t _ m2).
    assert (Hsp3 : m_sp m3 = m_sp (setActiveStates called targets m)).
    { change (m_sp m2 = m_sp (setActiveStates called targets m)). rewrite F2.
      by destruct (set_kept called targets m) as (_ & -> & _). }
    assert (Hn3 : named m3).
    { apply (named_kept (setActiveStates called targets m)); [exact Hsp3|exact F3|by apply named_set]. }
    eapply returns_mono.
    { eapply (final_result_returns m3 (tx_set_completed t2) called); try done.
      - apply quiet_with_t, (quiet_kept m); done.
      - change (activeStates m2 = tx_TargetStates t2). congruence.
      - unfold stateNames. change (m_sp m3) with (m_sp m2). rewrite F2. exact W3.
      - unfold Tx.Type_. cbn. rewrite T1, T3. intros Hty s Hs.
        exact (removed_not_target m mut called targets s Hn Hty Hw Hts Hs). }
    intros r m' [-> ->]. cbn. rewrite T1, Hauto. cbn [andb].
    split; rewrite ?Ha.
    + split_and!; [exact F1|exact F2|exact F4].
    + destruct F5 as [K1 K2 K3 K4]. by split.
    + done.
    + exact F3.
    + rewrite (same_ticks_ext (with_t (Some t) (setActiveStates called targets m))) by done.
      by eapply queues_autos_ext; [..|exact F6].
    + eexists. split; [reflexivity|]. cbn. split_and!; [done|..|exact T5].
      * rewrite T2. exact Hacc.
      * by rewrite T4'.
  - rewrite (settle_canceled m1 t) by (done || apply Hq). unfold returns.
    eexists _, _. split; [reflexivity|]. rewrite bool_decide_eq_true_2 by done.
    apply returns_bind. eexists _, _. split; [by apply modify_t_run|]. apply returns_ret.
    split; rewrite ?Ha; try done.
    eexists. split; [reflexivity|]. cbn. split_and!; done.
Qed.

(** ** Auto transitions *)

(** The called states that can be set, resolved again. *)
Definition auto_targets (m : Machine) (mut : Mutation) (called targets : list string)
  : outcome (list string) :=
  Relations.TargetStates (resolver_of m mut)
    (statesToSet m MutationAdd (StatesDiff called (StatesDiff called targets))).

Lemma resolveAgain_run m t called targets2 :
  m.(m_t) = Some t → Tx.CalledStates m t = Ok called →
  Relations.TargetStates (resolver m t)
    (statesToSet m MutationAdd (StatesDiff called (StatesDiff called t.(tx_TargetStates))))
  = Ok targets2 →
  resolveAgain m = Ok ((), with_t (Some (tx_set_moves
    (exits_of m (tx_set_targets (Mach.Index m targets2) targets2 t))
    (enters_of m called targets2) (tx_set_targets (Mach.Index m targets2) targets2 t))) m).
Proof.
  intros Ht Hc Hts. unfold resolveAgain. rewrite run_get_bind, (run_get_t_bind _ m t Ht).
  rewrite (run_lift_bind _ _ _ _ Hc). unfold Tx.TargetStates. rewrite (run_lift_bind _ _ _ _ Hts).
  rewrite (run_ok_bind _ _ _ _ _ (modify_t_run _ m t Ht)).
  exact (setupExitEnter_run (with_t (Some (tx_set_targets (Mach.Index m targets2) targets2 t)) m)
    _ called eq_refl Hc).
Qed.

Record auto_result (m : Machine) (mut : Mutation) (called targets targets2 : list string)
    (r : Z) (m' : Machine) : Prop := {
  ar_kept : m'.(m_flags) = m.(m_flags) ∧ m'.(m_sp) = m.(m_sp)
            ∧ waits m' = waits m;
  ar_queue : queue_kept m m' ∧ queue m' = queue m;
  ar_result : r = if accepts mut (schema m) called targets
                     && bool_decide (length (activeStates m) < length targets2)%nat
                  then Executed else Canceled;
  ar_states : m'.(m_st) = if accepts mut (schema m) called targets
                          then (setActiveStates called targets2 m).(m_st) else m.(m_st);
  ar_tx : ∃ t, m'.(m_t) = Some t ∧ t.(tx_Mutation) = mut
            ∧ t.(tx_IsAccepted) = accepts mut (schema m) called targets
            ∧ t.(tx_ClockBefore) = clock m ∧ t.(tx_TimeAfter) = Mach.time m' None;
}.

Lemma auto_returns mut m called targets targets2 :
  quiet m → named m → well_called m mut called →
  mut.(mut_Type) = MutationAdd → mut.(mut_IsAuto) = true → mut.(mut_IsCheck) = false →
  targets_of m mut called = Ok targets → targets ⊆ stateNames m →
  auto_targets m mut called targets = Ok targets2 → NoDup targets2 → targets2 ⊆ stateNames m →
  returns (newTransition randId mut ;; emitEvents done bindings autoOrder) m
    (auto_result m mut called targets targets2).
Proof.
  intros Hq Hn Hw Hty Hauto Hcheck Hts Hsub Hts2 Hnd2 Hsub2. pose proof Hw as [W1 W2 W3 W4].
  destruct (newTransition_returns mut m called targets Hq Hn W1 Hts Hsub) as (tAfter & Hnew & _).
  apply returns_bind. eexists _, _. split; [exact Hnew|].
  set (t := tx_ready randId m mut called targets tAfter). set (m1 := with_t (Some t) m).
  assert (Ht : tx_Mutation t = mut ∧ tx_IsAccepted t = accepts mut (schema m) called targets
    ∧ tx_TargetStates t = targets ∧ tx_TimeBefore t = Mach.time m None
    ∧ tx_ClockBefore t = clock m ∧ tx_StatesBefore t = activeStates m).
  { unfold t, tx_ready. by destruct (accepts _ _ _ _) eqn:E. }
  destruct Ht as (Hmut & Hacc & Htt & Htb & Hcb & Hsb).
  assert (Hcalled : Tx.CalledStates m1 t = Ok called).
  { unfold Tx.CalledStates. rewrite Hmut. exact W1. }
  unfold returns.
  rewrite (emitEvents_quiet m1 t called); [|by apply quiet_with_t|done|by rewrite Hmut|exact Hcalled].
  rewrite Hacc. apply returns_bind. unfold execute, returns.
  rewrite (run_get_t_bind _ m1 t) by done. unfold Tx.IsAuto. rewrite Hmut, Hauto.
  assert (Hres : Relations.TargetStates (resolver m1 t)
    (statesToSet m1 MutationAdd (StatesDiff called (StatesDiff called t.(tx_TargetStates)))) = Ok targets2).
  { rewrite Htt. unfold resolver, Tx.Type_, Tx.StatesBefore. rewrite Hmut, Hsb. exact Hts2. }
  rewrite (run_ok_bind _ _ _ _ _ (resolveAgain_run m1 t called targets2 eq_refl Hcalled Hres)).
  set (t2 := tx_set_moves _ _ _). change (with_t (Some t2) m1) with (with_t (Some t2) m).
  set (m2 := with_t (Some t2) m). rewrite Htb, (time_fmap m) by apply Hq.
  destruct (accepts mut (schema m) called targets) eqn:Ha.
  - eapply returns_mono.
    { apply (settle_accepted m2 t2 called (clock m));
        [by apply quiet_with_t|by apply named_with_t|done|done|done|].
      change (tx_Mutation t2) with (tx_Mutation t). rewrite Hmut. exact W1. }
    intros r m3 (-> & F1 & F2 & F3 & F4 & F5 & F6 & t3 & Ht3 & [T1 T2 T3 [T4 T4'] T5]).
    change (tx_TargetStates t2) with targets2 in T3, F3, F6.
    change (tx_Mutation t2) with (tx_Mutation t) in T1, F6. rewrite Hmut in T1, F6.
    unfold m2 in F3, F6. rewrite set_with_t in F3, F6. rewrite Hauto in F6. cbn [negb] in F6.
    rewrite andb_false_r in F6. destruct F6 as [[Hqu _]|[? _]]; [|done].
    assert (Hact : activeStates m3 = targets2).
    { unfold activeStates. rewrite F3. cbn. apply setActiveStates_active, Hq. }
    apply returns_bind. eexists _, _. split; [by apply modify_t_run|].
    rewrite bool_decide_eq_false_2 by done. set (m4 := with_t _ m3).
    assert (Hn4 : named m4).
    { apply (named_kept (setActiveStates called targets2 m)); [|exact F3|by apply named_set].
      change (m_sp m3 = m_sp (setActiveStates called targets2 m)). rewrite F2.
      by destruct (set_kept called targets2 m) as (_ & -> & _). }
    eapply returns_mono.
    { eapply (final_result_returns m4 (tx_set_completed t3) called); try done.
      - apply quiet_with_t, (quiet_kept m); done.
      - change (activeStates m3 = tx_TargetStates t3). congruence.
      - unfold stateNames. change (m_sp m4) with (m_sp m3). rewrite F2. exact W3.
      - unfold Tx.Type_. cbn. rewrite T1, Hty. done. }
    intros r m' [-> ->]. unfold Tx.Type_. cbn. rewrite T1, Hauto, Hty, T3, T4.
    change (tx_StatesBefore t2) with (tx_StatesBefore t). rewrite Hsb.
    split; rewrite ?Ha.
    + split_and!; [exact F1|exact F2|exact F4].
    + destruct F5 as [K1 K2 K3 K4]. split; [by split|exact Hqu].
    + done.
    + exact F3.
    + eexists. split; [reflexivity|]. cbn. split_and!; [done|..|exact T5].
      * rewrite T2. exact Hacc.
      * rewrite T4'. exact Hcb.
  - rewrite (settle_canceled m2 t2) by (done || apply Hq).
    eexists _, _. split; [reflexivity|]. rewrite bool_decide_eq_true_2 by done.
    apply returns_bind. eexists _, _. split; [by apply modify_t_run|]. apply returns_ret.
    split; rewrite ?Ha; try done.
    eexists. split; [reflexivity|]. cbn. split_and!; try done.
Qed.

(** ** Processing the queue ends *)

Definition no_queries (m : Machine) : Prop :=
  m.(m_subs).(sm_query).(qi_whenQuery) = [] ∧ m.(m_subs).(sm_query).(qi_whenQueryCtx) = ∅.

(** Subscriptions closed after a transition, and nothing else. *)
Lemma processSubscriptions_returns m t :
  m.(m_t) = Some t → no_queries m →
  returns (processSubscriptions done) m (λ _ m', m'.(m_flags) = m.(m_flags)
    ∧ m'.(m_sp) = m.(m_sp) ∧ m'.(m_st) = m.(m_st) ∧ m'.(m_q) = m.(m_q) ∧ waits m' = waits m).
Proof.
  intros Ht [H1 H2]. unfold processSubscriptions. apply returns_bind. exists m, m. split; [done|].
  apply returns_bind. exists t, m. split; [unfold get_t; by rewrite Ht|].
  destruct (process_all_no_queries done (clock m) (Tx.ClockBefore t) (queueTick m)
    t.(tx_cacheActivated) t.(tx_cacheDeactivated) m.(m_subs) H1 H2) as (sm' & chs & He & Ha & Hqu).
  apply returns_bind. exists (sm', chs), m. split; [unfold lift; by rewrite He|].
  eexists _, _. split; [done|]. unfold waits. cbn. by rewrite Ha, Hqu.
Qed.

(** What a queued mutation must be like: a mutation of known states, not a
    check or an eval. *)
Definition good (m : Machine) (mut : Mutation) : Prop :=
  mut.(mut_IsCheck) = false ∧ mut.(mut_Type) ≠ mutationEval ∧ 0 ≤ mut.(mut_QueueTick)
  ∧ (mut.(mut_IsAuto) = true → mut.(mut_Type) = MutationAdd)
  ∧ ∃ called, well_called m mut called.

Lemma good_sp m m' mut : m'.(m_sp) = m.(m_sp) → good m mut → good m' mut.
Proof.
  intros Hsp (H1 & H2 & H3 & H4 & c & [W1 W2 W3 W4]). split_and!; [done..|]. exists c.
  split; unfold called_of, stateNames in *; by rewrite ?Hsp.
Qed.

(** A machine whose queue can be processed without handlers. *)
Record drainable (m : Machine) : Prop := {
  dr_quiet : quiet m;
  dr_named : named m;
  dr_queries : no_queries m;
  dr_good : Forall (good m) (queue m);
  dr_len : queueLen m = wrap32 (Z.of_nat (length (queue m))) ∧ Z.of_nat (length (queue m)) < 2 ^ 32 - 1;
  dr_ok : queue_ok m.(m_q);
}.

(** Each mutation can queue one auto mutation, which queues none. *)
Definition weight (l : list Mutation) : nat :=
  sum_list_with (λ mut, if mut.(mut_IsAuto) then 1 else 2)%nat l.

(** The mutation of the auto states is itself a good mutation. *)
Lemma auto_mutation_good m toAdd mut :
  named m → auto_mutation m toAdd mut → NoDup toAdd → (∀ s, s ∈ toAdd → s ∈ stateNames m) →
  good m mut.
Proof.
  intros Hn [A1 A2 A3 A4 A5 (A6 & A7 & A8)] Hnd Hk. split_and!; try done; try congruence; [lia|].
  exists toAdd. split; try done. unfold called_of. by rewrite A5.
Qed.

Lemma due_known m s : named m → due m s → s ∈ stateNames m.
Proof.
  intros [_ Hk _ _ _] (Hauto & _). apply Hk. unfold schema_get in Hauto.
  by destruct (schema m !! s).
Qed.

(** What one popped mutation does to the queue. *)
Definition shrinks (mut : Mutation) (m m' : Machine) : Prop :=
  (queue m' = queue m ∨ mut.(mut_IsAuto) = false ∧ ∃ a, queue m' = a :: queue m ∧ good m' a
     ∧ a.(mut_IsAuto) = true ∧ a.(mut_QueueTick) = 0).

Lemma transition_returns mut m :
  quiet m → named m → good m mut →
  returns (newTransition randId mut ;; emitEvents done bindings autoOrder) m (λ r m',
    m'.(m_flags) = m.(m_flags) ∧ m'.(m_sp) = m.(m_sp) ∧ waits m' = waits m ∧ named m'
    ∧ queue_kept m m' ∧ shrinks mut m m' ∧ is_Some m'.(m_t)).
Proof.
  intros Hq Hn (Hc & Hty & _ & Hauto & called & Hw). pose proof Hw as [W1 W2 W3 W4].
  destruct (targets_known m (resolver_of m mut) (statesToSet m mut.(mut_Type) called))
    as (targets & Hts & Hnd & Hsub); [done|done|apply Hq|by apply statesToSet_known|].
  destruct (mut_IsAuto mut) eqn:Ha.
  - specialize (Hauto eq_refl).
    destruct (targets_known m (resolver_of m mut)
      (statesToSet m MutationAdd (StatesDiff called (StatesDiff called targets))))
      as (targets2 & Hts2 & Hnd2 & Hsub2); [done|done|apply Hq| |].
    { apply statesToSet_known; [done|]. intros s [Hs _]%elem_of_StatesDiff. auto. }
    eapply returns_mono; [by apply (auto_returns mut m called targets targets2)|].
    intros r m' [(R1 & R2 & R3) [R4 R5] _ R7 (t & R8 & _)].
    assert (Hn' : named m').
    { destruct (accepts _ _ _ _); [|by apply (named_kept m)].
      apply (named_kept (setActiveStates called targets2 m)); [|done|by apply named_set].
      rewrite R2. by destruct (set_kept called targets2 m) as (_ & -> & _). }
    do 4 (split; [done|]). split; [done|]. split; [by left|by eexists].
  - eapply returns_mono; [by apply (mutation_returns mut m called targets)|].
    intros r m' [(R1 & R2 & R3) R4 _ R6 R7 (t & R8 & _)].
    assert (Hn' : named m').
    { destruct (accepts _ _ _ _); [|by apply (named_kept m)].
      apply (named_kept (setActiveStates called targets m)); [|done|by apply named_set].
      rewrite R2. by destruct (set_kept called targets m) as (_ & -> & _). }
    do 4 (split; [done|]). split; [done|]. split; [|by eexists].
    destruct (accepts _ _ _ _); [|by left].
    destruct R7 as [[R7 _]|(_ & a & toAdd & R7 & Am & _ & Hndup & Hl)]; [by left|right].
    split; [done|]. exists a. split; [done|]. pose proof Am as [_ A2 _ _ _ (_ & A7 & _)].
    split_and!; [|done..]. eapply auto_mutation_good; try done.
    intros s Hs%Hl. by apply due_known.
Qed.

Lemma run_bind_assoc {S A B C} (e : run S A) (f : A → run S B) (g : B → run S C) s :
  ((e ≫= f) ≫= g) s = (e ≫= (λ a, f a ≫= g)) s.
Proof. unfold mbind, run_bind. by destruct (e s) as [[]| |]. Qed.

Lemma runMutation_returns mut m :
  quiet m → named m → no_queries m → good m mut →
  returns (runMutation randId done bindings autoOrder evals mut) m (λ r m',
    is_Some r ∧ m'.(m_flags) = m.(m_flags) ∧ m'.(m_sp) = m.(m_sp) ∧ waits m' = waits m ∧ named m'
    ∧ queue_kept m m' ∧ shrinks mut m m').
Proof.
  intros Hq Hn Hnq Hg. unfold runMutation.
  destruct (match mut_ctx mut with Some c => done c | None => false end).
  { apply returns_ret. do 5 (split; [by eauto|]). split; [by split|by left]. }
  pose proof Hg as (Hc & Hty & _). rewrite bool_decide_eq_false_2 by done.
  unfold returns. rewrite <- run_bind_assoc.
  apply returns_bind. eapply returns_mono; [by apply transition_returns|].
  intros res m1 (F1 & F2 & F3 & F4 & F5 & F6 & [t Ht]).
  apply returns_bind. exists t, m1. split; [unfold get_t; by rewrite Ht|]. rewrite Hc.
  assert (Hnq1 : no_queries m1).
  { unfold waits in F3. injection F3 as _ F3. unfold no_queries. by rewrite F3. }
  apply returns_bind. destruct (tx_IsAccepted t).
  - eapply returns_mono; [by eapply processSubscriptions_returns|].
    intros [] m2 (G1 & G2 & G3 & G4 & G5). apply returns_ret.
    split; [by eexists|]. split; [congruence|]. split; [congruence|]. split; [congruence|].
    split; [by apply (named_kept m1)|]. split.
    + destruct F5 as [K1 K2 K3 K4]. unfold queueTick, pending, queueLen, queue in *.
      split; unfold queueTick, pending, queueLen, queue; rewrite ?G4; done.
    + unfold shrinks, queue in *. rewrite G4. destruct F6 as [?|[? (a & ? & Ha & ?)]]; [by left|right].
      split; [done|]. exists a. split_and!; try tauto. by apply (good_sp m1).
  - apply returns_ret, returns_ret. split; [by eexists|]. done.
Qed.

(** The same, with what the mutation does. *)
Lemma runMutation_exact mut m called targets :
  quiet m → named m → no_queries m → well_called m mut called →
  mut.(mut_IsAuto) = false → mut.(mut_IsCheck) = false → mut.(mut_Type) ≠ mutationEval →
  mut.(mut_ctx) = None →
  targets_of m mut called = Ok targets → NoDup targets → targets ⊆ stateNames m →
  returns (runMutation randId done bindings autoOrder evals mut) m (λ r m', ∃ res m1,
    r = Some res ∧ mutation_result m mut called targets res m1
    ∧ m'.(m_flags) = m1.(m_flags) ∧ m'.(m_sp) = m1.(m_sp) ∧ m'.(m_st) = m1.(m_st)
    ∧ m'.(m_q) = m1.(m_q)).
Proof.
  intros Hq Hn Hnq Hw Ha Hc Hty Hctx Hts Hnd Hsub. unfold runMutation.
  rewrite Hctx, bool_decide_eq_false_2 by done. unfold returns. rewrite <- run_bind_assoc.
  apply returns_bind. eapply returns_mono; [by apply (mutation_returns mut m called targets)|].
  intros res m1 Hres. pose proof Hres as [(_ & _ & F3) _ _ _ _ (t & Ht & _)].
  apply returns_bind. exists t, m1. split; [unfold get_t; by rewrite Ht|]. rewrite Hc.
  apply returns_bind. destruct (tx_IsAccepted t).
  - eapply returns_mono; [eapply processSubscriptions_returns; [exact Ht|]|].
    { unfold waits in F3. injection F3 as _ F3. unfold no_queries. by rewrite F3. }
    intros [] m2 (G1 & G2 & G3 & G4 & _). apply returns_ret. by exists res, m1.
  - apply returns_ret, returns_ret. by exists res, m1.
Qed.

Lemma shrinks_weight mut m m' :
  shrinks mut m m' → (weight (queue m') < weight (mut :: queue m))%nat.
Proof.
  unfold weight. cbn [sum_list_with]. intros [->|[-> (a & -> & _ & Ha & _)]].
  - destruct (mut_IsAuto mut); lia.
  - cbn [sum_list_with]. rewrite Ha. lia.
Qed.

Lemma shrinks_ok mut m m' :
  shrinks mut m m' → queue_kept m m' → queue_ok m.(m_q) → queue_ok m'.(m_q).
Proof.
  intros Hs [K1 K2 _ _] [Q1 Q2 Q3 Q4]. unfold queueTick, pending in *.
  split; rewrite ?K1, ?K2; try done. rewrite <- Q1. f_equal. unfold shrinks, queue in Hs.
  destruct Hs as [->|[_ (a & -> & _ & _ & Ha)]]; [done|].
  rewrite filter_cons_False by (unfold ticking; lia). done.
Qed.

Lemma shrinks_good mut m m' :
  shrinks mut m m' → m'.(m_sp) = m.(m_sp) → Forall (good m) (queue m) → Forall (good m') (queue m').
Proof.
  intros Hs Hsp Hg. assert (Hg' : Forall (good m') (queue m)).
  { eapply Forall_impl; [exact Hg|]. intros x. by apply good_sp. }
  destruct Hs as [->|[_ (a & -> & Ha & _)]]; [done|by constructor].
Qed.

(** The loop, with enough fuel, empties the queue. *)
Lemma queueLoop_drains fuel ret m :
  drainable m → (weight (queue m) ≤ fuel)%nat →
  returns (queueLoop randId done bindings autoOrder evals fuel ret) m (λ r m',
    (∃ l, r = Some (ret ++ l)) ∧ queue m' = [] ∧ drainable m' ∧ m'.(m_flags) = m.(m_flags)
    ∧ m'.(m_sp) = m.(m_sp) ∧ queueTick m' = queueTick m + pending m ∧ pending m' = 0).
Proof.
  revert ret m. induction fuel as [|fuel IH]; intros ret m [D1 D2 D3 D4 [D5 D5'] D6] Hfuel.
  all: destruct (queue m) as [|mut rest] eqn:Hqu.
  1, 3: assert (Hp : pending m = 0);
    [destruct D6 as [Q1 Q2 _ _]; unfold queue, pending in *; rewrite Hqu in Q1;
     destruct (decide (q_queueTicksPending (m_q m) = 0)) as [|Hne]; [done|];
     rewrite (seqZ_cons _ (q_queueTicksPending _)) in Q1 by lia; done|];
    cbn [queueLoop]; apply returns_bind; exists m, m; split; [done|];
    rewrite D5; cbn; apply returns_ret; split_and!; try done; [by exists []; rewrite app_nil_r| |lia];
    split; try done; rewrite ?Hqu; done.
  { unfold weight in Hfuel. cbn in Hfuel. destruct (mut_IsAuto mut); lia. }
  cbn [queueLoop]. apply returns_bind. exists m, m. split; [done|].
  cbn [length] in D5, D5'.
  assert (Hl : queueLen m = Z.of_nat (S (length rest))).
  { rewrite D5. apply Z.mod_small. lia. }
  rewrite bool_decide_eq_true_2 by lia. cbn [negb].
  assert (Hdis : disposing m = false) by apply D1. rewrite Hdis, Hqu.
  apply Forall_cons in D4 as [Hmut Hrest].
  apply returns_bind. eexists _, _. split; [done|]. set (m1 := with_q _ m).
  destruct (queue_ok_pop_front mut rest m.(m_q) D6 Hqu) as [Hok1 Htick]; [apply Hmut|].
  apply returns_bind. eapply returns_mono.
  { apply (runMutation_returns mut m1); [by destruct D1|by apply (named_kept m)|done|by apply (good_sp m)]. }
  intros r m2 ([v ->] & F1 & F2 & F3 & F4 & F5 & F6).
  assert (Hw : (weight (queue m2) < weight (mut :: rest))%nat) by exact (shrinks_weight _ _ _ F6).
  eapply returns_mono.
  { apply IH; [|lia]. split.
    - apply (quiet_kept m); done.
    - done.
    - unfold waits in F3. injection F3 as _ F3. unfold no_queries. by rewrite F3.
    - apply (shrinks_good mut m1); [done..|]. eapply Forall_impl; [exact Hrest|]. intros x. by apply good_sp.
    - split; [by apply F5|]. destruct F6 as [->|[_ (a & -> & _)]]; cbn; lia.
    - by apply (shrinks_ok mut m1). }
  intros r m3 ([l ->] & G1 & G2 & G3 & G4 & G5 & G6). split_and!; try done.
  - exists (v :: l). by rewrite <- (assoc_L (++)).
  - by rewrite G3, F1.
  - by rewrite G4, F2.
  - rewrite G5. destruct F5 as [-> -> _ _]. exact (pop_front_total mut rest m.(m_q) D6 Hqu).
Qed.

Lemma drainable_idle m processing running t :
  drainable m → drainable (set_processing processing running (with_t t m)).
Proof.
  intros [D1 D2 D3 D4 D5 [Q1 Q2 Q3 Q4]]. split; [|by apply (named_kept m)|done| |done|by split].
  - by destruct D1.
  - eapply Forall_impl; [exact D4|]. intros x. by apply good_sp.
Qed.

Lemma queueEnds_returns m :
  returns queueEnds m (λ _ m', m'.(m_flags) = m.(m_flags) ∧ m'.(m_sp) = m.(m_sp)
    ∧ m'.(m_st) = m.(m_st) ∧ m'.(m_q) = m.(m_q) ∧ m'.(m_t) = m.(m_t) ∧ waits m' = waits m).
Proof. eexists _, _. by split. Qed.

Lemma drainable_kept m m' :
  m'.(m_flags) = m.(m_flags) → m'.(m_sp) = m.(m_sp) → m'.(m_st) = m.(m_st) →
  m'.(m_q) = m.(m_q) → waits m' = waits m → drainable m → drainable m'.
Proof.
  intros Hf Hsp Hst Hq Hw [D1 D2 D3 D4 D5 D6]. unfold queueLen, queue in *.
  split; unfold queueLen, queue; rewrite ?Hq; try done.
  - by apply (quiet_kept m).
  - by apply (named_kept m).
  - unfold waits in Hw. injection Hw as _ Hw. unfold no_queries. by rewrite Hw.
  - eapply Forall_impl; [exact D4|]. intros x. by apply good_sp.
Qed.

(** A machine that is not processing anything. *)
Definition idle (m : Machine) : Prop :=
  queue m = [] ∧ m.(m_q).(q_queueProcessing) = false ∧ m.(m_t) = None.

(** The end of [processQueue], after its loop. *)
Lemma processQueue_ends m ret :
  queue m = [] →
  returns (modify (λ m, set_processing false false (with_t None m)) ;; queueEnds ;;
           mret (match ret with [] => Canceled | v :: _ => v end)) m
    (λ r m', r = match ret with [] => Canceled | v :: _ => v end ∧ idle m'
      ∧ (drainable m → drainable m')
      ∧ queueTick m' = queueTick m ∧ pending m' = pending m
      ∧ m'.(m_st) = m.(m_st) ∧ m'.(m_sp) = m.(m_sp) ∧ m'.(m_flags) = m.(m_flags)).
Proof.
  intros Hq. apply returns_bind. eexists _, _. split; [done|].
  apply returns_bind. eapply returns_mono; [apply queueEnds_returns|].
  intros [] m' (H1 & H2 & H3 & H4 & H5 & H6). apply returns_ret. split; [done|].
  unfold idle, queueTick, pending, queue. rewrite H3, H4, H5. split; [done|].
  split; [|done]. intros Hd. by apply (drainable_kept (set_processing false false (with_t None m)));
    [..|apply drainable_idle].
Qed.

Lemma processQueue_start fuel m :
  drainable m → queue m ≠ [] → m.(m_q).(q_queueProcessing) = false →
  processQueue randId done bindings autoOrder evals fuel m
  = (r ← queueLoop randId done bindings autoOrder evals fuel [];
     match r with
     | None => mret Canceled
     | Some ret =>
         modify (λ m, set_processing false false (with_t None m)) ;; queueEnds ;;
         mret (match ret with [] => Canceled | v :: _ => v end)
     end) (set_processing true false m).
Proof.
  intros [D1 _ _ _ [D5 D5'] _] Hne Hp. unfold processQueue. rewrite run_get_bind.
  assert (Hl : queueLen m ≠ 0).
  { rewrite D5. unfold wrap32. rewrite Z.mod_small by lia. by destruct (queue m). }
  rewrite bool_decide_eq_false_2 by done. destruct D1 as [[-> _] _ _]. cbn [orb]. by rewrite Hp, run_modify_bind.
Qed.

(** Processing a queue of one mutation. *)
Lemma processQueue_step fuel m mut :
  disposing m = false → queueLen m = 1 → queue m = [mut] → m.(m_q).(q_queueProcessing) = false →
  (1 ≤ fuel)%nat →
  processQueue randId done bindings autoOrder evals fuel m
  = (v ← runMutation randId done bindings autoOrder evals mut;
     r ← queueLoop randId done bindings autoOrder evals (fuel - 1)
           (match v with Some v => [v] | None => [] end);
     match r with
     | None => mret Canceled
     | Some ret =>
         modify (λ m, set_processing false false (with_t None m)) ;; queueEnds ;;
         mret (match ret with [] => Canceled | v :: _ => v end)
     end) (with_q (pop_front mut [] (m_q (set_processing true false m))) (set_processing true false m)).
Proof.
  intros Hd Hl Hq Hp Hf. destruct fuel as [|fuel]; [lia|]. unfold processQueue.
  rewrite run_get_bind, Hl, Hd, Hp. rewrite bool_decide_eq_false_2 by lia. cbn [orb].
  rewrite run_modify_bind. cbn [queueLoop]. rewrite run_bind_assoc, run_get_bind.
  change (queueLen (set_processing true false m)) with (queueLen m). rewrite Hl.
  change (disposing (set_processing true false m)) with (disposing m). rewrite Hd.
  change (queue (set_processing true false m)) with (queue m). rewrite Hq.
  cbn [negb]. rewrite bool_decide_eq_true_2 by lia. cbn [negb].
  rewrite run_bind_assoc, run_modify_bind, run_bind_assoc.
  by replace (S fuel - 1)%nat with fuel by lia.
Qed.

(** ** Properties *)

(** The time predicted when a transition is created, before any handler has
    run, is exactly the machine time after its states are set. *)
Theorem predict_exact mut m called targets m' :
  quiet m → named m → mut.(mut_IsCheck) = false →
  called_of m mut = Ok called → targets_of m mut called = Ok targets → targets ⊆ stateNames m →
  newTransition randId mut m = Ok ((), m') →
  ∃ t, m'.(m_t) = Some t ∧ t.(tx_TimeBefore) = Mach.time m None
    ∧ t.(tx_TimeAfter) = Mach.time (setActiveStates called targets m) None.
Proof.
  intros Hq Hn Hc Hcalled Hts Hsub He.
  destruct (newTransition_returns mut m called targets Hq Hn Hcalled Hts Hsub) as (tAfter & Hnew & Ht).
  rewrite Hnew in He. injection He as <-. eexists. split; [reflexivity|]. rewrite <- Ht by done.
  unfold tx_ready. by destruct (accepts _ _ _ _).
Qed.

(** C4: A mutation of known states always runs to an end when no handlers are
    bound, and does what the reference semantics says: rejected, it changes
    nothing; accepted, it sets the target states of its relations, ticks them,
    and queues exactly the auto states that are due - unless nothing changed or
    it was a health check. *)
Theorem mutation_semantics mut m called :
  quiet m → named m → well_called m mut called →
  mut.(mut_IsAuto) = false → mut.(mut_IsCheck) = false →
  ∃ targets, targets_of m mut called = Ok targets ∧ targets ⊆ stateNames m ∧
    returns (newTransition randId mut ;; emitEvents done bindings autoOrder) m
      (mutation_result m mut called targets).
Proof.
  intros Hq Hn Hw Ha Hc.
  destruct (targets_known m (resolver_of m mut) (statesToSet m mut.(mut_Type) called))
    as (targets & Hts & Hnd & Hsub); [done|done|apply Hq|by apply statesToSet_known, Hw|].
  exists targets. split_and!; [done..|]. by apply mutation_returns.
Qed.

(** An auto mutation sets the auto states its relations allow, and what these
    need, and no others; it never queues anything. It answers [Canceled]
    although its states were set when it does not raise their number. *)
Theorem auto_semantics mut m called :
  quiet m → named m → well_called m mut called →
  mut.(mut_Type) = MutationAdd → mut.(mut_IsAuto) = true → mut.(mut_IsCheck) = false →
  ∃ targets targets2, targets_of m mut called = Ok targets
    ∧ auto_targets m mut called targets = Ok targets2 ∧
    returns (newTransition randId mut ;; emitEvents done bindings autoOrder) m
      (auto_result m mut called targets targets2).
Proof.
  intros Hq Hn Hw Hty Ha Hc. pose proof Hw as [_ _ W3 _].
  destruct (targets_known m (resolver_of m mut) (statesToSet m mut.(mut_Type) called))
    as (targets & Hts & Hnd & Hsub); [done|done|apply Hq|by apply statesToSet_known|].
  destruct (targets_known m (resolver_of m mut)
    (statesToSet m MutationAdd (StatesDiff called (StatesDiff called targets))))
    as (targets2 & Hts2 & Hnd2 & Hsub2); [done|done|apply Hq| |].
  { apply statesToSet_known; [done|]. intros s [Hs _]%elem_of_StatesDiff. auto. }
  exists targets, targets2. split_and!; [done..|]. by apply auto_returns.
Qed.

(** C6: Processing the queue ends: with as much fuel as one round per auto mutation
    and two per other mutation, every mutation queued is taken off, the queue
    tick reaches the last tick promised, and the machine is idle again. *)
Theorem processQueue_drains fuel m :
  drainable m → queue m ≠ [] → m.(m_q).(q_queueProcessing) = false →
  (weight (queue m) ≤ fuel)%nat →
  returns (processQueue randId done bindings autoOrder evals fuel) m (λ _ m',
    idle m' ∧ drainable m' ∧ queueTick m' = queueTick m + pending m ∧ pending m' = 0).
Proof.
  intros Hd Hne Hp Hf. unfold returns. rewrite processQueue_start by done. apply returns_bind.
  eapply returns_mono.
  { apply (queueLoop_drains fuel [] (set_processing true false m)); [|exact Hf].
    apply (drainable_kept (set_processing true false (with_t m.(m_t) m))); [done..|].
    by apply drainable_idle. }
  intros r m1 ([l ->] & H1 & H2 & H3 & H4 & H5 & H6).
  eapply returns_mono; [by apply processQueue_ends|].
  intros r m2 (_ & E1 & E2 & E3 & E4 & _). split_and!; [done|auto| |lia]. rewrite E3, H5. done.
Qed.

(** ** One call, from idle to idle *)

Definition mutate (ty : MutationType) (states : list string) (args : gmap string Val) : ApiCall :=
  match ty with
  | MutationAdd => CallAdd states args
  | MutationRemove => CallRemove states args
  | MutationSet | mutationEval => CallSet states args
  end.

Lemma queueMutation_idle ty states args ev m :
  drainable m → idle m → NoDup states → states ⊆ stateNames m → queueTick m + 1 < two64 →
  pending m = 0 ∧ ∃ mut,
    queueMutation ty states args ev m
    = Ok (queueTick m + 1, with_q (push_back mut m.(m_q)) m)
    ∧ mut.(mut_Type) = ty ∧ mut.(mut_Called) = StatesToIndex (stateNames m) states
    ∧ mut.(mut_IsAuto) = false ∧ mut.(mut_IsCheck) = false ∧ mut.(mut_ctx) = None
    ∧ mut.(mut_cacheCalled) = Some states ∧ mut.(mut_QueueTick) = queueTick m + 1.
Proof.
  intros [[[Hd _] _ _] [N1 N2 N3 N4 N5] _ _ _ Hok] (Hq & _ & _) Hnd Hk Hmax.
  assert (Hp : pending m = 0).
  { destruct Hok as [Q1 Q2 _ _]. unfold queue, pending in *. rewrite Hq in Q1.
    destruct (decide (q_queueTicksPending (m_q m) = 0)) as [|Hne]; [done|].
    rewrite (seqZ_cons _ (q_queueTicksPending _)) in Q1 by lia. done. }
  split; [done|]. unfold queueMutation. rewrite run_get_bind.
  rewrite (run_lift_bind _ states) by (apply mustParseStates_known; [done..|]; intros s Hs; by apply N2, Hk).
  set (dup := if _ : bool then _ else _).
  assert (Hdup : dup m = Ok (false, m)).
  { unfold dup. destruct (_ && _); [|done]. unfold lift, Mach.detectQueueDuplicates, Mach.IsQueued.
    rewrite Hd. cbn. by rewrite Hq. }
  rewrite (run_ok_bind _ _ _ _ _ Hdup). eexists. split.
  - rewrite run_modify_bind. rewrite Hp, wrap64_add_l.
    replace (0 + 1 + queueTick m) with (queueTick m + 1) by lia.
    rewrite wrap64_id; [reflexivity|]. destruct Hok as [_ _ Q3 _]. unfold is_u64, queueTick in *. lia.
  - cbn. unfold Mach.Index. by rewrite Hd.
Qed.

(** The call queues its mutation and then processes the queue. *)
Lemma mutate_queues (pq : run Machine Z) ty states args m :
  ty ≠ mutationEval → drainable m → idle m → m.(m_flags).(f_backoff) = false →
  0 < m.(m_flags).(f_QueueLimit) →
  api_call pq (mutate ty states args) m
  = (tick ← queueMutation ty states args None; Api.process_queued pq tick) m.
Proof.
  intros Hty [[[Hd _] _ _] _ _ _ [Hl _] _] (Hq & _ & Ht) Hb Hlim.
  assert (Ho : Api.over_limit m = false).
  { unfold Api.over_limit. rewrite Hl, Hq. apply bool_decide_eq_false_2.
    change (wrap16 (wrap32 (Z.of_nat (length (@nil Mutation))))) with 0. lia. }
  destruct ty; [..|done]; cbn [mutate api_call]; unfold Api.Add, Api.Remove, Api.Set_;
    rewrite run_get_bind, ?Hd; unfold Mach.Backoff; rewrite ?Hb, ?Ho; cbn [orb andb]; [done| |done].
  unfold Api.skip_remove. rewrite Ht.
  rewrite (bool_decide_eq_false_2 (is_Some None)) by by apply is_Some_None.
  by rewrite andb_false_r.
Qed.

(** What a call comes to when its guards let it through. *)
Definition queue_process (fuel : nat) (ty : MutationType) (states : list string)
    (args : gmap string Val) (ev : option EventSrc) : run Machine Z :=
  tick ← queueMutation ty states args ev;
  Api.process_queued (processQueue randId done bindings autoOrder evals fuel) tick.

(** An idle machine runs what it is asked at once. *)
Lemma queue_process_returns fuel ty states args ev m :
  ty ≠ mutationEval → drainable m → idle m → NoDup states → states ⊆ stateNames m →
  queueTick m + 1 < two64 → (∀ s, (schema_get (schema m) s).(st_Auto) = false) → (1 ≤ fuel)%nat →
  let mut := newMutation ty (StatesToIndex (stateNames m) states) args false false None in
  ∃ targets, targets_of m mut states = Ok targets ∧
    returns (queue_process fuel ty states args ev) m (λ r m',
      r = (if accepts mut (schema m) states targets then Executed else Canceled)
      ∧ m'.(m_st) = (if accepts mut (schema m) states targets
                     then (setActiveStates states targets m).(m_st) else m.(m_st))
      ∧ m'.(m_sp) = m.(m_sp) ∧ idle m' ∧ queueTick m' = queueTick m + 1).
Proof.
  intros Hty Hd Hi Hnd Hk Hmax Hauto Hfuel mut0. pose proof Hi as (Hq & Hproc & Ht).
  destruct (queueMutation_idle ty states args ev m Hd Hi Hnd Hk Hmax)
    as (Hp & mut & Hqm & M1 & M2 & M3 & M4 & M5 & M6 & M7).
  pose proof Hd as [D1 D2 D3 D4 D5 D6].
  assert (Hw : well_called m mut states) by (split; unfold called_of; by rewrite ?M6).
  destruct (targets_known m (resolver_of m mut0) (statesToSet m ty states))
    as (targets & Hts & Hndt & Hsub); [done|done|apply D1|by apply statesToSet_known|].
  exists targets. split; [done|]. unfold queue_process. apply returns_bind. eexists _, _. split; [exact Hqm|]. set (m1 := with_q _ m).
  unfold Api.process_queued. rewrite bool_decide_eq_false_2.
  2:{ destruct D6 as [_ _ Q3 _]. unfold Executed, queueTick. lia. }
  apply returns_bind. unfold returns.
  assert (Hl1 : queueLen m1 = 1) by (unfold m1, queueLen; cbn; unfold queue in Hq; by rewrite Hq).
  assert (Hq1 : queue m1 = [mut]) by (unfold m1, queue; cbn; unfold queue in Hq; by rewrite Hq).
  rewrite (processQueue_step fuel m1 mut) by (done || apply D1).
  set (m3 := with_q _ _). apply returns_bind. eapply returns_mono.
  { apply (runMutation_exact mut m3 states targets).
    - by destruct D1.
    - by apply (named_kept m).
    - exact D3.
    - destruct Hw as [W1 W2 W3 W4]. by split.
    - exact M3.
    - exact M4.
    - by rewrite M1.
    - exact M5.
    - unfold targets_of. rewrite M1. unfold resolver_of, resolver, Tx.Type_. cbn [tx_start tx_Mutation].
      rewrite M1, M2. exact Hts.
    - exact Hndt.
    - exact Hsub. }
  intros r m4 (res & m5 & -> & [(_ & R1 & _) R2 R3 R4 R5 _] & G1 & G2 & G3 & G4).
  assert (Hacc : accepts mut (schema m3) states targets = accepts mut0 (schema m) states targets).
  { unfold accepts. rewrite M1, M3, M4. reflexivity. }
  rewrite Hacc in R3, R4, R5.
  assert (Hq5 : queue m5 = []).
  { destruct (accepts mut0 _ _ _); [|exact R5].
    destruct R5 as [[R5 _]|(_ & _ & [|s l] & _ & _ & Hne & _ & Hdue)]; [exact R5|done|].
    destruct (proj1 (Hdue s) ltac:(left)) as [Ha _]. unfold schema in Ha. rewrite R1 in Ha.
    change (sp_schema (m_sp m3)) with (schema m) in Ha. by rewrite Hauto in Ha. }
  assert (Hl5 : queueLen m4 = 0).
  { unfold queueLen. rewrite G4. fold (queueLen m5). rewrite (qk_len _ _ R2) by reflexivity.
    by rewrite Hq5. }
  apply returns_bind. exists (Some [res]), m4. split.
  { destruct (fuel - 1)%nat; cbn [queueLoop]; by rewrite run_get_bind, Hl5. }
  eapply returns_mono.
  { apply (processQueue_ends m4 [res]). unfold queue. rewrite G4. exact Hq5. }
  intros r m6 (-> & E1 & _ & E2 & _ & E3 & E4 & _). rewrite R3.
  eexists _, _. split; [reflexivity|]. split; [by destruct (accepts mut0 _ _ _)|].
  split; [rewrite E3, G3, R4; destruct (accepts mut0 _ _ _); [by apply set_st_ext|done]|].
  split; [by rewrite E4, G2, R1|]. split; [done|]. rewrite E2. unfold queueTick. rewrite G4.
  fold (queueTick m5). rewrite (qk_tick _ _ R2). change (queueTick m3) with
    (q_queueTick (pop_front mut [] (push_back mut (m_q m)))).
  destruct D6 as [_ _ Q3 _]. unfold pop_front. cbn [q_queueTick push_back]. rewrite M7.
  unfold queueTick in *. rewrite bool_decide_eq_true_2 by lia. apply wrap64_id. unfold is_u64. lia.
Qed.

(** It is left drainable, with its flags. *)
Lemma queue_process_drains fuel ty states args ev m :
  ty ≠ mutationEval → drainable m → idle m → NoDup states → states ⊆ stateNames m →
  queueTick m + 1 < two64 → (2 ≤ fuel)%nat →
  returns (queue_process fuel ty states args ev) m (λ _ m',
    drainable m' ∧ m'.(m_flags) = m.(m_flags)).
Proof.
  intros Hty Hd Hi Hnd Hk Hmax Hfuel. pose proof Hi as (Hq & Hproc & Ht).
  destruct (queueMutation_idle ty states args ev m Hd Hi Hnd Hk Hmax)
    as (Hp & mut & Hqm & M1 & M2 & M3 & M4 & M5 & M6 & M7).
  unfold queue_process. apply returns_bind. eexists _, _. split; [exact Hqm|]. set (m1 := with_q _ m).
  pose proof Hd as [D1 D2 D3 _ _ D6]. pose proof D6 as [_ _ Q3 _].
  unfold Api.process_queued. rewrite bool_decide_eq_false_2 by (unfold Executed, queueTick in *; lia).
  assert (Hq1 : queue m1 = [mut]) by (unfold m1, queue; cbn; unfold queue in Hq; by rewrite Hq).
  assert (Hd1 : drainable m1).
  { split.
    - by destruct D1.
    - by apply (named_kept m).
    - exact D3.
    - rewrite Hq1. constructor; [|constructor]. split_and!; [done|by rewrite M1| |by rewrite M3|].
      + rewrite M7. unfold queueTick in *. lia.
      + exists states. split; unfold called_of; by rewrite ?M6.
    - rewrite Hq1. split; [|done]. unfold m1, queueLen. cbn. unfold queue in Hq. by rewrite Hq.
    - cbn. unfold queueTick, pending in *. apply queue_ok_push_back; [done|lia|lia]. }
  apply returns_bind. unfold returns. rewrite processQueue_start; [|done|by rewrite Hq1|done].
  apply returns_bind. eapply returns_mono.
  { apply (queueLoop_drains fuel [] (set_processing true false m1)).
    - apply (drainable_kept (set_processing true false (with_t m1.(m_t) m1))); [done..|].
      by apply drainable_idle.
    - change (queue (set_processing true false m1)) with (queue m1). rewrite Hq1. unfold weight.
      cbn. rewrite M3. lia. }
  intros r m2 ([l ->] & H1 & H2 & H3 & _).
  eapply returns_mono; [by apply processQueue_ends|].
  intros r m3 (_ & _ & E2 & _ & _ & _ & _ & E7). apply returns_ret. split; [auto|]. by rewrite E7, H3.
Qed.

(** C1: The whole way of a call on an idle machine whose schema has no auto
    states: the mutation is queued, processed at once and answered, and the
    machine is idle again, in the state the reference semantics gives. *)
Theorem mutate_refines fuel ty states args m :
  ty ≠ mutationEval → drainable m → idle m → m.(m_flags).(f_backoff) = false →
  0 < m.(m_flags).(f_QueueLimit) → NoDup states → states ⊆ stateNames m →
  queueTick m + 1 < two64 → (∀ s, (schema_get (schema m) s).(st_Auto) = false) → (1 ≤ fuel)%nat →
  let mut := newMutation ty (StatesToIndex (stateNames m) states) args false false None in
  ∃ targets, targets_of m mut states = Ok targets ∧
    returns (api_call (processQueue randId done bindings autoOrder evals fuel)
               (mutate ty states args)) m (λ r m',
      r = (if accepts mut (schema m) states targets then Executed else Canceled)
      ∧ m'.(m_st) = (if accepts mut (schema m) states targets
                     then (setActiveStates states targets m).(m_st) else m.(m_st))
      ∧ m'.(m_sp) = m.(m_sp) ∧ idle m' ∧ queueTick m' = queueTick m + 1).
Proof.
  intros Hty Hd Hi Hb Hlim Hnd Hk Hmax Hauto Hfuel mut0.
  destruct (queue_process_returns fuel ty states args None m) as (targets & Hts & Hr); [done..|].
  exists targets. split; [done|]. unfold returns. by rewrite mutate_queues.
Qed.

End semantics.

(** ** Witnesses *)

(** [named] and [well_called] can be checked on concrete machines. *)
Lemma named_check m :
  bool_decide (NoDup (stateNames m)
    ∧ dom (schema m) = (list_to_set (stateNames m) : gset string)
    ∧ Forall (λ s, TrimSpace s = s) (stateNames m)
    ∧ map_Forall (λ _ st, Forall (λ x, x ∈ stateNames m) (elems st.(st_Add))) (schema m)
    ∧ NoDup (activeStates m) ∧ Forall (λ s, s ∈ stateNames m) (activeStates m)) = true → named m.
Proof.
  intros (H1 & H2 & H3 & H4 & H5 & H6)%bool_decide_eq_true.
  rewrite Forall_forall in H3, H6. split; try done.
  - intros s. rewrite <- elem_of_dom, H2. apply elem_of_list_to_set.
  - intros s x Hx. unfold schema_get in Hx. destruct (schema m !! s) as [st|] eqn:E.
    + specialize (H4 s st E). rewrite Forall_forall in H4. by apply H4.
    + by apply not_elem_of_nil in Hx.
Qed.

Lemma well_called_check m mut called :
  bool_decide (mut.(mut_cacheCalled) = Some called
    ∧ mut.(mut_Called) = StatesToIndex (stateNames m) called
    ∧ Forall (λ s, s ∈ stateNames m) called ∧ NoDup called) = true → well_called m mut called.
Proof.
  intros (H1 & H2 & H3 & H4)%bool_decide_eq_true. rewrite Forall_forall in H3.
  split; [unfold called_of; by rewrite H1|done..].
Qed.

(** [A] needs [B], which is active, and [C] comes by itself with [A]. *)
Definition abc_machine (auto : bool) (queue : list Mutation) (pending : Z) : Machine :=
  mkMachine (mkFlags "m" 1000 true false false false false false false None)
    (mkSchemaPart {["A" := set_Require zeroState (Some ["B"]); "B" := zeroState;
                    "C" := set_Auto (set_Require zeroState (Some ["A"])) auto]}
       ["A"; "B"; "C"] [] 0 true)
    (mkStatePart ["B"] {["B" := 1]} ∅)
    (mkQueuePart queue 1 pending 0 (wrap32 (Z.of_nat (length queue))) false false)
    NewSubscriptionManager [] [] None.

Definition abc_mutation (ty : MutationType) (auto : bool) (s : string) (tick : Z) : Mutation :=
  set_queue (newMutation ty (StatesToIndex ["A"; "B"; "C"] [s]) ∅ auto false None) 0 0 tick 0
    (Some [s]).

Definition schema_order (m : Machine) : list string := keys (schema m).

Lemma schema_order_known m s : s ∈ schema_order m ↔ is_Some (schema m !! s).
Proof. apply elem_of_keys. Qed.

Lemma schema_order_nodup m : NoDup (schema_order m).
Proof. apply NoDup_keys. Qed.

Lemma abc_quiet auto queue pending : quiet (abc_machine auto queue pending).
Proof. by split. Qed.

Lemma abc_named auto queue pending : named (abc_machine auto queue pending).
Proof. apply named_check. by destruct auto; vm_compute. Qed.

Abbreviation abc_run := (λ mut m, (newTransition (λ _, "tx") mut ;;
  emitEvents (λ _, false) [] schema_order) m).

Example predict_exact_witness :
  ∃ m' t, newTransition (λ _, "tx") (abc_mutation MutationAdd false "A" 0) (abc_machine true [] 0)
      = Ok ((), m')
    ∧ m'.(m_t) = Some t ∧ t.(tx_TimeAfter) = [1; 1; 0].
Proof.
  destruct (newTransition (λ _, "tx") (abc_mutation MutationAdd false "A" 0) (abc_machine true [] 0))
    as [[[] m']|msg|] eqn:E; [|vm_compute in E; discriminate E..].
  destruct (predict_exact (λ _, "tx") (abc_mutation MutationAdd false "A" 0) (abc_machine true [] 0)
    ["A"] ["A"; "B"] m') as (t & Ht & _ & Ha).
  - apply abc_quiet.
  - apply abc_named.
  - reflexivity.
  - reflexivity.
  - vm_compute. reflexivity.
  - compute_decide.
  - exact E.
  - exists m', t. split; [done|]. split; [exact Ht|]. rewrite Ha. vm_compute. reflexivity.
Defined.

Example mutation_semantics_witness :
  ∃ targets r m', abc_run (abc_mutation MutationAdd false "A" 0) (abc_machine true [] 0) = Ok (r, m')
    ∧ mutation_result (abc_machine true [] 0) (abc_mutation MutationAdd false "A" 0) ["A"] targets r m'
    ∧ activeStates m' = targets ∧ length (queue m') = 1%nat.
Proof.
  destruct (mutation_semantics (λ _, "tx") (λ _, false) [] schema_order (λ _, HEnd true) schema_order_known
    schema_order_nodup (abc_mutation MutationAdd false "A" 0) (abc_machine true [] 0) ["A"])
    as (targets & Ht & _ & r & m' & Hrun & Hres).
  - apply abc_quiet.
  - apply abc_named.
  - apply well_called_check. by vm_compute.
  - reflexivity.
  - reflexivity.
  - exists targets, r, m'. split; [exact Hrun|]. split; [exact Hres|].
    vm_compute in Ht. injection Ht as <-. vm_compute in Hrun. injection Hrun as <- <-. done.
Defined.

Example auto_semantics_witness :
  ∃ r m', abc_run (abc_mutation MutationAdd true "C" 0) (abc_machine true [] 0) = Ok (r, m')
    ∧ r = Canceled ∧ queue m' = [].
Proof.
  destruct (auto_semantics (λ _, "tx") (λ _, false) [] schema_order (λ _, HEnd true) schema_order_known
    schema_order_nodup (abc_mutation MutationAdd true "C" 0) (abc_machine true [] 0) ["C"])
    as (targets & targets2 & Ht & Ht2 & r & m' & Hrun & [_ [_ Hq] Hr _ _]).
  - apply abc_quiet.
  - apply abc_named.
  - apply well_called_check. by vm_compute.
  - reflexivity.
  - reflexivity.
  - reflexivity.
  - exists r, m'. split; [exact Hrun|]. split; [|exact Hq]. rewrite Hr.
    vm_compute in Ht. injection Ht as <-. reflexivity.
Defined.

Definition abc_queue : list Mutation :=
  [abc_mutation MutationAdd false "A" 2; abc_mutation MutationRemove false "B" 3].

Lemma abc_drainable auto : drainable (abc_machine auto abc_queue 2).
Proof.
  split.
  - apply abc_quiet.
  - apply abc_named.
  - done.
  - repeat constructor; try done; [exists ["A"]|exists ["B"]]; apply well_called_check; by vm_compute.
  - done.
  - split; [by vm_compute|cbn; lia..|vm_compute; done].
Qed.

Example processQueue_drains_witness :
  ∃ r m', processQueue (λ _, "tx") (λ _, false) [] schema_order (λ _, HEnd true) 4
      (abc_machine true abc_queue 2) = Ok (r, m') ∧ idle m' ∧ queueTick m' = 3.
Proof.
  destruct (processQueue_drains (λ _, "tx") (λ _, false) [] schema_order (λ _, HEnd true)
    schema_order_known schema_order_nodup 4 (abc_machine true abc_queue 2))
    as (r & m' & Hrun & Hi & _ & Ht & _).
  - apply abc_drainable.
  - discriminate.
  - reflexivity.
  - cbn. lia.
  - exists r, m'. split; [exact Hrun|]. split; [exact Hi|]. rewrite Ht. reflexivity.
Defined.

Lemma abc_idle : drainable (abc_machine false [] 0) ∧ idle (abc_machine false [] 0).
Proof.
  split; [|done]. split; [apply abc_quiet|apply abc_named|done|constructor|done|].
  split; [done|cbn; lia..|vm_compute; done].
Qed.

Example mutate_refines_witness :
  ∃ r m', api_call (processQueue (λ _, "tx") (λ _, false) [] schema_order (λ _, HEnd true) 1)
      (CallRemove ["B"] ∅) (abc_machine false [] 0) = Ok (r, m') ∧ r = Executed ∧ idle m'.
Proof.
  destruct abc_idle as [Hd Hi].
  destruct (mutate_refines (λ _, "tx") (λ _, false) [] schema_order (λ _, HEnd true)
    schema_order_known schema_order_nodup 1 MutationRemove ["B"] ∅ (abc_machine false [] 0))
    as (targets & Ht & r & m' & Hrun & Hr & _ & _ & Hidle & _).
  - discriminate.
  - exact Hd.
  - exact Hi.
  - reflexivity.
  - reflexivity.
  - apply NoDup_singleton.
  - compute_decide.
  - reflexivity.
  - intros s. unfold schema_get. cbn -[lookup].
    change (schema (abc_machine false [] 0)) with
      ({["A" := set_Require zeroState (Some ["B"]); "B" := zeroState;
         "C" := set_Auto (set_Require zeroState (Some ["A"])) false]} : gmap string State).
    rewrite !lookup_insert, lookup_singleton. by repeat case_decide.
  - lia.
  - exists r, m'. split; [exact Hrun|]. split; [|exact Hidle]. rewrite Hr. reflexivity.
Defined.
