(* ===== verification/Invariants.v ===== *)
(** * Invariants of processing the queue

    What every run of [processQueue] keeps, whatever handlers are bound: the
    clock invariant ([parity]), and, for checks, the whole state. *)

From S2P Require Import Prelude StateList SchemaDef MachTime Mutation Relations Subscriptions Machine Queue Transition Run.

#[local] Open Scope Z_scope.

(** ** Frames: queueing changes the queue and the flags only *)

(** The parts of a machine a transition is about. *)
Definition core (m : Machine) := (m.(m_sp), m.(m_st), m.(m_t), disposing m).

Definition keeps_core {A} (e : run Machine A) : Prop := ∀ c, keeps (λ m, core m = c) e.

Lemma keeps_core_modify (f : Machine → Machine) :
  (∀ m, core (f m) = core m) → keeps_core (modify f).
Proof. intros Hf c. apply keeps_modify. intros m Hm. by rewrite Hf. Qed.

Lemma keeps_core_bind {A B} (e : run Machine A) (f : A → run Machine B) :
  keeps_core e → (∀ a, keeps_core (f a)) → keeps_core (e ≫= f).
Proof. intros He Hf c. apply keeps_bind; [apply He|intros a; apply Hf]. Qed.

Lemma keeps_core_ret {A} (a : A) : keeps_core (mret a).
Proof. intros c. apply keeps_ret. Qed.
Lemma keeps_core_get : keeps_core get.
Proof. intros c. apply keeps_get. Qed.
Lemma keeps_core_lift {A} (e : outcome A) : keeps_core (lift e).
Proof. intros c. apply keeps_lift. Qed.

Ltac kcore :=
  repeat match goal with
  | |- keeps_core (mret _) => apply keeps_core_ret
  | |- keeps_core (_ ≫= _) => apply keeps_core_bind; [|intros ?]
  | |- keeps_core get => apply keeps_core_get
  | |- keeps_core (lift _) => apply keeps_core_lift
  | |- keeps_core (modify _) => apply keeps_core_modify; done
  | |- keeps_core (if ?x then _ else _) => destruct x
  | |- keeps_core (match ?x with _ => _ end) => destruct x
  | |- keeps_core _ => solve [eauto with kcore]
  end.
Create HintDb kcore.

Lemma get_t_core : keeps_core get_t.
Proof. intros c m t m' Hm He. unfold get_t in He. destruct (m_t m); by simplify_eq. Qed.

#[export] Hint Resolve get_t_core : kcore.

Lemma queueMutation_core ty l a e : keeps_core (queueMutation ty l a e).
Proof. unfold queueMutation. kcore. Qed.

Lemma processQueue_nested_core : keeps_core processQueue_nested.
Proof. unfold processQueue_nested. kcore. Qed.

#[export] Hint Resolve queueMutation_core processQueue_nested_core : kcore.

Lemma process_queued_core tick : keeps_core (Api.process_queued processQueue_nested tick).
Proof. unfold Api.process_queued. kcore. Qed.

#[export] Hint Resolve process_queued_core : kcore.

Lemma Add_core l a : keeps_core (Api.Add processQueue_nested l a).
Proof. unfold Api.Add. kcore. Qed.
Lemma EvAdd_core e l a : keeps_core (Api.EvAdd processQueue_nested e l a).
Proof. unfold Api.EvAdd. kcore. Qed.
Lemma PrependMut_core mut : keeps_core (Api.PrependMut processQueue_nested mut).
Proof. unfold Api.PrependMut. kcore. Qed.

#[export] Hint Resolve Add_core EvAdd_core PrependMut_core : kcore.

Lemma run_call_core c : keeps_core (run_call c).
Proof.
  unfold run_call. destruct c; cbn [api_call];
    unfold Api.Toggle, Api.Remove, Api.Set_, Api.EvRemove, Api.AddErrState, Api.CanAdd,
      Api.CanRemove; kcore.
Qed.

Lemma run_prog_core p : keeps_core (run_prog p).
Proof.
  induction p as [b|e| | |c k IH|k IH]; cbn [run_prog]; [apply keeps_core_ret..| |].
  - intros c0 m a m' Hm He. destruct (run_call c m) as [[r m1]|msg|] eqn:Hc.
    + eapply (IH r); [|exact He]. by eapply run_call_core.
    + by simplify_eq.
    + done.
  - intros c0 m a m' Hm He. by eapply (IH m).
Qed.

Lemma handlerDeadline_core name : keeps_core (handlerDeadline name).
Proof.
  unfold handlerDeadline, Api.EvAddErr, Api.EvAddErrState. kcore.
Qed.

Lemma handlersDone_core done name args : keeps_core (handlersDone done name args).
Proof. unfold handlersDone. apply keeps_core_modify. intros m. by destruct (ProcessWhenArgs _ _ _ _). Qed.

Lemma cancelStateCtx_core l k : keeps_core (cancelStateCtx l k).
Proof. unfold cancelStateCtx. apply keeps_core_modify. intros m. by destruct (ProcessStateCtx _ _ _). Qed.

#[export] Hint Resolve run_prog_core handlerDeadline_core handlersDone_core cancelStateCtx_core : kcore.

(** A property of the core is kept by code that keeps the core. *)
Lemma keeps_of_core {A} (P : Machine → Prop) (e : run Machine A) :
  (∀ m m', core m = core m' → P m → P m') → keeps_core e → keeps P e.
Proof. intros HP He m a m' Hm Hr. eapply HP, Hm. symmetry. by eapply (He (core m)). Qed.

(** ** The invariant of a machine that processes its queue *)

(** No state is called by the empty name. *)
Definition named_schema (s : gmap string State) : Prop :=
  s !! "" = None ∧ ∀ n, "" ∉ elems (schema_get s n).(st_Add).

(** [allowed]: any property of sets of states that target states of the schema
    [sch0] have, and that smaller sets inherit. *)
Record target_property (sch : gmap string State) (allowed : list string → Prop) : Prop := {
  tp_subseteq : ∀ l l', l' ⊆ l → allowed l → allowed l';
  tp_targets : ∀ rr l ts, rr.(rr_schema) = sch → Relations.TargetStates rr l = Ok ts → allowed ts;
}.

Section inv.
Context (sch0 : gmap string State) (Hsch0 : named_schema sch0).
Context (allowed : list string → Prop) (Hallowed : target_property sch0 allowed).

Record tx_wf (t : Transition) : Prop := {
  tw_nodup : NoDup t.(tx_TargetStates);
  tw_named : "" ∉ t.(tx_TargetStates);
  tw_moves : "" ∉ t.(tx_Exits) ++ t.(tx_Enters);
  tw_allowed : allowed t.(tx_TargetStates);
}.

Record inv (m : Machine) : Prop := {
  in_schema : schema m = sch0;
  in_parity : parity m;
  in_active : "" ∉ activeStates m;
  in_allowed : allowed (activeStates m);
  in_tx : ∀ t, m.(m_t) = Some t → tx_wf t;
}.

Lemma inv_core m m' : core m = core m' → inv m → inv m'.
Proof.
  unfold core. intros He [H1 H2 H3 H4 H5]. injection He as Hsp Hst Ht Hd.
  split; unfold schema, activeStates in *; rewrite <- ?Hsp, <- ?Hst; [done| |done|done|].
  - eapply parity_clock, H2; congruence.
  - intros t Htx. apply H5. congruence.
Qed.

Definition latest (m : Machine) : option (bool * bool * string) :=
  (λ t, (t.(tx_latestHandlerIsEnter), t.(tx_latestHandlerIsFinal), t.(tx_latestHandlerToState)))
  <$> m.(m_t).

Lemma latest_core m m' : core m = core m' → latest m = latest m'.
Proof. unfold core, latest. intros He. simplify_eq. congruence. Qed.

(** The invariant with the latest handler known. *)
Definition inv_at (isEnter isFinal : bool) (to : string) (m : Machine) : Prop :=
  inv m ∧ latest m = Some (isEnter, isFinal, to).

Lemma inv_at_core e f to m m' : core m = core m' → inv_at e f to m → inv_at e f to m'.
Proof. intros He [H1 H2]. split; [by eapply inv_core|]. by rewrite <- (latest_core _ _ He). Qed.

Lemma modify_t_inv_here (f : Transition → Transition) m a m' :
  (∀ t, tx_wf t → tx_wf (f t)) → inv m → modify_t f m = Ok (a, m') → inv m'.
Proof.
  intros Hf [H1 H2 H3 H4 H5] He. unfold modify_t, modify in He. injection He as _ <-.
  split; [done|by apply (parity_clock m)|done|done|].
  intros t Ht. cbn in Ht. destruct (m_t m) as [t0|] eqn:E; [|done]. simplify_eq/=. by apply Hf, H5.
Qed.

Lemma modify_t_inv (f : Transition → Transition) :
  (∀ t, tx_wf t → tx_wf (f t)) → keeps inv (modify_t f).
Proof. intros Hf m a m' Hi. apply modify_t_inv_here; [apply Hf|done]. Qed.

Lemma modify_t_inv_at (f : Transition → Transition) e fi to :
  (∀ t, tx_wf t → tx_wf (f t)) →
  (∀ t, tx_latestHandlerIsEnter (f t) = tx_latestHandlerIsEnter t
      ∧ tx_latestHandlerIsFinal (f t) = tx_latestHandlerIsFinal t
      ∧ tx_latestHandlerToState (f t) = tx_latestHandlerToState t) →
  keeps (inv_at e fi to) (modify_t f).
Proof.
  intros Hf Hl m a m' [H1 H2] He. split; [by eapply modify_t_inv|].
  unfold modify_t, modify in He. simplify_eq. unfold latest in *. cbn.
  destruct (m_t m) as [t|]; [|done]. cbn in *. destruct (Hl t) as (-> & -> & ->). done.
Qed.

Lemma rollback_enter to found finals active :
  NoDup active → "" ∉ active →
  NoDup (rollback true to found finals active) ∧ "" ∉ rollback true to found finals active.
Proof.
  revert found active. induction finals as [|s finals IH]; intros found active Hnd Hn; [done|].
  cbn [rollback]. destruct (negb _); [by apply IH|]. apply IH; [by apply NoDup_slicesWithout|].
  by intros ?%slicesWithout_subseteq.
Qed.

Lemma rollback_subseteq to found finals active : rollback true to found finals active ⊆ active.
Proof.
  revert found active. induction finals as [|s finals IH]; intros found active; [done|].
  cbn [rollback]. destruct (negb _); [apply IH|]. intros x Hx%IH. by eapply slicesWithout_subseteq.
Qed.

Lemma rollback_empty isEnter finals active :
  "" ∉ finals → rollback isEnter "" false finals active = active.
Proof.
  revert active. induction finals as [|s finals IH]; intros active Hn; [done|].
  apply not_elem_of_cons in Hn as [Hs Hn]. cbn [rollback].
  rewrite bool_decide_eq_false_2 by done. cbn. by apply IH.
Qed.

Lemma setActiveStates_inv called targets m :
  NoDup targets → "" ∉ targets → allowed targets → inv m →
  inv (setActiveStates called targets m).
Proof.
  intros Ht Hn Hc [H1 H2 H3 H4 H5].
  assert (Hsch : schema (setActiveStates called targets m) = schema m)
    by (unfold setActiveStates; by destruct (disposing m)).
  split; rewrite ?Hsch; [done|by apply setActiveStates_parity|..].
  - destruct (disposing m) eqn:Hd; [by unfold setActiveStates; rewrite Hd|].
    by rewrite setActiveStates_active.
  - destruct (disposing m) eqn:Hd; [by unfold setActiveStates; rewrite Hd|].
    by rewrite setActiveStates_active.
  - unfold setActiveStates. by destruct (disposing m).
Qed.

Lemma setActiveStates_latest called targets m : latest (setActiveStates called targets m) = latest m.
Proof. unfold setActiveStates. by destruct (disposing m). Qed.

Lemma get_t_hoare (P : Machine → Prop) :
  hoare P get_t (λ t m, P m ∧ m.(m_t) = Some t).
Proof. intros m t m' HP He. unfold get_t in He. destruct (m_t m) eqn:E; by simplify_eq. Qed.

(** Rolling back a failed final handler. *)
Lemma recoverFinalPhase_inv e f to :
  e = true ∨ to = "" → keeps (inv_at e f to) recoverFinalPhase.
Proof.
  intros Hl. apply keeps_hoare. unfold recoverFinalPhase.
  eapply hoare_bind; [apply (hoare_get _ (λ m0 m, inv_at e f to m ∧ m0 = m)); done|]. intros m0.
  eapply hoare_bind; [apply get_t_hoare|]. intros t.
  eapply hoare_bind; [apply hoare_lift|]. intros called.
  apply hoare_modify. intros m [[[[Hi Hlat] ->] Ht] _]. split.
  - unfold latest in Hlat. rewrite Ht in Hlat. cbn in Hlat. simplify_eq.
    destruct Hl as [->| ->].
    + destruct (rollback_enter (tx_latestHandlerToState t) false (tx_Exits t ++ tx_Enters t)
        (activeStates m)) as [H1 H2]; [apply Hi|apply Hi|]. apply setActiveStates_inv; [done..| |done].
      eapply (tp_subseteq _ _ Hallowed); [apply rollback_subseteq|by apply Hi].
    + rewrite rollback_empty by apply (in_tx _ Hi t Ht). apply setActiveStates_inv; apply Hi.
  - by rewrite setActiveStates_latest.
Qed.

Section handlers.
Context (randId : Machine → string) (done : nat → bool) (bindings : list Binding).
Context (autoOrder : Machine → list string) (evals : string → prog).

Section latest.
Context (e f : bool) (to : string) (Hlatest : f = true → e = true ∨ to = "").

Lemma inv_at_keeps_core {A} (p : run Machine A) : keeps_core p → keeps (inv_at e f to) p.
Proof. apply keeps_of_core. intros m m'. apply inv_at_core. Qed.

Lemma modify_flags_core g : (∀ fl, f_disposing (g fl) = f_disposing fl) →
  keeps_core (modify (with_flags g)).
Proof. intros Hg. apply keeps_core_modify. intros m. unfold core, disposing. cbn. by rewrite Hg. Qed.

Lemma recoverToErr_inv err : keeps (inv_at e f to) (recoverToErr err).
Proof.
  unfold recoverToErr. apply keeps_bind; [apply keeps_get|]. intros m.
  destruct (disposing m); [apply keeps_ret|].
  apply keeps_bind; [by apply inv_at_keeps_core, modify_flags_core|]. intros _.
  apply keeps_hoare. eapply hoare_bind; [apply get_t_hoare|]. intros t.
  destruct (Mutation_IsCalled _ _); [apply hoare_ret; tauto|].
  eapply hoare_bind.
  { apply (keeps_of_core (λ m, inv_at e f to m ∧ m_t m = Some t)).
    - intros m1 m2 Hc [H1 H2]. split; [by eapply inv_at_core|].
      unfold core in Hc. simplify_eq. congruence.
    - by apply modify_flags_core. }
  intros []. eapply hoare_bind with (R := λ _, inv_at e f to).
  { destruct (tx_latestHandlerIsFinal t) eqn:Hfin; [|apply hoare_ret; tauto].
    intros m1 a m2 [H1 H2] Hr. cbv beta.
    eapply (recoverFinalPhase_inv e f to); [|exact H1|exact Hr].
    apply Hlatest. destruct H1 as [_ H1]. unfold latest in H1. rewrite H2 in H1. cbn in H1. by simplify_eq. }
  intros []. apply (keeps_bind (inv_at e f to)).
  { apply modify_t_inv_at; [|done]. intros t0 [H1 H2 H3 H4]. by split. }
  intros _. apply inv_at_keeps_core. apply keeps_core_bind; [apply PrependMut_core|].
  intros _. by apply modify_flags_core.
Qed.

Lemma callHandler_inv name args body : keeps (inv_at e f to) (callHandler name args body).
Proof.
  unfold callHandler. apply keeps_bind; [apply keeps_get|]. intros m.
  destruct (negb _); [apply keeps_block|].
  apply keeps_bind; [apply inv_at_keeps_core, get_t_core|]. intros t.
  apply keeps_bind.
  { apply inv_at_keeps_core. destruct (_ && _); [apply run_prog_core|apply keeps_core_ret]. }
  intros [ret|err| |]; [apply keeps_ret| |apply keeps_ret|].
  - destruct (f_PanicToException _); [|apply keeps_panic].
    apply keeps_bind; [by apply inv_at_keeps_core, modify_flags_core|]. intros _.
    apply keeps_bind; [apply recoverToErr_inv|]. intros _. apply keeps_ret.
  - apply keeps_bind; [apply inv_at_keeps_core, handlerDeadline_core|]. intros _. apply keeps_ret.
Qed.

Lemma processHandlers_loop_inv name args hs b :
  keeps (inv_at e f to) (processHandlers_loop done name args hs b).
Proof.
  assert (Hd : keeps (inv_at e f to) (handlersDone done name args ;; mret (Executed, b))).
  { apply keeps_bind; [apply inv_at_keeps_core, handlersDone_core|]. intros _. apply keeps_ret. }
  revert b Hd. induction hs as [|h hs IH]; intros b Hd; cbn [processHandlers_loop]; [done|].
  apply keeps_bind; [apply keeps_get|]. intros m. destruct (disposing m); [done|].
  destruct (negb _); [by apply IH|]. destruct (hb_method h _) as [body|]; [|by apply IH].
  apply keeps_bind; [apply callHandler_inv|]. intros [res|]; [apply keeps_ret|]. apply IH.
  apply keeps_bind; [apply inv_at_keeps_core, handlersDone_core|]. intros _. apply keeps_ret.
Qed.

Lemma processHandlers_inv name args : keeps (inv_at e f to) (processHandlers done bindings name args).
Proof.
  unfold processHandlers. apply keeps_bind; [apply keeps_get|]. intros m.
  destruct (disposing m); [apply keeps_ret|]. apply processHandlers_loop_inv.
Qed.
End latest.

(** During a transition. *)
Definition tinv (m : Machine) : Prop := inv m ∧ is_Some m.(m_t).

(** After a handler was emitted, the transition remembers which one, unless
    the machine is being disposed. *)
Definition tinv_after (e f : bool) (to : string) (m : Machine) : Prop :=
  tinv m ∧ (disposing m = true ∨ latest m = Some (e, f, to)).

Lemma tinv_keeps_core {A} (p : run Machine A) : keeps_core p → keeps tinv p.
Proof.
  apply keeps_of_core. intros m m' Hc [H1 H2]. split; [by eapply inv_core|].
  unfold core in Hc. simplify_eq. congruence.
Qed.

Lemma modify_t_tinv_here (g : Transition → Transition) m a m' :
  (∀ t, tx_wf t → tx_wf (g t)) → tinv m → modify_t g m = Ok (a, m') → tinv m'.
Proof.
  intros Hg [H1 H2] He. split; [by eapply modify_t_inv_here|].
  unfold modify_t, modify in He. simplify_eq/=. by destruct (m_t m).
Qed.

Lemma modify_t_tinv (g : Transition → Transition) :
  (∀ t, tx_wf t → tx_wf (g t)) → keeps tinv (modify_t g).
Proof. intros Hg m a m' Hi. apply modify_t_tinv_here; [apply Hg|done]. Qed.

Lemma inv_at_after e f to m : inv_at e f to m → tinv_after e f to m.
Proof.
  intros [H1 H2]. split; [split; [done|]|by right]. unfold latest in H2.
  destruct (m_t m); [by eexists|done].
Qed.

Lemma handle_inv to isFinal isEnter event args :
  (isFinal = true → isEnter = true ∨ to = "") →
  hoare (λ m, tinv m ∧ ∀ t, m_t m = Some t → tx_latestHandlerToState t = to)
    (handle done bindings event args isFinal isEnter) (λ _, tinv_after isEnter isFinal to).
Proof.
  intros Hl. unfold handle. eapply hoare_bind; [apply (hoare_get _ (λ m0 m, m0 = m ∧ tinv m ∧
    ∀ t, m_t m = Some t → tx_latestHandlerToState t = to)); naive_solver|].
  intros m0. destruct (disposing m0) eqn:Hd.
  { apply hoare_ret. intros m [-> [Hi _]]. split; [done|by left]. }
  eapply hoare_bind with (R := λ _, inv_at isEnter isFinal to).
  { intros m a m' (_ & [Hi [t Ht]] & Hto) He. split.
    - eapply modify_t_inv; [|exact Hi|exact He]. intros t0 [H1 H2 H3 H4]. by split.
    - unfold modify_t, modify in He. simplify_eq/=. unfold latest. cbn. rewrite Ht. cbn.
      by rewrite (Hto t Ht). }
  intros []. eapply hoare_conseq with (P' := inv_at isEnter isFinal to)
    (Q' := λ _, inv_at isEnter isFinal to); [|done|intros _; apply inv_at_after].
  apply (keeps_bind (inv_at isEnter isFinal to)); [by apply processHandlers_inv|]. intros r.
  apply keeps_bind; [apply keeps_get|]. intros m. destruct (f_panicCaught _); [|apply keeps_ret].
  apply keeps_bind; [by apply inv_at_keeps_core, modify_flags_core|]. intros _. apply keeps_ret.
Qed.

Lemma emitHandler_inv to isFinal isEnter event args :
  (isFinal = true → isEnter = true ∨ to = "") →
  hoare tinv (emitHandler done bindings to isFinal isEnter event args)
    (λ _, tinv_after isEnter isFinal to).
Proof.
  intros Hl. unfold emitHandler. eapply hoare_bind with (R := λ _ m, tinv m ∧
    ∀ t, m_t m = Some t → tx_latestHandlerToState t = to).
  { intros m a m' Hi He. split.
    - eapply modify_t_tinv; [|exact Hi|exact He]. intros t [H1 H2 H3 H4]. by split.
    - unfold modify_t, modify in He. simplify_eq/=. intros t Ht. destruct (m_t m); by simplify_eq/=. }
  intros []. eapply hoare_bind; [by apply handle_inv|]. intros r. by apply hoare_ret.
Qed.

Lemma emitHandler_tinv to isFinal isEnter event args :
  (isFinal = true → isEnter = true ∨ to = "") →
  keeps tinv (emitHandler done bindings to isFinal isEnter event args).
Proof. intros Hl m a m' Hi He. by eapply emitHandler_inv in He as [? _]. Qed.

(** Dropping a target keeps the targets well-formed. *)
Lemma slices_delete_sublist {A} `{EqDecision A} (l l' : list A) i j :
  slices_delete l i j = Ok l' → l' `sublist_of` l.
Proof.
  intros [Hb ->]%slices_delete_ok.
  transitivity (take (Z.to_nat i) l ++ drop (Z.to_nat i) l); [|by rewrite take_drop].
  apply sublist_app; [done|].
  replace (Z.to_nat j) with (Z.to_nat i + (Z.to_nat j - Z.to_nat i))%nat by lia.
  rewrite <- drop_drop. apply sublist_drop.
Qed.

Lemma delete_target_tinv t idx :
  hoare (λ m, tinv m ∧ m_t m = Some t)
    (idxs ← lift (slices_delete t.(tx_TargetIndexes) idx (idx + 1));
     targets ← lift (slices_delete (Tx.TargetStates t) idx (idx + 1));
     modify_t (tx_set_targets idxs targets)) (λ _, tinv).
Proof.
  eapply hoare_bind; [apply hoare_lift|]. intros idxs.
  eapply hoare_bind; [apply hoare_lift|]. intros targets m a m' [[[Hi Ht] _] Hd] He.
  apply slices_delete_sublist in Hd.
  eapply modify_t_tinv_here; [|exact Hi|exact He]. destruct Hi as [Hi _].
  pose proof (in_tx _ Hi t Ht) as [H1 H2 _ H4]. intros t0 [_ _ H3 _]. split; cbn; [| |done|].
  - by eapply sublist_NoDup.
  - intros Hin. apply H2. by eapply elem_of_sublist.
  - eapply (tp_subseteq _ _ Hallowed), H4. intros x Hx. by eapply elem_of_sublist.
Qed.

Lemma dropTarget_tinv s : keeps tinv (dropTarget s).
Proof.
  unfold dropTarget. apply keeps_hoare. eapply hoare_bind; [apply get_t_hoare|]. intros t.
  apply delete_target_tinv.
Qed.

Lemma dropNewAfter_tinv s : keeps tinv (dropNewAfter s).
Proof.
  unfold dropNewAfter. apply keeps_hoare. eapply hoare_bind; [apply get_t_hoare|]. intros t.
  case_bool_decide; [apply hoare_ret; tauto|]. apply delete_target_tinv.
Qed.

Lemma emitExitEvents_tinv l : keeps tinv (emitExitEvents done bindings l).
Proof.
  induction l as [|s l IH]; cbn [emitExitEvents]; [apply keeps_ret|].
  apply keeps_bind; [apply tinv_keeps_core, get_t_core|]. intros t.
  apply keeps_bind; [by apply emitHandler_tinv|]. intros ret. case_bool_decide; [|done].
  destruct (_ && _); [|apply keeps_ret]. apply keeps_bind; [apply dropTarget_tinv|done].
Qed.

Lemma emitEnterEvents_tinv l : keeps tinv (emitEnterEvents done bindings l).
Proof.
  induction l as [|s l IH]; cbn [emitEnterEvents]; [apply keeps_ret|].
  apply keeps_bind; [apply tinv_keeps_core, get_t_core|]. intros t.
  apply keeps_bind; [by apply emitHandler_tinv|]. intros ret. case_bool_decide; [|done].
  destruct (_ && _); [|apply keeps_ret]. apply keeps_bind; [apply dropTarget_tinv|done].
Qed.

Lemma emitSelfEvents_tinv n i ret : keeps tinv (emitSelfEvents done bindings n i ret).
Proof.
  revert i ret. induction n as [|n IH]; intros i ret; cbn [emitSelfEvents]; [apply keeps_ret|].
  apply keeps_bind; [apply keeps_get|]. intros m.
  apply keeps_bind; [apply tinv_keeps_core, get_t_core|]. intros t.
  destruct (negb _); [done|].
  apply keeps_bind; [by apply emitHandler_tinv|]. intros ret'. case_bool_decide; [|done].
  destruct (_ && _); [|apply keeps_ret]. apply keeps_bind; [apply dropTarget_tinv|done].
Qed.

Lemma emitStateStateEvents_tinv l : keeps tinv (emitStateStateEvents done bindings l).
Proof.
  induction l as [|[b a] l IH]; cbn [emitStateStateEvents]; [apply keeps_ret|].
  case_bool_decide; [done|].
  apply keeps_bind; [apply tinv_keeps_core, get_t_core|]. intros t.
  apply keeps_bind; [by apply emitHandler_tinv|]. intros ret. case_bool_decide; [|done].
  destruct (_ && _); [|apply keeps_ret]. apply keeps_bind; [apply dropNewAfter_tinv|done].
Qed.

Lemma unless_canceled_keeps P result next :
  keeps P next → keeps P (unless_canceled result next).
Proof. unfold unless_canceled. case_bool_decide; [intros _; apply keeps_ret|done]. Qed.

Lemma negotiate_tinv result : keeps tinv (negotiate done bindings result).
Proof.
  unfold negotiate.
  assert (Hstep : ∀ r next, (∀ t, keeps tinv (next t)) →
    keeps tinv (unless_canceled r (t ← get_t; next t))).
  { intros r next Hn. apply unless_canceled_keeps, keeps_bind; [|done].
    apply tinv_keeps_core, get_t_core. }
  apply keeps_bind; [apply Hstep; intros t; apply emitExitEvents_tinv|]. intros r1.
  apply keeps_bind; [apply Hstep; intros t; apply emitEnterEvents_tinv|]. intros r2.
  apply keeps_bind; [apply Hstep; intros t; case_bool_decide;
    [apply keeps_ret|apply emitSelfEvents_tinv]|]. intros r3.
  apply keeps_bind; [apply Hstep; intros t; apply emitStateStateEvents_tinv|]. intros r4.
  - apply keeps_bind; [apply tinv_keeps_core, get_t_core|]. intros t.
    apply unless_canceled_keeps. by apply emitHandler_tinv.
Qed.

(** ** Setting up and executing a transition *)

Lemma TargetStates_named rr l ts :
  named_schema rr.(rr_schema) → Relations.TargetStates rr l = Ok ts → "" ∉ ts.
Proof.
  intros [Hn Ha] Hts Hin. destruct (TargetStates_reach rr l ts "" Hts Hin) as (y & _ & [st Hy] & Hr).
  apply rtc_inv_r in Hr as [->|(a & _ & Hb)]; [congruence|].
  by apply add_of_subseteq, Ha in Hb.
Qed.

Lemma get_tinv (P : Machine → Prop) : hoare P get (λ m0 m, m0 = m ∧ P m).
Proof. apply hoare_get. done. Qed.

Lemma setupExitEnter_tinv : keeps tinv setupExitEnter.
Proof.
  apply keeps_hoare. unfold setupExitEnter.
  eapply hoare_bind; [apply get_tinv|]. intros m0.
  eapply hoare_bind; [apply get_t_hoare|]. intros t.
  eapply hoare_bind; [apply hoare_lift|]. intros called m a m' [[[-> Hi] Ht] _] He.
  eapply modify_t_tinv_here; [|exact Hi|exact He]. destruct Hi as [Hi _].
  pose proof (in_tx _ Hi t Ht) as [_ Hn _ _]. intros t0 [H1 H2 _ H4]. split; cbn; [done..| |done].
  rewrite elem_of_app, SortStates_perm, elem_of_StatesDiff, elem_of_slicesFilter.
  intros [[Hin _]|[Hin _]]; [by apply (in_active _ Hi)|done].
Qed.

Lemma setupAccepted_tinv : keeps tinv setupAccepted.
Proof.
  unfold setupAccepted.
  assert (Ha : ∀ b, keeps tinv (modify_t (tx_set_accepted b))).
  { intros b. apply modify_t_tinv. intros t [H1 H2 H3 H4]. by split. }
  apply keeps_bind; [apply keeps_get|]. intros m.
  apply keeps_bind; [apply tinv_keeps_core, get_t_core|]. intros t.
  case_bool_decide; [apply keeps_ret|]. apply keeps_bind; [apply keeps_lift|]. intros called.
  destruct (_ && _); [apply keeps_ret|].
  apply keeps_bind; [destruct (Tx.IsAuto t); [done|apply keeps_ret]|]. intros _.
  case_bool_decide; [apply keeps_ret|]. destruct (_ && _); [apply keeps_ret|done].
Qed.

Lemma newTransition_tinv mut : hoare inv (newTransition randId mut) (λ _, tinv).
Proof.
  unfold newTransition. eapply hoare_bind; [apply get_tinv|]. intros m0.
  eapply hoare_bind with (R := λ _, tinv).
  { apply hoare_modify. intros m [-> [H1 H2 H3 H4 H5]]. split; [|by eexists].
    split; [done|by apply (parity_clock m)|done|done|]. cbn. intros t Ht. simplify_eq.
    split; cbn; [constructor|set_solver..|]. by eapply (tp_subseteq _ _ Hallowed), H4; intros x ?%elem_of_nil. }
  intros []. eapply hoare_bind; [apply get_tinv|]. intros m1.
  eapply hoare_bind; [apply hoare_lift|]. intros called.
  eapply hoare_bind; [apply hoare_lift|]. intros targets.
  match goal with |- hoare ?P _ _ => apply (hoare_bind P (λ _, P)) end.
  { destruct (mut_IsCheck mut); [by apply hoare_ret|].
    eapply hoare_conseq; [apply hoare_lift|intros s H; exact H|]. by intros a m [? _]. }
  intros tAfter. eapply hoare_bind with (R := λ _, tinv).
  { intros m a m' [[[-> Hi] _] Hts] He. eapply modify_t_tinv_here; [|exact Hi|exact He].
    intros t [_ _ H3 _]. split; cbn; [by eapply TargetStates_NoDup| |done|].
    - eapply TargetStates_named; [|exact Hts]. change (named_schema (schema m)).
      destruct Hi as [[-> _ _ _ _] _]. done.
    - eapply (tp_targets _ _ Hallowed), Hts. apply Hi. }
  intros []. apply (keeps_bind tinv); [apply setupAccepted_tinv|]. intros _.
  apply keeps_bind; [apply tinv_keeps_core, get_t_core|]. intros t.
  destruct (tx_IsAccepted t); [apply setupExitEnter_tinv|apply keeps_ret].
Qed.

Lemma resolveAgain_tinv : keeps tinv resolveAgain.
Proof.
  apply keeps_hoare. unfold resolveAgain. eapply hoare_bind; [apply get_tinv|]. intros m0.
  eapply hoare_bind; [apply get_t_hoare|]. intros t.
  eapply hoare_bind; [apply hoare_lift|]. intros called.
  eapply hoare_bind; [apply hoare_lift|]. intros targets.
  eapply hoare_bind with (R := λ _, tinv).
  { intros m a m' [[[[-> Hi] Ht] _] Hts] He. eapply modify_t_tinv_here; [|exact Hi|exact He].
    intros t0 [_ _ H3 _]. split; cbn; [by eapply TargetStates_NoDup| |done|].
    - eapply TargetStates_named; [|exact Hts]. change (named_schema (schema m)).
      destruct Hi as [[-> _ _ _ _] _]. done.
    - eapply (tp_targets _ _ Hallowed), Hts. apply Hi. }
  intros []. apply setupExitEnter_tinv.
Qed.

(** A canceled final phase was canceled by its latest handler. *)
Lemma emitFinalEvents_inv enters finals :
  hoare tinv (emitFinalEvents done bindings enters finals)
    (λ r m, tinv m ∧ (r = Canceled → disposing m = true
       ∨ ∃ e f to, latest m = Some (e, f, to) ∧ (e = true ∨ to = ""))).
Proof.
  induction finals as [|s finals IH]; cbn [emitFinalEvents]; [by apply hoare_ret|].
  eapply hoare_bind; [apply get_t_hoare|]. intros t.
  eapply hoare_bind.
  { eapply hoare_conseq; [apply emitHandler_inv| |].
    - destruct (contains enters s); [by left|by right].
    - intros m [H _]. exact H.
    - intros a m H. exact H. }
  intros ret. case_bool_decide.
  - apply hoare_ret. intros m [Hi Hl]. split; [done|]. intros _.
    destruct Hl as [|Hl]; [by left|right]. eexists _, _, _. split; [done|].
    destruct (contains enters s); auto.
  - eapply hoare_conseq; [apply IH| |done]. by intros m [Hi _].
Qed.

Lemma recoverFinalPhase_tinv :
  hoare (λ m, tinv m ∧ (disposing m = true
    ∨ ∃ e f to, latest m = Some (e, f, to) ∧ (e = true ∨ to = ""))) recoverFinalPhase (λ _, tinv).
Proof.
  intros m a m' [[Hi Ht] Hl] He. destruct (disposing m) eqn:Hd.
  - assert (Hm : m' = m).
    { unfold recoverFinalPhase, get_t in He. destruct Ht as [t Ht].
      unfold mbind, run_bind, get in He. rewrite Ht in He. unfold lift, modify in He.
      destruct (Tx.CalledStates m t); simplify_eq/=. unfold setActiveStates. by rewrite Hd. }
    by subst.
  - destruct Hl as [|(e & f & to & Hl & Hor)]; [done|].
    eapply (inv_at_after e f to). eapply recoverFinalPhase_inv; [exact Hor| |exact He]. by split.
Qed.

Lemma apply_targets_tinv called : keeps tinv (apply_targets done bindings called).
Proof.
  unfold apply_targets. apply keeps_hoare. eapply hoare_bind; [apply get_t_hoare|]. intros t.
  eapply hoare_bind with (R := λ _, tinv).
  { apply hoare_modify. intros m [[Hi Ht] Htt]. pose proof (in_tx _ Hi t Htt) as [H1 H2 _ H4].
    split; [by apply setActiveStates_inv|]. unfold setActiveStates. by destruct (disposing m). }
  intros []. apply (keeps_bind tinv); [apply keeps_get|]. intros m.
  apply keeps_bind; [apply modify_t_tinv; intros t0 [H1 H2 H3 H4]; by split|]. intros _.
  apply keeps_bind; [apply tinv_keeps_core, cancelStateCtx_core|]. intros _.
  apply keeps_bind; [apply keeps_get|]. intros m1.
  apply keeps_bind; [apply modify_t_tinv; intros t0 [H1 H2 H3 H4]; by split|]. intros _.
  apply keeps_hoare. eapply hoare_bind with (R := λ r m, tinv m ∧ (r = Canceled → disposing m = true
       ∨ ∃ e f to, latest m = Some (e, f, to) ∧ (e = true ∨ to = ""))).
  { destruct (_ || _); [apply emitFinalEvents_inv|by apply hoare_ret]. }
  intros r. eapply hoare_bind with (R := λ _, tinv); [|intros []; by apply hoare_ret].
  case_bool_decide; [|apply hoare_ret; tauto].
  eapply hoare_conseq; [apply recoverFinalPhase_tinv|naive_solver|done].
Qed.

Lemma queueAuto_tinv b : keeps tinv (queueAuto autoOrder b).
Proof.
  unfold queueAuto. apply tinv_keeps_core. kcore.
Qed.

Lemma settle_tinv called before result :
  keeps tinv (settle done bindings autoOrder called before result).
Proof.
  unfold settle. apply keeps_bind.
  { destruct (negb _).
    - apply keeps_bind; [apply apply_targets_tinv|]. intros r. apply keeps_bind; [apply keeps_get|].
      intros m. apply keeps_bind; [apply keeps_lift|]. intros same. apply keeps_ret.
    - apply keeps_bind; [apply keeps_get|]. intros m.
      apply keeps_bind; [apply modify_t_tinv; intros t0 [H1 H2 H3 H4]; by split|].
      intros _. apply keeps_ret. }
  intros [r changed]. apply keeps_bind; [apply keeps_get|]. intros m.
  apply keeps_bind; [apply tinv_keeps_core, get_t_core|]. intros t1.
  apply keeps_bind.
  { destruct (_ && _); [apply emitHandler_tinv; by left|apply keeps_ret]. }
  intros r1. apply keeps_bind; [|intros _; apply keeps_ret].
  case_bool_decide; [apply modify_t_tinv; intros t0 [H1 H2 H3 H4]; by split|apply queueAuto_tinv].
Qed.

Lemma execute_tinv called result : keeps tinv (execute done bindings autoOrder called result).
Proof.
  unfold execute. apply keeps_bind; [apply tinv_keeps_core, get_t_core|]. intros t.
  apply keeps_bind; [destruct (Tx.IsAuto t); [apply resolveAgain_tinv|apply keeps_ret]|]. intros _.
  apply settle_tinv.
Qed.

Lemma emitEvents_tinv : keeps tinv (emitEvents done bindings autoOrder).
Proof.
  unfold emitEvents. apply keeps_bind; [apply keeps_get|]. intros m.
  apply keeps_bind; [apply tinv_keeps_core, get_t_core|]. intros t.
  apply keeps_bind; [apply keeps_lift|]. intros called.
  apply keeps_bind; [destruct (f_handlerLoopRunning _); [apply negotiate_tinv|apply keeps_ret]|].
  intros r. apply keeps_bind.
  { destruct (negb _); [apply execute_tinv|].
    apply keeps_bind; [|intros _; apply keeps_ret].
    case_bool_decide; [apply modify_t_tinv; intros t0 [H1 H2 H3 H4]; by split|apply keeps_ret]. }
  intros r1. apply keeps_bind; [apply modify_t_tinv; intros t0 [H1 H2 H3 H4]; by split|]. intros _.
  case_bool_decide; [apply keeps_ret|]. destruct (mut_IsCheck _); [apply keeps_ret|].
  apply tinv_keeps_core. unfold final_result. kcore.
Qed.

Lemma processSubscriptions_core : keeps_core (processSubscriptions done).
Proof. unfold processSubscriptions. kcore. Qed.

Lemma answerCheck_core : keeps_core answerCheck.
Proof. unfold answerCheck. kcore. Qed.

Lemma inv_keeps_core {A} (p : run Machine A) : keeps_core p → keeps inv p.
Proof. apply keeps_of_core. intros m m'. apply inv_core. Qed.

Lemma runMutation_inv mut : keeps inv (runMutation randId done bindings autoOrder evals mut).
Proof.
  unfold runMutation. match goal with |- keeps inv (if ?b then _ else _) => destruct b end; [apply keeps_ret|].
  case_bool_decide.
  - apply inv_keeps_core. unfold runEval. kcore. intros c. apply keeps_panic.
  - apply keeps_hoare. eapply hoare_bind; [apply newTransition_tinv|]. intros [].
    eapply hoare_bind; [apply emitEvents_tinv|]. intros res.
    intros m a m' Hm He. cbv beta.
    assert (Ht : tinv m'); [|apply Ht]. eapply (tinv_keeps_core _ ltac:(shelve)); [exact Hm|exact He].
    Unshelve. kcore; first [apply answerCheck_core|apply processSubscriptions_core].
Qed.

Lemma queueLoop_inv fuel ret : keeps inv (queueLoop randId done bindings autoOrder evals fuel ret).
Proof.
  revert ret. induction fuel as [|fuel IH]; intros ret; cbn [queueLoop];
    (apply keeps_bind; [apply keeps_get|]; intros m; destruct (negb _); [apply keeps_ret|]).
  { apply keeps_block. }
  destruct (disposing m); [apply keeps_ret|]. destruct (queue m) as [|mut rest]; [apply keeps_ret|].
  apply keeps_bind; [by apply inv_keeps_core, keeps_core_modify|]. intros _.
  apply keeps_bind; [apply runMutation_inv|]. intros r. apply IH.
Qed.

Lemma processQueue_inv fuel : keeps inv (processQueue randId done bindings autoOrder evals fuel).
Proof.
  unfold processQueue. apply keeps_bind; [apply keeps_get|]. intros m.
  destruct (_ || _); [apply keeps_ret|]. destruct (q_queueProcessing _); [apply keeps_ret|].
  apply keeps_bind; [by apply inv_keeps_core, keeps_core_modify|]. intros _.
  apply keeps_bind; [apply queueLoop_inv|]. intros [ret|]; [|apply keeps_ret].
  apply keeps_bind.
  { apply keeps_modify. intros m1 [H1 H2 H3 H4 _]. split; [done|by apply (parity_clock m1)|done|done|done]. }
  intros _. apply keeps_bind; [|intros _; apply keeps_ret].
  apply inv_keeps_core, keeps_core_modify. intros m1. done.
Qed.

(** ** The mutation methods, called from outside *)

(** Code that only queues keeps the invariant, and so does what ends in
    processing the queue. *)
Lemma keeps_inv_queued (pq : run Machine Z) tick :
  keeps inv pq → keeps inv (Api.process_queued pq tick).
Proof.
  intros Hpq. unfold Api.process_queued. case_bool_decide; [apply keeps_ret|].
  apply keeps_bind; [done|]. intros r. apply keeps_ret.
Qed.

Ltac kinv :=
  repeat match goal with
  | |- keeps inv (mret _) => apply keeps_ret
  | |- keeps inv get => apply keeps_get
  | |- keeps inv (lift _) => apply keeps_lift
  | |- keeps inv (Api.process_queued _ _) => apply keeps_inv_queued; assumption
  | |- keeps inv (queueMutation _ _ _ _) => apply inv_keeps_core, queueMutation_core
  | |- keeps inv (modify _) => apply inv_keeps_core, keeps_core_modify; done
  | |- keeps inv (_ ≫= _) => apply (keeps_bind inv); [|intros ?]
  | |- keeps inv (if ?x then _ else _) => destruct x
  | |- keeps inv (match ?x with _ => _ end) => destruct x
  | H : keeps inv ?e |- keeps inv ?e => exact H
  end.

Lemma api_call_inv (pq : run Machine Z) c : keeps inv pq → keeps inv (api_call pq c).
Proof.
  intros Hpq. destruct c; cbn [api_call];
    unfold Api.Toggle, Api.Add, Api.Remove, Api.Set_, Api.EvAdd, Api.EvRemove, Api.AddErrState,
      Api.CanAdd, Api.CanRemove, Api.PrependMut; kinv; unfold Api.Add, Api.PrependMut; kinv.
Qed.

(** What can happen to a machine between two calls: a call, from any
    goroutine while the queue is not processed, a subscription, and time. *)
Inductive mach_step : Machine → Machine → Prop :=
| step_call fuel c m r m' :
    api_call (processQueue randId done bindings autoOrder evals fuel) c m = Ok (r, m') →
    mach_step m m'
| step_subs subs chs m : mach_step m (with_subs subs chs m)
| step_backoff b m : mach_step m (with_flags (set_backoff b) m).

Lemma mach_step_inv m m' : mach_step m m' → inv m → inv m'.
Proof.
  destruct 1 as [fuel c m r m' He|subs chs m|b m]; intros Hi.
  - eapply api_call_inv; [apply processQueue_inv|exact Hi|exact He].
  - by apply (inv_core m).
  - by apply (inv_core m).
Qed.

End handlers.
End inv.

(** ** Properties *)

Section properties.
Context (randId : Machine → string) (done : nat → bool) (bindings : list Binding).
Context (autoOrder : Machine → list string) (evals : string → prog).

Lemma reachable_inv sch allowed m m' :
  named_schema sch → target_property sch allowed → inv sch allowed m →
  rtc (mach_step randId done bindings autoOrder evals) m m' → inv sch allowed m'.
Proof.
  intros Hs Ha Hi Hr. induction Hr as [m|m m1 m' Hm Hr IH]; [done|]. apply IH. by eapply mach_step_inv.
Qed.

(** What target states always are, the active states of a reachable machine
    are. *)
Lemma reachable_allowed allowed m m' :
  named_schema (schema m) → parity m → "" ∉ activeStates m → m.(m_t) = None →
  target_property (schema m) allowed → allowed (activeStates m) →
  rtc (mach_step randId done bindings autoOrder evals) m m' →
  schema m' = schema m ∧ allowed (activeStates m').
Proof.
  intros Hs Hp Ha Ht Hal H Hr.
  assert (Hi : inv (schema m) allowed m) by (split; [done..|congruence]).
  by destruct (reachable_inv _ _ m m' Hs Hal Hi Hr).
Qed.

(** C2: Whatever handlers are bound, and whatever they do - mutate the machine,
    panic, overrun their deadline, in the negotiation or in the final phase -
    every state of a machine that can be reached has an odd tick exactly when
    the state is active, and no state is active twice. *)
Theorem reachable_parity m m' s :
  named_schema (schema m) → parity m → "" ∉ activeStates m → m.(m_t) = None →
  rtc (mach_step randId done bindings autoOrder evals) m m' →
  NoDup (activeStates m')
  ∧ IsActiveTick (tick_of (clock m') s) = contains (activeStates m') s.
Proof.
  intros Hs Hp Ha Ht Hr.
  assert (Hi : inv (schema m) (λ _, True) m) by (split; [done..|congruence]).
  destruct (reachable_inv _ (λ _, True) m m' Hs ltac:(by split) Hi Hr) as [_ [H1 H2] _ _ _].
  split; [done|apply H2].
Qed.

(** C21: Whatever handlers are bound and whatever they do, two states that exclude
    each other in the schema - one removes the other, and so does whatever
    brings it in, or they are contenders - are never active together in a
    machine that can be reached, and its schema is still the one it started
    with. *)
Theorem reachable_exclusive m m' x y :
  named_schema (schema m) → parity m → "" ∉ activeStates m → m.(m_t) = None →
  (∀ rr, rr.(rr_schema) = schema m → excludes rr x y ∨ contenders rr x y) →
  ¬ (x ∈ activeStates m ∧ y ∈ activeStates m) →
  rtc (mach_step randId done bindings autoOrder evals) m m' →
  schema m' = schema m ∧ ¬ (x ∈ activeStates m' ∧ y ∈ activeStates m').
Proof.
  intros Hs Hp Ha Ht Hex H0 Hr.
  apply (reachable_allowed (λ l, ¬ (x ∈ l ∧ y ∈ l)) m m'); try done. split.
  - intros l l' Hl Hn [? ?]. apply Hn. split; by apply Hl.
  - intros rr l ts Hrr Hts [Hx Hy]. destruct (Hex rr Hrr) as [He|He]; revert Hy.
    + by eapply TargetStates_excludes.
    + by eapply TargetStates_contenders.
Qed.
End properties.


(** ** A machine with failing handlers *)

(** [A] requires nothing and brings in [B]; entering [B] panics in its final
    handler, leaving it overruns the deadline. *)
Definition failing_binding : Binding :=
  mkBinding "" (λ name,
    if bool_decide (name = "BState") then Some (λ _, HCall (CallAdd ["A"] ∅) (λ _, HPanic "boom"))
    else if bool_decide (name = "BExit") then Some (λ _, HDeadline)
    else None).

Definition failing_machine : Machine :=
  let sch : gmap string State :=
    {["A" := set_Add zeroState (Some ["B"]); "B" := zeroState;
      "Exception" := set_Multi zeroState true]} in
  mkMachine (mkFlags "m" 1000 true true true false false false false None)
    (mkSchemaPart sch ["A"; "B"; "Exception"] [] 0 true) (mkStatePart [] ∅ ∅)
    (mkQueuePart [] 1 0 0 0 false false) NewSubscriptionManager [] [] None.

Lemma failing_named : named_schema (schema failing_machine).
Proof.
  split; [done|]. intros n. unfold schema_get, schema, failing_machine. cbn [m_sp sp_schema].
  rewrite !lookup_insert, lookup_singleton. repeat case_decide; cbn; set_solver.
Qed.

Definition failing_run := 
  api_call (processQueue (λ _, "tx") (λ _, false) [failing_binding] (λ _, []) (λ _, HEnd true) 9)
    (CallAdd ["A"] ∅) failing_machine.

Example reachable_parity_witness :
  ∃ r m', failing_run = Ok (r, m') ∧ IsActiveTick (tick_of (clock m') "B") = contains (activeStates m') "B".
Proof.
  destruct failing_run as [[r m']|msg|] eqn:E; [|vm_compute in E; discriminate E..].
  exists r, m'. split; [done|].
  apply (reachable_parity (λ _, "tx") (λ _, false) [failing_binding] (λ _, []) (λ _, HEnd true)
    failing_machine m' "B").
  - apply failing_named.
  - split; [constructor|]. intros s. reflexivity.
  - apply not_elem_of_nil.
  - reflexivity.
  - apply rtc_once. apply (step_call _ _ _ _ _ 9 (CallAdd ["A"] ∅) _ r m'). exact E.
Defined.

(** The handler of [B] failed: [A] stays, [B] is rolled back and Exception is
    set. *)
Example failing_run_states :
  match failing_run with
  | Ok (_, m') => activeStates m' = ["A"; "Exception"] ∧ Mach.Tick m' "B" = 2
  | _ => False
  end.
Proof. vm_compute. done. Qed.

(** [A] and [B] remove each other; entering [B] panics in its final handler. *)
Definition rivals_machine : Machine :=
  let sch : gmap string State :=
    {["A" := set_Remove zeroState (Some ["B"]); "B" := set_Remove zeroState (Some ["A"]);
      "Exception" := set_Multi zeroState true]} in
  mkMachine (mkFlags "m" 1000 true true true false false false false None)
    (mkSchemaPart sch ["A"; "B"; "Exception"] [] 0 true) (mkStatePart ["A"] {["A" := 1]} ∅)
    (mkQueuePart [] 1 0 0 0 false false) NewSubscriptionManager [] [] None.

Lemma rivals_relations n :
  let st := schema_get (schema rivals_machine) n in
  elems st.(st_Add) = [] ∧ (n = "A" → elems st.(st_Remove) = ["B"]).
Proof.
  unfold schema_get, schema, rivals_machine. cbn [m_sp sp_schema].
  rewrite !lookup_insert, lookup_singleton. repeat case_decide; by simplify_eq/=.
Qed.

Definition rivals_run :=
  api_call (processQueue (λ _, "tx") (λ _, false) [failing_binding] (λ _, []) (λ _, HEnd true) 9)
    (CallAdd ["B"] ∅) rivals_machine.

Example reachable_exclusive_witness :
  ∃ r m', rivals_run = Ok (r, m') ∧ ¬ ("A" ∈ activeStates m' ∧ "B" ∈ activeStates m').
Proof.
  destruct rivals_run as [[r m']|msg|] eqn:E; [|vm_compute in E; discriminate E..].
  exists r, m'. split; [done|].
  destruct (reachable_exclusive (λ _, "tx") (λ _, false) [failing_binding] (λ _, []) (λ _, HEnd true)
    rivals_machine m' "A" "B") as [_ H]; [..|exact H].
  - split; [reflexivity|]. intros n. destruct (rivals_relations n) as [-> _]. apply not_elem_of_nil.
  - split; [apply NoDup_singleton|]. intros s. unfold clock, activeStates. cbn [m_st st_clock st_activeStates rivals_machine].
    destruct (decide (s = "A")) as [->|Hs]; [by vm_compute|].
    unfold tick_of. rewrite lookup_singleton_ne by done. symmetry. apply contains_false.
    by rewrite list_elem_of_singleton.
  - compute_decide.
  - reflexivity.
  - intros rr Hrr. left. unfold excludes, removes. rewrite Hrr.
    destruct (rivals_relations "A") as [_ ->]; [|reflexivity]. split; [left|].
    intros z. destruct (rivals_relations z) as [-> _]. intros Hz. apply elem_of_nil in Hz. destruct Hz.
  - intros [_ H]. change ("B" ∈ ["A"]) in H. apply list_elem_of_singleton in H. discriminate H.
  - apply rtc_once. apply (step_call _ _ _ _ _ 9 (CallAdd ["B"] ∅) _ r m'). exact E.
Defined.
