(* ===== verification/Lifecycle.v ===== *)
(** * Construction, handlers, groups and disposal of a machine ([machine.go])

    [New] makes a machine of a schema, [NewCommon] one with its states verified
    and handlers bound; [bindHandlers] and [HandlersDetach] change the list of
    bindings that [processHandlers] walks; [doDispose] ends a machine.  The
    default relations resolver is the only one; parents count with their
    identifier. *)

From S2P Require Import Prelude StateList SchemaDef MachTime Mutation Relations Subscriptions Machine Queue Waits Transition Run Semantics Invariants.

#[local] Open Scope Z_scope.

(** ** Options *)

(** Durations are nanoseconds. *)
Record Opts := mkOpts {
  o_Id : string;
  o_HandlerTimeout : Z;
  o_HandlerDeadline : Z;
  o_DontLogStackTrace : bool;
  o_DontPanicToException : bool;
  o_DontLogId : bool;
  o_LogLevel : Z;
  o_Parent : option string;
  o_ParentId : string;
  o_Tags : list string;
  o_QueueLimit : Z;
  o_DetectEval : bool;
  o_HandlerBackoff : Z;
}.

Definition zeroOpts : Opts := mkOpts "" 0 0 false false false 0 None "" [] 0 false 0.

(** The copy leaves out two of the durations. *)
Definition cloneOptions (opts : option Opts) : Opts :=
  match opts with
  | None => zeroOpts
  | Some o =>
      {| o_Id := o.(o_Id);
         o_HandlerTimeout := o.(o_HandlerTimeout);
         o_HandlerDeadline := 0;
         o_DontLogStackTrace := o.(o_DontLogStackTrace);
         o_DontPanicToException := o.(o_DontPanicToException);
         o_DontLogId := o.(o_DontLogId);
         o_LogLevel := o.(o_LogLevel);
         o_Parent := o.(o_Parent);
         o_ParentId := o.(o_ParentId);
         o_Tags := o.(o_Tags);
         o_QueueLimit := o.(o_QueueLimit);
         o_DetectEval := o.(o_DetectEval);
         o_HandlerBackoff := 0 |}
  end.

Definition millisecond : Z := 1000000.
Definition second : Z := 1000 * millisecond.

(** [OptsWithDebug] *)
Definition OptsWithDebug (o : Opts) : Opts :=
  mkOpts o.(o_Id) (600 * second) o.(o_HandlerDeadline) o.(o_DontLogStackTrace) true o.(o_DontLogId)
    o.(o_LogLevel) o.(o_Parent) o.(o_ParentId) o.(o_Tags) o.(o_QueueLimit) o.(o_DetectEval)
    o.(o_HandlerBackoff).

(** The settings of a machine that its operations are not modelled with: they
    bound the time of handlers, or go to logs and tracers. *)
Record Config := mkConfig {
  c_HandlerTimeout : Z;
  c_HandlerDeadline : Z;
  c_HandlerBackoff : Z;
  c_EvalTimeout : Z;
  c_DisposeTimeout : Z;
  c_LogStackTrace : bool;
  c_logId : bool;
  c_logLevel : Z;
  c_tags : option (list string);
  c_detectEval : bool;
  c_parentId : string;
}.

(** ** Construction *)

Definition or_default (v d : Z) : Z := if bool_decide (v = 0) then d else v.
Definition or_string (v d : string) : string := if bool_decide (v = "") then d else v.

(** [slices.Sort] on names. *)
Definition slices_Sort (l : list string) : list string :=
  merge_sort (λ a b, Is_true (String.leb a b)) l.

(** [if _, ok := m.schema[StateException]; !ok { ... }] *)
Definition with_exception (sch : gmap string State) : gmap string State :=
  match sch !! StateException with
  | Some _ => sch
  | None => <[StateException := set_Multi zeroState true]> sch
  end.

(** The fields [New] sets from the options, with its defaults. *)
Definition new_config (opts : Opts) (envDetectEval : bool) : Config :=
  {| c_HandlerTimeout := or_default opts.(o_HandlerTimeout) (100 * millisecond);
     c_HandlerDeadline := or_default opts.(o_HandlerDeadline) (10 * second);
     c_HandlerBackoff := or_default opts.(o_HandlerBackoff) (3 * second);
     c_EvalTimeout := second;
     c_DisposeTimeout := second;
     c_LogStackTrace := negb opts.(o_DontLogStackTrace);
     c_logId := negb opts.(o_DontLogId);
     c_logLevel := opts.(o_LogLevel);
     c_tags := match opts.(o_Tags) with [] => None | l => Some (slicesUniq l) end;
     c_detectEval := opts.(o_DetectEval) || envDetectEval;
     c_parentId := match opts.(o_Parent) with Some id => id | None => opts.(o_ParentId) end |}.

(** The machine before an error of the schema is added. [torder]: the order the
    resolver ranges over the Require graph in. *)
Definition new_machine (torder : list string) (randId : string) (parsed : gmap string State)
    (opts : Opts) : Machine :=
  let sch := with_exception parsed in
  let names := slices_Sort (keys sch) in
  mkMachine
    (mkFlags (or_string opts.(o_Id) randId) (or_default opts.(o_QueueLimit) 1000)
       (negb opts.(o_DontPanicToException)) false false false false false false None)
    (mkSchemaPart sch names (Relations.NewSchema torder sch names []) 0 false)
    (mkStatePart [] (list_to_map ((λ n, (n, 0)) <$> names)) ∅)
    (mkQueuePart [] 1 0 0 0 false false)
    NewSubscriptionManager [] [] None.

(** The joined error of [Schema.Parse]. *)
Definition conflict_error (errs : list (string * string)) : string :=
  str_join Mach.newline ((λ '(n, r),
    "schema error: require-remove conflict for " +:+ n +:+ " to " +:+ r) <$> errs).

Section new.
Context (processQueue : run Machine Z) (order torder : list string) (randId : string).
Context (envDetectEval : bool).

Definition New (schema : gmap string State) (opts : option Opts) : outcome (Machine * Config) :=
  let '(parsedStates, err) := Schema_Parse order schema in
  let opts := cloneOptions opts in
  let m := new_machine torder randId parsedStates opts in
  let c := new_config opts envDetectEval in
  match err with
  | [] => Ok (m, c)
  | _ =>
      '(_, m) ← Api.AddErr processQueue (Some (GoError (conflict_error err))) ∅ m;
      Ok (m, c)
  end.

(** The environment [NewCommon] reads. *)
Record Env := mkEnv { env_debug : bool; env_test : bool; env_log : option Z }.

Definition common_opts (env : Env) (id : string) (parent : option string) (opts : option Opts) : Opts :=
  let o := default zeroOpts opts in
  let o := mkOpts id o.(o_HandlerTimeout) o.(o_HandlerDeadline) o.(o_DontLogStackTrace)
    o.(o_DontPanicToException) o.(o_DontLogId) o.(o_LogLevel) o.(o_Parent) o.(o_ParentId) o.(o_Tags)
    o.(o_QueueLimit) o.(o_DetectEval) o.(o_HandlerBackoff) in
  let o := if env.(env_debug) then OptsWithDebug o
    else if env.(env_test) then mkOpts o.(o_Id) second o.(o_HandlerDeadline) o.(o_DontLogStackTrace)
      o.(o_DontPanicToException) o.(o_DontLogId) o.(o_LogLevel) o.(o_Parent) o.(o_ParentId) o.(o_Tags)
      o.(o_QueueLimit) o.(o_DetectEval) o.(o_HandlerBackoff)
    else o in
  mkOpts o.(o_Id) o.(o_HandlerTimeout) o.(o_HandlerDeadline) o.(o_DontLogStackTrace)
    o.(o_DontPanicToException) o.(o_DontLogId) (default o.(o_LogLevel) env.(env_log))
    (match parent with Some _ => parent | None => o.(o_Parent) end) o.(o_ParentId) o.(o_Tags)
    o.(o_QueueLimit) o.(o_DetectEval) o.(o_HandlerBackoff).
End new.

(** ** Handlers *)

Record BindOpts := mkBindOpts { bo_Id : string; bo_MethodPrefixTrim : string; bo_StatePrefix : string }.

Record handler := mkHandler { h_id : string; h_num : nat; h_binding : Binding }.

(** [m.handlers] and [m.nextHandlerNum]. *)
Record Handlers := mkHandlers { hs_handlers : list handler; hs_next : nat }.

(** [idRe]: anything but letters, digits, [-], [_] and [.] is dropped. *)
Definition id_char (c : Ascii.ascii) : bool :=
  let n := Ascii.nat_of_ascii c in
  (bool_decide (48 ≤ n)%nat && bool_decide (n ≤ 57)%nat)
  || (bool_decide (65 ≤ n)%nat && bool_decide (n ≤ 90)%nat)
  || (bool_decide (97 ≤ n)%nat && bool_decide (n ≤ 122)%nat)
  || bool_decide (n = 45)%nat || bool_decide (n = 95)%nat || bool_decide (n = 46)%nat.

Fixpoint clean_id (s : string) : string :=
  match s with
  | EmptyString => EmptyString
  | String c s => if id_char c then String c (clean_id s) else clean_id s
  end.

(** [anon]: the random part of the identifier of an anonymous binding. *)
Section bind.
Context (processQueue : run Machine Z) (anon : string).

(** Starting the handler loop. *)
Definition start_loop (f : Flags) : Flags :=
  mkFlags f.(f_id) f.(f_QueueLimit) f.(f_PanicToException) true true f.(f_disposing) f.(f_disposed)
    f.(f_backoff) f.(f_panicCaught) f.(f_err).

Definition bindHandlers (b : string → Binding) (o : BindOpts) (hs : Handlers)
  : run Machine (string * Handlers) :=
  m ← get;
  if disposing m then mret ("", hs)
  else
    let first := negb m.(m_flags).(f_handlerLoopRunning) in
    (if first then modify (with_flags start_loop) else mret ()) ;;
    let id := if bool_decide (o.(bo_Id) = "") then "anon:" +:+ anon else clean_id o.(bo_Id) in
    let h := mkHandler id hs.(hs_next) (b o.(bo_StatePrefix)) in
    let hs := mkHandlers (hs.(hs_handlers) ++ [h]) (S hs.(hs_next)) in
    (if first && Mach.IsErr m then Api.AddErr processQueue (GoError <$> Mach.Err m) ∅ ;; mret ()
     else mret ()) ;;
    mret (id, hs).

Definition HandlersDetach (bindingId : string) (hs : Handlers) (m : Machine) : option string * Handlers :=
  if disposing m then (None, hs)
  else
    match list_find (λ h, h.(h_id) = bindingId) hs.(hs_handlers) with
    | None => (Some "handlers not bound", hs)
    | Some (i, _) => (None, mkHandlers (delete i hs.(hs_handlers)) hs.(hs_next))
    end.

Definition Handlers_ids (hs : Handlers) : list string := h_id <$> hs.(hs_handlers).
End bind.

(** [getHandlers]: what [processHandlers] walks. *)
Definition getHandlers (hs : Handlers) : list Binding := h_binding <$> hs.(hs_handlers).

(** ** Groups *)

(** [machine.groups] and [machine.groupsOrder]. *)
Record Groups := mkGroups { gr_groups : gmap string (list Z); gr_order : list string }.

(** [groups]: the slice fields of the groups struct, in order; [optStates]:
    what [StateGroups] returns. *)
Definition SetGroups (stateNames : list string) (groups : list (string * list string))
    (optStates : option (gmap string (list Z) * list string)) : Groups :=
  let '(list_, order) := fold_left (λ '(l, o) '(name, states),
      (<[name := S.Index stateNames states]> l, o ++ [name])) groups (∅, []) in
  match optStates with
  | None => mkGroups list_ order
  | Some (gs, order2) =>
      let '(list_, order) := fold_left (λ '(l, o) name,
          (<[name := default [] (gs !! name)]> l, o ++ [name])) order2 (list_, order) in
      mkGroups list_ order
  end.

(** [korder]: the order the map of groups is ranged over in. *)
Definition SetGroupsString (stateNames : list string) (korder : list string)
    (groups : gmap string (list string)) (order : list string) : Groups :=
  mkGroups (fold_left (λ l name, <[name := S.Index stateNames (default [] (groups !! name))]> l)
              korder ∅) order.

(** ** Breakpoints *)

Record Breakpoint := mkBreakpoint { bp_Added : list string; bp_Removed : list string; bp_Strict : bool }.

Definition AddBreakpoint (added removed : list string) (strict : bool) (bps : list Breakpoint)
  : list Breakpoint := bps ++ [mkBreakpoint added removed strict].

Definition AddBreakpoint1 (added removed : string) (strict : bool) (bps : list Breakpoint)
  : list Breakpoint :=
  if bool_decide (added ≠ "") then AddBreakpoint [added] [] strict bps
  else if bool_decide (removed ≠ "") then AddBreakpoint [] [removed] strict bps
  else bps.

(** Whether [breakpoint] logs. *)
Definition breakpoint (bps : list Breakpoint) (added removed : list string) (m : Machine) : outcome bool :=
  foldl (λ found bp,
    found ← found;
    if bool_decide (added ≠ []) && negb (bool_decide (bp.(bp_Added) = added)) then Ok found
    else if bool_decide (removed ≠ []) && negb (bool_decide (bp.(bp_Removed) = removed)) then Ok found
    else if bp.(bp_Strict) && bool_decide (bp.(bp_Added) ≠ []) && Mach.Is m bp.(bp_Added) then Ok found
    else
      skip ← (if bp.(bp_Strict) && bool_decide (bp.(bp_Removed) ≠ [])
              then Mach.Not m bp.(bp_Removed) else Ok false);
      Ok (if skip : bool then found else true)) (Ok false) bps.

(** ** Disposal *)

Definition set_disposal (disposing disposed : bool) (err : option string) (f : Flags) : Flags :=
  mkFlags f.(f_id) f.(f_QueueLimit) f.(f_PanicToException) f.(f_handlerLoopRunning) f.(f_loop)
    disposing disposed f.(f_backoff) f.(f_panicCaught) err.

(** The channels of the checks that are still queued. *)
Definition queued_checks (q : list Mutation) : list nat :=
  omap (λ mut, if mut.(mut_IsCheck) then
                 match mut.(mut_Args) !! checkKey with Some (VCheck ch) => Some ch | _ => None end
               else None) q.

(** [doDispose] up to the wait for the queue: whether it goes on. The wait
    itself subscribes to the end of the queue. *)
Definition doDispose_begin (force : bool) : run Machine bool :=
  m ← get;
  if disposed m || disposing m then mret false
  else
    modify (with_flags (λ f, set_disposal true f.(f_disposed) f.(f_err) f)) ;;
    (if force then mret None else Wait.WhenQueueEnds) ;;
    mret true.

(** The rest; [ctxErr] is the error of the machine's context, [unlock] whether
    [Dispose] took the queue over. Other goroutines run in between. *)
Definition doDispose_end (ctxErr : option string) (unlock : bool) (hs : Handlers)
  : run Machine Handlers :=
  m ← get;
  if disposed m then mret hs
  else
    let err := match Mach.Err m with None => ctxErr | e => e end in
    modify (with_flags (set_disposal (disposing m) true err)) ;;
    modify (λ m, with_subs m.(m_subs) (dispose m.(m_subs) ++ queued_checks (queue m)) m) ;;
    (if unlock then modify (λ m, set_processing false m.(m_q).(q_queueRunning) m) else mret ()) ;;
    mret (mkHandlers [] hs.(hs_next)).

Definition doDispose (force : bool) (ctxErr : option string) (unlock : bool) (hs : Handlers)
  : run Machine Handlers :=
  go ← doDispose_begin force;
  if go : bool then doDispose_end ctxErr unlock hs else mret hs.

(** [Dispose]: leaving [Start], then, in a goroutine that takes the queue over,
    the disposal; [parentErr]: whether the parent context has ended. *)
Definition Dispose (processQueue : run Machine Z) (parentErr : bool) (ctxErr : option string)
    (hs : Handlers) : run Machine Handlers :=
  m ← get;
  (if Mach.Has1 m "Start" && negb parentErr then Api.Remove1 processQueue "Start" ∅ ;; mret ()
   else mret ()) ;;
  m ← get;
  if disposing m then mret hs
  else
    modify (λ m, set_processing false m.(m_q).(q_queueRunning) m) ;;
    doDispose false ctxErr true hs.

Definition DisposeForce (ctxErr : option string) (unlock : bool) (hs : Handlers) : run Machine Handlers :=
  doDispose true ctxErr unlock hs.

(** ** Properties of new machines *)

Lemma New_ok pq order torder randId env schema opts :
  (Schema_Parse order schema).2 = [] →
  New pq order torder randId env schema opts
  = Ok (new_machine torder randId (Schema_Parse order schema).1 (cloneOptions opts),
        new_config (cloneOptions opts) env).
Proof. unfold New. destruct (Schema_Parse order schema) as [p errs]. cbn [fst snd]. by intros ->. Qed.

Lemma slices_Sort_perm l : slices_Sort l ≡ₚ l.
Proof. apply merge_sort_Permutation. Qed.

Lemma new_machine_parity torder randId sch opts :
  let m := new_machine torder randId sch opts in
  parity m ∧ activeStates m = [] ∧ m.(m_t) = None ∧ schema m = with_exception sch
  ∧ stateNames m ≡ₚ keys (with_exception sch) ∧ queue m = [] ∧ queueTick m = 1.
Proof.
  intros m. split; [|do 3 (split; [done|]); split; [apply slices_Sort_perm|done]].
  split; [constructor|]. intros s. unfold clock, activeStates, m, new_machine. cbn [m_st st_clock st_activeStates].
  unfold tick_of. destruct (list_to_map _ !! s) eqn:H; [|by vm_compute].
  apply elem_of_list_to_map_2 in H. apply list_elem_of_fmap in H as (n & [= _ ->] & _). by vm_compute.
Qed.

(** Verifying exactly the states of the schema succeeds. *)
Lemma VerifyStates_ok names m :
  disposing m = false → "" ∉ names → (∀ n, n ∈ names ↔ is_Some (schema m !! n)) →
  stateNames m ≡ₚ keys (schema m) →
  ∃ m', VerifyStates names m = inr m' ∧ stateNames m' = slicesUniq names ∧ stateNames m' ≡ₚ stateNames m.
Proof.
  intros Hd Hne Hn Hs. unfold VerifyStates, verifyStates. rewrite Hd.
  assert (Hu : slicesFilter names (λ s, negb (bool_decide (is_Some (schema m !! s)))) = []).
  { apply elem_of_nil_inv. intros x [Hx Hb]%elem_of_slicesFilter. apply Hn in Hx.
    by rewrite bool_decide_eq_true_2 in Hb. }
  rewrite Hu, (proj2 (contains_false names "")) by done.
  assert (Hnd : NoDup (stateNames m)) by (rewrite Hs; apply NoDup_keys).
  assert (Hlen : (length (stateNames m) ≤ length names)%nat).
  { apply submseteq_length, NoDup_submseteq; [done|]. intros x. rewrite Hs, elem_of_keys. apply Hn. }
  rewrite bool_decide_eq_false_2 by lia. eexists. split; [done|]. split; [done|]. cbn.
  apply NoDup_Permutation; [apply NoDup_slicesUniq|done|]. intros x.
  by rewrite elem_of_slicesUniq, Hs, elem_of_keys.
Qed.

(** The durations of the options that the copy forgets: a machine always gets
    the defaults. *)
Theorem New_ignores_deadline pq order torder randId env schema opts m c :
  New pq order torder randId env schema opts = Ok (m, c) →
  c_HandlerDeadline c = 10 * second ∧ c_HandlerBackoff c = 3 * second.
Proof.
  unfold New. destruct (Schema_Parse order schema) as [p errs].
  assert (Hc : c_HandlerDeadline (new_config (cloneOptions opts) env) = 10 * second
    ∧ c_HandlerBackoff (new_config (cloneOptions opts) env) = 3 * second) by (by destruct opts).
  destruct errs; [by intros [= _ <-]|]. intros H. inv_ok. destruct x as [r m1]. cbn in *. by simplify_eq.
Qed.

(** ** Properties of bindings *)

(** Detaching the latest binding of an identifier nobody else has restores the
    bindings; the identifier is found wherever it was bound. *)
Theorem HandlersDetach_bind pq anon b o hs m id hs' m' :
  disposing m = false → bindHandlers pq anon b o hs m = Ok ((id, hs'), m') →
  id ∉ Handlers_ids hs → disposing m' = false →
  Handlers_ids hs' = Handlers_ids hs ++ [id]
  ∧ getHandlers hs' = getHandlers hs ++ [b o.(bo_StatePrefix)]
  ∧ HandlersDetach id hs' m' = (None, mkHandlers (hs_handlers hs) (hs_next hs')).
Proof.
  intros Hd He Hid Hd'. unfold bindHandlers in He.
  apply run_bind_ok in He as (? & ? & [= <- <-] & He). rewrite Hd in He.
  apply run_bind_ok in He as (? & m1 & _ & He). apply run_bind_ok in He as (? & m2 & _ & He).
  unfold mret, run_ret in He. injection He as <- <- _. unfold Handlers_ids in *. cbn [hs_handlers].
  unfold getHandlers. cbn [hs_handlers]. rewrite !fmap_app. do 2 (split; [done|]).
  unfold HandlersDetach. rewrite Hd'. cbn [hs_handlers hs_next].
  set (id := if bool_decide _ then _ else _) in *.
  assert (list_find (λ h, h_id h = id) (hs_handlers hs ++ [mkHandler id (hs_next hs) (b (bo_StatePrefix o))])
    = Some (length (hs_handlers hs), mkHandler id (hs_next hs) (b (bo_StatePrefix o)))) as ->.
  { apply list_find_Some. split; [by rewrite list_lookup_middle|]. split; [done|].
    intros i h Hi Hlt. rewrite lookup_app_l in Hi by done. intros ?. apply Hid.
    apply list_elem_of_fmap. exists h. split; [done|]. by eapply list_elem_of_lookup_2. }
  by rewrite delete_middle, app_nil_r.
Qed.

(** ** Properties of disposal *)

(** A machine that is being disposed, or has been, answers every mutation with
    Canceled, and stays as it is. *)
Lemma disposing_inert pq c m : disposing m = true → api_call pq c m = Ok (Canceled, m).
Proof.
  intros Hd. destruct c; cbn [api_call];
    unfold Api.Add, Api.Remove, Api.Set_, Api.Toggle, Api.EvAdd, Api.EvRemove, Api.AddErrState,
      Api.CanAdd, Api.CanRemove, Api.PrependMut, mbind, run_bind, get; rewrite Hd; try done.
  by destruct err as [[]|].
Qed.

(** What [doDispose] leaves alone. *)
Definition settled (m m' : Machine) : Prop :=
  m'.(m_sp) = m.(m_sp) ∧ m'.(m_st) = m.(m_st) ∧ queue m' = queue m ∧ Mach.Err m' = Mach.Err m
  ∧ disposing m' = true ∧ disposed m' = disposed m ∧ dispose m.(m_subs) ⊆ dispose m'.(m_subs).

Lemma doDispose_begin_settled force m r m' :
  disposing m = false → disposed m = false → doDispose_begin force m = Ok (r, m') →
  r = true ∧ settled m m'.
Proof.
  intros Hd Hd'. unfold doDispose_begin. rewrite run_get_bind, Hd, Hd'. cbn [orb]. rewrite run_modify_bind.
  destruct force; [by intros [= <- <-]|].
  intros (ch & m1 & He & [= <- <-])%run_bind_ok. split; [done|]. unfold Wait.WhenQueueEnds in He.
  rewrite run_get_bind in He. destruct (_ || _); [by injection He as _ <-|].
  unfold Wait.subscribe in He. rewrite run_get_bind in He. cbn in He. injection He as _ <-.
  unfold settled. do 6 (split; [done|]). unfold dispose, QueueFlush. cbn. set_solver.
Qed.

(** The channel of a wait on states, on their ticks, on arguments, on the end of
    the queue or on a queue tick. *)
Inductive waits_on (sm : Subscriptions) : nat → Prop :=
| on_states s l ch : sm.(sm_when).(wi_when) !! s = Some l → ch ∈ l → waits_on sm ch
| on_ticks s l ch : sm.(sm_time).(ti_whenTime) !! s = Some l → ch ∈ l → waits_on sm ch
| on_args s l b : sm.(sm_args).(ai_whenArgs) !! s = Some l → b ∈ l → waits_on sm b.(ab_ch)
| on_queue_ends ch : ch ∈ sm.(sm_queue).(ui_whenQueueEnds) → waits_on sm ch
| on_queue_tick b : b ∈ sm.(sm_queue).(ui_whenQueue) → waits_on sm b.(ub_ch).

Lemma elem_of_values {A} (m : gmap string (list A)) s l x : m !! s = Some l → x ∈ l → x ∈ mjoin (map_to_list m).*2.
Proof.
  intros Hl Hx. apply list_elem_of_join. exists l. split; [done|]. apply list_elem_of_fmap. exists (s, l).
  split; [done|]. by apply elem_of_map_to_list.
Qed.

Lemma waits_dispose sm ch : waits_on sm ch → ch ∈ dispose sm.
Proof.
  unfold dispose, QueueFlush. rewrite !elem_of_app. destruct 1.
  - left. by eapply elem_of_values.
  - right; left. by eapply elem_of_values.
  - right; right; left. apply list_elem_of_fmap_2. by eapply elem_of_values.
  - by do 3 right; left.
  - do 4 right. by apply list_elem_of_fmap_2.
Qed.

(** C22: Disposing a machine once: no bindings are left, states and ticks stay, the
    waits on states, ticks, arguments and the queue end (not those on sums of
    time and on queries, see [dispose_forgets]), and so do queued checks; from
    then on mutations are canceled and change nothing, and disposing it again
    does nothing. *)
Theorem doDispose_spec force ctxErr unlock hs m hs' m' :
  disposing m = false → disposed m = false →
  doDispose force ctxErr unlock hs m = Ok (hs', m') →
  hs_handlers hs' = []
  ∧ m'.(m_sp) = m.(m_sp) ∧ m'.(m_st) = m.(m_st) ∧ queue m' = queue m
  ∧ (∀ ch, waits_on m.(m_subs) ch ∨ ch ∈ queued_checks (queue m) → ch ∈ m'.(m_closed))
  ∧ (Mach.Err m ≠ None → Mach.Err m' = Mach.Err m)
  ∧ (∀ pq c, api_call pq c m' = Ok (Canceled, m'))
  ∧ (∀ force' ctxErr' unlock', doDispose force' ctxErr' unlock' hs' m' = Ok (hs', m')).
Proof.
  intros Hd Hd' (go & m1 & Hb & He)%run_bind_ok.
  apply doDispose_begin_settled in Hb as [-> (H1 & H2 & H3 & H4 & H5 & H6 & H7)]; [|done..].
  unfold doDispose_end in He. rewrite run_get_bind, H6, Hd' in He. rewrite !run_modify_bind in He.
  apply run_bind_ok in He as ([] & m2 & Hu & [= <- <-]).
  assert (Hm : disposing m2 = true ∧ disposed m2 = true ∧ m_sp m2 = m_sp m ∧ m_st m2 = m_st m
    ∧ queue m2 = queue m ∧ (dispose (m_subs m1) ++ queued_checks (queue m1)) ⊆ m_closed m2
    ∧ (Mach.Err m ≠ None → Mach.Err m2 = Mach.Err m)).
  { rewrite <- H4 in *. destruct unlock; injection Hu as <-; cbn; rewrite H1, H2; unfold queue in *; cbn;
      (do 5 (split; [done|])); (split; [intros ch Hch; by apply elem_of_app; right|]);
      (intros He; unfold Mach.Err in *; cbn; by destruct (f_err (m_flags m1))). }
  destruct Hm as (D1 & D2 & D3 & D4 & D5 & D6 & D7).
  split; [done|]. do 3 (split; [done|]). split; [|split; [done|split; [intros pq c; by apply disposing_inert|]]].
  - intros ch Hc. apply D6. rewrite H3. apply elem_of_app. destruct Hc as [Hc%waits_dispose|Hc]; [left; by apply H7|by right].
  - intros f ce u. unfold doDispose, doDispose_begin. unfold mbind, run_bind, get. by rewrite D2.
Qed.

(** A wait on a sum of ticks, or a query, that disposal leaves open. *)
Lemma dispose_forgets :
  let sums := mkSubs 1 None ∅ (mkWhenIndex ∅ ∅ ∅) (mkTimeWaits ∅ ∅ ∅) (mkSumWaits [mkWhenTimeSum 0 5 None] ∅)
                (mkArgsWaits ∅ ∅) (mkQueryWaits ∅ [] ∅) (mkQueueWaits [] []) in
  let query := mkSubs 1 None ∅ (mkWhenIndex ∅ ∅ ∅) (mkTimeWaits ∅ ∅ ∅) (mkSumWaits [] ∅)
                (mkArgsWaits ∅ ∅) (mkQueryWaits {[0%nat := mkWhenQuery None (λ _, false)]} [0%nat] ∅) (mkQueueWaits [] []) in
  let m sm := with_subs sm [] (new_machine [] "id" {["A" := zeroState]} zeroOpts) in
  (λ sm, match doDispose true None true (mkHandlers [] 0) (m sm) with
         | Ok (_, m') => bool_decide (0%nat ∈ m'.(m_closed)) | _ => true end) <$> [sums; query] = [false; false].
Proof. by vm_compute. Qed.

Example doDispose_spec_witness :
  let m := new_machine [] "id" {["A" := zeroState]} zeroOpts in
  ∃ hs' m', doDispose false (Some "context canceled") true (mkHandlers [] 0) m = Ok (hs', m')
  ∧ disposed m' = true ∧ api_call (processQueue (λ _, "tx") (λ _, false) [] (λ _, []) (λ _, HEnd true) 9)
      (CallAdd ["A"] ∅) m' = Ok (Canceled, m').
Proof.
  intros m. destruct (doDispose false (Some "context canceled") true (mkHandlers [] 0) m)
    as [[hs' m']|msg|] eqn:E; [|vm_compute in E; discriminate E..].
  exists hs', m'. split; [done|]. split; [vm_compute in E; by injection E as _ <-|].
  destruct (doDispose_spec false (Some "context canceled") true (mkHandlers [] 0) m hs' m')
    as (_ & _ & _ & _ & _ & _ & H & _); [done..|exact E|]. apply H.
Defined.
