(* ===== verification/Mixins.v ===== *)
(** * The handlers of the state mixins ([pkg/states])

    The error mutation of [ConnectedStates] and the handlers of
    [DisposedStates]: registered handlers run, in the order of registration, in
    the goroutine [DisposingState] starts, and [Disposed] follows unless the
    machine leaves [Disposing] before.  Registered functions are values
    ([VOther]) of which [is_dispose] tells the non-nil ones of the right
    type. *)

From S2P Require Import Prelude StateList SchemaDef MachTime Mutation Subscriptions Machine Queue Waits Transition Lifecycle.

#[local] Open Scope Z_scope.

Definition AddErrConnecting (processQueue : run Machine Z) (event : EventSrc) (err : string)
    (args : gmap string Val) : run Machine Z :=
  Api.EvAddErrState processQueue event "ErrConnecting"
    (Some (GoError ("error connecting: " +:+ err))) args.

Module Disposed.
Section disposed.
Context (processQueue : run Machine Z) (is_dispose : Z → bool).

Definition DisposedArgHandler : string := "DisposedArgHandler".

(** [e.Args[DisposedArgHandler].(am.HandlerDispose)], not [nil]. *)
Definition arg_handler (args : gmap string Val) : option Z :=
  match args !! DisposedArgHandler with
  | Some (VOther id) => if is_dispose id then Some id else None
  | _ => None
  end.

Definition RegisterDisposal (e : EventSrc) (handler : Z) : run Machine Z :=
  Api.EvAdd1 processQueue e "RegisterDisposal" {[DisposedArgHandler := VOther handler]}.

Definition RegisterDisposalEnter (args : gmap string Val) (isCheck : bool) : run Machine bool :=
  match arg_handler args with
  | Some _ => mret true
  | None =>
      (if isCheck then mret ()
       else Api.AddErr processQueue (Some (GoError "invalid arguments: DisposedArgHandler invalid")) ∅ ;;
            mret ()) ;;
      mret false
  end.

(** The type assertion panics for what [RegisterDisposalEnter] refuses. *)
Definition RegisterDisposalState (args : gmap string Val) (handlers : list Z) : outcome (list Z) :=
  match arg_handler args with
  | Some fn => Ok (handlers ++ [fn])
  | None => Panic "interface conversion: interface {} is not machine.HandlerDispose"
  end.

(** The goroutine of [DisposingState]: what it still has to call. *)
Record Disposing := mkDisposing { di_ctx : Ctx; di_rest : list Z; di_called : list Z }.

Definition DisposingState (handlers : list Z) : run Machine Disposing :=
  ctx ← Wait.NewStateCtx "Disposing";
  mret (mkDisposing ctx handlers []).

(** One turn of its loop; [done]: the contexts that have expired by then. It
    ends ([None]) by giving up or after the last call. *)
Definition disposing_turn (done : Ctx → bool) (e : EventSrc) (d : Disposing)
  : run Machine (option Disposing) :=
  match d.(di_rest) with
  | [] => Api.EvAdd1 processQueue e "Disposed" ∅ ;; mret None
  | fn :: rest =>
      if done d.(di_ctx) then mret None
      else mret (Some (mkDisposing d.(di_ctx) rest (d.(di_called) ++ [fn])))
  end.

(** The whole goroutine, while the context expires after [expires] calls. *)
Fixpoint disposing_run (expires : option nat) (e : EventSrc) (n : nat) (d : Disposing)
  : run Machine (list Z) :=
  match n with
  | O => mret d.(di_called)
  | S n =>
      r ← disposing_turn (λ _, match expires with
                               | Some k => bool_decide (k ≤ length d.(di_called))%nat
                               | None => false
                               end) e d;
      match r with Some d' => disposing_run expires e n d' | None => mret d.(di_called) end
  end.

(** [DisposedState]: disposes the machine in a goroutine of its own. *)
Definition DisposedState (parentErr : bool) (ctxErr : option string) (hs : Handlers) : run Machine Handlers :=
  Dispose processQueue parentErr ctxErr hs.

Lemma disposing_run_all e l d m r m' :
  d.(di_rest) = l → Api.EvAdd1 processQueue e "Disposed" ∅ m = Ok (r, m') →
  disposing_run None e (S (length l)) d m = Ok (d.(di_called) ++ l, m').
Proof.
  revert d. induction l as [|fn l IH]; intros d Hl He; cbn [disposing_run length]; unfold disposing_turn;
    rewrite Hl; unfold mbind, run_bind.
  - rewrite He. by rewrite app_nil_r.
  - cbn [mret run_ret]. change (disposing_run None e (S (length l)) (mkDisposing (di_ctx d) l (di_called d ++ [fn])) m
      = Ok (di_called d ++ fn :: l, m')).
    rewrite IH by done. cbn. by rewrite <- app_assoc.
Qed.

Lemma disposing_run_expired k e n d m :
  (length d.(di_called) ≤ k < length d.(di_called) + length d.(di_rest))%nat →
  (k - length d.(di_called) < n)%nat →
  disposing_run (Some k) e n d m = Ok (take k (d.(di_called) ++ d.(di_rest)), m).
Proof.
  revert d. induction n as [|n IH]; intros [c rest called] Hk Hn; cbn [di_called di_rest] in *; [lia|].
  cbn [disposing_run]. unfold disposing_turn. cbn [di_rest di_called di_ctx].
  destruct rest as [|fn rest]; [cbn in Hk; lia|]. unfold mbind, run_bind.
  case_bool_decide as Hle; cbn [mret run_ret].
  - by rewrite take_app_le, take_ge by lia.
  - rewrite IH; cbn [di_called di_rest]; rewrite ?length_app; cbn in *; [by rewrite <- app_assoc|lia..].
Qed.
End disposed.

(** Disposing calls every registered handler once, in the order of
    registration, and sets [Disposed] then; when the machine leaves [Disposing]
    after [k] of them, the rest is not called and [Disposed] is not set. *)
Theorem disposing_run_spec pq e handlers c m r m' :
  Api.EvAdd1 pq e "Disposed" ∅ m = Ok (r, m') →
  disposing_run pq None e (S (length handlers)) (mkDisposing c handlers []) m = Ok (handlers, m')
  ∧ ∀ k, (k < length handlers)%nat →
      disposing_run pq (Some k) e (S (length handlers)) (mkDisposing c handlers []) m = Ok (take k handlers, m).
Proof.
  intros He. split.
  - by apply (disposing_run_all pq e handlers (mkDisposing c handlers []) m r m').
  - intros k Hk. rewrite disposing_run_expired; cbn; [done|lia..].
Qed.
End Disposed.
