(* ===== verification/Negotiation.v ===== *)
(** * Negotiation: what happens before the active states are set

    Handlers called before the final phase can cancel a transition, but they
    cannot change the active states, the clock or the schema: a check answers
    without a trace, and a transition canceled by its relations or its
    handlers leaves the states as they were. *)

From S2P Require Import Prelude StateList SchemaDef MachTime Mutation Relations Subscriptions Machine Queue Transition Run Invariants.

#[local] Open Scope Z_scope.

(** ** No final handler has been called yet *)

Section calm.
Context (randId : Machine → string) (done : nat → bool) (bindings : list Binding).
Context (autoOrder : Machine → list string) (evals : string → prog).
Context (sp : SchemaPart) (st : StatePart) (dsp : bool) (mut : Mutation)
  (moves : option (list string * list string)).

Record calm (m : Machine) : Prop := {
  ca_sp : m.(m_sp) = sp;
  ca_st : m.(m_st) = st;
  ca_disposing : disposing m = dsp;
  ca_tx : ∀ t, m.(m_t) = Some t →
    t.(tx_latestHandlerIsFinal) = false ∧ t.(tx_Mutation) = mut
    ∧ ∀ p, moves = Some p → (t.(tx_Exits), t.(tx_Enters)) = p;
}.

Lemma calm_core m m' : core m = core m' → calm m → calm m'.
Proof.
  unfold core. intros He [H1 H2 H3 H4]. simplify_eq. split; try congruence.
  intros t Ht. apply H4. congruence.
Qed.

Lemma calm_keeps_core {A} (e : run Machine A) : keeps_core e → keeps calm e.
Proof. apply keeps_of_core, calm_core. Qed.

Lemma calm_modify_t (f : Transition → Transition) :
  (∀ t, t.(tx_latestHandlerIsFinal) = false →
    (f t).(tx_latestHandlerIsFinal) = false ∧ (f t).(tx_Mutation) = t.(tx_Mutation)
    ∧ (moves = None ∨ (f t).(tx_Exits) = t.(tx_Exits) ∧ (f t).(tx_Enters) = t.(tx_Enters))) →
  keeps calm (modify_t f).
Proof.
  intros Hf. apply keeps_modify. intros m [H1 H2 H3 H4]. split; [done..|].
  intros t Ht. cbn in Ht. destruct (m_t m) as [t0|] eqn:E; [|done]. simplify_eq/=.
  destruct (H4 _ eq_refl) as (Hl & Hm & Hp). destruct (Hf t0 Hl) as (-> & -> & Hor).
  split_and!; [done..|]. intros p ->. destruct Hor as [|[-> ->]]; [done|auto].
Qed.

Lemma calm_flags g : (∀ fl, f_disposing (g fl) = f_disposing fl) →
  keeps calm (modify (with_flags g)).
Proof. intros Hg. by apply calm_keeps_core, modify_flags_core. Qed.

Lemma calm_bind {A B} (e : run Machine A) (f : A → run Machine B) :
  keeps calm e → (∀ a, keeps calm (f a)) → keeps calm (e ≫= f).
Proof. apply keeps_bind. Qed.

End calm.

Create HintDb calm.

(** Walk through code that keeps the calm. *)
Ltac calm :=
  repeat match goal with
  | |- keeps (calm _ _ _ _ _) (mret _) => apply keeps_ret
  | |- keeps (calm _ _ _ _ _) get => apply keeps_get
  | |- keeps (calm _ _ _ _ _) get_t => apply calm_keeps_core, get_t_core
  | |- keeps (calm _ _ _ _ _) (lift _) => apply keeps_lift
  | |- keeps (calm _ _ _ _ _) block => apply keeps_block
  | |- keeps (calm _ _ _ _ _) (panic _) => apply keeps_panic
  | |- keeps (calm _ _ _ _ _) (modify (with_flags _)) => apply calm_flags; done
  | |- keeps (calm _ _ _ _ _) (modify_t _) => apply calm_modify_t; intros; split_and!; [done..|first [by left|by right]]
  | |- keeps (calm _ _ _ _ _) (_ ≫= _) => apply calm_bind; [|intros ?]
  | |- keeps (calm _ _ _ _ _) (if ?x then _ else _) => destruct x
  | |- keeps (calm _ _ _ _ _) (match ?x with _ => _ end) => destruct x
  | H : keeps (calm _ _ _ _ _) ?e |- keeps (calm _ _ _ _ _) ?e => exact H
  | H : ∀ _, keeps (calm _ _ _ _ _) _ |- keeps (calm _ _ _ _ _) _ => apply H
  | |- keeps (calm _ _ _ _ _) _ => solve [eauto with calm]
  | |- keeps (calm _ _ _ _ _) _ => apply calm_keeps_core; solve [eauto with kcore]
  end.

Section negotiation.
Context (randId : Machine → string) (done : nat → bool) (bindings : list Binding).
Context (autoOrder : Machine → list string) (evals : string → prog).
Context (sp : SchemaPart) (st : StatePart) (dsp : bool) (mut : Mutation)
  (moves : option (list string * list string)).
Abbreviation J := (calm sp st dsp mut moves).

Lemma recoverToErr_calm err : keeps J (recoverToErr err).
Proof.
  unfold recoverToErr. apply calm_bind; [apply keeps_get|]. intros m.
  destruct (disposing m); [apply keeps_ret|]. apply calm_bind; [calm|]. intros _.
  apply keeps_hoare. eapply hoare_bind; [apply get_t_hoare|]. intros t.
  intros m1 a m2 [Hm1 Ht] He. cbv beta. destruct (ca_tx _ _ _ _ _ _ Hm1 t Ht) as (Hl & _ & _).
  destruct (Mutation_IsCalled _ _); [by injection He as <- <-|]. rewrite Hl in He.
  revert m1 a m2 Hm1 Ht He. cut (keeps J (modify (with_flags (set_err err)) ;;
    mret () ;;
    modify_t (λ t, tx_set_completed (tx_set_accepted false t)) ;;
    Api.PrependMut processQueue_nested
      (newMutation MutationAdd (Mach.Index m [StateException]) (passException err) false false
         (Some (mkMutSource (f_id (m_flags m)) (tx_Id t) 0))) ;;
    modify (with_flags (set_loop true)))).
  { intros Hk m1 a m2 Hm1 _ He. eapply Hk; [exact Hm1|exact He]. }
  calm.
Qed.
#[local] Hint Resolve recoverToErr_calm : calm.

Lemma callHandler_calm name args body : keeps J (callHandler name args body).
Proof. unfold callHandler. calm. Qed.
#[local] Hint Resolve callHandler_calm : calm.

Lemma processHandlers_loop_calm name args hs b :
  keeps J (processHandlers_loop done name args hs b).
Proof.
  revert b. induction hs as [|h hs IH]; intros b; cbn [processHandlers_loop]; calm.
Qed.
#[local] Hint Resolve processHandlers_loop_calm : calm.

Lemma handle_calm name args isEnter : keeps J (handle done bindings name args false isEnter).
Proof. unfold handle, processHandlers. calm. Qed.
#[local] Hint Resolve handle_calm : calm.

Lemma emitHandler_calm to isEnter name args :
  keeps J (emitHandler done bindings to false isEnter name args).
Proof. unfold emitHandler. calm. Qed.
#[local] Hint Resolve emitHandler_calm : calm.

Lemma dropTarget_calm s : keeps J (dropTarget s).
Proof. unfold dropTarget. calm. Qed.
#[local] Hint Resolve dropTarget_calm : calm.

Lemma emitExitEvents_calm l : keeps J (emitExitEvents done bindings l).
Proof. induction l as [|s l IH]; cbn [emitExitEvents]; calm. Qed.

Lemma emitEnterEvents_calm l : keeps J (emitEnterEvents done bindings l).
Proof. induction l as [|s l IH]; cbn [emitEnterEvents]; calm. Qed.

Lemma emitSelfEvents_calm n i ret : keeps J (emitSelfEvents done bindings n i ret).
Proof. revert i ret. induction n as [|n IH]; intros i ret; cbn [emitSelfEvents]; calm. Qed.

Lemma emitStateStateEvents_calm l : keeps J (emitStateStateEvents done bindings l).
Proof. induction l as [|[b a] l IH]; cbn [emitStateStateEvents]; unfold dropNewAfter; calm. Qed.
#[local] Hint Resolve emitExitEvents_calm emitEnterEvents_calm emitSelfEvents_calm
  emitStateStateEvents_calm : calm.

Lemma negotiate_calm result : keeps J (negotiate done bindings result).
Proof. unfold negotiate, unless_canceled. calm. Qed.

Lemma setupExitEnter_calm : moves = None → keeps J setupExitEnter.
Proof. intros Hmv. unfold setupExitEnter. calm. Qed.

Lemma setupAccepted_calm : keeps J setupAccepted.
Proof. unfold setupAccepted. calm. Qed.
#[local] Hint Resolve negotiate_calm setupExitEnter_calm setupAccepted_calm : calm.

Lemma resolveAgain_calm : moves = None → keeps J resolveAgain.
Proof. intros Hmv. unfold resolveAgain. calm. Qed.

Lemma get_t_calm : hoare J get_t (λ t m, J m ∧ t.(tx_Mutation) = mut ∧ m.(m_t) = Some t).
Proof.
  intros m t m' HJ He. unfold get_t in He. destruct (m_t m) eqn:E; [|done].
  injection He as <- <-. split; [done|]. split; [|done]. by apply (ca_tx _ _ _ _ _ _ HJ).
Qed.

(** The events of a check are all negotiation. *)
Lemma emitEvents_check_calm :
  mut.(mut_IsCheck) = true → moves = None → keeps J (emitEvents done bindings autoOrder).
Proof.
  intros Hc Hmv. unfold emitEvents. apply calm_bind; [calm|]. intros m. apply keeps_hoare.
  eapply hoare_bind; [apply get_t_calm|]. intros t m1 a m2 (HJ & Ht & _) He. cbv beta.
  rewrite Ht, Hc in He. cbn [negb] in He. revert m1 a m2 HJ He.
  match goal with |- ∀ m1 a m2, _ → ?e m1 = _ → _ => change (keeps J e) end.
  calm. all: apply negotiate_calm.
Qed.

(** *** Refusals *)

(** A handler that stops the loop over the bindings cancels. *)
Lemma callHandler_stops name args body m v m' :
  callHandler name args body m = Ok (Some v, m') → v = Canceled.
Proof.
  unfold callHandler. intros (m0 & ? & [= <- <-] & He)%run_bind_ok.
  destruct (negb _); [done|]. apply run_bind_ok in He as (t & m1 & _ & He).
  apply run_bind_ok in He as (r & m2 & _ & He). destruct r as [b|err| |].
  - injection He as He _. destruct (_ || _); congruence.
  - destruct (f_PanicToException _); [|done]. apply run_bind_ok in He as ([] & m3 & _ & He).
    apply run_bind_ok in He as ([] & m4 & _ & He). injection He as He _. destruct (_ || _); congruence.
  - injection He as He _. congruence.
  - apply run_bind_ok in He as ([] & m3 & _ & He). injection He as He _. congruence.
Qed.

Lemma callHandler_veto name args m r m' :
  isFinalName name = false →
  callHandler name args (λ _, HEnd false) m = Ok (r, m') → r = Some Canceled.
Proof.
  intros Hf. unfold callHandler. intros (m0 & ? & [= <- <-] & He)%run_bind_ok.
  destruct (negb _); [done|]. apply run_bind_ok in He as (t & m1 & _ & He).
  apply run_bind_ok in He as (res & m2 & Hr & He).
  assert (res = REnd false) as -> by (destruct (_ && _); injection Hr as <- _; done).
  injection He as <- _. by rewrite Hf.
Qed.

(** A binding refuses an event: its method returns [false]. *)
Definition refuses (name : string) (h : Binding) : Prop :=
  HasPrefix name h.(hb_StatePrefix) = true
  ∧ h.(hb_method) (TrimPrefix name h.(hb_StatePrefix)) = Some (λ _, HEnd false).

Lemma processHandlers_loop_veto name args hs b :
  dsp = false → isFinalName name = false → Exists (refuses name) hs →
  hoare J (processHandlers_loop done name args hs b) (λ r _, r.1 = Canceled).
Proof.
  intros Hd Hf Hex. revert b. induction hs as [|h hs IH]; intros b; [by inversion Hex|].
  cbn [processHandlers_loop].
  eapply hoare_bind; [apply (hoare_get _ (λ a m, a = m ∧ J m)); auto|].
  intros m0 m r m' [-> HJ] He. rewrite (ca_disposing _ _ _ _ _ _ HJ), Hd in He.
  apply Exists_cons in Hex as [[Hp Hm]|Hex].
  - rewrite Hp, Hm in He. cbn [negb] in He. apply run_bind_ok in He as (x & m1 & Hc & He).
    pose proof (callHandler_veto _ _ _ _ _ Hf Hc) as ->. by injection He as <- _.
  - destruct (negb _); [by eapply IH|]. destruct (hb_method h _) as [body|]; [|by eapply IH].
    apply run_bind_ok in He as (x & m1 & Hc & He).
    assert (J m1) as HJ1 by (eapply callHandler_calm; [exact HJ|exact Hc]).
    destruct x as [v|]; [|by eapply IH]. pose proof (callHandler_stops _ _ _ _ _ _ Hc) as ->.
    by injection He as <- _.
Qed.

Lemma emitHandler_veto to isEnter name args :
  dsp = false → isFinalName name = false → Exists (refuses name) bindings →
  hoare J (emitHandler done bindings to false isEnter name args) (λ r m, r = Canceled ∧ J m).
Proof.
  intros Hd Hf Hex m r m' HJ He. split; [|by eapply emitHandler_calm; [exact HJ|exact He]].
  revert He. unfold emitHandler. intros ([] & m1 & H1 & He)%run_bind_ok.
  assert (HJ1 : J m1). { eapply (calm_modify_t sp st dsp mut moves); [|exact HJ|exact H1].
    intros; split_and!; [done..|by right]. }
  apply run_bind_ok in He as (x & m2 & H2 & He). injection He as <- _. revert H2.
  unfold handle. intros (m3 & ? & [= <- <-] & He)%run_bind_ok.
  rewrite (ca_disposing _ _ _ _ _ _ HJ1), Hd in He.
  apply run_bind_ok in He as ([] & m4 & H4 & He).
  assert (HJ4 : J m4). { eapply (calm_modify_t sp st dsp mut moves); [|exact HJ1|exact H4].
    intros; split_and!; [done..|by right]. }
  apply run_bind_ok in He as (y & m5 & H5 & He). revert H5. unfold processHandlers.
  intros (m6 & ? & [= <- <-] & H5)%run_bind_ok.
  rewrite (ca_disposing _ _ _ _ _ _ HJ4), Hd in H5.
  pose proof (processHandlers_loop_veto _ _ _ _ Hd Hf Hex _ _ _ HJ4 H5) as Hy.
  apply run_bind_ok in He as (m7 & ? & [= <- <-] & He). destruct (f_panicCaught _).
  - apply run_bind_ok in He as ([] & m8 & _ & He). by injection He as <- _.
  - by injection He as <- _.
Qed.

Lemma rev_app_app s1 s2 acc :
  String.rev_app (s1 +:+ s2) acc = String.rev_app s2 (String.rev_app s1 acc).
Proof. revert acc. induction s1 as [|c s1 IH]; intros acc; [done|]. cbn. apply IH. Qed.

Lemma Enter_not_final s : isFinalName (s +:+ SuffixEnter) = false.
Proof. unfold isFinalName, HasSuffix, String.rev. by rewrite rev_app_app. Qed.

Lemma emitEnterEvents_veto l s :
  dsp = false → mut.(mut_IsAuto) = false → s ∈ l →
  Exists (refuses (s +:+ SuffixEnter)) bindings →
  hoare J (emitEnterEvents done bindings l) (λ r m, r = Canceled ∧ J m).
Proof.
  intros Hd Ha Hs Hex. induction l as [|x l IH]; [by apply not_elem_of_nil in Hs|].
  cbn [emitEnterEvents]. eapply hoare_bind; [apply get_t_calm|]. intros t.
  eapply hoare_bind with (R := λ r m, (x = s → r = Canceled) ∧ J m ∧ mut_IsAuto (tx_Mutation t) = false).
  { intros m r m' (HJ & Hm & _) He. split_and!; [|by eapply emitHandler_calm; [exact HJ|exact He]|congruence].
    intros ->. by destruct (emitHandler_veto _ _ _ _ Hd (Enter_not_final s) Hex _ _ _ HJ He). }
  intros ret. case_bool_decide as Hret.
  - intros m r m' (_ & HJ & Hauto) He. unfold Tx.IsAuto in He. rewrite Hauto in He.
    by injection He as <- <-.
  - intros m r m' (Hx & HJ & _) He. eapply IH; [|exact HJ|exact He].
    apply elem_of_cons in Hs as [->|Hs]; [by destruct Hret; apply Hx|done].
Qed.

Lemma unless_canceled_stop r (e : run Machine Z) :
  hoare (λ m, r = Canceled ∧ J m) (unless_canceled r e) (λ r m, r = Canceled ∧ J m).
Proof.
  intros m a m' [-> HJ] He. unfold unless_canceled in He.
  rewrite bool_decide_eq_true_2 in He by done. by injection He as <- <-.
Qed.

Lemma negotiate_veto exits enters s result :
  moves = Some (exits, enters) → dsp = false → mut.(mut_IsAuto) = false → s ∈ enters →
  Exists (refuses (s +:+ SuffixEnter)) bindings →
  hoare J (negotiate done bindings result) (λ r m, r = Canceled ∧ J m).
Proof.
  intros Hmv Hd Ha Hs Hex. unfold negotiate.
  eapply hoare_bind with (R := λ _, J).
  { apply keeps_hoare. unfold unless_canceled. calm. }
  intros r1. eapply hoare_bind with (R := λ r m, r = Canceled ∧ J m).
  { unfold unless_canceled. case_bool_decide; [by apply hoare_ret|].
    eapply hoare_bind; [apply get_t_calm|]. intros t m r m' (HJ & _ & Ht) He.
    destruct (ca_tx _ _ _ _ _ _ HJ t Ht) as (_ & _ & Hp). specialize (Hp _ Hmv).
    injection Hp as _ Hen. rewrite Hen in He. by eapply emitEnterEvents_veto. }
  intros r2. eapply hoare_bind; [apply unless_canceled_stop|]. intros r3.
  eapply hoare_bind; [apply unless_canceled_stop|]. intros r4.
  eapply hoare_bind with (R := λ t m, mut_IsAuto (tx_Mutation t) = false ∧ r4 = Canceled ∧ J m).
  { intros m t m' [-> HJ] He. pose proof (get_t_calm _ _ _ HJ He) as (HJ' & Ht & _).
    split; [congruence|done]. }
  intros t m r m' (Hauto & -> & HJ) He. unfold Tx.IsAuto in He. rewrite Hauto in He. cbn [andb] in He.
  by eapply unless_canceled_stop.
Qed.

End negotiation.

Section properties.
Context (randId : Machine → string) (done : nat → bool) (bindings : list Binding).
Context (autoOrder : Machine → list string) (evals : string → prog).

#[local] Hint Resolve negotiate_calm setupExitEnter_calm setupAccepted_calm resolveAgain_calm : calm.

Lemma newTransition_calm mut m m' :
  newTransition randId mut m = Ok ((), m') →
  calm m.(m_sp) m.(m_st) (disposing m) mut None m'.
Proof.
  set (J := calm m.(m_sp) m.(m_st) (disposing m) mut None).
  cut (hoare (λ m0, m0 = m) (newTransition randId mut) (λ _, J)).
  { intros Hh He. by eapply Hh. }
  unfold newTransition.
  eapply hoare_bind; [apply (hoare_get _ (λ a m0, a = m ∧ m0 = m)); by intros ? ->|]. intros m0.
  eapply hoare_bind with (R := λ _, J).
  { apply hoare_modify. intros ? [-> ->]. split; [done..|]. cbn. by intros t [= <-]. }
  intros []. apply keeps_hoare. unfold J. calm.
Qed.

Section executing.
Context (sp : SchemaPart) (st : StatePart) (dsp : bool) (mut : Mutation)
  (moves : option (list string * list string)).
Abbreviation J := (calm sp st dsp mut moves).

Definition rejected (m : Machine) : Prop :=
  ∃ t, m.(m_t) = Some t ∧ t.(tx_IsAccepted) = false.

Lemma execute_canceled called :
  moves = None → hoare J (execute done bindings autoOrder called Canceled) (λ r m, r = Canceled ∧ J m ∧ rejected m).
Proof.
  intros Hmv. unfold execute.
  eapply hoare_bind with (R := λ _, J); [apply keeps_hoare; calm|]. intros t.
  eapply hoare_bind with (R := λ _, J); [apply keeps_hoare; calm|]. intros [].
  unfold settle. rewrite !bool_decide_eq_true_2 by done. cbn [negb].
  eapply hoare_bind with (R := λ (x : Z * bool) m, x = (Canceled, false) ∧ J m).
  { eapply hoare_bind with (R := λ _, J); [apply keeps_hoare; calm|]. intros m.
    eapply hoare_bind with (R := λ _, J); [apply keeps_hoare; calm|]. intros [].
    by apply hoare_ret. }
  intros [r b].
  eapply hoare_bind with (R := λ _ m, (r, b) = (Canceled, false) ∧ J m).
  { apply hoare_get. auto. }
  intros m. eapply hoare_bind with (R := λ t m, ((r, b) = (Canceled, false) ∧ J m) ∧ m_t m = Some t).
  { apply get_t_hoare. }
  intros t1 m1 a m2 [[[= -> ->] HJ] Ht] He.
  rewrite !bool_decide_eq_true_2 in He by done. cbn [negb andb] in He.
  apply run_bind_ok in He as (r & m3 & Hr & He). injection Hr as <- <-.
  rewrite !bool_decide_eq_true_2 in He by done.
  apply run_bind_ok in He as ([] & m3 & Hm & He). injection He as <- <-. split; [done|].
  split; [eapply calm_modify_t with (f := tx_set_accepted false);
    [intros; split_and!; [done..|by right]|exact HJ|exact Hm]|].
  unfold modify_t, modify in Hm. injection Hm as <-. eexists. rewrite Ht. split; [reflexivity|done].
Qed.

Lemma rejected_completed : hoare rejected (modify_t tx_set_completed) (λ _, rejected).
Proof.
  intros m a m' (t & Ht & Ha) He. unfold modify_t, modify in He. injection He as _ <-.
  eexists. cbn. rewrite Ht. split; [reflexivity|done].
Qed.

Lemma answerCheck_closes ch : mut.(mut_Args) !! checkKey = Some (VCheck ch) →
  hoare J answerCheck (λ _ m, J m ∧ ch ∈ m.(m_closed)).
Proof.
  intros Hch. unfold answerCheck. eapply hoare_bind; [apply get_t_calm|]. intros t.
  intros m a m' (HJ & Hm & Ht) He. unfold Tx.Args in He. rewrite Hm, Hch in He.
  injection He as <- <-. split; [|cbn; set_solver].
  destruct HJ as [H1 H2 H3 H4]. by split.
Qed.
End executing.

(** ** Properties *)

(** C12: A check ([CanAdd], [CanRemove]) runs its negotiation handlers and answers,
    but whatever they do it changes neither the active states, nor the clock,
    nor the schema; a check with a [CheckDone] channel always closes it. *)
Theorem check_pure mut m r m' :
  mut.(mut_IsCheck) = true → mut.(mut_Type) ≠ mutationEval →
  runMutation randId done bindings autoOrder evals mut m = Ok (r, m') →
  m'.(m_st) = m.(m_st) ∧ m'.(m_sp) = m.(m_sp)
  ∧ ∀ ch, mut.(mut_ctx) = None → mut.(mut_Args) !! checkKey = Some (VCheck ch) →
      ch ∈ m'.(m_closed).
Proof.
  intros Hc Hty. unfold runMutation. rewrite Hc.
  destruct (match mut_ctx mut with Some c => done c | None => false end) eqn:Hctx.
  { intros He. injection He as <- <-. split_and!; [done..|]. intros ch Hn. by rewrite Hn in Hctx. }
  rewrite bool_decide_eq_false_2 by done. clear Hctx.
  intros ([] & m1 & Hn & He)%run_bind_ok. apply newTransition_calm in Hn.
  apply run_bind_ok in He as (res & m2 & He1 & He).
  assert (HJ : calm (m_sp m) (m_st m) (disposing m) mut None m2).
  { eapply emitEvents_check_calm; [exact Hc|done|exact Hn|exact He1]. }
  apply run_bind_ok in He as (t & m3 & Ht & He). unfold get_t in Ht.
  destruct (m_t m2) eqn:E; [|done]. injection Ht as <- <-.
  apply run_bind_ok in He as ([] & m3 & Ha & He). injection He as _ <-.
  assert (HJ' : calm (m_sp m) (m_st m) (disposing m) mut None m3).
  { eapply (calm_keeps_core (m_sp m) (m_st m) (disposing m) mut None answerCheck);
      [apply answerCheck_core|exact HJ|exact Ha]. }
  split; [apply HJ'|]. split; [apply HJ'|]. intros ch _ Hch.
  by eapply answerCheck_closes in Ha as [_ Hin].
Qed.

Lemma emitEvents_canceled mut m m1 t1 m2 r m' :
  mut.(mut_IsCheck) = false →
  newTransition randId mut m = Ok ((), m1) → m1.(m_t) = Some t1 →
  (if m1.(m_flags).(f_handlerLoopRunning)
   then negotiate done bindings (if t1.(tx_IsAccepted) then Executed else Canceled) m1
        = Ok (Canceled, m2)
   else t1.(tx_IsAccepted) = false) →
  emitEvents done bindings autoOrder m1 = Ok (r, m') →
  r = Canceled ∧ m'.(m_st) = m.(m_st) ∧ m'.(m_sp) = m.(m_sp) ∧ rejected m'.
Proof.
  intros Hc Hn%newTransition_calm Ht1 Hneg. unfold emitEvents.
  intros (m0 & ? & [= <- <-] & He)%run_bind_ok.
  apply run_bind_ok in He as (t & m3 & Ht & He). unfold get_t in Ht. rewrite Ht1 in Ht.
  injection Ht as <- <-. apply run_bind_ok in He as (called & m3 & Hl & He).
  unfold lift in Hl. apply outcome_bind_ok in Hl as (c & _ & Heq). injection Heq as <- <-.
  destruct (ca_tx _ _ _ _ _ _ Hn t1 Ht1) as (_ & Hm & _). rewrite Hm, Hc in He. cbn [negb] in He.
  apply run_bind_ok in He as (r1 & m3 & H1 & He).
  assert (r1 = Canceled ∧ calm (m_sp m) (m_st m) (disposing m) mut None m3) as [-> HJ].
  { destruct (f_handlerLoopRunning (m_flags m1)).
    - rewrite Hneg in H1. injection H1 as <- <-. split; [done|].
      eapply negotiate_calm; [exact Hn|exact Hneg].
    - rewrite Hneg in H1. by injection H1 as <- <-. }
  apply run_bind_ok in He as (r2 & m4 & H2 & He).
  pose proof (execute_canceled _ _ _ _ _ c eq_refl m3 r2 m4 HJ H2) as (-> & HJ4 & Hrej).
  apply run_bind_ok in He as ([] & m5 & H5 & He). rewrite bool_decide_eq_true_2 in He by done.
  injection He as <- <-. pose proof (rejected_completed _ _ _ Hrej H5) as Hr5.
  assert (HJ5 : calm (m_sp m) (m_st m) (disposing m) mut None m5).
  { eapply calm_modify_t with (f := tx_set_completed);
      [|exact HJ4|exact H5]. intros; split_and!; [done..|by right]. }
  split_and!; [done|apply HJ5..|done].
Qed.


(** C15: A transition its relations or its negotiation handlers cancel leaves the
    active states and the clock as they were, and is not accepted. *)
Theorem canceled_keeps_states mut m m1 t1 m2 r m' :
  mut.(mut_IsCheck) = false →
  newTransition randId mut m = Ok ((), m1) → m1.(m_t) = Some t1 →
  (if m1.(m_flags).(f_handlerLoopRunning)
   then negotiate done bindings (if t1.(tx_IsAccepted) then Executed else Canceled) m1
        = Ok (Canceled, m2)
   else t1.(tx_IsAccepted) = false) →
  emitEvents done bindings autoOrder m1 = Ok (r, m') →
  r = Canceled ∧ m'.(m_st) = m.(m_st) ∧ m'.(m_sp) = m.(m_sp) ∧ rejected m'.
Proof. apply emitEvents_canceled. Qed.

(** C14: One handler that refuses to let a state in is enough: for a called mutation -
    neither an auto one, which is accepted in part, nor a check - of a machine that
    is not being disposed, if any binding's [Enter] method of a state about to be
    entered returns [false], the transition is canceled and nothing changes. *)
Theorem Enter_veto mut m m1 t1 s r m' :
  mut.(mut_IsCheck) = false → mut.(mut_IsAuto) = false → disposing m = false →
  newTransition randId mut m = Ok ((), m1) → m1.(m_t) = Some t1 →
  m1.(m_flags).(f_handlerLoopRunning) = true → s ∈ t1.(tx_Enters) →
  Exists (refuses (s +:+ SuffixEnter)) bindings →
  emitEvents done bindings autoOrder m1 = Ok (r, m') →
  r = Canceled ∧ m'.(m_st) = m.(m_st) ∧ m'.(m_sp) = m.(m_sp) ∧ rejected m'.
Proof.
  intros Hc Ha Hd Hn Ht1 Hrun Hs Hex He.
  pose proof (newTransition_calm _ _ _ Hn) as [H1 H2 H3 H4].
  assert (HJ : calm (m_sp m) (m_st m) (disposing m) mut (Some (tx_Exits t1, tx_Enters t1)) m1).
  { split; [done..|]. intros t Ht. destruct (H4 t Ht) as (Hl & Hm & _).
    split_and!; [done..|]. intros p [= <-]. congruence. }
  pose proof He as He'. unfold emitEvents in He'. apply run_bind_ok in He' as (m0 & ? & Hg & He').
  injection Hg as <- <-. apply run_bind_ok in He' as (t & m3 & Ht & He'). unfold get_t in Ht.
  rewrite Ht1 in Ht. injection Ht as <- <-. apply run_bind_ok in He' as (called & m3 & Hl & He').
  unfold lift in Hl. apply outcome_bind_ok in Hl as (c & _ & Heq). injection Heq as <- <-.
  rewrite Hrun in He'. apply run_bind_ok in He' as (x & m2 & Hneg & _).
  edestruct negotiate_veto as [Hx _];
    [reflexivity|exact Hd|exact Ha|exact Hs|exact Hex|exact HJ|exact Hneg|]. rewrite Hx in Hneg.
  eapply emitEvents_canceled; [done|exact Hn|exact Ht1| |exact He]. rewrite Hrun. exact Hneg.
Qed.

End properties.

(** ** Witnesses: [B] may not be entered *)

Definition veto_binding : Binding :=
  mkBinding "" (λ name, if bool_decide (name = "BEnter") then Some (λ _, HEnd false) else None).

Definition veto_machine : Machine :=
  mkMachine (mkFlags "m" 1000 true true true false false false false None)
    (mkSchemaPart {["A" := set_Add zeroState (Some ["B"]); "B" := zeroState]} ["A"; "B"] [] 0 true)
    (mkStatePart [] ∅ ∅) (mkQueuePart [] 1 0 0 0 true true) NewSubscriptionManager [] [] None.

Definition add_A (isCheck : bool) (args : gmap string Val) : Mutation :=
  newMutation MutationAdd [0] args false isCheck None.

Definition veto_run (mut : Mutation) : outcome (option Z * Machine) :=
  runMutation (λ _, "tx") (λ _, false) [veto_binding] (λ _, []) (λ _, HEnd true) mut veto_machine.

Example check_pure_witness :
  ∃ r m', veto_run (add_A true {[checkKey := VCheck 7]}) = Ok (r, m')
    ∧ m'.(m_st) = veto_machine.(m_st) ∧ 7%nat ∈ m'.(m_closed).
Proof.
  destruct (veto_run _) as [[r m']|msg|] eqn:E; [|vm_compute in E; discriminate E..].
  exists r, m'. split; [done|].
  destruct (check_pure (λ _, "tx") (λ _, false) [veto_binding] (λ _, []) (λ _, HEnd true)
    (add_A true {[checkKey := VCheck 7]}) veto_machine r m') as (H1 & _ & H2);
    [reflexivity|discriminate|exact E|]. split; [exact H1|].
  apply H2; reflexivity.
Defined.

Example Enter_veto_witness :
  ∃ m1 r m', newTransition (λ _, "tx") (add_A false ∅) veto_machine = Ok ((), m1)
    ∧ emitEvents (λ _, false) [veto_binding] (λ _, []) m1 = Ok (r, m') ∧ r = Canceled.
Proof.
  destruct (newTransition (λ _, "tx") (add_A false ∅) veto_machine) as [[[] m1]|msg|] eqn:E1;
    [|vm_compute in E1; discriminate E1..].
  destruct (emitEvents (λ _, false) [veto_binding] (λ _, []) m1) as [[r m']|msg|] eqn:E2;
    [|vm_compute in E1; injection E1 as <-; vm_compute in E2; discriminate E2..].
  exists m1, r, m'. split_and!; [done..|]. pose proof E1 as E3. vm_compute in E3.
  destruct (m_t m1) as [t1|] eqn:Et; [|injection E3 as <-; vm_compute in Et; discriminate Et].
  eapply (Enter_veto (λ _, "tx") (λ _, false) [veto_binding] (λ _, []) (add_A false ∅)
    veto_machine m1 t1 "B" r m'); [reflexivity..|exact E1|exact Et| | | |exact E2];
    injection E3 as <-.
  - reflexivity.
  - vm_compute in Et. injection Et as <-. compute_decide.
  - constructor. split; [reflexivity|]. reflexivity.
Defined.

Example canceled_keeps_states_witness :
  ∃ m1 r m', newTransition (λ _, "tx") (add_A false ∅) veto_machine = Ok ((), m1)
    ∧ emitEvents (λ _, false) [veto_binding] (λ _, []) m1 = Ok (r, m')
    ∧ m'.(m_st) = veto_machine.(m_st).
Proof.
  destruct (newTransition (λ _, "tx") (add_A false ∅) veto_machine) as [[[] m1]|msg|] eqn:E1;
    [|vm_compute in E1; discriminate E1..].
  pose proof E1 as E3. vm_compute in E3.
  destruct (emitEvents (λ _, false) [veto_binding] (λ _, []) m1) as [[r m']|msg|] eqn:E2;
    [|injection E3 as <-; vm_compute in E2; discriminate E2..].
  exists m1, r, m'. split_and!; [done..|].
  destruct (m_t m1) as [t1|] eqn:Et; [|injection E3 as <-; vm_compute in Et; discriminate Et].
  destruct (negotiate (λ _, false) [veto_binding] (if tx_IsAccepted t1 then Executed else Canceled)
    m1) as [[x m2]|msg|] eqn:En;
    [|injection E3 as <-; vm_compute in Et; injection Et as <-; vm_compute in En; discriminate En..].
  apply (canceled_keeps_states (λ _, "tx") (λ _, false) [veto_binding] (λ _, []) (add_A false ∅)
    veto_machine m1 t1 m2 r m'); [reflexivity|exact E1|exact Et| |exact E2].
  assert (x = Canceled) as ->.
  { injection E3 as <-. vm_compute in Et. injection Et as <-. vm_compute in En. injection En as <- _. reflexivity. }
  injection E3 as <-. exact En.
Defined.
