(* ===== verification/HandlerLoop.v ===== *)
(** * The goroutines of a handler call ([pkg/machine/machine.go])

    Handlers do not run in the goroutine that processes the queue.  It sends a
    [handlerCall] to the goroutine of [handlerLoop], and waits for the result,
    a panic, the timeout or the end of the machine's context; a handler that
    overruns its deadline as well is given up, and a new handler loop started
    beside the old one.  This file is the protocol the two sides keep:
    [processHandlers] and [recoverToErr] of the caller, [handlerLoop] with its
    [handleCall] and its deferred [catch], and the part of [doDispose] that
    closes the channels.  The channels [handlerStart], [handlerEnd] and
    [handlerPanic] have no buffer: a send and a receive are one step.  A loop
    is known by the number of its goroutine, a call by the address of its
    struct; the end of a handler's code is an argument.  The
    effects on the machine are those of [Transition.v], whose [callHandler] is
    one step: here only the errors queued are kept.  Contexts end, timers fire
    and [Dispose] is called at any time.  What the disposal can come in between
    is two steps: a caller that found the machine not disposing is [CReady]
    before it sends the call, a [catch] is [LRaise] before it sends the panic;
    [errInternal], which has a buffer, is closed by the disposal too. *)

From S2P Require Import Prelude StateList MachTime Mutation Machine Queue Transition Run Semantics.

#[local] Open Scope Z_scope.

(** ** The goroutines *)

(** [*handlerCall]: its address, the method and its name. *)
Record handlerCall := mkCall {
  hc_ptr : nat;
  hc_fn : gmap string Val → prog;
  hc_name : string;
}.

(** The goroutine in [processHandlers]: before the next binding; past the test of
    [disposing] with a call made; at [m.handlerStart <- call]; in the select for
    the result; after the timeout, in the select for the late result; in
    [recoverToErr]; returned. *)
Inductive Caller :=
| CIdle
| CNext (hs : list Binding) (handlerCalled : bool)
| CReady (c : handlerCall) (hs : list Binding)
| CSend (c : handlerCall) (hs : list Binding)
| CWait (c : handlerCall) (hs : list Binding)
| CLate (c : handlerCall) (hs : list Binding)
| CRecover (err : string) (hs : list Binding)
| CDone (res : Z) (handlerCalled : bool).

(** A goroutine of [handlerLoop]: started; in the select of the first loop or
    ([grace]) of the second; in [call.Exec]; after it; waiting for [loopLock];
    in the select for the result; in [catch]; in it, past the test of
    [disposing]; at [m.handlerPanic <- ...]; in [AddErr] after its version was replaced; returned. *)
Inductive Loop :=
| LStart
| LWait (ver : Z) (grace : bool)
| LExec (ver : Z) (grace : bool) (c : handlerCall)
| LCheck (ver : Z) (grace : bool) (c : handlerCall) (ret : bool)
| LLock (ver : Z) (grace : bool) (c : handlerCall) (ret : bool)
| LSend (ver : Z) (grace : bool) (c : handlerCall) (ret : bool)
| LCatch (err : string) (c : handlerCall)
| LRaise (err : string) (c : handlerCall)
| LPanic (err : string) (c : handlerCall)
| LReport (c : handlerCall)
| LExit.

(** The event being handled: its name, whether its mutation called
    [Exception], whether it is still valid. *)
Record HandlerEvent := mkHEvent { he_Name : string; he_exception : bool; he_IsValid : bool }.

(** What other goroutines change: the contexts, [disposing], the channels. [n_closing]:
    how many of the three channels the goroutine of [doDispose] is done with,
    [handlerEnd] first; [n_errClosed]: [doDispose] closed [errInternal]; [n_asked]: a handler loop called [Dispose], or added
    [Disposing]. *)
Record Env := mkEnv {
  n_ctxParent : bool;
  n_ctx : bool;
  n_disposing : bool;
  n_asked : bool;
  n_closing : nat;
  n_endClosed : bool;
  n_panicClosed : bool;
  n_startClosed : bool;
  n_errClosed : bool;
}.

(** What the handler calls leave behind: the errors sent and queued (the rest
    of the queue is dropped with them), the backoff. *)
Record Traces := mkTraces {
  r_errInternal : list string;
  r_queue : list string;
  r_LastHandlerDeadline : bool;
  r_panicCaught : bool;
}.

Record Sys := mkSys {
  y_caller : Caller;
  y_event : HandlerEvent;
  y_loops : list Loop;
  y_handlerLoopVer : Z;
  y_loopLock : bool;
  y_env : Env;
  y_traces : Traces;
  y_next : nat;
  y_crashed : option string;
}.

Definition set_caller (c : Caller) (y : Sys) : Sys :=
  mkSys c y.(y_event) y.(y_loops) y.(y_handlerLoopVer) y.(y_loopLock) y.(y_env) y.(y_traces)
    y.(y_next) y.(y_crashed).
Definition set_event (e : HandlerEvent) (y : Sys) : Sys :=
  mkSys y.(y_caller) e y.(y_loops) y.(y_handlerLoopVer) y.(y_loopLock) y.(y_env) y.(y_traces)
    y.(y_next) y.(y_crashed).
Definition set_loops (l : list Loop) (y : Sys) : Sys :=
  mkSys y.(y_caller) y.(y_event) l y.(y_handlerLoopVer) y.(y_loopLock) y.(y_env) y.(y_traces)
    y.(y_next) y.(y_crashed).
Definition set_ver (v : Z) (y : Sys) : Sys :=
  mkSys y.(y_caller) y.(y_event) y.(y_loops) v y.(y_loopLock) y.(y_env) y.(y_traces) y.(y_next)
    y.(y_crashed).
Definition set_lock (b : bool) (y : Sys) : Sys :=
  mkSys y.(y_caller) y.(y_event) y.(y_loops) y.(y_handlerLoopVer) b y.(y_env) y.(y_traces)
    y.(y_next) y.(y_crashed).
Definition set_env (n : Env) (y : Sys) : Sys :=
  mkSys y.(y_caller) y.(y_event) y.(y_loops) y.(y_handlerLoopVer) y.(y_loopLock) n y.(y_traces)
    y.(y_next) y.(y_crashed).
Definition set_traces (r : Traces) (y : Sys) : Sys :=
  mkSys y.(y_caller) y.(y_event) y.(y_loops) y.(y_handlerLoopVer) y.(y_loopLock) y.(y_env) r
    y.(y_next) y.(y_crashed).
Definition set_next (n : nat) (y : Sys) : Sys :=
  mkSys y.(y_caller) y.(y_event) y.(y_loops) y.(y_handlerLoopVer) y.(y_loopLock) y.(y_env)
    y.(y_traces) n y.(y_crashed).
(** A panic no one recovers from: the process ends. *)
Definition crash (msg : string) (y : Sys) : Sys :=
  mkSys y.(y_caller) y.(y_event) y.(y_loops) y.(y_handlerLoopVer) y.(y_loopLock) y.(y_env)
    y.(y_traces) y.(y_next) (Some msg).

Definition set_goroutine (g : nat) (l : Loop) (y : Sys) : Sys := set_loops (<[g := l]> y.(y_loops)) y.

(** [go m.handlerLoop()] *)
Definition go_handlerLoop (y : Sys) : Sys := set_loops (y.(y_loops) ++ [LStart]) y.

Definition set_queue_errs (q : list string) (y : Sys) : Sys :=
  let r := y.(y_traces) in
  set_traces (mkTraces r.(r_errInternal) q r.(r_LastHandlerDeadline) r.(r_panicCaught)) y.
Definition set_caught (b : bool) (y : Sys) : Sys :=
  let r := y.(y_traces) in
  set_traces (mkTraces r.(r_errInternal) r.(r_queue) r.(r_LastHandlerDeadline) b) y.
Definition set_deadline (y : Sys) : Sys :=
  let r := y.(y_traces) in set_traces (mkTraces r.(r_errInternal) r.(r_queue) true r.(r_panicCaught)) y.

(** The buffered [errInternal], of capacity 10: a full one drops the error, a
    closed one panics in the goroutine of the caller. *)
Definition send_errInternal (err : string) (y : Sys) : Sys :=
  let r := y.(y_traces) in
  if y.(y_env).(n_errClosed) then crash "send on closed channel" y
  else if bool_decide (length r.(r_errInternal) < 10)%nat
  then set_traces (mkTraces (r.(r_errInternal) ++ [err]) r.(r_queue) r.(r_LastHandlerDeadline)
                     r.(r_panicCaught)) y
  else y.

Definition env_parent (n : Env) : Env :=
  mkEnv true n.(n_ctx) n.(n_disposing) n.(n_asked) n.(n_closing) n.(n_endClosed) n.(n_panicClosed) n.(n_startClosed)
    n.(n_errClosed).
Definition env_cancel (n : Env) : Env :=
  mkEnv n.(n_ctxParent) true n.(n_disposing) n.(n_asked) n.(n_closing) n.(n_endClosed) n.(n_panicClosed)
    n.(n_startClosed) n.(n_errClosed).
Definition env_dispose (n : Env) : Env :=
  mkEnv n.(n_ctxParent) n.(n_ctx) true n.(n_asked) n.(n_closing) n.(n_endClosed) n.(n_panicClosed)
    n.(n_startClosed) n.(n_errClosed).
Definition env_ask (n : Env) : Env :=
  mkEnv n.(n_ctxParent) n.(n_ctx) n.(n_disposing) true n.(n_closing) n.(n_endClosed) n.(n_panicClosed)
    n.(n_startClosed) n.(n_errClosed).
Definition env_closed (k : nat) (e p s : bool) (n : Env) : Env :=
  mkEnv n.(n_ctxParent) n.(n_ctx) n.(n_disposing) n.(n_asked) k e p s n.(n_errClosed).
Definition env_err_closed (n : Env) : Env :=
  mkEnv n.(n_ctxParent) n.(n_ctx) n.(n_disposing) n.(n_asked) n.(n_closing) n.(n_endClosed) n.(n_panicClosed)
    n.(n_startClosed) true.

(** ** The steps *)

Section protocol.
(** How the code of a call ends: its result, or a panic. *)
Context (Exec : handlerCall → bool + string) (PanicToException : bool).

(** *** The caller *)

(** The end of the loop body of [processHandlers]. *)
Definition handle_negotiation (timeout ret : bool) (hs : list Binding) (y : Sys) : Sys :=
  set_caller
    (if timeout then CDone Canceled true
     else if isFinalName y.(y_event).(he_Name) || ret then CNext hs true
     else CDone Canceled true) y.

(** [recoverToErr], and the rest of the loop body. *)
Definition recoverToErr_step (err : string) (hs : list Binding) (y : Sys) : Sys :=
  handle_negotiation false false hs
    (if y.(y_env).(n_disposing) then y
     else
       let y := set_caught true y in
       let e := y.(y_event) in
       if e.(he_exception) then y
       else
         go_handlerLoop
           (set_queue_errs (err :: y.(y_traces).(r_queue))
              (set_event (mkHEvent e.(he_Name) e.(he_exception) false) y))).

Definition timeout_err (c : handlerCall) : string := "handler timeout: " +:+ c.(hc_name).

(** The handler missed its deadline. *)
Definition caller_deadline (c : handlerCall) (hs : list Binding) (y : Sys) : Sys :=
  handle_negotiation true false hs
    (set_deadline (set_queue_errs [timeout_err c] (go_handlerLoop y))).

(** From the loop's head, where [disposing] is tested, to the call. *)
Definition next_binding (hs : list Binding) (handlerCalled : bool) (y : Sys) : Sys :=
  if y.(y_env).(n_disposing) then set_caller (CDone Executed handlerCalled) y
  else
    match hs with
    | [] => set_caller (CDone Executed handlerCalled) y
    | h :: hs =>
        let name := y.(y_event).(he_Name) in
        if negb (HasPrefix name h.(hb_StatePrefix)) then set_caller (CNext hs handlerCalled) y
        else
          let methodName := TrimPrefix name h.(hb_StatePrefix) in
          match h.(hb_method) methodName with
          | None => set_caller (CNext hs handlerCalled) y
          | Some body =>
              set_next (S y.(y_next)) (set_caller (CReady (mkCall y.(y_next) body methodName) hs) y)
          end
    end.

(** What the caller does without another goroutine. *)
Definition caller_step (y : Sys) : option Sys :=
  match y.(y_caller) with
  | CNext hs called => Some (next_binding hs called y)
  | CReady c hs => Some (set_caller (CSend c hs) y)
  | CSend c hs =>
      if y.(y_env).(n_startClosed) then Some (crash "send on closed channel" y) else None
  | CWait c hs => if y.(y_env).(n_endClosed) then Some (handle_negotiation false false hs y) else None
  | CLate c hs => if y.(y_env).(n_endClosed) then Some (handle_negotiation true false hs y) else None
  | CRecover err hs => Some (recoverToErr_step err hs y)
  | CIdle | CDone _ _ => None
  end.

(** *** The handler loop *)

(** A goroutine that ends its select: in the order of [handlerLoop]. *)
Definition loop_step (g : nat) (y : Sys) : option Sys :=
  l ← y.(y_loops) !! g;
  match l with
  | LStart =>
      let ver := int32 (y.(y_handlerLoopVer) + 1) in
      Some (set_ver ver (set_goroutine g (LWait ver false) y))
  | LWait ver grace =>
      if y.(y_env).(n_startClosed) then Some (set_goroutine g LExit y) else None
  | LExec ver grace c =>
      if y.(y_event).(he_IsValid)
      then
        match Exec c with
        | inl ret => Some (set_goroutine g (LCheck ver grace c ret) y)
        | inr err =>
            if PanicToException then Some (set_goroutine g (LCatch err c) y) else Some (crash err y)
        end
      else Some (set_goroutine g (LCheck ver grace c false) y)
  | LCheck ver grace c ret =>
      Some (set_goroutine g
              (if bool_decide (y.(y_handlerLoopVer) = ver) then LLock ver grace c ret else LReport c) y)
  | LLock ver grace c ret =>
      if y.(y_loopLock) then None else Some (set_lock true (set_goroutine g (LSend ver grace c ret) y))
  | LSend ver grace c ret =>
      if y.(y_env).(n_endClosed)
      then if PanicToException then Some (set_goroutine g (LCatch "send on closed channel" c) y)
           else Some (crash "send on closed channel" y)
      else None
  | LCatch err c =>
      Some (set_goroutine g (if y.(y_env).(n_disposing) then LExit else LRaise err c) y)
  | LRaise err c => Some (set_goroutine g (LPanic err c) y)
  | LPanic err c =>
      if y.(y_env).(n_panicClosed) then Some (crash "send on closed channel" y) else None
  | LReport c =>
      Some (set_queue_errs
              (y.(y_traces).(r_queue) ++ ["deadlined handler finished, theoretical leak: " +:+ c.(hc_name)])
              (set_goroutine g LExit y))
  | LExit => None
  end.

(** The case of [m.ctx.Done()]; [handlerLoopDone] calls [Dispose]. *)
Definition loop_ctx (g : nat) (y : Sys) : option Sys :=
  if negb y.(y_env).(n_ctx) then None
  else
    l ← y.(y_loops) !! g;
    match l with
    | LSend _ _ _ _ => Some (set_lock false (set_env (env_ask y.(y_env)) (set_goroutine g LExit y)))
    | LWait _ true => Some (set_env (env_ask y.(y_env)) (set_goroutine g LExit y))
    | _ => None
    end.

(** The case of [m.ctxParent.Done()]: from the first loop to the second. *)
Definition loop_parent (g : nat) (y : Sys) : option Sys :=
  if negb y.(y_env).(n_ctxParent) then None
  else
    l ← y.(y_loops) !! g;
    match l with
    | LWait ver false => Some (set_env (env_ask y.(y_env)) (set_goroutine g (LWait ver true) y))
    | _ => None
    end.

(** The end of the grace period cancels the machine's context. *)
Definition loop_graceful (g : nat) (y : Sys) : option Sys :=
  l ← y.(y_loops) !! g;
  match l with
  | LWait _ true => Some (set_env (env_cancel (env_ask y.(y_env))) (set_goroutine g LExit y))
  | _ => None
  end.

(** *** Both *)

Definition send_call (g : nat) (y : Sys) : option Sys :=
  l ← y.(y_loops) !! g;
  match y.(y_caller), l with
  | CSend c hs, LWait ver grace =>
      if y.(y_env).(n_startClosed) then None
      else Some (set_caller (CWait c hs) (set_goroutine g (LExec ver grace c) y))
  | _, _ => None
  end.

(** The caller receives from [handlerEnd]: the result, or, late, only that
    there is one. *)
Definition receive_end (g : nat) (y : Sys) : option Sys :=
  l ← y.(y_loops) !! g;
  match l with
  | LSend ver grace _ ret =>
      let y' := set_lock false (set_goroutine g (LWait ver grace) y) in
      if y.(y_env).(n_endClosed) then None
      else
        match y.(y_caller) with
        | CWait _ hs => Some (handle_negotiation false ret hs y')
        | CLate _ hs => Some (handle_negotiation true false hs y')
        | _ => None
        end
  | _ => None
  end.

Definition receive_panic (g : nat) (y : Sys) : option Sys :=
  l ← y.(y_loops) !! g;
  match l, y.(y_caller) with
  | LPanic err _, CWait _ hs =>
      if y.(y_env).(n_panicClosed) then None
      else Some (set_caller (CRecover err hs) (set_goroutine g LExit y))
  | _, _ => None
  end.

(** A closed [handlerPanic] gives the empty [recoveryData]. *)
Definition receive_closed_panic (y : Sys) : option Sys :=
  match y.(y_caller) with
  | CWait _ hs => if y.(y_env).(n_panicClosed) then Some (set_caller (CRecover "%!s(<nil>)" hs) y) else None
  | _ => None
  end.

(** [<-m.ctx.Done()]: before the send, the select for the result follows. *)
Definition caller_ctx (y : Sys) : option Sys :=
  if negb y.(y_env).(n_ctx) then None
  else
    match y.(y_caller) with
    | CSend c hs => Some (set_caller (CWait c hs) y)
    | CWait _ hs => Some (handle_negotiation false false hs y)
    | _ => None
    end.

Definition caller_timeout (y : Sys) : option Sys :=
  match y.(y_caller) with
  | CWait c hs => Some (set_caller (CLate c hs) (send_errInternal (timeout_err c) y))
  | _ => None
  end.

Definition caller_late (y : Sys) : option Sys :=
  match y.(y_caller) with
  | CLate c hs => Some (caller_deadline c hs y)
  | _ => None
  end.

(** *** The rest of the machine *)

(** The next call of [processHandlers]. *)
Definition processHandlers_begin (e : HandlerEvent) (hs : list Binding) (y : Sys) : option Sys :=
  match y.(y_caller) with
  | CIdle | CDone _ _ =>
      let y := set_caught false (set_event e y) in
      Some (set_caller (if y.(y_env).(n_disposing) then CDone Canceled false else CNext hs false) y)
  | _ => None
  end.

Definition is_panicking (l : Loop) : bool := match l with LPanic _ _ => true | _ => false end.

(** [closeSafe] receives from a sender that waits instead of closing. *)
Definition closeSafe_end (y : Sys) : option Sys :=
  if y.(y_loopLock) then None
  else
    let n := y.(y_env) in
    Some (set_lock true (set_env (env_closed 1 true n.(n_panicClosed) n.(n_startClosed) n) y)).

Definition closeSafe_panic (g : nat) (y : Sys) : option Sys :=
  let n := y.(y_env) in
  let close p := set_env (env_closed 2 n.(n_endClosed) p n.(n_startClosed) n) in
  match y.(y_loops) !! g with
  | Some (LPanic _ _) => Some (close false (set_goroutine g LExit y))
  | _ => if existsb is_panicking y.(y_loops) then None else Some (close true y)
  end.

Definition closeSafe_start (y : Sys) : option Sys :=
  let n := y.(y_env) in
  let close s y := set_lock false (set_env (env_closed 3 n.(n_endClosed) n.(n_panicClosed) s n) y) in
  match y.(y_caller) with
  | CSend c hs => Some (close false (set_caller (CWait c hs) y))
  | _ => Some (close true y)
  end.

(** The goroutine [doDispose] starts; [g]: a sender, if there is a choice. *)
Definition dispose_loop (g : nat) (y : Sys) : option Sys :=
  if negb y.(y_env).(n_disposing) then None
  else
    match y.(y_env).(n_closing) with
    | 0%nat => closeSafe_end y
    | 1%nat => closeSafe_panic g y
    | 2%nat => closeSafe_start y
    | _ => None
    end.

(** What [doDispose] does beside that goroutine. *)
Definition close_errInternal (y : Sys) : option Sys :=
  if negb y.(y_env).(n_disposing) || y.(y_env).(n_errClosed) then None
  else Some (set_env (env_err_closed y.(y_env)) y).

(** ** Runs *)

(** Who takes the next step. *)
Inductive Act :=
| ACaller | ACtx | ATimeout | ADeadline | APanicClosed
| ASend (g : nat) | AEnd (g : nat) | APanic (g : nat)
| ALoop (g : nat) | ALoopCtx (g : nat) | ALoopParent (g : nat) | ALoopGraceful (g : nat)
| AEvent (e : HandlerEvent) (hs : list Binding)
| AParent | ACancel | ADispose | AClose (g : nat) | ACloseErr.

Definition act (a : Act) (y : Sys) : option Sys :=
  match a with
  | ACaller => caller_step y
  | ACtx => caller_ctx y
  | ATimeout => caller_timeout y
  | ADeadline => caller_late y
  | APanicClosed => receive_closed_panic y
  | ASend g => send_call g y
  | AEnd g => receive_end g y
  | APanic g => receive_panic g y
  | ALoop g => loop_step g y
  | ALoopCtx g => loop_ctx g y
  | ALoopParent g => loop_parent g y
  | ALoopGraceful g => loop_graceful g y
  | AEvent e hs => processHandlers_begin e hs y
  | AParent => Some (set_env (env_parent y.(y_env)) y)
  | ACancel => Some (set_env (env_cancel y.(y_env)) y)
  | ADispose => Some (set_env (env_dispose y.(y_env)) y)
  | AClose g => dispose_loop g y
  | ACloseErr => close_errInternal y
  end.

(** A crashed process takes no step. *)
Definition step (a : Act) (y : Sys) : option Sys :=
  match y.(y_crashed) with Some _ => None | None => act a y end.

Fixpoint steps (acts : list Act) (y : Sys) : option Sys :=
  match acts with
  | [] => Some y
  | a :: acts => step a y ≫= steps acts
  end.

Definition reachable (y0 y : Sys) : Prop := ∃ acts, steps acts y0 = Some y.

(** The steps a handler call consists of, timers included. *)
Definition protocol (a : Act) : bool :=
  match a with AEvent _ _ | AParent | ACancel | ADispose | AClose _ | ACloseErr => false | _ => true end.

(** A machine with its first binding: [bindHandlers] starts the loop. *)
Definition newSys : Sys :=
  mkSys CIdle (mkHEvent "" false false) [LStart] 0 false
    (mkEnv false false false false 0 false false false false) (mkTraces [] [] false false) 0 None.

(** No deadline missed, the machine neither disposing nor its context ended. *)
Definition quiet (y : Sys) : bool :=
  negb y.(y_env).(n_ctx) && negb y.(y_env).(n_disposing) && negb y.(y_traces).(r_LastHandlerDeadline).

(** The call a goroutine is busy with. *)
Definition owner (l : Loop) : option handlerCall :=
  match l with
  | LExec _ _ c | LCheck _ _ c _ | LLock _ _ c _ | LSend _ _ c _ | LCatch _ c | LRaise _ c | LPanic _ c
  | LReport c => Some c
  | LStart | LWait _ _ | LExit => None
  end.

Definition alive (l : Loop) : bool := match l with LExit => false | _ => true end.

(** The call whose result the caller waits for. *)
Definition waits_for (k : Caller) : option handlerCall :=
  match k with CWait c _ | CLate c _ => Some c | _ => None end.
End protocol.

(** ** One loop at a time *)

(** No goroutine is left; exactly one is, and it is such. *)
Definition none (ls : list Loop) : Prop := ∀ g l, ls !! g = Some l → l = LExit.
Definition alone (P : Loop → Prop) (ls : list Loop) : Prop :=
  ∃ g l, ls !! g = Some l ∧ P l ∧ ∀ g' l', ls !! g' = Some l' → g' ≠ g → l' = LExit.

(** Ready for a call; busy with [c]. *)
Definition ready (v : Z) (l : Loop) : Prop :=
  match l with LStart => True | LWait v' _ => v' = v | _ => False end.
Definition busy (v : Z) (c : handlerCall) (l : Loop) : Prop :=
  match l with
  | LExec v' _ c' | LCheck v' _ c' _ | LLock v' _ c' _ | LSend v' _ c' _ => v' = v ∧ c' = c
  | LCatch _ c' | LRaise _ c' | LPanic _ c' => c' = c
  | _ => False
  end.

Lemma none_spawn v ls : none ls → alone (ready v) (ls ++ [LStart]).
Proof.
  intros Hn. exists (length ls), LStart. split_and!; [by rewrite list_lookup_middle|done|].
  intros g l Hl Hne. apply lookup_app_Some in Hl as [Hl|[Hle Hl]]; [by eapply Hn|].
  apply list_lookup_singleton_Some in Hl as [? _]. lia.
Qed.

(** A goroutine that has not returned is the only one. *)
Lemma alone_at P ls g l :
  alone P ls → ls !! g = Some l → l ≠ LExit →
  P l ∧ (∀ (Q : Loop → Prop) l', Q l' → alone Q (<[g := l']> ls)) ∧ none (<[g := LExit]> ls).
Proof.
  intros (g0 & l0 & H0 & HP & Hall) Hl Hne.
  assert (g0 = g) as <- by (destruct (decide (g = g0)); [done|]; by destruct Hne; eapply Hall).
  rewrite Hl in H0. injection H0 as <-. pose proof (lookup_lt_Some _ _ _ Hl).
  split_and!; [done| |].
  - intros Q l' HQ. exists g0, l'. rewrite list_lookup_insert_eq by done. split_and!; [done..|].
    intros g' l'' Hl' ?. rewrite list_lookup_insert_ne in Hl' by done. by eapply Hall.
  - intros g' l'' Hl'. destruct (decide (g' = g0)) as [->|].
    + rewrite list_lookup_insert_eq in Hl' by done. by injection Hl' as <-.
    + rewrite list_lookup_insert_ne in Hl' by done. by eapply Hall.
Qed.

Lemma alone_not_none P ls : alone P ls → (∀ l, P l → l ≠ LExit) → ¬ none ls.
Proof. intros (g & l & Hl & HP & _) Hne Hn. by eapply Hne, Hn. Qed.

Section protocol_facts.
Context (Exec : handlerCall → bool + string) (PanicToException : bool).
Abbreviation step := (step Exec PanicToException).
Abbreviation steps := (steps Exec PanicToException).

(** The channels close only while disposing. *)
Definition open_unless (n : Env) : Prop :=
  n.(n_disposing) = false →
  n.(n_closing) = 0%nat ∧ n.(n_endClosed) = false ∧ n.(n_panicClosed) = false
  ∧ n.(n_startClosed) = false ∧ n.(n_errClosed) = false.

(** Between calls a loop is ready, or none is left (a panic in a handler of
    [Exception] ends it); during a call the loop has this call. *)
Definition loops_ok (k : Caller) (v : Z) (ls : list Loop) : Prop :=
  match k with
  | CIdle | CNext _ _ | CReady _ _ | CSend _ _ | CDone _ _ => none ls ∨ alone (ready v) ls
  | CWait c _ | CLate c _ => alone (busy v c) ls
  | CRecover _ _ => none ls
  end.

Definition inv (y : Sys) : Prop :=
  open_unless y.(y_env) ∧ (quiet y = true → loops_ok y.(y_caller) y.(y_handlerLoopVer) y.(y_loops)).

(** A step of a system taken apart, one goal a case. *)
Ltac step_cases y H :=
  destruct y as [k [nm ex vd] ls v lk [cp cx dsp ask cl ec pc sc rc] [ei q ld pn] nx cr];
  unfold HandlerLoop.step in H; cbn in H; destruct cr; [done|];
  match type of H with act _ _ ?a _ = _ => destruct a end;
  cbn in H;
  unfold caller_step, caller_ctx, caller_timeout, caller_late, receive_closed_panic, send_call,
    receive_end, receive_panic, loop_step, loop_ctx, loop_parent, loop_graceful,
    processHandlers_begin, dispose_loop, close_errInternal, closeSafe_end, closeSafe_panic, closeSafe_start,
    next_binding, recoverToErr_step, caller_deadline, handle_negotiation, send_errInternal,
    mbind, option_bind in H;
  cbn in H;
  repeat (match type of H with context [match ?x with _ => _ end] => destruct x eqn:? end; cbn in H);
  try discriminate H; injection H as <-.

Lemma quiet_back a y y' : step a y = Some y' → quiet y' = true → quiet y = true.
Proof.
  intros Ha. step_cases y Ha.
  all: unfold quiet; cbn; try done.
  all: destruct cx, dsp, ld; cbn; done.
Qed.
Lemma open_step a y y' : step a y = Some y' → open_unless y.(y_env) → open_unless y'.(y_env).
Proof. intros Ha. step_cases y Ha; unfold open_unless; cbn; naive_solver. Qed.

(** A goroutine that moves alone. *)
Lemma loops_move k v v' ls g l l' :
  loops_ok k v ls → ls !! g = Some l → l ≠ LExit →
  (ready v l → ready v' l') → (∀ c, busy v c l → busy v' c l') → loops_ok k v' (<[g := l']> ls).
Proof.
  intros Hk Hl Hne Hr Hb.
  assert (∀ P Q : Loop → Prop, alone P ls → (P l → Q l') → alone Q (<[g := l']> ls)) as Hm.
  { intros P Q HP HQ. destruct (alone_at P ls g l HP Hl Hne) as (H & Hi & _). by apply Hi, HQ. }
  destruct k; cbn in *; try (by eapply Hm, Hb); try (destruct Hk as [Hk|Hk]; [|by right; eapply Hm, Hr]);
    by destruct Hne; eapply Hk.
Qed.

Lemma loops_step a y y' :
  step a y = Some y' → quiet y' = true → inv y → loops_ok y'.(y_caller) y'.(y_handlerLoopVer) y'.(y_loops).
Proof.
  intros Ha Hq [Ho Hl]. specialize (Hl (quiet_back _ _ _ Ha Hq)). step_cases y Ha.
  all: unfold quiet, open_unless in *; cbn in *; destruct cx, dsp, ld; try discriminate Hq.
  all: destruct Ho as (? & ? & ? & ? & ?); [done|]; subst; try done; try by left.
  all: try match goal with H : bool_decide _ = false |- _ => apply bool_decide_eq_false in H end.
  all: try (eapply loops_move; [exact Hl|eassumption|done|cbn; naive_solver..]).
  1-2: by right; apply none_spawn.
  all: match goal with H : ?ls !! ?g = Some ?l |- _ =>
    try (destruct Hl as [Hl|Hl]; [by specialize (Hl _ _ H)|]);
    destruct (alone_at _ ls g l Hl H) as (Hc & Hi & Hn); [done|] end.
  1: by apply Hi.
  1-3: right; apply Hi, Hc.
  done.
Qed.

Lemma loop_inv_step a y y' : step a y = Some y' → inv y → inv y'.
Proof.
  intros Ha Hi. split; [by eapply open_step; [|apply Hi]|]. intros Hq. by eapply loops_step.
Qed.

Lemma loop_inv_steps acts y y' : steps acts y = Some y' → inv y → inv y'.
Proof.
  revert y. induction acts as [|a acts IH]; intros y; cbn; [by intros [= ->]|].
  intros (y1 & Ha & Hs)%bind_Some Hi. by eapply IH, loop_inv_step.
Qed.

Lemma inv_newSys : inv newSys.
Proof. split; [done|]. intros _. right. by apply (none_spawn 0 []). Qed.

Lemma reached_loops acts y :
  steps acts newSys = Some y → quiet y = true → loops_ok y.(y_caller) y.(y_handlerLoopVer) y.(y_loops).
Proof. intros Hs Hq. by apply (loop_inv_steps _ _ _ Hs inv_newSys). Qed.

Lemma none_alive ls : none ls → filter (λ l, alive l = true) ls = [].
Proof.
  induction ls as [|l ls IH]; [done|]. intros Hn. rewrite (Hn 0%nat l eq_refl).
  rewrite filter_cons_False by done. apply IH. intros g l' Hl. by apply (Hn (S g)).
Qed.

Lemma alone_alive P ls : alone P ls → (length (filter (λ l, alive l = true) ls) ≤ 1)%nat.
Proof.
  intros (g & l & Hl & _ & Hall). rewrite <- (take_drop_middle ls g l Hl), filter_app, filter_cons.
  assert (Ht : none (take g ls)).
  { intros i l' Hi. apply lookup_take_Some in Hi as [Hi ?]. eapply Hall; [exact Hi|lia]. }
  assert (Hd : none (drop (S g) ls)).
  { intros i l' Hi. rewrite lookup_drop in Hi. eapply Hall; [exact Hi|lia]. }
  rewrite (none_alive _ Ht), (none_alive _ Hd). destruct (decide _); cbn; lia.
Qed.

(** C8: While no deadline was missed and the machine is not disposed, at most one
    handler loop is alive, and whichever goroutine is busy with a call, its
    caller waits for this call: no result or panic is mixed up. *)
Theorem results_own acts y :
  steps acts newSys = Some y → quiet y = true →
  (length (filter (λ l, alive l = true) y.(y_loops)) ≤ 1)%nat
  ∧ (∀ g l c, y.(y_loops) !! g = Some l → owner l = Some c → waits_for y.(y_caller) = Some c).
Proof.
  intros Hs Hq. pose proof (reached_loops _ _ Hs Hq) as Hl.
  assert (none y.(y_loops) ∨ ∃ P, alone P y.(y_loops) ∧
    ∀ l c, P l → owner l = Some c → waits_for y.(y_caller) = Some c) as [Hn|(P & HP & Ho)].
  { destruct y.(y_caller); cbn in *; try (destruct Hl as [|Hl]; [by left|]); try (by left).
    all: right; eexists; split; [exact Hl|]; intros [] ?; cbn; naive_solver. }
  - rewrite none_alive by done. split; [cbn; lia|]. intros g l c Hg. by rewrite (Hn _ _ Hg).
  - split; [by eapply alone_alive|]. intros g l c Hg Hc.
    destruct (alone_at P _ g l HP Hg) as [HPl _]; [by intros ->|]. by eapply Ho.
Qed.

(** ** Calls end *)

(** The steps a goroutine can take before its next call; those of a caller,
    with those it causes in a loop. *)
Definition rank (l : Loop) : nat :=
  match l with
  | LExec _ _ _ => 7 | LCheck _ _ _ _ => 6 | LLock _ _ _ _ => 5 | LSend _ _ _ _ => 4 | LStart => 3
  | LCatch _ _ => 3 | LWait _ false => 2 | LRaise _ _ => 2 | LWait _ true => 1 | LPanic _ _ => 1 | LReport _ => 1
  | LExit => 0
  end.
Definition caller_rank (k : Caller) : nat :=
  match k with
  | CIdle | CDone _ _ => 0
  | CNext hs _ => 15 * length hs + 1
  | CRecover _ hs => 15 * length hs + 5
  | CLate _ hs => 15 * length hs + 6
  | CWait _ hs => 15 * length hs + 7
  | CSend _ hs => 15 * length hs + 14
  | CReady _ hs => 15 * length hs + 15
  end.
Definition measure (y : Sys) : nat :=
  match y.(y_crashed) with
  | Some _ => 0
  | None => S (caller_rank y.(y_caller) + sum_list (rank <$> y.(y_loops)))
  end.

Lemma sum_insert ls g l l' :
  ls !! g = Some l →
  (sum_list (rank <$> <[g := l']> ls) + rank l = sum_list (rank <$> ls) + rank l')%nat.
Proof.
  intros Hl. rewrite <- (take_drop_middle ls g l Hl) at 2. pose proof (lookup_lt_Some _ _ _ Hl).
  rewrite insert_take_drop, !fmap_app, !fmap_cons by done. rewrite !sum_list_with_app.
  cbn. lia.
Qed.

Lemma measure_step a y y' :
  protocol a = true → step a y = Some y' → (measure y' < measure y)%nat.
Proof.
  intros Hp Ha. step_cases y Ha; cbn in *; try discriminate Hp.
  all: unfold measure; cbn; try lia.
  all: rewrite ?fmap_app, ?sum_list_with_app; cbn; try lia.
  all: match goal with H : ?ls !! ?g = Some ?l |- context [<[?g := ?l']> ?ls] =>
    pose proof (sum_insert ls g l l' H) as Hs end.
  all: cbn in Hs; repeat match type of Hs with context [if ?b then _ else _] => destruct b end; lia.
Qed.

Lemma measure_steps acts y y' :
  forallb protocol acts = true → steps acts y = Some y' → (length acts + measure y' ≤ measure y)%nat.
Proof.
  revert y. induction acts as [|a acts IH]; intros y; cbn; [intros _ [= ->]; lia|].
  intros [Ha Hacts]%andb_prop (y1 & Hs & Hr)%bind_Some. pose proof (measure_step _ _ _ Ha Hs).
  pose proof (IH _ Hacts Hr). lia.
Qed.

(** No goroutine can go on, timers and the ends of selects included. *)
Definition stuck (y : Sys) : Prop := ∀ a, protocol a = true → step a y = None.

Definition returned (k : Caller) : bool := match k with CIdle | CDone _ _ => true | _ => false end.

(** A handler of [Exception] panicked: [recoverToErr] returned early. *)
Definition exception_panicked (y : Sys) : Prop :=
  y.(y_event).(he_exception) = true ∧ y.(y_traces).(r_panicCaught) = true.

(** What keeps a caller going. *)
Definition served (y : Sys) : Prop :=
  exception_panicked y ∨ ¬ none y.(y_loops) ∨ ∃ err hs, y.(y_caller) = CRecover err hs.
Definition live (y : Sys) : Prop :=
  y.(y_crashed) ≠ None ∨ y.(y_env).(n_ctx) = true ∨ returned y.(y_caller) = true
  ∨ quiet y = true ∧ inv y ∧ served y.

Lemma insert_not_none ls g l l' : ls !! g = Some l → l' ≠ LExit → ¬ none (<[g := l']> ls).
Proof.
  intros Hl Hne Hn. apply Hne, (Hn g). apply list_lookup_insert_eq. by eapply lookup_lt_Some.
Qed.

Lemma spawn_not_none ls : ¬ none (ls ++ [LStart]).
Proof. intros Hn. specialize (Hn (length ls) LStart). rewrite list_lookup_middle in Hn by done. discriminate (Hn eq_refl). Qed.

Lemma idle_report k v ls g c : loops_ok k v ls → ls !! g = Some (LReport c) → False.
Proof.
  intros Hk Hg. destruct k; cbn in Hk; try (destruct Hk as [Hk|Hk]);
    first [by specialize (Hk _ _ Hg)|by destruct (alone_at _ _ _ _ Hk Hg) as [? _]].
Qed.

Lemma ctx_step a y y' : step a y = Some y' → y.(y_env).(n_ctx) = true → y'.(y_env).(n_ctx) = true.
Proof. intros Ha Hc. by step_cases y Ha. Qed.

Lemma served_step a y y' :
  protocol a = true → step a y = Some y' → quiet y = true → inv y → served y →
  y'.(y_crashed) ≠ None ∨ y'.(y_env).(n_ctx) = true ∨ returned y'.(y_caller) = true
  ∨ quiet y' = true ∧ served y'.
Proof.
  intros Hp Ha Hq [Ho Hl] Hs. specialize (Hl Hq). step_cases y Ha; cbn in *; try discriminate Hp.
  all: unfold quiet, open_unless in *; cbn in *; destruct cx, dsp, ld; try discriminate Hq.
  all: destruct Ho as (? & ? & ? & ? & ?); [done|]; subst; try done; cbn.
  all: try (by left); try (by right; left); try (by right; right; left).
  all: right; right; right.
  all: split; [done|].
  all: unfold served, exception_panicked in *; cbn in *.
  all: try (by eauto).
  all: try (right; left; first [by eapply insert_not_none; [eassumption|]|apply spawn_not_none]).
  all: try (destruct Hs as [?|[?|(? & ? & ?)]]; [by left|by right; left|done]).
  exfalso. eapply (idle_report k); eassumption.
Qed.

Lemma live_step a y y' : protocol a = true → step a y = Some y' → live y → live y'.
Proof.
  intros Hp Ha Hl. destruct Hl as [Hc|[Hc|[Hc|(Hq & Hi & Hs)]]].
  - unfold HandlerLoop.step in Ha. by destruct y.(y_crashed).
  - right; left. by eapply ctx_step.
  - step_cases y Ha; cbn in *; try discriminate Hp; try discriminate Hc; unfold live; cbn; auto.
  - destruct (served_step _ _ _ Hp Ha Hq Hi Hs) as [?|[?|[?|[Hq' Hs']]]]; [by left|by right; left| |].
    + by right; right; left.
    + right; right; right. split; [done|]. split; [by eapply loop_inv_step|done].
Qed.

Lemma live_steps acts y y' : forallb protocol acts = true → steps acts y = Some y' → live y → live y'.
Proof.
  revert y. induction acts as [|a acts IH]; intros y; cbn; [by intros _ [= ->]|].
  intros [Ha Hacts]%andb_prop (y1 & Hs & Hr)%bind_Some Hl. by eapply IH, live_step.
Qed.

(** A caller that can go on: all but one that no loop takes a call from. *)
Lemma live_stuck y :
  live y → stuck y →
  returned y.(y_caller) = true ∨ y.(y_crashed) ≠ None
  ∨ exception_panicked y ∧ none y.(y_loops) ∧ ∃ c hs, y.(y_caller) = CSend c hs.
Proof.
  intros Hl Hst. destruct (y.(y_crashed)) as [msg|] eqn:Hcr; [by right; left|].
  assert (Hno : ∀ a, protocol a = true → act Exec PanicToException a y = None).
  { intros a Hp. pose proof (Hst a Hp) as Hn. unfold HandlerLoop.step in Hn. by rewrite Hcr in Hn. }
  pose proof (Hno ACaller eq_refl) as H1. pose proof (Hno ACtx eq_refl) as H2.
  pose proof (Hno ATimeout eq_refl) as H3. pose proof (Hno ADeadline eq_refl) as H4.
  cbn in *. unfold caller_step, caller_ctx, caller_timeout, caller_late in *.
  destruct y.(y_caller) as [|hs b|c hs|c hs|c hs|c hs|err hs|r b] eqn:Hc; try discriminate; try by left.
  destruct Hl as [Hx|[Hx|[Hx|(Hq & Hi & Hs)]]]; [by rewrite Hcr in Hx|by rewrite Hx in H2|by rewrite Hc in Hx|].
  right; right. unfold served in Hs. rewrite Hc in Hs.
  destruct Hi as [Ho Hl]. specialize (Hl Hq). rewrite Hc in Hl. cbn in Hl.
  destruct Hl as [Hn|(g & l & Hg & Hr & _)].
  - split_and!; [|done|eauto]. by destruct Hs as [?|[?|(? & ? & ?)]].
  - exfalso. destruct l as [|v gr| | | | | | | | |]; try done.
    + pose proof (Hno (ALoop g) eq_refl) as H5. cbn in H5. unfold loop_step in H5. by rewrite Hg in H5.
    + pose proof (Hno (ASend g) eq_refl) as H5. cbn in H5. unfold send_call in H5. rewrite Hg, Hc in H5. cbn in H5.
      unfold quiet in Hq. apply andb_prop in Hq as [[_ Hd]%andb_prop _]. apply negb_true_iff in Hd.
      destruct (Ho Hd) as (_ & _ & _ & Hst' & _). by rewrite Hst' in H5.
Qed.


(** ** The one-step model *)

Section refinement.
Context (answer : (gmap string Val → prog) → bool).
Hypothesis Exec_answer : ∀ c, Exec c = inl (answer c.(hc_fn)).
Context (name : string).

(** The bindings asked one after the other. *)
Fixpoint answers (hs : list Binding) (handlerCalled : bool) : Z * bool :=
  match hs with
  | [] => (Executed, handlerCalled)
  | h :: hs =>
      if negb (HasPrefix name h.(hb_StatePrefix)) then answers hs handlerCalled
      else
        match h.(hb_method) (TrimPrefix name h.(hb_StatePrefix)) with
        | None => answers hs handlerCalled
        | Some body => if isFinalName name || answer body then answers hs true else (Canceled, true)
        end
  end.
Definition asked (c : handlerCall) (hs : list Binding) : Z * bool :=
  if isFinalName name || answer c.(hc_fn) then answers hs true else (Canceled, true).

(** What the caller is going to return. *)
Definition expected (k : Caller) : option (Z * bool) :=
  match k with
  | CNext hs b => Some (answers hs b)
  | CReady c hs | CSend c hs | CWait c hs => Some (asked c hs)
  | CDone r b => Some (r, b)
  | CIdle | CLate _ _ | CRecover _ _ => None
  end.
Definition agrees (l : Loop) : Prop :=
  match l with
  | LCheck _ _ c ret | LLock _ _ c ret | LSend _ _ c ret => ret = answer c.(hc_fn)
  | LCatch _ _ | LRaise _ _ | LPanic _ _ => False
  | LStart | LWait _ _ | LExec _ _ _ | LReport _ | LExit => True
  end.
Definition on_course (res : Z * bool) (y : Sys) : Prop :=
  y.(y_event).(he_Name) = name ∧ y.(y_event).(he_IsValid) = true ∧ Forall agrees y.(y_loops)
  ∧ expected y.(y_caller) = Some res.

Lemma errInternal_step a y y' :
  step a y = Some y' → y'.(y_traces).(r_errInternal) = [] → y.(y_traces).(r_errInternal) = [].
Proof. intros Ha. step_cases y Ha; cbn in *; try done. by intros []%app_nil. Qed.

Lemma quiet_steps acts y y' : steps acts y = Some y' → quiet y' = true → quiet y = true.
Proof.
  revert y. induction acts as [|a acts IH]; intros y; cbn; [by intros [= ->]|].
  intros (y1 & Hs & Hr)%bind_Some Hq. by eapply quiet_back, IH.
Qed.

Lemma errInternal_steps acts y y' :
  steps acts y = Some y' → y'.(y_traces).(r_errInternal) = [] → y.(y_traces).(r_errInternal) = [].
Proof.
  revert y. induction acts as [|a acts IH]; intros y; cbn; [by intros [= ->]|].
  intros (y1 & Hs & Hr)%bind_Some He. by eapply errInternal_step, IH.
Qed.

Lemma on_course_step a res y y' :
  protocol a = true → step a y = Some y' → inv y → quiet y' = true →
  y'.(y_traces).(r_errInternal) = [] → on_course res y → on_course res y'.
Proof.
  intros Hp Ha [Ho Hl] Hq He (Hn & Hv & Hag & Hx). pose proof (quiet_back _ _ _ Ha Hq) as Hq0.
  specialize (Hl Hq0). pose proof (errInternal_step _ _ _ Ha He) as He0.
  step_cases y Ha; cbn in *; try discriminate Hp.
  all: unfold quiet, open_unless in *; cbn in *; destruct cx, dsp, ld; try discriminate Hq.
  all: destruct Ho as (? & ? & ? & ? & ?); [done|]; subst; try done; cbn.
  all: unfold on_course; cbn; split_and!; try done.
  all: try match goal with H : ?ls !! _ = Some _ |- _ => pose proof (Forall_lookup_1 _ _ _ _ Hag H) as Hg; cbn in Hg end.
  all: try (apply Forall_insert; [done|]; cbn); try done.
  all: unfold asked in *; cbn in *; try by rewrite Hn in *.
  1-3: unfold HasPrefix in Hx; by rewrite ?Heqb0, ?Heqo in Hx.
  1-2: destruct (alone_at _ _ _ _ Hl Heqo) as ([_ ->] & _); [done|]; rewrite <- Hg in Hx; by rewrite Heqb0 in Hx.
  all: rewrite Exec_answer in Heqs; by simplify_eq Heqs.
Qed.

Lemma on_course_steps acts res y y' :
  forallb protocol acts = true → steps acts y = Some y' → inv y → quiet y' = true →
  y'.(y_traces).(r_errInternal) = [] → on_course res y → on_course res y'.
Proof.
  revert y. induction acts as [|a acts IH]; intros y; cbn; [by intros _ [= ->]|].
  intros [Ha Hacts]%andb_prop (y1 & Hs & Hr)%bind_Some Hi Hq He Hc.
  eapply IH; [done|exact Hr|by eapply loop_inv_step|done..|].
  eapply on_course_step; [done|exact Hs|done| | |done].
  - by eapply quiet_steps.
  - by eapply errInternal_steps.
Qed.

(** *** The machine's side *)

(** A machine in the middle of a transition that takes handler calls. *)
Definition handling (m : Machine) : Prop :=
  disposing m = false ∧ m.(m_flags).(f_loop) = true
  ∧ ∃ t, m.(m_t) = Some t ∧ t.(tx_IsAccepted) = true ∧ t.(tx_IsCompleted) = false.

(** A handler that gives its answer, and leaves the transition going. *)
Definition answers_as (args : gmap string Val) (body : gmap string Val → prog) : Prop :=
  ∀ m, handling m → ∃ m', run_prog (body args) m = Ok (REnd (answer body), m') ∧ handling m'.

Lemma processHandlers_loop_answers closed args hs b m :
  handling m →
  (∀ h body, h ∈ hs → h.(hb_method) (TrimPrefix name h.(hb_StatePrefix)) = Some body → answers_as args body) →
  ∃ m', processHandlers_loop closed name args hs b m = Ok (answers hs b, m').
Proof.
  revert b m. induction hs as [|h hs IH]; intros b m Hm Hb.
  { eexists. reflexivity. }
  cbn [processHandlers_loop answers]. rewrite run_get_bind. pose proof Hm as (Hd & Hf & t & Ht & Ha & Hc).
  rewrite Hd. destruct (negb _); [apply IH; [done|set_solver]|].
  destruct (hb_method h _) as [body|] eqn:Hbody; [|apply IH; [done|set_solver]].
  destruct (Hb h body) with (m := m) as (m' & Hr & Hm'); [set_solver|done|done|].
  assert (callHandler name args body m = Ok (if isFinalName name || answer body then None else Some Canceled, m'))
    as Hcall.
  { unfold callHandler. rewrite run_get_bind, Hf. cbn [negb]. rewrite (run_get_t_bind _ m t) by done.
    rewrite Ha, Hc. cbn [negb andb]. by rewrite (run_ok_bind _ _ _ _ _ Hr). }
  rewrite (run_ok_bind _ _ _ _ _ Hcall). destruct (isFinalName name || answer body); [|by eexists].
  apply IH; [done|set_solver].
Qed.
End refinement.

(** C7: Handlers called through the handler loop, in any interleaving, give the
    result of the one-step model, as long as each handler ends with an answer that
    is a function of its code - none panics - no timeout was reached and the
    machine is not disposed. *)
Theorem processHandlers_refines acts0 acts e hs y0 y y' r called answer closed args m :
  (∀ c, Exec c = inl (answer c.(hc_fn))) →
  steps acts0 newSys = Some y0 → step (AEvent e hs) y0 = Some y → e.(he_IsValid) = true →
  forallb protocol acts = true → steps acts y = Some y' → quiet y' = true →
  y'.(y_traces).(r_errInternal) = [] → y'.(y_caller) = CDone r called →
  handling m →
  (∀ h body, h ∈ hs → h.(hb_method) (TrimPrefix e.(he_Name) h.(hb_StatePrefix)) = Some body →
     answers_as answer args body) →
  ∃ m', processHandlers closed hs e.(he_Name) args m = Ok ((r, called), m').
Proof.
  intros HE H0 Ha Hv Hp Hs Hq He Hc Hm Hb.
  assert (inv y) as Hi by (eapply loop_inv_step; [exact Ha|]; by eapply loop_inv_steps, inv_newSys).
  assert (on_course answer e.(he_Name) (answers answer e.(he_Name) hs false) y) as Hon.
  { pose proof (quiet_steps _ _ _ Hs Hq) as Hq1. pose proof (quiet_back _ _ _ Ha Hq1) as Hq0.
    pose proof (reached_loops _ _ H0 Hq0) as Hl. revert Ha Hl Hq1.
    unfold HandlerLoop.step, processHandlers_begin. destruct (y_crashed y0); [done|]. cbn.
    unfold processHandlers_begin. destruct (y_caller y0); try done.
    all: intros [= <-] Hl; unfold quiet; cbn.
    all: destruct (n_disposing _); cbn; [by rewrite andb_false_r|]; intros _.
    all: split_and!; [done..| |done]; apply Forall_lookup_2; intros g l Hg; cbn in Hl, Hg.
    all: destruct Hl as [Hn|(g0 & l0 & Hg0 & Hr & Hall)]; [by rewrite (Hn _ _ Hg)|].
    all: destruct (decide (g = g0)) as [->|Hne]; [|by rewrite (Hall _ _ Hg Hne)].
    all: rewrite Hg in Hg0; injection Hg0 as ->; by destruct l0. }
  destruct (on_course_steps answer HE _ _ _ _ _ Hp Hs Hi Hq He Hon) as (_ & _ & _ & Hx).
  rewrite Hc in Hx. cbn in Hx. injection Hx as Hx.
  unfold processHandlers. rewrite run_get_bind. pose proof Hm as [-> _]. rewrite Hx.
  by apply processHandlers_loop_answers.
Qed.

(** ** The channels at the machine's end *)

(** A loop past the test of [disposing] in [catch]. *)
Definition is_raising (l : Loop) : bool := match l with LRaise _ _ => true | _ => false end.
Definition is_ready (k : Caller) : bool := match k with CReady _ _ => true | _ => false end.

(** The three races of the disposal: a handler's time is up after [errInternal]
    was closed; [handlerPanic] or [handlerStart] is closed between the test of
    [disposing] and the send of a goroutine. *)
Definition race (a : Act) (y : Sys) : bool :=
  match a with
  | ATimeout => y.(y_env).(n_errClosed)
  | AClose _ =>
      y.(y_env).(n_disposing)
      && match y.(y_env).(n_closing) with
         | 1%nat => existsb is_raising y.(y_loops)
         | 2%nat => is_ready y.(y_caller)
         | _ => false
         end
  | _ => false
  end.
Fixpoint races (acts : list Act) (y : Sys) : bool :=
  match acts with
  | [] => false
  | a :: acts => race a y || match step a y with Some y' => races acts y' | None => false end
  end.

(** Nobody sends to a channel that is closed, or is about to. *)
Definition sends_start (k : Caller) : bool := match k with CReady _ _ | CSend _ _ => true | _ => false end.
Definition sends_panic (l : Loop) : bool := is_raising l || is_panicking l.
Definition senders_ok (y : Sys) : Prop :=
  y.(y_crashed) = None
  ∧ (y.(y_env).(n_startClosed) = true → sends_start y.(y_caller) = false)
  ∧ (y.(y_env).(n_panicClosed) = true → Forall (λ l, sends_panic l = false) y.(y_loops)).

Lemma no_senders ls : existsb is_raising ls = false → existsb is_panicking ls = false → Forall (λ l, sends_panic l = false) ls.
Proof.
  induction ls as [|l ls IH]; [done|]. cbn. intros [H1 ?]%orb_false_iff [H2 ?]%orb_false_iff.
  constructor; [|auto]. unfold sends_panic. by rewrite H1, H2.
Qed.

Lemma senders_step a y y' :
  PanicToException = true → step a y = Some y' → open_unless y.(y_env) → race a y = false → senders_ok y → senders_ok y'.
Proof.
  intros HP Ha Ho Hr (_ & Hs & Hp). step_cases y Ha; unfold senders_ok, open_unless in *; cbn in *.
  all: split_and!; try done; subst; try (by eauto); intros.
  all: try (by specialize (Hs eq_refl)).
  all: try (destruct Ho as (? & ? & ? & ? & ?); [done|]; congruence).
  all: try (by apply no_senders).
  all: try match goal with H : ?ls !! _ = Some _ |- _ =>
    pose proof (Forall_lookup_1 _ _ _ _ (Hp ltac:(assumption)) H) as Hg; try done end.
  all: try (by apply Forall_insert; auto).
  all: try (by apply Forall_app; auto).
  all: try (destruct dsp; [|discriminate]; first [by apply no_senders|discriminate Hr]).
  all: by specialize (Hp eq_refl); match goal with H : ?ls !! _ = Some _ |- _ => apply (Forall_lookup_1 _ _ _ _ Hp) in H end.
Qed.

(** What a process that ends says, and when. *)
Lemma crash_step a y y' msg :
  PanicToException = true → step a y = Some y' → open_unless y.(y_env) → y'.(y_crashed) = Some msg →
  msg = "send on closed channel" ∧ y'.(y_env).(n_disposing) = true.
Proof.
  intros HP Ha Ho. step_cases y Ha; unfold open_unless in *; cbn in *; try done; subst; try done; intros [= <-].
  all: split; [done|]; destruct dsp; [done|]; destruct Ho as (? & ? & ? & ? & ?); [done|]; congruence.
Qed.

Lemma crashed_stops acts y y' msg : y.(y_crashed) = Some msg → steps acts y = Some y' → y' = y.
Proof. destruct acts; cbn; [by intros _ [= ->]|]. unfold HandlerLoop.step. by intros ->. Qed.

Lemma closed_run acts y y' msg :
  PanicToException = true → steps acts y = Some y' → open_unless y.(y_env) → y.(y_crashed) = None →
  y'.(y_crashed) = Some msg → msg = "send on closed channel" ∧ y'.(y_env).(n_disposing) = true.
Proof.
  intros HP. revert y. induction acts as [|a acts IH]; intros y; cbn; [intros [= ->]; congruence|].
  intros (y1 & Hs & Hr)%bind_Some Ho _ Hm. destruct (y_crashed y1) as [msg1|] eqn:Hc.
  - rewrite (crashed_stops _ _ _ _ Hc Hr) in *. rewrite Hc in Hm. injection Hm as ->. by eapply crash_step.
  - apply (IH y1); [done|by eapply open_step|done..].
Qed.

Lemma crashes_race acts y y' msg :
  PanicToException = true → steps acts y = Some y' → open_unless y.(y_env) → senders_ok y →
  y'.(y_crashed) = Some msg →
  msg = "send on closed channel" ∧ y'.(y_env).(n_disposing) = true ∧ races acts y = true.
Proof.
  intros HP. revert y. induction acts as [|a acts IH]; intros y; cbn.
  { intros [= ->] _ [Hc _] Hm. congruence. }
  intros (y1 & Hs & Hr)%bind_Some Ho Hk Hm. rewrite Hs. destruct (race a y) eqn:Hrace; cbn [orb].
  - destruct (y_crashed y1) as [msg1|] eqn:Hc.
    + rewrite (crashed_stops _ _ _ _ Hc Hr) in *. rewrite Hc in Hm. injection Hm as ->.
      destruct (crash_step _ _ _ _ HP Hs Ho Hc). done.
    + destruct (closed_run acts y1 y' msg HP Hr) as [? ?]; [by eapply open_step|done..].
  - apply (IH y1); [done|by eapply open_step|by eapply senders_step|done].
Qed.

(** C10: With [PanicToException] the process ends only by a send on a channel that
    the disposal closed, and only in one of three races with it: a handler's time
    is up after [errInternal] was closed, or a caller or a panicking handler loop
    tested [disposing] before and sends after its channel was closed.  In any
    order of the steps of handlers, timers and the disposal. *)
Theorem crashes_are_races acts y msg :
  PanicToException = true → steps acts newSys = Some y → y.(y_crashed) = Some msg →
  msg = "send on closed channel" ∧ y.(y_env).(n_disposing) = true ∧ races acts newSys = true.
Proof. intros HP Hs. by apply (crashes_race _ _ _ _ HP Hs). Qed.
End protocol_facts.

(** ** Runs *)

(** Handlers that only end. *)
Definition run_fn (c : handlerCall) : bool + string :=
  match c.(hc_fn) ∅ with
  | HEnd ret => inl ret
  | HPanic err => inr err
  | _ => inl true
  end.

(** A binding of one method. *)
Definition method (name : string) (p : prog) : Binding :=
  mkBinding "" (λ n, if bool_decide (n = name) then Some (λ _, p) else None).

Definition enter (name : string) (exception : bool) : HandlerEvent := mkHEvent name exception true.
Definition foo_panics : list Binding := [method "FooEnter" (HPanic "boom")].
Definition bar_accepts : list Binding := [method "BarEnter" (HEnd true)].

(** A call, taken by the goroutine [g]. *)
Definition take_call (g : nat) : list Act := [ACaller; ACaller; ASend g].
(** From [Exec] to the select for the result. *)
Definition finish (g : nat) : list Act := [ALoop g; ALoop g; ALoop g].

(** A handler that panics after its deadline is still at [m.handlerPanic <- ...]
    when the next handler is called: the next one, which returned [true], is
    the one that panicked. *)
Definition late_panic : list Act :=
  [ALoop 0; AEvent (enter "FooEnter" false) foo_panics] ++ take_call 0 ++
  [ATimeout; ADeadline; ALoop 1; ALoop 0; ALoop 0; ALoop 0; AEvent (enter "BarEnter" false) bar_accepts] ++ take_call 1 ++
  [APanic 0; ACaller].

Lemma late_panic_misdelivered :
  ∃ y, steps run_fn true late_panic newSys = Some y
    ∧ y.(y_caller) = CDone Canceled true ∧ y.(y_traces).(r_panicCaught) = true
    ∧ y.(y_traces).(r_queue) = ["boom"; "handler timeout: FooEnter"]
    ∧ owner <$> y.(y_loops) = [None; Some (mkCall 1 (λ _, HEnd true) "BarEnter"); None].
Proof. eexists. split; [vm_compute; reflexivity|]. by vm_compute. Qed.

(** A handler that returns between the deadline and the start of the new loop
    keeps its version: its result is the next call's. *)
Definition stale_result : list Act :=
  [ALoop 0; AEvent (enter "FooEnter" false) [method "FooEnter" (HEnd false)]] ++ take_call 0 ++
  [ATimeout; ADeadline] ++ finish 0 ++ [ALoop 1; AEvent (enter "BarEnter" false) bar_accepts] ++ take_call 1 ++ [AEnd 0].

Lemma stale_result_delivered :
  ∃ y, steps run_fn true stale_result newSys = Some y ∧ y.(y_caller) = CDone Canceled true
    ∧ y.(y_loops) !! 1%nat = Some (LExec 2 false (mkCall 1 (λ _, HEnd true) "BarEnter")).
Proof. eexists. split; [vm_compute; reflexivity|]. by vm_compute. Qed.

(** A panic in a handler of [Exception] leaves no handler loop: the next
    handler's caller waits for the end of the machine's context. *)
Definition exception_panic : list Act :=
  [ALoop 0; AEvent (enter "ExceptionState" true)
     [method "ExceptionState" (HPanic "boom"); method "ExceptionState" (HEnd true)]] ++ take_call 0 ++
  [ALoop 0; ALoop 0; ALoop 0; APanic 0; ACaller; ACaller; ACaller].

Lemma exception_panic_blocks :
  ∃ y c, steps run_fn true exception_panic newSys = Some y ∧ y.(y_caller) = CSend c []
    ∧ stuck run_fn true y.
Proof.
  do 2 eexists. split; [vm_compute; reflexivity|]. split; [reflexivity|].
  intros [] Hp; try discriminate Hp; try reflexivity; by destruct g as [|[]].
Qed.

(** Without [PanicToException], a handler that returns after [doDispose] has
    closed the channels brings the process down. *)
Definition dispose_late : list Act :=
  [ALoop 0; AEvent (enter "BarEnter" false) bar_accepts] ++ take_call 0 ++
  [ADispose; AClose 0; AClose 0; AClose 0] ++ finish 0 ++ [ALoop 0].

Lemma dispose_late_crashes :
  y_crashed <$> steps run_fn false dispose_late newSys = Some (Some "send on closed channel")
  ∧ y_crashed <$> steps run_fn true dispose_late newSys = Some None.
Proof. by vm_compute. Qed.

(** The races: a handler overruns its time while the machine is disposed; a call,
    and a panic, whose goroutine is delayed longer than the disposal waits. *)
Definition timeout_after_dispose : list Act :=
  [ALoop 0; AEvent (enter "BarEnter" false) bar_accepts] ++ take_call 0 ++ [ADispose; ACloseErr; ATimeout].
Definition delayed_call : list Act :=
  [ALoop 0; AEvent (enter "BarEnter" false) bar_accepts; ACaller; ADispose; AClose 0; AClose 0; AClose 0; ACaller; ACaller].
Definition delayed_panic : list Act :=
  [ALoop 0; AEvent (enter "FooEnter" false) foo_panics] ++ take_call 0 ++
  [ALoop 0; ALoop 0; ADispose; AClose 0; AClose 0; ALoop 0; ALoop 0].

Lemma disposal_races :
  (λ acts, y_crashed <$> steps run_fn true acts newSys) <$> [timeout_after_dispose; delayed_call; delayed_panic]
  = replicate 3 (Some (Some "send on closed channel")).
Proof. by vm_compute. Qed.

(** *** Witnesses *)

Definition end_of (body : gmap string Val → prog) : bool := match body ∅ with HEnd ret => ret | _ => true end.
Definition ends (c : handlerCall) : bool + string := inl (end_of c.(hc_fn)).

Definition after (acts : list Act) : Sys := default newSys (steps ends true acts newSys).

Definition runs (acts : list Act) : bool := match steps ends true acts newSys with Some _ => true | None => false end.

Lemma steps_app Exec P acts1 acts2 y : steps Exec P (acts1 ++ acts2) y = steps Exec P acts1 y ≫= steps Exec P acts2.
Proof.
  revert y. induction acts1 as [|a acts1 IH]; intros y; [done|]. cbn.
  destruct (step Exec P a y); [apply IH|done].
Qed.

Lemma after_steps acts1 acts2 :
  runs (acts1 ++ acts2) = true → steps ends true acts2 (after acts1) = Some (after (acts1 ++ acts2)).
Proof.
  unfold runs, after. rewrite steps_app. destruct (steps ends true acts1 newSys); [cbn|done].
  by destruct (steps ends true acts2 s).
Qed.

Lemma after_step acts a : runs (acts ++ [a]) = true → step ends true a (after acts) = Some (after (acts ++ [a])).
Proof. intros Hr. apply after_steps in Hr. cbn in Hr. by destruct (step _ _ a _). Qed.

Definition start (name : string) (hs : list Binding) : list Act := [ALoop 0; AEvent (enter name false) hs].

Lemma results_own_witness :
  let y := after (start "BarEnter" bar_accepts ++ take_call 0) in
  quiet y = true ∧ (length (filter (λ l, alive l = true) y.(y_loops)) ≤ 1)%nat
  ∧ (∀ g l c, y.(y_loops) !! g = Some l → owner l = Some c → waits_for y.(y_caller) = Some c).
Proof.
  intros y. split; [reflexivity|].
  apply (results_own ends true (start "BarEnter" bar_accepts ++ take_call 0) y); [apply (after_steps [])|]; by vm_compute.
Defined.


Lemma crashes_are_races_witness :
  (after timeout_after_dispose).(y_crashed) = Some "send on closed channel"
  ∧ races ends true timeout_after_dispose newSys = true.
Proof.
  split; [by vm_compute|].
  apply (crashes_are_races ends true timeout_after_dispose (after timeout_after_dispose) "send on closed channel");
    [reflexivity|apply (after_steps []); by vm_compute|by vm_compute].
Defined.

Definition split_vote : list Binding :=
  [method "FooEnter" (HEnd true); method "FooEnter" (HEnd false); method "FooEnter" (HEnd true)].

Definition handling_machine : Machine :=
  let m := abc_machine false [] 0 in
  with_flags (set_loop true)
    (with_t (Some (mkTx "tx" (abc_mutation MutationAdd false "A" 0) [] [] [] [] [] false true false false
       "" [] [] (clock m) [] [] (schema m))) m).

Lemma split_vote_answers h body args :
  h ∈ split_vote → h.(hb_method) (TrimPrefix "FooEnter" h.(hb_StatePrefix)) = Some body →
  answers_as end_of args body.
Proof.
  intros Hh Hb m Hm. exists m. split; [|done].
  repeat (apply elem_of_cons in Hh as [->|Hh]; [vm_compute in Hb; by injection Hb as <-|]).
  by apply not_elem_of_nil in Hh.
Qed.

Lemma processHandlers_refines_witness :
  ∃ m', processHandlers (λ _, false) split_vote "FooEnter" ∅ handling_machine = Ok ((Canceled, true), m').
Proof.
  pose (acts := take_call 0 ++ finish 0 ++ [AEnd 0] ++ take_call 0 ++ finish 0 ++ [AEnd 0]).
  apply (processHandlers_refines ends true [ALoop 0] acts (enter "FooEnter" false) split_vote
    (after [ALoop 0]) (after (start "FooEnter" split_vote)) (after (start "FooEnter" split_vote ++ acts))
    Canceled true end_of (λ _, false) ∅ handling_machine).
  - reflexivity.
  - by apply (after_steps [] [ALoop 0]).
  - by apply (after_step [ALoop 0]).
  - reflexivity.
  - reflexivity.
  - apply after_steps. by vm_compute.
  - by vm_compute.
  - by vm_compute.
  - by vm_compute.
  - split_and!; [by vm_compute..|]. eexists. by split_and!.
  - intros h body. apply split_vote_answers.
Defined.
