(* ===== verification/Calls.v ===== *)
(** * Handler tables, evals and forked functions ([pkg/machine/machine.go], [mach_utils.go])

    What becomes of a handler's name: a binding is a struct whose methods and
    fields are looked up by reflection, with caches for those found and those
    missing, or a pair of maps; the call that is made of it is run by
    [handlerCall.Exec].  [Lifecycle.v] binds them; its bindings know only the
    name's body.  Then the ways around handlers: [Eval], which runs a function
    on the machine's queue and waits for it, a protocol between the goroutine
    of the caller and the one that processes the queue; and [Go], [GoAfter] and
    [Fork], which run one outside. *)

From S2P Require Import Prelude StateList MachTime Mutation Machine Queue Transition Run Lifecycle.

#[local] Open Scope Z_scope.

(** ** Handlers *)

Module Handler.

(** What reflection finds under a handler's name: a function, by its results
    (none, a [bool], something else), a nil one, no function at all. *)
Inductive GoFunc :=
| FuncVoid (body : gmap string Val → prog)
| FuncBool (body : gmap string Val → prog)
| FuncOther (body : gmap string Val → prog)
| FuncNil
| NotFunc.

(** [handler]; the methods and the fields of the bound struct. *)
Record handler := mkHandler {
  hd_isMap : bool;
  hd_negotiations : gmap string (gmap string Val → prog);
  hd_finals : gmap string (gmap string Val → prog);
  hd_methods : string → option GoFunc;
  hd_fields : string → option GoFunc;
  hd_methodCache : gmap string GoFunc;
  hd_missingCache : gset string;
}.

Definition noFuncs (name : string) : option GoFunc := None.

(** [&handler{}] *)
Definition emptyHandler : handler := mkHandler false ∅ ∅ noFuncs noFuncs ∅ ∅.

Definition newHandlerMap (disposing : bool) (negotiations finals : gmap string (gmap string Val → prog)) : handler :=
  if disposing then emptyHandler else mkHandler true negotiations finals noFuncs noFuncs ∅ ∅.

Definition newHandlerStruct (disposing : bool) (methods fields : string → option GoFunc) : handler :=
  if disposing then emptyHandler else mkHandler false ∅ ∅ methods fields ∅ ∅.

(** [handlerCall] *)
Record handlerCall := mkCall {
  hc_fn : option GoFunc;
  hc_name : string;
  hc_negotiation : option (gmap string Val → prog);
  hc_final : option (gmap string Val → prog);
}.

(** A program with its result changed. *)
Fixpoint with_result (f : bool → bool) (p : prog) : prog :=
  match p with
  | HEnd ret => HEnd (f ret)
  | HCall c k => HCall c (λ r, with_result f (k r))
  | HRead k => HRead (λ m, with_result f (k m))
  | HPanic _ | HLate | HDeadline => p
  end.

(** [reflect.Value.Call], and the first result as a [bool]: without results it
    is [true], of another type [false]. *)
Definition call_func (f : GoFunc) (args : gmap string Val) : prog :=
  match f with
  | FuncVoid body => with_result (λ _, true) (body args)
  | FuncBool body => body args
  | FuncOther body => with_result (λ _, false) (body args)
  | FuncNil => HPanic "reflect: call of nil function"
  | NotFunc => HPanic "reflect: call of Call on non-function Value"
  end.

Definition Exec (c : handlerCall) (args : gmap string Val) : prog :=
  match c.(hc_fn), c.(hc_negotiation), c.(hc_final) with
  | Some f, _, _ => call_func f args
  | None, Some body, _ => body args
  | None, None, Some body => with_result (λ _, true) (body args)
  | None, None, None => HPanic ("invalid handler call " +:+ c.(hc_name))
  end.

Definition with_caches (found : gmap string GoFunc) (missing : gset string) (h : handler) : handler :=
  mkHandler h.(hd_isMap) h.(hd_negotiations) h.(hd_finals) h.(hd_methods) h.(hd_fields) found missing.

(** [MethodByName], else [FieldByName]. *)
Definition by_reflection (name : string) (h : handler) : option GoFunc :=
  match h.(hd_methods) name with Some f => Some f | None => h.(hd_fields) name end.

Definition newHandlerCallStruct (methodName : string) (h : handler) : option handlerCall * handler :=
  let call f := Some (mkCall (Some f) methodName None None) in
  if bool_decide (methodName ∈ h.(hd_missingCache)) then (None, h)
  else
    match h.(hd_methodCache) !! methodName with
    | Some f => (call f, h)
    | None =>
        match by_reflection methodName h with
        | None => (None, with_caches h.(hd_methodCache) ({[methodName]} ∪ h.(hd_missingCache)) h)
        | Some f => (call f, with_caches (<[methodName := f]> h.(hd_methodCache)) h.(hd_missingCache) h)
        end
    end.

Definition newHandlerCallMap (methodName : string) (h : handler) : option handlerCall :=
  if isFinalName methodName
  then
    match h.(hd_finals) !! methodName with
    | None => None
    | Some body => Some (mkCall None methodName None (Some body))
    end
  else
    match h.(hd_negotiations) !! methodName with
    | None => None
    | Some body => Some (mkCall None methodName (Some body) None)
    end.

(** The choice of [processHandlers]. *)
Definition newHandlerCall (methodName : string) (h : handler) : option handlerCall * handler :=
  if negb h.(hd_isMap) then newHandlerCallStruct methodName h else (newHandlerCallMap methodName h, h).

(** The calls of a run. *)
Fixpoint calls (names : list string) (h : handler) : list (option handlerCall) * handler :=
  match names with
  | [] => ([], h)
  | name :: names =>
      let '(c, h) := newHandlerCall name h in
      let '(cs, h) := calls names h in
      (c :: cs, h)
  end.

(** *** The binding of a handler *)

Definition lookup (h : handler) (name : string) : option (gmap string Val → prog) :=
  if h.(hd_isMap)
  then
    if isFinalName name
    then (λ body args, with_result (λ _, true) (body args)) <$> h.(hd_finals) !! name
    else h.(hd_negotiations) !! name
  else call_func <$> by_reflection name h.

Definition binding (h : handler) (StatePrefix : string) : Binding := mkBinding StatePrefix (lookup h).

(** The caches hold what is there, and what is not. *)
Definition cached (h : handler) : Prop :=
  (∀ name f, h.(hd_methodCache) !! name = Some f →
     by_reflection name h = Some f)
  ∧ (∀ name, name ∈ h.(hd_missingCache) → by_reflection name h = None).

Lemma cached_newHandlerMap d ns fs : cached (newHandlerMap d ns fs).
Proof. split; destruct d; cbn; set_solver. Qed.
Lemma cached_newHandlerStruct d ms fs : cached (newHandlerStruct d ms fs).
Proof. split; destruct d; cbn; set_solver. Qed.

Lemma newHandlerCall_lookup name h :
  cached h → Exec <$> (newHandlerCall name h).1 = lookup h name.
Proof.
  intros [Hf Hm]. unfold newHandlerCall, lookup, newHandlerCallMap, newHandlerCallStruct.
  destruct (hd_isMap h); cbn.
  - destruct (isFinalName name); by destruct (_ !! name).
  - case_bool_decide as Hn; cbn; [by rewrite (Hm _ Hn)|].
    destruct (hd_methodCache h !! name) as [f|] eqn:Hc; cbn; [by rewrite (Hf _ _ Hc)|].
    by destruct (by_reflection name h).
Qed.

Lemma newHandlerCall_cached name h :
  cached h → cached (newHandlerCall name h).2 ∧ lookup (newHandlerCall name h).2 = lookup h.
Proof.
  intros Hc. unfold newHandlerCall. destruct (hd_isMap h); cbn; [done|]. pose proof Hc as [Hf Hm].
  unfold newHandlerCallStruct. case_bool_decide; [done|]. destruct (_ !! name) eqn:Hl; [done|].
  destruct (by_reflection name h) as [f|] eqn:E; cbn; split; try done; split; cbn.
  - intros n f' [[<- <-]|[? ?]]%lookup_insert_Some; [done|by apply Hf].
  - exact Hm.
  - exact Hf.
  - intros n [->%elem_of_singleton|?]%elem_of_union; [exact E|by apply Hm].
Qed.

(** The calls of a handler, in any order and however often: the caches change
    nothing. *)
Theorem calls_lookup names h :
  cached h → (fmap Exec <$> (calls names h).1) = lookup h <$> names.
Proof.
  revert h. induction names as [|name names IH]; intros h Hc; [done|]. cbn.
  pose proof (newHandlerCall_lookup name h Hc) as Hl. pose proof (newHandlerCall_cached name h Hc) as [Hc' Hs].
  destruct (newHandlerCall name h) as [c h']. cbn in *. specialize (IH h' Hc'). rewrite Hs in IH.
  destruct (calls names h') as [cs h'']. cbn in *. by rewrite Hl, IH.
Qed.

(** A method in the place of a negotiation handler with a result of another
    type refuses every time. *)
Lemma other_result_refuses body args m m' r :
  run_prog (call_func (FuncOther body) args) m = Ok (REnd r, m') → r = false.
Proof.
  cbn. generalize (body args). intros p. revert m. induction p as [b|e| | |c k IH|k IH]; intros m; cbn; try done.
  - by intros [= <- _].
  - destruct (run_call c m) as [[x m1]|msg|]; [apply IH|done|done].
  - apply IH.
Qed.
End Handler.

(** ** Binding *)

Section bind.
Context (processQueue : run Machine Z) (anon : string).

(** What is bound: a pointer to a struct, with its methods and fields. *)
Inductive Bound :=
| StructPointer (methods fields : string → option Handler.GoFunc)
| OtherKind.

Definition HandlersBind (handlers : Bound) (o : BindOpts) (hs : Handlers)
  : run Machine (option string * string * Handlers) :=
  match handlers with
  | OtherKind => mret (Some "BindHandlers expects a pointer to a struct", "", hs)
  | StructPointer methods fields =>
      m ← get;
      r ← bindHandlers processQueue anon
            (Handler.binding (Handler.newHandlerStruct (disposing m) methods fields)) o hs;
      mret (None, r.1, r.2)
  end.

Definition HandlersBindMaps (negotiations finals : gmap string (gmap string Val → prog)) (o : BindOpts)
    (hs : Handlers) : run Machine (option string * string * Handlers) :=
  m ← get;
  r ← bindHandlers processQueue anon
        (Handler.binding (Handler.newHandlerMap (disposing m) negotiations finals)) o hs;
  mret (None, r.1, r.2).

Definition setHandlers (handlers : list Lifecycle.handler) (hs : Handlers) : Handlers :=
  mkHandlers handlers hs.(hs_next).
End bind.

(** ** Functions outside of handlers *)

Section go.
Context (processQueue : run Machine Z).

(** The goroutine of [Go]: [fn] ends or panics ([runs]: with what); a panic
    becomes an error of the machine, unless it does not catch them. *)
Definition guarded (args : gmap string Val) (runs : run Machine (option string)) : run Machine () :=
  r ← runs;
  m ← get;
  match r with
  | Some msg =>
      if negb m.(m_flags).(f_PanicToException) || disposing m then panic msg
      else Api.PanicToErr processQueue r args
  | None => mret ()
  end.

(** [expired]: whether the context has ended; [args]: [AException] with the
    name of [fn]. *)
Definition Go (args : gmap string Val) (expired : bool) (runs : run Machine (option string)) : run Machine () :=
  if expired then mret () else guarded args runs.

(** Only for events that are still valid. *)
Definition Fork (args : gmap string Val) (valid expired : bool) (runs : run Machine (option string))
  : run Machine () :=
  if negb valid then mret () else Go args expired runs.

(** [expired2]: after the delay. *)
Definition GoAfter (expired expired2 : bool) (runs : run Machine (option string)) : run Machine () :=
  if expired then mret () else if expired2 then mret () else guarded ∅ runs.
End go.

(** [EvSource] *)
Definition EvSource (m : Machine) (transitionId : string) : EventSrc :=
  mkEventSrc m.(m_flags).(f_id) transitionId None.

(** ** Evals *)

(** Finding an eval in a handler or in another eval: the answer, and the error
    added. *)
Definition isNestedEval (detectEval : bool) (handlerGoId self : Z) (currentHandler currentEval source : string)
  : bool * option string :=
  if negb detectEval || bool_decide (handlerGoId = 0) then (false, None)
  else if bool_decide (handlerGoId ≠ self) then (false, None)
  else
    let called := "nested eval: eval:" +:+ source +:+ " called directly in " in
    let err :=
      if bool_decide (currentHandler ≠ "") then called +:+ "handler " +:+ currentHandler +:+ "(), skipping"
      else if bool_decide (currentEval ≠ "") then called +:+ "eval." +:+ currentEval +:+ ", skipping"
      else called +:+ "???, skipping" in
    (false, Some err).

(** The answer is never used, and always the same. *)
Lemma isNestedEval_false d h s ch ce src : (isNestedEval d h s ch ce src).1 = false.
Proof. unfold isNestedEval. by repeat case_match. Qed.

Module Evals.

(** The mutation with the wrapped function: in the queue; dropped with it; or
    skipped for its ended context; popped; past the test of [canceled]; done
    with [done] closed. *)
Inductive Wrap := WQueued | WDropped | WSkipped | WPopped | WRunning | WDone.

(** The goroutine in [Eval]: in [PrependMut], in the select, returned; a
    machine that is being disposed returns, a missing source panics. *)
Inductive Phase := PPrepend | PSelect | PReturned (ok : bool) | PPanicked (msg : string).

(** [v_self]: the call drains the queue itself; [v_inside]: it comes from a
    handler, and the queue waits for it. [v_runs]: how often [fn] ran. *)
Record EvalSys := mkEvalSys {
  v_phase : Phase;
  v_wrap : Wrap;
  v_self : bool;
  v_inside : bool;
  v_canceled : bool;
  v_ctx : bool;
  v_machCtx : bool;
  v_runs : nat;
}.

Definition Eval (disposing : bool) (source : string) (self inside ctx machCtx : bool) : EvalSys :=
  let phase :=
    if disposing then PReturned false
    else if bool_decide (source = "") then PPanicked "error: source of eval is required"
    else PPrepend in
  let wrap := match phase with PPrepend => WQueued | _ => WDropped end in
  mkEvalSys phase wrap self inside false ctx machCtx 0.

Definition set_phase (p : Phase) (c : bool) (v : EvalSys) : EvalSys :=
  mkEvalSys p v.(v_wrap) v.(v_self) v.(v_inside) c v.(v_ctx) v.(v_machCtx) v.(v_runs).
Definition set_wrap (w : Wrap) (n : nat) (v : EvalSys) : EvalSys :=
  mkEvalSys v.(v_phase) w v.(v_self) v.(v_inside) v.(v_canceled) v.(v_ctx) v.(v_machCtx) n.
Definition set_ctxs (c mc : bool) (v : EvalSys) : EvalSys :=
  mkEvalSys v.(v_phase) v.(v_wrap) v.(v_self) v.(v_inside) v.(v_canceled) c mc v.(v_runs).

Definition settled (w : Wrap) : bool := match w with WDropped | WSkipped | WDone => true | _ => false end.
Definition untouched (w : Wrap) : bool := match w with WQueued | WDropped => true | _ => false end.
Definition answered (v : EvalSys) : option bool :=
  match v.(v_phase) with PReturned ok => Some ok | _ => None end.

(** A queue that waits for the caller's handler makes no step. *)
Definition drains (v : EvalSys) : Prop :=
  v.(v_inside) = true → answered v ≠ None.

(** The caller's steps, those of the queue's goroutine, those of contexts. *)
Inductive step : EvalSys → EvalSys → Prop :=
| Prepended v : v.(v_phase) = PPrepend → (v.(v_self) = true → settled v.(v_wrap) = true) →
    step v (set_phase PSelect v.(v_canceled) v)
| Timeout v : v.(v_phase) = PSelect → step v (set_phase (PReturned false) true v)
| MachDone v : v.(v_phase) = PSelect → v.(v_machCtx) = true → step v (set_phase (PReturned false) true v)
| CtxDone v : v.(v_phase) = PSelect → v.(v_ctx) = true → step v (set_phase (PReturned false) true v)
| Done v : v.(v_phase) = PSelect → v.(v_wrap) = WDone → step v (set_phase (PReturned true) v.(v_canceled) v)
| Popped v : drains v → v.(v_wrap) = WQueued →
    step v (set_wrap (if v.(v_ctx) then WSkipped else WPopped) v.(v_runs) v)
| Tested v : drains v → v.(v_wrap) = WPopped →
    step v (set_wrap (if v.(v_canceled) then WDone else WRunning) v.(v_runs) v)
| Ran v : drains v → v.(v_wrap) = WRunning → step v (set_wrap WDone (S v.(v_runs)) v)
| Dropped v : v.(v_wrap) = WQueued → step v (set_wrap WDropped v.(v_runs) v)
| Ended v c mc : (v.(v_ctx) = true → c = true) → (v.(v_machCtx) = true → mc = true) → step v (set_ctxs c mc v).

(** [fn] runs at most once, and only while running; without cancellation a
    closed [done] means that it ran. *)
Definition inv (v : EvalSys) : Prop :=
  (v.(v_runs) ≤ 1)%nat
  ∧ (v.(v_wrap) ≠ WDone → v.(v_runs) = 0%nat)
  ∧ (v.(v_wrap) = WDone → v.(v_canceled) = false → v.(v_runs) = 1%nat)
  ∧ (v.(v_canceled) = true → answered v = Some false)
  ∧ (answered v = Some true → v.(v_wrap) = WDone ∧ v.(v_canceled) = false)
  ∧ (v.(v_inside) = true → answered v ≠ Some true ∧ (answered v = None → untouched v.(v_wrap) = true)).

Lemma inv_Eval d src s i c mc : inv (Eval d src s i c mc).
Proof.
  unfold inv, Eval, answered. destruct d; cbn; [|case_bool_decide; cbn]; split_and!; try done; lia.
Qed.

Lemma inv_step v v' : step v v' → inv v → inv v'.
Proof.
  intros Hs (H1 & H2 & H3 & H4 & H5 & H6). unfold inv.
  destruct Hs as [v Hp _|v Hp|v Hp _|v Hp _|v Hp Hw|v Hd Hw|v Hd Hw|v Hd Hw|v Hw|v c mc _ _];
    destruct v as [ph w self ins can ctx mctx n]; unfold answered, drains in *; cbn in *; subst.
  all: try (destruct ph as [| |[]|]); try destruct w; try (destruct ctx); destruct can, ins; cbn in *.
  all: try discriminate (H4 eq_refl).
  all: try (destruct (H6 eq_refl) as [? Hu]; try discriminate (Hu eq_refl)).
  all: try (exfalso; by apply (Hd eq_refl)).
  all: try (destruct (H5 eq_refl); discriminate).
  all: try (assert (n = 0%nat) as -> by (by apply H2)).
  all: split_and!; intros; auto; try discriminate; try done; try lia; try (by split); try (split; congruence).
Qed.

Lemma inv_steps v v' : rtc step v v' → inv v → inv v'.
Proof. induction 1; [done|]. intros Hi. by apply IHrtc, (inv_step x). Qed.

(** C23: However the goroutines interleave: [Eval] answers true only after its
    function ran, once; it never runs twice; and a call from a handler, which
    the queue waits for, never answers true. *)
Theorem eval_answers d src self inside ctx machCtx v :
  rtc step (Eval d src self inside ctx machCtx) v →
  (v.(v_runs) ≤ 1)%nat ∧ (answered v = Some true → v.(v_runs) = 1%nat)
  ∧ (v.(v_inside) = true → answered v ≠ Some true).
Proof.
  intros Hr. destruct (inv_steps _ _ Hr (inv_Eval _ _ _ _ _ _)) as (H1 & _ & H3 & _ & H5 & H6).
  split_and!; [done| |by intros Hi; apply (H6 Hi)]. intros Ha. destruct (H5 Ha). auto.
Qed.

(** Nothing runs once a cancellation came before the test. *)
Definition called_off (v : EvalSys) : Prop := v.(v_canceled) = true ∧ v.(v_wrap) ≠ WRunning ∧ v.(v_runs) = 0%nat.

Lemma called_off_step v v' : step v v' → inv v → called_off v → called_off v'.
Proof.
  intros Hs (_ & _ & _ & H4 & _) (Hc & Hw & Hn). specialize (H4 Hc). unfold answered in H4. unfold called_off.
  destruct Hs; cbn; try congruence; try (by split_and!); try (by rewrite H in H4).
  - destruct (v_ctx v); by split_and!.
  - rewrite Hc. by split_and!.
Qed.

Lemma called_off_stays v v' : rtc step v v' → inv v → called_off v → v'.(v_runs) = 0%nat.
Proof.
  induction 1; [by intros _ (_ & _ & ?)|]. intros Hi Hc.
  apply IHrtc; [by eapply inv_step|by eapply called_off_step].
Qed.

(** A timeout during the run: the answer is false, and the function ran. *)
Lemma timeout_while_running :
  ∃ v, rtc step (Eval false "src" false false false false) v ∧ answered v = Some false ∧ v.(v_runs) = 1%nat.
Proof.
  eexists. split; [|split].
  - eapply rtc_l; [by apply Popped|]. eapply rtc_l; [by apply Tested|].
    eapply rtc_l; [by apply Prepended|]. eapply rtc_l; [by apply Timeout|].
    eapply rtc_l; [by apply Ran|]. apply rtc_refl.
  - reflexivity.
  - reflexivity.
Qed.

Lemma eval_answers_witness :
  ∃ v, rtc step (Eval false "src" true false false false) v ∧ answered v = Some true ∧ v.(v_runs) = 1%nat.
Proof.
  assert (Hr : rtc step (Eval false "src" true false false false)
    (mkEvalSys (PReturned true) WDone true false false false false 1)).
  { eapply rtc_l; [by apply Popped|]. eapply rtc_l; [by apply Tested|]. eapply rtc_l; [by apply Ran|].
    eapply rtc_l; [by apply Prepended|]. eapply rtc_l; [by apply Done|]. apply rtc_refl. }
  eexists. split; [exact Hr|]. split; [reflexivity|].
  destruct (eval_answers _ _ _ _ _ _ _ Hr) as (_ & Ha & _). by apply Ha.
Defined.
End Evals.
