(* ===== verification/Checks.v ===== *)
(** * Asking before mutating ([pkg/helpers/help.go])

    The [Can] and [Ask] helpers queue a check with a channel of its own, wait
    until the machine closes it, and read the field [Canceled] the machine wrote
    before.  That field says whether the transition was accepted ([answerCheck]),
    so [CantAdd] negates it; [CantRemove] does not, and answers the opposite of
    what it says. *)

From S2P Require Import Prelude StateList SchemaDef MachTime Mutation Relations Subscriptions Machine Queue Transition Run QueueSpec Semantics.

#[local] Open Scope Z_scope.

Module Ask.
Section ask.
Context (processQueue : run Machine Z).

(** [make(chan struct{})], numbered like the channels of the subscriptions. *)
Definition make_chan : run Machine nat :=
  m ← get;
  let sm := m.(m_subs) in
  modify (with_subs (mkSubs (S sm.(sm_next)) sm.(sm_clock) sm.(sm_stateCtx) sm.(sm_when) sm.(sm_time)
                       sm.(sm_sum) sm.(sm_args) sm.(sm_query) sm.(sm_queue)) []) ;;
  mret sm.(sm_next).

(** [am.Pass(&am.ACheck{CheckDone: ch})] *)
Definition pass_check (ch : nat) : gmap string Val := {[checkKey := VCheck ch]}.

(** [<-args2.CheckDone] and then [args2.Canceled]: a channel that is closed
    without an answer leaves the field as it was made, and one that is not
    closed is waited for. *)
Definition check_answer (ch : nat) : run Machine bool :=
  m ← get;
  match find (λ c : nat * bool, Nat.eqb c.1 ch) m.(m_checks) with
  | Some (_, canceled) => mret canceled
  | None => if contains m.(m_closed) ch then mret false else block
  end.

Definition CantAdd (states : list string) (args : gmap string Val) : run Machine bool :=
  ch ← make_chan;
  Api.CanAdd processQueue states (PassMerge [args; pass_check ch]) ;;
  canceled ← check_answer ch;
  mret (negb canceled).

Definition CantAdd1 (state : string) (args : gmap string Val) : run Machine bool :=
  r ← Api.CanAdd processQueue [state] args;
  mret (bool_decide (r = Canceled)).

Definition CantRemove (states : list string) (args : gmap string Val) : run Machine bool :=
  ch ← make_chan;
  Api.CanRemove processQueue states (PassMerge [args; pass_check ch]) ;;
  check_answer ch.

Definition CantRemove1 (state : string) (args : gmap string Val) : run Machine bool :=
  r ← Api.CanRemove processQueue [state] args;
  mret (bool_decide (r = Canceled)).

(** [mach.EvAdd] and [mach.EvRemove] with an event that may be [nil]. *)
Definition ev_add (e : option EventSrc) (states : list string) (args : gmap string Val) : run Machine Z :=
  m ← get;
  if disposing m || Mach.Backoff m || Api.over_limit m then mret Canceled
  else tick ← queueMutation MutationAdd states args e; Api.process_queued processQueue tick.

Definition ev_remove (e : option EventSrc) (states : list string) (args : gmap string Val) : run Machine Z :=
  m ← get;
  if disposing m || Mach.Backoff m || Api.over_limit m then mret Canceled
  else if Api.skip_remove m states then mret Executed
  else tick ← queueMutation MutationRemove states args e; Api.process_queued processQueue tick.

Definition AskEvAdd (e : option EventSrc) (states : list string) (args : gmap string Val) : run Machine Z :=
  cant ← CantAdd states args;
  if negb cant then ev_add e states args else mret Canceled.

Definition AskAdd (states : list string) (args : gmap string Val) : run Machine Z :=
  AskEvAdd None states args.
Definition AskAdd1 (state : string) (args : gmap string Val) : run Machine Z := AskAdd [state] args.
Definition AskEvAdd1 (e : option EventSrc) (state : string) (args : gmap string Val) : run Machine Z :=
  AskEvAdd e [state] args.

Definition AskEvRemove (e : option EventSrc) (states : list string) (args : gmap string Val) : run Machine Z :=
  cant ← CantRemove states args;
  if negb cant then ev_remove e states args else mret Canceled.

Definition AskRemove (states : list string) (args : gmap string Val) : run Machine Z :=
  AskEvRemove None states args.
Definition AskRemove1 (state : string) (args : gmap string Val) : run Machine Z :=
  AskRemove [state] args.
Definition AskEvRemove1 (e : option EventSrc) (state : string) (args : gmap string Val) : run Machine Z :=
  AskEvRemove e [state] args.

Lemma ev_add_some e states args : ev_add (Some e) states args = Api.EvAdd processQueue e states args.
Proof. reflexivity. Qed.

Lemma ev_remove_some e states args :
  ev_remove (Some e) states args = Api.EvRemove processQueue e states args.
Proof. reflexivity. Qed.

End ask.
End Ask.

(** ** A check without handlers *)

Section checks.
Context (randId : Machine → string) (done : nat → bool) (bindings : list Binding).
Context (autoOrder : Machine → list string) (evals : string → prog) (fuel : nat).

Hypothesis Horder : ∀ m s, s ∈ autoOrder m ↔ is_Some (schema m !! s).
Hypothesis Hnodup : ∀ m, NoDup (autoOrder m).
Hypothesis Hfuel : (1 ≤ fuel)%nat.

Abbreviation pq := (processQueue randId done bindings autoOrder evals fuel).

(** The mutation of a check. *)
Definition check_of (m : Machine) (ty : MutationType) (states : list string)
    (args : gmap string Val) : Mutation :=
  newMutation ty (StatesToIndex (stateNames m) states) args false true None.

(** A transition of a check ends at once: accepted or not, nothing is set. *)
Lemma check_transition m mut called targets :
  quiet m → named m → called_of m mut = Ok called → targets_of m mut called = Ok targets →
  targets ⊆ stateNames m → mut.(mut_IsCheck) = true →
  let ok := accepts mut (schema m) called targets in
  returns (newTransition randId mut ;; emitEvents done bindings autoOrder) m (λ r m', ∃ t,
    m' = with_t (Some t) m ∧ r = (if ok then Executed else Canceled)
    ∧ t.(tx_Mutation) = mut ∧ t.(tx_IsAccepted) = ok).
Proof.
  intros Hq Hn Hc Hts Hsub Hck ok.
  destruct (newTransition_returns randId mut m called targets Hq Hn Hc Hts Hsub) as (tAfter & Hnew & _).
  apply returns_bind. eexists _, _. split; [exact Hnew|].
  set (t := tx_ready randId m mut called targets tAfter).
  assert (Hmut : tx_Mutation t = mut) by (unfold t, tx_ready; by destruct (accepts _ _ _ _)).
  assert (Hacc : tx_IsAccepted t = ok) by (unfold t, tx_ready, ok; by destruct (accepts _ _ _ _) eqn:E).
  set (m1 := with_t (Some t) m). unfold returns, emitEvents.
  rewrite run_get_bind, (run_get_t_bind _ m1 t) by done.
  assert (Hcalled : Tx.CalledStates m1 t = Ok called) by (unfold Tx.CalledStates; rewrite Hmut; exact Hc).
  rewrite (run_lift_bind _ _ _ _ Hcalled), (qt_handlers m1 (quiet_with_t _ _ Hq)), run_ret_bind, Hmut, Hck, Hacc.
  cbn [negb]. destruct ok eqn:Hok; rewrite run_bind_assoc.
  - rewrite bool_decide_eq_false_2, run_ret_bind, run_ret_bind by done.
    rewrite (run_ok_bind _ _ _ _ _ (modify_t_run _ m1 t eq_refl)), bool_decide_eq_false_2 by done.
    eexists _, _. split; [reflexivity|]. eexists. by split_and!.
  - rewrite bool_decide_eq_true_2 by done.
    rewrite (run_ok_bind _ _ _ _ _ (modify_t_run _ m1 t eq_refl)), run_ret_bind.
    set (t' := tx_set_accepted false t). set (m2 := with_t _ m1).
    rewrite (run_ok_bind _ _ _ _ _ (modify_t_run _ m2 t' eq_refl)), bool_decide_eq_true_2 by done.
    eexists _, _. split; [reflexivity|]. eexists. by split_and!.
Qed.

(** The end of [processQueue] answers no checks. *)
Lemma ends_checks m ret :
  returns (modify (λ m, set_processing false false (with_t None m)) ;; queueEnds ;;
           mret (match ret with [] => Canceled | v :: _ => v end)) m
    (λ _ m', m'.(m_checks) = m.(m_checks)).
Proof.
  apply returns_bind. eexists _, _. split; [done|]. apply returns_bind.
  eexists _, _. split; [done|]. by apply returns_ret.
Qed.

(** An idle machine answers a check at once and is left as it was, apart from
    its subscriptions and the answer. *)
Lemma check_idle m ty states args ch :
  ty ≠ mutationEval → drainable m → idle m → NoDup states → states ⊆ stateNames m →
  args !! checkKey = Some (VCheck ch) →
  let mut := check_of m ty states args in
  ∃ targets, targets_of m mut states = Ok targets ∧
  let ok := accepts mut (schema m) states targets in
  returns (Api.PrependMut pq mut) m (λ r m',
    r = (if ok then Executed else Canceled) ∧ m'.(m_checks) = m.(m_checks) ++ [(ch, ok)]
    ∧ m'.(m_flags) = m.(m_flags) ∧ m'.(m_sp) = m.(m_sp) ∧ m'.(m_st) = m.(m_st)
    ∧ queueTick m' = queueTick m ∧ idle m' ∧ drainable m').
Proof.
  intros Hty Hd Hi Hnd Hk Hch mut. pose proof Hd as [D1 D2 D3 D4 D5 D6].
  pose proof Hi as (Hq & Hproc & Ht). pose proof D1 as [[Hdis _] _ _]. pose proof D2 as [N1 N2 N3 _ _].
  destruct (targets_known m (resolver_of m mut) (statesToSet m ty states))
    as (targets & Hts & Hndt & Hsub); [done|done|apply D1|by apply statesToSet_known|].
  exists targets. split; [exact Hts|]. intros ok. unfold Api.PrependMut, returns.
  rewrite run_get_bind, Hdis. cbn [mut check_of newMutation mut_Type mut_Called].
  rewrite (run_lift_bind _ states) by (apply index_names; auto).
  rewrite (run_lift_bind _ states) by (apply mustParseStates_known; [done..|]; intros s Hs; by apply N2, Hk).
  rewrite bool_decide_eq_false_2 by done. rewrite run_modify_bind. fold mut.
  set (mut' := set_queue mut _ _ _ _ _). set (m1 := with_q _ m).
  rewrite (processQueue_step randId done bindings autoOrder evals fuel m1 mut').
  2:{ exact Hdis. }
  2:{ unfold m1, queueLen. cbn. unfold queue in Hq. by rewrite Hq. }
  2:{ unfold m1, queue. cbn. unfold queue in Hq. by rewrite Hq. }
  2:{ exact Hproc. }
  2:{ exact Hfuel. }
  set (m3 := with_q _ _). apply returns_bind. unfold runMutation.
  change (mut_ctx mut') with (@None nat). rewrite bool_decide_eq_false_2 by done.
  unfold returns. rewrite <- run_bind_assoc. apply returns_bind. eapply returns_mono.
  { apply (check_transition m3 mut' states targets); [|by apply (named_kept m)|done|exact Hts|exact Hsub|done].
    by destruct D1. }
  intros r m4 (t & -> & -> & Hmut & Hacc).
  assert (Hok : accepts mut' (schema m3) states targets = ok) by reflexivity.
  rewrite Hok in Hacc |- *. unfold returns. erewrite run_get_t_bind by reflexivity.
  change (mut_IsCheck mut') with true. set (m4 := with_t (Some t) m3).
  assert (Ha : answerCheck m4 = Ok ((), with_check ch ok m4)).
  { unfold answerCheck. erewrite run_get_t_bind by reflexivity. unfold Tx.Args. rewrite Hmut.
    change (mut_Args mut') with args. rewrite Hch, <- Hacc. reflexivity. }
  rewrite (run_ok_bind _ _ _ _ _ Ha). eexists _, _. split; [reflexivity|].
  set (m5 := with_check ch ok m4). set (ret := [if ok then Executed else Canceled]).
  assert (Hloop : queueLoop randId done bindings autoOrder evals (fuel - 1) ret m5 = Ok (Some ret, m5)).
  { destruct (fuel - 1)%nat; reflexivity. }
  rewrite (run_ok_bind _ _ _ _ _ Hloop).
  eapply returns_mono; [apply returns_and; [by apply (processQueue_ends m5 ret)|apply ends_checks]|].
  intros r m6 [(-> & E1 & E2 & E3 & E4 & E5 & E6 & E7) Ec]. split; [done|].
  rewrite Ec, E5, E6, E7, E3. split_and!; try done. apply E2.
  assert (Hd3 : drainable (set_processing true false m)).
  { apply (drainable_kept (set_processing true false (with_t m.(m_t) m))); [done..|].
    by apply drainable_idle. }
  destruct Hd3 as [F1 F2 F3 F4 F5 [Q1 Q2 Q3 Q4]]. unfold queue in Hq.
  split; [by destruct F1|by apply (named_kept m)|exact F3|constructor|done|].
  cbn in Q1. rewrite Hq in Q1. by split.
Qed.

(** Channels of checks are numbered by the machine. *)
Definition checks_made (m : Machine) : Prop :=
  Forall (λ c : nat * bool, c.1 < m.(m_subs).(sm_next))%nat m.(m_checks).

Lemma find_last (l : list (nat * bool)) ch b :
  Forall (λ c : nat * bool, c.1 < ch)%nat l → find (λ c, Nat.eqb c.1 ch) (l ++ [(ch, b)]) = Some (ch, b).
Proof.
  induction 1 as [|[c d] l Hc _ IH]; cbn in *; [by rewrite Nat.eqb_refl|].
  by rewrite (proj2 (Nat.eqb_neq _ _)) by lia.
Qed.

(** The machine after a channel was made. *)
Definition bumped (m : Machine) : Machine :=
  let sm := m.(m_subs) in
  with_subs (mkSubs (S sm.(sm_next)) sm.(sm_clock) sm.(sm_stateCtx) sm.(sm_when) sm.(sm_time)
               sm.(sm_sum) sm.(sm_args) sm.(sm_query) sm.(sm_queue)) [] m.

(** A machine that was asked: nothing else happened. *)
Record asked (m : Machine) (b : bool) (m' : Machine) : Prop := {
  ak_checks : m'.(m_checks) = m.(m_checks) ++ [(m.(m_subs).(sm_next), b)];
  ak_flags : m'.(m_flags) = m.(m_flags);
  ak_sp : m'.(m_sp) = m.(m_sp);
  ak_st : m'.(m_st) = m.(m_st);
  ak_tick : queueTick m' = queueTick m;
  ak_idle : idle m' ∧ drainable m';
}.

(** What [CantAdd] and [CantRemove] have in common. *)
Lemma check_asked m ty states args :
  ty ≠ mutationEval → drainable m → idle m → NoDup states → states ⊆ stateNames m → checks_made m →
  let mut := check_of m ty states args in
  ∃ targets, targets_of m mut states = Ok targets ∧
  let ok := accepts mut (schema m) states targets in
  let ch := m.(m_subs).(sm_next) in
  returns (Api.PrependMut pq (newMutation ty (Mach.Index m states)
             (PassMerge [args; Ask.pass_check ch]) false true None) ;; Ask.check_answer ch)
    (bumped m) (λ b m', b = ok ∧ asked m ok m').
Proof.
  intros Hty Hd Hi Hnd Hk Hc mut. pose proof Hd as [[[Hdis _] _ _] _ _ _ _ _].
  set (ch := m.(m_subs).(sm_next)). set (args' := PassMerge [args; Ask.pass_check ch]).
  assert (Hd0 : drainable (bumped m)) by by apply (drainable_kept m).
  assert (Hch : args' !! checkKey = Some (VCheck ch)).
  { unfold args', PassMerge, Ask.pass_check. cbn. apply lookup_union_Some_l, lookup_singleton_eq. }
  destruct (check_idle (bumped m) ty states args' ch Hty Hd0 Hi Hnd Hk Hch) as (targets & Hts & Hr).
  exists targets. split; [exact Hts|]. intros ok. apply returns_bind.
  unfold Mach.Index. rewrite Hdis. eapply returns_mono; [exact Hr|].
  intros r m' (_ & E1 & E2 & E3 & E4 & E5 & E6 & E7). change (accepts _ _ _ _) with ok in E1.
  change (m_checks (bumped m)) with (m_checks m) in E1.
  unfold Ask.check_answer, returns. rewrite run_get_bind, E1, find_last by exact Hc.
  eexists _, _. split; [reflexivity|]. split; [done|]. by split.
Qed.

Lemma CantAdd_asked m states args :
  drainable m → idle m → m.(m_flags).(f_backoff) = false → NoDup states → states ⊆ stateNames m →
  checks_made m →
  let mut := check_of m MutationAdd states args in
  ∃ targets, targets_of m mut states = Ok targets ∧
  let ok := accepts mut (schema m) states targets in
  returns (Ask.CantAdd pq states args) m (λ b m', b = negb ok ∧ asked m ok m').
Proof.
  intros Hd Hi Hb Hnd Hk Hc mut. pose proof Hd as [[[Hdis _] _ _] _ _ _ _ _].
  destruct (check_asked m MutationAdd states args) as (targets & Hts & b & m' & Hr & -> & Ha); [done..|].
  exists targets. split; [exact Hts|]. eexists _, m'. split; [|split; [reflexivity|exact Ha]].
  unfold Ask.CantAdd.
  assert (Hmk : Ask.make_chan m = Ok (m.(m_subs).(sm_next), bumped m)) by reflexivity.
  rewrite (run_ok_bind _ _ _ _ _ Hmk). apply run_bind_ok in Hr as (r & m1 & Hr1 & Hr2).
  assert (Hcan : Api.CanAdd pq states (PassMerge [args; Ask.pass_check (sm_next (m_subs m))]) (bumped m)
    = Ok (r, m1)).
  { unfold Api.CanAdd. rewrite run_get_bind. change (disposing (bumped m)) with (disposing m).
    change (Mach.Backoff (bumped m)) with (f_backoff (m_flags m)). rewrite Hdis, Hb. exact Hr1. }
  by rewrite (run_ok_bind _ _ _ _ _ Hcan), (run_ok_bind _ _ _ _ _ Hr2).
Qed.

(** Without handlers nothing speaks against removing states. *)
Lemma CantRemove_asked m states args :
  drainable m → idle m → m.(m_flags).(f_backoff) = false → NoDup states → states ⊆ stateNames m →
  checks_made m →
  returns (Ask.CantRemove pq states args) m (λ b m', b = true ∧ asked m true m').
Proof.
  intros Hd Hi Hb Hnd Hk Hc. pose proof Hd as [[[Hdis _] _ _] _ _ _ _ _].
  destruct (check_asked m MutationRemove states args) as (targets & Hts & b & m' & Hr & -> & Ha); [done..|].
  exists true, m'. split; [|split; [reflexivity|exact Ha]].
  unfold Ask.CantRemove.
  assert (Hmk : Ask.make_chan m = Ok (m.(m_subs).(sm_next), bumped m)) by reflexivity.
  rewrite (run_ok_bind _ _ _ _ _ Hmk). apply run_bind_ok in Hr as (r & m1 & Hr1 & Hr2).
  assert (Hcan : Api.CanRemove pq states (PassMerge [args; Ask.pass_check (sm_next (m_subs m))]) (bumped m)
    = Ok (r, m1)).
  { unfold Api.CanRemove. rewrite run_get_bind. change (disposing (bumped m)) with (disposing m).
    change (Mach.Backoff (bumped m)) with (f_backoff (m_flags m)). rewrite Hdis, Hb. exact Hr1. }
  rewrite (run_ok_bind _ _ _ _ _ Hcan). exact Hr2.
Qed.

(** Target states depend on the states, the schema and the disposal. *)
Lemma targets_of_ext m m' mut called :
  m'.(m_flags) = m.(m_flags) → m'.(m_sp) = m.(m_sp) → m'.(m_st) = m.(m_st) →
  targets_of m' mut called = targets_of m mut called.
Proof. destruct m, m'; cbn. intros -> -> ->. reflexivity. Qed.

(** Past its guards, an idle machine queues and processes. *)
Lemma ev_add_idle e states args m :
  drainable m → idle m → m.(m_flags).(f_backoff) = false → 0 < m.(m_flags).(f_QueueLimit) →
  Ask.ev_add pq e states args m
  = queue_process randId done bindings autoOrder evals fuel MutationAdd states args e m.
Proof.
  intros [[[Hd _] _ _] _ _ _ [Hl _] _] (Hq & _ & _) Hb Hlim. unfold Ask.ev_add.
  assert (Ho : Api.over_limit m = false).
  { unfold Api.over_limit. rewrite Hl, Hq. apply bool_decide_eq_false_2.
    change (wrap16 (wrap32 (Z.of_nat (length (@nil Mutation))))) with 0. lia. }
  rewrite run_get_bind, Hd. unfold Mach.Backoff. by rewrite Hb, Ho.
Qed.

(** ** Properties *)

(** C31: Asking before adding is right on an idle machine without handlers and
    auto states: it answers and leaves the states the addition itself would, and
    an addition that the check rules out is not even queued. *)
Theorem AskAdd_refines e states args m :
  drainable m → idle m → m.(m_flags).(f_backoff) = false → 0 < m.(m_flags).(f_QueueLimit) →
  NoDup states → states ⊆ stateNames m → queueTick m + 1 < two64 →
  (∀ s, (schema_get (schema m) s).(st_Auto) = false) → checks_made m →
  let mut := newMutation MutationAdd (StatesToIndex (stateNames m) states) args false false None in
  ∃ targets, targets_of m mut states = Ok targets ∧
  let ok := accepts mut (schema m) states targets in
  let possible := accepts (check_of m MutationAdd states args) (schema m) states targets in
  returns (Ask.AskEvAdd pq e states args) m (λ r m',
    r = (if ok then Executed else Canceled)
    ∧ m'.(m_st) = (if ok then (setActiveStates states targets m).(m_st) else m.(m_st))
    ∧ m'.(m_sp) = m.(m_sp) ∧ idle m'
    ∧ queueTick m' = queueTick m + (if possible then 1 else 0)).
Proof.
  intros Hd Hi Hb Hlim Hnd Hk Hmax Hauto Hc mut.
  destruct (CantAdd_asked m states args) as (targets & Hts & b & m1 & Hr & -> & [A1 A2 A3 A4 A5 [A6 A7]]);
    [done..|].
  exists targets. split; [exact Hts|]. intros ok possible. fold possible in Hr. unfold Ask.AskEvAdd, returns.
  rewrite (run_ok_bind _ _ _ _ _ Hr). destruct possible eqn:Hp; cbn [negb].
  - rewrite ev_add_idle by (done || by rewrite A2).
    assert (Hn1 : stateNames m1 = stateNames m) by (unfold stateNames; by rewrite A3).
    assert (Hs1 : schema m1 = schema m) by (unfold schema; by rewrite A3).
    destruct (queue_process_returns randId done bindings autoOrder evals Horder Hnodup fuel MutationAdd
      states args e m1) as (targets1 & Hts1 & Hr1); [done|done|done|done|by rewrite Hn1|by rewrite A5| |done|].
    { intros s. by rewrite Hs1. }
    assert (targets1 = targets) as ->.
    { rewrite (targets_of_ext m) in Hts1 by done. rewrite Hn1 in Hts1.
      change (targets_of m mut states = Ok targets) in Hts. fold mut in Hts1. congruence. }
    rewrite Hn1, Hs1 in Hr1. fold mut ok in Hr1. destruct Hr1 as (r & m2 & E & E1 & E2 & E3 & E4 & E5).
    exists r, m2. split; [exact E|]. rewrite E2, E3, A3, A4. split_and!; [done| |done..|lia].
    destruct ok; [by apply set_st_ext|done].
  - assert (ok = false) as ->.
    { unfold ok, possible, accepts in *. cbn in *. apply orb_false_iff in Hp as [-> _]. done. }
    exists Canceled, m1. split; [reflexivity|]. rewrite A3, A4, A5. split_and!; try done. lia.
Qed.

(** C32: Asking before removing never removes anything: on an idle machine
    without handlers, which nobody waits on for arguments or with queries, the
    check accepts the removal, [CantRemove] says that it is impossible, and
    [AskRemove] answers [Canceled] without queueing it. *)
Theorem AskRemove_never_removes e states args m :
  drainable m → idle m → m.(m_flags).(f_backoff) = false → NoDup states → states ⊆ stateNames m →
  checks_made m →
  returns (Ask.AskEvRemove pq e states args) m (λ r m',
    r = Canceled ∧ m'.(m_st) = m.(m_st) ∧ m'.(m_sp) = m.(m_sp) ∧ queueTick m' = queueTick m
    ∧ m'.(m_checks) = m.(m_checks) ++ [(m.(m_subs).(sm_next), true)] ∧ idle m').
Proof.
  intros Hd Hi Hb Hnd Hk Hc.
  destruct (CantRemove_asked m states args) as (b & m1 & Hr & -> & [A1 A2 A3 A4 A5 [A6 A7]]); [done..|].
  unfold Ask.AskEvRemove, returns. rewrite (run_ok_bind _ _ _ _ _ Hr). cbn [negb].
  exists Canceled, m1. by split_and!.
Qed.

End checks.

(** ** Witnesses *)

Lemma abc_no_auto s : (schema_get (schema (abc_machine false [] 0)) s).(st_Auto) = false.
Proof.
  unfold schema_get. cbn -[lookup].
  change (schema (abc_machine false [] 0)) with
    ({["A" := set_Require zeroState (Some ["B"]); "B" := zeroState;
       "C" := set_Auto (set_Require zeroState (Some ["A"])) false]} : gmap string State).
  rewrite !lookup_insert, lookup_singleton. by repeat case_decide.
Qed.

Example AskAdd_refines_witness :
  ∃ r m', Ask.AskAdd (processQueue (λ _, "tx") (λ _, false) [] schema_order (λ _, HEnd true) 1)
      ["C"] ∅ (abc_machine false [] 0) = Ok (r, m') ∧ r = Canceled ∧ queueTick m' = 1.
Proof.
  destruct abc_idle as [Hd Hi].
  destruct (AskAdd_refines (λ _, "tx") (λ _, false) [] schema_order (λ _, HEnd true) 1
    schema_order_known schema_order_nodup ltac:(lia) None ["C"] ∅ (abc_machine false [] 0))
    as (targets & Ht & r & m' & Hrun & Hr & _ & _ & Hidle & Htick).
  - exact Hd.
  - exact Hi.
  - reflexivity.
  - reflexivity.
  - apply NoDup_singleton.
  - compute_decide.
  - reflexivity.
  - exact abc_no_auto.
  - constructor.
  - exists r, m'. assert (Htg : targets = ["B"]) by (vm_compute in Ht; congruence). subst targets.
    split; [exact Hrun|]. split; [rewrite Hr; reflexivity|rewrite Htick; reflexivity].
Defined.

Example AskRemove_never_removes_witness :
  ∃ r m', Ask.AskRemove (processQueue (λ _, "tx") (λ _, false) [] schema_order (λ _, HEnd true) 1)
      ["B"] ∅ (abc_machine false [] 0) = Ok (r, m') ∧ r = Canceled
    ∧ contains (activeStates m') "B" = true.
Proof.
  destruct abc_idle as [Hd Hi].
  destruct (AskRemove_never_removes (λ _, "tx") (λ _, false) [] schema_order (λ _, HEnd true) 1
    ltac:(lia) None ["B"] ∅ (abc_machine false [] 0))
    as (r & m' & Hrun & Hr & Hst & Hsp & _ & _ & _).
  - exact Hd.
  - exact Hi.
  - reflexivity.
  - apply NoDup_singleton.
  - compute_decide.
  - constructor.
  - exists r, m'. split; [exact Hrun|]. split; [exact Hr|].
    unfold activeStates. rewrite Hst. reflexivity.
Defined.
