(* ===== verification/Helpers.v ===== *)
(** * Helpers for machines ([pkg/helpers/help.go])

    Waiting ([Module Select]): a channel is closed, and a context is done, at a
    known time or never; [select] takes the first case to be ready, and a draw
    decides between cases that are ready at once.  Code that waits for other
    goroutines ([Module Sync]) takes what they do meanwhile as an argument.
    [Module Cond], [Module Loop], [Module Promises] and [Module Req] are the
    types of the file with their methods, [Module Info] the helpers on schemas,
    tags and transitions. *)

From S2P Require Import Prelude StateList SchemaDef MachTime Mutation Relations Subscriptions Machine Queue Waits Transition Run Semantics Checks.

#[local] Open Scope Z_scope.

(** ** Waiting on channels *)

Module Select.

(** [os.Getenv(am.EnvAmDebug) != "" && !IsTestRunner()] *)
Definition IsTestRunner (env : string → string) : bool := negb (bool_decide (env "AM_TEST_RUNNER" = "")).
Definition IsDebug (env : string → string) : bool :=
  negb (bool_decide (env "AM_DEBUG" = "")) && negb (IsTestRunner env).

Inductive WaitErr :=
| CtxErr
| ErrTimeout
| MachErr (err : option string).

(** [int64] arithmetic of durations. *)
Definition int64 (z : Z) : Z := (z + 2 ^ 63) `mod` two64 - 2 ^ 63.

(** The first of the times, and the cases that are ready then. *)
Definition min_time (a b : option Z) : option Z :=
  match a, b with
  | Some x, Some y => Some (Z.min x y)
  | Some x, None => Some x
  | None, b => b
  end.
Definition earliest (cases : list (option Z)) : option Z := foldr min_time None cases.
Definition ready_at (t : Z) (cases : list (option Z)) : list nat :=
  filter (λ i, cases !! i = Some (Some t)) (seq 0 (length cases)).

Section select.
Context (closes : nat → option Z) (expires : nat → option Z) (draw : nat → nat).

(** When a case can be taken, from [now] on. A closed channel is [None]. *)
Definition chan_ready (now : Z) (ch : Chan) : option Z :=
  match ch with None => Some now | Some c => Z.max now <$> closes c end.
Definition ctx_ready (now : Z) (ctx : Ctx) : option Z :=
  match ctx with None => None | Some c => Z.max now <$> expires c end.

(** The [n]-th select. *)
Definition select (n : nat) (cases : list (option Z)) : outcome (nat * Z) :=
  match earliest cases with
  | None => Block
  | Some t =>
      let l := ready_at t cases in
      match l !! (draw n `mod` length l)%nat with
      | Some i => Ok (i, t)
      | None => Block
      end
  end.

Definition ctx_err (now : Z) (ctx : Ctx) : bool :=
  match ctx with
  | Some c => match expires c with Some t => bool_decide (t ≤ now) | None => false end
  | None => false
  end.

Section waits.
Context (debug : bool).

(** [time.After(timeout)], a hundred times later when debugging. *)
Definition deadline (now timeout : Z) : Z :=
  now + Z.max 0 (if debug then int64 (100 * timeout) else timeout).

Fixpoint wait_all (n : nat) (now : Z) (ctx : Ctx) (timer : Z) (chans : list Chan)
  : outcome (option WaitErr * Z) :=
  match chans with
  | [] => Ok (None, now)
  | ch :: chans =>
      r ← select n [ctx_ready now ctx; Some (Z.max now timer); chan_ready now ch];
      match r : nat * Z with
      | (O, t) => Ok (Some CtxErr, t)
      | (S O, t) => Ok (Some ErrTimeout, t)
      | (_, t) => wait_all (S n) t ctx timer chans
      end
  end.

Definition WaitForAll (now : Z) (ctx : Ctx) (timeout : Z) (chans : list Chan)
  : outcome (option WaitErr * Z) :=
  match chans with
  | [] => Ok (None, now)
  | _ =>
      if ctx_err now ctx then Ok (Some CtxErr, now)
      else wait_all 0 now ctx (deadline now timeout) chans
  end.

(** [errs t]: what [mach.Err()] answers at the time [t]; [whenErr] is the
    channel of [mach.WhenErr(ctx)]. *)
Context (errs : Z → option string).

Fixpoint wait_err_all (n : nat) (now : Z) (ctx : Ctx) (timer : Z) (whenErr : Chan)
    (chans : list Chan) : outcome (option WaitErr * Z) :=
  match chans with
  | [] => Ok (None, now)
  | ch :: chans =>
      r ← select n [ctx_ready now ctx; chan_ready now whenErr; Some (Z.max now timer);
                    chan_ready now ch];
      match r : nat * Z with
      | (O, t) => Ok (Some CtxErr, t)
      | (S O, t) => Ok (Some (MachErr (errs t)), t)
      | (S (S O), t) => Ok (Some ErrTimeout, t)
      | (_, t) => wait_err_all (S n) t ctx timer whenErr chans
      end
  end.

Definition WaitForErrAll (now : Z) (ctx : Ctx) (timeout : Z) (whenErr : Chan) (chans : list Chan)
  : outcome (option WaitErr * Z) :=
  match chans with
  | [] => Ok (None, now)
  | _ =>
      if ctx_err now ctx then Ok (Some CtxErr, now)
      else wait_err_all 0 now ctx (deadline now timeout) whenErr chans
  end.

Definition WaitForAny (now : Z) (ctx : Ctx) (timeout : Z) (chans : list Chan)
  : outcome (option WaitErr * Z) :=
  if ctx_err now ctx then Ok (Some CtxErr, now)
  else
    r ← select 0 (ctx_ready now ctx :: Some (deadline now timeout) :: (chan_ready now <$> chans));
    match r : nat * Z with
    | (O, t) => Ok (Some CtxErr, t)
    | (S O, t) => Ok (Some ErrTimeout, t)
    | (_, t) => Ok (None, t)
    end.

(** The third case is the timer once more, and [mach.Err()] may be [nil]. *)
Definition WaitForErrAny (now : Z) (ctx : Ctx) (timeout : Z) (chans : list Chan)
  : outcome (option WaitErr * Z) :=
  if ctx_err now ctx then Ok (Some CtxErr, now)
  else
    let t := Some (deadline now timeout) in
    r ← select 0 (ctx_ready now ctx :: t :: t :: (chan_ready now <$> chans));
    match r : nat * Z with
    | (O, t) => Ok (Some CtxErr, t)
    | (S O, t) => Ok (Some ErrTimeout, t)
    | (S (S O), t) => Ok (match errs t with Some e => Some (MachErr (Some e)) | None => None end, t)
    | (_, t) => Ok (None, t)
    end.
End waits.

(** Whether the duration passed before the context was done. *)
Definition Wait (n : nat) (now : Z) (ctx : Ctx) (length : Z) : outcome (bool * Z) :=
  r ← select n [ctx_ready now ctx; Some (now + Z.max 0 length)];
  match r : nat * Z with (O, t) => Ok (false, t) | (_, t) => Ok (true, t) end.

(** The loop of [Interval], whose function takes no time: [k] ticks have come,
    [fn k] is what its next call answers. Answers the error and the calls. *)
Fixpoint interval_loop (fuel k : nat) (start now stop interval : Z) (ctx : Ctx) (fn : nat → bool)
    (calls : nat) : outcome (option WaitErr * nat) :=
  match fuel with
  | O => Block
  | S fuel =>
      r ← select k [ctx_ready now ctx; Some (Z.max now (start + Z.of_nat (S k) * interval))];
      match r : nat * Z with
      | (O, _) => Ok (Some CtxErr, calls)
      | (_, t) =>
          if bool_decide (stop < t) then Ok (None, calls)
          else if negb (fn calls) then Ok (None, S calls)
          else interval_loop fuel (S k) start t stop interval ctx fn (S calls)
      end
  end.

Definition Interval (fuel : nat) (now : Z) (ctx : Ctx) (length interval : Z) (fn : nat → bool)
  : outcome (option WaitErr * nat) :=
  if bool_decide (interval ≤ 0) then Panic "non-positive interval for NewTicker"
  else interval_loop fuel 0 now now (now + length) interval ctx fn 0.

End select.
End Select.

(** ** What [select] takes *)

Section selecting.
Context (closes : nat → option Z) (expires : nat → option Z) (draw : nat → nat).
Abbreviation select := (Select.select draw).
Abbreviation chan_ready := (Select.chan_ready closes).
Abbreviation ctx_ready := (Select.ctx_ready expires).

Lemma earliest_some cases j t :
  cases !! j = Some (Some t) → ∃ t0, Select.earliest cases = Some t0 ∧ t0 ≤ t.
Proof.
  revert j. induction cases as [|c cases IH]; intros [|j] Hj; [done..| |];
    cbn in Hj |- *; fold (Select.earliest cases).
  - injection Hj as ->. destruct (Select.earliest cases); cbn; eexists; (split; [done|lia]).
  - destruct (IH j Hj) as (t0 & -> & Hle). destruct c; cbn; eexists; (split; [done|lia]).
Qed.

Lemma earliest_in cases t : Select.earliest cases = Some t → ∃ j, cases !! j = Some (Some t).
Proof.
  revert t. induction cases as [|[c|] cases IH]; intros t; cbn; [done|..]; fold (Select.earliest cases).
  - destruct (Select.earliest cases) as [t'|] eqn:E; cbn; intros [= <-]; [|by exists O].
    destruct (Z.min_dec c t') as [->| ->]; [by exists O|].
    destruct (IH t' eq_refl) as [j Hj]. by exists (S j).
  - intros Ht. destruct (IH t Ht) as [j Hj]. by exists (S j).
Qed.

Lemma elem_of_ready_at t cases i : i ∈ Select.ready_at t cases ↔ cases !! i = Some (Some t).
Proof.
  unfold Select.ready_at. rewrite list_elem_of_filter, elem_of_seq. split; [tauto|]. intros Hi.
  split; [done|]. apply lookup_lt_Some in Hi. lia.
Qed.

(** The case taken is ready, and no other was before it. *)
Lemma select_first n cases i t :
  select n cases = Ok (i, t) →
  cases !! i = Some (Some t) ∧ ∀ j t', cases !! j = Some (Some t') → t ≤ t'.
Proof.
  unfold Select.select. destruct (Select.earliest cases) as [t0|] eqn:E; [|done].
  destruct (Select.ready_at t0 cases !! _) as [k|] eqn:Hk; [|done]. intros [= -> ->]. split.
  - apply elem_of_ready_at. by eapply list_elem_of_lookup_2.
  - intros j t' Hj. destruct (earliest_some cases j t' Hj) as (t1 & E1 & Hle). congruence.
Qed.

(** It does not wait for ever when a case will be ready. *)
Lemma select_returns n cases j t :
  cases !! j = Some (Some t) → ∃ i t', select n cases = Ok (i, t') ∧ t' ≤ t.
Proof.
  intros Hj. unfold Select.select. destruct (earliest_some cases j t Hj) as (t0 & E & Hle). rewrite E.
  destruct (earliest_in cases t0 E) as [k Hk]. apply elem_of_ready_at in Hk.
  destruct (Select.ready_at t0 cases) as [|x l] eqn:El; [by apply not_elem_of_nil in Hk|].
  destruct (lookup_lt_is_Some_2 (x :: l) (draw n `mod` length (x :: l))%nat) as [i Hi].
  { apply Nat.mod_upper_bound. done. }
  rewrite Hi. eauto.
Qed.

Lemma chan_ready_later now t ch r : now ≤ t → chan_ready now ch = Some r →
  chan_ready t ch = Some (Z.max t r).
Proof.
  intros Ht. destruct ch as [c|]; cbn; [|intros [= <-]; f_equal; lia].
  destruct (closes c); [|done]. intros [= <-]. cbn. f_equal. lia.
Qed.

Lemma ctx_ready_later now t ctx r : now ≤ t → ctx_ready now ctx = Some r →
  ctx_ready t ctx = Some (Z.max t r).
Proof.
  intros Ht. destruct ctx as [c|]; cbn; [|done]. destruct (expires c); [|done]. intros [= <-].
  cbn. f_equal. lia.
Qed.

(** ** The wait for all channels *)

(** A channel that is late from [t] on is late, or the one taken at [t] is. *)
Lemma later_chan now t t' ch chans :
  now ≤ t ≤ t' → (∀ c, chan_ready now ch = Some c → t ≤ c) →
  (∃ ch', ch' ∈ chans ∧ ∀ c, chan_ready t ch' = Some c → t' ≤ c) →
  ∃ ch', ch' ∈ ch :: chans ∧ ∀ c, chan_ready now ch' = Some c → t' ≤ c.
Proof.
  intros [Ht Ht'] Hch (ch' & Hin & Hlate). destruct (decide (t = t')) as [->|Hne].
  { exists ch. by split; [left|]. }
  exists ch'. split; [by right|]. intros c Hc. specialize (Hlate _ (chan_ready_later now t ch' c Ht Hc)). lia.
Qed.

(** What the loop of [WaitForAll] ends in, by the time [D] of its timer. *)
Lemma wait_all_spec n now ctx D chans :
  now ≤ D →
  ∃ r t, Select.wait_all closes expires draw n now ctx D chans = Ok (r, t) ∧ now ≤ t ≤ D
  ∧ match r with
    | None => ∀ ch, ch ∈ chans → ∃ c, chan_ready now ch = Some c ∧ c ≤ t
    | Some Select.ErrTimeout => t = D ∧ ∃ ch, ch ∈ chans ∧ ∀ c, chan_ready now ch = Some c → D ≤ c
    | Some Select.CtxErr => ctx_ready now ctx = Some t
        ∧ ∃ ch, ch ∈ chans ∧ ∀ c, chan_ready now ch = Some c → t ≤ c
    | Some (Select.MachErr _) => False
    end.
Proof.
  revert n now. induction chans as [|ch chans IH]; intros n now HD.
  { exists None, now. split; [done|]. split; [lia|]. intros ch Hch. by apply not_elem_of_nil in Hch. }
  cbn [Select.wait_all]. set (cases := [_; _; _]).
  destruct (select_returns n cases 1%nat (Z.max now D) eq_refl) as (i & t & Hs & Hle). rewrite Hs.
  cbn [mbind outcome_bind]. destruct (select_first n cases i t Hs) as [Hi Hmin].
  assert (Hch : ∀ c, chan_ready now ch = Some c → t ≤ c).
  { intros c Hc. apply (Hmin 2%nat). cbn. by rewrite Hc. }
  destruct i as [|[|[|i]]]; cbn in Hi; [..|done].
  - injection Hi as Hi. assert (now ≤ t) by (destruct ctx as [c|]; cbn in Hi; [destruct (expires c); cbn in Hi; simplify_eq; lia|done]).
    exists (Some Select.CtxErr), t. split; [done|]. split; [lia|]. split; [done|]. exists ch. split; [left|done].
  - injection Hi as Hi. exists (Some Select.ErrTimeout), t. split; [done|]. split; [lia|]. split; [lia|].
    exists ch. split; [left|]. intros c Hc%Hch. lia.
  - injection Hi as Hi. assert (now ≤ t) as Ht by (destruct ch as [c|]; cbn in Hi; [destruct (closes c); cbn in Hi; simplify_eq; lia|simplify_eq; lia]).
    destruct (IH (S n) t ltac:(lia)) as (r & t' & Hr & Ht' & Hm). exists r, t'. split; [done|].
    split; [lia|]. destruct r as [[| |e]|]; [..|done|].
    + destruct Hm as [Hc Hlate].
      assert (Hctx : ctx_ready now ctx = Some t').
      { destruct ctx as [c|]; [|done]. cbn in Hc |- *. pose proof (Hmin 0%nat) as Hm0.
        cbn in Hm0. destruct (expires c) as [x|]; [|done]. cbn in *. injection Hc as Hc.
        specialize (Hm0 _ eq_refl). f_equal. lia. }
      split; [done|]. apply (later_chan now t); [lia|done..].
    + destruct Hm as [-> Hlate]. split; [done|]. apply (later_chan now t); [lia|done..].
    + intros ch' [->|Hin]%elem_of_cons; [exists t; split; [done|lia]|].
      destruct (Hm ch' Hin) as (c & Hc & Hle'). 
      destruct ch' as [c'|]; cbn in *; [|exists now; split; [done|lia]].
      destruct (closes c') as [x|]; [|done]. cbn in *. simplify_eq. eexists. split; [done|]. lia.
Qed.

Lemma chan_ready_now now ch c : chan_ready now ch = Some c → now ≤ c.
Proof.
  destruct ch as [x|]; cbn; [|intros [= <-]; lia]. destruct (closes x); [|done]. intros [= <-]. lia.
Qed.

(** Only the timer's two cases are ready at its time. *)
Lemma timer_cases D c0 rest :
  c0 ≠ Some D → (∀ c, c ∈ rest → c ≠ Some D) →
  Select.ready_at D (c0 :: Some D :: Some D :: rest) = [1; 2]%nat.
Proof.
  intros H0 Hr. unfold Select.ready_at. cbn [length seq].
  rewrite filter_cons_False by (cbn; congruence).
  rewrite !filter_cons_True by done. do 2 f_equal.
  apply elem_of_nil_inv. intros i [Hi Hs]%list_elem_of_filter. apply elem_of_seq in Hs.
  destruct i as [|[|[|i]]]; [lia..|]. cbn in Hi. by apply list_elem_of_lookup_2, Hr in Hi.
Qed.

(** ** Properties *)

(** C25: [WaitForAll] always returns, by its deadline.  It returns [nil] only
    when every channel is closed by then, and does so when every channel is
    closed before the deadline and before the context is done; otherwise the
    error names what came first, and some channel was not closed before it. *)
Theorem WaitForAll_spec debug now ctx timeout chans :
  let D := Select.deadline debug now timeout in
  ∃ r t, Select.WaitForAll closes expires draw debug now ctx timeout chans = Ok (r, t)
  ∧ now ≤ t ≤ D
  ∧ match r with
    | None => ∀ ch, ch ∈ chans → ∃ c, chan_ready now ch = Some c ∧ c ≤ t
    | Some Select.ErrTimeout => t = D ∧ ∃ ch, ch ∈ chans ∧ ∀ c, chan_ready now ch = Some c → D ≤ c
    | Some Select.CtxErr => ctx_ready now ctx = Some t
        ∧ ∃ ch, ch ∈ chans ∧ ∀ c, chan_ready now ch = Some c → t ≤ c
    | Some (Select.MachErr _) => False
    end
  ∧ ((∀ ch, ch ∈ chans → ∃ c, chan_ready now ch = Some c ∧ c < D
        ∧ ∀ x, ctx_ready now ctx = Some x → c < x) → r = None).
Proof.
  intros D. assert (HD : now ≤ D) by (unfold D, Select.deadline; lia).
  destruct (wait_all_spec 0 now ctx D chans HD) as (r & t & Hr & Ht & Hm).
  destruct chans as [|ch0 chans]; [injection Hr as <- <-; exists None, now; by split_and!|].
  unfold Select.WaitForAll. destruct (Select.ctx_err expires now ctx) eqn:Hx.
  - exists (Some Select.CtxErr), now. split; [done|]. split; [lia|].
    assert (Hc : ctx_ready now ctx = Some now).
    { unfold Select.ctx_err in Hx. destruct ctx as [c|]; [|done]. cbn.
      destruct (expires c); [|done]. apply bool_decide_eq_true in Hx. cbn. f_equal. lia. }
    split; [split; [done|]; exists ch0; split; [left|apply chan_ready_now]|].
    intros Hall. destruct (Hall ch0) as (c & Hch & _ & Hlt); [left|].
    apply chan_ready_now in Hch. specialize (Hlt now Hc). lia.
  - exists r, t. split; [exact Hr|]. split; [done|]. split; [exact Hm|]. intros Hall.
    destruct r as [[| |e]|]; [..|done|done]; destruct Hm as (He & ch & Hin & Hlate);
      destruct (Hall ch Hin) as (c & Hch & HcD & Hcx); specialize (Hlate c Hch); [|lia].
    specialize (Hcx t He). lia.
Qed.

(** [WaitForErrAny] does not wait for an error of the machine: its third
    case is the timer again.  So a wait that nothing ends times out, and a draw
    decides whether it answers [ErrTimeout] or the error of the machine, which
    is [nil] (as if a channel was closed) when the machine has none. *)
Theorem WaitForErrAny_timeout debug errs now ctx timeout chans :
  let D := Select.deadline debug now timeout in
  Select.ctx_err expires now ctx = false → (∀ x, ctx_ready now ctx = Some x → D < x) →
  (∀ ch c, ch ∈ chans → chan_ready now ch = Some c → D < c) →
  Select.WaitForErrAny closes expires draw debug errs now ctx timeout chans
  = Ok (if bool_decide (draw 0%nat `mod` 2 = 0)%nat then Some Select.ErrTimeout
        else match errs D with Some e => Some (Select.MachErr (Some e)) | None => None end, D).
Proof.
  intros D Hx Hctx Hch. unfold Select.WaitForErrAny. rewrite Hx. fold D. unfold Select.select.
  assert (He : Select.earliest (ctx_ready now ctx :: Some D :: Some D :: (chan_ready now <$> chans)) = Some D).
  { destruct (earliest_some (ctx_ready now ctx :: Some D :: Some D :: (chan_ready now <$> chans)) 1 D eq_refl)
      as (t & Ht & Hle). rewrite Ht. f_equal.
    apply earliest_in in Ht as [[|[|[|j]]] Hj]; cbn in Hj.
    - injection Hj as Hj%Hctx. lia.
    - congruence.
    - congruence.
    - apply list_lookup_fmap_Some in Hj as (ch & Hc & Hj). symmetry in Hc.
      pose proof (Hch ch t (list_elem_of_lookup_2 _ _ _ Hj) Hc). lia. }
  rewrite He, timer_cases.
  - change (length [1%nat; 2%nat]) with 2%nat.
    pose proof (Nat.mod_upper_bound (draw 0%nat) 2 ltac:(lia)) as Hm.
    case_bool_decide as Hb; [by rewrite Hb|].
    assert (draw 0%nat `mod` 2 = 1)%nat as -> by lia. reflexivity.
  - intros Hc%Hctx. lia.
  - intros c (ch & -> & Hin)%list_elem_of_fmap Hc. specialize (Hch ch D Hin Hc). lia.
Qed.

End selecting.

Example WaitForErrAny_timeout_witness :
  Select.WaitForErrAny (λ _, None) (λ _, None) (λ _, 1%nat) false (λ _, None) 0 None 50 [Some 3%nat]
  = Ok (None, 50).
Proof.
  apply (WaitForErrAny_timeout (λ _, None) (λ _, None) (λ _, 1%nat) false (λ _, None) 0 None 50 [Some 3%nat]).
  - reflexivity.
  - intros x Hx. discriminate Hx.
  - intros ch c Hin Hc. apply list_elem_of_singleton in Hin as ->. discriminate Hc.
Defined.

(** ** Mutating and waiting for the result *)

Module Sync.
Section sync.
(** [others ctx ch]: what the other goroutines do while this one waits for [ch]
    to be closed ([true]) or [ctx] to be done ([false]). *)
Context (processQueue : run Machine Z) (done : nat → bool) (others : Ctx → Chan → run Machine bool).

Definition EvAddSync (ctx : Ctx) (e : option EventSrc) (states : list string)
    (args : gmap string Val) : run Machine bool :=
  res ← Ask.ev_add processQueue e states args;
  if bool_decide (res = Executed) then mret true
  else if bool_decide (res = Canceled) then mret false
  else
    ch ← Wait.WhenQueue res;
    closed ← others ctx ch;
    if closed : bool then m ← get; mret (Mach.Is m states) else mret false.

Definition Add1Sync (ctx : Ctx) (state : string) (args : gmap string Val) : run Machine bool :=
  EvAddSync ctx None [state] args.
Definition AddSync (ctx : Ctx) (states : list string) (args : gmap string Val) : run Machine bool :=
  EvAddSync ctx None states args.
Definition EvAdd1Sync (ctx : Ctx) (e : option EventSrc) (state : string) (args : gmap string Val)
  : run Machine bool := EvAddSync ctx e [state] args.

(** [ctxWhen]: the child of [ctx] that the wait is bound to. *)
Definition EvAddAsync (ctx ctxWhen : Ctx) (e : option EventSrc) (waitState : string)
    (addStates : list string) (args : gmap string Val) : run Machine bool :=
  m ← get;
  when ← Wait.WhenTicks done processQueue waitState (NextActiveIn (Mach.Tick m waitState)) ctxWhen;
  res ← Ask.ev_add processQueue e addStates args;
  if bool_decide (res = Canceled) then mret false else others ctx when.

Definition Add1Async (ctx ctxWhen : Ctx) (waitState addState : string) (args : gmap string Val)
  : run Machine bool := EvAddAsync ctx ctxWhen None waitState [addState] args.
Definition AddAsync (ctx ctxWhen : Ctx) (waitState : string) (addStates : list string)
    (args : gmap string Val) : run Machine bool :=
  EvAddAsync ctx ctxWhen None waitState addStates args.
Definition EvAdd1Async (ctx ctxWhen : Ctx) (e : option EventSrc) (waitState addState : string)
    (args : gmap string Val) : run Machine bool :=
  EvAddAsync ctx ctxWhen e waitState [addState] args.

(** The last wait answers [true] whether the states are gone or not. *)
Definition EvRemoveSync (ctx : Ctx) (e : option EventSrc) (states : list string)
    (args : gmap string Val) : run Machine bool :=
  res ← Ask.ev_remove processQueue e states args;
  if bool_decide (res = Executed) then mret true
  else if bool_decide (res = Canceled) then mret false
  else
    ch ← Wait.WhenQueue res;
    closed ← others ctx ch;
    if closed : bool then
      m ← get; gone ← lift (Mach.Not m states);
      if gone : bool then mret true else mret true
    else mret false.

Definition Remove1Sync (ctx : Ctx) (state : string) (args : gmap string Val) : run Machine bool :=
  EvRemoveSync ctx None [state] args.
Definition RemoveSync (ctx : Ctx) (states : list string) (args : gmap string Val) : run Machine bool :=
  EvRemoveSync ctx None states args.
Definition EvRemove1Sync (ctx : Ctx) (e : option EventSrc) (state : string) (args : gmap string Val)
  : run Machine bool := EvRemoveSync ctx e [state] args.

End sync.
End Sync.

(** ** Conditions *)

Module Cond.

(** The fields of [Cond]; [None] is a [nil] one. *)
Record Cond := mkCond {
  cond_Is : option (list string);
  cond_Any : option (list (list string));
  cond_Any1 : option (list string);
  cond_Not : option (list string);
  cond_Clock : option (gmap string Z);
}.

Definition or_nil {A} (l : option (list A)) : list A := default [] l.

(** [len(c.Any1) > 0] is said of the slices. *)
Definition Check (c : Cond) (mach : option Machine) : bool :=
  match mach with
  | None => false
  | Some m =>
      if negb (Mach.Is m (or_nil c.(cond_Is))) then false
      else if Mach.Any1 m (or_nil c.(cond_Not)) then false
      else if negb (bool_decide (or_nil c.(cond_Any1) = [])) && negb (Mach.Any1 m (or_nil c.(cond_Any1)))
      then false
      else if negb (bool_decide (or_nil c.(cond_Any) = [])) && negb (Mach.Any m (or_nil c.(cond_Any)))
      then false
      else Mach.WasClock m (default ∅ c.(cond_Clock))
  end.

Definition is_nil {A} (o : option A) : bool := match o with None => true | Some _ => false end.

(** [Any] is not looked at. *)
Definition IsEmpty (c : Cond) : bool :=
  is_nil c.(cond_Is) && is_nil c.(cond_Any1) && is_nil c.(cond_Not) && is_nil c.(cond_Clock).

(** When a machine that is not disposing meets a condition. *)
Definition met (c : Cond) (m : Machine) : Prop :=
  (∀ s, s ∈ or_nil c.(cond_Is) → s ∈ activeStates m)
  ∧ (∀ s, s ∈ or_nil c.(cond_Not) → s ∉ activeStates m)
  ∧ (or_nil c.(cond_Any1) = [] ∨ ∃ s, s ∈ or_nil c.(cond_Any1) ∧ s ∈ activeStates m)
  ∧ (or_nil c.(cond_Any) = [] ∨ ∃ g, g ∈ or_nil c.(cond_Any) ∧ ∀ s, s ∈ g → s ∈ activeStates m)
  ∧ ∀ s v, default ∅ c.(cond_Clock) !! s = Some v → v ≤ tick_of (clock m) s.

End Cond.

Lemma Is_true_iff m l : disposing m = false → activeStates m ⊆ stateNames m →
  Mach.Is m l = true ↔ ∀ s, s ∈ l → s ∈ activeStates m.
Proof.
  intros Hd Hsub. unfold Mach.Is, Mach.is_. rewrite Hd. cbn [negb andb]. rewrite forallb_forall.
  split; intros H s Hs.
  - apply list_elem_of_In, H, andb_true_iff in Hs as [_ Hs]. by apply contains_true.
  - apply list_elem_of_In, H in Hs. apply andb_true_iff. rewrite !contains_true. auto.
Qed.

Lemma Any_true_iff m gs : disposing m = false → activeStates m ⊆ stateNames m →
  Mach.Any m gs = true ↔ ∃ g, g ∈ gs ∧ ∀ s, s ∈ g → s ∈ activeStates m.
Proof.
  intros Hd Hsub. unfold Mach.Any. rewrite existsb_exists. setoid_rewrite <- list_elem_of_In.
  split; intros (g & Hg & H); exists g; (split; [done|]); by apply Is_true_iff.
Qed.

Lemma Any1_true_iff m l : disposing m = false → activeStates m ⊆ stateNames m →
  Mach.Any1 m l = true ↔ ∃ s, s ∈ l ∧ s ∈ activeStates m.
Proof.
  intros Hd Hsub. unfold Mach.Any1. rewrite existsb_exists. setoid_rewrite <- list_elem_of_In.
  split; intros (s & Hs & H); exists s; (split; [done|]); unfold Mach.Is1 in *.
  - apply (proj1 (Is_true_iff m [s] Hd Hsub) H). left.
  - apply (Is_true_iff m [s] Hd Hsub). by intros ? ->%list_elem_of_singleton.
Qed.

Lemma WasClock_true_iff m c : disposing m = false →
  Mach.WasClock m c = true ↔ ∀ s v, c !! s = Some v → v ≤ tick_of (clock m) s.
Proof.
  intros Hd. unfold Mach.WasClock. rewrite Hd. cbn [negb andb]. rewrite forallb_forall. split.
  - intros H s v Hc. apply elem_of_map_to_list, list_elem_of_In, H in Hc. by apply bool_decide_eq_true in Hc.
  - intros H [s v] Hin. apply list_elem_of_In, elem_of_map_to_list, H in Hin. by apply bool_decide_eq_true.
Qed.

(** A guard of [Check]: nothing asked, or the answer. *)
Lemma guard_iff {A} `{EqDecision A} (l : list A) b :
  negb (bool_decide (l = [])) && negb b = false ↔ l = [] ∨ b = true.
Proof. case_bool_decide; destruct b; cbn; naive_solver. Qed.

(** [Cond.Check] holds exactly of the machines that meet each part of the
    condition, parts that are not given asking for nothing. *)
Theorem Check_met c m :
  disposing m = false → activeStates m ⊆ stateNames m →
  Cond.Check c (Some m) = true ↔ Cond.met c m.
Proof.
  intros Hd Hsub. unfold Cond.Check, Cond.met.
  rewrite <- (Is_true_iff m) by done. rewrite <- (Any_true_iff m) by done.
  rewrite <- (Any1_true_iff m) by done. rewrite <- WasClock_true_iff by done.
  assert (Hnot : (∀ s, s ∈ Cond.or_nil (Cond.cond_Not c) → s ∉ activeStates m)
    ↔ Mach.Any1 m (Cond.or_nil (Cond.cond_Not c)) = false).
  { rewrite <- not_true_iff_false, Any1_true_iff by done. naive_solver. }
  rewrite Hnot, <- !guard_iff.
  destruct (Mach.Is m _), (Mach.Any1 m (Cond.or_nil (Cond.cond_Not c))),
    (negb (bool_decide (Cond.or_nil (Cond.cond_Any1 c) = [])) && _),
    (negb (bool_decide (Cond.or_nil (Cond.cond_Any c) = [])) && _); cbn; naive_solver.
Qed.

Section properties.
Context (randId : Machine → string) (done : nat → bool) (bindings : list Binding).
Context (autoOrder : Machine → list string) (evals : string → prog) (fuel : nat).
Context (others : Ctx → Chan → run Machine bool).

Hypothesis Horder : ∀ m s, s ∈ autoOrder m ↔ is_Some (schema m !! s).
Hypothesis Hnodup : ∀ m, NoDup (autoOrder m).
Hypothesis Hfuel : (1 ≤ fuel)%nat.

Abbreviation pq := (processQueue randId done bindings autoOrder evals fuel).

(** On an idle machine without handlers [AddSync] waits for nobody, and
    answers whether the states were accepted; when it says so, they are active. *)
Theorem EvAddSync_idle ctx e states args m :
  drainable m → idle m → m.(m_flags).(f_backoff) = false → 0 < m.(m_flags).(f_QueueLimit) →
  NoDup states → states ⊆ stateNames m → queueTick m + 1 < two64 →
  (∀ s, (schema_get (schema m) s).(st_Auto) = false) →
  let mut := newMutation MutationAdd (StatesToIndex (stateNames m) states) args false false None in
  ∃ targets, targets_of m mut states = Ok targets ∧
  returns (Sync.EvAddSync pq others ctx e states args) m (λ b m',
    b = accepts mut (schema m) states targets
    ∧ m'.(m_st) = (if b then (setActiveStates states targets m).(m_st) else m.(m_st))
    ∧ (b = true → ∀ s, s ∈ states → s ∈ activeStates m')).
Proof.
  intros Hd Hi Hb Hlim Hnd Hk Hmax Hauto mut.
  destruct (queue_process_returns randId done bindings autoOrder evals Horder Hnodup fuel MutationAdd
    states args e m) as (targets & Hts & r & m' & Hr & -> & Hst & _); [done..|].
  exists targets. split; [exact Hts|]. unfold Sync.EvAddSync, returns.
  assert (He : Ask.ev_add pq e states args m
    = Ok (if accepts mut (schema m) states targets then Executed else Canceled, m')).
  { rewrite ev_add_idle by done. exact Hr. }
  rewrite (run_ok_bind _ _ _ _ _ He). fold mut in Hst. exists (accepts mut (schema m) states targets), m'.
  split; [by destruct (accepts mut _ _ _)|]. split; [done|]. split; [done|]. intros Hacc s Hs.
  unfold activeStates. rewrite Hst, Hacc. fold (activeStates (setActiveStates states targets m)).
  rewrite setActiveStates_active by apply Hd. unfold accepts in Hacc. cbn in Hacc.
  rewrite orb_false_r in Hacc. apply bool_decide_eq_true in Hacc.
  destruct (decide (s ∈ targets)) as [|Hno]; [done|]. exfalso.
  assert (Hin : s ∈ StatesDiff states targets) by by apply elem_of_StatesDiff.
  rewrite Hacc in Hin. by apply not_elem_of_nil in Hin.
Qed.

(** While the queue is being processed by another goroutine, [RemoveSync]
    answers [true] once its wait for the queue ends, whatever states are left. *)
Lemma EvRemoveSync_queued ctx e states args m res m1 ch m2 m3 gone :
  Ask.ev_remove pq e states args m = Ok (res, m1) → res ≠ Executed → res ≠ Canceled →
  Wait.WhenQueue res m1 = Ok (ch, m2) → others ctx ch m2 = Ok (true, m3) →
  Mach.Not m3 states = Ok gone →
  Sync.EvRemoveSync pq others ctx e states args m = Ok (true, m3).
Proof.
  intros H1 Hex Hca H2 H3 H4. unfold Sync.EvRemoveSync.
  rewrite (run_ok_bind _ _ _ _ _ H1), !bool_decide_eq_false_2 by done.
  rewrite (run_ok_bind _ _ _ _ _ H2), (run_ok_bind _ _ _ _ _ H3), run_get_bind.
  rewrite (run_lift_bind _ _ _ _ H4). by destruct gone.
Qed.

End properties.

(** A mutation that is queued already, and not run yet, is reported as done:
    [AddSync] of ["C"] answers [true] and ["C"] is not active. *)
Example AddSync_duplicate :
  let pq := processQueue (λ _, "tx") (λ _, false) [] schema_order (λ _, HEnd true) 1 in
  let m := set_processing true true
             (abc_machine false [set_queue (newMutation MutationAdd [2] ∅ false false None) 1 1 2 0 (Some ["C"])] 1) in
  match Sync.AddSync pq (λ _ _, block) None ["C"] ∅ m with
  | Ok (b, m') => b && negb (Mach.Is1 m' "C")
  | _ => false
  end = true.
Proof. vm_compute. reflexivity. Qed.

Example Check_met_witness :
  Cond.Check (Cond.mkCond (Some ["B"]) None (Some ["A"; "B"]) (Some ["C"]) None)
    (Some (abc_machine false [] 0)) = true.
Proof.
  apply (Check_met (Cond.mkCond (Some ["B"]) None (Some ["A"; "B"]) (Some ["C"]) None) (abc_machine false [] 0)).
  - reflexivity.
  - compute_decide.
  - unfold Cond.met. cbn. split_and!.
    + intros s ->%list_elem_of_singleton. left.
    + intros s Hs Ha. apply list_elem_of_singleton in Hs. apply list_elem_of_singleton in Ha. congruence.
    + right. exists "B". split; [right; left|left].
    + by left.
    + intros s v Hv. rewrite lookup_empty in Hv. discriminate Hv.
Defined.

Example EvAddSync_idle_witness :
  ∃ m', Sync.AddSync (processQueue (λ _, "tx") (λ _, false) [] schema_order (λ _, HEnd true) 1)
      (λ _ _, block) None ["A"] ∅ (abc_machine false [] 0) = Ok (true, m') ∧ "A" ∈ activeStates m'.
Proof.
  destruct abc_idle as [Hd Hi].
  destruct (EvAddSync_idle (λ _, "tx") (λ _, false) [] schema_order (λ _, HEnd true) 1 (λ _ _, block)
    schema_order_known schema_order_nodup ltac:(lia) None None ["A"] ∅ (abc_machine false [] 0))
    as (targets & Ht & b & m' & Hrun & Hb & _ & Hact).
  - exact Hd.
  - exact Hi.
  - reflexivity.
  - reflexivity.
  - apply NoDup_singleton.
  - compute_decide.
  - reflexivity.
  - exact abc_no_auto.
  - assert (Htg : targets_of (abc_machine false [] 0)
      (newMutation MutationAdd (StatesToIndex (stateNames (abc_machine false [] 0)) ["A"]) ∅ false false None)
      ["A"] = Ok ["A"; "B"]) by (vm_compute; reflexivity).
    rewrite Htg in Ht. injection Ht as <-.
    assert (Hok : b = true) by (rewrite Hb; vm_compute; reflexivity).
    exists m'. rewrite Hok in Hrun. split; [exact Hrun|]. apply (Hact Hok). left.
Defined.
