(* ===== verification/Requests.v ===== *)
(** * Requests, promises, loops, schema helpers ([pkg/helpers/help.go])

    [Module Req]: mutations that are retried by a policy; the executor of the
    policy is third-party code and an argument.  [Module Promises]: mutations
    made once.  [Module Loop]: the guard of a loop bound to a state, on a
    machine whose time is compared with a threshold.  [Module Kit]: helpers on
    lists of states, tags, schemas and transitions. *)

From S2P Require Import Prelude StateList SchemaDef MachTime Mutation Relations Subscriptions Machine Queue Waits Transition Run Semantics Lifecycle Checks.

#[local] Open Scope Z_scope.

(** ** Requests *)

Module Req.

Definition ErrCanceled : string := "transition canceled".

Definition ResultToErr (result : Z) : option string :=
  if bool_decide (result = Canceled) then Some ErrCanceled else None.

(** The machine is the state the request runs on. Durations are nanoseconds. *)
Record MutRequest := mkMutRequest {
  rq_MutType : MutationType;
  rq_States : list string;
  rq_Args : gmap string Val;
  rq_Event : option EventSrc;
  rq_PolicyRetries : Z;
  rq_PolicyDelay : Z;
  rq_PolicyBackoff : Z;
  rq_PolicyMaxDuration : Z;
}.

Definition NewMutRequest (mutType : MutationType) (states : list string) (args : gmap string Val)
  : MutRequest :=
  mkMutRequest mutType states args None 10 (100 * millisecond) (5 * second) (5 * second).

Definition NewReqAdd (states : list string) (args : gmap string Val) : MutRequest :=
  NewMutRequest MutationAdd states args.
Definition NewReqAdd1 (state : string) (args : gmap string Val) : MutRequest := NewReqAdd [state] args.
Definition NewReqRemove (states : list string) (args : gmap string Val) : MutRequest :=
  NewMutRequest MutationRemove states args.
Definition NewReqRemove1 (state : string) (args : gmap string Val) : MutRequest :=
  NewReqRemove [state] args.

(** The policy is copied, the event is not. *)
Definition Clone (r : MutRequest) (mutType : MutationType) (states : list string)
    (args : gmap string Val) : MutRequest :=
  mkMutRequest mutType states args None r.(rq_PolicyRetries) r.(rq_PolicyDelay) r.(rq_PolicyBackoff)
    r.(rq_PolicyMaxDuration).

Definition Retries (retries : Z) (r : MutRequest) : MutRequest :=
  mkMutRequest r.(rq_MutType) r.(rq_States) r.(rq_Args) r.(rq_Event) retries r.(rq_PolicyDelay)
    r.(rq_PolicyBackoff) r.(rq_PolicyMaxDuration).
Definition Backoff (backoff : Z) (r : MutRequest) : MutRequest :=
  mkMutRequest r.(rq_MutType) r.(rq_States) r.(rq_Args) r.(rq_Event) r.(rq_PolicyRetries)
    r.(rq_PolicyDelay) backoff r.(rq_PolicyMaxDuration).
Definition MaxDuration (maxDuration : Z) (r : MutRequest) : MutRequest :=
  mkMutRequest r.(rq_MutType) r.(rq_States) r.(rq_Args) r.(rq_Event) r.(rq_PolicyRetries)
    r.(rq_PolicyDelay) r.(rq_PolicyBackoff) maxDuration.
Definition Delay (delay : Z) (r : MutRequest) : MutRequest :=
  mkMutRequest r.(rq_MutType) r.(rq_States) r.(rq_Args) r.(rq_Event) r.(rq_PolicyRetries) delay
    r.(rq_PolicyBackoff) r.(rq_PolicyMaxDuration).

(** What [Run] asks the retry builder for. *)
Inductive Pause := WithBackoff (delay maxDelay : Z) | WithDelay (delay : Z).
Record Policy := mkPolicy { po_MaxDuration : Z; po_MaxRetries : Z; po_Pause : Pause }.

Definition policy (r : MutRequest) : Policy :=
  mkPolicy r.(rq_PolicyMaxDuration) r.(rq_PolicyRetries)
    (if negb (bool_decide (r.(rq_PolicyBackoff) = 0))
     then WithBackoff r.(rq_PolicyDelay) r.(rq_PolicyBackoff)
     else WithDelay r.(rq_PolicyDelay)).

Section run.
Context (processQueue : run Machine Z).

Definition request_get (r : MutRequest) : run Machine (Z * option string) :=
  res ← (if bool_decide (r.(rq_MutType) = MutationAdd)
         then Ask.ev_add processQueue r.(rq_Event) r.(rq_States) r.(rq_Args)
         else Ask.ev_remove processQueue r.(rq_Event) r.(rq_States) r.(rq_Args));
  mret (res, ResultToErr res).

(** The executor of [failsafe-go]: runs a function by a policy. *)
Context (executor : Policy → run Machine (Z * option string) → run Machine (Z * option string)).

Definition Run (r : MutRequest) : run Machine (Z * option string) :=
  executor (policy r) (request_get r).
End run.
End Req.

(** ** Promises *)

Module Promises.
Section promise.
Context {W : Type}.

(** The flag [called], over the world the mutation changes. *)
Record World := mkWorld { wo_called : bool; wo_mach : W }.

Definition on_mach {A} (e : run W A) : run World A := λ w,
  '(a, x) ← e w.(wo_mach); Ok (a, mkWorld w.(wo_called) x).

Definition Again (mut : run W Z) : run World Z := on_mach mut.

(** [CompareAndSwap(false, true)] *)
Definition Now (mut : run W Z) : run World Z :=
  w ← get;
  if w.(wo_called) then mret Canceled
  else modify (λ w, mkWorld true w.(wo_mach)) ;; on_mach mut.

Definition Called (w : World) : bool := w.(wo_called).

Fixpoint nows (n : nat) (mut : run W Z) : run World () :=
  match n with O => mret () | S n => Now mut ;; nows n mut end.

Lemma nows_called n mut x : nows n mut (mkWorld true x) = Ok ((), mkWorld true x).
Proof. induction n as [|n IH]; [done|]. exact IH. Qed.

(** However often it is called, the mutation runs once. *)
Lemma nows_once n mut x r y :
  mut x = Ok (r, y) → nows (S n) mut (mkWorld false x) = Ok ((), mkWorld true y).
Proof.
  intros Hm. cbn [nows]. rewrite (run_ok_bind (Now mut) r _ (mkWorld true y)); [apply nows_called|].
  unfold Now, on_mach. rewrite run_get_bind. cbn [wo_called]. rewrite run_modify_bind. cbn [wo_mach]. by rewrite Hm.
Qed.
End promise.

Section make.
Context (processQueue : run Machine Z).
Definition PromiseAdd (states : list string) (args : gmap string Val) : run Machine Z :=
  Api.Add processQueue states args.
Definition PromiseEvAdd (e : option EventSrc) (states : list string) (args : gmap string Val) :=
  Ask.ev_add processQueue e states args.
Definition PromiseAdd1 (state : string) (args : gmap string Val) : run Machine Z :=
  Api.Add1 processQueue state args.
Definition PromiseEvAdd1 (e : option EventSrc) (state : string) (args : gmap string Val) :=
  Ask.ev_add processQueue e [state] args.
Definition PromiseRemove (states : list string) (args : gmap string Val) : run Machine Z :=
  Api.Remove processQueue states args.
Definition PromiseEvRemove (e : option EventSrc) (states : list string) (args : gmap string Val) :=
  Ask.ev_remove processQueue e states args.
Definition PromiseRemove1 (state : string) (args : gmap string Val) : run Machine Z :=
  Api.Remove1 processQueue state args.
Definition PromiseEvRemove1 (e : option EventSrc) (state : string) (args : gmap string Val) :=
  Ask.ev_remove processQueue e [state] args.
End make.
End Promises.

(** ** Loops *)

Module Loop.

(** Times are nanoseconds since 1970; [sl_bound]: the machine is set.  The
    answer of the optional check is an argument of [Ok_]. *)
Record StateLoop := mkStateLoop {
  sl_ResetInterval : Z;
  sl_Threshold : Z;
  sl_lastMTime : Z;
  sl_lastHTime : Z;
  sl_ended : bool;
  sl_loopState : string;
  sl_ctxStates : list string;
  sl_bound : bool;
  sl_startMTime : Z;
  sl_startHTime : Z;
}.

Definition set_ended (l : StateLoop) : StateLoop :=
  mkStateLoop l.(sl_ResetInterval) l.(sl_Threshold) l.(sl_lastMTime) l.(sl_lastHTime) true
    l.(sl_loopState) l.(sl_ctxStates) l.(sl_bound) l.(sl_startMTime) l.(sl_startHTime).
Definition set_last (mtime htime : Z) (l : StateLoop) : StateLoop :=
  mkStateLoop l.(sl_ResetInterval) l.(sl_Threshold) mtime htime l.(sl_ended)
    l.(sl_loopState) l.(sl_ctxStates) l.(sl_bound) l.(sl_startMTime) l.(sl_startHTime).

Definition String (l : StateLoop) (id : string) : string :=
  "StateLoop: " +:+ (if l.(sl_ended) then "ended" else "ok") +:+ " for " +:+ id +:+ "/" +:+ l.(sl_loopState).

(** The log entry needs the machine. *)
Definition Break (l : StateLoop) : outcome StateLoop :=
  if l.(sl_bound) then Ok (set_ended l) else Panic "invalid memory address or nil pointer dereference".

Definition ctx_sum (l : StateLoop) (m : Machine) : outcome Z :=
  MachTime.Time.Sum (Mach.Time m (Some l.(sl_ctxStates))) None.

Definition Sum (l : StateLoop) (m : Machine) : outcome Z :=
  if l.(sl_bound) then ctx_sum l m else Panic "invalid memory address or nil pointer dereference".

Definition int64 (z : Z) : Z := (z + 2 ^ 63) `mod` two64 - 2 ^ 63.

Section ok.
Context (processQueue : run Machine Z).

(** [now]: the time of the call; [ctxErr]: the context has ended; [check]: what
    the optional check answers. *)
Definition Ok_ (now : Z) (ctxErr : bool) (check : option bool) (l : StateLoop)
  : run Machine (bool * StateLoop) :=
  m ← get;
  if l.(sl_ended) then mret (false, l)
  else if ctxErr then mret (false, set_ended l)
  else
    off ← lift (Mach.Not1 m l.(sl_loopState));
    if off : bool then
      Api.AddErr processQueue (Some (GoError ("loop: state ctx expired for " +:+ m.(m_flags).(f_id)
        +:+ "/" +:+ l.(sl_loopState)))) ∅ ;;
      mret (false, set_ended l)
    else if match check with Some b => negb b | None => false end then mret (false, set_ended l)
    else
      m ← get;
      sum ← lift (ctx_sum l m);
      if bool_decide (l.(sl_lastHTime) = 0)
         || bool_decide (l.(sl_ResetInterval) < now - l.(sl_lastHTime))
      then mret (true, set_last sum now l)
      else if bool_decide (l.(sl_Threshold) < int64 sum) then
        Api.AddErr processQueue (Some (GoError ("loop: threshold exceeded for " +:+ m.(m_flags).(f_id)
          +:+ "/" +:+ l.(sl_loopState)))) ∅ ;;
        mret (false, set_ended l)
      else mret (true, set_last sum l.(sl_lastHTime) l).

Definition Ended (l : StateLoop) : bool := l.(sl_ended).
End ok.

(** [order]: the order the resolver ranges over the schema in. *)
Definition NewStateLoop (order : list string) (now : Z) (loopState : string) (m : Machine)
  : outcome StateLoop :=
  if negb (Mach.Has1 m loopState) then Ok (mkStateLoop 0 0 0 0 true "" [] false 0 0)
  else
    let rr := mkResolver (schema m) (activeStates m) (disposing m) MutationAdd [] (stateNames m) [] [] in
    let inbound := default [] (InboundRelationsOf order rr loopState) in
    let ctxStates := loopState :: elems (schema_get (schema m) loopState).(st_Require)
      ++ slicesFilter inbound (λ name,
           negb (bool_decide (default [] (RelationsBetween rr name loopState) = []))) in
    start ← MachTime.Time.Sum (Mach.Time m (Some ctxStates)) None;
    Ok (mkStateLoop second 500 0 0 false loopState ctxStates true start now).

Section properties.
Context (processQueue : run Machine Z).

(** A loop that has ended does not go on. *)
Lemma ended_stops now ctxErr check l m :
  l.(sl_ended) = true → Ok_ processQueue now ctxErr check l m = Ok ((false, l), m).
Proof. intros He. unfold Ok_. by rewrite run_get_bind, He. Qed.

(** Going on: the machine is untouched, and within a window the time of the
    context states is within the threshold. *)
Lemma Ok_true now ctxErr check l l' m m' :
  Ok_ processQueue now ctxErr check l m = Ok ((true, l'), m') →
  m' = m ∧ l.(sl_ended) = false ∧ ctxErr = false ∧ check ≠ Some false
  ∧ Mach.Not1 m l.(sl_loopState) = Ok false
  ∧ ∃ sum, ctx_sum l m = Ok sum ∧
    (l' = set_last sum now l ∧ (l.(sl_lastHTime) = 0 ∨ l.(sl_ResetInterval) < now - l.(sl_lastHTime))
     ∨ l' = set_last sum l.(sl_lastHTime) l ∧ int64 sum ≤ l.(sl_Threshold)).
Proof.
  unfold Ok_. rewrite run_get_bind. destruct (sl_ended l); [done|]. destruct ctxErr; [done|].
  intros (off & m1 & Ho & H)%run_bind_ok. unfold lift in Ho.
  destruct (Mach.Not1 m (sl_loopState l)) as [b| |] eqn:Hoff; [|done..]. injection Ho as -> <-.
  destruct off.
  { apply run_bind_ok in H as (? & ? & _ & H). discriminate H. }
  destruct check as [[]|]; cbn [negb] in H; [|done|]; rewrite run_get_bind in H;
    apply run_bind_ok in H as (sum & m2 & Hs & H); unfold lift in Hs;
    destruct (ctx_sum l m) as [v| |]; [|done|done| |done|done]; injection Hs as -> <-;
    (destruct (bool_decide (sl_lastHTime l = 0) || _) eqn:Hw;
     [injection H as <- <-; apply orb_true_iff in Hw; rewrite !bool_decide_eq_true in Hw;
      split_and!; [done..|]; exists sum; split; [done|by left]
     |destruct (bool_decide (sl_Threshold l < int64 sum)) eqn:Ht;
      [apply run_bind_ok in H as (? & ? & _ & H); discriminate H
      |injection H as <- <-; apply bool_decide_eq_false in Ht; split_and!; [done..|]; exists sum;
       split; [done|right; split; [done|lia]]]]).
Qed.

(** The threshold is not about the ticks within the window: a loop without a
    single tick since its last call is ended when the whole time of its context
    states is over the threshold. *)
Lemma Ok_no_tick now l m sum :
  l.(sl_ended) = false → Mach.Not1 m l.(sl_loopState) = Ok false → ctx_sum l m = Ok sum →
  l.(sl_lastMTime) = sum → l.(sl_lastHTime) ≠ 0 → now - l.(sl_lastHTime) ≤ l.(sl_ResetInterval) →
  l.(sl_Threshold) < int64 sum → 
  Ok_ processQueue now false None l m
  = (Api.AddErr processQueue (Some (GoError ("loop: threshold exceeded for " +:+ m.(m_flags).(f_id)
       +:+ "/" +:+ l.(sl_loopState)))) ∅ ;; mret (false, set_ended l)) m.
Proof.
  intros He Hn Hs _ Hh Hw Ht. unfold Ok_. rewrite run_get_bind, He, (run_lift_bind _ _ _ _ Hn).
  rewrite run_get_bind, (run_lift_bind _ _ _ _ Hs), !bool_decide_eq_false_2 by lia. cbn [orb].
  by rewrite bool_decide_eq_true_2 by lia.
Qed.
End properties.
End Loop.

(** ** Helpers on schemas, tags and transitions *)

Module Kit.

(** An unknown name has the zero state. *)
Definition IsMulti (m : Machine) (state : string) : bool := (schema_get (Mach.Schema m) state).(st_Multi).

(** [int((u + 1) / 2)], where the sum wraps. *)
Definition Activations (u : Z) : Z := wrap64 (u + 1) / 2.

Definition Implements (statesChecked statesNeeded : list string) : option string :=
  match slicesFilter statesNeeded (λ s, negb (contains statesChecked s)) with
  | s :: _ => Some ("missing state: " +:+ s)
  | [] => None
  end.

Definition SchemaImplements (order : list string) (schema : gmap string State) (states : list string)
  : option string := Implements (Schema_Names order schema) states.

(** The wait channels of a group of machines; the error names the first one
    without the state, before any channel is made. *)
Definition GroupWhen1 (done : nat → bool) (machs : list Machine) (state : string) (ctx : Ctx)
  : outcome (string + list (Chan * Machine)) :=
  match filter (λ m, Mach.Has1 m state = false) machs with
  | m :: _ => Ok (inl ("state missing: " +:+ state +:+ " in machine " +:+ m.(m_flags).(f_id)))
  | [] => inr <$> mapM (Wait.When1 done state ctx) machs
  end.

(** A final handler that removes its multi state. *)
Definition RemoveMulti (state : string) : prog := HCall (CallRemove [state] ∅) (λ _, HEnd true).

Section transition_states.
Context (before after : option (list Z)).

(** [time != nil && IsActiveTick(time.Tick(i))] *)
Definition active_at (t : option (list Z)) (i : Z) : outcome bool :=
  match t with None => Ok false | Some t => IsActiveTick <$> MachTime.Time.Tick t i end.

Definition tick_at (t : option (list Z)) (i : Z) : outcome Z := MachTime.Time.Tick (default [] t) i.

Fixpoint states_loop (i : Z) (index added removed : list string)
  : outcome (list string * list string) :=
  match index with
  | [] => Ok (added, removed)
  | name :: index =>
      b ← active_at before i;
      a ← active_at after i;
      if (b : bool) && negb (a : bool) then states_loop (i + 1) index added (removed ++ [name])
      else if negb b && a then states_loop (i + 1) index (added ++ [name]) removed
      else match before with
           | None => states_loop (i + 1) index added removed
           | Some bt =>
               x ← MachTime.Time.Tick bt i;
               y ← tick_at after i;
               states_loop (i + 1) index
                 (if negb (bool_decide (x = y)) then added ++ [name] else added) removed
           end
  end.

Definition named_states (l : list string) : list string :=
  slicesFilter l (λ s, negb (bool_decide (s = ""))).

(** [steps]: the transition's log of steps. *)
Definition GetTransitionStates (steps : list Step) (index : list string)
  : outcome (list string * list string * list string) :=
  r ← states_loop 0 index [] [];
  touched ← mapM (λ s, f ← Step_GetFromState s index; t ← Step_GetToState s index;
                         Ok (named_states [f; t])) steps;
  Ok (r, slicesUniq (mjoin touched)).
End transition_states.

(** [nil] groups are never in a state, empty ones always. *)
Definition MachGroup_Is1 (g : option (list Machine)) (state : string) : outcome bool :=
  match g with
  | None => Ok false
  | Some l =>
      foldr (λ m rest, off ← Mach.Not1 m state; if off : bool then Ok false else rest) (Ok true) l
  end.

(** ** Tags *)

Fixpoint TagValue (tags : list string) (key : string) : string :=
  match tags with
  | [] => ""
  | t :: tags =>
      if bool_decide (t = key) then key
      else
        let p := key +:+ ":" in
        if negb (HasPrefix t p) then TagValue tags key else TrimPrefix t p
  end.

(** [strconv.Atoi] without its error: the value of the digits, the nearest
    [int] when they are out of range, 0 for anything else. *)
Definition digit (c : Ascii.ascii) : option Z :=
  let n := Z.of_nat (Ascii.nat_of_ascii c) in
  if bool_decide (48 ≤ n ≤ 57) then Some (n - 48) else None.
Fixpoint digits (acc : Z) (s : string) : option Z :=
  match s with
  | EmptyString => Some acc
  | String.String c s => d ← digit c; digits (10 * acc + d) s
  end.
Definition clamp (z : Z) : Z := Z.max (- 2 ^ 63) (Z.min (2 ^ 63 - 1) z).
Definition Atoi (s : string) : Z :=
  let unsigned s := match s with EmptyString => None | _ => digits 0 s end in
  match s with
  | EmptyString => 0
  | String.String c rest =>
      match Ascii.nat_of_ascii c with
      | 45%nat => match unsigned rest with Some v => clamp (- v) | None => 0 end
      | 43%nat => match unsigned rest with Some v => clamp v | None => 0 end
      | _ => match unsigned s with Some v => clamp v | None => 0 end
      end
  end.

Definition TagValueInt (tags : list string) (key : string) : Z :=
  let v := TagValue tags key in
  if bool_decide (v = "") then -1 else Atoi v.

Definition CountRelations (state : State) : Z :=
  Z.of_nat (length (elems state.(st_Remove)) + length (elems state.(st_Add))
            + length (elems state.(st_Require)) + length (elems state.(st_After))).

(** ** Schemas *)

Inductive CopyError := CopyMissing (state : string) | CopySchemaErr (e : SchemaError).

(** [order] and [torder] are those of [SetSchema]. *)
Definition CopySchema (order torder : list string) (source : gmap string State)
    (states : list string) (target : Machine) : option CopyError * Machine :=
  match states with
  | [] => (None, target)
  | _ =>
      match slicesFilter states (λ s, negb (bool_decide (is_Some (source !! s)))) with
      | s :: _ => (Some (CopyMissing s), target)
      | [] =>
          let newSchema := foldl (λ sch s, <[s := schema_get source s]> sch) (Mach.Schema target) states in
          let '(err, m) := SetSchema order torder newSchema
                             (slicesUniq (Mach.StateNames target ++ states)) target in
          (CopySchemaErr <$> err, m)
      end
  end.

Definition rel_text (r : rel) : string :=
  foldl (λ s n, s +:+ n +:+ ",") "" (slices_Sort (elems r)) +:+ ";".

(** What is hashed for a state. *)
Definition state_text (st : State) : string :=
  (if st.(st_Auto) then "a," else "") +:+ (if st.(st_Multi) then "m," else "")
  +:+ rel_text st.(st_After) +:+ rel_text st.(st_Remove) +:+ rel_text st.(st_Add)
  +:+ rel_text st.(st_Require).

Definition schema_text (s : gmap string State) : string :=
  foldl (λ t k, t +:+ k +:+ ":" +:+ state_text (schema_get s k)) "" (slices_Sort (keys s)).

(** [hash]: [am.Hash], an MD5 digest cut to a length; [None] is a [nil] schema. *)
Definition SchemaHash (hash : string → Z → string) (schema : option (gmap string State)) : string :=
  match schema with None => "" | Some s => hash (schema_text s) 6 end.

(** ** Disposal and names *)

Section dispose.
Context (processQueue : run Machine Z) (parentErr : bool) (ctxErr : option string).

Definition Dispose (hs : Handlers) : run Machine Handlers :=
  m ← get;
  if Mach.Has1 m "Disposing" then Api.Add1 processQueue "Disposing" ∅ ;; mret hs
  else Lifecycle.Dispose processQueue parentErr ctxErr hs.

Definition DisposeEv (e : option EventSrc) (hs : Handlers) : run Machine Handlers :=
  m ← get;
  if Mach.Has1 m "Disposing" then Ask.ev_add processQueue e ["Disposing"] ∅ ;; mret hs
  else Lifecycle.Dispose processQueue parentErr ctxErr hs.
End dispose.

Definition HandlerToState (handler : string) : string :=
  TrimSuffix (TrimSuffix (TrimSuffix (TrimSuffix handler SuffixState) SuffixEnter) SuffixEnd) SuffixExit.

(** The switches of [am.SemConfig], by the environment. *)
Record SemConfig := mkSemConfig {
  sc_Steps : bool; sc_Graph : bool; sc_Can : bool; sc_Queued : bool; sc_StateCtx : bool;
  sc_When : bool; sc_Args : bool;
}.

Definition SemConfigEnv (env : string → string) (forceFull : bool) : SemConfig :=
  let is_set k := negb (bool_decide (env k = "")) in
  if is_set "AM_LOG_FULL" || forceFull then mkSemConfig true true true true true true true
  else mkSemConfig (is_set "AM_LOG_STEPS") (is_set "AM_LOG_GRAPH") (is_set "AM_LOG_CHECKS")
         (is_set "AM_LOG_QUEUED") (is_set "AM_LOG_STATE_CTX") (is_set "AM_LOG_WHEN")
         (is_set "AM_LOG_ARGS").

(** ** What they promise *)

Example Atoi_values : Atoi <$> ["12"; "-7"; "+3"; ""; "1x"; "99999999999999999999"]
  = [12; -7; 3; 0; 0; 9223372036854775807].
Proof. vm_compute. reflexivity. Qed.

(** Two schemas with the same text, and so with the same hash: the mark of an
    auto state reads like a state called ["a"] in its After relation. *)
Example SchemaHash_collision hash :
  let s1 : gmap string State := {["K" := set_Auto zeroState true]} in
  let s2 : gmap string State := {["K" := mkState false false None None None (Some ["a"]) None]} in
  s1 ≠ s2 ∧ SchemaHash hash (Some s1) = SchemaHash hash (Some s2).
Proof.
  split; [|reflexivity]. intros H. apply (f_equal (lookup "K")) in H.
  rewrite !lookup_singleton_eq in H. discriminate H.
Qed.

Lemma Implements_ok checked needed :
  Implements checked needed = None ↔ ∀ s, s ∈ needed → s ∈ checked.
Proof.
  unfold Implements. split.
  - destruct (slicesFilter needed _) as [|x l] eqn:E; [|done]. intros _ s Hs.
    destruct (contains checked s) eqn:Hc; [by apply contains_true|]. exfalso.
    assert (Hin : s ∈ slicesFilter needed (λ s, negb (contains checked s)))
      by (apply elem_of_slicesFilter; by rewrite Hc).
    rewrite E in Hin. by apply not_elem_of_nil in Hin.
  - intros H. rewrite slicesFilter_none; [done|]. intros x Hx%H%contains_true. by rewrite Hx.
Qed.

(** Copying states that are all there already fails, whatever they look like. *)
Lemma CopySchema_known order torder source states target :
  states ≠ [] → (∀ s, s ∈ states → is_Some (source !! s)) → target.(m_t) = None →
  (∀ s, s ∈ states → is_Some (schema target !! s)) →
  CopySchema order torder source states target = (Some (CopySchemaErr ErrTooShort), target).
Proof.
  intros Hne Hsrc Ht Hk. unfold CopySchema. destruct states as [|s0 l]; [done|].
  rewrite slicesFilter_none by (intros x Hx; rewrite bool_decide_eq_true_2 by auto; done).
  assert (Hdom : dom (foldl (λ sch s, <[s := schema_get source s]> sch) (Mach.Schema target) (s0 :: l))
    = dom (schema target)).
  { assert (Hg : ∀ l (sch : gmap string State), dom sch = dom (schema target) →
      (∀ s, s ∈ l → is_Some (schema target !! s)) →
      dom (foldl (λ sch s, <[s := schema_get source s]> sch) sch l) = dom (schema target)).
    { clear. induction l as [|s l IH]; intros sch Hd Hin; [done|]. cbn [foldl]. apply IH.
      - rewrite dom_insert_L, Hd. apply subseteq_union_1_L, singleton_subseteq_l, elem_of_dom, Hin. left.
      - intros x Hx. apply Hin. by right. }
    apply Hg; [|done]. unfold Mach.Schema. apply dom_fmap_L. }
  unfold SetSchema. rewrite Ht, bool_decide_eq_false_2 by (by apply is_Some_None).
  rewrite bool_decide_eq_true_2; [done|]. rewrite <- !size_dom, Hdom. lia.
Qed.

(** A tick out of range is 0. *)
Definition at_ (t : list Z) (i : Z) : Z := default 0 (t !! Z.to_nat i).

Lemma Tick_at t i : 0 ≤ i → MachTime.Time.Tick t i = Ok (at_ t i).
Proof.
  intros Hi. unfold MachTime.Time.Tick, at_. case_bool_decide as Hl.
  - rewrite lookup_ge_None_2 by (unfold len in Hl; lia). done.
  - destruct (lookup_lt_is_Some_2 t (Z.to_nat i)) as [x Hx]; [unfold len in Hl; lia|].
    rewrite Hx. cbn. unfold slice_get. by rewrite bool_decide_eq_true_2, Hx by done.
Qed.

(** What a state's ticks say: it was active and is not any more; or its tick
    moved otherwise. *)
Definition left_at (before after : list Z) (i : Z) : bool :=
  IsActiveTick (at_ before i) && negb (IsActiveTick (at_ after i)).
Definition moved_at (before after : list Z) (i : Z) : bool :=
  negb (left_at before after i) && negb (bool_decide (at_ before i = at_ after i)).

(** States that left are removed, and those whose ticks moved otherwise added:
    multi states that stay among them, and states activated in between. *)
Lemma states_loop_eq before after i index added removed :
  0 ≤ i →
  states_loop (Some before) (Some after) i index added removed
  = Ok (added ++ (filter (λ p, moved_at before after p.1 = true) (zip (seqZ i (Z.of_nat (length index))) index)).*2,
        removed ++ (filter (λ p, left_at before after p.1 = true) (zip (seqZ i (Z.of_nat (length index))) index)).*2).
Proof.
  revert i added removed. induction index as [|name index IH]; intros i added removed Hi.
  { cbn. by rewrite !app_nil_r. }
  cbn [states_loop active_at]. rewrite !Tick_at by done. cbn [fmap outcome_fmap mbind outcome_bind].
  cbn [length]. rewrite seqZ_cons by lia.
  replace (Z.pred (Z.of_nat (S (length index)))) with (Z.of_nat (length index)) by lia.
  replace (Z.succ i) with (i + 1) by lia. cbn [zip_with].
  unfold tick_at. cbn [default]. rewrite ?Tick_at by done. cbn [mbind outcome_bind].
  assert (Hsame : at_ before i = at_ after i → IsActiveTick (at_ before i) = IsActiveTick (at_ after i))
    by by intros ->.
  destruct (IsActiveTick (at_ before i)) eqn:Hb, (IsActiveTick (at_ after i)) eqn:Ha; cbn [andb negb];
    destruct (bool_decide (at_ before i = at_ after i)) eqn:Heq; cbn [negb];
    try (apply bool_decide_eq_true in Heq; by apply Hsame in Heq);
    rewrite IH by lia; unfold moved_at, left_at;
    rewrite !filter_cons; cbn [fst]; rewrite Hb, Ha, Heq; cbn [andb negb];
    repeat case_decide; try done; cbn; by rewrite <- ?(assoc_L (++)).
Qed.

(** The elements of an index picked by their positions. *)
Definition picked (f : Z → bool) (index : list string) : list string :=
  (filter (λ p : Z * string, f p.1 = true) (zip (seqZ 0 (Z.of_nat (length index))) index)).*2.

Lemma zip_seqZ_lookup (index : list string) k j s :
  zip (seqZ 0 (Z.of_nat (length index))) index !! k = Some (j, s) ↔ index !! k = Some s ∧ j = Z.of_nat k.
Proof.
  rewrite lookup_zip_Some, lookup_seqZ. split.
  - intros [[-> Hk] Hs]. split; [done|lia].
  - intros [Hs ->]. split; [|done]. apply lookup_lt_Some in Hs as Hl. lia.
Qed.

Lemma elem_of_picked f index s :
  s ∈ picked f index ↔ ∃ k : nat, index !! k = Some s ∧ f (Z.of_nat k) = true.
Proof.
  unfold picked. rewrite list_elem_of_fmap. split.
  - intros ([j x] & -> & [Hf Hin]%list_elem_of_filter). apply list_elem_of_lookup_1 in Hin as [k Hk].
    apply zip_seqZ_lookup in Hk as [Hk ->]. by exists k.
  - intros (k & Hk & Hf). exists (Z.of_nat k, s). split; [done|]. apply list_elem_of_filter. split; [done|].
    apply (list_elem_of_lookup_2 _ k). by apply zip_seqZ_lookup.
Qed.

Lemma NoDup_picked f index : NoDup index → NoDup (picked f index).
Proof.
  intros Hnd. unfold picked.
  assert (Hz : (zip (seqZ 0 (Z.of_nat (length index))) index).*2 = index)
    by (apply snd_zip; rewrite length_seqZ; lia).
  revert Hz Hnd. generalize (zip (seqZ 0 (Z.of_nat (length index))) index). intros l <-.
  induction l as [|[j x] l IH]; [done|].
  rewrite fmap_cons, filter_cons. intros [Hx Hnd]%NoDup_cons.
  case_decide; [|auto]. rewrite fmap_cons. apply NoDup_cons. split; [|auto].
  intros ([j' y] & Hy & [_ Hin]%list_elem_of_filter)%list_elem_of_fmap. apply Hx.
  apply list_elem_of_fmap. by exists (j', y).
Qed.

(** Of a transition's times, [GetTransitionStates] reads which states it
    changed: the removed ones were active before and are not after, the added
    ones are the others whose tick moved, a state is in one list and once, and
    the touched states have names and come once. *)
Theorem GetTransitionStates_spec before after steps index added removed touched :
  NoDup index →
  GetTransitionStates (Some before) (Some after) steps index = Ok (added, removed, touched) →
  (∀ k s, index !! k = Some s →
     (s ∈ removed ↔ IsActiveTick (at_ before (Z.of_nat k)) = true
                    ∧ IsActiveTick (at_ after (Z.of_nat k)) = false)
     ∧ (s ∈ added ↔ (s ∉ removed) ∧ at_ before (Z.of_nat k) ≠ at_ after (Z.of_nat k)))
  ∧ NoDup (added ++ removed) ∧ NoDup touched ∧ "" ∉ touched.
Proof.
  intros Hnd H. unfold GetTransitionStates in H. rewrite states_loop_eq in H by done.
  apply outcome_bind_ok in H as ([a r] & Hr & H). injection Hr as <- <-.
  apply outcome_bind_ok in H as (ts & Hts & H). injection H as <- <- <-.
  fold (picked (moved_at before after) index). fold (picked (left_at before after) index).
  assert (Hone : ∀ f k s, index !! k = Some s → s ∈ picked f index ↔ f (Z.of_nat k) = true).
  { intros f k s Hk. rewrite elem_of_picked. split; [|eauto]. intros (k' & Hk' & Hf).
    by rewrite (NoDup_lookup _ _ _ _ Hnd Hk Hk'). }
  split; [|split; [|split]].
  - intros k s Hk. rewrite !(Hone _ k s Hk). unfold moved_at, left_at.
    rewrite !andb_true_iff, !negb_true_iff, bool_decide_eq_false.
    by destruct (IsActiveTick (at_ before _)), (IsActiveTick (at_ after _)); cbn; naive_solver.
  - apply NoDup_app. split; [by apply NoDup_picked|]. split; [|by apply NoDup_picked].
    intros s Hs. apply elem_of_picked in Hs as (k & Hk & Hm). rewrite (Hone _ k s Hk).
    unfold moved_at in Hm. apply andb_true_iff in Hm as [Hm%negb_true_iff _]. by rewrite Hm.
  - apply NoDup_slicesUniq.
  - rewrite elem_of_slicesUniq. intros Hc. apply list_elem_of_join in Hc as (l & Hin & Hl).
    apply mapM_ok_Forall2 in Hts. apply list_elem_of_lookup_1 in Hl as [k Hk].
    destruct (Forall2_lookup_r _ _ _ _ _ Hts Hk) as (st & _ & Hst).
    inv_ok. unfold named_states in Hin. apply elem_of_slicesFilter in Hin as [_ Hin]. done.
Qed.

Example GetTransitionStates_spec_witness :
  ∃ added removed touched,
    GetTransitionStates (Some [1; 0; 3; 2]) (Some [2; 1; 5; 2])
      [newStep "A" "B" StepRelation RelationAdd] ["A"; "B"; "C"; "D"] = Ok (added, removed, touched)
    ∧ "A" ∈ removed ∧ "C" ∈ added ∧ "D" ∉ added.
Proof.
  destruct (GetTransitionStates_spec [1; 0; 3; 2] [2; 1; 5; 2]
    [newStep "A" "B" StepRelation RelationAdd] ["A"; "B"; "C"; "D"] ["B"; "C"] ["A"] ["A"; "B"])
    as (H & _).
  - compute_decide.
  - vm_compute. reflexivity.
  - exists ["B"; "C"], ["A"], ["A"; "B"]. split; [vm_compute; reflexivity|]. split_and!.
    + apply (H 0%nat "A" eq_refl). split; reflexivity.
    + apply (H 2%nat "C" eq_refl). split; [compute_decide|discriminate].
    + intros Hd. apply (H 3%nat "D" eq_refl) in Hd as [_ Hd]. by apply Hd.
Defined.

End Kit.
