(* ===== verification/NetMach.v ===== *)
(** * Network machines ([pkg/rpc/netmach.go])

    A [NetworkMachine] is the client's copy of a machine somewhere else: it has
    no queue and no handlers of its own kind, a clock that only [updateClock]
    changes, the same subscriptions as a local machine, and mutation methods
    that go through a connection ([NetMachConn], an interface the RPC client
    implements).  Unlike a local machine it answers questions about unknown
    states by a panic.

    Handlers of network machines are pipes: calling one is recorded in
    [nb_calls].  The transition a clock update makes up for its tracers and
    handlers, the log, and the tracers themselves beyond their names, are left
    out. *)

From S2P Require Import Prelude StateList SchemaDef MachTime Mutation Relations Subscriptions Machine Queue Waits.

#[local] Open Scope Z_scope.

(** ** Messages ([rpc.go]) *)

Inductive ServerMethod :=
| ServerAdd | ServerAddNS | ServerRemove | ServerSet | ServerHello | ServerHandshake
| ServerLog | ServerSync | ServerArgs | ServerBye.

Record MsgCliMutation := mkCliMutation {
  cm_States : list Z;
  cm_Args : gmap string Val;
  cm_Event : option EventSrc;
}.

(** [amhelp.StatesToIndexes] *)
Definition StatesToIndexes (allStates states : list string) : list Z := index_of allStates <$> states.

(** [amhelp.IndexesToStates]: unknown indexes get made-up names; an index
    below -1 panics. *)
Definition IndexesToStates (allStates : list string) (indexes : list Z) : outcome (list string) :=
  mapM (λ p : nat * Z,
    if bool_decide (p.2 = -1) || bool_decide (Z.of_nat (length allStates) ≤ p.2)
    then Ok ("unknown" +:+ pretty (Z.of_nat p.1)) else slice_get allStates p.2)
    (imap pair indexes).

(** ** The machine *)

(** A bound handlers struct: the methods or fields reflection finds on it. *)
Record NetHandler := mkNetHandler {
  nh_id : string;
  nh_num : Z;
  nh_methods : string → bool;
}.

Record NetInfo := mkNetInfo {
  ni_id : string;
  ni_remoteId : string;
  ni_parentId : string;
  ni_tags : list string;
  ni_conn : bool;
  ni_filterMutations : bool;
}.

Record NetClock := mkNetClock {
  nc_machTime : list Z;
  nc_machClock : gmap string Z;
  nc_queueTick : Z;
  nc_machTick : Z;
  nc_activeStates : list string;
}.

Record NetBind := mkNetBind {
  nb_handlers : list NetHandler;
  nb_nextHandlerNum : Z;
  nb_calls : list (string * string);
  nb_tracers : list string;
  nb_disposeHandlers : list nat;
}.

Record NetMach := mkNetMach {
  nm_info : NetInfo;
  nm_schema : option (gmap string State);
  nm_stateNames : list string;
  nm_clk : NetClock;
  nm_subs : Subscriptions;
  nm_bind : NetBind;
  nm_disposed : bool;
  nm_err : option string;
  nm_closed : list nat;
  nm_canceled : list nat;
}.

Definition machTime (m : NetMach) := m.(nm_clk).(nc_machTime).
Definition machClock (m : NetMach) := m.(nm_clk).(nc_machClock).

Definition nm_with_clk (c : NetClock) (m : NetMach) : NetMach :=
  mkNetMach m.(nm_info) m.(nm_schema) m.(nm_stateNames) c m.(nm_subs) m.(nm_bind) m.(nm_disposed)
    m.(nm_err) m.(nm_closed) m.(nm_canceled).
Definition nm_with_subs (s : Subscriptions) (m : NetMach) : NetMach :=
  mkNetMach m.(nm_info) m.(nm_schema) m.(nm_stateNames) m.(nm_clk) s m.(nm_bind) m.(nm_disposed)
    m.(nm_err) m.(nm_closed) m.(nm_canceled).
Definition nm_with_bind (b : NetBind) (m : NetMach) : NetMach :=
  mkNetMach m.(nm_info) m.(nm_schema) m.(nm_stateNames) m.(nm_clk) m.(nm_subs) b m.(nm_disposed)
    m.(nm_err) m.(nm_closed) m.(nm_canceled).
Definition nm_with_names (sch : option (gmap string State)) (names : list string) (m : NetMach)
  : NetMach :=
  mkNetMach m.(nm_info) sch names m.(nm_clk) m.(nm_subs) m.(nm_bind) m.(nm_disposed)
    m.(nm_err) m.(nm_closed) m.(nm_canceled).
Definition nm_with_err (e : string) (m : NetMach) : NetMach :=
  mkNetMach m.(nm_info) m.(nm_schema) m.(nm_stateNames) m.(nm_clk) m.(nm_subs) m.(nm_bind)
    m.(nm_disposed) (Some e) m.(nm_closed) m.(nm_canceled).
Definition nm_with_closed (chs cancels : list nat) (m : NetMach) : NetMach :=
  mkNetMach m.(nm_info) m.(nm_schema) m.(nm_stateNames) m.(nm_clk) m.(nm_subs) m.(nm_bind)
    m.(nm_disposed) m.(nm_err) (m.(nm_closed) ++ chs) (m.(nm_canceled) ++ cancels).
Definition nm_set_disposed (m : NetMach) : NetMach :=
  mkNetMach m.(nm_info) m.(nm_schema) m.(nm_stateNames) m.(nm_clk) m.(nm_subs) m.(nm_bind)
    true m.(nm_err) m.(nm_closed) m.(nm_canceled).

Definition TagRpcNetmach := "rpc-mux".
Definition TagKeySrcId := "src-id".

(** The errors for a missing context or parent are left out: a network machine
    needs both here. *)
Definition NewNetworkMachine (id : string) (conn : bool) (schema : option (gmap string State))
    (stateNames : list string) (parentId : string) (tags : option (list string))
    (filterMutations : bool) : string + NetMach :=
  if match schema with
     | Some s => negb (bool_decide (size s = length stateNames)) | None => false end
  then inl "schema and stateNames must have the same length"
  else inr (mkNetMach
    (mkNetInfo id "" parentId (default [TagRpcNetmach; TagKeySrcId] tags) conn filterMutations)
    schema stateNames
    (mkNetClock (replicate (length stateNames) 0) (list_to_map ((λ s, (s, 0)) <$> stateNames))
       1 0 [])
    NewSubscriptionManager (mkNetBind [] 0 [] [] []) false None [] []).

(** ** Questions answered locally *)

Module Net.

Definition StateNames (m : NetMach) : list string := m.(nm_stateNames).

Definition MustParseStates (m : NetMach) (states : list string) : outcome (list string) :=
  if forallb (contains m.(nm_stateNames)) states then Ok (slicesUniq states)
  else Panic "state is not defined".

(** The keys of [seen] come in the order of a map. *)
Definition ParseStates (m : NetMach) (states : list string) : list string :=
  let known := slicesFilter states
    (λ s, bool_decide (is_Some (default ∅ m.(nm_schema) !! s))) in
  if bool_decide (NoDup known) then known else slicesUniq states.

Definition ActiveStates (m : NetMach) (states : option (list string)) : list string :=
  match states with
  | None => m.(nm_clk).(nc_activeStates)
  | Some l => slicesFilter l (contains m.(nm_clk).(nc_activeStates))
  end.

Definition is_ (m : NetMach) (states : list string) : outcome bool :=
  l ← MustParseStates m states;
  Ok (forallb (contains (ActiveStates m None)) l).
Definition Is := is_.
Definition Is1 (m : NetMach) (state : string) : outcome bool := Is m [state].
Definition IsErr (m : NetMach) : outcome bool := Is1 m StateException.

Definition not_ (m : NetMach) (states : list string) : outcome bool :=
  l ← MustParseStates m states;
  Ok (slicesNone l (ActiveStates m None)).
Definition Not := not_.
Definition Not1 (m : NetMach) (state : string) : outcome bool := Not m [state].

Fixpoint Any (m : NetMach) (states : list (list string)) : outcome bool :=
  match states with
  | [] => Ok false
  | s :: states => b ← Is m s; if b : bool then Ok true else Any m states
  end.
Fixpoint Any1 (m : NetMach) (states : list string) : outcome bool :=
  match states with
  | [] => Ok false
  | s :: states => b ← Is1 m s; if b : bool then Ok true else Any1 m states
  end.

Definition Has (m : NetMach) (states : list string) : bool := slicesEvery (StateNames m) states.
Definition Has1 (m : NetMach) (state : string) : bool := Has m [state].

Definition Index1 (m : NetMach) (state : string) : Z := index_of (StateNames m) state.
Definition Index (m : NetMach) (states : list string) : list Z := Index1 m <$> states.

(** The loops of [IsClock] and [WasClock]: [clock] lists the entries in the order
    of the range; indexing the time at -1 panics. *)
Fixpoint clock_loop (ok : Z → Z → bool) (m : NetMach) (clock : list (string * Z)) : outcome bool :=
  match clock with
  | [] => Ok true
  | (state, tick) :: clock =>
      now ← slice_get (machTime m) (Index1 m state);
      if ok now tick then clock_loop ok m clock else Ok false
  end.

Definition IsClock (m : NetMach) (clock : list (string * Z)) : outcome bool :=
  clock_loop (λ now tick, bool_decide (now = tick)) m clock.
Definition WasClock (m : NetMach) (clock : list (string * Z)) : outcome bool :=
  clock_loop (λ now tick, bool_decide (tick ≤ now)) m clock.

(** The loops of [IsTime] and [WasTime]; [states[i]] is not guarded. *)
Fixpoint time_loop (ok : Z → Z → bool) (m : NetMach) (t : list Z) (states : list string)
  : outcome bool :=
  match t, states with
  | [], _ => Ok true
  | _ :: _, [] => Panic "index out of range"
  | tick :: t, s :: states =>
      now ← slice_get (machTime m) (Index1 m s);
      if ok now tick then time_loop ok m t states else Ok false
  end.

Definition IsTime (m : NetMach) (t : list Z) (states : option (list string)) : outcome bool :=
  MustParseStates m (default [] states) ≫= λ _,
  time_loop (λ now tick, bool_decide (now = tick)) m t (default (StateNames m) states).
Definition WasTime (m : NetMach) (t : list Z) (states : option (list string)) : outcome bool :=
  MustParseStates m (default [] states) ≫= λ _,
  time_loop (λ now tick, bool_decide (tick ≤ now)) m t (default (StateNames m) states).

Definition Switch (m : NetMach) (groups : list (list string)) : string :=
  default "" (find_first (contains (ActiveStates m None)) (mjoin groups)).

Definition tick (m : NetMach) (state : string) : outcome Z :=
  MustParseStates m [state] ≫= λ _, Ok (tick_of (machClock m) state).
Definition Tick := tick.

Definition Clock (m : NetMach) (states : option (list string)) : gmap string Z :=
  list_to_map ((λ s, (s, tick_of (machClock m) s)) <$> default (StateNames m) states).

Definition time (m : NetMach) (states : option (list string)) : outcome (list Z) :=
  mapM (λ s, slice_get (machTime m) (Index1 m s)) (default (StateNames m) states).
Definition Time := time.

Definition QueueTick (m : NetMach) : Z := m.(nm_clk).(nc_queueTick).
Definition MachineTick (m : NetMach) : Z := m.(nm_clk).(nc_machTick).
Definition QueueLen (m : NetMach) : Z := 0.
Definition Err (m : NetMach) : option string := m.(nm_err).

Definition print_state (m : NetMach) (s : string) : outcome string :=
  v ← slice_get (machTime m) (Index1 m s);
  Ok (s +:+ ":" +:+ pretty (v : Z)).

Definition String (m : NetMach) : outcome string :=
  l ← mapM (print_state m) (slicesFilter (StateNames m) (contains (ActiveStates m None)));
  Ok ("(" +:+ str_join " " l +:+ ")").

Definition StringAll (m : NetMach) : outcome string :=
  l1 ← mapM (print_state m) (slicesFilter (StateNames m) (contains (ActiveStates m None)));
  l2 ← mapM (print_state m)
         (slicesFilter (StateNames m) (λ s, negb (contains (ActiveStates m None) s)));
  Ok ("(" +:+ str_join " " l1 +:+ ") [" +:+ str_join " " l2 +:+ "]").

Definition Export (m : NetMach) : outcome (Serialized * option (gmap string State)) :=
  t ← time m None;
  Ok (mkSerialized m.(nm_info).(ni_id) (StateNames m) t (QueueTick m) (MachineTick m),
      Schema_Clone <$> m.(nm_schema)).

Definition mutAccepted (m : NetMach) (mutType : MutationType) (states : list string) : bool := true.

Definition Handlers (m : NetMach) : list string := nh_id <$> m.(nm_bind).(nb_handlers).

End Net.

(** ** Updating the clock *)

(** [visit] of [activateRequired]: its map of visited states, and [ret].  Fuel
    for every state of the schema that was not visited yet is enough
    ([visit_req_spec]). *)
Fixpoint visit_req (fuel : nat) (schema : gmap string State) (node : string)
    (acc : gset string * list string) : option (gset string * list string) :=
  match fuel with
  | O => None
  | S fuel =>
      if bool_decide (node ∈ acc.1) then Some acc
      else fold_left (λ r reqState, r ≫= λ a : gset string * list string,
             visit_req fuel schema reqState (a.1, a.2 ++ [reqState]))
             (elems (schema_get schema node).(st_Require)) (Some ({[node]} ∪ acc.1, acc.2))
  end.

Definition visit_all (schema : gmap string State) (active : list string)
    (acc : gset string * list string) : option (gset string * list string) :=
  fold_left (λ r state, r ≫= visit_req (S (size (dom schema))) schema state) active (Some acc).

Definition activateRequired (schema : option (gmap string State)) (active : list string)
  : list string :=
  match schema with
  | None => active
  | Some sch => slicesUniq (default [] (snd <$> visit_all sch active (∅, active)))
  end.

(** [for i, state := range index { if IsActiveTick(now[i]) ... }] *)
Definition active_now (index : list string) (now : list Z) : outcome (list string) :=
  l ← mapM (λ p : nat * string, v ← slice_get now (Z.of_nat p.1); Ok (p.2, v)) (imap pair index);
  Ok (slicesFilter l (λ p : string * Z, IsActiveTick p.2)).*1.

(** [for idx, tick := range m.machTime { m.machClock[index[idx]] = tick }] *)
Definition set_machClock (index : list string) (now : list Z) (c : gmap string Z)
  : outcome (gmap string Z) :=
  fold_left (λ r p, r ≫= λ c : gmap string Z,
    s ← slice_get index (Z.of_nat p.1); Ok (<[(s : string) := p.2]> c)) (imap pair now) (Ok c).

(** [handle]: a handlers struct without the method is skipped. *)
Definition handle (h : NetHandler) (state suffix : string) : list (string * string) :=
  if h.(nh_methods) (state +:+ suffix) then [(h.(nh_id), state +:+ suffix)] else [].

Definition processHandlers (activated deactivated : list string) : run NetMach () :=
  if bool_decide (activated = [] ∧ deactivated = []) then mret ()
  else modify (λ m,
    let b := m.(nm_bind) in
    let calls := b.(nb_handlers) ≫= λ h,
      (activated ≫= λ s, handle h s SuffixState)
      ++ (deactivated ≫= λ s, handle h s SuffixEnd)
      ++ handle h StateAny SuffixState in
    nm_with_bind (mkNetBind b.(nb_handlers) b.(nb_nextHandlerNum) (b.(nb_calls) ++ calls)
      b.(nb_tracers) b.(nb_disposeHandlers)) m).

(** Closing a closed channel panics. *)
Definition close_all (chs : list nat) : run NetMach () :=
  m ← get;
  if bool_decide (NoDup (m.(nm_closed) ++ chs)) then modify (nm_with_closed chs [])
  else panic "close of closed channel".

Section netmach.
Context (done : nat → bool).

(** [Subscriptions.QueueFlush]: channels that are open are closed; the bindings
    stay. *)
Definition queueFlush : run NetMach () :=
  modify (λ m, nm_with_closed
    (slicesUniq (slicesFilter (QueueFlush m.(nm_subs).(sm_queue))
       (λ ch, negb (contains m.(nm_closed) ch)))) [] m).

Definition processSubscriptions (activated deactivated : list string) (clockBefore : gmap string Z)
  : run NetMach () :=
  m ← get;
  let '(sc, cancels) := ProcessStateCtx activated deactivated m.(nm_subs).(sm_stateCtx) in
  let sm0 := m.(nm_subs) in
  let sm0 := mkSubs sm0.(sm_next) sm0.(sm_clock) sc sm0.(sm_when) sm0.(sm_time) sm0.(sm_sum)
    sm0.(sm_args) sm0.(sm_query) sm0.(sm_queue) in
  r ← lift (process_all done (machClock m) clockBefore m.(nm_clk).(nc_queueTick)
              activated deactivated sm0);
  let '(sm, chs) := (r : Subscriptions * list nat) in
  modify (nm_with_subs sm) ;;
  modify (nm_with_closed [] cancels) ;;
  close_all chs.

Definition updateClock (now : list Z) (qTick machTick : Z) : run NetMach () :=
  m ← get;
  let clockBefore := machClock m in
  let activeBefore := Net.ActiveStates m None in
  activeNow ← lift (active_now (Net.StateNames m) now);
  let activeNow := activateRequired m.(nm_schema) activeNow in
  let activated := StatesDiff activeNow activeBefore in
  let deactivated := StatesDiff activeBefore activeNow in
  c ← lift (set_machClock (Net.StateNames m) now (machClock m));
  (if bool_decide (qTick < m.(nm_clk).(nc_queueTick)) then queueFlush else mret ()) ;;
  modify (nm_with_clk (mkNetClock now c qTick machTick activeNow)) ;;
  processHandlers activated deactivated ;;
  processSubscriptions activated deactivated clockBefore.

(** ** Waiting locally *)

Definition nm_subscribe (f : Subscriptions → outcome (Subscriptions * Chan)) : run NetMach Chan :=
  m ← get;
  r ← lift (f m.(nm_subs));
  let '(sm, ch) := (r : Subscriptions * Chan) in
  modify (nm_with_subs sm) ;;
  mret ch.

Definition is_true (o : outcome bool) : bool := match o with Ok b => b | _ => false end.

Definition nm_When (states : list string) (ctx : Ctx) : run NetMach Chan :=
  m ← get;
  if m.(nm_disposed) then mret None
  else
    states ← lift (Net.MustParseStates m states);
    nm_subscribe (sub_When (λ l, is_true (Net.is_ m l)) done states ctx).

Definition nm_When1 (state : string) (ctx : Ctx) : run NetMach Chan := nm_When [state] ctx.

Definition nm_WhenErr (disposeCtx : Ctx) : run NetMach Chan := nm_When [StateException] disposeCtx.

Definition nm_WhenNot (states : list string) (ctx : Ctx) : run NetMach Chan :=
  m ← get;
  if m.(nm_disposed) then mret None
  else
    states ← lift (Net.MustParseStates m states);
    nm_subscribe (sub_WhenNot (λ l, is_true (Net.is_ m l)) (Net.not_ m) done states ctx).

Definition nm_WhenNot1 (state : string) (ctx : Ctx) : run NetMach Chan := nm_WhenNot [state] ctx.

Definition nm_WhenQuery (clockCheck : gmap string Z → bool) (ctx : Ctx) : run NetMach Chan :=
  nm_subscribe (λ sm, Ok (sub_WhenQuery done clockCheck ctx sm)).

Definition nm_WhenQueue (tick : Z) : run NetMach Chan :=
  m ← get;
  if bool_decide (tick ≤ m.(nm_clk).(nc_queueTick)) then mret None
  else nm_subscribe (λ sm, Ok (sub_queue (Subscriptions.WhenQueue tick) sm)).

Definition nm_WhenTimeSum (mtime : Z) (ctx : Ctx) : run NetMach Chan :=
  m ← get;
  if m.(nm_disposed) then mret None
  else
    t ← lift (Net.Time m None);
    sum ← lift (MachTime.Time.Sum t None);
    if bool_decide (mtime ≤ sum) then mret None
    else nm_subscribe (λ sm, Ok (sub_WhenTimeSum (subs_clock (machClock m) sm) mtime ctx sm)).

(** Waiting for arguments is over at once. *)
Definition nm_WhenArgs (state : string) (args : gmap string Val) (ctx : Ctx) : run NetMach Chan :=
  mret None.

Definition nm_NewStateCtx (state : string) : run NetMach nat :=
  m ← get;
  let '(sm, c) := Subscriptions.NewStateCtx state m.(nm_subs) in
  modify (nm_with_subs sm) ;;
  mret c.

End netmach.

(** ** Handlers, tracers, disposal *)

Definition nm_HandlersBind (name : string) (methods : string → bool) : run NetMach string :=
  m ← get;
  let b := m.(nm_bind) in
  modify (nm_with_bind (mkNetBind
    (b.(nb_handlers) ++ [mkNetHandler name b.(nb_nextHandlerNum) methods])
    (b.(nb_nextHandlerNum) + 1) b.(nb_calls) b.(nb_tracers) b.(nb_disposeHandlers))) ;;
  mret name.

(** [h.h == bindingId]: the handlers struct, a pointer, against a string. *)
Definition handler_is (h : NetHandler) (bindingId : string) : bool := false.

Definition nm_HandlersDetach (bindingId : string) : run NetMach (option string) :=
  m ← get;
  let b := m.(nm_bind) in
  match find_first (λ h, handler_is h bindingId) b.(nb_handlers) with
  | Some h =>
      modify (nm_with_bind (mkNetBind
        (slicesFilter b.(nb_handlers) (λ h', negb (bool_decide (h'.(nh_num) = h.(nh_num)))))
        b.(nb_nextHandlerNum) b.(nb_calls) b.(nb_tracers) b.(nb_disposeHandlers))) ;;
      mret None
  | None => mret (Some "handlers not bound")
  end.

(** The deprecated name calls itself. *)
Fixpoint nm_DetachHandlers (fuel : nat) (bindingId : string) : run NetMach (option string) :=
  match fuel with
  | O => block
  | S fuel => nm_DetachHandlers fuel bindingId
  end.

Definition nm_TracerBind (id : string) : run NetMach string :=
  m ← get;
  let b := m.(nm_bind) in
  modify (nm_with_bind (mkNetBind b.(nb_handlers) b.(nb_nextHandlerNum) b.(nb_calls)
    (b.(nb_tracers) ++ [id]) b.(nb_disposeHandlers))) ;;
  mret id.

Definition nm_TracerDetach (id : string) : run NetMach (option string) :=
  m ← get;
  let b := m.(nm_bind) in
  if contains b.(nb_tracers) id then
    let i := index_of b.(nb_tracers) id in
    l ← lift (slices_delete b.(nb_tracers) i (i + 1));
    modify (nm_with_bind (mkNetBind b.(nb_handlers) b.(nb_nextHandlerNum) b.(nb_calls)
      l b.(nb_disposeHandlers))) ;;
    mret None
  else mret (Some "tracer not bound").

Definition nm_OnDispose (fn : nat) : run NetMach () :=
  modify (λ m, let b := m.(nm_bind) in
    nm_with_bind (mkNetBind b.(nb_handlers) b.(nb_nextHandlerNum) b.(nb_calls) b.(nb_tracers)
      (b.(nb_disposeHandlers) ++ [fn])) m).

(** The dispose handlers run once, in order. *)
Definition nm_Dispose : run NetMach (list nat) :=
  m ← get;
  if m.(nm_disposed) then mret []
  else modify nm_set_disposed ;; mret m.(nm_bind).(nb_disposeHandlers).

(** ** Mutations, over a connection

    [W] is the state of everything a connection touches; the network machine
    is a part of it.  [Call] answers the result of the mutation, or [None] when
    the call failed; [Notify] whether the message was sent. *)

Class NetMachConn (W : Type) := {
  conn_mach : W → NetMach;
  conn_set : NetMach → W → W;
  Call : ServerMethod → MsgCliMutation → run W (option Z);
  Notify : ServerMethod → MsgCliMutation → run W bool;
}.

Class NetMachConnLaws (W : Type) `{NetMachConn W} := {
  conn_mach_set : ∀ m w, conn_mach (conn_set m w) = m;
  conn_set_mach : ∀ w, conn_set (conn_mach w) w = w;
}.

Section remote.
Context {W : Type} `{NetMachConn W}.

(** Code of the network machine alone. *)
Definition local {A} (f : run NetMach A) : run W A := λ w,
  match f (conn_mach w) with
  | Ok (a, m) => Ok (a, conn_set m w)
  | Panic msg => Panic msg
  | Block => Block
  end.

Definition unavailable (m : NetMach) : bool := negb m.(nm_info).(ni_conn) || m.(nm_disposed).

(** The body [Add], [Remove] and [Set] share. *)
Definition remote_mutation (ty : MutationType) (method : ServerMethod) (event : option EventSrc)
    (filter : bool) (states : list string) (args : gmap string Val) : run W Z :=
  m ← gets conn_mach;
  if unavailable m then mret Canceled
  else
    lift (Net.MustParseStates m states) ;;
    if filter && m.(nm_info).(ni_filterMutations) && negb (Net.mutAccepted m ty states)
    then mret Canceled
    else
      r ← Call method (mkCliMutation (StatesToIndexes (Net.StateNames m) states) args event);
      mret (default Canceled r).

Definition nm_Add (states : list string) (args : gmap string Val) : run W Z :=
  remote_mutation MutationAdd ServerAdd None true states args.
Definition nm_Remove (states : list string) (args : gmap string Val) : run W Z :=
  remote_mutation MutationRemove ServerRemove None true states args.
Definition nm_Set (states : list string) (args : gmap string Val) : run W Z :=
  remote_mutation MutationSet ServerSet None true states args.
Definition nm_EvAdd (event : EventSrc) (states : list string) (args : gmap string Val) : run W Z :=
  remote_mutation MutationAdd ServerAdd (Some event) false states args.
Definition nm_EvRemove (event : EventSrc) (states : list string) (args : gmap string Val)
  : run W Z :=
  remote_mutation MutationRemove ServerRemove (Some event) false states args.

(** The methods for a single state test the connection first. *)
Definition if_available (f : NetMach → run W Z) : run W Z :=
  m ← gets conn_mach;
  if unavailable m then mret Canceled else f m.

Definition nm_Add1 (state : string) (args : gmap string Val) : run W Z :=
  if_available (λ _, nm_Add [state] args).
Definition nm_Remove1 (state : string) (args : gmap string Val) : run W Z :=
  if_available (λ _, nm_Remove [state] args).
Definition nm_EvAdd1 (e : EventSrc) (state : string) (args : gmap string Val) : run W Z :=
  if_available (λ _, nm_EvAdd e [state] args).
Definition nm_EvRemove1 (e : EventSrc) (state : string) (args : gmap string Val) : run W Z :=
  if_available (λ _, nm_EvRemove e [state] args).

(** [AddNS] does not wait for an answer. *)
Definition nm_AddNS (states : list string) (args : gmap string Val) : run W Z :=
  if_available (λ m,
    lift (Net.MustParseStates m states) ;;
    if m.(nm_info).(ni_filterMutations) && negb (Net.mutAccepted m MutationAdd states)
    then mret Canceled
    else
      ok ← Notify ServerAddNS
             (mkCliMutation (StatesToIndexes (Net.StateNames m) states) args None);
      mret (if ok : bool then Executed else Canceled)).
Definition nm_Add1NS (state : string) (args : gmap string Val) : run W Z :=
  if_available (λ _, nm_AddNS [state] args).

Definition nm_Toggle (states : list string) (args : gmap string Val) : run W Z :=
  if_available (λ m,
    b ← lift (Net.Is m states);
    if b : bool then nm_Remove states args else nm_Add states args).
Definition nm_Toggle1 (state : string) (args : gmap string Val) : run W Z :=
  if_available (λ m,
    b ← lift (Net.Is1 m state);
    if b : bool then nm_Remove1 state args else nm_Add1 state args).
Definition nm_EvToggle (e : EventSrc) (states : list string) (args : gmap string Val) : run W Z :=
  if_available (λ m,
    b ← lift (Net.Is m states);
    if b : bool then nm_EvRemove e states args else nm_EvAdd e states args).
Definition nm_EvToggle1 (e : EventSrc) (state : string) (args : gmap string Val) : run W Z :=
  if_available (λ m,
    b ← lift (Net.Is1 m state);
    if b : bool then nm_EvRemove1 e state args else nm_EvAdd1 e state args).

Definition ErrOnClient := "ErrOnClient".

Definition err_states (m : NetMach) (state : string) : list string :=
  [state; StateException] ++ (if Net.Has1 m ErrOnClient then [ErrOnClient] else []).

Definition nm_AddErrState (state : string) (err : GoErr) (args : gmap string Val) : run W Z :=
  if_available (λ m,
    match err with
    | ContextCanceled => mret Canceled
    | GoError msg =>
        local (modify (nm_with_err msg)) ;;
        nm_Add (err_states m state) (PassMerge [args; passException msg])
    end).
Definition nm_AddErr (err : GoErr) (args : gmap string Val) : run W Z :=
  if_available (λ _, nm_AddErrState StateException err args).
Definition nm_EvAddErrState (event : EventSrc) (state : string) (err : GoErr)
    (args : gmap string Val) : run W Z :=
  if_available (λ m,
    match err with
    | ContextCanceled => mret Canceled
    | GoError msg =>
        local (modify (nm_with_err msg)) ;;
        nm_EvAdd event (err_states m state) (PassMerge [args; passException msg])
    end).
Definition nm_EvAddErr (event : EventSrc) (err : GoErr) (args : gmap string Val) : run W Z :=
  if_available (λ _, nm_EvAddErrState event StateException err args).

(** Checks are not sent: every mutation is said to be possible. *)
Definition nm_CanAdd (states : list string) (args : gmap string Val) : run W Z := mret Executed.
Definition nm_CanRemove (states : list string) (args : gmap string Val) : run W Z := mret Executed.

Definition nm_WhenTime (done : nat → bool) (states : list string) (times : list Z) (ctx : Ctx)
  : run W Chan :=
  m ← gets conn_mach;
  if m.(nm_disposed) then mret None
  else if negb (bool_decide (length states = length times)) then
    nm_AddErr (GoError ("whenTime: states and times must have the same length ("
                        +:+ j states +:+ ")")) ∅ ;;
    mret None
  else local (nm_subscribe
         (sub_WhenTime done (subs_clock (machClock m) m.(nm_subs)) states times ctx)).

Definition nm_WhenTime1 (done : nat → bool) (state : string) (ticks : Z) (ctx : Ctx) : run W Chan :=
  nm_WhenTime done [state] [ticks] ctx.

Definition nm_WhenTicks (done : nat → bool) (state : string) (ticks : Z) (ctx : Ctx) : run W Chan :=
  m ← gets conn_mach;
  t ← lift (Net.Tick m state);
  nm_WhenTime done [state] [wrap64 (wrap64 ticks + t)] ctx.

Definition nm_WhenNextActive (done : nat → bool) (state : string) (ctx : Ctx) : run W Chan :=
  m ← gets conn_mach;
  t ← lift (Net.Tick m state);
  nm_WhenTicks done state (NextActiveIn t) ctx.

End remote.

(** ** Required states are activated, and no others *)

Section required.
Context (sch : gmap string State).
Implicit Types (a : gset string * list string) (N : string → Prop).

Definition requires (x y : string) : Prop := y ∈ elems (schema_get sch x).(st_Require).

(** What visiting does: only states in [N] are added, and what is newly visited
    has its requirements visited and listed. *)
Record grows N a a' : Prop := {
  gr_visited : a.1 ⊆ a'.1;
  gr_new : ∀ x, x ∈ a'.1 → x ∈ a.1 ∨ N x;
  gr_list : a.2 ⊆ a'.2;
  gr_listed : ∀ x, x ∈ a'.2 → x ∈ a.2 ∨ N x;
  gr_closed : ∀ x y, x ∈ a'.1 → x ∉ a.1 → requires x y → y ∈ a'.1 ∧ y ∈ a'.2;
}.

Lemma grows_refl N a : grows N a a.
Proof. split; auto. by intros x y Hx Hn. Qed.

Lemma grows_trans N a1 a2 a3 : grows N a1 a2 → grows N a2 a3 → grows N a1 a3.
Proof.
  intros [V1 W1 L1 M1 C1] [V2 W2 L2 M2 C2]. split.
  - by etrans.
  - intros x [Hx|?]%W2; auto.
  - by etrans.
  - intros x [Hx|?]%M2; auto.
  - intros x y Hx Hn Hr. destruct (decide (x ∈ a2.1)) as [H2|H2]; [|by eapply C2].
    destruct (C1 x y H2 Hn Hr). auto.
Qed.

Lemma grows_mono N N' a a' : (∀ x, N x → N' x) → grows N a a' → grows N' a a'.
Proof. intros HN [V W L M C]. split; auto; intros x Hx; [destruct (W x Hx)|destruct (M x Hx)]; auto. Qed.

Definition visited_listed (n : string) a : Prop := n ∈ a.1 ∧ n ∈ a.2.

Lemma fold_visits N (E : string → gset string * list string → Prop)
    (f : gset string * list string → string → option (gset string * list string)) l a0 :
  (∀ n a a', E n a → grows N a a' → E n a') →
  (∀ n a, n ∈ l → a0.1 ⊆ a.1 → ∃ a', f a n = Some a' ∧ grows N a a' ∧ E n a') →
  ∃ a', fold_left (λ r n, r ≫= λ a, f a n) l (Some a0) = Some a' ∧ grows N a0 a'
    ∧ ∀ n, n ∈ l → E n a'.
Proof.
  intros HE. revert a0. induction l as [|n l IH]; intros a0 Hf.
  { exists a0. split_and!; [done|apply grows_refl|]. intros n Hn. by apply not_elem_of_nil in Hn. }
  destruct (Hf n a0) as (a1 & H1 & G1 & E1); [by left|done|]. cbn [fold_left].
  change (Some a0 ≫= λ a, f a n) with (f a0 n). rewrite H1.
  destruct (IH a1) as (a2 & H2 & G2 & E2).
  { intros k a Hk Ha. apply Hf; [by right|]. etrans; [apply (gr_visited _ _ _ G1)|done]. }
  exists a2. split_and!; [done|by eapply grows_trans|].
  intros k [->|Hk]%elem_of_cons; [by eapply HE|auto].
Qed.

Lemma requires_dom x y : requires x y → x ∈ dom sch.
Proof.
  unfold requires, schema_get. intros Hy. apply elem_of_dom.
  destruct (sch !! x); [done|]. cbn in Hy. by apply not_elem_of_nil in Hy.
Qed.

Lemma visit_req_spec fuel node a :
  (size (dom sch ∖ a.1) < fuel)%nat →
  ∃ a', visit_req fuel sch node a = Some a' ∧ grows (rtc requires node) a a' ∧ node ∈ a'.1.
Proof.
  revert node a. induction fuel as [|fuel IH]; intros node a Hf; [lia|]. cbn [visit_req].
  case_bool_decide as Hv. { exists a. split_and!; [done|apply grows_refl|done]. }
  destruct (fold_visits (tc requires node) visited_listed
    (λ a req, visit_req fuel sch req (a.1, a.2 ++ [req]))
    (elems (schema_get sch node).(st_Require)) ({[node]} ∪ a.1, a.2)) as (a' & He & G & HE).
  { intros n a1 a2 [] []; split; auto. }
  { intros req a1 Hreq Ha1. cbn in Ha1.
    destruct (IH req (a1.1, a1.2 ++ [req])) as (a2 & H2 & [V W L M C] & Hin).
    { cbn. apply requires_dom in Hreq as Hd.
      pose proof (size_difference_add (dom sch) a.1 node Hd Hv).
      assert (size (dom sch ∖ a1.1) ≤ size (dom sch ∖ ({[node]} ∪ a.1)))%nat; [|lia].
      apply subseteq_size. set_solver. }
    cbn in *. exists a2. split_and!; [done| |split; [done|apply L; set_solver]]. split; cbn.
    - done.
    - intros x [?|?]%W; [by left|right]. eapply tc_rtc_r; [by apply tc_once|done].
    - set_solver.
    - intros x Hx. apply M in Hx as [[Hx| ->%list_elem_of_singleton]%elem_of_app|Hx]; [by left|right..].
      + by apply tc_once.
      + eapply tc_rtc_r; [by apply tc_once|done].
    - done. }
  cbn in He. exists a'. split; [done|]. destruct G as [V W L M C]. cbn in *.
  split; [|set_solver]. split.
  - set_solver.
  - intros x [[->%elem_of_singleton|Hx]%elem_of_union|Hx]%W; [right; done|by left|right; by apply tc_rtc].
  - done.
  - intros x [?|?]%M; [by left|right; by apply tc_rtc].
  - intros x y Hx Hn Hr. destruct (decide (x = node)) as [->|Hne]; [by apply HE|]. apply (C x y Hx); [set_solver|done].
Qed.

Lemma activateRequired_some active :
  ∃ a', visit_all sch active (∅, active) = Some a'
    ∧ ∀ x, x ∈ a'.2 ↔ ∃ s, s ∈ active ∧ rtc requires s x.
Proof.
  set (N := λ x, ∃ s, s ∈ active ∧ rtc requires s x).
  destruct (fold_visits N (λ n a, n ∈ a.1)
    (λ a n, visit_req (S (size (dom sch))) sch n a) active (∅, active)) as (a' & He & [V W L M C] & HE).
  { intros n a a' Hn []. auto. }
  { intros n a Hn _. destruct (visit_req_spec (S (size (dom sch))) n a) as (a' & H1 & G & Hin).
    { apply Nat.lt_succ_r, subseteq_size. set_solver. }
    exists a'. split_and!; [done| |done]. eapply grows_mono; [|done]. intros x Hx. by exists n. }
  exists a'. split; [done|]. cbn in *. intros x. split.
  { intros [Hx|Hx]%M; [|done]. by exists x. }
  intros (s & Hs & Hr).
  assert (Hboth : x ∈ a'.1 ∧ x ∈ a'.2); [|apply Hboth].
  revert Hs. assert (Hgen : s ∈ a'.1 ∧ s ∈ a'.2 → x ∈ a'.1 ∧ x ∈ a'.2).
  { induction Hr as [|s y x Hsy Hr IH]; [done|]. intros [Hs _]. apply IH.
    apply (C s y Hs); [set_solver|done]. }
  intros Hs. apply Hgen. split; [by apply HE|by apply L].
Qed.

End required.

(** ** What updating the clock does *)

(** Nobody waits on the machine. *)
Definition waitless (sm : Subscriptions) : Prop :=
  ∃ n c sc, sm = mkSubs n c sc (mkWhenIndex ∅ ∅ ∅) (mkTimeWaits ∅ ∅ ∅) (mkSumWaits [] ∅)
    (mkArgsWaits ∅ ∅) (mkQueryWaits ∅ [] ∅) (mkQueueWaits [] []).

Lemma ProcessWhen_waitless done a d :
  ProcessWhen done a d (mkWhenIndex ∅ ∅ ∅) = (mkWhenIndex ∅ ∅ ∅, []).
Proof. unfold ProcessWhen. by induction (a ++ d). Qed.

Lemma ProcessWhenTime_waitless done clock before :
  ProcessWhenTime done clock before (mkTimeWaits ∅ ∅ ∅) = (mkTimeWaits ∅ ∅ ∅, []).
Proof. unfold ProcessWhenTime. by induction (slicesFilter _ _).*1. Qed.

Lemma process_all_waitless done clock before tick a d sm :
  waitless sm → process_all done clock before tick a d sm = Ok (sm, []).
Proof.
  intros (n & c & sc & ->). unfold process_all. cbn [sm_when sm_time sm_sum sm_args sm_query sm_queue].
  rewrite ProcessWhen_waitless, ProcessWhenTime_waitless. reflexivity.
Qed.

Lemma imap_pair_lookup {A} (l : list A) i x :
  imap pair l !! i = Some x ↔ x.1 = i ∧ l !! i = Some x.2.
Proof. rewrite list_lookup_imap. destruct (l !! i), x; cbn; naive_solver. Qed.

Lemma active_now_ok names now :
  length names = length now →
  active_now names now = Ok (slicesFilter (zip names now) (λ p, IsActiveTick p.2)).*1.
Proof.
  intros Hl. unfold active_now.
  assert (mapM (λ p : nat * string, v ← slice_get now (Z.of_nat p.1); Ok (p.2, v))
            (imap pair names) = Ok (zip names now)) as ->; [|done].
  assert (Hgen : ∀ names2 now2 n, length names2 = length now2 →
    (∀ i v, now2 !! i = Some v → now !! (n + i)%nat = Some v) →
    mapM (λ p : nat * string, v ← slice_get now (Z.of_nat p.1); Ok (p.2, v))
      (imap (λ i s, (n + i, s)%nat) names2) = Ok (zip names2 now2)).
  { induction names2 as [|s names2 IH]; intros [|v now2] n Hl2 Hv; try done. rewrite imap_cons.
    cbn [zip zip_with]. apply mapM_ok_cons.
    - cbn [fst snd]. erewrite slice_get_nat; [done|]. by apply Hv.
    - rewrite (imap_ext _ (λ i s, (S n + i, s)%nat)); [|intros; cbn; f_equal; lia].
      apply IH; [by injection Hl2|]. intros i w Hw. replace (S n + i)%nat with (n + S i)%nat by lia.
      by apply Hv. }
  rewrite <- (Hgen names now 0%nat Hl); [done|]. intros i v Hv. done.
Qed.

Lemma set_machClock_ok names now c :
  length names = length now →
  set_machClock names now c = Ok (fold_left (λ c p, <[p.1 := p.2]> c) (zip names now) c).
Proof.
  intros Hl. unfold set_machClock.
  assert (Hgen : ∀ names2 now2 n c, length names2 = length now2 →
    (∀ i s, names2 !! i = Some s → names !! (n + i)%nat = Some s) →
    fold_left (λ r p, r ≫= λ c : gmap string Z,
      s ← slice_get names (Z.of_nat p.1); Ok (<[(s : string) := p.2]> c))
      (imap (λ i v, (n + i, v)%nat) now2) (Ok c)
    = Ok (fold_left (λ c p, <[p.1 := p.2]> c) (zip names2 now2) c)).
  { induction names2 as [|s names2 IH]; intros [|v now2] n c' Hl2 Hs; try done. rewrite imap_cons.
    cbn [fold_left zip zip_with fst snd]. cbn [mbind outcome_bind].
    erewrite slice_get_nat; [|apply (Hs 0%nat); done].
    rewrite (imap_ext _ (λ i v, (S n + i, v)%nat)); [|intros; cbn; f_equal; lia]. cbn.
    apply (IH now2 (S n)); [by injection Hl2|]. intros i w Hw. replace (S n + i)%nat with (n + S i)%nat by lia.
    by apply Hs. }
  by apply (Hgen names now 0%nat c).
Qed.

Lemma fold_insert_lookup (l : list (string * Z)) (c : gmap string Z) s :
  NoDup l.*1 →
  fold_left (λ c p, <[p.1 := p.2]> c) l c !! s
  = match (list_to_map l : gmap string Z) !! s with Some v => Some v | None => c !! s end.
Proof.
  revert c. induction l as [|[k v] l IH]; intros c Hnd; cbn. { by rewrite lookup_empty. }
  rewrite fmap_cons, NoDup_cons in Hnd. destruct Hnd as [Hk Hnd]. rewrite IH by done.
  destruct (decide (s = k)) as [->|Hne].
  - rewrite not_elem_of_list_to_map_1 by done. by rewrite !lookup_insert_eq.
  - by rewrite !lookup_insert_ne by done.
Qed.

(** The clock of a network machine is in step with its time. *)
Definition clock_agrees (m : NetMach) : Prop :=
  length (machTime m) = length m.(nm_stateNames)
  ∧ ∀ i s, m.(nm_stateNames) !! i = Some s → machClock m !! s = machTime m !! i.

Lemma clock_agrees_set m now c q mt act :
  clock_agrees m → NoDup m.(nm_stateNames) → length now = length m.(nm_stateNames) →
  set_machClock m.(nm_stateNames) now (machClock m) = Ok c →
  clock_agrees (nm_with_clk (mkNetClock now c q mt act) m).
Proof.
  intros _ Hnd Hl. rewrite set_machClock_ok by done. intros [= <-]. split; [done|]. cbn.
  intros i s Hi. rewrite fold_insert_lookup by (by rewrite fst_zip by lia).
  destruct (lookup_lt_is_Some_2 now i) as [v Hv].
  { rewrite Hl. by eapply lookup_lt_Some. }
  rewrite Hv. erewrite elem_of_list_to_map_1; [done|by rewrite fst_zip by lia|].
  apply list_elem_of_lookup. exists i. rewrite lookup_zip_with, Hi. cbn. by rewrite Hv.
Qed.

(** What a clock update leaves: the time given, the states it makes active and
    those they require. *)
Record updated (now : list Z) (q mt : Z) (m m' : NetMach) : Prop := {
  up_time : machTime m' = now;
  up_queue : m'.(nm_clk).(nc_queueTick) = q;
  up_mach : m'.(nm_clk).(nc_machTick) = mt;
  up_agrees : clock_agrees m';
  up_names : m'.(nm_stateNames) = m.(nm_stateNames);
  up_schema : m'.(nm_schema) = m.(nm_schema);
  up_info : m'.(nm_info) = m.(nm_info);
  up_active : ∀ s, s ∈ Net.ActiveStates m' None ↔
    ∃ t i v, m.(nm_stateNames) !! i = Some t ∧ now !! i = Some v ∧ IsActiveTick v = true
      ∧ rtc (requires (default ∅ m.(nm_schema))) t s;
}.

Lemma elem_of_active names now t :
  t ∈ (slicesFilter (zip names now) (λ p : string * Z, IsActiveTick p.2)).*1
  ↔ ∃ i v, names !! i = Some t ∧ now !! i = Some v ∧ IsActiveTick v = true.
Proof.
  rewrite list_elem_of_fmap. split.
  - intros ([k v] & -> & [Hin Hp]%elem_of_slicesFilter).
    apply list_elem_of_lookup in Hin as [i Hi]. apply lookup_zip_with_Some in Hi as (a & b & He & Ha & Hb).
    injection He as -> ->. by exists i, b.
  - intros (i & v & Hi & Hv & Ha). exists (t, v). split; [done|]. apply elem_of_slicesFilter.
    split; [|done]. apply list_elem_of_lookup. exists i. rewrite lookup_zip_with, Hi. cbn. by rewrite Hv.
Qed.

Lemma requires_empty x y : ¬ requires ∅ x y.
Proof. unfold requires, schema_get. rewrite lookup_empty. cbn. apply not_elem_of_nil. Qed.

Lemma activateRequired_spec sch active s :
  s ∈ activateRequired sch active ↔ ∃ t, t ∈ active ∧ rtc (requires (default ∅ sch)) t s.
Proof.
  destruct sch as [sch|]; unfold activateRequired.
  - destruct (activateRequired_some sch active) as (a' & -> & Ha). rewrite elem_of_slicesUniq.
    apply Ha.
  - split; [intros Hs; by exists s|]. intros (t & Ht & Hr). destruct Hr as [|x y z Hxy]; [done|].
    by apply requires_empty in Hxy.
Qed.

(** Everything but the subscriptions and the records of what was called or
    closed. *)
Record nm_same (m m' : NetMach) : Prop := {
  ns_clk : m'.(nm_clk) = m.(nm_clk);
  ns_schema : m'.(nm_schema) = m.(nm_schema);
  ns_names : m'.(nm_stateNames) = m.(nm_stateNames);
  ns_info : m'.(nm_info) = m.(nm_info);
}.

Lemma nm_same_refl m : nm_same m m.
Proof. by split. Qed.

Lemma nm_same_trans m1 m2 m3 : nm_same m1 m2 → nm_same m2 m3 → nm_same m1 m3.
Proof. intros [] []. split; congruence. Qed.

Definition quiet_code {A} (f : run NetMach A) : Prop := ∀ m, keeps (nm_same m) f.

Lemma quiet_modify f : (∀ m, nm_same m (f m)) → quiet_code (modify f).
Proof. intros Hf m. apply keeps_modify. intros m' Hm. by eapply nm_same_trans. Qed.

Lemma close_all_quiet chs : quiet_code (close_all chs).
Proof.
  intros m. unfold close_all. apply keeps_bind; [apply keeps_get|intros m1].
  case_bool_decide; [|apply keeps_panic]. by apply quiet_modify.
Qed.

Lemma queueFlush_quiet : quiet_code queueFlush.
Proof. by apply quiet_modify. Qed.

Lemma processHandlers_quiet a d : quiet_code (NetMach.processHandlers a d).
Proof.
  intros m. unfold NetMach.processHandlers. case_bool_decide; [apply keeps_ret|]. by apply quiet_modify.
Qed.

Lemma processSubscriptions_quiet done a d before :
  quiet_code (NetMach.processSubscriptions done a d before).
Proof.
  intros m. unfold NetMach.processSubscriptions. apply keeps_bind; [apply keeps_get|intros m1].
  destruct (ProcessStateCtx _ _ _) as [sc cancels].
  apply keeps_bind; [apply keeps_lift|intros [sm chs]].
  apply keeps_bind; [by apply quiet_modify|intros _].
  apply keeps_bind; [by apply quiet_modify|intros _]. apply close_all_quiet.
Qed.

Section update.
Context (done : nat → bool).

(** The rest of [updateClock], once the new active states and the new clock are
    known. *)
Definition after_clock (activated deactivated : list string) (before : gmap string Z) (flush : bool)
    (clk : NetClock) : run NetMach () :=
  (if flush then queueFlush else mret ()) ;;
  modify (nm_with_clk clk) ;;
  NetMach.processHandlers activated deactivated ;;
  NetMach.processSubscriptions done activated deactivated before.

Lemma after_clock_same a d before flush clk m m' :
  after_clock a d before flush clk m = Ok ((), m') → nm_same (nm_with_clk clk m) m'.
Proof.
  unfold after_clock. intros ([] & m1 & Hf & He)%run_bind_ok.
  assert (H1 : nm_same m m1).
  { destruct flush; [by eapply queueFlush_quiet; [apply nm_same_refl|]|]. injection Hf as <-. apply nm_same_refl. }
  apply run_bind_ok in He as ([] & m2 & Hm & He). injection Hm as <-.
  apply run_bind_ok in He as ([] & m3 & Hh & He).
  eapply processHandlers_quiet in Hh; [|apply nm_same_refl].
  eapply processSubscriptions_quiet in He; [|apply nm_same_refl].
  eapply nm_same_trans; [|exact He]. eapply nm_same_trans; [|exact Hh].
  destruct H1. by split.
Qed.

Lemma after_clock_returns a d before flush clk m :
  waitless m.(nm_subs) → NoDup m.(nm_closed) →
  ∃ m', after_clock a d before flush clk m = Ok ((), m') ∧ waitless m'.(nm_subs)
    ∧ NoDup m'.(nm_closed).
Proof.
  intros Hw Hnd. unfold after_clock.
  assert (∃ m1, (if flush then queueFlush else mret ()) m = Ok ((), m1)
    ∧ m1.(nm_subs) = m.(nm_subs) ∧ m1.(nm_closed) = m.(nm_closed)) as (m1 & Hf & Hs1 & Hc1).
  { destruct flush; [|by exists m]. eexists. split; [reflexivity|]. split; [done|].
    destruct Hw as (n & c & sc & Hw). cbn. rewrite Hw. cbn. by rewrite app_nil_r. }
  assert (∃ m2, NetMach.processHandlers a d (nm_with_clk clk m1) = Ok ((), m2)
    ∧ m2.(nm_subs) = m.(nm_subs) ∧ m2.(nm_closed) = m.(nm_closed)) as (m2 & Hh & Hs2 & Hc2).
  { unfold NetMach.processHandlers. case_bool_decide; [by eexists|]. eexists. split; [reflexivity|done]. }
  unfold mbind, run_bind. rewrite Hf. cbn. rewrite Hh.
  unfold NetMach.processSubscriptions, mbind, run_bind, get.
  destruct (ProcessStateCtx a d m2.(nm_subs).(sm_stateCtx)) as [sc cancels].
  rewrite Hs2. destruct Hw as (n & c & sc0 & Hw). rewrite Hw. unfold lift.
  cbn [sm_next sm_clock sm_stateCtx sm_when sm_time sm_sum sm_args sm_query sm_queue].
  rewrite process_all_waitless by (by exists n, c, sc). cbn.
  unfold close_all, mbind, run_bind, get. cbn. rewrite Hc2, app_nil_r, bool_decide_eq_true_2.
  - eexists. split; [reflexivity|]. cbn. rewrite !app_nil_r. split; [by eexists _, _, _|by rewrite Hc2].
  - by rewrite app_nil_r.
Qed.

Lemma updateClock_run now q mt m c :
  length now = length m.(nm_stateNames) →
  set_machClock m.(nm_stateNames) now (machClock m) = Ok c →
  let act := activateRequired m.(nm_schema)
    (slicesFilter (zip m.(nm_stateNames) now) (λ p, IsActiveTick p.2)).*1 in
  updateClock done now q mt m
  = after_clock (StatesDiff act (Net.ActiveStates m None)) (StatesDiff (Net.ActiveStates m None) act)
      (machClock m) (bool_decide (q < m.(nm_clk).(nc_queueTick))) (mkNetClock now c q mt act) m.
Proof.
  intros Hl Hc act. unfold updateClock, mbind at 1, run_bind at 1, get.
  unfold mbind at 1, run_bind at 1, lift at 1.
  unfold Net.StateNames. rewrite active_now_ok by done. cbn [mbind outcome_bind].
  unfold mbind at 1, run_bind at 1, lift at 1. rewrite Hc. cbn [mbind outcome_bind].
  unfold after_clock. by case_bool_decide.
Qed.

(** An update of the right length that returns does what it says, whoever
    waits. *)
Lemma updateClock_updated now q mt m m' :
  clock_agrees m → NoDup m.(nm_stateNames) → length now = length m.(nm_stateNames) →
  updateClock done now q mt m = Ok ((), m') → updated now q mt m m'.
Proof.
  intros Hag Hnd Hl. destruct (set_machClock (nm_stateNames m) now (machClock m)) as [c| |] eqn:Hc;
    [|by rewrite set_machClock_ok in Hc by done..].
  rewrite (updateClock_run _ _ _ _ c) by done. intros [Hk Hs Hn Hi]%after_clock_same.
  pose proof (clock_agrees_set m now c q mt
    (activateRequired m.(nm_schema)
      (slicesFilter (zip m.(nm_stateNames) now) (λ p, IsActiveTick p.2)).*1) Hag Hnd Hl Hc) as [Ha1 Ha2].
  cbn in Hs, Hn, Hi. unfold clock_agrees, machTime, machClock, nm_with_clk in *. cbn in *.
  split; unfold clock_agrees, machTime, machClock; rewrite ?Hk, ?Hn; try done.
  intros s. unfold Net.ActiveStates. rewrite Hk. cbn. rewrite activateRequired_spec.
  setoid_rewrite elem_of_active. naive_solver.
Qed.

Lemma updateClock_returns now q mt m :
  length now = length m.(nm_stateNames) → waitless m.(nm_subs) → NoDup m.(nm_closed) →
  ∃ m', updateClock done now q mt m = Ok ((), m') ∧ waitless m'.(nm_subs) ∧ NoDup m'.(nm_closed).
Proof.
  intros Hl Hw Hnd. destruct (set_machClock (nm_stateNames m) now (machClock m)) as [c| |] eqn:Hc;
    [|by rewrite set_machClock_ok in Hc by done..].
  rewrite (updateClock_run _ _ _ _ c) by done. by apply after_clock_returns.
Qed.
End update.

(** C16: A clock update of the right length that returns leaves exactly the time, queue
    tick and machine tick it was given, a clock map in step with the time, and as
    active states the ones whose tick is odd together with everything they
    require, whoever waits on the machine; and it does return when nobody does. *)
Theorem updateClock_spec done now q mt m :
  clock_agrees m → NoDup m.(nm_stateNames) → length now = length m.(nm_stateNames) →
  (∀ m', updateClock done now q mt m = Ok ((), m') → updated now q mt m m')
  ∧ (waitless m.(nm_subs) → NoDup m.(nm_closed) →
     ∃ m', updateClock done now q mt m = Ok ((), m')).
Proof.
  intros Ha Hnd Hl. split; [intros m'; by apply updateClock_updated|].
  intros Hw Hc. destruct (updateClock_returns done now q mt m Hl Hw Hc) as (m' & Hu & _).
  by exists m'.
Qed.

Definition net_chain : NetMach := mkNetMach (mkNetInfo "net" "src" "parent" [] true false)
  (Some {["A" := set_Require zeroState (Some ["B"]); "B" := zeroState; "C" := set_Require zeroState (Some ["A"])]})
  ["A"; "B"; "C"] (mkNetClock [0; 0; 0] {["A" := 0; "B" := 0; "C" := 0]} 1 0 [])
  NewSubscriptionManager (mkNetBind [] 0 [] [] []) false None [] [].

(** Only [C] ticked, and it requires [A], which requires [B]. *)
Example updateClock_spec_witness :
  ∃ m', updateClock (λ _, false) [0; 0; 1] 4 1 net_chain = Ok ((), m')
    ∧ "B" ∈ Net.ActiveStates m' None ∧ machClock m' !! "C" = Some 1.
Proof.
  destruct (updateClock_spec (λ _, false) [0; 0; 1] 4 1 net_chain) as [Hu Hr].
  - split; [done|]. intros [|[|[|i]]] s [= <-]; by vm_compute.
  - by apply (bool_decide_unpack _).
  - done.
  - destruct Hr as (m' & Hm); [by eexists _, _, _|by apply NoDup_nil|].
    exists m'. split; [exact Hm|]. destruct (Hu m' Hm) as [Ht _ _ [_ Hag] Hn _ _ Hact]. split.
    + apply Hact. exists "C", 2%nat, 1. split_and!; [done..|].
      apply (rtc_l _ _ "A"); [left|]. apply (rtc_l _ _ "B"); [left|apply rtc_refl].
    + rewrite (Hag 2%nat "C") by by rewrite Hn. by rewrite Ht.
Defined.
