(* ===== verification/Rpc.v ===== *)
(** * The RPC server and client ([pkg/rpc]: [rpc.go], [rpc_server.go], [rpc_client.go])

    A server keeps a client's [NetworkMachine] in step with a source machine.
    Its tracer records the source's machine time after every transition
    ([TransitionEnd]); pushes and answers carry only what changed since the
    last one ([calcUpdate]): indexes and [uint32] differences of the tracked
    states, a [uint16] difference of the queue tick, a [uint8] difference of
    the machine tick, and a checksum of the absolute values.  The client adds
    the differences up and compares checksums ([clockUpdate]).

    The server and the client each drive a state machine of their own.  Here
    these are the names of its active states, which the methods read, and the
    list of the mutations they ask for; what those mutations lead to is up to
    the environment.  Time shows as the [early] argument of [PushClient].
    Locks, goroutines and the wire format are left out. *)

From S2P Require Import Prelude StateList SchemaDef MachTime Mutation Relations Subscriptions Machine Queue Waits NetMach.

#[local] Open Scope Z_scope.

Definition wrap8 (z : Z) : Z := z `mod` 2 ^ 8.

(** [uint8(mTime + qTick + uint64(machTick))] *)
Definition Checksum (mTime qTick machTick : Z) : Z := wrap8 (wrap64 (wrap64 (mTime + qTick) + machTick)).

(** ** Messages *)

Record MsgSrvUpdate := mkUpdate {
  mu_Indexes : list Z;
  mu_Ticks : list Z;
  mu_QueueTick : Z;
  mu_MachTick : Z;
  mu_Checksum : Z;
}.

Record MsgSrvUpdateMuts := mkUpdateMuts {
  mm_MutationType : list MutationType;
  mm_CalledStates : list (list Z);
  mm_Updates : list MsgSrvUpdate;
}.

Record MsgCliHello := mkCliHello {
  ch_Id : string;
  ch_SyncSchema : bool;
  ch_SchemaHash : string;
  ch_SyncMutations : bool;
  ch_AllowedStates : option (list string);
  ch_SkippedStates : list string;
  ch_ShallowClocks : bool;
}.

Record MsgSrvHello := mkSrvHello {
  sh_Schema : option (gmap string State);
  sh_Serialized : Serialized;
  sh_StatesCount : Z;
}.

Record MsgSrvMutation := mkSrvMutation {
  sm_Update : option MsgSrvUpdate;
  sm_Mutations : option MsgSrvUpdateMuts;
  sm_Result : Z;
}.

Record MsgSrvSync := mkSrvSync {
  ss_Time : list Z;
  ss_QueueTick : Z;
  ss_MachTick : Z;
}.

(** What the server sends by itself. *)
Inductive ClientMsg :=
| ClientUpdate (u : MsgSrvUpdate)
| ClientUpdateMutations (us : MsgSrvUpdateMuts)
| ClientSchemaChange (h : MsgSrvHello).

(** ** What the tracer collects *)

Record tracerData := mkData {
  td_mTrackedTimeSum : Z;
  td_mTime : list Z;
  td_queueTick : Z;
  td_machTick : Z;
  td_checksum : Z;
  td_tracked : list string;
  td_trackedIdxs : list Z;
}.

Record tracerMutation := mkTracerMut {
  tm_mutType : MutationType;
  tm_calledIdxs : list Z;
  tm_data : tracerData;
}.

Definition zeroData : tracerData := mkData 0 [] 0 0 0 [] [].

(** The machine after a transition, as a tracer reads it. *)
Record TxEnd := mkTxEnd {
  te_Mutation : Mutation;
  te_names : list string;
  te_time : list Z;
  te_queueTick : Z;
  te_machTick : Z;
}.

(** ** Differences *)

(** One round of the loops of [genDeepUpdate] and [genShallowUpdate]: the index
    the client knows the state by. *)
Definition pushed_idx (syncSchema : bool) (data : tracerData) (trackedIdx : nat) : outcome Z :=
  stateIdx ← slice_get data.(td_trackedIdxs) (Z.of_nat trackedIdx);
  Ok (wrap16 (if syncSchema then stateIdx else Z.of_nat trackedIdx)).

Definition deep_entry (syncSchema : bool) (data lastPush : tracerData) (trackedIdx : nat)
  : outcome (option (Z * Z)) :=
  let prev := lastPush.(td_mTime) in
  let now := data.(td_mTime) in
  p ← pushed_idx syncSchema data trackedIdx;
  if bool_decide (length prev ≤ trackedIdx)%nat then
    v ← slice_get now (Z.of_nat trackedIdx);
    if bool_decide (v = 0) then Ok None
    else w ← slice_get now p; Ok (Some (p, w `mod` 2 ^ 32))
  else
    a ← slice_get prev p;
    b ← slice_get now p;
    Ok (if bool_decide (a = b) then None else Some (p, wrap64 (b - a) `mod` 2 ^ 32)).

Definition shallow_entry (syncSchema : bool) (data lastPush : tracerData) (trackedIdx : nat)
  : outcome (option (Z * Z)) :=
  let prev := lastPush.(td_mTime) in
  let now := data.(td_mTime) in
  p ← pushed_idx syncSchema data trackedIdx;
  if bool_decide (Z.of_nat (length prev) ≤ p) then
    v ← slice_get now p;
    Ok (if bool_decide (v = 0) then None else Some (p, if IsActiveTick v then 1 else 0))
  else
    a ← slice_get prev p;
    b ← slice_get now p;
    Ok (if bool_decide (a `mod` 2 = b `mod` 2) then None else Some (p, 1)).

Definition gen_update (entry : nat → outcome (option (Z * Z))) (data : tracerData)
  : outcome (list (Z * Z)) :=
  l ← mapM entry (seq 0 (length data.(td_tracked)));
  Ok (omap id l).

Definition genDeepUpdate (syncSchema : bool) (data lastPush : tracerData) : outcome (list (Z * Z)) :=
  gen_update (deep_entry syncSchema data lastPush) data.
Definition genShallowUpdate (syncSchema : bool) (data lastPush : tracerData)
  : outcome (list (Z * Z)) :=
  gen_update (shallow_entry syncSchema data lastPush) data.

Definition calcUpdate (syncSchema : bool) (data lastPush : tracerData) (shallowClocks : bool)
  : outcome MsgSrvUpdate :=
  l ← (if shallowClocks then genShallowUpdate syncSchema data lastPush
       else genDeepUpdate syncSchema data lastPush);
  Ok (mkUpdate l.*1 l.*2 (wrap16 (wrap64 (data.(td_queueTick) - lastPush.(td_queueTick))))
        (wrap8 ((data.(td_machTick) - lastPush.(td_machTick)) `mod` 2 ^ 32)) data.(td_checksum)).

Fixpoint calcUpdates (syncSchema : bool) (muts : list tracerMutation) (prev : tracerData)
  : outcome (list MsgSrvUpdate) :=
  match muts with
  | [] => Ok []
  | mut :: muts =>
      u ← calcUpdate syncSchema mut.(tm_data) prev false;
      us ← calcUpdates syncSchema muts mut.(tm_data);
      Ok (u :: us)
  end.

Definition calcUpdateMutations (syncSchema : bool) (muts : list tracerMutation) (prev : tracerData)
  : outcome MsgSrvUpdateMuts :=
  us ← calcUpdates syncSchema muts prev;
  Ok (mkUpdateMuts (tm_mutType <$> muts) ((λ m, wrap16 <$> m.(tm_calledIdxs)) <$> muts) us).

(** ** The server *)

(** A mutation a component asks its own machine for. *)
Inductive OwnMut :=
| OwnAdd (state : string)
| OwnRemove (state : string)
| OwnErr (state msg : string).

Record SyncOpts := mkSyncOpts {
  so_mutations : bool;
  so_allowed : option (list string);
  so_skipped : list string;
  so_schema : bool;
  so_shallow : bool;
}.

(** [sv_lastPushData] is a pointer, [None] for [nil]; [sv_tracked] is [None]
    until it is calculated. *)
Record Server := mkServer {
  sv_states : list string;
  sv_muts : list OwnMut;
  sv_sync : SyncOpts;
  sv_active : bool;
  sv_tracked : option (list string);
  sv_trackedIdxs : list Z;
  sv_dataLatest : option tracerData;
  sv_dataQueue : list tracerMutation;
  sv_lastPushData : option tracerData;
  sv_client : bool;
  sv_clientId : option string;
  sv_AllowedMachIds : list string;
  sv_PushInterval : Z;
  sv_CallCount : Z;
  sv_out : list ClientMsg;
}.

Definition NewServer (allowedIds : list string) : Server :=
  mkServer [] [] (mkSyncOpts false None [] false false) false None []
    (Some (mkData 0 [] 1 0 0 [] [])) [] (Some zeroData) false None allowedIds 250 0 [].

Definition sv_is (s : Server) (state : string) : bool := contains s.(sv_states) state.

Definition sv_mut (mut : OwnMut) (s : Server) : Server :=
  mkServer s.(sv_states) (s.(sv_muts) ++ [mut]) s.(sv_sync) s.(sv_active) s.(sv_tracked)
    s.(sv_trackedIdxs) s.(sv_dataLatest) s.(sv_dataQueue) s.(sv_lastPushData) s.(sv_client)
    s.(sv_clientId) s.(sv_AllowedMachIds) s.(sv_PushInterval) s.(sv_CallCount) s.(sv_out).
Definition sv_set_tracked (l : list string) (idxs : list Z) (s : Server) : Server :=
  mkServer s.(sv_states) s.(sv_muts) s.(sv_sync) s.(sv_active) (Some l) idxs
    s.(sv_dataLatest) s.(sv_dataQueue) s.(sv_lastPushData) s.(sv_client)
    s.(sv_clientId) s.(sv_AllowedMachIds) s.(sv_PushInterval) s.(sv_CallCount) s.(sv_out).
Definition sv_set_data (latest : option tracerData) (q : list tracerMutation) (s : Server) : Server :=
  mkServer s.(sv_states) s.(sv_muts) s.(sv_sync) s.(sv_active) s.(sv_tracked)
    s.(sv_trackedIdxs) latest q s.(sv_lastPushData) s.(sv_client)
    s.(sv_clientId) s.(sv_AllowedMachIds) s.(sv_PushInterval) s.(sv_CallCount) s.(sv_out).
Definition storeLastPush (data : option tracerData) (s : Server) : Server :=
  mkServer s.(sv_states) s.(sv_muts) s.(sv_sync) s.(sv_active) s.(sv_tracked)
    s.(sv_trackedIdxs) s.(sv_dataLatest) s.(sv_dataQueue) data s.(sv_client)
    s.(sv_clientId) s.(sv_AllowedMachIds) s.(sv_PushInterval) s.(sv_CallCount) s.(sv_out).
Definition sv_set_client (c : bool) (id : option string) (s : Server) : Server :=
  mkServer s.(sv_states) s.(sv_muts) s.(sv_sync) s.(sv_active) s.(sv_tracked)
    s.(sv_trackedIdxs) s.(sv_dataLatest) s.(sv_dataQueue) s.(sv_lastPushData) c id
    s.(sv_AllowedMachIds) s.(sv_PushInterval) s.(sv_CallCount) s.(sv_out).
Definition sv_set_sync (o : SyncOpts) (active : bool) (s : Server) : Server :=
  mkServer s.(sv_states) s.(sv_muts) o active s.(sv_tracked)
    s.(sv_trackedIdxs) s.(sv_dataLatest) s.(sv_dataQueue) s.(sv_lastPushData) s.(sv_client)
    s.(sv_clientId) s.(sv_AllowedMachIds) s.(sv_PushInterval) s.(sv_CallCount) s.(sv_out).
Definition sv_send (msg : ClientMsg) (s : Server) : Server :=
  mkServer s.(sv_states) s.(sv_muts) s.(sv_sync) s.(sv_active) s.(sv_tracked)
    s.(sv_trackedIdxs) s.(sv_dataLatest) s.(sv_dataQueue) s.(sv_lastPushData) s.(sv_client)
    s.(sv_clientId) s.(sv_AllowedMachIds) s.(sv_PushInterval) (s.(sv_CallCount) + 1)
    (s.(sv_out) ++ [msg]).

(** *** The tracer *)

Definition tracked_states (o : SyncOpts) (states : list string) : list string :=
  StatesDiff (match o.(so_allowed) with Some l => StatesShared states l | None => states end)
    o.(so_skipped).

Definition calcTrackedStates (states : list string) (s : Server) : Server :=
  let tracked := tracked_states s.(sv_sync) states in
  sv_set_tracked tracked (index_of states <$> tracked) s.

(** What [TransitionEnd] makes of the machine's time. *)
Definition trace_data (o : SyncOpts) (tracked : list string) (idxs : list Z) (tx : TxEnd)
  : outcome tracerData :=
  trackedTime ← MachTime.Time.Filter tx.(te_time) idxs;
  let sum := time_sum trackedTime in
  let mTime := if o.(so_schema) then tx.(te_time) else trackedTime in
  r ← (if o.(so_shallow) then
         t ← NewTime mTime (MachTime.Time.ActiveStates mTime None); Ok (t, time_sum t)
       else Ok (mTime, sum));
  let '(mTime, sum) := (r : list Z * Z) in
  Ok (mkData sum mTime tx.(te_queueTick) tx.(te_machTick)
        (Checksum sum tx.(te_queueTick) tx.(te_machTick)) tracked idxs).

Definition TransitionEnd (tx : TxEnd) : run Server () :=
  s ← get;
  if negb s.(sv_active) then mret ()
  else
    (if bool_decide (s.(sv_tracked) = None) then modify (calcTrackedStates tx.(te_names)) else mret ()) ;;
    s ← get;
    d ← lift (trace_data s.(sv_sync) (default [] s.(sv_tracked)) s.(sv_trackedIdxs) tx);
    let called := slicesFilter tx.(te_Mutation).(mut_Called)
                    (contains s.(sv_trackedIdxs)) in
    modify (sv_set_data (Some d)
      (if s.(sv_sync).(so_mutations)
       then s.(sv_dataQueue) ++ [mkTracerMut tx.(te_Mutation).(mut_Type) called d]
       else s.(sv_dataQueue))).

(** [DataQueue] returns the queue and drops the latest data; the queue stays. *)
Definition DataQueue : run Server (list tracerMutation) :=
  s ← get;
  modify (sv_set_data None s.(sv_dataQueue)) ;;
  mret s.(sv_dataQueue).

(** *** Pushing *)

(** [Notify] fails when the network does.  The deferred [PanicToErr] turns a panic
    while the update is made into an error of the server's machine: nothing is
    sent, and no error is returned. *)
Definition notify (netOk : bool) (msg : ClientMsg) : run Server bool :=
  modify (if netOk then sv_send msg else id) ;; mret netOk.

Definition push_with {A} (netOk : bool) (calc : outcome A) (empty : A → bool) (msg : A → ClientMsg)
  : run Server bool :=
  match calc with
  | Ok u => if empty u then mret true else notify netOk (msg u)
  | Panic err => modify (sv_mut (OwnErr StateException err)) ;; mret true
  | Block => block
  end.

Definition pushUpdateMutations (netOk : bool) (muts : list tracerMutation) (last : tracerData)
  : run Server bool :=
  s ← get;
  push_with netOk (calcUpdateMutations s.(sv_sync).(so_schema) muts last)
    (λ us, bool_decide (us.(mm_MutationType) = [])) ClientUpdateMutations.

Definition pushUpdateLatest (netOk : bool) (data last : tracerData) : run Server bool :=
  s ← get;
  push_with netOk (calcUpdate s.(sv_sync).(so_schema) data last s.(sv_sync).(so_shallow))
    (λ u, bool_decide (u.(mu_Indexes) = [])) ClientUpdate.

Definition PushClient (early netOk : bool) : run Server () :=
  s ← get;
  if negb s.(sv_client) || bool_decide (s.(sv_PushInterval) = 0)
     || negb (sv_is s "HandshakeDone") then mret ()
  else match s.(sv_dataLatest) with
  | None => mret ()
  | Some data =>
      match s.(sv_lastPushData) with
      | None => panic "nil pointer dereference"
      | Some last =>
          if bool_decide (last.(td_mTrackedTimeSum) = data.(td_mTrackedTimeSum))
             && bool_decide (last.(td_queueTick) = data.(td_queueTick)) then mret ()
          else if early then mret ()
          else
            ok ← (if s.(sv_sync).(so_mutations)
                  then muts ← DataQueue; pushUpdateMutations netOk muts last
                  else pushUpdateLatest netOk data last);
            if ok : bool then modify (storeLastPush (Some data))
            else modify (sv_mut (OwnRemove "ClientConnected")) ;;
                 modify (sv_mut (OwnErr StateException "pushClient"))
      end
  end.

(** The answer to a mutation call. *)
Definition newMsgMutation (result : Z) (data : option tracerData) : run Server MsgSrvMutation :=
  s ← get;
  if s.(sv_sync).(so_mutations) then
    muts ← DataQueue;
    us ← match s.(sv_lastPushData) with
         | Some last => lift (calcUpdateMutations s.(sv_sync).(so_schema) muts last)
         | None => if bool_decide (muts = []) then mret (mkUpdateMuts [] [] [])
                   else panic "nil pointer dereference"
         end;
    modify (storeLastPush data) ;;
    mret (mkSrvMutation None (Some us) result)
  else match data, s.(sv_lastPushData) with
  | Some d, Some last =>
      u ← lift (calcUpdate s.(sv_sync).(so_schema) d last s.(sv_sync).(so_shallow));
      modify (storeLastPush data) ;;
      mret (mkSrvMutation (Some u) None result)
  | _, _ => panic "nil pointer dereference"
  end.

(** *** The source machine, as far as the server uses it *)

Record SourceView := mkSourceView {
  sr_id : string;
  sr_names : list string;
  sr_time : list Z;
  sr_queueTick : Z;
  sr_machTick : Z;
  sr_schema : gmap string State;
}.

(** A mutation answers its result and the transitions it ended, oldest first,
    which is when the tracer is called. *)
Class StateSource (M : Type) := {
  source_view : M → SourceView;
  source_mutate : MutationType → list string → gmap string Val → option EventSrc →
    run M (Z * list TxEnd);
}.

(** *** Remote methods *)

Section remote_methods.
Context {M : Type} `{StateSource M} (schemaHash : gmap string State → string)
  (unmarshal : gmap string Val → gmap string Val).

(** What the handlers work on: the source and the server. *)
Definition on_server {A} (f : run Server A) : run (M * Server) A := λ w,
  match f w.2 with
  | Ok (a, s) => Ok (a, (w.1, s))
  | Panic msg => Panic msg
  | Block => Block
  end.

Definition on_source {A} (f : run M A) : run (M * Server) A := λ w,
  match f w.1 with
  | Ok (a, m) => Ok (a, (m, w.2))
  | Panic msg => Panic msg
  | Block => Block
  end.

Inductive RpcError := ErrCanceled | ErrInvalidParams | ErrNoAccess | ErrNoConn.

(** Ticks of states that are not tracked are zeroed when the schema is synced,
    and left out when it is not. *)
Definition hello_time (syncSchema : bool) (idxs : list Z) (time : list Z) : outcome (list Z) :=
  if syncSchema
  then Ok (imap (λ i v, if contains idxs (Z.of_nat i) then v else 0) time)
  else MachTime.Time.Filter time idxs.

Definition hello_data (time : list Z) (queueTick sum : Z) (last : tracerData) : tracerData :=
  mkData sum time queueTick last.(td_machTick) last.(td_checksum) last.(td_tracked)
    last.(td_trackedIdxs).

Definition RemoteHello (req : MsgCliHello) : run (M * Server) (RpcError + MsgSrvHello) :=
  w ← get;
  let '(src, s) := (w : M * Server) in
  if negb (sv_is s "Start") then mret (inl ErrCanceled)
  else if bool_decide (req.(ch_Id) = "") then
    on_server (modify (sv_mut (OwnRemove "Handshaking")) ;;
               modify (sv_mut (OwnErr "ErrRpc" "handshake failed: ID missing"))) ;;
    mret (inl ErrInvalidParams)
  else if negb (bool_decide (s.(sv_AllowedMachIds) = []))
          && negb (contains s.(sv_AllowedMachIds) req.(ch_Id)) then
    on_server (modify (sv_mut (OwnRemove "Handshaking"))) ;;
    mret (inl ErrNoAccess)
  else
    let v := source_view src in
    let o := mkSyncOpts req.(ch_SyncMutations) req.(ch_AllowedStates) req.(ch_SkippedStates)
               (s.(sv_sync).(so_schema) || req.(ch_SyncSchema)) req.(ch_ShallowClocks) in
    on_server (modify (sv_set_sync o true) ;; modify (calcTrackedStates v.(sr_names))) ;;
    let tracked := tracked_states o v.(sr_names) in
    let idxs := index_of v.(sr_names) <$> tracked in
    trackedTime ← lift (MachTime.Time.Filter v.(sr_time) idxs);
    time ← lift (hello_time req.(ch_SyncSchema) idxs v.(sr_time));
    let names := if req.(ch_SyncSchema) then v.(sr_names) else StatesShared v.(sr_names) tracked in
    let schema :=
      if req.(ch_SyncSchema) && (bool_decide (req.(ch_SchemaHash) = "")
           || negb (bool_decide (req.(ch_SchemaHash) = schemaHash v.(sr_schema))))
      then Some v.(sr_schema) else None in
    match s.(sv_lastPushData) with
    | None => panic "nil pointer dereference"
    | Some last =>
        on_server (
          modify (storeLastPush
            (Some (hello_data time v.(sr_queueTick) (time_sum trackedTime) last))) ;;
          modify (λ s, sv_set_client s.(sv_client) (Some req.(ch_Id)) s) ;;
          modify (sv_mut (OwnAdd "Handshaking"))) ;;
        mret (inr (mkSrvHello schema
          (mkSerialized v.(sr_id) names time v.(sr_queueTick) v.(sr_machTick))
          (Z.of_nat (length v.(sr_names)))))
    end.

Definition RemoteHandshake : run (M * Server) (option RpcError) :=
  w ← get;
  let '(src, s) := (w : M * Server) in
  if negb (sv_is s "Start") then mret (Some ErrCanceled)
  else match s.(sv_clientId) with
  | None => mret (Some ErrNoConn)
  | Some id =>
      on_server (modify (sv_set_client true (Some id)) ;;
                 modify (sv_mut (OwnAdd "HandshakeDone"))) ;;
      mret None
  end.

(** A mutation of the source, with the tracer called for each transition. *)
Fixpoint trace_all (txs : list TxEnd) : run Server () :=
  match txs with
  | [] => mret ()
  | tx :: txs => TransitionEnd tx ;; trace_all txs
  end.

Definition mutate_source (ty : MutationType) (req : MsgCliMutation) (event : option EventSrc)
  : run (M * Server) Z :=
  w ← get;
  names ← lift (IndexesToStates (source_view w.1).(sr_names) req.(cm_States));
  r ← on_source (source_mutate ty names (unmarshal req.(cm_Args)) event);
  let '(val, txs) := (r : Z * list TxEnd) in
  on_server (trace_all txs) ;;
  mret val.

(** The body of [RemoteAdd], [RemoteRemove] and [RemoteSet]; [states = None] is a
    [nil] list of states. *)
Definition remote_method (ty : MutationType) (req : MsgCliMutation) (event : option EventSrc)
  : run (M * Server) (RpcError + MsgSrvMutation) :=
  w ← get;
  if negb (sv_is w.2 "Start") then mret (inl ErrCanceled)
  else if bool_decide (req.(cm_States) = []) then mret (inl ErrInvalidParams)
  else
    val ← mutate_source ty req event;
    w ← get;
    r ← on_server (newMsgMutation val w.2.(sv_dataLatest));
    mret (inr r).

Definition RemoteAdd (req : MsgCliMutation) : run (M * Server) (RpcError + MsgSrvMutation) :=
  remote_method MutationAdd req req.(cm_Event).
Definition RemoteRemove (req : MsgCliMutation) : run (M * Server) (RpcError + MsgSrvMutation) :=
  remote_method MutationRemove req None.
Definition RemoteSet (req : MsgCliMutation) : run (M * Server) (RpcError + MsgSrvMutation) :=
  remote_method MutationSet req None.

Definition RemoteAddNS (req : MsgCliMutation) : run (M * Server) (option RpcError) :=
  w ← get;
  if negb (sv_is w.2 "Start") then mret (Some ErrCanceled)
  else if bool_decide (req.(cm_States) = []) then mret (Some ErrInvalidParams)
  else mutate_source MutationAdd req None ;; mret None.

(** The machine tick of the answer is not set. *)
Definition RemoteSync : run (M * Server) (RpcError + MsgSrvSync) :=
  w ← get;
  let '(src, s) := (w : M * Server) in
  if negb (sv_is s "Start") then mret (inl ErrCanceled)
  else
    on_server (modify (sv_mut (OwnAdd "MetricSync"))) ;;
    let v := source_view src in
    mret (inr (mkSrvSync v.(sr_time) v.(sr_queueTick) 0)).

Definition RemoteBye : run (M * Server) (option RpcError) :=
  w ← get;
  if negb (sv_is w.2 "Start") then mret (Some ErrCanceled)
  else
    on_server (modify (sv_mut (OwnRemove "ClientConnected")) ;;
               modify (sv_mut (OwnRemove "HandshakeDone")) ;;
               modify (sv_set_client false None)) ;;
    mret None.

(** The tracer's [SchemaChange]; the export is sent when a client is there.  The
    cached indexes are those of the old names. *)
Definition SchemaChange : run (M * Server) () :=
  w ← get;
  let '(src, s) := (w : M * Server) in
  if negb s.(sv_active) then mret ()
  else
    let v := source_view src in
    time ← lift (hello_time s.(sv_sync).(so_schema) s.(sv_trackedIdxs) v.(sr_time));
    let names := if s.(sv_sync).(so_schema) then v.(sr_names)
                 else StatesShared v.(sr_names) (default [] s.(sv_tracked)) in
    let msg := mkSrvHello (Some v.(sr_schema))
                 (mkSerialized v.(sr_id) names time v.(sr_queueTick) v.(sr_machTick))
                 (Z.of_nat (length v.(sr_names))) in
    (if bool_decide (s.(sv_tracked) = None)
     then on_server (modify (calcTrackedStates v.(sr_names))) else mret ()) ;;
    match s.(sv_lastPushData) with
    | None => panic "nil pointer dereference"
    | Some last =>
        let sum := time_sum time in
        on_server (
          modify (storeLastPush (Some (mkData sum time v.(sr_queueTick) last.(td_machTick)
            (Checksum sum v.(sr_queueTick) last.(td_machTick)) last.(td_tracked)
            last.(td_trackedIdxs)))) ;;
          (if s.(sv_client) then modify (sv_send (ClientSchemaChange msg)) else mret ()))
    end.

End remote_methods.

(** ** The client *)

Record Client := mkClient {
  cl_states : list string;
  cl_muts : list OwnMut;
  cl_sync : SyncOpts;
  cl_net : NetMach;
  cl_tracked : list string;
  cl_trackedIdxs : list Z;
  cl_rpc : bool;
  cl_CallRetries : nat;
}.

Definition cl_is (c : Client) (state : string) : bool := contains c.(cl_states) state.

Definition cl_mut (mut : OwnMut) (c : Client) : Client :=
  mkClient c.(cl_states) (c.(cl_muts) ++ [mut]) c.(cl_sync) c.(cl_net) c.(cl_tracked)
    c.(cl_trackedIdxs) c.(cl_rpc) c.(cl_CallRetries).
Definition cl_set_net (m : NetMach) (c : Client) : Client :=
  mkClient c.(cl_states) c.(cl_muts) c.(cl_sync) m c.(cl_tracked) c.(cl_trackedIdxs)
    c.(cl_rpc) c.(cl_CallRetries).
Definition cl_set_tracked (l : list string) (idxs : list Z) (c : Client) : Client :=
  mkClient c.(cl_states) c.(cl_muts) c.(cl_sync) c.(cl_net) l idxs c.(cl_rpc) c.(cl_CallRetries).

Section client.
Context (done : nat → bool).

Definition on_net {A} (f : run NetMach A) : run Client A := λ c,
  match f c.(cl_net) with
  | Ok (a, m) => Ok (a, cl_set_net m c)
  | Panic msg => Panic msg
  | Block => Block
  end.

(** [timeAfter[idx] += uint64(val)] for each index of the update. *)
Fixpoint apply_ticks (l : Z) (idxs ticks : list Z) (t : list Z) : outcome (list Z) :=
  match idxs, ticks with
  | [], _ => Ok t
  | _ :: _, [] => Panic "index out of range"
  | idx :: idxs, val :: ticks =>
      if bool_decide (l ≤ idx) then apply_ticks l idxs ticks t
      else
        v ← slice_get t idx;
        t ← slice_set t idx (wrap64 (v + val));
        apply_ticks l idxs ticks t
  end.

Definition clockFromUpdate (update : MsgSrvUpdate) (timeBefore : list Z)
    (qTickBefore machTickBefore : Z) : outcome (list Z * Z * Z) :=
  t ← apply_ticks (wrap16 (Z.of_nat (length timeBefore))) update.(mu_Indexes) update.(mu_Ticks)
        timeBefore;
  Ok (t, wrap64 (qTickBefore + update.(mu_QueueTick)),
      (machTickBefore + update.(mu_MachTick)) `mod` 2 ^ 32).

(** The values an update leads to, and whether their checksum is the update's. *)
Definition verify_update (c : Client) (update : MsgSrvUpdate) : outcome (list Z * Z * Z * bool) :=
  let m := c.(cl_net) in
  r ← clockFromUpdate update (machTime m) m.(nm_clk).(nc_queueTick) m.(nm_clk).(nc_machTick);
  let '(mTime, qTick, machTick) := (r : list Z * Z * Z) in
  checksumTime ← (if c.(cl_sync).(so_shallow) then NewTime mTime c.(cl_trackedIdxs) else Ok mTime);
  let check := Checksum (time_sum checksumTime) qTick machTick in
  Ok (mTime, qTick, machTick, bool_decide (check = update.(mu_Checksum))).

(** [false] in case of a clock drift. *)
Definition clockUpdate (update : MsgSrvUpdate) : run Client bool :=
  c ← get;
  if negb (cl_is c "HandshakeDone") then mret true
  else
    r ← lift (verify_update c update);
    let '(mTime, qTick, machTick, valid) := (r : list Z * Z * Z * bool) in
    if valid then on_net (updateClock done mTime qTick machTick) ;; mret true
    else mret false.

Fixpoint clockUpdates (updates : list MsgSrvUpdate) : run Client bool :=
  match updates with
  | [] => mret true
  | u :: updates =>
      ok ← clockUpdate u;
      if negb ok then mret false else clockUpdates updates
  end.

Definition clockUpdateMutations (msgs : MsgSrvUpdateMuts) : run Client bool :=
  c ← get;
  if negb (cl_is c "HandshakeDone") then mret true else clockUpdates msgs.(mm_Updates).

(** [mTime = None] is [nil]. *)
Definition clockSet (mTime : option (list Z)) (qTick machTick : Z) : run Client () :=
  c ← get;
  if negb (cl_is c "HandshakeDone") then mret ()
  else match mTime with
       | None => mret ()
       | Some t => on_net (updateClock done t qTick machTick)
       end.

Definition updateStatesSchema (resp : MsgSrvHello) : run Client () :=
  c ← get;
  let names := resp.(sh_Serialized).(ser_StateNames) in
  let time := resp.(sh_Serialized).(ser_Time) in
  if negb (bool_decide (length names = length time)) then
    modify (cl_mut (OwnErr StateException "resp.Serialized len invalid"))
  else
    let m := c.(cl_net) in
    let sch := match resp.(sh_Schema) with Some s => Some s | None => m.(nm_schema) end in
    let clk := fold_left (λ c p, <[p.1 := p.2]> c) (zip names time) (machClock m) in
    let m' := nm_with_clk (mkNetClock time clk resp.(sh_Serialized).(ser_QueueTick)
                m.(nm_clk).(nc_machTick) m.(nm_clk).(nc_activeStates)) (nm_with_names sch names m) in
    let tracked := tracked_states c.(cl_sync) names in
    modify (cl_set_net m') ;;
    modify (cl_set_tracked tracked (index_of names <$> tracked)).

(** [HandshakingState], from the answer to [Hello] on: whether the handshake is
    confirmed. *)
Definition Handshaking_resp (resp : MsgSrvHello) : run Client bool :=
  c ← get;
  let ser := resp.(sh_Serialized) in
  if bool_decide (ser.(ser_StateNames) = []) then
    modify (cl_mut (OwnErr "ErrRpc" "states missing")) ;; mret false
  else if bool_decide (ser.(ser_ID) = "") then
    modify (cl_mut (OwnErr "ErrRpc" "ID missing")) ;; mret false
  else if bool_decide (c.(cl_net).(nm_schema) = None) && bool_decide (resp.(sh_Schema) = None)
          && c.(cl_sync).(so_schema) then
    modify (cl_mut (OwnErr "ErrRpc" "schema missing")) ;; mret false
  else updateStatesSchema resp ;; mret true.

Definition HandshakeDoneEnter (id : string) (mTime : option (list Z)) (qTick : Z) : bool :=
  negb (bool_decide (id = "")) && bool_decide (is_Some mTime) && bool_decide (0 < qTick).

(** The machine tick is not among the arguments of the state. *)
Definition HandshakeDoneState (mTime : option (list Z)) (qTick : Z) : run Client () :=
  clockSet mTime qTick 0.

(** A message pushed by the server.  A failed update is not followed by a full
    sync, failed mutations are: then the answer is [true]. *)
Definition RemoteUpdate (update : MsgSrvUpdate) : run Client () := clockUpdate update ;; mret ().

Definition RemoteUpdateMutations (updates : MsgSrvUpdateMuts) : run Client bool :=
  ok ← clockUpdateMutations updates; mret (negb ok).

Definition RemoteSchemaChange (msg : MsgSrvHello) : run Client () := updateStatesSchema msg.

Definition client_receive (msg : ClientMsg) : run Client bool :=
  match msg with
  | ClientUpdate u => RemoteUpdate u ;; mret false
  | ClientUpdateMutations us => RemoteUpdateMutations us
  | ClientSchemaChange h => RemoteSchemaChange h ;; mret false
  end.

(** The answer to a [Sync] call. *)
Definition Sync_resp (resp : MsgSrvSync) : run Client bool :=
  c ← get;
  if bool_decide (0 < length resp.(ss_Time))%nat
     && negb (bool_decide (length resp.(ss_Time) = length (Net.StateNames c.(cl_net))))
  then modify (cl_mut (OwnErr "ErrRpc" "wrong clock len")) ;; mret false
  else clockSet (Some resp.(ss_Time)) resp.(ss_QueueTick) resp.(ss_MachTick) ;; mret true.

End client.

(** ** Calls *)

(** What the network does to a call: delivers both ways, loses the answer, loses
    the request, refuses to send it, or the caller's context ends first. *)
Inductive NetOutcome := Delivered | LostReply | LostRequest | NotSent | CtxExpired.

Record World (M : Type) := mkWorld {
  w_client : Client;
  w_source : M;
  w_server : Server;
  w_net : list NetOutcome;
}.
Arguments mkWorld {M} _ _ _ _.
Arguments w_client {M} _.
Arguments w_source {M} _.
Arguments w_server {M} _.
Arguments w_net {M} _.

Section calls.
Context {M : Type} `{StateSource M} (schemaHash : gmap string State → string)
  (unmarshal : gmap string Val → gmap string Val) (done : nat → bool).

Definition at_client {A} (f : run Client A) : run (World M) A := λ w,
  match f w.(w_client) with
  | Ok (a, c) => Ok (a, mkWorld c w.(w_source) w.(w_server) w.(w_net))
  | Panic msg => Panic msg
  | Block => Block
  end.

Definition at_server {A} (f : run (M * Server) A) : run (World M) A := λ w,
  match f (w.(w_source), w.(w_server)) with
  | Ok (a, (src, s)) => Ok (a, mkWorld w.(w_client) src s w.(w_net))
  | Panic msg => Panic msg
  | Block => Block
  end.

(** The next outcome; when the list ends, the context has. *)
Definition next_net : run (World M) NetOutcome := λ w,
  match w.(w_net) with
  | [] => Ok (CtxExpired, w)
  | o :: os => Ok (o, mkWorld w.(w_client) w.(w_source) w.(w_server) os)
  end.

(** One attempt: [inl true] when the context expired, [inl false] for any other
    failure, which is an error of the client's machine. *)
Definition call {A} (serve : run (M * Server) (RpcError + A)) : run (World M) (bool + A) :=
  o ← next_net;
  match o with
  | CtxExpired => mret (inl true)
  | LostRequest | NotSent =>
      at_client (modify (cl_mut (OwnErr "ErrNetworkTimeout" "timeout"))) ;; mret (inl false)
  | LostReply =>
      at_server serve ;;
      at_client (modify (cl_mut (OwnErr "ErrNetworkTimeout" "timeout"))) ;; mret (inl false)
  | Delivered =>
      r ← at_server serve;
      match r with
      | inl _ =>
          at_client (modify (cl_mut (OwnErr StateException "server error"))) ;; mret (inl false)
      | inr a => mret (inr a)
      end
  end.

Fixpoint retry_calls {A} (n : nat) (serve : run (M * Server) (RpcError + A))
  : run (World M) (option A) :=
  match n with
  | O => mret None
  | S n =>
      r ← call serve;
      match r with
      | inr a => mret (Some a)
      | inl true => mret None
      | inl false => retry_calls n serve
      end
  end.

Definition callFailsafe {A} (serve : run (M * Server) (RpcError + A)) : run (World M) (option A) :=
  c ← gets w_client;
  if negb c.(cl_rpc) || negb (cl_is c "Ready") then
    at_client (modify (cl_mut (OwnErr "ErrNetwork" "not connected"))) ;; mret None
  else
    r ← call serve;
    match r with
    | inr a => mret (Some a)
    | inl _ =>
        at_client (modify (cl_mut (OwnAdd "RetryingCall"))) ;;
        r ← retry_calls c.(cl_CallRetries) serve;
        at_client (modify (cl_mut (match r with
          | Some _ => OwnRemove "RetryingCall" | None => OwnAdd "CallRetryFailed" end))) ;;
        mret r
    end.

(** [Client.Sync]: whether the clock was set. *)
Definition Sync : run (World M) bool :=
  at_client (modify (cl_mut (OwnAdd "MetricSync"))) ;;
  r ← callFailsafe RemoteSync;
  match r with
  | None => mret false
  | Some resp => at_client (Sync_resp done resp)
  end.

Definition serve_mutation (method : ServerMethod) (req : MsgCliMutation)
  : run (M * Server) (RpcError + MsgSrvMutation) :=
  match method with
  | ServerAdd => RemoteAdd unmarshal req
  | ServerRemove => RemoteRemove unmarshal req
  | ServerSet => RemoteSet unmarshal req
  | _ => mret (inl ErrInvalidParams)
  end.

(** [clientNetMachConn.Call]: the clock is updated from the answer, or synced
    when that fails.  An answer without the part the client expects is a [nil]
    pointer, which a client that is connected follows. *)
Definition update_from {A} (part : option A) (f : A → run Client bool) : run Client bool :=
  c ← get;
  match part with
  | Some u => f u
  | None => if cl_is c "HandshakeDone" then panic "nil pointer dereference" else mret true
  end.

Definition conn_Call (method : ServerMethod) (req : MsgCliMutation) : run (World M) (option Z) :=
  r ← callFailsafe (serve_mutation method req);
  match r with
  | None => mret None
  | Some resp =>
      c ← gets w_client;
      synced ← at_client (if c.(cl_sync).(so_mutations)
                          then update_from resp.(sm_Mutations) (clockUpdateMutations done)
                          else update_from resp.(sm_Update) (clockUpdate done));
      (if synced : bool then mret () else Sync ;; mret ()) ;;
      mret (Some resp.(sm_Result))
  end.

(** [notify]: whether the message was sent; what happens to it later is not
    noticed. *)
Definition notify_once (req : MsgCliMutation) : run (World M) bool :=
  o ← next_net;
  match o with
  | Delivered | LostReply => at_server (RemoteAddNS unmarshal req) ;; mret true
  | LostRequest => mret true
  | NotSent => at_client (modify (cl_mut (OwnErr StateException "AddNS"))) ;; mret false
  | CtxExpired => mret false
  end.

Fixpoint notify_retries (n : nat) (req : MsgCliMutation) : run (World M) bool :=
  match n with
  | O => mret false
  | S n => ok ← notify_once req; if ok : bool then mret true else notify_retries n req
  end.

(** [notifyFailsafe] never sets [worked]: every retried message, sent or not, ends
    in [CallRetryFailed]. *)
Definition conn_Notify (method : ServerMethod) (req : MsgCliMutation) : run (World M) bool :=
  c ← gets w_client;
  if negb c.(cl_rpc) then
    at_client (modify (cl_mut (OwnErr "ErrNetwork" "not connected"))) ;; mret false
  else
    ok ← notify_once req;
    if ok : bool then mret true
    else
      at_client (modify (cl_mut (OwnAdd "RetryingCall"))) ;;
      ok ← notify_retries c.(cl_CallRetries) req;
      at_client (modify (cl_mut (OwnAdd "CallRetryFailed"))) ;;
      mret ok.

#[export] Instance World_conn : NetMachConn (World M) := {
  conn_mach := λ w, w.(w_client).(cl_net);
  conn_set := λ m w, mkWorld (cl_set_net m w.(w_client)) w.(w_source) w.(w_server) w.(w_net);
  Call := conn_Call;
  Notify := conn_Notify;
}.

#[export] Instance World_conn_laws : NetMachConnLaws (World M).
Proof.
  split.
  - done.
  - by intros [[] ? ? ?].
Qed.

End calls.
