(* ===== verification/RpcSync.v ===== *)
(** * The client mirrors the source ([pkg/rpc], deep clocks)

    A source machine, a server tracing it, and a client that receives the
    server's pushes in order.  The theorem is about every interleaving of
    transitions of the source, pushes, and deliveries: as long as the
    differences pushed fit their fields and no push loses a queue tick
    ([fits]), the client accepts every message, and with nothing in flight its
    clock is what was pushed last.

    The second part shows what goes wrong outside of these conditions, on
    concrete machines. *)

From S2P Require Import Prelude StateList SchemaDef MachTime Mutation Relations Subscriptions Machine Queue Waits NetMach Rpc.

#[local] Open Scope Z_scope.

(** ** Times as functions of state names *)

Lemma lookup_index (names : list string) s :
  s ∈ names → names !! Z.to_nat (index_of names s) = Some s.
Proof. intros Hs. by destruct (index_of_in names s Hs). Qed.

Lemma slice_get_index (f : string → Z) names s :
  s ∈ names → slice_get (f <$> names) (index_of names s) = Ok (f s).
Proof.
  intros Hs. destruct (index_of_in names s Hs) as [Hge Hl]. apply slice_get_ok. split; [done|].
  by rewrite list_lookup_fmap, Hl.
Qed.

Lemma slice_set_index (f : string → Z) names s v :
  NoDup names → s ∈ names →
  slice_set (f <$> names) (index_of names s) v = Ok ((λ x, if decide (x = s) then v else f x) <$> names).
Proof.
  intros Hnd Hs. destruct (index_of_in names s Hs) as [Hge Hl].
  pose proof (lookup_lt_Some _ _ _ Hl) as Hlt.
  rewrite slice_set_in by (rewrite length_fmap; lia). f_equal. apply list_eq. intros i.
  destruct (decide (i = Z.to_nat (index_of names s))) as [->|Hne].
  - rewrite list_lookup_insert_eq by (by rewrite length_fmap). rewrite list_lookup_fmap, Hl. cbn.
    by rewrite decide_True.
  - rewrite list_lookup_insert_ne by done. rewrite !list_lookup_fmap.
    destruct (names !! i) as [x|] eqn:Hx; [|done]. cbn. rewrite decide_False; [done|]. intros ->.
    apply Hne. by apply (NoDup_lookup names _ _ s).
Qed.

(** Every list of the right length is a function of the names. *)
Definition by_name (names : list string) (t : list Z) (s : string) : Z :=
  default 0 (t !! Z.to_nat (index_of names s)).

Lemma by_name_fmap names t :
  NoDup names → length t = length names → by_name names t <$> names = t.
Proof.
  intros Hnd Hl. apply list_eq. intros i. rewrite list_lookup_fmap.
  destruct (names !! i) as [s|] eqn:Hs; cbn.
  - unfold by_name. rewrite (index_of_lookup names i s Hnd Hs), Nat2Z.id.
    destruct (lookup_lt_is_Some_2 t i) as [v ->]; [|done]. rewrite Hl. by eapply lookup_lt_Some.
  - symmetry. apply lookup_ge_None_2. rewrite Hl. by apply lookup_ge_None_1.
Qed.

Lemma omap_id_fmap {A B} (f : A → option B) (l : list A) : omap id (f <$> l) = omap f l.
Proof. induction l as [|x l IH]; [done|]. cbn. rewrite IH. by destruct (f x). Qed.

(** Zeroing what is not kept leaves the sum of what is. *)
Lemma zsum_masked (f : string → Z) (keep : string → bool) l :
  zsum ((λ s, if keep s then f s else 0) <$> l) = zsum (f <$> slicesFilter l keep).
Proof.
  induction l as [|s l IH]; [done|]. rewrite slicesFilter_cons, fmap_cons. cbn [zsum foldr].
  fold (zsum ((λ s, if keep s then f s else 0) <$> l)). rewrite IH. by destruct (keep s).
Qed.

Lemma tracked_filter o names :
  ∃ keep, tracked_states o names = slicesFilter names keep.
Proof.
  unfold tracked_states, StatesDiff. destruct (so_allowed o) as [l|].
  - unfold StatesShared. exists (λ s, contains l s && negb (contains (so_skipped o) s)).
    unfold slicesFilter. rewrite list_filter_filter. apply list_filter_iff. intros s.
    destruct (contains l s), (contains (so_skipped o) s); cbn; tauto.
  - by eexists.
Qed.

(** ** The configuration of a client *)

(** What a source machine looks like at some moment. *)
Record Snap := mkSnap {
  sn_tick : string → Z;
  sn_queue : Z;
  sn_mach : Z;
}.

Section config.
Context (o : SyncOpts) (names : list string).

Definition tracked : list string := tracked_states o names.

(** The names of the states the client has. *)
Definition cnames : list string := if so_schema o then names else tracked.

Record config_ok : Prop := {
  co_nodup : NoDup names;
  co_len : Z.of_nat (length names) < 2 ^ 16;
  co_deep : so_shallow o = false;
  co_latest : so_mutations o = false;
}.

Record snap_ok (sn : Snap) : Prop := {
  sk_tick : ∀ s, is_u64 (sn_tick sn s);
  sk_queue : is_u64 (sn_queue sn);
  sk_mach : 0 ≤ sn_mach sn < 2 ^ 32;
}.

(** The client's time: ticks of states that are not tracked are zero. *)
Definition client_time (tick : string → Z) : list Z :=
  (λ s, if contains tracked s then tick s else 0) <$> cnames.

Definition snap_checksum (sn : Snap) : Z :=
  Checksum (time_sum (sn_tick sn <$> tracked)) (sn_queue sn) (sn_mach sn).

(** What the tracer keeps of a snapshot. *)
Definition data_of (sn : Snap) : tracerData :=
  mkData (time_sum (sn_tick sn <$> tracked)) (sn_tick sn <$> cnames) (sn_queue sn) (sn_mach sn)
    (snap_checksum sn) tracked (index_of names <$> tracked).

(** Data that shows a snapshot, as far as the tracked states go: what was pushed
    last, or what the handshake left. *)
Record shows (sn : Snap) (d : tracerData) : Prop := {
  sw_time : ∃ g, td_mTime d = g <$> cnames ∧ ∀ s, s ∈ tracked → g s = sn_tick sn s;
  sw_queue : td_queueTick d = sn_queue sn;
  sw_mach : td_machTick d = sn_mach sn;
}.

(** The differences fit the fields of the message. *)
Record fits (sn0 sn1 : Snap) : Prop := {
  ft_tick : ∀ s, s ∈ tracked → wrap64 (sn_tick sn1 s - sn_tick sn0 s) < 2 ^ 32;
  ft_queue : wrap64 (sn_queue sn1 - sn_queue sn0) < 2 ^ 16;
  ft_mach : (sn_mach sn1 - sn_mach sn0) `mod` 2 ^ 32 < 2 ^ 8;
}.

(** A push that finds no tracked state changed is not sent: then no other tick may
    have changed either. *)
Definition nothing_lost (sn0 sn1 : Snap) : Prop :=
  (∀ s, s ∈ tracked → sn_tick sn1 s = sn_tick sn0 s) →
  sn_queue sn1 = sn_queue sn0 ∧ sn_mach sn1 = sn_mach sn0.

(** The entry of a tracked state in an update. *)
Definition entry (sn0 sn1 : Snap) (s : string) : option (Z * Z) :=
  if bool_decide (sn_tick sn0 s = sn_tick sn1 s) then None
  else Some (index_of cnames s, wrap64 (sn_tick sn1 s - sn_tick sn0 s) `mod` 2 ^ 32).

Definition update_of (sn0 sn1 : Snap) : MsgSrvUpdate :=
  mkUpdate (omap (entry sn0 sn1) tracked).*1 (omap (entry sn0 sn1) tracked).*2
    (wrap16 (wrap64 (sn_queue sn1 - sn_queue sn0)))
    (wrap8 ((sn_mach sn1 - sn_mach sn0) `mod` 2 ^ 32)) (snap_checksum sn1).

(** ** Lemmas *)

Context (Hcfg : config_ok).

Lemma tracked_subseteq s : s ∈ tracked → s ∈ names.
Proof.
  unfold tracked. destruct (tracked_filter o names) as [keep ->].
  by intros [? _]%elem_of_slicesFilter.
Qed.

Lemma NoDup_tracked : NoDup tracked.
Proof.
  unfold tracked. destruct (tracked_filter o names) as [keep ->].
  apply NoDup_slicesFilter, Hcfg.
Qed.

Lemma NoDup_cnames : NoDup cnames.
Proof. unfold cnames. destruct (so_schema o); [apply Hcfg|apply NoDup_tracked]. Qed.

Lemma tracked_cnames s : s ∈ tracked → s ∈ cnames.
Proof. intros Hs. unfold cnames. destruct (so_schema o); [by apply tracked_subseteq|done]. Qed.

Lemma length_cnames : (length cnames ≤ length names)%nat.
Proof.
  unfold cnames. destruct (so_schema o); [done|]. unfold tracked.
  destruct (tracked_filter o names) as [keep ->]. apply length_slicesFilter.
Qed.

Lemma index_cnames s : s ∈ cnames → 0 ≤ index_of cnames s < 2 ^ 16.
Proof.
  intros Hs. destruct (index_of_in cnames s Hs) as [Hge Hl].
  apply lookup_lt_Some in Hl. pose proof length_cnames. pose proof (co_len Hcfg). lia.
Qed.

Lemma shared_tracked : StatesShared names tracked = tracked.
Proof.
  unfold StatesShared, tracked. destruct (tracked_filter o names) as [keep Hk]. rewrite Hk.
  apply slicesFilter_ext. intros s Hs. destruct (contains (slicesFilter names keep) s) eqn:E.
  - apply contains_true, elem_of_slicesFilter in E. by destruct E.
  - apply contains_false in E. destruct (keep s) eqn:Ek; [|done]. destruct E.
    by apply elem_of_slicesFilter.
Qed.

(** The checksum of the client's time is that of the tracked ticks. *)
Lemma client_time_sum tick : time_sum (client_time tick) = time_sum (tick <$> tracked).
Proof.
  rewrite !time_sum_eq. f_equal. unfold client_time. rewrite (zsum_masked tick (contains tracked)).
  f_equal. f_equal. unfold cnames. destruct (so_schema o); [apply shared_tracked|].
  apply slicesFilter_all. intros s Hs. by apply contains_true.
Qed.

Lemma client_time_ext tick tick' :
  (∀ s, s ∈ tracked → tick s = tick' s) → client_time tick = client_time tick'.
Proof.
  intros Ht. unfold client_time. apply list_fmap_ext. intros i s _.
  destruct (contains tracked s) eqn:E; [|done]. by apply Ht, contains_true.
Qed.

Lemma filter_tracked (tick : string → Z) :
  MachTime.Time.Filter (tick <$> names) (index_of names <$> tracked) = Ok (tick <$> tracked).
Proof.
  unfold MachTime.Time.Filter. apply mapM_ok_fmap. intros s Hs%tracked_subseteq.
  destruct (index_of_in names s Hs) as [Hge Hl]. apply lookup_lt_Some in Hl.
  rewrite bool_decide_eq_false_2 by (unfold MachTime.len; rewrite length_fmap; lia).
  by apply slice_get_index.
Qed.

Lemma hello_time_of (tick : string → Z) :
  hello_time (so_schema o) (index_of names <$> tracked) (tick <$> names) = Ok (client_time tick).
Proof.
  unfold hello_time, client_time, cnames. destruct (so_schema o).
  - f_equal. apply list_eq. intros i. rewrite list_lookup_imap, !list_lookup_fmap.
    destruct (names !! i) as [s|] eqn:Hs; [|done]. cbn. f_equal.
    assert (contains (index_of names <$> tracked) (Z.of_nat i) = contains tracked s) as ->; [|done].
    rewrite <- (index_of_lookup names i s (co_nodup Hcfg) Hs).
    apply bool_decide_ext. rewrite list_elem_of_fmap. split; [|by exists s].
    intros (x & He & Hx). apply index_of_inj in He; [by subst|by eapply list_elem_of_lookup_2].
  - rewrite filter_tracked. f_equal. apply list_fmap_ext. intros i s Hs%list_elem_of_lookup_2.
    by rewrite (proj2 (contains_true _ _) Hs).
Qed.

(** The tracer makes [data_of] the snapshot. *)
Lemma trace_data_of sn tx :
  te_time tx = sn_tick sn <$> names → te_queueTick tx = sn_queue sn →
  te_machTick tx = sn_mach sn →
  trace_data o tracked (index_of names <$> tracked) tx = Ok (data_of sn).
Proof.
  intros Ht Hq Hm. unfold trace_data. rewrite (co_deep Hcfg), Ht, filter_tracked.
  cbn [mbind outcome_bind]. rewrite Hq, Hm. unfold data_of, snap_checksum, cnames.
  by destruct (so_schema o).
Qed.

Lemma deep_entry_eq sn0 sn1 d0 k s :
  shows sn0 d0 → tracked !! k = Some s →
  deep_entry (so_schema o) (data_of sn1) d0 k = Ok (entry sn0 sn1 s).
Proof.
  intros [(g & Hg & Hgs) _ _] Hk. assert (Hs : s ∈ tracked) by by eapply list_elem_of_lookup_2.
  unfold deep_entry. rewrite Hg.
  assert (pushed_idx (so_schema o) (data_of sn1) k = Ok (index_of cnames s)) as ->.
  { unfold pushed_idx. cbn [td_trackedIdxs data_of].
    rewrite (slice_get_nat _ _ (index_of names s)) by (by rewrite list_lookup_fmap, Hk).
    cbn [mbind outcome_bind]. f_equal.
    pose proof (index_cnames s (tracked_cnames s Hs)) as Hi. unfold wrap16.
    assert ((if so_schema o then index_of names s else Z.of_nat k) = index_of cnames s) as ->.
    { unfold cnames. destruct (so_schema o); [done|]. symmetry. apply index_of_lookup; [apply NoDup_tracked|done]. }
    by apply Z.mod_small. }
  cbn [mbind outcome_bind]. rewrite length_fmap.
  assert (Hlt : (k < length cnames)%nat).
  { pose proof (lookup_lt_Some _ _ _ Hk). eapply Nat.lt_le_trans; [done|].
    unfold cnames. destruct (so_schema o); [|done]. unfold tracked.
    destruct (tracked_filter o names) as [keep ->]. apply length_slicesFilter. }
  rewrite bool_decide_eq_false_2 by lia. cbn [td_mTime data_of].
  rewrite !slice_get_index by (by apply tracked_cnames). cbn [mbind outcome_bind].
  unfold entry. by rewrite (Hgs s Hs).
Qed.

Lemma calcUpdate_of sn0 sn1 d0 :
  shows sn0 d0 → calcUpdate (so_schema o) (data_of sn1) d0 false = Ok (update_of sn0 sn1).
Proof.
  intros Hsh. unfold calcUpdate, genDeepUpdate, gen_update. cbn [td_tracked data_of].
  assert (mapM (deep_entry (so_schema o) (data_of sn1) d0) (seq 0 (length tracked))
    = Ok (entry sn0 sn1 <$> tracked)) as ->.
  { assert (Hseq : seq 0 (length tracked) = imap (λ i (_ : string), i) tracked).
    { apply list_eq. intros i. rewrite list_lookup_imap.
      destruct (tracked !! i) eqn:Hi; cbn.
      - apply lookup_seq. split; [lia|]. by eapply lookup_lt_Some.
      - apply lookup_ge_None_1 in Hi. apply lookup_ge_None_2. by rewrite length_seq. }
    rewrite Hseq. assert (Hgen : ∀ l n, (∀ i s, l !! i = Some s → tracked !! (n + i)%nat = Some s) →
      mapM (deep_entry (so_schema o) (data_of sn1) d0) (imap (λ i (_ : string), (n + i)%nat) l)
      = Ok (entry sn0 sn1 <$> l)).
    { induction l as [|s l IH]; intros n Hl; [done|]. rewrite imap_cons, fmap_cons.
      apply mapM_ok_cons.
      - apply deep_entry_eq; [done|]. by apply Hl.
      - rewrite (imap_ext _ (λ i _, (S n + i)%nat)); [|intros; cbn; lia].
        apply (IH (S n)). intros i x Hi. replace (S n + i)%nat with (n + S i)%nat by lia. by apply Hl. }
    by apply (Hgen tracked 0%nat). }
  cbn [mbind outcome_bind]. rewrite omap_id_fmap. destruct Hsh as [_ Hq Hm].
  unfold update_of. cbn [td_queueTick td_machTick td_checksum data_of].
  rewrite Hq, Hm. done.
Qed.

(** ** The client's side *)

Lemma apply_entries sn0 sn1 l (tick : string → Z) :
  NoDup l → l ⊆ tracked → (∀ s, s ∈ tracked → wrap64 (sn_tick sn1 s - sn_tick sn0 s) < 2 ^ 32) →
  snap_ok sn1 → (∀ s, s ∈ l → tick s = sn_tick sn0 s) →
  apply_ticks (wrap16 (Z.of_nat (length (client_time tick))))
    (omap (entry sn0 sn1) l).*1 (omap (entry sn0 sn1) l).*2 (client_time tick)
  = Ok (client_time (λ s, if contains l s then sn_tick sn1 s else tick s)).
Proof.
  intros Hnd Hsub Hfit Hok. assert (Hlen : wrap16 (Z.of_nat (length (client_time tick)))
    = Z.of_nat (length cnames)).
  { unfold client_time. rewrite length_fmap. pose proof length_cnames. pose proof (co_len Hcfg).
    unfold wrap16. apply Z.mod_small. lia. }
  rewrite Hlen. clear Hlen. revert tick. induction Hnd as [|s l Hs Hnd IH]; intros tick Htick.
  { cbn. f_equal. }
  assert (Hst : s ∈ tracked) by (apply Hsub; left). cbn [omap list_omap].
  assert (Hstep : ∀ tick', (∀ x, x ∈ tracked → tick' x = if decide (x = s) then sn_tick sn1 s else tick x) →
    apply_ticks (Z.of_nat (length cnames)) (omap (entry sn0 sn1) l).*1 (omap (entry sn0 sn1) l).*2
      (client_time tick') = Ok (client_time (λ x, if contains (s :: l) x then sn_tick sn1 x else tick x))).
  { intros tick' Ht'. rewrite IH.
    - f_equal. apply client_time_ext. intros x Hx. rewrite contains_cons, Ht' by done.
      case_decide as Hxs; [subst x; rewrite bool_decide_eq_true_2 by done; cbn; by destruct (contains l s)|].
      by rewrite bool_decide_eq_false_2.
    - set_solver.
    - intros x Hx. rewrite Ht' by (apply Hsub; by right). rewrite decide_False by congruence.
      apply Htick. by right. }
  assert (He : entry sn0 sn1 s = if bool_decide (sn_tick sn0 s = sn_tick sn1 s) then None
    else Some (index_of cnames s, wrap64 (sn_tick sn1 s - sn_tick sn0 s) `mod` 2 ^ 32)) by done.
  rewrite He. clear He. case_bool_decide as Heq.
  { apply Hstep. intros x _. case_decide; [|done]. subst x. rewrite Htick by left. done. }
  cbn [fmap list_fmap fst snd apply_ticks].
  pose proof (tracked_cnames s Hst) as Hsc. destruct (index_of_in cnames s Hsc) as [Hge Hl].
  pose proof (lookup_lt_Some _ _ _ Hl). rewrite bool_decide_eq_false_2 by lia.
  assert (slice_get (client_time tick) (index_of cnames s) = Ok (tick s)) as ->.
  { unfold client_time. rewrite slice_get_index by done. by rewrite (proj2 (contains_true _ _) Hst). }
  cbn [mbind outcome_bind].
  assert (∀ v, slice_set (client_time tick) (index_of cnames s) v
    = Ok (client_time (λ x, if decide (x = s) then v else tick x))) as ->.
  { intros v. unfold client_time. rewrite slice_set_index by (try apply NoDup_cnames; done). f_equal.
    apply list_fmap_ext. intros i x _. case_decide; [|done]. subst x.
    by rewrite (proj2 (contains_true _ _) Hst). }
  cbn [mbind outcome_bind].
  rewrite <- (Hstep (λ x, if decide (x = s) then sn_tick sn1 s else tick x)) by done.
  f_equal. apply client_time_ext. intros x _. case_decide; [|done]. rewrite Htick by left.
  rewrite (Z.mod_small _ (2 ^ 32)) by (pose proof (wrap64_u64 (sn_tick sn1 s - sn_tick sn0 s)) as []; split; [done|by apply Hfit]).
  apply wrap64_diff_add. apply Hok.
Qed.

(** The client shows a snapshot: its ticks, and the states that makes active. *)
Record mirrors (sn : Snap) (c : Client) : Prop := {
  mi_done : cl_is c "HandshakeDone" = true;
  mi_deep : so_shallow (cl_sync c) = false;
  mi_names : nm_stateNames (cl_net c) = cnames;
  mi_agrees : clock_agrees (cl_net c);
  mi_time : machTime (cl_net c) = client_time (sn_tick sn);
  mi_queue : nc_queueTick (nm_clk (cl_net c)) = sn_queue sn;
  mi_mach : nc_machTick (nm_clk (cl_net c)) = sn_mach sn;
  mi_active : ∀ s, s ∈ Net.ActiveStates (cl_net c) None ↔
    ∃ t, t ∈ tracked ∧ IsActiveTick (sn_tick sn t) = true
      ∧ rtc (requires (default ∅ (nm_schema (cl_net c)))) t s;
}.

(** What an update leads to on a client whose queue tick may differ. *)
Lemma verify_update_from sn0 sn1 c :
  so_shallow (cl_sync c) = false → machTime (cl_net c) = client_time (sn_tick sn0) →
  nc_machTick (nm_clk (cl_net c)) = sn_mach sn0 → snap_ok sn1 → fits sn0 sn1 →
  let q := wrap64 (nc_queueTick (nm_clk (cl_net c)) + wrap64 (sn_queue sn1 - sn_queue sn0)) in
  verify_update c (update_of sn0 sn1)
  = Ok (client_time (sn_tick sn1), q, sn_mach sn1,
      bool_decide (Checksum (time_sum (sn_tick sn1 <$> tracked)) q (sn_mach sn1) = snap_checksum sn1)).
Proof.
  intros Hd Ht Hm Hok [F1 F2 F3] q. unfold verify_update, clockFromUpdate. rewrite Ht, Hm.
  cbn [mu_Indexes mu_Ticks mu_QueueTick mu_MachTick mu_Checksum update_of].
  rewrite (apply_entries sn0 sn1 tracked) by (try apply NoDup_tracked; done).
  cbn [mbind outcome_bind]. rewrite Hd. cbn [mbind outcome_bind].
  assert (client_time (λ s, if contains tracked s then sn_tick sn1 s else sn_tick sn0 s)
    = client_time (sn_tick sn1)) as ->.
  { apply client_time_ext. intros s Hs. by rewrite (proj2 (contains_true _ _) Hs). }
  destruct (wrap64_u64 (sn_queue sn1 - sn_queue sn0)) as [Q1 _].
  pose proof (Z.mod_pos_bound (sn_mach sn1 - sn_mach sn0) (2 ^ 32) eq_refl) as [M1 _].
  assert (wrap16 (wrap64 (sn_queue sn1 - sn_queue sn0)) = wrap64 (sn_queue sn1 - sn_queue sn0)) as ->.
  { unfold wrap16. by rewrite (Z.mod_small _ (2 ^ 16)). }
  assert ((sn_mach sn0 + wrap8 ((sn_mach sn1 - sn_mach sn0) `mod` 2 ^ 32)) `mod` 2 ^ 32 = sn_mach sn1) as ->.
  { unfold wrap8. rewrite (Z.mod_small _ (2 ^ 8)) by done. rewrite Zplus_mod_idemp_r.
    replace (sn_mach sn0 + (sn_mach sn1 - sn_mach sn0)) with (sn_mach sn1) by lia.
    apply Z.mod_small, Hok. }
  by rewrite client_time_sum.
Qed.

(** The client never sees a drift. *)
Lemma verify_mirrors sn0 sn1 c :
  mirrors sn0 c → snap_ok sn1 → fits sn0 sn1 →
  verify_update c (update_of sn0 sn1)
  = Ok (client_time (sn_tick sn1), sn_queue sn1, sn_mach sn1, true).
Proof.
  intros [_ Hd _ _ Ht Hq Hm _] Hok Hf. rewrite (verify_update_from sn0 sn1) by done. rewrite Hq.
  rewrite wrap64_diff_add by apply Hok. by rewrite bool_decide_eq_true_2.
Qed.

Lemma wrap64_mod8 z : wrap64 z `mod` 2 ^ 8 = z `mod` 2 ^ 8.
Proof. unfold wrap64. apply Z.mod_mod_divide. by exists (2 ^ 56). Qed.

Lemma Checksum_mod a b c : Checksum a b c = (a + b + c) `mod` 2 ^ 8.
Proof.
  unfold Checksum. rewrite wrap64_add_l. apply wrap64_mod8.
Qed.

(** A client whose queue tick is off by less than 256 sees a drift. *)
Lemma verify_drifts sn0 sn1 c d :
  so_shallow (cl_sync c) = false → machTime (cl_net c) = client_time (sn_tick sn0) →
  nc_machTick (nm_clk (cl_net c)) = sn_mach sn0 → snap_ok sn1 → fits sn0 sn1 →
  nc_queueTick (nm_clk (cl_net c)) = sn_queue sn0 - d → d `mod` 2 ^ 8 ≠ 0 →
  ∃ t q mt, verify_update c (update_of sn0 sn1) = Ok (t, q, mt, false).
Proof.
  intros Hd Ht Hm Hok Hf Hq Hdrift. rewrite (verify_update_from sn0 sn1) by done.
  eexists _, _, _. do 2 f_equal. apply bool_decide_eq_false_2. unfold snap_checksum.
  rewrite !Checksum_mod, Hq, wrap64_add_r. intros E. apply Hdrift.
  revert E. set (S := time_sum _). set (m := sn_mach sn1).
  replace (sn_queue sn0 - d + (sn_queue sn1 - sn_queue sn0)) with (sn_queue sn1 - d) by lia.
  replace (S + wrap64 (sn_queue sn1 - d) + m) with (wrap64 (sn_queue sn1 - d) + (S + m)) by lia.
  rewrite Zplus_mod, wrap64_mod8, <- Zplus_mod. intros E.
  replace d with ((S + sn_queue sn1 + m) - (sn_queue sn1 - d + (S + m))) by lia.
  by rewrite Zminus_mod, E, Z.sub_diag.
Qed.

Lemma active_client tick names' m sch :
  names' = cnames → m = client_time tick →
  ∀ s : string, (∃ t i v, names' !! i = Some t ∧ m !! i = Some v ∧ IsActiveTick v = true
      ∧ rtc (requires sch) t s)
  ↔ ∃ t, t ∈ tracked ∧ IsActiveTick (tick t) = true ∧ rtc (requires sch) t s.
Proof.
  intros -> -> s. split.
  - intros (t & i & v & Hi & Hv & Ha & Hr). unfold client_time in Hv.
    rewrite list_lookup_fmap, Hi in Hv. injection Hv as <-.
    destruct (contains tracked t) eqn:E; [|done]. exists t. split; [by apply contains_true|done].
  - intros (t & Ht & Ha & Hr). destruct (index_of_in cnames t (tracked_cnames t Ht)) as [_ Hi].
    exists t, (Z.to_nat (index_of cnames t)), (tick t). split_and!; [done| |done..].
    unfold client_time. rewrite list_lookup_fmap, Hi. cbn. by rewrite (proj2 (contains_true _ _) Ht).
Qed.

Lemma length_client_time tick : length (client_time tick) = length cnames.
Proof. apply length_fmap. Qed.

Lemma mirrors_set done sn c m' :
  cl_is c "HandshakeDone" = true → so_shallow (cl_sync c) = false →
  nm_stateNames (cl_net c) = cnames → clock_agrees (cl_net c) →
  updateClock done (client_time (sn_tick sn)) (sn_queue sn) (sn_mach sn) (cl_net c) = Ok ((), m') →
  mirrors sn (cl_set_net m' c).
Proof.
  intros Hd Hs Hn Ha Hu. apply updateClock_updated in Hu as [U1 U2 U3 U4 U5 U6 U7 U8].
  - split; cbn; [done|done|congruence|done|done|done|done|]. intros s. rewrite U8, U6. by apply active_client.
  - done.
  - rewrite Hn. apply NoDup_cnames.
  - rewrite Hn. apply length_client_time.
Qed.

(** A push is taken, and the client shows what was pushed. *)
Lemma clockUpdate_mirrors done sn0 sn1 c b c' :
  mirrors sn0 c → snap_ok sn1 → fits sn0 sn1 →
  clockUpdate done (update_of sn0 sn1) c = Ok (b, c') → b = true ∧ mirrors sn1 c'.
Proof.
  intros Hm Hok Hf. unfold clockUpdate, mbind at 1, run_bind at 1, get. rewrite (mi_done _ _ Hm). cbn [negb].
  unfold mbind at 1, run_bind at 1, lift. rewrite (verify_mirrors sn0 sn1) by done. cbn [mbind outcome_bind].
  intros ([] & c1 & Hu & He)%run_bind_ok. injection He as <- <-. split; [done|].
  unfold on_net in Hu. destruct (updateClock _ _ _ _ _) as [[[] m']| |] eqn:E; [|done..].
  injection Hu as <-. eapply mirrors_set, E; apply Hm.
Qed.

(** When nobody waits on the network machine, taking a push returns. *)
Lemma clockUpdate_returns done sn0 sn1 c :
  mirrors sn0 c → snap_ok sn1 → fits sn0 sn1 →
  waitless (nm_subs (cl_net c)) → NoDup (nm_closed (cl_net c)) →
  ∃ c', clockUpdate done (update_of sn0 sn1) c = Ok (true, c')
    ∧ waitless (nm_subs (cl_net c')) ∧ NoDup (nm_closed (cl_net c')).
Proof.
  intros Hm Hok Hf Hw Hc.
  destruct (updateClock_returns done (client_time (sn_tick sn1)) (sn_queue sn1) (sn_mach sn1)
    (cl_net c)) as (m' & Hu & Hw' & Hc'); [by rewrite (mi_names _ _ Hm), length_client_time|done..|].
  exists (cl_set_net m' c). split; [|done].
  unfold clockUpdate, mbind at 1, run_bind at 1, get. rewrite (mi_done _ _ Hm). cbn [negb].
  unfold mbind at 1, run_bind at 1, lift. rewrite (verify_mirrors sn0 sn1) by done. cbn [mbind outcome_bind].
  unfold mbind, run_bind, on_net. by rewrite Hu.
Qed.

(** Snapshots that show the same to the client. *)
Definition same_view (sn sn' : Snap) : Prop :=
  (∀ s, s ∈ tracked → sn_tick sn s = sn_tick sn' s) ∧ sn_queue sn = sn_queue sn'
  ∧ sn_mach sn = sn_mach sn'.

Lemma mirrors_same sn sn' c : same_view sn sn' → mirrors sn c → mirrors sn' c.
Proof.
  intros (Ht & Hq & Hm) [M1 M2 M3 M4 M5 M6 M7 M8]. split; try done.
  - rewrite M5. by apply client_time_ext.
  - congruence.
  - congruence.
  - intros s. rewrite M8. split; intros (t & Hin & Ha & Hr); exists t;
      [rewrite <- Ht by done|rewrite Ht by done]; done.
Qed.

Lemma unchanged_entries sn0 sn1 :
  (∀ s, s ∈ tracked → sn_tick sn1 s = sn_tick sn0 s) → omap (entry sn0 sn1) tracked = [].
Proof.
  induction tracked as [|s l IH]; intros Hs; [done|]. cbn [omap list_omap]. unfold entry at 1.
  rewrite bool_decide_eq_true_2 by (symmetry; apply Hs; left).
  apply IH. intros x Hx. apply Hs. by right.
Qed.

(** An update without entries: nothing the client could see has changed. *)
Lemma empty_update sn0 sn1 :
  nothing_lost sn0 sn1 → mu_Indexes (update_of sn0 sn1) = [] → same_view sn0 sn1.
Proof.
  intros Hf He. cbn in He. apply fmap_nil_inv in He.
  assert (Hs : ∀ s, s ∈ tracked → sn_tick sn1 s = sn_tick sn0 s).
  { intros s Hs. destruct (decide (sn_tick sn0 s = sn_tick sn1 s)) as [|Hne]; [done|]. exfalso.
    assert (Hin : (index_of cnames s, wrap64 (sn_tick sn1 s - sn_tick sn0 s) `mod` 2 ^ 32)
      ∈ omap (entry sn0 sn1) tracked).
    { apply list_elem_of_omap. exists s. split; [done|]. unfold entry.
      by rewrite bool_decide_eq_false_2. }
    rewrite He in Hin. by apply not_elem_of_nil in Hin. }
  destruct (Hf Hs). split_and!; [|done..]. intros s Hin. symmetry. by apply Hs.
Qed.

Lemma shows_data_of sn : shows sn (data_of sn).
Proof. split; [by exists (sn_tick sn)|done..]. Qed.

(** ** Updates in flight *)

Lemma same_view_refl sn : same_view sn sn.
Proof. by split_and!. Qed.

Lemma update_of_same sn0 sn0' sn1 : same_view sn0 sn0' → update_of sn0 sn1 = update_of sn0' sn1.
Proof.
  intros (Ht & Hq & Hm). unfold update_of. rewrite Hq, Hm.
  assert (omap (entry sn0 sn1) tracked = omap (entry sn0' sn1) tracked) as ->; [|done].
  apply list_omap_ext, Forall2_same_length_lookup_2; [done|]. intros i x y Hx Hy.
  rewrite Hx in Hy. injection Hy as <-. unfold entry. rewrite Ht; [done|].
  by eapply list_elem_of_lookup_2.
Qed.

Lemma fits_same sn0 sn0' sn1 : same_view sn0 sn0' → fits sn0 sn1 → fits sn0' sn1.
Proof.
  intros (Ht & Hq & Hm) [F1 F2 F3]. split; [|congruence..].
  intros s Hs. rewrite <- Ht by done. by apply F1.
Qed.

Lemma shows_same sn sn' d : same_view sn sn' → shows sn d → shows sn' d.
Proof.
  intros (Ht & Hq & Hm) [(g & Hg & Hgs) H2 H3]. split; [|congruence..].
  exists g. split; [done|]. intros s Hs. rewrite <- Ht by done. by apply Hgs.
Qed.

(** Messages that take a client from one snapshot to another. *)
Inductive in_flight : Snap → list ClientMsg → Snap → Prop :=
| fl_nil sn sn' : same_view sn sn' → in_flight sn [] sn'
| fl_cons sn0 sn1 sn2 msgs :
    snap_ok sn1 → fits sn0 sn1 → in_flight sn1 msgs sn2 →
    in_flight sn0 (ClientUpdate (update_of sn0 sn1) :: msgs) sn2.

Lemma in_flight_same sn0 msgs sn1 sn2 :
  in_flight sn0 msgs sn1 → same_view sn1 sn2 → in_flight sn0 msgs sn2.
Proof.
  intros Hf Hs. induction Hf as [sn sn' (A1 & A2 & A3)|]; [|by constructor; auto].
  destruct Hs as (B1 & B2 & B3). constructor. split_and!; [|congruence..].
  intros s Hs. rewrite A1, B1; done.
Qed.

Lemma in_flight_snoc sn0 msgs sn1 sn2 :
  in_flight sn0 msgs sn1 → snap_ok sn2 → fits sn1 sn2 →
  in_flight sn0 (msgs ++ [ClientUpdate (update_of sn1 sn2)]) sn2.
Proof.
  intros Hf Hok Hfit. induction Hf as [sn sn' Hs|]; [|by constructor; auto]. cbn [app].
  assert (Hs' : same_view sn' sn).
  { destruct Hs as (? & ? & ?). split_and!; [|done..]. intros s Hin. symmetry. auto. }
  rewrite <- (update_of_same sn sn') by done.
  constructor; [done|by eapply fits_same|]. constructor. apply same_view_refl.
Qed.

(** ** The system *)

Section system.
Context (done : nat → bool).

Record Sys := mkSys { y_cli : Client; y_srv : Server }.

(** The latest data is from a transition traced since the handshake, and what
    changed since the last push or reply fits. *)
Definition latest_ok (Q : Snap → Snap → Prop) (s : Server) : Prop :=
  ∀ data last sn0, sv_dataLatest s = Some data → sv_lastPushData s = Some last → shows sn0 last →
  ∃ sn1, snap_ok sn1 ∧ data = data_of sn1 ∧ fits sn0 sn1 ∧ Q sn0 sn1.
Definition reply_ok : Server → Prop := latest_ok (λ _ _, True).
Definition push_ok : Server → Prop := latest_ok nothing_lost.

Definition set_out (out : list ClientMsg) (s : Server) : Server :=
  mkServer (sv_states s) (sv_muts s) (sv_sync s) (sv_active s) (sv_tracked s) (sv_trackedIdxs s)
    (sv_dataLatest s) (sv_dataQueue s) (sv_lastPushData s) (sv_client s) (sv_clientId s)
    (sv_AllowedMachIds s) (sv_PushInterval s) (sv_CallCount s) out.

(** The server's own state machine moves, and a client connects. *)
Definition set_env (states : list string) (client : bool) (id : option string) (s : Server) : Server :=
  mkServer states (sv_muts s) (sv_sync s) (sv_active s) (sv_tracked s) (sv_trackedIdxs s)
    (sv_dataLatest s) (sv_dataQueue s) (sv_lastPushData s) client id
    (sv_AllowedMachIds s) (sv_PushInterval s) (sv_CallCount s) (sv_out s).

(** The source ends a transition, the server tries to push or answers a mutation,
    or the client takes the oldest message; replies and pushes share the order.
    The server's machine does what it likes. *)
Inductive sys_step : Sys → Sys → Prop :=
| step_trace y sn tx s' :
    snap_ok sn → te_time tx = sn_tick sn <$> names → te_queueTick tx = sn_queue sn →
    te_machTick tx = sn_mach sn → TransitionEnd tx (y_srv y) = Ok ((), s') →
    sys_step y (mkSys (y_cli y) s')
| step_push y early netOk s' :
    push_ok (y_srv y) → PushClient early netOk (y_srv y) = Ok ((), s') →
    sys_step y (mkSys (y_cli y) s')
| step_reply y result resp u s' :
    reply_ok (y_srv y) → newMsgMutation result (sv_dataLatest (y_srv y)) (y_srv y) = Ok (resp, s') →
    sm_Update resp = Some u →
    sys_step y (mkSys (y_cli y) (set_out (sv_out s' ++ [ClientUpdate u]) s'))
| step_env y states client id :
    sys_step y (mkSys (y_cli y) (set_env states client id (y_srv y)))
| step_receive y msg rest b c' :
    sv_out (y_srv y) = msg :: rest → client_receive done msg (y_cli y) = Ok (b, c') →
    sys_step y (mkSys c' (set_out rest (y_srv y))).

(** The part of the server that does not change while a client is connected. *)
Definition configured (s : Server) : Prop :=
  sv_sync s = o ∧ sv_tracked s = Some tracked ∧ sv_trackedIdxs s = index_of names <$> tracked.

Record in_step (sn0 sn1 : Snap) (y : Sys) : Prop := {
  is_config : configured (y_srv y);
  is_client : mirrors sn0 (y_cli y);
  is_flight : in_flight sn0 (sv_out (y_srv y)) sn1;
  is_last : ∃ last, sv_lastPushData (y_srv y) = Some last ∧ shows sn1 last;
}.

Lemma TransitionEnd_keeps tx s s' :
  configured s → TransitionEnd tx s = Ok ((), s') →
  configured s' ∧ sv_out s' = sv_out s ∧ sv_lastPushData s' = sv_lastPushData s.
Proof.
  intros (C1 & C2 & C3). unfold TransitionEnd, mbind at 1, run_bind at 1, get.
  destruct (sv_active s); cbn [negb]; [|by intros [= <-]].
  rewrite C2, bool_decide_eq_false_2 by done. unfold mbind, run_bind, mret, run_ret, lift, modify.
  cbn [fst snd]. destruct (trace_data _ _ _ _) as [d| |]; [|done..]. cbn. intros [= <-].
  by split_and!.
Qed.

Definition pushed (s s' : Server) (data : tracerData) (out : list ClientMsg) : Prop :=
  configured s' ∧ sv_lastPushData s' = Some data ∧ sv_out s' = sv_out s ++ out.

(** A push sends what changed, or nothing. *)
Lemma PushClient_cases early netOk s s' sn0 last :
  configured s → push_ok s → sv_lastPushData s = Some last → shows sn0 last →
  PushClient early netOk s = Ok ((), s') →
  (configured s' ∧ sv_lastPushData s' = Some last ∧ sv_out s' = sv_out s)
  ∨ ∃ sn1, snap_ok sn1 ∧ fits sn0 sn1
    ∧ (pushed s s' (data_of sn1) [ClientUpdate (update_of sn0 sn1)]
       ∨ same_view sn0 sn1 ∧ pushed s s' (data_of sn1) []).
Proof.
  intros Hc Hok Hl Hsh. unfold PushClient, mbind at 1, run_bind at 1, get.
  destruct (_ || _ || _) eqn:Hg; [by intros [= <-]; left|].
  destruct (sv_dataLatest s) as [data|] eqn:Hdl; [|by intros [= <-]; left]. rewrite Hl.
  destruct (_ && _) eqn:Hsame; [by intros [= <-]; left|].
  destruct early; [by intros [= <-]; left|].
  destruct (Hok data last sn0 Hdl Hl Hsh) as (sn1 & Hs1 & -> & Hfit & Hnl).
  destruct Hc as (C1 & C2 & C3). rewrite C1, (co_latest Hcfg).
  unfold pushUpdateLatest, mbind, run_bind, get. rewrite C1, (co_deep Hcfg).
  rewrite (calcUpdate_of sn0 sn1 last) by done. unfold push_with.
  destruct (bool_decide (mu_Indexes (update_of sn0 sn1) = [])) eqn:He;
    unfold notify, mbind, run_bind, mret, run_ret, modify.
  - intros [= <-]. right. exists sn1. split_and!; [done..|]. right.
    split; [by apply empty_update; [|by apply bool_decide_eq_true in He]|]. split_and!; [done..|]. by rewrite app_nil_r.
  - destruct netOk; intros [= <-].
    + right. exists sn1. split_and!; [done..|]. by left.
    + left. by split_and!.
Qed.

(** A reply sends what changed, be it nothing. *)
Lemma newMsgMutation_sends result s resp u s' sn0 last :
  configured s → reply_ok s → sv_lastPushData s = Some last → shows sn0 last →
  newMsgMutation result (sv_dataLatest s) s = Ok (resp, s') → sm_Update resp = Some u →
  ∃ sn1, snap_ok sn1 ∧ fits sn0 sn1 ∧ u = update_of sn0 sn1 ∧ pushed s s' (data_of sn1) [].
Proof.
  intros (C1 & C2 & C3) Hok Hl Hsh. unfold newMsgMutation, mbind at 1, run_bind at 1, get.
  rewrite C1, (co_latest Hcfg), Hl. destruct (sv_dataLatest s) as [d|] eqn:Hd; [|done].
  destruct (Hok d last sn0 Hd Hl Hsh) as (sn1 & Hs1 & -> & Hfit & _).
  unfold mbind, run_bind, lift, mret, run_ret, modify. rewrite (co_deep Hcfg).
  rewrite (calcUpdate_of sn0 sn1 last) by done. intros H. injection H as <- <-. intros [= <-].
  exists sn1. split_and!; [done..|]. split_and!; [done..|]. cbn. by rewrite app_nil_r.
Qed.

Lemma sys_step_in_step sn0 sn1 y y' :
  in_step sn0 sn1 y → sys_step y y' → ∃ sn0' sn1', in_step sn0' sn1' y'.
Proof.
  intros [Hc Hm Hf (last & Hl & Hsh)] Hst. destruct Hst as [y sn tx s' _ _ _ _ He|y early netOk s' Hok He|y result resp u s' Hok He Hu|y states client id|y msg rest b c' Hout He].
  - apply TransitionEnd_keeps in He as (H1 & H2 & H3); [|done]. exists sn0, sn1.
    split; cbn; [done..|congruence|]. exists last. split; [congruence|done].
  - destruct (PushClient_cases _ _ _ _ sn1 last Hc Hok Hl Hsh He)
      as [(H1 & H2 & H3)|(sn2 & Hs2 & Hfit & [(H1 & H2 & H3)|(Hv & H1 & H2 & H3)])].
    + exists sn0, sn1. split; cbn; [done..|congruence|]. by exists last.
    + exists sn0, sn2. split; cbn; [done..| |].
      * rewrite H3. by apply in_flight_snoc.
      * exists (data_of sn2). split; [done|apply shows_data_of].
    + exists sn0, sn2. split; cbn; [done..| |].
      * rewrite H3, app_nil_r. by eapply in_flight_same.
      * exists (data_of sn2). split; [done|apply shows_data_of].
  - destruct (newMsgMutation_sends _ _ _ _ _ sn1 last Hc Hok Hl Hsh He Hu)
      as (sn2 & Hs2 & Hfit & -> & H1 & H2 & H3).
    exists sn0, sn2. split; cbn; [done..| |].
    + rewrite H3, app_nil_r. by apply in_flight_snoc.
    + exists (data_of sn2). split; [done|apply shows_data_of].
  - exists sn0, sn1. split; cbn; [done..|]. by exists last.
  - rewrite Hout in Hf. inversion Hf as [|? sn2 ? ? Hs2 Hfit Hrest]; subst. cbn in He.
    unfold RemoteUpdate in He. apply run_bind_ok in He as ([] & c1 & He & Hr). injection Hr as _ <-.
    apply run_bind_ok in He as (b' & c2 & He & Hr). injection Hr as <-.
    apply (clockUpdate_mirrors done sn0 sn2) in He as [_ Hm']; [|done..].
    exists sn2, sn1. split; cbn; [done|done|done|]. by exists last.
Qed.

Lemma reachable_in_step sn0 sn1 y y' :
  in_step sn0 sn1 y → rtc sys_step y y' → ∃ sn0' sn1', in_step sn0' sn1' y'.
Proof.
  intros Hi Hr. revert sn0 sn1 Hi. induction Hr as [y|y y1 y2 Hst _ IH]; intros sn0 sn1 Hi; [eauto|].
  destruct (sys_step_in_step _ _ _ _ Hi Hst) as (a & b & Hab). by eapply IH.
Qed.

(** Messages delivered in order. *)
Fixpoint receive_all (msgs : list ClientMsg) : run Client () :=
  match msgs with
  | [] => mret ()
  | msg :: msgs => client_receive done msg ;; receive_all msgs
  end.

Lemma receive_all_in_flight sn0 msgs sn1 c :
  mirrors sn0 c → in_flight sn0 msgs sn1 →
  waitless (nm_subs (cl_net c)) → NoDup (nm_closed (cl_net c)) →
  ∃ c', receive_all msgs c = Ok ((), c') ∧ mirrors sn1 c'.
Proof.
  intros Hm Hf. revert c Hm. induction Hf as [sn sn' Hs|sn0 sn1 sn2 msgs Hok Hfit Hf IH];
    intros c Hm Hw Hnd.
  { exists c. split; [done|by eapply mirrors_same]. }
  destruct (clockUpdate_returns done sn0 sn1 c) as (c1 & Hc & Hw1 & Hnd1); [done..|].
  destruct (clockUpdate_mirrors done sn0 sn1 c true c1) as [_ Hm1]; [done..|].
  destruct (IH c1) as (c2 & Hr & Hm2); [done..|]. exists c2. split; [|done].
  cbn [receive_all client_receive]. unfold RemoteUpdate, mbind, run_bind. rewrite Hc. cbn. exact Hr.
Qed.

(** ** The handshake *)

Section handshake.
Context {M : Type} `{StateSource M} (schemaHash : gmap string State → string).

(** The request of a client with the options [o]. *)
Definition hello_req (id hash : string) : MsgCliHello :=
  mkCliHello id (so_schema o) hash (so_mutations o) (so_allowed o) (so_skipped o) (so_shallow o).

(** A server that no client has been connected to. *)
Record fresh_server (s : Server) : Prop := {
  fs_start : sv_is s "Start" = true;
  fs_allowed : sv_AllowedMachIds s = [];
  fs_schema : sv_sync s = mkSyncOpts false None [] false false;
  fs_last : ∃ last, sv_lastPushData s = Some last ∧ td_machTick last = 0;
  fs_out : sv_out s = [];
}.

Lemma RemoteHello_fresh id hash (src : M) s v tick :
  fresh_server s → id ≠ "" → source_view src = v → sr_names v = names → sr_time v = tick <$> names →
  ∃ schema s' last,
    RemoteHello schemaHash (hello_req id hash) (src, s)
    = Ok (inr (mkSrvHello schema (mkSerialized (sr_id v) cnames (client_time tick) (sr_queueTick v)
            (sr_machTick v)) (Z.of_nat (length names))), (src, s'))
    ∧ configured s' ∧ sv_out s' = [] ∧ sv_lastPushData s' = Some last
    ∧ td_mTime last = client_time tick ∧ td_queueTick last = sr_queueTick v ∧ td_machTick last = 0.
Proof.
  intros [F1 F2 F3 (last & F4 & F5) F6] Hid Hv Hn Ht. unfold RemoteHello, mbind at 1, run_bind at 1, get.
  rewrite F1. cbn [negb]. rewrite bool_decide_eq_false_2 by done. rewrite F2. cbn [negb andb bool_decide].
  rewrite Hv, F3. cbn [so_schema ch_Id ch_SyncSchema ch_SyncMutations ch_AllowedStates ch_SkippedStates
    ch_ShallowClocks ch_SchemaHash hello_req orb].
  rewrite bool_decide_eq_true_2 by done. cbn [negb andb].
  assert (Ho : mkSyncOpts (so_mutations o) (so_allowed o) (so_skipped o) (so_schema o) (so_shallow o) = o)
    by by destruct o.
  rewrite Ho, Hn, Ht. fold tracked. rewrite filter_tracked, hello_time_of, F4.
  assert (Hc : (if so_schema o then names else StatesShared names tracked) = cnames)
    by (unfold cnames; destruct (so_schema o); [done|apply shared_tracked]).
  unfold mbind, run_bind, on_server, modify, lift, mret, run_ret. cbn. rewrite Hc.
  eexists _, _, _. split; [reflexivity|]. by split_and!.
Qed.

Definition cl_enter (states : list string) (c : Client) : Client :=
  mkClient states (cl_muts c) (cl_sync c) (cl_net c) (cl_tracked c) (cl_trackedIdxs c) (cl_rpc c)
    (cl_CallRetries c).

Lemma Handshaking_names resp c c1 tick :
  ser_StateNames (sh_Serialized resp) = cnames → ser_Time (sh_Serialized resp) = client_time tick →
  Handshaking_resp resp c = Ok (true, c1) →
  cl_sync c1 = cl_sync c ∧ nm_stateNames (cl_net c1) = cnames ∧ clock_agrees (cl_net c1)
    ∧ nm_subs (cl_net c1) = nm_subs (cl_net c) ∧ nm_closed (cl_net c1) = nm_closed (cl_net c).
Proof.
  intros Hn Ht. unfold Handshaking_resp, mbind at 1, run_bind at 1, get. rewrite Hn.
  case_bool_decide; [done|]. case_bool_decide; [done|].
  destruct (_ && _ && _); [done|]. intros ([] & c2 & Hu & He)%run_bind_ok. injection He as <-.
  revert Hu. unfold updateStatesSchema, mbind at 1, run_bind at 1, get. rewrite Hn, Ht, length_client_time.
  rewrite bool_decide_eq_true_2 by done. unfold mbind, run_bind, modify. cbn [negb].
  intros [= <-]. cbn. split_and!; try done.
  unfold clock_agrees, machTime, machClock. cbn. split; [apply length_client_time|].
  intros i s Hi. rewrite fold_insert_lookup by (rewrite fst_zip by (by rewrite length_client_time); apply NoDup_cnames).
  destruct (lookup_lt_is_Some_2 (client_time tick) i) as [v Hv].
  { rewrite length_client_time. by eapply lookup_lt_Some. }
  rewrite Hv. erewrite elem_of_list_to_map_1; [done|..].
  - rewrite fst_zip by (by rewrite length_client_time). apply NoDup_cnames.
  - apply list_elem_of_lookup. exists i. rewrite lookup_zip_with, Hi. cbn. by rewrite Hv.
Qed.

(** The client is told hello, enters [HandshakeDone], and its handler sets the
    clock from the arguments. *)
Definition handshake (resp : MsgSrvHello) (c : Client) : outcome Client :=
  match Handshaking_resp resp c with
  | Ok (true, c1) =>
      r ← HandshakeDoneState done (Some (ser_Time (sh_Serialized resp)))
            (ser_QueueTick (sh_Serialized resp)) (cl_enter ["Start"; "Connected"; "HandshakeDone"; "Ready"] c1);
      Ok (r : () * Client).2
  | _ => Panic "handshake failed"
  end.

Lemma handshake_in_step id hash (src : M) s v tick resp src' s' c c' :
  fresh_server s → id ≠ "" → source_view src = v → sr_names v = names → sr_time v = tick <$> names →
  cl_sync c = o →
  RemoteHello schemaHash (hello_req id hash) (src, s) = Ok (inr resp, (src', s')) →
  handshake resp c = Ok c' →
  let sn := mkSnap tick (sr_queueTick v) 0 in in_step sn sn (mkSys c' s').
Proof.
  intros Hs Hid Hv Hn Ht Ho Hh Hc sn.
  destruct (RemoteHello_fresh id hash src s v tick Hs Hid Hv Hn Ht)
    as (sch & s1 & last & He & H1 & H2 & H3 & H4 & H5 & H6).
  rewrite He in Hh. injection Hh as <- _ <-. unfold handshake in Hc.
  destruct (Handshaking_resp _ c) as [[[] c1]| |] eqn:Hr; [|done..].
  apply (Handshaking_names _ c c1 tick) in Hr as (N1 & N2 & N3 & _ & _); [|done..].
  cbn [ser_Time ser_QueueTick sh_Serialized] in Hc. unfold HandshakeDoneState, clockSet in Hc.
  inv_ok. destruct x as [[] c2].
  match goal with Hg : _ = Ok ((), c2) |- _ => rename Hg into Hset end.
  assert (Hd : cl_is (cl_enter ["Start"; "Connected"; "HandshakeDone"; "Ready"] c1) "HandshakeDone" = true)
    by done.
  unfold mbind, run_bind, get in Hset. rewrite Hd in Hset. cbn [negb] in Hset. unfold on_net in Hset.
  destruct (updateClock done _ _ _ _) as [[[] m']| |] eqn:E; [|done..]. injection Hset as <-.
  split; cbn; [done| | |].
  - apply (mirrors_set done sn (cl_enter ["Start"; "Connected"; "HandshakeDone"; "Ready"] c1)); cbn;
      [done|rewrite N1, Ho; apply Hcfg|done..].
  - rewrite H2. constructor. apply same_view_refl.
  - exists last. split; [done|]. split; [|done..]. exists (λ s, if contains tracked s then tick s else 0).
    split; [done|]. intros x Hx. by rewrite (proj2 (contains_true _ _) Hx).
Qed.

(** A client that can shake hands: no schema is missing, and nobody waits. *)
Record fresh_client (c : Client) : Prop := {
  fc_sync : cl_sync c = o;
  fc_schema : so_schema o = true → is_Some (nm_schema (cl_net c));
  fc_waitless : waitless (nm_subs (cl_net c));
  fc_closed : NoDup (nm_closed (cl_net c));
}.

Lemma Handshaking_accepts resp c tick :
  fresh_client c → tracked ≠ [] → ser_ID (sh_Serialized resp) ≠ "" →
  ser_StateNames (sh_Serialized resp) = cnames → ser_Time (sh_Serialized resp) = client_time tick →
  ∃ c1, Handshaking_resp resp c = Ok (true, c1).
Proof.
  intros [F1 F2 _ _] Htr Hid Hn Ht. unfold Handshaking_resp, mbind at 1, run_bind at 1, get. rewrite Hn.
  rewrite bool_decide_eq_false_2.
  2: { intros E. apply Htr. destruct tracked as [|s l] eqn:Et; [done|]. exfalso.
       assert (Hin : s ∈ cnames) by (apply tracked_cnames; rewrite Et; left).
       rewrite E in Hin. by apply not_elem_of_nil in Hin. }
  rewrite bool_decide_eq_false_2 by done. rewrite F1.
  assert (bool_decide (nm_schema (cl_net c) = None) && bool_decide (sh_Schema resp = None) && so_schema o
    = false) as ->.
  { destruct (so_schema o); [|by rewrite andb_false_r]. destruct F2 as [sch ->]; [done|]. done. }
  unfold updateStatesSchema, mbind at 1, run_bind at 1, mbind at 1, run_bind at 1, get.
  rewrite Hn, Ht, length_client_time, bool_decide_eq_true_2 by done. cbn [negb].
  by eexists.
Qed.

Lemma handshake_returns resp c tick :
  fresh_client c → tracked ≠ [] → ser_ID (sh_Serialized resp) ≠ "" →
  ser_StateNames (sh_Serialized resp) = cnames → ser_Time (sh_Serialized resp) = client_time tick →
  ∃ c', handshake resp c = Ok c' ∧ waitless (nm_subs (cl_net c')) ∧ NoDup (nm_closed (cl_net c')).
Proof.
  intros Hf Htr Hid Hn Ht. destruct (Handshaking_accepts resp c tick Hf Htr Hid Hn Ht) as [c1 Hr].
  destruct (Handshaking_names resp c c1 tick Hn Ht Hr) as (N1 & N2 & N3 & N4 & N5).
  destruct (updateClock_returns done (client_time tick) (ser_QueueTick (sh_Serialized resp)) 0
    (cl_net c1)) as (m & Hu & Hw & Hc).
  { by rewrite N2, length_client_time. } { rewrite N4. apply Hf. } { rewrite N5. apply Hf. }
  eexists. split.
  - unfold handshake. rewrite Hr. unfold HandshakeDoneState, clockSet. rewrite Ht.
    assert (Hd : cl_is (cl_enter ["Start"; "Connected"; "HandshakeDone"; "Ready"] c1) "HandshakeDone" = true)
      by done.
    unfold mbind at 2, run_bind, get. rewrite Hd. cbn [negb]. unfold on_net. cbn [cl_net cl_enter].
    rewrite Hu. reflexivity.
  - done.
Qed.
End handshake.
End system.
End config.

(** ** The theorems *)

Section theorems.
Context {M : Type} `{StateSource M} (schemaHash : gmap string State → string) (done : nat → bool).

(** A handshake between a server nobody has been connected to and a client without waiters
    succeeds, and leaves the client with the source's queue tick and its ticks of
    the tracked states: the ones that are odd there, and what they require, are
    active. *)
Theorem handshake_connects o names id hash (src : M) s c tick :
  config_ok o names → tracked o names ≠ [] → fresh_server s → fresh_client o c → id ≠ "" →
  sr_id (source_view src) ≠ "" → sr_names (source_view src) = names →
  sr_time (source_view src) = tick <$> names →
  ∃ resp s' c',
    RemoteHello schemaHash (hello_req o id hash) (src, s) = Ok (inr resp, (src, s'))
    ∧ handshake done resp c = Ok c' ∧ sv_out s' = []
    ∧ machTime (cl_net c') = (λ x, if contains (tracked o names) x then tick x else 0) <$> cnames o names
    ∧ nc_queueTick (nm_clk (cl_net c')) = sr_queueTick (source_view src)
    ∧ (∀ x, x ∈ Net.ActiveStates (cl_net c') None ↔
        ∃ t, t ∈ tracked o names ∧ IsActiveTick (tick t) = true
          ∧ rtc (requires (default ∅ (nm_schema (cl_net c')))) t x).
Proof.
  intros Hcfg Htr Hs Hc Hid Hsid Hn Ht.
  destruct (RemoteHello_fresh o names Hcfg schemaHash id hash src s _ tick Hs Hid eq_refl Hn Ht)
    as (sch & s' & last & Hh & _ & Hout & _).
  destruct (handshake_returns o names Hcfg done (mkSrvHello sch (mkSerialized (sr_id (source_view src))
    (cnames o names) (client_time o names tick) (sr_queueTick (source_view src))
    (sr_machTick (source_view src))) (Z.of_nat (length names))) c tick) as (c' & Hk & _ & _); [done..|].
  destruct (handshake_in_step o names Hcfg done schemaHash id hash src s _ tick _ src s' c c'
    Hs Hid eq_refl Hn Ht (fc_sync _ _ Hc) Hh Hk) as [_ [_ _ _ _ M5 M6 _ M8] _ _].
  by exists (mkSrvHello sch (mkSerialized (sr_id (source_view src)) (cnames o names) (client_time o names tick)
    (sr_queueTick (source_view src)) (sr_machTick (source_view src))) (Z.of_nat (length names))), s', c'.
Qed.



(** A push that finds only the queue tick changed is dropped, and stored as the last
    one: nothing is sent, and unless the ticks dropped are a multiple of 256, the
    client takes every later update for a clock drift. *)
Theorem dropped_tick_drifts o names sn0 sn1 sn2 c s last :
  config_ok o names → mirrors o names sn0 c → configured o names s →
  sv_client s = true → sv_PushInterval s ≠ 0 → sv_is s "HandshakeDone" = true →
  sv_lastPushData s = Some last → shows o names sn0 last → sv_dataLatest s = Some (data_of o names sn1) →
  snap_ok sn2 → fits o names sn1 sn2 →
  (∀ x, x ∈ tracked o names → sn_tick sn1 x = sn_tick sn0 x) → sn_mach sn1 = sn_mach sn0 →
  (sn_queue sn1 - sn_queue sn0) `mod` 2 ^ 8 ≠ 0 →
  ∃ s', PushClient false true s = Ok ((), s')
    ∧ sv_out s' = sv_out s ∧ sv_lastPushData s' = Some (data_of o names sn1)
    ∧ calcUpdate (so_schema o) (data_of o names sn2) (data_of o names sn1) false
      = Ok (update_of o names sn1 sn2)
    ∧ ∃ t q mt, verify_update c (update_of o names sn1 sn2) = Ok (t, q, mt, false).
Proof.
  intros Hcfg Hmi (C1 & C2 & C3) Hcl Hpi Hhd Hl Hsh Hd Hok Hfit Hsame Hmt Hq.
  assert (Hne : sn_queue sn0 ≠ sn_queue sn1) by (intros E; rewrite E, Z.sub_diag in Hq; done).
  eexists. split; [|split_and!].
  - unfold PushClient, mbind at 1, run_bind at 1, get. rewrite Hcl, Hhd, bool_decide_eq_false_2 by done.
    cbn [negb orb]. rewrite Hd, Hl.
    rewrite (bool_decide_eq_false_2 (td_queueTick last = _)), andb_false_r
      by (rewrite (sw_queue _ _ _ _ Hsh); done).
    rewrite C1, (co_latest _ _ Hcfg). unfold pushUpdateLatest, mbind, run_bind, get.
    rewrite C1, (co_deep _ _ Hcfg), (calcUpdate_of o names Hcfg sn0 sn1 last) by done.
    unfold push_with. rewrite bool_decide_eq_true_2; [reflexivity|].
    cbn. by rewrite unchanged_entries.
  - done.
  - done.
  - apply calcUpdate_of; [done|apply shows_data_of].
  - destruct Hmi as [_ Hdeep _ _ Ht Hqt Hm _].
    apply (verify_drifts o names Hcfg sn1 sn2 c (sn_queue sn1 - sn_queue sn0));
      [done| |congruence|done|done|rewrite Hqt; lia|done].
    rewrite Ht. apply client_time_ext. intros x Hx. by rewrite Hsame.
Qed.
End theorems.

(** ** A concrete system *)

(** A source that is only looked at. *)
#[export] Instance view_source : StateSource SourceView := {
  source_view := id;
  source_mutate := λ _ _ _ _, mret (Executed, []);
}.

Definition demo_sync : SyncOpts := mkSyncOpts false None ["B"] true false.
Definition demo_names : list string := ["A"; "B"; "C"].
Definition demo_tick (a : Z) (s : string) : Z := if decide (s = "A") then a else if decide (s = "B") then 7 else 2.
Definition demo_source : SourceView :=
  mkSourceView "src" demo_names (demo_tick 1 <$> demo_names) 5 1 ∅.

Definition demo_server : Server := sv_set_tracked [] [] (mkServer ["Start"] [] (mkSyncOpts false None [] false false)
  false None [] (Some (mkData 0 [] 1 0 0 [] [])) [] (Some zeroData) false None [] 250 0 []).

Definition demo_schema : gmap string State := list_to_map ((λ s, (s, zeroState)) <$> demo_names).

Definition demo_net : NetMach := mkNetMach (mkNetInfo "net" "" "" [] true false) (Some demo_schema)
  demo_names (mkNetClock [0; 0; 0] ∅ 1 0 []) NewSubscriptionManager (mkNetBind [] 0 [] [] []) false
  None [] [].

Definition demo_client : Client := mkClient [] [] demo_sync demo_net [] [] true 0.

Definition ran {A B} (d : B) (r : outcome (A * B)) : B := match r with Ok p => p.2 | _ => d end.

Definition demo_hello : outcome ((RpcError + MsgSrvHello) * (SourceView * Server)) :=
  RemoteHello (λ _, "hash") (hello_req demo_sync "client" "") (demo_source, demo_server).
Definition demo_resp : MsgSrvHello :=
  match demo_hello with
  | Ok (inr resp, _) => resp | _ => mkSrvHello None (mkSerialized "" [] [] 0 0) 0 end.
Definition demo_s0 : Server := (ran (demo_source, demo_server) demo_hello).2.
Definition demo_c0 : Client :=
  match handshake (λ _, false) demo_resp demo_client with Ok c => c | _ => demo_client end.

(** The source removes [A], and the server pushes. *)
Definition demo_snap : Snap := mkSnap (demo_tick 2) 6 1.
Definition demo_tx : TxEnd :=
  mkTxEnd (newMutation MutationRemove [0] ∅ false false None) demo_names
    (demo_tick 2 <$> demo_names) 6 1.
Definition demo_s1 : Server := ran demo_s0 (TransitionEnd demo_tx demo_s0).
Definition demo_s2 : Server := set_env ["Start"; "HandshakeDone"] true (Some "client") demo_s1.
Definition demo_s3 : Server := ran demo_s2 (PushClient false true demo_s2).

Lemma demo_config : config_ok demo_sync demo_names.
Proof. split; [|done..]. by apply (bool_decide_unpack _). Qed.

Lemma demo_fresh : fresh_server demo_server.
Proof. split; try done. by exists zeroData. Qed.

Lemma demo_snap_ok : snap_ok demo_snap.
Proof.
  split; [|split; done|done]. intros s. cbn. unfold demo_tick. by repeat case_decide.
Qed.

Lemma demo_tracked s : s ∈ tracked demo_sync demo_names ↔ s = "A" ∨ s = "C".
Proof.
  change (tracked demo_sync demo_names) with ["A"; "C"].
  rewrite !elem_of_cons, elem_of_nil. tauto.
Qed.

Lemma demo_push_ok : push_ok demo_sync demo_names demo_s2.
Proof.
  intros data last sn0 Hd Hl [(g & Hg & Hgs) Hq Hm].
  assert (Hlast : sv_lastPushData demo_s2 = Some last) by done. vm_compute in Hlast.
  injection Hlast as <-. cbn in Hg, Hq, Hm. injection Hg as Ga Gb Gc.
  assert (HA : sn_tick sn0 "A" = 1) by (rewrite <- Hgs; [done|apply demo_tracked; by left]).
  assert (HC : sn_tick sn0 "C" = 2) by (rewrite <- Hgs; [done|apply demo_tracked; by right]).
  exists demo_snap. split; [apply demo_snap_ok|]. split.
  { vm_compute in Hd. injection Hd as <-. by vm_compute. }
  split; [split|].
  - intros s [-> | ->]%demo_tracked; [rewrite HA|rewrite HC]; done.
  - by rewrite <- Hq.
  - by rewrite <- Hm.
  - intros Hall. assert (E : sn_tick demo_snap "A" = sn_tick sn0 "A") by (apply Hall, demo_tracked; by left).
    rewrite HA in E. done.
Qed.

(** The states of the run. *)
Lemma demo_run : rtc (sys_step demo_sync demo_names (λ _, false)) (mkSys demo_c0 demo_s0) (mkSys demo_c0 demo_s3).
Proof.
  apply (rtc_l _ _ (mkSys demo_c0 demo_s1)).
  { apply (step_trace _ _ _ (mkSys demo_c0 demo_s0) demo_snap demo_tx);
      [apply demo_snap_ok|done..|]. by vm_compute. }
  apply (rtc_l _ _ (mkSys demo_c0 demo_s2)).
  { apply (step_env _ _ _ (mkSys demo_c0 demo_s1)). }
  apply rtc_once. apply (step_push _ _ _ (mkSys demo_c0 demo_s2) false true); [apply demo_push_ok|].
  by vm_compute.
Qed.

(** The handshake leaves the client with [A] and [C] as in the source, and no [B]. *)
Example handshake_connects_witness :
  ∃ resp s' c',
    RemoteHello (λ _, "hash") (hello_req demo_sync "client" "") (demo_source, demo_server)
      = Ok (inr resp, (demo_source, s'))
    ∧ handshake (λ _, false) resp demo_client = Ok c' ∧ machTime (cl_net c') = [1; 0; 2].
Proof.
  destruct (handshake_connects (λ _, "hash") (λ _, false) demo_sync demo_names "client" "" demo_source
    demo_server demo_client (demo_tick 1)) as (resp & s' & c' & H1 & H2 & _ & H4 & _).
  - exact demo_config.
  - by vm_compute.
  - exact demo_fresh.
  - split; [done|by eexists|by eexists _, _, _|by apply NoDup_nil].
  - done.
  - done.
  - done.
  - done.
  - by exists resp, s', c'.
Defined.



(** Next, only the queue moves. *)
Definition demo_still : Snap := mkSnap (demo_tick 1) 6 0.
Definition demo_stuck : Server :=
  set_env ["Start"; "HandshakeDone"] true (Some "client")
    (sv_set_data (Some (data_of demo_sync demo_names demo_still)) [] demo_s0).

Lemma demo_in_step :
  let sn := mkSnap (demo_tick 1) 5 0 in in_step demo_sync demo_names sn sn (mkSys demo_c0 demo_s0).
Proof.
  apply (handshake_in_step demo_sync demo_names demo_config (λ _, false) (λ _, "hash") "client" "" demo_source
    demo_server demo_source (demo_tick 1) demo_resp demo_source demo_s0 demo_client demo_c0);
    [exact demo_fresh|done..| |]; by vm_compute.
Qed.

Example dropped_tick_drifts_witness :
  ∃ s', PushClient false true demo_stuck = Ok ((), s') ∧ sv_out s' = [].
Proof.
  destruct demo_in_step as [Hc Hm _ (last & Hl & Hsh)].
  destruct (dropped_tick_drifts demo_sync demo_names (mkSnap (demo_tick 1) 5 0) demo_still
    (mkSnap (demo_tick 2) 7 0) demo_c0 demo_stuck last) as (s' & Hp & Ho & _).
  - exact demo_config.
  - exact Hm.
  - exact Hc.
  - done.
  - done.
  - done.
  - exact Hl.
  - exact Hsh.
  - done.
  - split; [|split; done|done]. intros x. cbn. unfold demo_tick. by repeat case_decide.
  - split; [|done..]. intros x [-> | ->]%demo_tracked; done.
  - done.
  - done.
  - done.
  - by exists s'.
Defined.
