(* ===== verification/History.v ===== *)
(** * The history of a machine ([pkg/history/history.go])

    A tracer keeps records of the transitions that match a configuration, in
    the memory of the process, and queries look through them.  Human time is a
    number, 0 for the zero time.  [expired] tells whether the caller's context
    has ended when the record at an index is looked at.  The database back ends
    are I/O around the same records and are left out. *)

From S2P Require Import Prelude StateList SchemaDef MachTime Mutation.

#[local] Open Scope Z_scope.

(** ** Queries, configuration, records *)

Record ConditionTime := mkCondTime {
  ct_MTimeStates : list string;
  ct_MTime : list Z;
  ct_HTime : Z;
  ct_MTimeSum : Z;
  ct_MTimeTrackedSum : Z;
  ct_MTimeDiff : Z;
  ct_MTimeTrackedDiff : Z;
  ct_MTimeRecordDiff : Z;
  ct_MachTick : Z;
}.

Definition zeroCond : ConditionTime := mkCondTime [] [] 0 0 0 0 0 0 0.

Record Query := mkQuery {
  q_Active : list string;
  q_Activated : list string;
  q_Inactive : list string;
  q_Deactivated : list string;
  q_Start : ConditionTime;
  q_End : ConditionTime;
}.

Record BaseConfig := mkConfig {
  bc_Called : list string;
  bc_CalledExclude : bool;
  bc_Changed : list string;
  bc_ChangedExclude : bool;
  bc_TrackRejected : bool;
  bc_TrackedStates : list string;
  bc_StoreTransitions : bool;
  bc_StoreSchema : bool;
  bc_MaxRecords : Z;
}.

Record TimeRecord := mkTimeRecord {
  tr_MutType : MutationType;
  tr_MTimeSum : Z;
  tr_MTimeTrackedSum : Z;
  tr_MTimeDiffSum : Z;
  tr_MTimeTrackedDiffSum : Z;
  tr_MTimeRecordDiffSum : Z;
  tr_HTime : Z;
  tr_MTimeTracked : list Z;
  tr_MTimeTrackedDiff : list Z;
  tr_MachTick : Z;
}.

Record TransitionRecord := mkTransitionRecord {
  xr_TransitionId : string;
  xr_SourceTx : string;
  xr_SourceMach : string;
  xr_IsAuto : bool;
  xr_IsAccepted : bool;
  xr_IsCheck : bool;
  xr_IsBroken : bool;
  xr_QueueLen : Z;
  xr_QueuedAt : Z;
  xr_ExecutedAt : Z;
  xr_Called : list Z;
  xr_Arguments : gmap string string;
}.

Record MemoryRecord := mkMemoryRecord {
  mr_Time : TimeRecord;
  mr_Transition : option TransitionRecord;
}.

Record MachineRecord := mkMachineRecord {
  rc_MachId : string;
  rc_StateNames : list string;
  rc_Schema : option (gmap string State);
  rc_FirstTracking : Z;
  rc_LastTracking : Z;
  rc_LastSync : Z;
  rc_MTime : list Z;
  rc_MTimeSum : Z;
  rc_MachTick : Z;
  rc_NextId : Z;
}.

(** The tracked machine when it is looked at, and the time of day. *)
Record MachNow := mkMachNow {
  mn_id : string;
  mn_names : list string;
  mn_time : list Z;
  mn_machTick : Z;
  mn_queueTick : Z;
  mn_schema : gmap string State;
  mn_now : Z;
  mn_mapper : option (gmap string Val → gmap string string);
}.

(** A transition that ended. *)
Record TxDone := mkTxDone {
  td_Id : string;
  td_Mutation : Mutation;
  td_CalledStates : list string;
  td_TimeBefore : list Z;
  td_TimeAfter : list Z;
  td_IsAccepted : bool;
  td_IsBroken : bool;
  td_QueueLen : Z;
}.

Record Memory := mkMemory {
  m_Cfg : BaseConfig;
  m_trackedIdxs : list Z;
  m_db : list MemoryRecord;
  m_machRec : MachineRecord;
  m_disposed : bool;
}.

(** ** The tracer *)

Module Tracer.

Definition MachineInit (cfg : BaseConfig) (mach : MachNow) (r : option MachineRecord)
  : MachineRecord :=
  let r := default (mkMachineRecord mach.(mn_id) [] None mach.(mn_now) 0 0 [] 0 0 1) r in
  mkMachineRecord r.(rc_MachId)
    (if cfg.(bc_StoreSchema) then mach.(mn_names) else r.(rc_StateNames))
    (if cfg.(bc_StoreSchema) then Some mach.(mn_schema) else r.(rc_Schema))
    r.(rc_FirstTracking) mach.(mn_now) mach.(mn_now) mach.(mn_time) (time_sum mach.(mn_time))
    mach.(mn_machTick) r.(rc_NextId).

Definition SchemaChange (mach : MachNow) (m : Memory) : Memory :=
  if negb m.(m_Cfg).(bc_StoreSchema) then m
  else
    let r := m.(m_machRec) in
    mkMemory m.(m_Cfg) m.(m_trackedIdxs) m.(m_db)
      (mkMachineRecord r.(rc_MachId) mach.(mn_names) (Some mach.(mn_schema)) r.(rc_FirstTracking)
         r.(rc_LastTracking) r.(rc_LastSync) r.(rc_MTime) r.(rc_MTimeSum) r.(rc_MachTick)
         r.(rc_NextId)) m.(m_disposed).

(** One of the two loops over a list of the configuration: the first name that
    is among [found] decides. *)
Definition match_list (list found : list string) (exclude match_ : bool) : bool :=
  match find_first (contains found) list with
  | Some _ => negb exclude
  | None => match_
  end.

Definition matches (cfg : BaseConfig) (called changed : list string) : bool :=
  let match_ := (cfg.(bc_ChangedExclude) || bool_decide (cfg.(bc_Changed) = []))
                && (cfg.(bc_CalledExclude) || bool_decide (cfg.(bc_Called) = [])) in
  let match_ := match_list cfg.(bc_Called) called cfg.(bc_CalledExclude) match_ in
  match_list cfg.(bc_Changed) changed cfg.(bc_ChangedExclude) match_.

Definition changed_states (names : list string) (tx : TxDone) : outcome (list string) :=
  TimeIndex.NonZeroStates
    (Time_ToIndex (Time.DiffSince tx.(td_TimeAfter) tx.(td_TimeBefore)) names).

(** [m.Index], [BaseMemory.Index] *)
Definition Index (cfg : BaseConfig) (states : list string) : list Z :=
  index_of cfg.(bc_TrackedStates) <$> states.

(** [lastSum]: the machine time of the record before. *)
Definition time_record (lastSum : option Z) (mach : MachNow) (tx : TxDone) (tracked before : list Z)
    (sumBefore : Z) : TimeRecord :=
  let sum := time_sum tx.(td_TimeAfter) in
  let sumTracked := time_sum tracked in
  let recordDiff := match lastSum with Some l => wrap64 (sum - l) | None => 0 end in
  mkTimeRecord tx.(td_Mutation).(mut_Type) sum sumTracked
    (wrap64 (sum - time_sum tx.(td_TimeBefore))) (wrap64 (sumTracked - sumBefore)) recordDiff
    mach.(mn_now) tracked (Time.DiffSince tracked before) mach.(mn_machTick).

Definition transition_record (m : Memory) (mach : MachNow) (tx : TxDone) : TransitionRecord :=
  let mut := tx.(td_Mutation) in
  mkTransitionRecord tx.(td_Id)
    (match mut.(mut_Source) with Some s => s.(src_TxId) | None => "" end)
    (match mut.(mut_Source) with Some s => s.(src_MachId) | None => "" end)
    mut.(mut_IsAuto) tx.(td_IsAccepted) mut.(mut_IsCheck) tx.(td_IsBroken) tx.(td_QueueLen)
    mut.(mut_QueueTick) (if bool_decide (0 < mut.(mut_QueueTick)) then mach.(mn_queueTick) else 0)
    (Index m.(m_Cfg) tx.(td_CalledStates)) (Mutation_MapArgs mut mach.(mn_mapper)).

(** [m.db = m.db[1:]] on a full history, then append. *)
Definition rotate (max : Z) (db : list MemoryRecord) (r : MemoryRecord)
  : outcome (list MemoryRecord) :=
  if bool_decide (max ≤ Z.of_nat (length db))
  then match db with [] => Panic "slice bounds out of range" | _ :: db => Ok (db ++ [r]) end
  else Ok (db ++ [r]).

Definition last_sum (db : list MemoryRecord) : option Z := r ← last db; Some r.(mr_Time).(tr_MTimeSum).

Definition TransitionEnd (mach : MachNow) (tx : TxDone) (m : Memory) : outcome Memory :=
  let cfg := m.(m_Cfg) in
  if (negb tx.(td_IsAccepted) && negb cfg.(bc_TrackRejected)) || tx.(td_Mutation).(mut_IsCheck)
  then Ok m
  else
    changed ← changed_states mach.(mn_names) tx;
    tracked ← Time.Filter tx.(td_TimeAfter) m.(m_trackedIdxs);
    before ← Time.Filter tx.(td_TimeBefore) m.(m_trackedIdxs);
    if negb (matches cfg tx.(td_CalledStates) changed) then Ok m
    else
      sumBefore ← Time.Sum tx.(td_TimeBefore) (Some m.(m_trackedIdxs));
      let rec := mkMemoryRecord (time_record (last_sum m.(m_db)) mach tx tracked before sumBefore)
        (if cfg.(bc_StoreTransitions) then Some (transition_record m mach tx) else None) in
      db ← rotate cfg.(bc_MaxRecords) m.(m_db) rec;
      let r := m.(m_machRec) in
      Ok (mkMemory cfg m.(m_trackedIdxs) db
        (mkMachineRecord r.(rc_MachId) r.(rc_StateNames) r.(rc_Schema) r.(rc_FirstTracking)
           r.(rc_LastTracking) mach.(mn_now) tx.(td_TimeAfter) (time_sum tx.(td_TimeAfter))
           mach.(mn_machTick) (wrap64 (r.(rc_NextId) + 1))) m.(m_disposed)).

End Tracer.

(** ** The memory *)

Module Hist.

(** [parse] is the machine's [ParseStates]. *)
Definition NewMemory (machRecord : option MachineRecord) (mach : MachNow)
    (parse : list string → list string) (config : BaseConfig) : string + Memory :=
  let max := if bool_decide (config.(bc_MaxRecords) ≤ 0) then 1000 else config.(bc_MaxRecords) in
  let tracked := config.(bc_TrackedStates)
    ++ (if negb config.(bc_CalledExclude) then config.(bc_Called) else [])
    ++ (if negb config.(bc_ChangedExclude) then config.(bc_Changed) else []) in
  let tracked := parse tracked in
  let c := mkConfig config.(bc_Called) config.(bc_CalledExclude) config.(bc_Changed)
    config.(bc_ChangedExclude) config.(bc_TrackRejected) tracked config.(bc_StoreTransitions)
    config.(bc_StoreSchema) max in
  if bool_decide (tracked = []) then inl "no states to track"
  else inr (mkMemory c (index_of mach.(mn_names) <$> tracked) []
              (Tracer.MachineInit c mach machRecord) false).

Definition IsTracked (m : Memory) (states : list string) : bool :=
  forallb (contains m.(m_Cfg).(bc_TrackedStates)) states.
Definition IsTracked1 (m : Memory) (state : string) : bool := IsTracked m [state].
Definition Index1 (m : Memory) (state : string) : Z := index_of m.(m_Cfg).(bc_TrackedStates) state.

Definition Export (m : Memory) : list MemoryRecord := m.(m_db).
Definition Dispose (m : Memory) : Memory :=
  mkMemory m.(m_Cfg) m.(m_trackedIdxs) [] m.(m_machRec) true.

Inductive HistError := ErrNotTracked (state : string) | ErrMTimeLen | ErrContext.

Definition ValidateQuery (m : Memory) (q : Query) : option HistError :=
  let names := q.(q_Active) ++ q.(q_Activated) ++ q.(q_Inactive) ++ q.(q_Deactivated)
    ++ q.(q_Start).(ct_MTimeStates) ++ q.(q_End).(ct_MTimeStates) in
  match find_first (λ s, negb (IsTracked1 m s)) names with
  | Some s => Some (ErrNotTracked s)
  | None =>
      if negb (bool_decide (length q.(q_Start).(ct_MTimeStates) = length q.(q_Start).(ct_MTime)))
      then Some ErrMTimeLen
      else if negb (bool_decide (length q.(q_End).(ct_MTimeStates) = length q.(q_End).(ct_MTime)))
      then Some ErrMTimeLen
      else None
  end.

(** *** Queries *)

Section find.
Context (machIndex1 : string → Z) (m : Memory).

(** [am.IsActiveTick(r.Time.MTimeTracked[idx])] *)
Definition active_at (r : MemoryRecord) (idx : Z) : outcome bool :=
  v ← slice_get r.(mr_Time).(tr_MTimeTracked) idx; Ok (IsActiveTick v).

(** The body of a loop over states: its [continue] ends the body, so the loop
    goes on with the next state whatever was found. *)
Fixpoint for_states (states : list string) (body : string → outcome ()) : outcome () :=
  match states with
  | [] => Ok ()
  | s :: states => body s;; for_states states body
  end.

Definition look_Active (r : MemoryRecord) (state : string) : outcome () :=
  b ← active_at r (Index1 m state); if negb b then Ok () else Ok ().

Definition look_Activated (r : MemoryRecord) (older : option MemoryRecord) (state : string)
  : outcome () :=
  b ← active_at r (Index1 m state);
  if negb b then Ok ()
  else match older with
       | Some o => b ← active_at o (Index1 m state); if b : bool then Ok () else Ok ()
       | None => Ok ()
       end.

(** [mach.Index1]: the index in the machine, not in the record. *)
Definition look_Inactive (r : MemoryRecord) (state : string) : outcome () :=
  b ← active_at r (machIndex1 state); if b : bool then Ok () else Ok ().

Definition look_Deactivated (r : MemoryRecord) (older : option MemoryRecord) (state : string)
  : outcome () :=
  b ← active_at r (Index1 m state);
  if b : bool then Ok ()
  else match older with
       | Some o => b ← active_at o (Index1 m state); if negb b then Ok () else Ok ()
       | None => Ok ()
       end.

(** [s != 0 && e != 0 && (t < s || t > e)] *)
Definition outside (s e t : Z) : bool :=
  negb (bool_decide (s = 0)) && negb (bool_decide (e = 0))
  && (bool_decide (t < s) || bool_decide (e < t)).

Definition scalar_match (s e : ConditionTime) (t : TimeRecord) : bool :=
  negb (outside s.(ct_HTime) e.(ct_HTime) t.(tr_HTime)
    || outside s.(ct_MTimeSum) e.(ct_MTimeSum) t.(tr_MTimeSum)
    || outside s.(ct_MTimeTrackedSum) e.(ct_MTimeTrackedSum) t.(tr_MTimeTrackedSum)
    || outside s.(ct_MTimeDiff) e.(ct_MTimeDiff) t.(tr_MTimeDiffSum)
    || outside s.(ct_MTimeTrackedDiff) e.(ct_MTimeTrackedDiff) t.(tr_MTimeTrackedDiffSum)
    || outside s.(ct_MTimeRecordDiff) e.(ct_MTimeRecordDiff) t.(tr_MTimeRecordDiffSum)
    || outside s.(ct_MachTick) e.(ct_MachTick) t.(tr_MachTick)).

(** The loops over the states of a query. *)
Definition look_states (q : Query) (r : MemoryRecord) (older : option MemoryRecord) : outcome () :=
  for_states q.(q_Active) (look_Active r);;
  for_states q.(q_Activated) (look_Activated r older);;
  for_states q.(q_Inactive) (look_Inactive r);;
  for_states q.(q_Deactivated) (look_Deactivated r older).

(** The conditions on times; [idxs]: where the states of the query are. *)
Definition times_match (idxs : list Z) (q : Query) (r : MemoryRecord) : outcome bool :=
  let s := q.(q_Start) in
  let e := q.(q_End) in
  inTime ← (if bool_decide (s.(ct_MTimeStates) = []) then Ok true
            else
              t ← Time.Filter r.(mr_Time).(tr_MTimeTracked) idxs;
              Ok (negb (Time.Before t false s.(ct_MTime) || Time.After t false e.(ct_MTime))));
  Ok ((inTime : bool) && scalar_match s e r.(mr_Time)).

(** Whether a record is collected. *)
Definition record_match (q : Query) (r : MemoryRecord) (older : option MemoryRecord)
  : outcome bool :=
  look_states q r older;; times_match (Index1 m <$> q.(q_Start).(ct_MTimeStates)) q r.

(** The loop of the matcher over [i = n - 1, ..., 0], with what it collected. *)
Fixpoint find_loop (expired : nat → bool) (limit : Z) (q : Query) (db : list MemoryRecord)
    (n : nat) (ret : list MemoryRecord) : outcome (list MemoryRecord) :=
  match n with
  | O => Ok ret
  | S i =>
      if expired i then Ok []
      else match db !! i with
      | None => Panic "index out of range"
      | Some r =>
          b ← record_match q r (match i with O => None | S j => db !! j end);
          if negb b then find_loop expired limit q db i ret
          else
            let ret := ret ++ [r] in
            if bool_decide (0 < limit) && bool_decide (limit ≤ Z.of_nat (length ret)) then Ok ret
            else find_loop expired limit q db i ret
      end
  end.

(** [ended]: the context, or that of the memory, has ended when the matcher is
    done. *)
Definition Match (ended : bool) (matcher : list MemoryRecord → outcome (list MemoryRecord))
  : outcome (HistError + list MemoryRecord) :=
  ret ← matcher m.(m_db);
  if ended then Ok (inl ErrContext) else Ok (inr ret).

Definition FindLatest (expired : nat → bool) (ended : bool) (limit : Z) (q : Query)
  : outcome (HistError + list MemoryRecord) :=
  match ValidateQuery m q with
  | Some err => Ok (inl err)
  | None => Match ended (λ db, find_loop expired limit q db (length db) [])
  end.

(** [err == nil && ret != nil] *)
Definition found (r : outcome (HistError + list MemoryRecord)) : outcome bool :=
  r ← r;
  match r with
  | inl _ => Ok false
  | inr l => Ok (negb (bool_decide (l = [])))
  end.

Definition between (startTime endTime : Z) (active activated inactive deactivated : list string)
  : Query :=
  mkQuery active activated inactive deactivated
    (mkCondTime [] [] startTime 0 0 0 0 0 0) (mkCondTime [] [] endTime 0 0 0 0 0 0).

Definition ActivatedBetween expired ended (state : string) (startTime endTime : Z) : outcome bool :=
  found (FindLatest expired ended 1 (between startTime endTime [] [state] [] [])).
Definition ActiveBetween expired ended (state : string) (startTime endTime : Z) : outcome bool :=
  found (FindLatest expired ended 1 (between startTime endTime [state] [] [] [])).
Definition DeactivatedBetween expired ended (state : string) (startTime endTime : Z) : outcome bool :=
  found (FindLatest expired ended 1 (between startTime endTime [] [] [] [state])).
Definition InactiveBetween expired ended (state : string) (startTime endTime : Z) : outcome bool :=
  found (FindLatest expired ended 1 (between startTime endTime [] [] [state] [])).

End find.
End Hist.

(** ** What a query finds *)

Section spec.
Context (machIndex1 : string → Z) (m : Memory).
Import Hist.

(** The conditions on times: all a query asks for in effect. *)
Definition time_match (q : Query) (r : MemoryRecord) : bool :=
  let s := q.(q_Start) in
  let t := pick r.(mr_Time).(tr_MTimeTracked) (Index1 m <$> s.(ct_MTimeStates)) in
  (bool_decide (s.(ct_MTimeStates) = [])
   || negb (Time.Before t false s.(ct_MTime) || Time.After t false q.(q_End).(ct_MTime)))
  && scalar_match s q.(q_End) r.(mr_Time).

Definition newest {A} (limit : Z) (l : list A) : list A :=
  if bool_decide (0 < limit) then take (Z.to_nat limit) l else l.

(** A record of the tracked states. *)
Definition record_len (r : MemoryRecord) : Prop :=
  length r.(mr_Time).(tr_MTimeTracked) = length m.(m_Cfg).(bc_TrackedStates).

Lemma for_states_ok states body :
  (∀ s, s ∈ states → body s = Ok ()) → for_states states body = Ok ().
Proof.
  induction states as [|s states IH]; intros Hb; [done|]. cbn.
  rewrite (Hb s) by left. cbn. apply IH. intros x Hx. apply Hb. by right.
Qed.

Lemma active_at_ok r i :
  0 ≤ i < Z.of_nat (length r.(mr_Time).(tr_MTimeTracked)) → ∃ b, active_at r i = Ok b.
Proof.
  intros Hi. unfold active_at.
  destruct (lookup_lt_is_Some_2 r.(mr_Time).(tr_MTimeTracked) (Z.to_nat i)) as [v Hv]; [lia|].
  assert (slice_get r.(mr_Time).(tr_MTimeTracked) i = Ok v) as ->; [|by eexists].
  apply slice_get_ok. split; [lia|done].
Qed.

(** Or of more states than the queries know. *)
Definition record_long (r : MemoryRecord) : Prop :=
  (length m.(m_Cfg).(bc_TrackedStates) ≤ length r.(mr_Time).(tr_MTimeTracked))%nat.

Lemma record_len_long r : record_len r → record_long r.
Proof. unfold record_len, record_long. lia. Qed.

Lemma tracked_index r s :
  record_long r → s ∈ m.(m_Cfg).(bc_TrackedStates) →
  ∃ b, active_at r (Index1 m s) = Ok b.
Proof.
  intros Hr Hs. apply active_at_ok. unfold Index1. destruct (index_of_in _ _ Hs) as [Hge Hl].
  apply lookup_lt_Some in Hl. unfold record_long in Hr. lia.
Qed.

Lemma ValidateQuery_tracked q s :
  ValidateQuery m q = None →
  s ∈ q.(q_Active) ++ q.(q_Activated) ++ q.(q_Inactive) ++ q.(q_Deactivated)
    ++ q.(q_Start).(ct_MTimeStates) ++ q.(q_End).(ct_MTimeStates) →
  s ∈ m.(m_Cfg).(bc_TrackedStates).
Proof.
  unfold ValidateQuery. destruct (find_first _ _) eqn:Hf; [done|]. intros _ Hs.
  rewrite find_first_none in Hf. specialize (Hf s Hs). cbn in Hf.
  unfold IsTracked1, IsTracked in Hf. cbn in Hf. rewrite andb_true_r in Hf.
  apply negb_false_iff in Hf. by apply contains_true.
Qed.

(** A query can be answered: it is valid, and its Inactive states have an index in
    the records by their index in the machine. *)
Definition answerable (q : Query) : Prop :=
  ValidateQuery m q = None
  ∧ ∀ s, s ∈ q.(q_Inactive) → 0 ≤ machIndex1 s < Z.of_nat (length m.(m_Cfg).(bc_TrackedStates)).

Lemma look_states_ok q r older :
  answerable q → record_long r → (∀ o, older = Some o → record_long o) →
  look_states machIndex1 m q r older = Ok ().
Proof.
  intros [Hv Hi] Hr Ho. pose proof (ValidateQuery_tracked q) as Ht.
  assert (Hin : ∀ s, s ∈ q.(q_Active) ∨ s ∈ q.(q_Activated) ∨ s ∈ q.(q_Deactivated)
    → s ∈ m.(m_Cfg).(bc_TrackedStates)).
  { intros s Hs. apply Ht; [done|]. rewrite !elem_of_app. tauto. }
  unfold look_states.
  rewrite (for_states_ok q.(q_Active)).
  2: { intros s Hs. unfold look_Active. destruct (tracked_index r s Hr) as [b ->]; [auto|]. by destruct b. }
  cbn [mbind outcome_bind]. rewrite (for_states_ok q.(q_Activated)).
  2: { intros s Hs. unfold look_Activated. destruct (tracked_index r s Hr) as [b ->]; [auto|].
       destruct b, older as [o|]; try done. cbn.
       destruct (tracked_index o s (Ho o eq_refl)) as [b ->]; [auto|]. by destruct b. }
  cbn [mbind outcome_bind]. rewrite (for_states_ok q.(q_Inactive)).
  2: { intros s Hs. unfold look_Inactive. destruct (active_at_ok r (machIndex1 s)) as [b ->];
         [specialize (Hi s Hs); unfold record_long in Hr; lia|]. by destruct b. }
  cbn [mbind outcome_bind]. apply for_states_ok.
  intros s Hs. unfold look_Deactivated. destruct (tracked_index r s Hr) as [b ->]; [auto|].
  destruct b, older as [o|]; try done. cbn.
  destruct (tracked_index o s (Ho o eq_refl)) as [b ->]; [auto|]. by destruct b.
Qed.

Lemma times_match_ok idxs q r :
  (∀ i, i ∈ idxs → 0 ≤ i) →
  times_match idxs q r
  = Ok ((bool_decide (q.(q_Start).(ct_MTimeStates) = [])
         || negb (Time.Before (pick r.(mr_Time).(tr_MTimeTracked) idxs) false q.(q_Start).(ct_MTime)
                  || Time.After (pick r.(mr_Time).(tr_MTimeTracked) idxs) false q.(q_End).(ct_MTime)))
        && scalar_match q.(q_Start) q.(q_End) r.(mr_Time)).
Proof. intros Hi. unfold times_match. case_bool_decide; [done|]. by rewrite Filter_pick. Qed.

Lemma record_match_ok q r older :
  answerable q → record_len r → (∀ o, older = Some o → record_len o) →
  record_match machIndex1 m q r older = Ok (time_match q r).
Proof.
  intros Hq Hr Ho. unfold record_match. rewrite look_states_ok by eauto using record_len_long. cbn [mbind outcome_bind].
  rewrite times_match_ok; [done|]. intros i (s & -> & Hs)%list_elem_of_fmap. unfold Index1.
  apply index_of_in, (ValidateQuery_tracked q); [apply Hq|]. rewrite !elem_of_app. tauto.
Qed.

Lemma find_loop_spec q db limit n ret :
  answerable q → Forall record_len db → (n ≤ length db)%nat →
  (0 < limit → Z.of_nat (length ret) < limit) →
  find_loop machIndex1 m (λ _, false) limit q db n ret
  = Ok (newest limit (ret ++ slicesFilter (reverse (take n db)) (time_match q))).
Proof.
  intros Hq Hdb. revert ret. induction n as [|n IH]; intros ret Hn Hlim; cbn [find_loop].
  { cbn. rewrite app_nil_r. unfold newest. case_bool_decide; [|done]. rewrite take_ge; [done|]. lia. }
  destruct (lookup_lt_is_Some_2 db n) as [r Hr]; [lia|]. rewrite Hr.
  rewrite (record_match_ok q r).
  2: done. 2: { rewrite Forall_lookup in Hdb. by eapply Hdb. }
  2: { intros o Ho. rewrite Forall_lookup in Hdb. destruct n as [|k]; [done|]. by eapply Hdb. }
  cbn [mbind outcome_bind]. rewrite (take_S_r _ _ r) by done. rewrite reverse_app, reverse_singleton.
  cbn [app]. rewrite slicesFilter_cons. destruct (time_match q r); cbn [negb]; [|apply IH; [lia|done]].
  case_bool_decide as Hpos; cbn [andb]; [case_bool_decide as Hfull|].
  - unfold newest. rewrite bool_decide_eq_true_2 by done. rewrite length_app in Hfull. cbn in Hfull.
    specialize (Hlim Hpos). f_equal. set (k := slicesFilter _ _).
    replace (ret ++ r :: k) with ((ret ++ [r]) ++ k) by (by rewrite <- app_assoc).
    rewrite take_app_length'; [done|]. rewrite length_app. cbn. lia.
  - rewrite IH by (try lia). by rewrite <- app_assoc.
  - rewrite IH by (try lia). by rewrite <- app_assoc.
Qed.
End spec.


(** ** What the tracer keeps *)

(** A memory and everything that happens to it. *)
Inductive reached : Memory → Prop :=
| reached_New machRecord mach parse config m :
    Hist.NewMemory machRecord mach parse config = inr m → reached m
| reached_TransitionEnd mach tx m m' :
    reached m → Tracer.TransitionEnd mach tx m = Ok m' → reached m'
| reached_SchemaChange mach m : reached m → reached (Tracer.SchemaChange mach m)
| reached_Dispose m : reached m → reached (Hist.Dispose m).

(** The sums of a record are those of its times. *)
Definition record_sums (r : MemoryRecord) : Prop :=
  let t := r.(mr_Time) in
  t.(tr_MTimeTrackedSum) = time_sum t.(tr_MTimeTracked)
  ∧ t.(tr_MTimeTrackedDiffSum) = time_sum t.(tr_MTimeTrackedDiff).

(** Each record tells the machine time that passed since the one before it. *)
Definition chained (db : list MemoryRecord) : Prop :=
  ∀ i r1 r2, db !! i = Some r1 → db !! S i = Some r2 →
  r2.(mr_Time).(tr_MTimeRecordDiffSum)
  = wrap64 (r2.(mr_Time).(tr_MTimeSum) - r1.(mr_Time).(tr_MTimeSum)).

Record hist_ok (m : Memory) : Prop := {
  ho_max : 0 < m.(m_Cfg).(bc_MaxRecords);
  ho_bound : Z.of_nat (length m.(m_db)) ≤ m.(m_Cfg).(bc_MaxRecords);
  ho_idxs : length m.(m_trackedIdxs) = length m.(m_Cfg).(bc_TrackedStates);
  ho_len : Forall (record_len m) m.(m_db);
  ho_sums : Forall record_sums m.(m_db);
  ho_chain : chained m.(m_db);
  ho_latest : ∀ r, last m.(m_db) = Some r →
    m.(m_machRec).(rc_MTimeSum) = r.(mr_Time).(tr_MTimeSum);
}.

Lemma chained_tail r db : chained (r :: db) → chained db.
Proof. intros Hc i r1 r2 H1 H2. by apply (Hc (S i)). Qed.

Lemma chained_snoc db r :
  chained db →
  (∀ r0, last db = Some r0 → r.(mr_Time).(tr_MTimeRecordDiffSum)
    = wrap64 (r.(mr_Time).(tr_MTimeSum) - r0.(mr_Time).(tr_MTimeSum))) →
  chained (db ++ [r]).
Proof.
  intros Hc Hl i r1 r2 H1 H2. apply lookup_app_Some in H2 as [H2|[Hlen H2]].
  - eapply Hc, H2. rewrite lookup_app_l in H1; [done|]. apply lookup_lt_Some in H2. lia.
  - destruct (S i - length db)%nat as [|k] eqn:E; [|done]. injection H2 as <-.
    apply Hl. rewrite last_lookup. replace (pred (length db)) with i by lia.
    rewrite lookup_app_l in H1; [done|]. lia.
Qed.

(** A full history forgets its oldest record. *)
Lemma rotate_ok max db r db' :
  0 < max → Z.of_nat (length db) ≤ max → Tracer.rotate max db r = Ok db' →
  ∃ old k, db = old ++ k ∧ db' = k ++ [r] ∧ Z.of_nat (length db') ≤ max.
Proof.
  intros Hm Hb. unfold Tracer.rotate. case_bool_decide as Hfull.
  - destruct db as [|r0 db]; [done|]. intros [= <-]. exists [r0], db. split_and!; [done..|].
    rewrite length_app. cbn in *. lia.
  - intros [= <-]. exists [], db. split_and!; [done..|]. rewrite length_app. cbn. lia.
Qed.

Lemma chained_app old k : chained (old ++ k) → chained k.
Proof. induction old as [|r old IH]; [done|]. intros Hc%chained_tail. by apply IH. Qed.

(** The record of a transition measures the tracked states, and tells the time
    since the last record. *)
Lemma new_record_ok m mach tx tracked before sumBefore x :
  length m.(m_trackedIdxs) = length m.(m_Cfg).(bc_TrackedStates) →
  Time.Filter tx.(td_TimeAfter) m.(m_trackedIdxs) = Ok tracked →
  Time.Filter tx.(td_TimeBefore) m.(m_trackedIdxs) = Ok before →
  Time.Sum tx.(td_TimeBefore) (Some m.(m_trackedIdxs)) = Ok sumBefore →
  let r := mkMemoryRecord (Tracer.time_record (Tracer.last_sum m.(m_db)) mach tx tracked before sumBefore) x in
  record_len m r ∧ record_sums r
  ∧ ∀ r0, last m.(m_db) = Some r0 → r.(mr_Time).(tr_MTimeRecordDiffSum)
      = wrap64 (r.(mr_Time).(tr_MTimeSum) - r0.(mr_Time).(tr_MTimeSum)).
Proof.
  intros Hl [Hi ->]%Filter_ok [_ ->]%Filter_ok Hs. rewrite Sum_pick in Hs by done. injection Hs as <-.
  cbn -[time_sum]. split_and!.
  - unfold record_len. cbn. unfold pick. by rewrite length_fmap.
  - split; [done|]. cbn -[time_sum]. unfold Time.DiffSince. rewrite bool_decide_eq_true_2.
    2: { unfold pick. by rewrite !length_fmap. }
    cbn [negb]. rewrite !time_sum_eq, zsum_diff by (unfold pick; by rewrite !length_fmap).
    by rewrite wrap64_sub_l, wrap64_sub_r.
  - intros r0 Hr. unfold Tracer.last_sum. by rewrite Hr.
Qed.

Lemma TransitionEnd_ok mach tx m m' :
  hist_ok m → Tracer.TransitionEnd mach tx m = Ok m' → hist_ok m'.
Proof.
  intros [H1 H2 H3 H4 H5 H6 H7]. unfold Tracer.TransitionEnd.
  destruct (_ || _); [by intros [= <-]|]. intros He. inv_ok. destruct (negb _); [by simplify_eq|].
  inv_ok. set (tx_rec := if bc_StoreTransitions _ then _ else _) in *.
  destruct (new_record_ok m mach tx x0 x1 x2 tx_rec) as (R1 & R2 & R3); [done..|].
  match goal with Hr : Tracer.rotate _ _ _ = _ |- _ => apply rotate_ok in Hr as (old & k & E & -> & Hb); [|done..] end.
  rewrite E in H4, H5, H6. apply Forall_app in H4 as [_ H4]. apply Forall_app in H5 as [_ H5].
  split; cbn; [done|done|done|by apply Forall_app_2; [|constructor]|by apply Forall_app_2; [|constructor]| |].
  - apply chained_snoc; [by eapply chained_app|]. intros r0 Hr. apply R3. by rewrite E, last_app, Hr.
  - intros r. rewrite last_snoc. by intros [= <-].
Qed.

Lemma NewMemory_ok machRecord mach parse config m :
  Hist.NewMemory machRecord mach parse config = inr m → hist_ok m.
Proof.
  unfold Hist.NewMemory. case_bool_decide; [done|]. intros [= <-].
  split; cbn; [|by case_bool_decide; lia|by rewrite length_fmap|constructor|constructor|done|done].
  case_bool_decide; lia.
Qed.

Lemma reached_hist_ok m : reached m → hist_ok m.
Proof.
  induction 1 as [|mach tx m m' _ IH He|mach m _ IH|m _ IH].
  - by eapply NewMemory_ok.
  - by eapply TransitionEnd_ok.
  - unfold Tracer.SchemaChange. destruct (negb _); [done|]. by destruct IH.
  - destruct IH. split; cbn; [done|lia|done|constructor|constructor|done|done].
Qed.

(** C18: However a memory came about, it keeps at most [MaxRecords] records, all of the
    tracked states, the sums in them are those of their times, and each record
    tells the machine time, modulo 2^64, since the one before it: nothing between
    two records kept is lost. *)
Theorem reached_ok m :
  reached m →
  Z.of_nat (length m.(m_db)) ≤ m.(m_Cfg).(bc_MaxRecords)
  ∧ Forall (record_len m) m.(m_db) ∧ Forall record_sums m.(m_db) ∧ chained m.(m_db)
  ∧ (∀ r, last m.(m_db) = Some r → m.(m_machRec).(rc_MTimeSum) = r.(mr_Time).(tr_MTimeSum)).
Proof. by intros [H1 H2 H3 H4 H5 H6 H7]%reached_hist_ok. Qed.

(** *** Which transitions are kept *)

Lemma match_list_spec list found exclude b :
  Tracer.match_list list found exclude b
  = if existsb (contains found) list then negb exclude else b.
Proof.
  unfold Tracer.match_list. destruct (find_first _ _) as [s|] eqn:E.
  - apply find_first_some in E as [Hin Hc]. destruct (existsb _ _) eqn:Ex; [done|]. exfalso.
    apply not_true_iff_false in Ex. apply Ex, existsb_exists. exists s.
    split; [by apply list_elem_of_In|done].
  - rewrite find_first_none in E. destruct (existsb _ _) eqn:Ex; [|done]. exfalso.
    apply existsb_exists in Ex as (s & Hin & Hs). apply list_elem_of_In in Hin.
    rewrite (E s Hin) in Hs. done.
Qed.

(** What the configuration asks for: the changed states decide before the called
    ones, so a changed state of an allowlist is tracked although a called one is
    blocked. *)
Definition tracks (cfg : BaseConfig) (called changed : list string) : bool :=
  if existsb (contains changed) cfg.(bc_Changed) then negb cfg.(bc_ChangedExclude)
  else if existsb (contains called) cfg.(bc_Called) then negb cfg.(bc_CalledExclude)
  else (cfg.(bc_ChangedExclude) || bool_decide (cfg.(bc_Changed) = []))
       && (cfg.(bc_CalledExclude) || bool_decide (cfg.(bc_Called) = [])).

(** The end of a transition is recorded exactly when it was accepted or rejected ones
    are tracked, it is no check, and the configuration tracks it; the record is
    then the newest, and the machine record follows. *)
Theorem TransitionEnd_spec mach tx m changed :
  hist_ok m → (∀ i, i ∈ m.(m_trackedIdxs) → 0 ≤ i) →
  Tracer.changed_states mach.(mn_names) tx = Ok changed →
  ∃ m', Tracer.TransitionEnd mach tx m = Ok m'
    ∧ if (tx.(td_IsAccepted) || m.(m_Cfg).(bc_TrackRejected)) && negb tx.(td_Mutation).(mut_IsCheck)
         && tracks m.(m_Cfg) tx.(td_CalledStates) changed
      then ∃ r old k, m.(m_db) = old ++ k ∧ m'.(m_db) = k ++ [r]
        ∧ (old = [] ∨ Z.of_nat (length m.(m_db)) = m.(m_Cfg).(bc_MaxRecords))
        ∧ r.(mr_Time).(tr_MTimeTracked) = pick tx.(td_TimeAfter) m.(m_trackedIdxs)
        ∧ r.(mr_Time).(tr_MTimeSum) = time_sum tx.(td_TimeAfter)
        ∧ m'.(m_machRec).(rc_MTime) = tx.(td_TimeAfter)
        ∧ m'.(m_machRec).(rc_NextId) = wrap64 (m.(m_machRec).(rc_NextId) + 1)
      else m' = m.
Proof.
  intros [H1 H2 _ _ _ _ _] Hi Hch. unfold Tracer.TransitionEnd.
  destruct (td_IsAccepted tx), (bc_TrackRejected (m_Cfg m)), (mut_IsCheck (td_Mutation tx)); cbn [negb andb orb];
    try (by eexists).
  all: rewrite Hch; cbn [mbind outcome_bind]; rewrite !Filter_pick by done; cbn [mbind outcome_bind].
  all: assert (Tracer.matches (m_Cfg m) (td_CalledStates tx) changed
    = tracks (m_Cfg m) (td_CalledStates tx) changed) as -> by (unfold Tracer.matches; by rewrite !match_list_spec).
  all: destruct (tracks _ _ _); cbn [negb]; [|by eexists].
  all: rewrite Sum_pick by done; cbn [mbind outcome_bind]; unfold Tracer.rotate; case_bool_decide as Hfull.
  all: try (destruct (m_db m) as [|r0 db] eqn:Edb; [cbn in Hfull; lia|]).
  all: cbn [mbind outcome_bind]; eexists; split; [reflexivity|]; cbn.
  all: eexists; first [exists [r0], db|exists [], (m_db m)].
  all: split_and!; try reflexivity; try (by left); right; cbn in *; lia.
Qed.

(** ** A concrete history *)

Definition demo_now (t : list Z) : MachNow := mkMachNow "m" ["A"; "B"; "C"] t 1 3 ∅ 100 None.
Definition demo_config : BaseConfig := mkConfig ["A"] false [] false false ["B"] false false 2.
Definition demo_end (called : list string) (before after : list Z) : TxDone :=
  mkTxDone "tx" (newMutation MutationAdd [0] ∅ false false None) called before after true false 0.

Definition demo_history (n : nat) : Memory :=
  let m0 := match Hist.NewMemory None (demo_now [0; 0; 0]) id demo_config with
    | inr m => m | inl _ => mkMemory demo_config [] [] (mkMachineRecord "" [] None 0 0 0 [] 0 0 0) true end in
  let step before after m := match Tracer.TransitionEnd (demo_now after) (demo_end ["A"] before after) m with
    | Ok m => m | _ => m end in
  match n with
  | 0%nat => m0
  | 1%nat => step [0; 0; 0] [1; 0; 0] m0
  | 2%nat => step [1; 0; 0] [3; 1; 0] (step [0; 0; 0] [1; 0; 0] m0)
  | _ => step [3; 1; 0] [5; 2; 4] (step [1; 0; 0] [3; 1; 0] (step [0; 0; 0] [1; 0; 0] m0))
  end.

Lemma demo_reached : reached (demo_history 3).
Proof.
  apply (reached_TransitionEnd (demo_now [5; 2; 4]) (demo_end ["A"] [3; 1; 0] [5; 2; 4]) (demo_history 2)); [|by vm_compute].
  apply (reached_TransitionEnd (demo_now [3; 1; 0]) (demo_end ["A"] [1; 0; 0] [3; 1; 0]) (demo_history 1)); [|by vm_compute].
  apply (reached_TransitionEnd (demo_now [1; 0; 0]) (demo_end ["A"] [0; 0; 0] [1; 0; 0]) (demo_history 0)); [|by vm_compute].
  by apply (reached_New None (demo_now [0; 0; 0]) id demo_config).
Qed.

(** Three transitions are recorded, two are kept. *)
Example reached_ok_witness : length (demo_history 3).(m_db) = 2%nat ∧ chained (demo_history 3).(m_db).
Proof.
  split; [by vm_compute|].
  by destruct (reached_ok (demo_history 3) demo_reached) as (_ & _ & _ & Hc & _).
Defined.


Example TransitionEnd_spec_witness :
  ∃ m', Tracer.TransitionEnd (demo_now [1; 0; 0]) (demo_end ["A"] [0; 0; 0] [1; 0; 0]) (demo_history 0)
    = Ok m' ∧ length m'.(m_db) = 1%nat.
Proof.
  destruct (TransitionEnd_spec (demo_now [1; 0; 0]) (demo_end ["A"] [0; 0; 0] [1; 0; 0]) (demo_history 0) ["A"])
    as (m' & He & r & old & k & Hk & Hdb & _).
  - by apply (NewMemory_ok None (demo_now [0; 0; 0]) id demo_config).
  - intros i. change (m_trackedIdxs (demo_history 0)) with [1; 0].
    rewrite !elem_of_cons, elem_of_nil. lia.
  - by vm_compute.
  - exists m'. split; [exact He|]. rewrite Hdb. symmetry in Hk. apply app_nil in Hk as [_ ->]. done.
Defined.
