(* ===== verification/HistKv.v ===== *)
(** * Histories in key-value databases ([pkg/history/bbolt], [pkg/history/badger])

    The tracer queues records and hands them to goroutines in batches; a garbage
    collection in another goroutine trims the oldest. The two packages are the
    same but for their keys and a few lines: a class [Backend]. The databases are
    third-party code, a class of operations ([KvStore]) with the laws of a map
    ([KvLaws]), the encodings ([Enc]) one with the law of a round trip; batches
    are written as a whole or not at all. *)

From S2P Require Import Prelude StateList SchemaDef MachTime Mutation History.

#[local] Open Scope Z_scope.

(** ** Databases, encodings, keys *)

(** [B]: what is stored. Keys are paths: of buckets and a key in them. *)
Class KvStore (D B : Type) := {
  kv_get : list string → D → option B;
  kv_put : list string → B → D → D;
  kv_del : list string → D → D;
  kv_machines : D → list B;
}.

Class KvLaws (D B : Type) `{KvStore D B} := {
  kv_view : D → gmap (list string) B;
  kv_get_view k d : kv_get k d = kv_view d !! k;
  kv_put_view k b d : kv_view (kv_put k b d) = <[k := b]> (kv_view d);
  kv_del_view k d : kv_view (kv_del k d) = delete k (kv_view d);
}.

(** JSON and MessagePack of a type. *)
Class Enc (B T : Type) := {
  to_json : T → string + B;
  to_pack : T → string + B;
  of_json : B → string + T;
  of_pack : B → string + T;
}.

Class EncLaws (B T : Type) `{Enc B T} := {
  json_ok x : ∃ b, to_json x = inr b ∧ of_json b = inr x;
  pack_ok x : ∃ b, to_pack x = inr b ∧ of_pack b = inr x;
  pack_no_json x b : to_pack x = inr b → ∃ e, of_json b = inl e;
}.

Section enc.
Context {B T : Type} `{Enc B T}.
Definition encode (json : bool) (v : T) : string + B := if json then to_json v else to_pack v.
Definition Decode (v : B) (tryJson : bool) : string + T :=
  if tryJson then match of_json v with inr x => inr x | inl _ => of_pack v end else of_pack v.

Lemma Decode_encode `{!EncLaws B T} json x : ∃ b, encode json x = inr b ∧ Decode b json = inr x.
Proof.
  destruct json; cbn.
  - destruct (json_ok x) as (b & ? & Hb). exists b. by rewrite Hb.
  - apply pack_ok.
Qed.

(** Machine records are always decoded with both. *)
Lemma Decode_any `{!EncLaws B T} json x b : encode json x = inr b → Decode b true = inr x.
Proof.
  destruct json; cbn; intros Hb.
  - destruct (json_ok x) as (b' & Hb' & Ho). assert (b' = b) as -> by congruence. by rewrite Ho.
  - destruct (pack_no_json x b Hb) as [e ->]. destruct (pack_ok x) as (b' & Hb' & Ho).
    by assert (b' = b) as -> by congruence.
Qed.
End enc.

(** [binary.BigEndian.PutUint64] *)
Definition byte (v : Z) : Ascii.ascii := Ascii.ascii_of_N (Z.to_N (v `mod` 256)).
Fixpoint big_endian (n : nat) (v : Z) : string :=
  match n with
  | O => EmptyString
  | S n => String.String (byte (v `div` 256 ^ Z.of_nat n)) (big_endian n v)
  end.
Definition itob (v : Z) : string := big_endian 8 v.

(** What is different: the keys, where a query looks for a transition, whether
    the machine's record is ever read back, whether a missing transition is decoded,
    and whether there are buckets to create first. *)
Class Backend := {
  be_mach : string → list string;
  be_time : string → Z → list string;
  be_tx : string → Z → list string;
  be_find_tx : string → Z → list string;
  be_reads_machine : bool;
  be_decodes_missing : bool;
  be_buckets : bool;
}.

(** The keys of a machine are apart. *)
Class BackendLaws `{Backend} := {
  be_time_inj m i j : is_u64 i → is_u64 j → be_time m i = be_time m j → i = j;
  be_time_tx m i j : be_time m i ≠ be_tx m j;
  be_time_mach m i : be_time m i ≠ be_mach m;
}.

(** [GetMachine] decodes into a [nil] pointer, and queries read transitions from
    the bucket above. *)
Definition bbolt : Backend := {|
  be_mach id := ["_machines"; id];
  be_time id n := [id; "times"; itob n];
  be_tx id n := [id; "transitions"; itob n];
  be_find_tx id n := [id; itob n];
  be_reads_machine := false;
  be_decodes_missing := true;
  be_buckets := true;
|}.

Definition machineKey (machId : string) : string := "_machines/" +:+ machId.
Definition timeKey (machId : string) (id : Z) : string := machId +:+ ("/times/" +:+ itob id).
Definition txKey (machId : string) (id : Z) : string := machId +:+ ("/txs/" +:+ itob id).

Definition badger : Backend := {|
  be_mach id := [machineKey id];
  be_time id n := [timeKey id n];
  be_tx id n := [txKey id n];
  be_find_tx id n := [txKey id n];
  be_reads_machine := true;
  be_decodes_missing := false;
  be_buckets := false;
|}.

Lemma byte_inj v w : byte v = byte w → v `mod` 256 = w `mod` 256.
Proof.
  unfold byte. intros Hb. apply (f_equal Ascii.N_of_ascii) in Hb.
  pose proof (Z.mod_pos_bound v 256 ltac:(lia)). pose proof (Z.mod_pos_bound w 256 ltac:(lia)).
  rewrite !Ascii.N_ascii_embedding in Hb by lia. lia.
Qed.

Lemma big_endian_inj n v w :
  big_endian n v = big_endian n w → v `mod` 256 ^ Z.of_nat n = w `mod` 256 ^ Z.of_nat n.
Proof.
  induction n as [|n IH]; cbn [big_endian]; [by rewrite !Z.mod_1_r|].
  intros [= Hb Hn]. apply byte_inj in Hb. specialize (IH Hn).
  rewrite Nat2Z.inj_succ, Z.pow_succ_r, Z.mul_comm by lia.
  rewrite !Z.rem_mul_r by lia. by rewrite IH, Hb.
Qed.

Lemma itob_inj i j : is_u64 i → is_u64 j → itob i = itob j → i = j.
Proof.
  unfold is_u64, itob. intros Hi Hj Hb%big_endian_inj.
  change (256 ^ Z.of_nat 8) with two64 in Hb. by rewrite !Z.mod_small in Hb by done.
Qed.

Lemma app_inj_l (s t u : string) : s +:+ t = s +:+ u → t = u.
Proof. induction s as [|c s IH]; [done|]. intros [= Ha]. by apply IH. Qed.

Lemma bbolt_laws : @BackendLaws bbolt.
Proof.
  split; cbn -[itob]; intros m i; intros; [|congruence..]. apply itob_inj; [done..|]. congruence.
Qed.

Lemma length_itob i : String.length (itob i) = 8%nat.
Proof. done. Qed.

Lemma length_str_app (s t : string) : String.length (s +:+ t) = (String.length s + String.length t)%nat.
Proof. induction s as [|c s IH]; [done|]. apply (f_equal S IH). Qed.

Lemma badger_laws : @BackendLaws badger.
Proof.
  split; cbn -[itob timeKey txKey machineKey].
  - intros m i j Hi Hj Hk. apply itob_inj; [done..|]. apply (app_inj_l "/times/"), (app_inj_l m).
    change (timeKey m i = timeKey m j). congruence.
  - intros m i j Hk. assert (Hk' : timeKey m i = txKey m j) by congruence. by apply app_inj_l in Hk'.
  - intros m i Hk. assert (Hk' : timeKey m i = machineKey m) by congruence. clear Hk. rename Hk' into Hk. apply (f_equal String.length) in Hk. unfold timeKey, machineKey in Hk.
    rewrite !length_str_app, length_itob in Hk. cbn in Hk. lia.
Qed.

(** ** The memory *)

(** A record that waits to be written. *)
Record Queued := mkQueued { qd_id : Z; qd_time : TimeRecord; qd_tx : option TransitionRecord }.

(** What the goroutines do: write a batch and the machine's record, or collect
    garbage. *)
Inductive Job := JWrite (rec : MachineRecord) (batch : list Queued) | JGc.

(** [kc_Base]: the configuration as given, which the embedded [BaseMemory] keeps
    for queries; [kc_Cfg]: with its defaults, and all states to track. *)
Record KvConf := mkConf {
  kc_Base : BaseConfig;
  kc_Cfg : BaseConfig;
  kc_EncJson : bool;
  kc_QueueBatch : Z;
  kc_trackedIdxs : list Z;
}.

Section kv.
Context {D B : Type} `{KvStore D B, Backend}.
Context `{Enc B TimeRecord, Enc B TransitionRecord, Enc B MachineRecord}.

Record KvMem := mkKv {
  km_conf : KvConf;
  km_machRec : MachineRecord;
  km_nextId : Z;
  km_queue : list Queued;
  km_SavePending : Z;
  km_Saved : Z;
  km_SavedGc : Z;
  km_lastRec : option TimeRecord;
  km_gc : bool;
  km_disposed : bool;
  km_Db : D;
  km_jobs : list Job;
  km_errs : list string;
}.

Definition set_rec (r : MachineRecord) (m : KvMem) : KvMem :=
  mkKv m.(km_conf) r m.(km_nextId) m.(km_queue) m.(km_SavePending) m.(km_Saved) m.(km_SavedGc) m.(km_lastRec)
    m.(km_gc) m.(km_disposed) m.(km_Db) m.(km_jobs) m.(km_errs).
Definition set_queue (q : list Queued) (pending : Z) (m : KvMem) : KvMem :=
  mkKv m.(km_conf) m.(km_machRec) m.(km_nextId) q pending m.(km_Saved) m.(km_SavedGc) m.(km_lastRec)
    m.(km_gc) m.(km_disposed) m.(km_Db) m.(km_jobs) m.(km_errs).
Definition set_saved (saved savedGc : Z) (m : KvMem) : KvMem :=
  mkKv m.(km_conf) m.(km_machRec) m.(km_nextId) m.(km_queue) m.(km_SavePending) saved savedGc m.(km_lastRec)
    m.(km_gc) m.(km_disposed) m.(km_Db) m.(km_jobs) m.(km_errs).
Definition set_gc (b : bool) (m : KvMem) : KvMem :=
  mkKv m.(km_conf) m.(km_machRec) m.(km_nextId) m.(km_queue) m.(km_SavePending) m.(km_Saved) m.(km_SavedGc)
    m.(km_lastRec) b m.(km_disposed) m.(km_Db) m.(km_jobs) m.(km_errs).
Definition set_disposed (m : KvMem) : KvMem :=
  mkKv m.(km_conf) m.(km_machRec) m.(km_nextId) m.(km_queue) m.(km_SavePending) m.(km_Saved) m.(km_SavedGc)
    m.(km_lastRec) m.(km_gc) true m.(km_Db) m.(km_jobs) m.(km_errs).
Definition set_db (d : D) (m : KvMem) : KvMem :=
  mkKv m.(km_conf) m.(km_machRec) m.(km_nextId) m.(km_queue) m.(km_SavePending) m.(km_Saved) m.(km_SavedGc)
    m.(km_lastRec) m.(km_gc) m.(km_disposed) d m.(km_jobs) m.(km_errs).
Definition set_jobs (l : list Job) (m : KvMem) : KvMem :=
  mkKv m.(km_conf) m.(km_machRec) m.(km_nextId) m.(km_queue) m.(km_SavePending) m.(km_Saved) m.(km_SavedGc)
    m.(km_lastRec) m.(km_gc) m.(km_disposed) m.(km_Db) l m.(km_errs).
Definition onErr (e : string) (m : KvMem) : KvMem :=
  mkKv m.(km_conf) m.(km_machRec) m.(km_nextId) m.(km_queue) m.(km_SavePending) m.(km_Saved) m.(km_SavedGc)
    m.(km_lastRec) m.(km_gc) m.(km_disposed) m.(km_Db) m.(km_jobs) (m.(km_errs) ++ [e]).

(** [ok]: the transaction goes through. *)
Definition save_machine (ok : bool) (m : KvMem) : KvMem :=
  match encode m.(km_conf).(kc_EncJson) m.(km_machRec) with
  | inl e => onErr e m
  | inr b => if ok && negb m.(km_disposed) then set_db (kv_put (be_mach m.(km_machRec).(rc_MachId)) b m.(km_Db)) m
             else onErr "update" m
  end.

Definition GetMachine (d : D) (id : string) : option MachineRecord :=
  if be_reads_machine then
    match kv_get (be_mach id) d with
    | None => None
    | Some b => match Decode b true with inl _ => Some (mkMachineRecord "" [] None 0 0 0 [] 0 0 0) | inr r => Some r end
    end
  else None.

Definition ListMachines (d : D) : string + list MachineRecord :=
  foldr (λ b r, match Decode b true with
                | inl e => inl e
                | inr x => match r with inl e => inl e | inr l => inr (x :: l) end
                end) (inr []) (kv_machines d).

(** ** The tracer *)

Definition MachineInit (ok : bool) (mach : MachNow) (m : KvMem) : KvMem :=
  let rec := Tracer.MachineInit m.(km_conf).(kc_Cfg) mach (GetMachine m.(km_Db) mach.(mn_id)) in
  let m := mkKv m.(km_conf) rec rec.(rc_NextId) m.(km_queue) m.(km_SavePending) m.(km_Saved) m.(km_SavedGc)
    m.(km_lastRec) m.(km_gc) m.(km_disposed) m.(km_Db) m.(km_jobs) m.(km_errs) in
  save_machine ok m.

(** [Dispose]: the database is closed; what is queued stays there. *)
Definition Dispose (m : KvMem) : KvMem := if m.(km_disposed) then m else set_disposed m.

(** [expired]: the context of the memory has ended. *)
Definition SchemaChange (expired ok : bool) (mach : MachNow) (m : KvMem) : KvMem :=
  if expired then Dispose m
  else if negb m.(km_conf).(kc_Cfg).(bc_StoreSchema) then m
  else
    let r := m.(km_machRec) in
    save_machine ok
      (set_rec (mkMachineRecord r.(rc_MachId) mach.(mn_names) (Some mach.(mn_schema)) r.(rc_FirstTracking)
                  r.(rc_LastTracking) r.(rc_LastSync) r.(rc_MTime) r.(rc_MTimeSum) r.(rc_MachTick)
                  r.(rc_NextId)) m).

(** The loops over a list of the configuration: the first name decides that is
    listed and excluded, or _not_ listed and not excluded. *)
Fixpoint match_list (list found : list string) (exclude match_ : bool) : bool :=
  match list with
  | [] => match_
  | name :: list =>
      let listed := contains found name in
      if listed && exclude then false
      else if negb listed && negb exclude then true
      else match_list list found exclude match_
  end.

Definition matches (cfg : BaseConfig) (called changed : list string) : bool :=
  let match_ := (cfg.(bc_ChangedExclude) || bool_decide (cfg.(bc_Changed) = []))
                && (cfg.(bc_CalledExclude) || bool_decide (cfg.(bc_Called) = [])) in
  match_list cfg.(bc_Changed) changed cfg.(bc_ChangedExclude)
    (match_list cfg.(bc_Called) called cfg.(bc_CalledExclude) match_).

(** [queueLen]: of the machine's queue. *)
Definition transition_record (mach : MachNow) (queueLen : Z) (tx : TxDone) : TransitionRecord :=
  let mut := tx.(td_Mutation) in
  mkTransitionRecord tx.(td_Id)
    (match mut.(mut_Source) with Some s => s.(src_TxId) | None => "" end)
    (match mut.(mut_Source) with Some s => s.(src_MachId) | None => "" end)
    mut.(mut_IsAuto) tx.(td_IsAccepted) mut.(mut_IsCheck) tx.(td_IsBroken) queueLen
    mut.(mut_QueueTick) (if bool_decide (0 < mut.(mut_QueueTick)) then mach.(mn_queueTick) else 0)
    mut.(mut_Called) (Mutation_MapArgs mut mach.(mn_mapper)).

(** The record of a transition, if it is tracked. *)
Definition tx_record (mach : MachNow) (queueLen : Z) (tx : TxDone) (m : KvMem)
    : outcome (option (TimeRecord * option TransitionRecord)) :=
  let cfg := m.(km_conf).(kc_Cfg) in
  let idxs := m.(km_conf).(kc_trackedIdxs) in
  if (negb tx.(td_IsAccepted) && negb cfg.(bc_TrackRejected)) || tx.(td_Mutation).(mut_IsCheck) then Ok None
  else
    changed ← Tracer.changed_states mach.(mn_names) tx;
    tracked ← Time.Filter tx.(td_TimeAfter) idxs;
    before ← Time.Filter tx.(td_TimeBefore) idxs;
    if negb (matches cfg tx.(td_CalledStates) changed) then Ok None
    else
      sumBefore ← Time.Sum tx.(td_TimeBefore) (Some idxs);
      Ok (Some (Tracer.time_record (tr_MTimeSum <$> m.(km_lastRec)) mach tx tracked before sumBefore,
                if cfg.(bc_StoreTransitions) then Some (transition_record mach queueLen tx) else None)).

(** Queueing a record, and what the machine's record tells. *)
Definition enqueue (mach : MachNow) (tx : TxDone) (t : TimeRecord) (x : option TransitionRecord) (m : KvMem) : KvMem :=
  let r := m.(km_machRec) in
  mkKv m.(km_conf)
    (mkMachineRecord r.(rc_MachId) r.(rc_StateNames) r.(rc_Schema) r.(rc_FirstTracking) r.(rc_LastTracking)
       mach.(mn_now) tx.(td_TimeAfter) (time_sum tx.(td_TimeAfter)) mach.(mn_machTick) (wrap64 (r.(rc_NextId) + 1)))
    (wrap64 (m.(km_nextId) + 1)) (m.(km_queue) ++ [mkQueued m.(km_nextId) t x]) (m.(km_SavePending) + 1)
    m.(km_Saved) m.(km_SavedGc) (Some t) m.(km_gc) m.(km_disposed) m.(km_Db) m.(km_jobs) m.(km_errs).

Definition writeDb (m : KvMem) : KvMem :=
  if bool_decide (m.(km_SavePending) ≤ 0) then m
  else set_jobs (m.(km_jobs) ++ [JWrite m.(km_machRec) m.(km_queue)])
         (set_queue [] (m.(km_SavePending) - Z.of_nat (length m.(km_queue))) m).

(** [float32] arithmetic, which is exact below 2^24. *)
Definition gc_due (since max : Z) : bool := bool_decide (max * 3 < since * 2).

Definition checkGc (m : KvMem) : KvMem :=
  if negb (gc_due (wrap64 (m.(km_Saved) - m.(km_SavedGc))) m.(km_conf).(kc_Cfg).(bc_MaxRecords)) || m.(km_gc) then m
  else set_jobs (m.(km_jobs) ++ [JGc]) (set_gc true m).

Definition TransitionEnd (expired : bool) (mach : MachNow) (queueLen : Z) (tx : TxDone) (m : KvMem) : outcome KvMem :=
  if expired then Ok (Dispose m)
  else
    rec ← tx_record mach queueLen tx m;
    match rec with
    | None => Ok m
    | Some (t, x) =>
        let m := enqueue mach tx t x m in
        Ok (if bool_decide (m.(km_conf).(kc_QueueBatch) ≤ m.(km_SavePending)) then checkGc (writeDb m) else m)
    end.

(** [Sync] starts a write, and waits for those started by transitions before it. *)
Definition Sync (m : KvMem) : KvMem := writeDb m.

(** ** What the goroutines do *)

(** A batch: the machine's record, then each time and its transition. *)
Fixpoint put_all (conf : KvConf) (machId : string) (l : list Queued) (d : D) : string + D :=
  match l with
  | [] => inr d
  | q :: l =>
      match encode conf.(kc_EncJson) q.(qd_time) with
      | inl e => inl e
      | inr b =>
          let d := kv_put (be_time machId q.(qd_id)) b d in
          if negb conf.(kc_Cfg).(bc_StoreTransitions) then put_all conf machId l d
          else match q.(qd_tx) with
          | None => inl "encode"
          | Some x =>
              match encode conf.(kc_EncJson) x with
              | inl e => inl e
              | inr b => put_all conf machId l (kv_put (be_tx machId q.(qd_id)) b d)
              end
          end
      end
  end.

Definition write_batch (conf : KvConf) (rec : MachineRecord) (l : list Queued) (d : D) : string + D :=
  match encode conf.(kc_EncJson) rec with
  | inl e => inl e
  | inr b => put_all conf rec.(rc_MachId) l (kv_put (be_mach rec.(rc_MachId)) b d)
  end.

(** The identifiers to delete, and their deletion: [bbolt] from the top in one
    transaction, [badger] from the bottom in some. *)
Definition gc_upper (m : KvMem) : Z := wrap64 (m.(km_nextId) - m.(km_conf).(kc_Cfg).(bc_MaxRecords)).

Definition delete_ids (conf : KvConf) (machId : string) (l : list Z) (d : D) : D :=
  fold_left (λ d id,
    let d := kv_del (be_time machId id) d in
    if conf.(kc_Cfg).(bc_StoreTransitions) then kv_del (be_tx machId id) d else d) l d.

(** [machId]: the machine's identifier, [ok]: the transaction goes through. *)
Definition run_job (machId : string) (ok : bool) (j : Job) (m : KvMem) : KvMem :=
  let ok := ok && negb m.(km_disposed) in
  match j with
  | JWrite rec batch =>
      match write_batch m.(km_conf) rec batch m.(km_Db) with
      | inl e => onErr e m
      | inr d => if ok : bool then set_saved (wrap64 (m.(km_Saved) + Z.of_nat (length batch))) m.(km_SavedGc) (set_db d m)
                 else onErr "batch" m
      end
  | JGc =>
      let m := if ok : bool
               then set_db (delete_ids m.(km_conf) machId (seqZ 1 (gc_upper m)) m.(km_Db)) m
               else onErr "gc" m in
      set_gc false (set_saved m.(km_Saved) m.(km_Saved) m)
  end.

(** ** Making a memory *)

Definition with_defaults (mach : MachNow) (parse : list string → list string) (base : BaseConfig) : BaseConfig :=
  let tracked := base.(bc_TrackedStates)
    ++ (if negb base.(bc_CalledExclude) then base.(bc_Called) else [])
    ++ (if negb base.(bc_ChangedExclude) then base.(bc_Changed) else []) in
  mkConfig base.(bc_Called) base.(bc_CalledExclude) base.(bc_Changed) base.(bc_ChangedExclude)
    base.(bc_TrackRejected) (parse tracked) base.(bc_StoreTransitions) base.(bc_StoreSchema)
    (if bool_decide (base.(bc_MaxRecords) ≤ 0) then 1000 else base.(bc_MaxRecords)).

(** [dbOk], [ok]: the transactions that create the buckets and that save the
    machine's record go through. (Where the second creates buckets, too, and fails,
    the memory is of no use.) *)
Definition NewMemory (dbOk ok : bool) (d : D) (mach : MachNow) (parse : list string → list string)
    (base : BaseConfig) (json : bool) (queueBatch : Z) : string + KvMem :=
  let c := with_defaults mach parse base in
  if be_buckets && negb dbOk then inl "update"
  else if bool_decide (c.(bc_TrackedStates) = []) then inl "no states to track"
  else
    let conf := mkConf base c json (if bool_decide (queueBatch ≤ 0) then 100 else queueBatch)
      (index_of mach.(mn_names) <$> c.(bc_TrackedStates)) in
    inr (MachineInit ok mach
      (mkKv conf (mkMachineRecord "" [] None 0 0 0 [] 0 0 0) 0 [] 0 0 0 None false false d [] [])).

(** ** Queries *)

Section find.
Context (machIndex1 : string → Z) (machId : string) (conf : KvConf) (d : D).

(** What [BaseMemory] knows: the configuration as given. *)
Definition base_memory : Memory :=
  mkMemory conf.(kc_Base) [] [] (mkMachineRecord "" [] None 0 0 0 [] 0 0 0) false.

(** A record that was collected: the first object, which a later pass may still
    write to, or one of its own. *)
Inductive Collected := CFirst | COwn (r : MemoryRecord).

Definition resolve (first : MemoryRecord) (ret : list Collected) : list MemoryRecord :=
  (λ c, match c with CFirst => first | COwn r => r end) <$> ret.

(** The transition of the record at [id], as the query looks it up. *)
Definition read_tx (id : Z) (r : MemoryRecord) : held (list string) MemoryRecord :=
  let dec b := match Decode b conf.(kc_EncJson) with
    | inr x => mret (mkMemoryRecord r.(mr_Time) (Some x))
    | inl e => hmodify (λ l, l ++ [e]) ;; mret (mkMemoryRecord r.(mr_Time) None)
    end in
  match kv_get (be_find_tx machId id) d with
  | Some b => dec b
  | None => if be_decodes_missing then hmodify (λ l, l ++ ["EOF"]) ;; mret (mkMemoryRecord r.(mr_Time) None)
            else mret r
  end.

(** One pass: the record to look at ([None]: it could not be decoded, and its time
    is nil), the older one, and the identifier reached. [None] as the result: an
    error ended the query. *)
Record Pass := mkPass { ps_first : bool; ps_rec : option MemoryRecord; ps_older : option MemoryRecord; ps_id : Z }.

Definition read_pass (id : Z) (older : option MemoryRecord) (firstTx : option TransitionRecord) (v : B)
    : string + Pass :=
  match older with
  | None =>
      let id := wrap64 (id - 1) in
      let dec := Decode v conf.(kc_EncJson) in
      match kv_get (be_time machId id) d with
      | Some v2 =>
          match Decode v2 conf.(kc_EncJson) with
          | inl e => inl e
          | inr t2 => inr (mkPass true (match dec with inr t => Some (mkMemoryRecord t firstTx) | inl _ => None end)
                             (Some (mkMemoryRecord t2 None)) id)
          end
      | None => match dec with
                | inl e => inl e
                | inr t => inr (mkPass true (Some (mkMemoryRecord t firstTx)) None id)
                end
      end
  | Some r =>
      match Decode v conf.(kc_EncJson) with
      | inl e => inl e
      | inr t => inr (mkPass false (Some r) (Some (mkMemoryRecord t None)) id)
      end
  end.

(** The loop over the identifiers from the newest down. *)
Fixpoint find_loop (fuel : nat) (expired : Z → bool) (retTx : bool) (limit : Z) (q : Query) (id : Z)
    (first : MemoryRecord) (older : option MemoryRecord) (ret : list Collected)
    : held (list string) (list MemoryRecord) :=
  match fuel with
  | O => hlift Block
  | S fuel =>
      if bool_decide (id ≤ 0) then mret (resolve first ret)
      else if expired id then mret []
      else match kv_get (be_time machId id) d with
      | None => mret (resolve first ret)
      | Some v =>
          match read_pass id older first.(mr_Transition) v with
          | inl e => hmodify (λ l, l ++ [e]) ;; mret []
          | inr p =>
              match p.(ps_rec) with
              | None => hlift (Panic "invalid memory address or nil pointer dereference")
              | Some r =>
                  hlift (Hist.look_states machIndex1 base_memory q r p.(ps_older)) ;;
                  ok ← hlift (Hist.times_match (machIndex1 <$> q.(q_Start).(ct_MTimeStates)) q r);
                  let next := wrap64 (p.(ps_id) - 1) in
                  let first' r := if p.(ps_first) then r else first in
                  if negb ok then find_loop fuel expired retTx limit q next (first' r) p.(ps_older) ret
                  else
                    r ← (if retTx && conf.(kc_Cfg).(bc_StoreTransitions) then read_tx p.(ps_id) r else mret r);
                    let ret := ret ++ [if p.(ps_first) then CFirst else COwn r] in
                    if bool_decide (0 < limit) && bool_decide (limit ≤ Z.of_nat (length ret))
                    then mret (resolve (first' r) ret)
                    else find_loop fuel expired retTx limit q next (first' r) p.(ps_older) ret
              end
          end
      end
  end.

Definition zero_time : TimeRecord := mkTimeRecord MutationAdd 0 0 0 0 0 0 [] [] 0.
End find.

(** [Match]: the database is read in a transaction; [ended]: a context has. *)
Definition FindLatest (machIndex1 : string → Z) (machId : string) (expired : Z → bool) (ended viewOk : bool)
    (retTx : bool) (limit : Z) (q : Query) (m : KvMem) : KvMem * outcome (Hist.HistError + (string + list MemoryRecord)) :=
  match Hist.ValidateQuery (base_memory m.(km_conf)) q with
  | Some e => (m, Ok (inl e))
  | None =>
      if negb viewOk || m.(km_disposed) then
        (m, Ok (if ended then inl Hist.ErrContext else inr (inl "view")))
      else
        let '(errs, r) := find_loop machIndex1 machId m.(km_conf) m.(km_Db) (Z.to_nat m.(km_nextId) + 2) expired retTx
          limit q (wrap64 (m.(km_nextId) - 1)) (mkMemoryRecord zero_time None) None [] [] in
        (fold_left (λ m e, onErr e m) errs m,
         l ← r; Ok (if ended then inl Hist.ErrContext else inr (inr l)))
  end.
End kv.

(** ** The operations of [badger] *)

Module Badger.
Section badger.
#[local] Existing Instance badger.
Context {D B : Type} `{KvStore D B}.
Context `{Enc B TimeRecord, Enc B TransitionRecord, Enc B MachineRecord}.

Definition Decode {T} `{Enc B T} : B → bool → string + T := HistKv.Decode.
Definition encode {T} `{Enc B T} : bool → T → string + B := HistKv.encode.
Definition GetMachine : D → string → option MachineRecord := HistKv.GetMachine.
Definition ListMachines : D → string + list MachineRecord := HistKv.ListMachines.
Definition MachineInit : bool → MachNow → KvMem → KvMem := HistKv.MachineInit.
Definition SchemaChange : bool → bool → MachNow → KvMem → KvMem := HistKv.SchemaChange.
Definition TransitionEnd : bool → MachNow → Z → TxDone → KvMem → outcome KvMem := HistKv.TransitionEnd (D := D).
Definition NewMemory : bool → bool → D → MachNow → (list string → list string) → BaseConfig → bool → Z → string + KvMem :=
  HistKv.NewMemory.
Definition FindLatest : (string → Z) → string → (Z → bool) → bool → bool → bool → Z → Query → KvMem →
    KvMem * outcome (Hist.HistError + (string + list MemoryRecord)) := HistKv.FindLatest.
Definition find_loop : (string → Z) → string → KvConf → D → nat → (Z → bool) → bool → Z → Query → Z →
    MemoryRecord → option MemoryRecord → list Collected → held (list string) (list MemoryRecord) := HistKv.find_loop.
Definition Sync : KvMem → KvMem := HistKv.Sync (D := D).
Definition Dispose : KvMem → KvMem := HistKv.Dispose (D := D).
Definition writeDb : KvMem → KvMem := HistKv.writeDb (D := D).
Definition checkGc : KvMem → KvMem := HistKv.checkGc (D := D).
Definition run_write (machId : string) (ok : bool) (rec : MachineRecord) (batch : list Queued) : KvMem → KvMem :=
  HistKv.run_job machId ok (JWrite rec batch).
Definition run_gc (machId : string) (ok : bool) : KvMem → KvMem := HistKv.run_job machId ok JGc.
End badger.
End Badger.

(** ** What a query finds *)

Section found.
Context {D B : Type} `{KvLaws D B, BackendLaws}.
Context `{EncLaws B TimeRecord, EncLaws B TransitionRecord, EncLaws B MachineRecord}.
Context (machIndex1 : string → Z) (machId : string) (conf : KvConf).

Definition stored (d : D) (id : Z) (t : TimeRecord) : Prop :=
  ∃ b, kv_get (be_time machId id) d = Some b ∧ Decode b conf.(kc_EncJson) = inr t.

(** The records from [lo + 1] on are there, the one below them is not. *)
Record holds_run (d : D) (lo : Z) (recs : list TimeRecord) : Prop := {
  hr_lo : 0 ≤ lo;
  hr_two : lo = 0 ∨ (2 ≤ length recs)%nat;
  hr_top : lo + Z.of_nat (length recs) + 1 < two64;
  hr_recs i t : recs !! i = Some t → stored d (lo + 1 + Z.of_nat i) t;
  hr_below : kv_get (be_time machId lo) d = None;
  hr_max : kv_get (be_time machId (two64 - 1)) d = None;
}.

(** The query can be answered. *)
Record kv_answerable (q : Query) : Prop := {
  ka_query : answerable machIndex1 (base_memory conf) q;
  ka_idxs s : s ∈ q.(q_Start).(ct_MTimeStates) → 0 ≤ machIndex1 s;
}.

Definition bare (t : TimeRecord) : MemoryRecord := mkMemoryRecord t None.

(** The conditions on times, with the states found by their index in the machine. *)
Definition kv_time_match (q : Query) (t : TimeRecord) : bool :=
  let x := pick t.(tr_MTimeTracked) (machIndex1 <$> q.(q_Start).(ct_MTimeStates)) in
  (bool_decide (q.(q_Start).(ct_MTimeStates) = [])
   || negb (Time.Before x false q.(q_Start).(ct_MTime) || Time.After x false q.(q_End).(ct_MTime)))
  && Hist.scalar_match q.(q_Start) q.(q_End) t.

Definition time_long (t : TimeRecord) : Prop := record_long (base_memory conf) (bare t).

(** All but the oldest, unless it is the only one. *)
Definition seen_records (recs : list TimeRecord) : list TimeRecord :=
  match recs with [t] => [t] | _ => tail recs end.

Lemma pass_ok q t older :
  kv_answerable q → time_long t → (∀ o, older = Some o → time_long o) →
  Hist.look_states machIndex1 (base_memory conf) q (bare t) (bare <$> older) = Ok () ∧
  Hist.times_match (machIndex1 <$> q.(q_Start).(ct_MTimeStates)) q (bare t) = Ok (kv_time_match q t).
Proof.
  intros [Hq Hi] Ht Ho. split.
  - apply look_states_ok; [done..|]. intros o Ho'. destruct older as [o'|]; [|done].
    injection Ho' as <-. by apply Ho.
  - apply times_match_ok. intros i (s & -> & Hs)%list_elem_of_fmap. auto.
Qed.

Lemma newest_full {A} (limit : Z) (acc l : list A) (r : A) :
  0 < limit → Z.of_nat (length acc) < limit → limit ≤ Z.of_nat (length (acc ++ [r])) →
  newest limit (acc ++ r :: l) = acc ++ [r].
Proof.
  intros Hp Hlt Hle. unfold newest. rewrite bool_decide_eq_true_2 by done.
  rewrite length_app in Hle. cbn in Hle. rewrite cons_middle, app_assoc, take_app_length'; [done|].
  rewrite length_app. cbn. lia.
Qed.

Lemma newest_all {A} (limit : Z) (acc : list A) :
  (0 < limit → Z.of_nat (length acc) < limit) → newest limit acc = acc.
Proof. intros Hl. unfold newest. case_bool_decide; [|done]. apply take_ge. lia. Qed.

Lemma newest_one {A} (limit : Z) (x : A) : newest limit [x] = [x].
Proof.
  unfold newest. case_bool_decide; [|done]. destruct (Z.to_nat limit) as [|n] eqn:E; [lia|].
  cbn. by rewrite take_nil.
Qed.

Lemma resolve_snoc first ret c :
  resolve first (ret ++ [c]) = resolve first ret ++ resolve first [c].
Proof. unfold resolve. by rewrite fmap_app. Qed.

(** One pass, once it is known which record it looks at. *)
Lemma find_loop_pass d fuel limit q id first older ret v p t errs :
  kv_answerable q → 0 < id → kv_get (be_time machId id) d = Some v →
  read_pass machId conf d id older first.(mr_Transition) v = inr p →
  p.(ps_rec) = Some (bare t) → time_long t → (∀ o, p.(ps_older) = Some o → ∃ t, o = bare t ∧ time_long t) →
  let first' := if p.(ps_first) then bare t else first in
  let c := if p.(ps_first) then CFirst else COwn (bare t) in
  find_loop machIndex1 machId conf d (S fuel) (λ _, false) false limit q id first older ret errs
  = if kv_time_match q t then
      if bool_decide (0 < limit) && bool_decide (limit ≤ Z.of_nat (length (ret ++ [c])))
      then (errs, Ok (resolve first' (ret ++ [c])))
      else find_loop machIndex1 machId conf d fuel (λ _, false) false limit q (wrap64 (p.(ps_id) - 1)) first' p.(ps_older) (ret ++ [c]) errs
    else find_loop machIndex1 machId conf d fuel (λ _, false) false limit q (wrap64 (p.(ps_id) - 1)) first' p.(ps_older) ret errs.
Proof.
  intros Hq Hid Hv Hp Hr Ht Ho. cbv zeta. cbn [find_loop]. rewrite (bool_decide_eq_false_2 (id ≤ 0)) by lia.
  rewrite Hv, Hp, Hr.
  assert (∃ o', p.(ps_older) = bare <$> o' ∧ ∀ o, o' = Some o → time_long o) as (o' & Ho1 & Ho2).
  { destruct (ps_older p) as [o|]; [|by exists None].
    destruct (Ho o eq_refl) as (x & -> & Hx). exists (Some x). split; [done|]. by intros ? [= <-]. }
  destruct (pass_ok q t o' Hq Ht Ho2) as [H1' H2']. rewrite Ho1, H1', H2'.
  unfold hlift, mbind, held_bind, mret, held_ret. cbn [andb].
  destruct (kv_time_match q t), (bool_decide (0 < limit) && _); done.
Qed.

(** What is seen of the records up to [k], newest first. *)
Definition below (q : Query) (recs : list TimeRecord) (k : nat) : list MemoryRecord :=
  bare <$> slicesFilter (reverse (take k (tail recs))) (kv_time_match q).

Lemma below_S q recs k t :
  recs !! S k = Some t →
  below q recs (S k) = (if kv_time_match q t then [bare t] else []) ++ below q recs k.
Proof.
  intros Hk. unfold below. destruct recs as [|t0 recs]; [done|]. cbn [tail] in *.
  rewrite (take_S_r _ _ t) by done. rewrite reverse_app, reverse_singleton. cbn [app].
  rewrite slicesFilter_cons. by destruct (kv_time_match q t).
Qed.

Lemma holds_stored d lo recs i t :
  holds_run d lo recs → recs !! i = Some t →
  ∃ b, kv_get (be_time machId (lo + 1 + Z.of_nat i)) d = Some b ∧ Decode b conf.(kc_EncJson) = inr t.
Proof. intros Hd Hi. by apply (hr_recs _ _ _ Hd). Qed.

Lemma find_rest d lo recs limit q k : ∀ fuel first ret t errs,
  holds_run d lo recs → kv_answerable q → Forall time_long recs →
  recs !! k = Some t → (k < fuel)%nat →
  (0 < limit → Z.of_nat (length ret) < limit) →
  find_loop machIndex1 machId conf d fuel (λ _, false) false limit q (lo + Z.of_nat k) first (Some (bare t)) ret errs
  = (errs, Ok (newest limit (resolve first ret ++ below q recs k))).
Proof.
  induction k as [|k IH]; intros [|fuel] first ret t errs Hd Hq Hl Hk Hf Hlim; try lia.
  - rewrite Z.add_0_r. cbn [find_loop]. rewrite app_nil_r, newest_all by (unfold resolve; by rewrite length_fmap).
    case_bool_decide; [done|]. by rewrite (hr_below _ _ _ Hd).
  - destruct (lookup_lt_is_Some_2 recs k) as [t' Ht']; [apply lookup_lt_Some in Hk; lia|].
    destruct (holds_stored _ _ _ _ _ Hd Ht') as (b & Hb & Hdec).
    replace (lo + 1 + Z.of_nat k) with (lo + Z.of_nat (S k)) in Hb by lia.
    pose proof (hr_lo _ _ _ Hd) as Hlo. pose proof (hr_top _ _ _ Hd) as Htop.
    apply lookup_lt_Some in Hk as Hlen.
    rewrite Forall_lookup in Hl.
    erewrite (find_loop_pass _ _ _ _ _ _ _ _ b); [|done|lia|done|by unfold read_pass; rewrite Hdec|done|by eapply Hl|].
    2: { cbn. intros o [= <-]. exists t'. split; [done|by eapply Hl]. }
    cbn [ps_first ps_id ps_older]. rewrite wrap64_id by (unfold is_u64; lia).
    replace (lo + Z.of_nat (S k) - 1) with (lo + Z.of_nat k) by lia.
    rewrite (below_S q recs k t) by done.
    assert (Hl' : Forall time_long recs) by (by apply Forall_lookup).
    destruct (kv_time_match q t) eqn:Hm; [|apply (IH _ _ _ t'); [done..|lia|done]].
    case_bool_decide as Hp; cbn [andb]; [case_bool_decide as Hle|].
    + cbn [app]. rewrite newest_full; [by rewrite resolve_snoc|done| |].
      * unfold resolve. rewrite length_fmap. auto.
      * rewrite !length_app in *. unfold resolve. rewrite length_fmap. done.
    + change (Some {| mr_Time := t'; mr_Transition := None |}) with (Some (bare t')).
      rewrite (IH _ _ _ t'); [by rewrite resolve_snoc, <- app_assoc|done..|lia|lia].
    + change (Some {| mr_Time := t'; mr_Transition := None |}) with (Some (bare t')).
      rewrite (IH _ _ _ t'); [by rewrite resolve_snoc, <- app_assoc|done..|lia|lia].
Qed.

Lemma find_run d lo recs limit q fuel :
  holds_run d lo recs → kv_answerable q → Forall time_long recs →
  (length recs + 2 ≤ fuel)%nat →
  find_loop machIndex1 machId conf d fuel (λ _, false) false limit q (lo + Z.of_nat (length recs))
    (bare zero_time) None [] []
  = ([], Ok (newest limit (bare <$> slicesFilter (reverse (seen_records recs)) (kv_time_match q)))).
Proof.
  intros Hd Hq Hl Hf. pose proof (hr_lo _ _ _ Hd). pose proof (hr_top _ _ _ Hd).
  destruct recs as [|t0 [|t1 recs]]; cbn [length] in *.
  - destruct (hr_two _ _ _ Hd) as [->|?]; [|cbn in *; lia]. destruct fuel as [|fuel]; [lia|].
    cbn [find_loop]. rewrite bool_decide_eq_true_2 by lia. by rewrite newest_all.
  - destruct (hr_two _ _ _ Hd) as [->|?]; [|cbn in *; lia]. destruct fuel as [|[|fuel]]; [lia..|].
    destruct (holds_stored _ _ _ 0 t0 Hd eq_refl) as (b & Hb & Hdec). inversion Hl; subst.
    rewrite (find_loop_pass _ _ _ _ _ _ _ _ b (mkPass true (Some (bare t0)) None 0) t0); [|done|lia|done| |done..].
    2: { unfold read_pass. rewrite Hdec. replace (wrap64 (0 + Z.of_nat 1 - 1)) with 0 by done.
         by rewrite (hr_below _ _ _ Hd). }
    cbn [ps_first ps_id ps_older]. replace (wrap64 (0 - 1)) with (two64 - 1) by done.
    assert (Hend : ∀ f ret, find_loop machIndex1 machId conf d (S fuel) (λ _, false) false limit q (two64 - 1) f None ret []
      = ([], Ok (resolve f ret))).
    { intros f ret. cbn [find_loop]. rewrite bool_decide_eq_false_2 by (unfold two64; lia). by rewrite (hr_max _ _ _ Hd). }
    rewrite !Hend. cbn [seen_records]. rewrite reverse_singleton, slicesFilter_cons.
    change (slicesFilter [] (kv_time_match q)) with (@nil TimeRecord).
    destruct (kv_time_match q t0); cbn [fmap list_fmap]; [|by rewrite newest_all].
    rewrite newest_one. by destruct (_ && _).
  - set (l := t0 :: t1 :: recs) in *. set (n := length recs).
    destruct fuel as [|fuel]; [lia|].
    destruct (lookup_lt_is_Some_2 l (S n)) as [t Ht]; [cbn; lia|].
    destruct (lookup_lt_is_Some_2 l n) as [t' Ht']; [cbn; lia|].
    destruct (holds_stored _ _ _ _ _ Hd Ht) as (b & Hb & Hdec).
    destruct (holds_stored _ _ _ _ _ Hd Ht') as (b' & Hb' & Hdec').
    assert (Hid : wrap64 (lo + Z.of_nat (S (S n)) - 1) = lo + 1 + Z.of_nat n) by (rewrite wrap64_id; unfold is_u64; lia).
    pose proof Hl as Hl'. rewrite Forall_lookup in Hl'.
    rewrite (find_loop_pass _ _ _ _ _ _ _ _ b (mkPass true (Some (bare t)) (Some (bare t')) (lo + 1 + Z.of_nat n)) t);
      [|done|lia| | |done|by eapply Hl'|].
    2: { by replace (lo + Z.of_nat (S (S n))) with (lo + 1 + Z.of_nat (S n)) by lia. }
    2: { unfold read_pass. rewrite Hdec, Hid, Hb', Hdec'. done. }
    2: { cbn. intros o [= <-]. exists t'. split; [done|by eapply Hl']. }
    cbn [ps_first ps_id ps_older]. rewrite wrap64_id by (unfold is_u64; lia).
    replace (lo + 1 + Z.of_nat n - 1) with (lo + Z.of_nat n) by lia.
    assert (Hsee : bare <$> slicesFilter (reverse (seen_records l)) (kv_time_match q)
                   = (if kv_time_match q t then [bare t] else []) ++ below q l n).
    { rewrite <- below_S by done. unfold below. rewrite take_ge by (cbn; lia). done. }
    rewrite Hsee. destruct (kv_time_match q t) eqn:Hm; cbn [app].
    + case_bool_decide as Hp; cbn [andb]; [case_bool_decide as Hle|].
      * rewrite <- (app_nil_l (bare t :: _)), newest_full; cbn in *; [done|lia..].
      * rewrite (find_rest _ lo l _ _ _ _ _ _ t'); [done..|lia|]. intros _. cbn in *. lia.
      * rewrite (find_rest _ lo l _ _ _ _ _ _ t'); [done..|lia|]. intros ?. lia.
    + rewrite (find_rest _ lo l _ _ _ _ _ _ t'); [done..|lia|]. intros ?. cbn. lia.
Qed.
End found.

(** ** What the database holds *)

Section life.
Context {D B : Type} `{KvLaws D B, BackendLaws}.
Context `{EncLaws B TimeRecord, EncLaws B TransitionRecord, EncLaws B MachineRecord}.
Context (machId : string).

(** The records a transition makes. *)
Definition made_by (mach : MachNow) (queueLen : Z) (tx : TxDone) (m : KvMem (D := D)) : list TimeRecord :=
  match tx_record mach queueLen tx m with Ok (Some (t, _)) => [t] | _ => [] end.

(** A memory of a machine that was not tracked before, while its database works,
    and the records made so far. The goroutines run in any order. *)
Inductive kv_reached : list TimeRecord → KvMem (D := D) → Prop :=
| kvr_New d mach parse base json queueBatch m :
    mach.(mn_id) = machId → GetMachine d machId = None →
    (∀ id, kv_get (be_time machId id) d = None) →
    (length base.(bc_TrackedStates) ≤ length (with_defaults mach parse base).(bc_TrackedStates))%nat →
    NewMemory true true d mach parse base json queueBatch = inr m →
    kv_reached [] m
| kvr_TransitionEnd made mach queueLen tx m m' :
    kv_reached made m → Z.of_nat (length made) + 2 < two64 →
    TransitionEnd false mach queueLen tx m = Ok m' → kv_reached (made ++ made_by mach queueLen tx m) m'
| kvr_SchemaChange made mach m : kv_reached made m → kv_reached made (SchemaChange false true mach m)
| kvr_Sync made m : kv_reached made m → kv_reached made (Sync m)
| kvr_job made l j l' m :
    kv_reached made m → m.(km_jobs) = l ++ j :: l' → kv_reached made (run_job machId true j (set_jobs (l ++ l') m)).

Definition entry_ok (conf : KvConf) (made : list TimeRecord) (q : Queued) : Prop :=
  1 ≤ q.(qd_id) ∧ made !! Z.to_nat (q.(qd_id) - 1) = Some q.(qd_time) ∧
  (conf.(kc_Cfg).(bc_StoreTransitions) = true → is_Some q.(qd_tx)).

Definition job_entries (j : Job) : list Queued := match j with JWrite _ l => l | JGc => [] end.

(** What is not in the database yet. *)
Definition waiting (m : KvMem (D := D)) : list Queued := (m.(km_jobs) ≫= job_entries) ++ m.(km_queue).

Record kv_inv (made : list TimeRecord) (m : KvMem (D := D)) : Prop := {
  ki_next : m.(km_nextId) = Z.of_nat (length made) + 1;
  ki_u64 : m.(km_nextId) < two64;
  ki_max : 0 < m.(km_conf).(kc_Cfg).(bc_MaxRecords);
  ki_pending : m.(km_SavePending) = Z.of_nat (length m.(km_queue));
  ki_open : m.(km_disposed) = false;
  ki_id : m.(km_machRec).(rc_MachId) = machId;
  ki_recs : Forall (λ j, match j with JWrite r _ => r.(rc_MachId) = machId | JGc => True end) m.(km_jobs);
  ki_waiting : Forall (entry_ok m.(km_conf) made) (waiting m);
  ki_count : m.(km_Saved) + Z.of_nat (length (waiting m)) = Z.of_nat (length made);
  ki_saved : 0 ≤ m.(km_SavedGc) ≤ m.(km_Saved);
  ki_gc : JGc ∈ m.(km_jobs) → m.(km_conf).(kc_Cfg).(bc_MaxRecords) ≤ m.(km_nextId);
  ki_sound id b : is_u64 id → kv_get (be_time machId id) m.(km_Db) = Some b →
    1 ≤ id ∧ ∃ t, made !! Z.to_nat (id - 1) = Some t ∧ Decode b m.(km_conf).(kc_EncJson) = inr t;
  ki_complete id : 1 ≤ id < m.(km_nextId) → m.(km_nextId) - m.(km_conf).(kc_Cfg).(bc_MaxRecords) < id →
    is_Some (kv_get (be_time machId id) m.(km_Db)) ∨ ∃ q, q ∈ waiting m ∧ q.(qd_id) = id;
  ki_idxs : (length m.(km_conf).(kc_Base).(bc_TrackedStates) ≤ length m.(km_conf).(kc_trackedIdxs))%nat;
  ki_long : Forall (time_long m.(km_conf)) made;
}.

(** *** Writing and deleting *)

Lemma get_put_time i j b (d : D) :
  is_u64 i → is_u64 j →
  kv_get (be_time machId i) (kv_put (be_time machId j) b d)
  = if decide (i = j) then Some b else kv_get (be_time machId i) d.
Proof.
  intros Hi Hj. rewrite !kv_get_view, kv_put_view. destruct (decide (i = j)) as [->|Hne].
  - by rewrite lookup_insert_eq.
  - rewrite lookup_insert_ne; [done|]. intros He. apply Hne. symmetry. by apply (be_time_inj machId).
Qed.

Lemma get_put_other i k b (d : D) :
  k ≠ be_time machId i → kv_get (be_time machId i) (kv_put k b d) = kv_get (be_time machId i) d.
Proof. intros Hk. by rewrite !kv_get_view, kv_put_view, lookup_insert_ne. Qed.

Lemma put_all_ok conf made l : ∀ d,
  Z.of_nat (length made) + 1 < two64 → Forall (entry_ok conf made) l →
  ∃ d', put_all conf machId l d = inr d' ∧ ∀ id, is_u64 id →
    (∃ q b, q ∈ l ∧ q.(qd_id) = id ∧ kv_get (be_time machId id) d' = Some b ∧ Decode b conf.(kc_EncJson) = inr q.(qd_time)) ∨
    ((∀ q, q ∈ l → q.(qd_id) ≠ id) ∧ kv_get (be_time machId id) d' = kv_get (be_time machId id) d).
Proof.
  induction l as [|q l IH]; intros d Hm Hl.
  { exists d. split; [done|]. intros id _. right. split; [|done]. intros q ?%not_elem_of_nil. done. }
  apply Forall_cons in Hl as [(Hq1 & Hq2 & Hq3) Hl].
  destruct (Decode_encode conf.(kc_EncJson) q.(qd_time)) as (b & Hb & Hdec).
  assert (Hqu : is_u64 (qd_id q)) by (apply lookup_lt_Some in Hq2; unfold is_u64; lia).
  assert (∃ d1, put_all conf machId (q :: l) d = put_all conf machId l d1 ∧
            ∀ id, is_u64 id → kv_get (be_time machId id) d1
              = if decide (id = q.(qd_id)) then Some b else kv_get (be_time machId id) d) as (d1 & -> & Hd1).
  { cbn [put_all]. rewrite Hb. destruct (bc_StoreTransitions (kc_Cfg conf)); cbn [negb].
    - destruct Hq3 as [x ->]; [done|]. destruct (Decode_encode conf.(kc_EncJson) x) as (bx & -> & _).
      eexists. split; [done|]. intros id Hid.
      rewrite get_put_other by (intros He; symmetry in He; by apply be_time_tx in He). by apply get_put_time.
    - eexists. split; [done|]. intros id Hid. by apply get_put_time. }
  destruct (IH d1 Hm Hl) as (d' & Hd' & Hget). exists d'. split; [done|]. intros id Hid.
  destruct (Hget id Hid) as [(q' & b' & Hq' & ?)|[Hno Heq]].
  - left. exists q', b'. split; [by right|done].
  - rewrite Heq, Hd1 by done. destruct (decide (id = qd_id q)) as [->|Hne].
    + left. exists q, b. split; [by left|done].
    + right. split; [|done]. intros q' [->|Hq']%elem_of_cons; [done|by apply Hno].
Qed.

Lemma delete_ids_get conf (l : list Z) (d : D) id :
  is_u64 id → Forall is_u64 l →
  kv_get (be_time machId id) (delete_ids conf machId l d)
  = if decide (id ∈ l) then None else kv_get (be_time machId id) d.
Proof.
  intros Hid. revert d. unfold delete_ids. induction l as [|i l IH]; intros d Hl.
  { cbn [fold_left]. by rewrite decide_False by apply not_elem_of_nil. }
  apply Forall_cons in Hl as [Hi Hl]. cbn [fold_left]. rewrite IH by done.
  destruct (decide (id ∈ l)) as [Hin|Hin]; [by rewrite decide_True by (by right)|].
  set (d1 := if bc_StoreTransitions _ then _ else _).
  assert (kv_get (be_time machId id) d1 = if decide (id = i) then None else kv_get (be_time machId id) d) as ->.
  { assert (Hdel : kv_get (be_time machId id) (kv_del (be_time machId i) d)
      = if decide (id = i) then None else kv_get (be_time machId id) d).
    { rewrite !kv_get_view, kv_del_view. destruct (decide (id = i)) as [->|Hne]; [by rewrite lookup_delete_eq|].
      rewrite lookup_delete_ne; [done|]. intros He. apply Hne. symmetry. by apply (be_time_inj machId). }
    unfold d1. destruct (bc_StoreTransitions _); [|done].
    rewrite kv_get_view, kv_del_view, lookup_delete_ne, <- kv_get_view; [done|].
    intros He. symmetry in He. by apply be_time_tx in He. }
  destruct (decide (id = i)) as [->|Hne]; [by rewrite decide_True by (by left)|].
  rewrite decide_False; [done|]. by intros [->|?]%elem_of_cons.
Qed.

(** *** Every step keeps it *)

Lemma entry_ok_app conf made l q : entry_ok conf made q → entry_ok conf (made ++ l) q.
Proof. intros (H1' & H2' & H3'). split; [done|]. split; [by apply lookup_app_l_Some|done]. Qed.

Lemma save_machine_inv made m : kv_inv made m → kv_inv made (save_machine true m).
Proof.
  intros Hi. unfold save_machine.
  destruct (Decode_encode (kc_EncJson (km_conf m)) (km_machRec m)) as (b & -> & _).
  rewrite (ki_open _ _ Hi). cbn [negb andb]. destruct Hi. split; try done; cbn.
  - intros id b' Hid. rewrite get_put_other; [by apply ki_sound0|].
    rewrite ki_id0. intros He. symmetry in He. by apply be_time_mach in He.
  - intros id. rewrite get_put_other; [by apply ki_complete0|].
    rewrite ki_id0. intros He. symmetry in He. by apply be_time_mach in He.
Qed.

Lemma NewMemory_inv d mach parse base json queueBatch m :
  mach.(mn_id) = machId → GetMachine d machId = None →
  (∀ id, kv_get (be_time machId id) d = None) →
  (length base.(bc_TrackedStates) ≤ length (with_defaults mach parse base).(bc_TrackedStates))%nat →
  NewMemory true true d mach parse base json queueBatch = inr m → kv_inv [] m.
Proof.
  intros Hid Hnone Hempty Hlen. unfold NewMemory. cbn [negb]. rewrite andb_false_r. case_bool_decide; [done|]. intros [= <-].
  unfold MachineInit. cbn [km_Db]. rewrite Hid, Hnone. apply save_machine_inv.
  split; cbn; try done.
  - case_bool_decide; lia.
  - intros ?%not_elem_of_nil. done.
  - intros id b _. by rewrite Hempty.
  - intros id Hb. lia.
  - by rewrite length_fmap.
Qed.

Lemma tx_record_ok mach queueLen tx (m : KvMem (D := D)) t x :
  tx_record mach queueLen tx m = Ok (Some (t, x)) →
  length t.(tr_MTimeTracked) = length m.(km_conf).(kc_trackedIdxs) ∧
  (m.(km_conf).(kc_Cfg).(bc_StoreTransitions) = true → is_Some x).
Proof.
  unfold tx_record. destruct (_ || _); [done|]. intros He. inv_ok. destruct (negb _); [done|]. inv_ok.
  match goal with Hf : Time.Filter (td_TimeAfter _) _ = Ok _ |- _ => apply Filter_ok in Hf as [_ ->] end.
  split; [cbn; unfold pick; by rewrite length_fmap|]. intros ->. by eexists.
Qed.

Lemma waiting_enqueue mach tx t x (m : KvMem (D := D)) :
  waiting (enqueue mach tx t x m) = waiting m ++ [mkQueued m.(km_nextId) t x].
Proof. unfold waiting. cbn. by rewrite app_assoc. Qed.

Lemma enqueue_inv mach queueLen tx made m t x :
  kv_inv made m → Z.of_nat (length made) + 2 < two64 →
  tx_record mach queueLen tx m = Ok (Some (t, x)) → kv_inv (made ++ [t]) (enqueue mach tx t x m).
Proof.
  intros Hi Hu Ht. destruct (tx_record_ok _ _ _ _ _ _ Ht) as [Hlen Hx]. destruct Hi.
  assert (Hnext : wrap64 (km_nextId m + 1) = Z.of_nat (length (made ++ [t])) + 1).
  { rewrite wrap64_id, length_app by (unfold is_u64; lia). cbn. lia. }
  split; rewrite ?waiting_enqueue; cbn [enqueue km_conf km_machRec km_nextId km_queue km_SavePending km_Saved km_SavedGc
    km_disposed km_Db km_jobs rc_MachId]; rewrite ?Hnext, ?length_app; cbn [length]; try done; try lia.
  - apply Forall_app. split; [eapply Forall_impl; [done|]; intros q; apply entry_ok_app|].
    apply Forall_cons. split; [|done]. split; cbn; [lia|]. split; [|done].
    rewrite lookup_app_r by lia. by replace (Z.to_nat (km_nextId m - 1) - length made)%nat with 0%nat by lia.
  - intros Hg. specialize (ki_gc0 Hg). lia.
  - intros id b Hid Hb. destruct (ki_sound0 id b Hid Hb) as (? & t' & Ht' & ?). split; [done|].
    exists t'. split; [by apply lookup_app_l_Some|done].
  - intros id Hid Hmax. destruct (decide (id = km_nextId m)) as [->|Hne].
    + right. exists (mkQueued (km_nextId m) t x). split; [|done]. apply elem_of_app. right. by apply list_elem_of_singleton.
    + destruct (ki_complete0 id) as [?|(q & Hq & ?)]; [lia|lia|by left|]. right. exists q.
      split; [|done]. apply elem_of_app. by left.
  - apply Forall_app. split; [done|]. apply Forall_cons. split; [|done].
    unfold time_long, record_long. cbn. lia.
Qed.

Lemma waiting_writeDb (m : KvMem (D := D)) :
  waiting (set_jobs (m.(km_jobs) ++ [JWrite m.(km_machRec) m.(km_queue)])
             (set_queue [] (m.(km_SavePending) - Z.of_nat (length m.(km_queue))) m)) = waiting m.
Proof. unfold waiting. cbn [km_jobs km_queue set_jobs set_queue]. rewrite bind_app, app_nil_r. cbn. by rewrite app_nil_r. Qed.

Lemma writeDb_inv made m : kv_inv made m → kv_inv made (writeDb m).
Proof.
  intros Hi. unfold writeDb. case_bool_decide as Hp; [done|]. destruct Hi.
  split; rewrite ?waiting_writeDb; try done; cbn.
  - lia.
  - apply Forall_app. split; [done|]. by apply Forall_cons.
  - intros [Hg|Hg]%elem_of_app; [by apply ki_gc0|]. apply list_elem_of_singleton in Hg. done.
Qed.

Lemma checkGc_inv made m : kv_inv made m → kv_inv made (checkGc m).
Proof.
  intros Hi. unfold checkGc. destruct (negb _ || _) eqn:Hdue; [done|].
  apply orb_false_iff in Hdue as [Hdue _]. apply negb_false_iff, bool_decide_eq_true in Hdue. destruct Hi.
  assert (Hw : waiting (set_jobs (km_jobs m ++ [JGc]) (set_gc true m)) = waiting m).
  { unfold waiting. cbn. by rewrite bind_app, app_nil_r. }
  split; rewrite ?Hw; try done; cbn.
  - apply Forall_app. split; [done|]. by apply Forall_cons.
  - intros _. rewrite wrap64_id in Hdue by (unfold is_u64; lia). lia.
Qed.

(** What taking a job away leaves. *)
Lemma job_parts made l j l' m :
  kv_inv made m → m.(km_jobs) = l ++ j :: l' →
  let m' := set_jobs (l ++ l') m in
  (∀ q, q ∈ waiting m ↔ q ∈ job_entries j ∨ q ∈ waiting m') ∧
  (length (waiting m) = length (job_entries j) + length (waiting m'))%nat ∧
  Forall (λ j, match j with JWrite r _ => r.(rc_MachId) = machId | JGc => True end) (l ++ l') ∧
  match j with JWrite r _ => r.(rc_MachId) = machId | JGc => True end ∧
  Forall (entry_ok (km_conf m) made) (job_entries j) ∧
  Forall (entry_ok (km_conf m) made) (waiting m') ∧
  (∀ x, x ∈ l ++ l' → x ∈ km_jobs m) ∧ j ∈ km_jobs m.
Proof.
  intros Hi Hj. cbv zeta. destruct Hi.
  assert (Hw : ∀ q, q ∈ waiting m ↔ q ∈ job_entries j ∨ q ∈ waiting (set_jobs (l ++ l') m)).
  { intros q. unfold waiting. cbn. rewrite Hj, !bind_app, !elem_of_app. cbn. rewrite elem_of_app. tauto. }
  rewrite Hj in ki_recs0. apply Forall_app in ki_recs0 as [? [? ?]%Forall_cons].
  rewrite Forall_forall in ki_waiting0.
  split_and!; [done| |by apply Forall_app|done| | | |].
  - unfold waiting. cbn. rewrite Hj, !bind_app, !length_app. cbn. rewrite length_app. lia.
  - apply Forall_forall. intros q Hq. apply ki_waiting0, Hw. by left.
  - apply Forall_forall. intros q Hq. apply ki_waiting0, Hw. by right.
  - intros x. rewrite Hj, !elem_of_app, elem_of_cons. tauto.
  - rewrite Hj, elem_of_app, elem_of_cons. tauto.
Qed.

Lemma get_put_mach id b (d : D) :
  kv_get (be_time machId id) (kv_put (be_mach machId) b d) = kv_get (be_time machId id) d.
Proof. apply get_put_other. intros He. symmetry in He. by apply be_time_mach in He. Qed.

Lemma write_inv made l rec batch l' m :
  kv_inv made m → m.(km_jobs) = l ++ JWrite rec batch :: l' →
  kv_inv made (run_job machId true (JWrite rec batch) (set_jobs (l ++ l') m)).
Proof.
  intros Hi Hj. destruct (job_parts _ _ _ _ _ Hi Hj) as (Hw & Hlen & Hrecs & Hrec & Hb & Hwait & Hsub & _).
  pose proof (ki_open _ _ Hi) as Ho. destruct Hi.
  unfold run_job, write_batch. cbn [km_disposed km_conf km_Db set_jobs job_entries] in *. rewrite Ho. cbn [negb andb].
  destruct (Decode_encode (kc_EncJson (km_conf m)) rec) as (br & -> & _). rewrite Hrec.
  destruct (put_all_ok (km_conf m) made batch (kv_put (be_mach machId) br (km_Db m)) ltac:(lia) Hb) as (d' & -> & Hd').
  split; cbn [set_saved set_db set_jobs km_conf km_machRec km_nextId km_queue km_SavePending km_Saved km_SavedGc
    km_disposed km_Db km_jobs]; try done; change (waiting (set_saved _ _ _)) with (waiting (set_jobs (l ++ l') m)); try done.
  - rewrite wrap64_id by (unfold is_u64; lia). lia.
  - rewrite wrap64_id by (unfold is_u64; lia). lia.
  - auto.
  - intros id b Hid Hg. destruct (Hd' id Hid) as [(q & b' & Hq & <- & Hb' & Hdec)|[_ Heq]].
    + rewrite Hb' in Hg. injection Hg as <-. rewrite Forall_forall in Hb. destruct (Hb q Hq) as (? & ? & _). eauto.
    + rewrite Heq, get_put_mach in Hg. by apply ki_sound0.
  - intros id Hid Hmax.
    destruct (Hd' id) as [(q & b' & Hq & <- & Hb' & Hdec)|[Hno Heq]]; [unfold is_u64; lia|left; eauto|].
    rewrite Heq, get_put_mach. destruct (ki_complete0 id Hid Hmax) as [?|(q & Hq & Hqid)]; [by left|].
    apply Hw in Hq as [Hq|Hq]; [by destruct (Hno q Hq)|]. right. eauto.
Qed.

Lemma gc_inv made l l' m :
  kv_inv made m → m.(km_jobs) = l ++ JGc :: l' → kv_inv made (run_job machId true JGc (set_jobs (l ++ l') m)).
Proof.
  intros Hi Hj. destruct (job_parts _ _ _ _ _ Hi Hj) as (Hw & Hlen & Hrecs & _ & _ & Hwait & Hsub & Hin).
  pose proof (ki_open _ _ Hi) as Ho. destruct Hi. specialize (ki_gc0 Hin) as Hmax.
  unfold run_job. cbn [km_disposed set_jobs job_entries length plus] in *. rewrite Ho. cbn [negb andb].
  assert (Hup : gc_upper (set_jobs (l ++ l') m) = km_nextId m - bc_MaxRecords (kc_Cfg (km_conf m))).
  { unfold gc_upper. cbn. rewrite wrap64_id; [done|]. unfold is_u64. lia. }
  assert (Hall : Forall is_u64 (seqZ 1 (gc_upper (set_jobs (l ++ l') m)))).
  { apply Forall_forall. intros i Hi%elem_of_seqZ. unfold is_u64. lia. }
  split; cbn [set_saved set_db set_gc set_jobs km_conf km_machRec km_nextId km_queue km_SavePending km_Saved km_SavedGc
    km_disposed km_Db km_jobs]; try done; change (waiting (set_gc _ _)) with (waiting (set_jobs (l ++ l') m)); try done.
  - lia.
  - lia.
  - intros id b Hid. rewrite delete_ids_get by done. destruct (decide _); [done|]. by apply ki_sound0.
  - intros id Hid Hid'. rewrite delete_ids_get; [|unfold is_u64; lia|done].
    rewrite decide_False by (rewrite elem_of_seqZ; lia).
    destruct (ki_complete0 id Hid Hid') as [?|(q & Hq & Hqid)]; [by left|].
    apply Hw in Hq as [Hq|Hq]; [by apply not_elem_of_nil in Hq|]. right. eauto.
Qed.

Lemma kv_reached_inv made m : kv_reached made m → kv_inv made m.
Proof.
  induction 1 as [d mach parse base json qb m Hid Hnone Hempty Hlen Hnew
                 |made mach ql tx m m' _ IH Hu He|made mach m _ IH|made m _ IH|made l j l' m _ IH Hj].
  - by eapply NewMemory_inv.
  - unfold TransitionEnd in He. inv_ok. unfold made_by.
    match goal with Hr : tx_record _ _ _ _ = Ok _ |- _ => rewrite Hr end.
    destruct x as [[t x]|]; [|simplify_eq; by rewrite app_nil_r].
    simplify_eq. assert (kv_inv (made ++ [t]) (enqueue mach tx t x m)) by (by eapply enqueue_inv).
    case_bool_decide; [by apply checkGc_inv, writeDb_inv|done].
  - unfold SchemaChange. destruct (negb _); [done|]. apply save_machine_inv. destruct IH. by split.
  - by apply writeDb_inv.
  - destruct j; [by apply write_inv|by apply gc_inv].
Qed.

(** *** What is found once everything is written *)

Lemma run_below (d : D) n :
  kv_get (be_time machId 0) d = None →
  ∃ k, (k ≤ n)%nat ∧ kv_get (be_time machId (Z.of_nat k)) d = None ∧
    ∀ i, (k < i ≤ n)%nat → is_Some (kv_get (be_time machId (Z.of_nat i)) d).
Proof.
  intros H0'. induction n as [|n (k & Hk & Hnone & Hsome)].
  { exists 0%nat. split; [lia|]. split; [done|lia]. }
  destruct (kv_get (be_time machId (Z.of_nat (S n))) d) as [b|] eqn:Hb.
  - exists k. split; [lia|]. split; [done|]. intros i Hi. destruct (decide (i = S n)) as [->|]; [by eexists|].
    apply Hsome. lia.
  - exists (S n). split; [lia|]. split; [done|lia].
Qed.

(** Everything made is in the database: the run of records that ends with the
    newest. *)
Lemma quiet_run made m :
  kv_inv made m → m.(km_queue) = [] → m.(km_jobs) = [] → 3 ≤ m.(km_conf).(kc_Cfg).(bc_MaxRecords) →
  ∃ lo, holds_run machId m.(km_conf) m.(km_Db) (Z.of_nat lo) (drop lo made) ∧ (lo ≤ length made)%nat ∧
    (lo = 0%nat ∨ m.(km_conf).(kc_Cfg).(bc_MaxRecords) - 1 ≤ Z.of_nat (length (drop lo made))).
Proof.
  intros Hi Hq Hj Hmax. destruct Hi.
  assert (Hno : waiting m = []) by (unfold waiting; by rewrite Hq, Hj).
  assert (H0' : kv_get (be_time machId 0) (km_Db m) = None).
  { apply eq_None_not_Some. intros [b Hb]. apply ki_sound0 in Hb as [? _]; [lia|done]. }
  destruct (run_below (km_Db m) (length made) H0') as (lo & Hlo & Hnone & Hsome).
  assert (Hkept : lo = 0%nat ∨ bc_MaxRecords (kc_Cfg (km_conf m)) - 1 ≤ Z.of_nat (length (drop lo made))).
  { destruct (decide (lo = 0%nat)) as [|Hne]; [by left|right]. rewrite length_drop.
    destruct (decide (km_nextId m - bc_MaxRecords (kc_Cfg (km_conf m)) < Z.of_nat lo)); [|lia].
    destruct (ki_complete0 (Z.of_nat lo)) as [[b Hb]|(q & Hin & _)]; [lia|done|congruence|].
    rewrite Hno in Hin. by apply not_elem_of_nil in Hin. }
  exists lo. split; [|by split]. split; rewrite ?length_drop; try done; try lia.
  - rewrite length_drop in Hkept. destruct Hkept; [left|right]; lia.
  - intros i t Ht. rewrite lookup_drop in Ht. apply lookup_lt_Some in Ht as Hlt.
    destruct (Hsome (lo + S i)%nat) as [b Hb]; [lia|].
    replace (Z.of_nat (lo + S i)) with (Z.of_nat lo + 1 + Z.of_nat i) in Hb by lia.
    exists b. split; [done|]. destruct (ki_sound0 (Z.of_nat lo + 1 + Z.of_nat i) b ltac:(unfold is_u64; lia) Hb) as (_ & t' & Ht' & Hdec).
    replace (Z.to_nat (Z.of_nat lo + 1 + Z.of_nat i - 1)) with (lo + i)%nat in Ht' by lia. by rewrite Ht in Ht'; simplify_eq.
  - apply eq_None_not_Some. intros [b Hb]. apply ki_sound0 in Hb as (_ & t & Ht & _); [|unfold is_u64, two64; lia].
    apply lookup_lt_Some in Ht. unfold two64 in *. lia.
Qed.

End life.

(** ** A database *)

Inductive Blob :=
| BTime (json : bool) (t : TimeRecord)
| BTx (json : bool) (x : TransitionRecord)
| BMach (json : bool) (r : MachineRecord).

#[export] Instance map_store : KvStore (gmap (list string) Blob) Blob := {
  kv_get k d := d !! k;
  kv_put k b d := <[k := b]> d;
  kv_del k d := delete k d;
  kv_machines d := snd <$> filter (λ p : list string * Blob, head p.1 = Some "_machines") (map_to_list d);
}.

#[export] Instance map_store_laws : KvLaws (gmap (list string) Blob) Blob.
Proof. by refine {| kv_view := λ d : gmap (list string) Blob, d |}. Defined.

Definition unblob {T} (f : Blob → option (bool * T)) (json : bool) (b : Blob) : string + T :=
  match f b with Some (j, x) => if Bool.eqb j json then inr x else inl "encoding" | None => inl "type" end.

#[export] Instance blob_time : Enc Blob TimeRecord :=
  let f b := match b with BTime j t => Some (j, t) | _ => None end in
  {| to_json t := inr (BTime true t); to_pack t := inr (BTime false t); of_json := unblob f true; of_pack := unblob f false |}.
#[export] Instance blob_tx : Enc Blob TransitionRecord :=
  let f b := match b with BTx j t => Some (j, t) | _ => None end in
  {| to_json t := inr (BTx true t); to_pack t := inr (BTx false t); of_json := unblob f true; of_pack := unblob f false |}.
#[export] Instance blob_mach : Enc Blob MachineRecord :=
  let f b := match b with BMach j t => Some (j, t) | _ => None end in
  {| to_json t := inr (BMach true t); to_pack t := inr (BMach false t); of_json := unblob f true; of_pack := unblob f false |}.

#[export] Instance blob_time_laws : EncLaws Blob TimeRecord.
Proof. split; cbn; [by eexists..|]. intros x b [= <-]. by eexists. Qed.
#[export] Instance blob_tx_laws : EncLaws Blob TransitionRecord.
Proof. split; cbn; [by eexists..|]. intros x b [= <-]. by eexists. Qed.
#[export] Instance blob_mach_laws : EncLaws Blob MachineRecord.
Proof. split; cbn; [by eexists..|]. intros x b [= <-]. by eexists. Qed.

(** Three transitions of a machine that are written in batches of one, the last of
    them first. *)
Section demo.
#[local] Existing Instance badger.
#[local] Existing Instance badger_laws.

Definition kv_config : BaseConfig := mkConfig [] false [] false false ["A"; "B"] true false 3.
Definition kv_tx (id : string) (before after : list Z) : TxDone :=
  mkTxDone id (newMutation MutationAdd [0] ∅ false false None) ["A"] before after true false 0.

Definition kv_new : KvMem (D := gmap (list string) Blob) :=
  match NewMemory true true ∅ (demo_now [0; 0; 0]) id kv_config false 1 with
  | inr m => m
  | inl _ => mkKv (mkConf kv_config kv_config false 1 []) (mkMachineRecord "" [] None 0 0 0 [] 0 0 0) 0 [] 0 0 0 None false false ∅ [] []
  end.
Definition kv_end (id : string) (before after : list Z) (m : KvMem) : KvMem (D := gmap (list string) Blob) :=
  match TransitionEnd false (demo_now after) 0 (kv_tx id before after) m with Ok m => m | _ => m end.
Definition kv_tail (m : KvMem) : KvMem (D := gmap (list string) Blob) :=
  match m.(km_jobs) with j :: l => run_job "m" true j (set_jobs l m) | [] => m end.
Definition kv_last (m : KvMem) : KvMem (D := gmap (list string) Blob) :=
  match reverse m.(km_jobs) with j :: l => run_job "m" true j (set_jobs (reverse l ++ []) m) | [] => m end.

Definition kv_made : KvMem := kv_end "t3" [3; 1; 0] [5; 2; 4] (kv_end "t2" [1; 0; 0] [3; 1; 0] (kv_end "t1" [0; 0; 0] [1; 0; 0] kv_new)).
Definition kv_written : KvMem := kv_tail (kv_tail (kv_last kv_made)).

Lemma kv_end_reached made name before after m :
  kv_reached (D := gmap (list string) Blob) "m" made m → Z.of_nat (length made) + 2 < two64 →
  is_ok (TransitionEnd false (demo_now after) 0 (kv_tx name before after) m) = true →
  kv_reached "m" (made ++ made_by (demo_now after) 0 (kv_tx name before after) m) (kv_end name before after m).
Proof.
  intros Hm Hl Hok. unfold kv_end. destruct (TransitionEnd _ _ _ _ _) as [m'| |] eqn:E; try done.
  by eapply kvr_TransitionEnd.
Qed.

Lemma kv_tail_reached made m : kv_reached (D := gmap (list string) Blob) "m" made m → kv_reached "m" made (kv_tail m).
Proof.
  intros Hm. unfold kv_tail. destruct (km_jobs m) as [|j l] eqn:E; [done|]. by apply (kvr_job _ _ [] j l).
Qed.

Lemma kv_last_reached made m : kv_reached (D := gmap (list string) Blob) "m" made m → kv_reached "m" made (kv_last m).
Proof.
  intros Hm. unfold kv_last. destruct (reverse (km_jobs m)) as [|j l] eqn:E; [done|].
  apply (kvr_job _ _ (reverse l) j []); [done|]. by rewrite <- (reverse_involutive (km_jobs m)), E, reverse_cons.
Qed.

Definition kv_trace : list TimeRecord :=
  (([] ++ made_by (demo_now [1; 0; 0]) 0 (kv_tx "t1" [0; 0; 0] [1; 0; 0]) kv_new)
   ++ made_by (demo_now [3; 1; 0]) 0 (kv_tx "t2" [1; 0; 0] [3; 1; 0]) (kv_end "t1" [0; 0; 0] [1; 0; 0] kv_new))
  ++ made_by (demo_now [5; 2; 4]) 0 (kv_tx "t3" [3; 1; 0] [5; 2; 4])
       (kv_end "t2" [1; 0; 0] [3; 1; 0] (kv_end "t1" [0; 0; 0] [1; 0; 0] kv_new)).

Lemma kv_written_reached : kv_reached "m" kv_trace kv_written.
Proof.
  unfold kv_written, kv_made, kv_trace. apply kv_tail_reached, kv_tail_reached, kv_last_reached.
  apply kv_end_reached; [apply kv_end_reached; [apply kv_end_reached|..]|..]; [|by vm_compute..].
  apply (kvr_New _ ∅ (demo_now [0; 0; 0]) id kv_config false 1); [done|done|done|vm_compute; lia|by vm_compute].
Qed.

Definition any_query : Query := mkQuery ["B"] [] [] [] zeroCond zeroCond.


(** Asked for records with [B] active, it finds one where [B] is not, and not the
    first; the transition of each is that of the one before it. *)
Example kv_transitions :
  (λ r, (mr_Time r).(tr_MTimeSum)) <$> match (FindLatest (index_of ["A"; "B"; "C"]) "m" (λ _, false) false true true 10 any_query kv_written).2
          with Ok (inr (inr l)) => l | _ => [] end = [11; 4] ∧
  (λ r, xr_TransitionId <$> mr_Transition r) <$> match (FindLatest (index_of ["A"; "B"; "C"]) "m" (λ _, false) false true true 10 any_query kv_written).2
          with Ok (inr (inr l)) => l | _ => [] end = [Some "t2"; Some "t1"].
Proof. by vm_compute. Qed.
End demo.

(** An allowlist is met by a state that is _not_ called. *)
Example allowlist_inverted : match_list ["A"] ["B"] false false = true ∧ match_list ["A"] ["A"] false false = false.
Proof. done. Qed.

Section restart.
#[local] Existing Instance bbolt.

(** With [bbolt] a machine's record is never read back: tracked again, it starts at
    the first identifier and overwrites what it recorded before. *)
Lemma bbolt_starts_over (dbOk ok : bool) (d : gmap (list string) Blob) (mach : MachNow) (parse : list string → list string)
    (base : BaseConfig) (json : bool) (queueBatch : Z) m :
  NewMemory dbOk ok d mach parse base json queueBatch = inr m → m.(km_nextId) = 1.
Proof.
  unfold NewMemory. destruct (_ && _); [done|]. case_bool_decide; [done|]. intros [= <-]. unfold MachineInit, save_machine. cbn.
  destruct json; by destruct ok.
Qed.
End restart.
