(* ===== verification/Pipes.v ===== *)
(** * Pipes between machines ([pkg/states/pipes/pipes.go])

    A pipe is a final handler of a source machine that adds or removes a state
    of a target machine.  What a target has to offer is a class
    ([PipeTarget]); [Machine] is an instance, with the engine of [Run] behind
    its methods.  A call in a goroutine of its own ([go target.EvAdd(...)])
    joins the calls pending in [ps_go], which the scheduler runs in any order;
    [fifo_step] is the order they were made in.

    Handlers are fields of a struct: the name of a method and a function, which
    is [None] where the field is [nil].  The records of pipes kept for
    inspection ([AddPipeOut], [AddPipeIn]) are left out. *)

From S2P Require Import Prelude StateList SchemaDef MachTime Mutation Relations Subscriptions Machine Queue Transition Run QueueSpec Semantics.

#[local] Open Scope Z_scope.

(** ** Pipes *)

(** A handler's event: where it comes from, its arguments, and the target states
    of its transition. *)
Record PipeEvent := mkPipeEvent {
  pe_src : EventSrc;
  pe_args : gmap string Val;
  pe_targets : list string;
}.

(** A mutation of the target, with the event for the [Ev] methods. *)
Inductive PipeMut :=
| PipeAdd (e : option EventSrc) (states : list string) (args : gmap string Val)
| PipeRemove (e : option EventSrc) (states : list string) (args : gmap string Val)
| PipeSet (states : list string) (args : gmap string Val).

(** What a handler does: nothing, a call, or a call in a goroutine. *)
Inductive PipeAct := PipeSkip | PipeCall (mut : PipeMut) | PipeGo (mut : PipeMut).

Class PipeTarget (W : Type) := {
  pt_id : W → string;
  pt_names : W → list string;
  pt_is : W → list string → outcome bool;
  pt_not1 : W → string → outcome bool;
  pt_local : W → bool;
  pt_mutate : PipeMut → run W Z;
}.

Section pipes.
Context {W : Type} `{PipeTarget W}.

Definition PipeFn : Type := PipeEvent → W → outcome PipeAct.

(** An added error brings [Exception] along. *)
Definition pipe_names (targetState : string) : list string :=
  if HasPrefix targetState PrefixErr then [StateException; targetState] else [targetState].

Definition add (flat : bool) (sourceState targetState : string) : outcome PipeFn :=
  if bool_decide (sourceState = "") then Panic "state missing"
  else
    let targetState := if bool_decide (targetState = "") then sourceState else targetState in
    let names := pipe_names targetState in
    Ok (λ e target,
      if flat then
        b ← pt_is target names;
        Ok (if b : bool then PipeSkip
            else if pt_local target then PipeCall (PipeAdd (Some e.(pe_src)) names ∅)
            else PipeGo (PipeAdd (Some e.(pe_src)) names ∅))
      else Ok (PipeGo (PipeAdd (Some e.(pe_src)) names e.(pe_args)))).

Definition Add (sourceState targetState : string) : outcome PipeFn := add false sourceState targetState.
Definition AddFlat (sourceState targetState : string) : outcome PipeFn := add true sourceState targetState.

Definition remove (flat : bool) (sourceState targetState : string) : outcome PipeFn :=
  if bool_decide (sourceState = "") then Panic "state missing"
  else
    let targetState := if bool_decide (targetState = "") then sourceState else targetState in
    Ok (λ e target,
      if flat then
        b ← pt_not1 target targetState;
        Ok (if b : bool then PipeSkip
            else if pt_local target then PipeCall (PipeRemove (Some e.(pe_src)) [targetState] ∅)
            else PipeGo (PipeRemove (Some e.(pe_src)) [targetState] ∅))
      else Ok (PipeGo (PipeRemove (Some e.(pe_src)) [targetState] e.(pe_args)))).

Definition Remove (sourceState targetState : string) : outcome PipeFn := remove false sourceState targetState.
Definition RemoveFlat (sourceState targetState : string) : outcome PipeFn := remove true sourceState targetState.

(** ** Bindings *)

(** The handlers struct and the id given to [HandlersBind]. *)
Record PipeBinding := mkPipeBinding {
  pb_id : string;
  pb_fields : list (string * option PipeFn);
}.

Definition BindAny (sourceNames : list string) (target : W) : string + PipeBinding :=
  if negb (bool_decide (StatesDiff sourceNames (pt_names target) = []))
  then inl "BindAny: state missing in target"
  else
    let fn : PipeFn := λ e target,
      b ← pt_is target e.(pe_targets);
      Ok (if b : bool then PipeSkip else PipeCall (PipeSet e.(pe_targets) e.(pe_args))) in
    inr (mkPipeBinding ("BindAny-" +:+ pt_id target) [(StateAny +:+ SuffixState, Some fn)]).

(** The fields of one state; [nil] ones when it is not bound. *)
Definition optional_fields (sourceState targetState : string)
  : outcome (list (string * option PipeFn)) :=
  if bool_decide (targetState = "")
  then Ok [(sourceState +:+ SuffixState, None); (sourceState +:+ SuffixEnd, None)]
  else
    a ← Add sourceState targetState;
    r ← Remove sourceState targetState;
    Ok [(sourceState +:+ SuffixState, Some a); (sourceState +:+ SuffixEnd, Some r)].

Definition BindConnected (target : W) (disconnected connecting connected disconnecting : string)
  : outcome PipeBinding :=
  f1 ← optional_fields "Disconnected" disconnected;
  f2 ← optional_fields "Connecting" connecting;
  f3 ← optional_fields "Connected" connected;
  f4 ← optional_fields "Disconnecting" disconnecting;
  Ok (mkPipeBinding ("BindConnected-" +:+ pt_id target) (f1 ++ f2 ++ f3 ++ f4)).

Definition BindErr (target : W) (targetErr : string) : outcome PipeBinding :=
  let targetErr := if bool_decide (targetErr = "") then StateException else targetErr in
  a ← Add StateException targetErr;
  Ok (mkPipeBinding ("BindErr-" +:+ pt_id target) [(StateException +:+ SuffixState, Some a)]).

(** The two handlers of a state. *)
Definition bind_pair (id state activeState inactiveState : string) : outcome PipeBinding :=
  a ← Add state activeState;
  r ← Remove state inactiveState;
  Ok (mkPipeBinding id [(state +:+ SuffixState, Some a); (state +:+ SuffixEnd, Some r)]).

Definition or_default (d s : string) : string := if bool_decide (s = "") then d else s.

Definition BindStart (target : W) (activeState inactiveState : string) : outcome PipeBinding :=
  let activeState := or_default "Start" activeState in
  bind_pair ("BindStart-" +:+ pt_id target) "Start" activeState (or_default activeState inactiveState).

Definition BindReady (target : W) (activeState inactiveState : string) : outcome PipeBinding :=
  let activeState := or_default "Ready" activeState in
  bind_pair ("BindReady-" +:+ pt_id target) "Ready" activeState (or_default activeState inactiveState).

(** [reflect.StructOf] panics on field names that are not identifiers, on
    unexported ones and on repeated ones; the bytes of runes outside of ASCII
    count as letters. *)
Definition name_char (c : Ascii.ascii) : bool :=
  let n := Z.of_nat (Ascii.nat_of_ascii c) in
  bool_decide (65 ≤ n ≤ 90) || bool_decide (97 ≤ n ≤ 122) || bool_decide (48 ≤ n ≤ 57)
  || bool_decide (n = 95) || bool_decide (128 ≤ n).

Fixpoint name_chars (name : string) : bool :=
  match name with
  | EmptyString => true
  | String.String c name => name_char c && name_chars name
  end.

Definition exported (name : string) : bool :=
  match name with
  | String.String c _ =>
      let n := Z.of_nat (Ascii.nat_of_ascii c) in
      name_chars name
      && negb (bool_decide (48 ≤ n ≤ 57) || bool_decide (97 ≤ n ≤ 122) || bool_decide (n = 95))
  | EmptyString => false
  end.

Definition StructOf (fields : list (string * option PipeFn)) : outcome (list (string * option PipeFn)) :=
  if forallb exported fields.*1 && bool_decide (NoDup fields.*1) then Ok fields
  else Panic "reflect.StructOf".

Definition Bind (target : W) (state activeState inactiveState : string) : outcome PipeBinding :=
  let activeState := or_default state activeState in
  b ← bind_pair ("Bind-" +:+ state +:+ "-" +:+ pt_id target) state activeState
        (or_default activeState inactiveState);
  fields ← StructOf b.(pb_fields);
  Ok (mkPipeBinding b.(pb_id) fields).

(** The fields of all pairs of states. *)
Fixpoint many_fields (pairs : list (string * string)) : outcome (list (string * option PipeFn)) :=
  match pairs with
  | [] => Ok []
  | (name, targetState) :: pairs =>
      a ← Add name targetState;
      r ← Remove name targetState;
      rest ← many_fields pairs;
      Ok ((name +:+ SuffixState, Some a) :: (name +:+ SuffixEnd, Some r) :: rest)
  end.

(** [targetStates = None] is [nil]. *)
Definition BindMany (target : W) (states : list string) (targetStates : option (list string))
  : outcome (string + PipeBinding) :=
  let targetStates := default states targetStates in
  if negb (bool_decide (length states = length targetStates))
  then Ok (inl "source and target states len mismatch")
  else
    fields ← many_fields (zip states targetStates);
    fields ← StructOf fields;
    Ok (inr (mkPipeBinding ("BindMany-" +:+ pretty (Z.of_nat (length states)) +:+ "-" +:+ pt_id target)
               fields)).

(** [Sync]: the states to add and to remove, in two mutations.  Unlike for
    [BindMany] a missing list of target states panics. *)
Fixpoint sync_lists (isActive : string → outcome bool) (states targetStates : list string)
  : outcome (list string * list string) :=
  match states with
  | [] => Ok ([], [])
  | s :: states =>
      b ← isActive s;
      match targetStates with
      | [] => Panic "index out of range"
      | t :: targetStates =>
          r ← sync_lists isActive states targetStates;
          Ok (if b : bool then (t :: r.1, r.2) else (r.1, t :: r.2))
      end
  end.

Definition Sync (isActive : string → outcome bool) (states targetStates : list string) : run W Z :=
  r ← lift (sync_lists isActive states targetStates);
  let '(toAdd, toRemove) := (r : list string * list string) in
  (if bool_decide (toAdd = []) then mret () else pt_mutate (PipeAdd None toAdd ∅) ;; mret ()) ;;
  (if bool_decide (toRemove = []) then mret () else pt_mutate (PipeRemove None toRemove ∅) ;; mret ()) ;;
  mret (Z.of_nat (length toAdd + length toRemove)).

(** ** A source, its pipes and a target *)

Record PipeSys := mkPipeSys {
  ps_source : list string;
  ps_target : W;
  ps_go : list PipeMut;
}.

Definition act (a : PipeAct) (w : W) (go : list PipeMut) : outcome (W * list PipeMut) :=
  match a with
  | PipeSkip => Ok (w, go)
  | PipeCall mut => r ← pt_mutate mut w; Ok ((r : Z * W).2, go)
  | PipeGo mut => Ok (w, go ++ [mut])
  end.

(** Calling the handlers of the fields found for some methods, in order; a field
    that is [nil] panics. *)
Fixpoint call_methods (fields : list (string * option PipeFn)) (e : PipeEvent)
    (methods : list string) (w : W) (go : list PipeMut) : outcome (W * list PipeMut) :=
  match methods with
  | [] => Ok (w, go)
  | m :: methods =>
      match snd <$> list_find (λ f, f.1 = m) fields with
      | None => call_methods fields e methods w go
      | Some (_, None) => Panic "reflect.Value.Call: call of nil function"
      | Some (_, Some fn) =>
          a ← fn e w;
          r ← act a w go;
          call_methods fields e methods r.1 r.2
      end
  end.

(** The final handlers of a transition, in the order of the engine. *)
Definition final_methods (exits enters : list string) : list string :=
  ((λ s, s +:+ SuffixEnd) <$> exits) ++ ((λ s, s +:+ SuffixState) <$> enters)
  ++ [StateAny +:+ SuffixState].

(** The states a transition exits and enters; called multi states are entered
    again. *)
Record moves (before after exits enters : list string) : Prop := {
  mv_exits s : s ∈ exits ↔ s ∈ before ∧ s ∉ after;
  mv_enters s : s ∈ enters → s ∈ after;
  mv_new s : s ∈ after → s ∉ before → s ∈ enters;
}.

Inductive pipe_step (b : PipeBinding) : PipeSys → PipeSys → Prop :=
| pipe_transition y after exits enters e w go :
    moves y.(ps_source) after exits enters →
    call_methods b.(pb_fields) e (final_methods exits enters) y.(ps_target) y.(ps_go)
      = Ok (w, go) →
    pipe_step b y (mkPipeSys after w go)
| pipe_run y i mut r w :
    y.(ps_go) !! i = Some mut → pt_mutate mut y.(ps_target) = Ok (r, w) →
    pipe_step b y (mkPipeSys y.(ps_source) w (take i y.(ps_go) ++ drop (S i) y.(ps_go))).

(** The goroutines run in the order they were started. *)
Inductive fifo_step (b : PipeBinding) : PipeSys → PipeSys → Prop :=
| fifo_transition y after exits enters e w go :
    moves y.(ps_source) after exits enters →
    call_methods b.(pb_fields) e (final_methods exits enters) y.(ps_target) y.(ps_go)
      = Ok (w, go) →
    fifo_step b y (mkPipeSys after w go)
| fifo_first y mut rest r w :
    y.(ps_go) = mut :: rest → pt_mutate mut y.(ps_target) = Ok (r, w) →
    fifo_step b y (mkPipeSys y.(ps_source) w rest).

End pipes.
Arguments PipeFn _ : clear implicits.
Arguments PipeBinding _ : clear implicits.
Arguments PipeSys _ : clear implicits.

(** ** What a target promises *)

(** What a mutation does to a piped state. *)
Definition effect (mut : PipeMut) (t : string) (b : bool) : bool :=
  match mut with
  | PipeAdd _ states _ => contains states t || b
  | PipeRemove _ states _ => negb (contains states t) && b
  | PipeSet states _ => contains states t
  end.

(** An Add or a Remove of some piped states. *)
Definition pipe_mut (piped : list string) (mut : PipeMut) : Prop :=
  match mut with
  | PipeAdd _ states _ | PipeRemove _ states _ => NoDup states ∧ states ⊆ piped
  | PipeSet _ _ => False
  end.

(** [pt_ok n piped w]: the next [n] mutations of the piped states are taken. *)
Class PipeTargetLaws (W : Type) `{PipeTarget W} := {
  pt_active : W → string → bool;
  pt_ok : nat → list string → W → Prop;
  pt_takes n piped w mut :
    pt_ok (S n) piped w → pipe_mut piped mut →
    ∃ r w', pt_mutate mut w = Ok (r, w') ∧ pt_ok n piped w'
      ∧ ∀ t, t ∈ piped → pt_active w' t = effect mut t (pt_active w t);
}.

(** ** A binding of many states mirrors them *)

Section mirror.
Context {W : Type} `{PipeTargetLaws W}.

(** The mutations of the handlers of some pairs of states, by method. *)
Definition table (e : PipeEvent) (pairs : list (string * string)) : list (string * PipeMut) :=
  pairs ≫= λ p, [(p.1 +:+ SuffixState, PipeAdd (Some e.(pe_src)) [p.2] e.(pe_args));
                 (p.1 +:+ SuffixEnd, PipeRemove (Some e.(pe_src)) [p.2] e.(pe_args))].

Definition implements (e : PipeEvent) (f : string * option (PipeFn W)) (p : string * PipeMut) : Prop :=
  f.1 = p.1 ∧ ∃ fn, f.2 = Some fn ∧ ∀ w, fn e w = Ok (PipeGo p.2).

(** Pairs that [BindMany] pipes one to one. *)
Record pairs_ok (pairs : list (string * string)) : Prop := {
  po_sources : NoDup pairs.*1;
  po_targets : NoDup pairs.*2;
  po_named : ∀ s t, (s, t) ∈ pairs → s ≠ "" ∧ s ≠ StateAny ∧ t ≠ "" ∧ HasPrefix t PrefixErr = false;
}.

Lemma many_fields_ok pairs fields e :
  (∀ s t, (s, t) ∈ pairs → s ≠ "" ∧ t ≠ "" ∧ HasPrefix t PrefixErr = false) →
  many_fields (W:=W) pairs = Ok fields → Forall2 (implements e) fields (table e pairs).
Proof.
  revert fields. induction pairs as [|[s t] pairs IH]; intros fields Hp; cbn.
  { intros [= <-]. constructor. }
  destruct (Hp s t) as (Hs & Ht & He); [left|]. unfold Add, add, Remove, remove.
  rewrite !(bool_decide_eq_false_2 (s = "")) by done. rewrite !(bool_decide_eq_false_2 (t = "")) by done.
  cbn [mbind outcome_bind]. intros Hm. inv_ok. constructor; [|constructor].
  - split; [done|]. eexists. split; [done|]. intros w. cbn. unfold pipe_names. by rewrite He.
  - split; [done|]. eexists. split; [done|]. done.
  - apply IH; [|done]. intros s' t' Hin. apply Hp. by right.
Qed.

(** The mutations started by calling some methods. *)
Definition started (tbl : list (string * PipeMut)) (methods : list string) : list PipeMut :=
  omap (λ m, p ← list_find (λ p : string * PipeMut, p.1 = m) tbl; Some p.2.2) methods.

Lemma find_implements e fields tbl m :
  Forall2 (implements e) fields tbl →
  match list_find (λ p : string * PipeMut, p.1 = m) tbl with
  | None => list_find (λ f : string * option (PipeFn W), f.1 = m) fields = None
  | Some (i, p) => ∃ f, list_find (λ f : string * option (PipeFn W), f.1 = m) fields = Some (i, f)
      ∧ implements e f p
  end.
Proof.
  induction 1 as [|f p fields tbl Hfp _ IH]; [done|]. cbn. pose proof Hfp as [Hn _].
  destruct (decide (p.1 = m)) as [Hm|Hm].
  - rewrite decide_True by congruence. by exists f.
  - rewrite decide_False by congruence. destruct (list_find _ tbl) as [[i q]|]; cbn.
    + destruct IH as (f' & -> & Hf'). by exists f'.
    + by rewrite IH.
Qed.

(** The handlers only start goroutines. *)
Lemma call_methods_started e fields tbl methods (w : W) go :
  Forall2 (implements e) fields tbl →
  call_methods fields e methods w go = Ok (w, go ++ started tbl methods).
Proof.
  intros Hf. revert go. induction methods as [|m methods IH]; intros go; cbn.
  { by rewrite app_nil_r. }
  pose proof (find_implements e fields tbl m Hf) as Hm.
  destruct (list_find _ tbl) as [[i [n mut]]|]; cbn.
  - destruct Hm as ([n' o] & -> & [_ (fn & Hfn & Hgo)]). cbn in Hfn |- *. rewrite Hfn, Hgo. cbn.
    rewrite IH. by rewrite <- app_assoc.
  - rewrite Hm. apply IH.
Qed.

(** *** The effect of a transition *)

Definition effects (muts : list PipeMut) (t : string) (b : bool) : bool :=
  fold_left (λ b mut, effect mut t b) muts b.
#[global] Arguments effects : simpl never.

Lemma effects_app muts muts' t b : effects (muts ++ muts') t b = effects muts' t (effects muts t b).
Proof. apply fold_left_app. Qed.

Lemma elem_of_table e pairs m mut :
  (m, mut) ∈ table e pairs ↔ ∃ s t, (s, t) ∈ pairs ∧
    (m = s +:+ SuffixState ∧ mut = PipeAdd (Some e.(pe_src)) [t] e.(pe_args)
     ∨ m = s +:+ SuffixEnd ∧ mut = PipeRemove (Some e.(pe_src)) [t] e.(pe_args)).
Proof.
  unfold table. rewrite list_elem_of_bind. split.
  - intros ([s t] & Hin & Hp). exists s, t. cbn in Hin. rewrite !elem_of_cons, elem_of_nil in Hin.
    split; [done|]. destruct Hin as [[= -> ->]|[[= -> ->]|[]]]; auto.
  - intros (s & t & Hp & [[-> ->]|[-> ->]]); exists (s, t); (split; [|done]); cbn; [left|right; left].
Qed.

Lemma append_cons c (s k : string) : String.String c s +:+ k = String.String c (s +:+ k).
Proof. done. Qed.

Lemma str_length_app (s k : string) : String.length (s +:+ k) = (String.length s + String.length k)%nat.
Proof. induction s as [|c s IH]; [done|]. rewrite append_cons. cbn. f_equal. exact IH. Qed.

Lemma app_suffix_inj (k s s' : string) : s +:+ k = s' +:+ k → s = s'.
Proof.
  intros E. assert (Hl : String.length s = String.length s').
  { apply (f_equal String.length) in E. rewrite !str_length_app in E. lia. }
  revert s' E Hl. induction s as [|c s IH]; intros [|c' s'] E Hl; try done.
  rewrite !append_cons in E. injection E as -> E. f_equal. apply IH; [done|]. by injection Hl.
Qed.

Fixpoint last_char (s : string) : option Ascii.ascii :=
  match s with
  | EmptyString => None
  | String.String c s => match last_char s with Some d => Some d | None => Some c end
  end.

Lemma last_char_app s k : k ≠ "" → last_char (s +:+ k) = last_char k.
Proof.
  intros Hk. induction s as [|c s IH]; [done|]. rewrite append_cons. cbn [last_char]. rewrite IH.
  destruct k as [|d k]; [done|].
  cbn. by destruct (last_char k).
Qed.

Lemma State_End s s' : s +:+ SuffixState ≠ s' +:+ SuffixEnd.
Proof. intros E. apply (f_equal last_char) in E. by rewrite !last_char_app in E. Qed.

(** What one method does to the state piped to from [s]. *)
Definition hit (s : string) (b : bool) (m : string) : bool :=
  if bool_decide (m = s +:+ SuffixState) then true
  else if bool_decide (m = s +:+ SuffixEnd) then false else b.

Lemma effects_started e pairs s t methods b :
  pairs_ok pairs → (s, t) ∈ pairs →
  effects (started (table e pairs) methods) t b = fold_left (hit s) methods b.
Proof.
  intros [Hs Ht _] Hin. revert b. induction methods as [|m methods IH]; intros b; [done|].
  assert (Hone : ∀ s', (s', t) ∈ pairs → s' = s).
  { intros s' Hin'. apply list_elem_of_lookup in Hin as [i Hi]. apply list_elem_of_lookup in Hin' as [k Hk].
    assert (i = k) as <-; [|congruence]. apply (NoDup_lookup _ _ _ t Ht); by rewrite list_lookup_fmap, ?Hi, ?Hk. }
  assert (Hfun : ∀ t', (s, t') ∈ pairs → t' = t).
  { intros t' Hin'. apply list_elem_of_lookup in Hin as [i Hi]. apply list_elem_of_lookup in Hin' as [k Hk].
    assert (i = k) as <-; [|congruence]. apply (NoDup_lookup _ _ _ s Hs); by rewrite list_lookup_fmap, ?Hi, ?Hk. }
  assert (Hoff : ∀ s' t', (s', t') ∈ pairs → s' ≠ s → contains [t'] t = false).
  { intros s' t' Hin' Hne. apply contains_false. rewrite list_elem_of_singleton. intros ->. by apply Hne, Hone. }
  assert (Hon : contains [t] t = true) by (apply contains_true; left).
  cbn [started omap list_omap fold_left].
  destruct (list_find (λ p : string * PipeMut, p.1 = m) (table e pairs)) as [[i [m' mut]]|] eqn:Hf; cbn.
  - apply list_find_Some in Hf as (Hi & Hm & _). cbn in Hm. subst m'.
    apply list_elem_of_lookup_2, elem_of_table in Hi as (s' & t' & Hin' & Hcase).
    change (effects (started (table e pairs) methods) t (effect mut t b) = fold_left (hit s) methods (hit s b m)).
    rewrite IH. f_equal. unfold hit. destruct (decide (s' = s)) as [->|Hne].
    + apply Hfun in Hin' as ->. destruct Hcase as [[-> ->]|[-> ->]]; cbn [effect]; rewrite Hon.
      * by rewrite bool_decide_eq_true_2.
      * rewrite bool_decide_eq_false_2 by (intros E; symmetry in E; by apply State_End in E).
        by rewrite bool_decide_eq_true_2.
    + pose proof (Hoff _ _ Hin' Hne) as Ho. destruct Hcase as [[-> ->]|[-> ->]]; cbn [effect]; rewrite Ho.
      * rewrite bool_decide_eq_false_2 by (intros E; by apply app_suffix_inj in E).
        by rewrite bool_decide_eq_false_2 by (apply State_End).
      * rewrite bool_decide_eq_false_2 by (intros E; symmetry in E; by apply State_End in E).
        by rewrite bool_decide_eq_false_2 by (intros E; by apply app_suffix_inj in E).
  - apply list_find_None in Hf. rewrite Forall_forall in Hf.
    rewrite <- IH. unfold hit. rewrite !bool_decide_eq_false_2; [done| |].
    + intros ->. apply (Hf (s +:+ SuffixEnd, PipeRemove (Some e.(pe_src)) [t] e.(pe_args))); [|done].
      apply elem_of_table. exists s, t. auto.
    + intros ->. apply (Hf (s +:+ SuffixState, PipeAdd (Some e.(pe_src)) [t] e.(pe_args))); [|done].
      apply elem_of_table. exists s, t. auto.
Qed.

Lemma hits_State s l b :
  fold_left (hit s) ((λ x, x +:+ SuffixState) <$> l) b = contains l s || b.
Proof.
  revert b. induction l as [|x l IH]; intros b; [done|]. rewrite fmap_cons. cbn [fold_left].
  rewrite IH, contains_cons. unfold hit. destruct (decide (s = x)) as [->|Hne].
  - rewrite !(bool_decide_eq_true_2 (_ = _)) by done. cbn. by destruct (contains l x).
  - rewrite (bool_decide_eq_false_2 (s = x)) by done.
    rewrite bool_decide_eq_false_2 by (intros E; by apply app_suffix_inj in E).
    by rewrite bool_decide_eq_false_2 by (apply State_End).
Qed.

Lemma hits_End s l b :
  fold_left (hit s) ((λ x, x +:+ SuffixEnd) <$> l) b = negb (contains l s) && b.
Proof.
  revert b. induction l as [|x l IH]; intros b; [done|]. rewrite fmap_cons. cbn [fold_left].
  rewrite IH, contains_cons. unfold hit.
  rewrite bool_decide_eq_false_2 by (intros E; symmetry in E; by apply State_End in E).
  destruct (decide (s = x)) as [->|Hne].
  - rewrite !(bool_decide_eq_true_2 (_ = _)) by done. cbn. by rewrite andb_false_r.
  - rewrite (bool_decide_eq_false_2 (s = x)) by done.
    by rewrite bool_decide_eq_false_2 by (intros E; by apply app_suffix_inj in E).
Qed.

(** After a transition, what is pending makes the target state what the source
    state is now. *)
Lemma effects_transition e pairs s t before after exits enters :
  pairs_ok pairs → (s, t) ∈ pairs → moves before after exits enters →
  effects (started (table e pairs) (final_methods exits enters)) t (contains before s)
  = contains after s.
Proof.
  intros Hp Hin [M1 M2 M3]. rewrite (effects_started e pairs s) by done. unfold final_methods.
  rewrite !fold_left_app, hits_End, hits_State. cbn [fold_left].
  destruct (po_named _ Hp s t Hin) as (_ & Hany & _). unfold hit.
  rewrite bool_decide_eq_false_2 by (intros E; by apply app_suffix_inj in E).
  rewrite bool_decide_eq_false_2 by (apply State_End).
  apply eq_true_iff_eq. rewrite orb_true_iff, andb_true_iff, negb_true_iff, contains_false, !contains_true.
  rewrite M1. destruct (decide (s ∈ before)); destruct (decide (s ∈ after)); naive_solver.
Qed.

(** *** One state changing *)

Lemma started_one e pairs m mut :
  (m, mut) ∈ table e pairs → (∀ mut', (m, mut') ∈ table e pairs → mut' = mut) →
  started (table e pairs) [m] = [mut].
Proof.
  intros Hin Hone. unfold started. cbn [omap list_omap].
  destruct (list_find _ _) as [[i [m' mut']]|] eqn:Hf; cbn.
  - apply list_find_Some in Hf as (Hi & Hm & _). cbn in Hm. subst m'. f_equal.
    by eapply Hone, list_elem_of_lookup_2.
  - apply list_find_None in Hf. rewrite Forall_forall in Hf. by destruct (Hf (m, mut) Hin).
Qed.

Lemma started_two tbl m m' : started tbl [m; m'] = started tbl [m] ++ started tbl [m'].
Proof. apply (omap_app _ [m] [m']). Qed.

Lemma started_any e pairs : pairs_ok pairs → started (table e pairs) [StateAny +:+ SuffixState] = [].
Proof.
  intros Hp. unfold started. cbn [omap list_omap].
  destruct (list_find _ _) as [[i [m' mut']]|] eqn:Hf; [|done].
  apply list_find_Some in Hf as (Hi & Hm & _). cbn in Hm. subst m'.
  apply list_elem_of_lookup_2, elem_of_table in Hi as (s & t & Hin & [[E _]|[E _]]).
  - apply app_suffix_inj in E. destruct (po_named _ Hp s t Hin) as (_ & Hany & _). congruence.
  - by apply State_End in E.
Qed.

Lemma pairs_fun pairs s t t' : pairs_ok pairs → (s, t) ∈ pairs → (s, t') ∈ pairs → t' = t.
Proof.
  intros [Hs _ _] Hin Hin'. apply list_elem_of_lookup in Hin as [i Hi].
  apply list_elem_of_lookup in Hin' as [k Hk].
  assert (i = k) as <-; [|congruence].
  apply (NoDup_lookup _ _ _ s Hs); by rewrite list_lookup_fmap, ?Hi, ?Hk.
Qed.

Lemma started_added e pairs s t :
  pairs_ok pairs → (s, t) ∈ pairs →
  started (table e pairs) (final_methods [] [s]) = [PipeAdd (Some e.(pe_src)) [t] e.(pe_args)].
Proof.
  intros Hp Hin. change (final_methods [] [s]) with [s +:+ SuffixState; StateAny +:+ SuffixState].
  rewrite started_two, started_any, app_nil_r by done. apply started_one.
  - apply elem_of_table. exists s, t. auto.
  - intros mut' (s' & t' & Hin' & [[E ->]|[E _]])%elem_of_table; [|by apply State_End in E].
    apply app_suffix_inj in E as <-. by rewrite (pairs_fun pairs s t t').
Qed.

Lemma started_removed e pairs s t :
  pairs_ok pairs → (s, t) ∈ pairs →
  started (table e pairs) (final_methods [s] []) = [PipeRemove (Some e.(pe_src)) [t] e.(pe_args)].
Proof.
  intros Hp Hin. change (final_methods [s] []) with [s +:+ SuffixEnd; StateAny +:+ SuffixState].
  rewrite started_two, started_any, app_nil_r by done. apply started_one.
  - apply elem_of_table. exists s, t. auto.
  - intros mut' (s' & t' & Hin' & [[E _]|[E ->]])%elem_of_table; [by symmetry in E; apply State_End in E|].
    apply app_suffix_inj in E as <-. by rewrite (pairs_fun pairs s t t').
Qed.

(** *** The fields of a binding *)

Lemma StructOf_ok (fields fields' : list (string * option (PipeFn W))) :
  StructOf fields = Ok fields' → fields' = fields.
Proof. unfold StructOf. case_match; [by intros [= <-]|done]. Qed.

Lemma BindMany_ok (target : W) states targetStates b e :
  BindMany target states targetStates = Ok (inr b) →
  pairs_ok (zip states (default states targetStates)) →
  Forall2 (implements e) b.(pb_fields) (table e (zip states (default states targetStates))).
Proof.
  intros Hb [_ _ Hn]. unfold BindMany in Hb. destruct (negb _); [done|].
  apply outcome_bind_ok in Hb as (f & Hm & Hb). apply outcome_bind_ok in Hb as (f' & Hf & Hb).
  injection Hb as <-. apply StructOf_ok in Hf as ->. cbn [pb_fields].
  apply many_fields_ok; [|done]. intros s t Hin. destruct (Hn s t Hin) as (H1 & _ & H2 & H3). done.
Qed.

(** *** Steps *)

Context (pairs : list (string * string)) (b : PipeBinding W).
Hypothesis Hpairs : pairs_ok pairs.
Hypothesis Hfields : ∀ e, Forall2 (implements e) (pb_fields b) (table e pairs).

(** The target takes [n] more mutations after the pending ones, and these make it
    show the source. *)
Record piped (n : nat) (y : PipeSys W) : Prop := {
  pi_ok : pt_ok (length (ps_go y) + n) pairs.*2 (ps_target y);
  pi_muts : Forall (pipe_mut pairs.*2) (ps_go y);
  pi_effects : ∀ s t, (s, t) ∈ pairs →
    effects (ps_go y) t (pt_active (ps_target y) t) = contains (ps_source y) s;
}.

Lemma started_muts e methods : Forall (pipe_mut pairs.*2) (started (table e pairs) methods).
Proof.
  apply Forall_forall. intros mut Hm. unfold started in Hm. apply list_elem_of_omap in Hm as (m & _ & Hm).
  destruct (list_find _ _) as [[i p]|] eqn:Hf; [|done]. injection Hm as <-.
  apply list_find_Some in Hf as (Hi & _ & _). destruct p as [n mut].
  apply list_elem_of_lookup_2, elem_of_table in Hi as (s & t & Hin & Hcase).
  assert (Ht : t ∈ pairs.*2) by (apply list_elem_of_fmap; by exists (s, t)).
  destruct Hcase as [[_ ->]|[_ ->]]; cbn; (split; [apply NoDup_singleton|]);
    intros x Hx; apply list_elem_of_singleton in Hx; by subst x.
Qed.

(** How many goroutines a step starts. *)
Definition starts (y y' : PipeSys W) : nat := length (ps_go y') - length (ps_go y).

Lemma fifo_step_piped n y y' :
  fifo_step b y y' → piped (starts y y' + n) y → piped n y'.
Proof.
  intros Hst [H1 H2 H3]. destruct Hst as [y after exits enters e w go Hmv He|y mut rest r w Hgo He].
  - rewrite (call_methods_started e _ (table e pairs)) in He by done. injection He as <- <-.
    unfold starts in H1. cbn in H1. rewrite length_app in H1. split; cbn.
    + rewrite length_app. by replace (length (ps_go y) + length (started (table e pairs)
        (final_methods exits enters)) + n)%nat with (length (ps_go y) + (length (ps_go y) +
        length (started (table e pairs) (final_methods exits enters)) - length (ps_go y) + n))%nat by lia.
    + apply Forall_app_2; [done|apply started_muts].
    + intros s t Hin. rewrite effects_app, (H3 s t Hin). by eapply effects_transition.
  - rewrite Hgo in H1, H2, H3. apply Forall_cons in H2 as [Hmut Hrest]. unfold starts in H1.
    cbn in H1. rewrite Hgo in H1. cbn in H1.
    replace (length rest - S (length rest) + n)%nat with n in H1 by lia.
    destruct (pt_takes _ _ _ _ H1 Hmut) as (r' & w' & He' & Hok & Hact).
    rewrite He in He'. injection He' as <- <-. split; cbn; [done|done|].
    intros s t Hin. pose proof (H3 s t Hin) as H4. change (effects rest t (effect mut t (pt_active (ps_target y) t)) = contains (ps_source y) s) in H4. rewrite Hact by (apply list_elem_of_fmap; by exists (s, t)).
    by apply (H3 s t).
Qed.

(** A run, with the number of goroutines it starts. *)
Inductive fifo_run : nat → PipeSys W → PipeSys W → Prop :=
| fifo_refl y : fifo_run 0 y y
| fifo_cons k y y1 y2 : fifo_step b y y1 → fifo_run k y1 y2 → fifo_run (starts y y1 + k) y y2.

Lemma fifo_run_piped k n y y' : fifo_run k y y' → piped (k + n) y → piped n y'.
Proof.
  intros Hr. revert n. induction Hr as [|k y y1 y2 Hst _ IH]; intros n Hp; [done|].
  apply IH. eapply fifo_step_piped; [exact Hst|]. by rewrite Nat.add_assoc.
Qed.

(** Running all that is pending, in order. *)
Fixpoint run_all (muts : list PipeMut) : run W () :=
  match muts with
  | [] => mret ()
  | mut :: muts => pt_mutate mut ;; run_all muts
  end.

Lemma run_all_piped n y :
  piped n y → ∃ w, run_all (ps_go y) (ps_target y) = Ok ((), w)
    ∧ ∀ s t, (s, t) ∈ pairs → pt_active w t = contains (ps_source y) s.
Proof.
  destruct y as [src w go]. revert w. induction go as [|mut go IH]; intros w [H1 H2 H3]; cbn in *.
  { exists w. by split. }
  apply Forall_cons in H2 as [Hmut Hrest].
  destruct (pt_takes _ _ _ _ H1 Hmut) as (r & w1 & He & Hok & Hact).
  destruct (IH w1) as (w2 & Hr & Hw).
  - split; cbn; [done|done|]. intros s t Hin. rewrite Hact by (apply list_elem_of_fmap; by exists (s, t)).
    by apply (H3 s t).
  - exists w2. split; [|done]. unfold mbind, run_bind. by rewrite He.
Qed.

End mirror.

(** ** Machines as targets *)

Section machine.
Context (randId : Machine → string) (done : nat → bool) (bindings : list Binding).
Context (autoOrder : Machine → list string) (evals : string → prog) (fuel : nat).
Hypothesis Horder : ∀ m s, s ∈ autoOrder m ↔ is_Some (schema m !! s).
Hypothesis Hnodup : ∀ m, NoDup (autoOrder m).
Hypothesis Hfuel : (2 ≤ fuel)%nat.

Definition machine_mutate (mut : PipeMut) : run Machine Z :=
  let pq := processQueue randId done bindings autoOrder evals fuel in
  match mut with
  | PipeAdd None states args => Api.Add pq states args
  | PipeAdd (Some e) states args => Api.EvAdd pq e states args
  | PipeRemove None states args => Api.Remove pq states args
  | PipeRemove (Some e) states args => Api.EvRemove pq e states args
  | PipeSet states args => Api.Set_ pq states args
  end.

#[local] Instance machine_target : PipeTarget Machine := {
  pt_id m := m.(m_flags).(f_id);
  pt_names m := stateNames m;
  pt_is m states := Ok (Mach.Is m states);
  pt_not1 m state := Mach.Not1 m state;
  pt_local _ := true;
  pt_mutate := machine_mutate;
}.

(** States that have no relations and do not come by themselves. *)
Definition plain (m : Machine) : Prop :=
  ∀ s, let st := schema_get (schema m) s in
    st.(st_Auto) = false ∧ elems st.(st_Add) = [] ∧ elems st.(st_Require) = [] ∧ elems st.(st_Remove) = [].

(** An idle machine that takes [n] more mutations of some of its states. *)
Record takes (n : nat) (states : list string) (m : Machine) : Prop := {
  tk_drainable : drainable m;
  tk_idle : idle m;
  tk_flags : m.(m_flags).(f_backoff) = false ∧ 0 < m.(m_flags).(f_QueueLimit);
  tk_known : states ⊆ stateNames m;
  tk_plain : plain m;
  tk_ticks : queueTick m + Z.of_nat n < two64;
}.

Definition mut_type (mut : PipeMut) : MutationType :=
  match mut with PipeAdd _ _ _ => MutationAdd | PipeRemove _ _ _ => MutationRemove | PipeSet _ _ => MutationSet end.
Definition mut_states (mut : PipeMut) : list string :=
  match mut with PipeAdd _ s _ | PipeRemove _ s _ | PipeSet s _ => s end.
Definition mut_args (mut : PipeMut) : gmap string Val :=
  match mut with PipeAdd _ _ a | PipeRemove _ _ a | PipeSet _ a => a end.
Definition mut_event (mut : PipeMut) : option EventSrc :=
  match mut with PipeAdd e _ _ | PipeRemove e _ _ => e | PipeSet _ _ => None end.

(** The call gets past its guards. *)
Lemma machine_mutate_queues n piped m mut :
  takes n piped m → mut_type mut ≠ MutationSet →
  machine_mutate mut m
  = queue_process randId done bindings autoOrder evals fuel (mut_type mut) (mut_states mut)
      (mut_args mut) (mut_event mut) m.
Proof.
  intros [Hd Hi [Hb Hl] _ _ _] Hty. pose proof Hd as [[[Hdis _] _ _] _ _ _ [Hlen _] _].
  pose proof Hi as (Hq & _ & Ht).
  assert (Ho : Api.over_limit m = false).
  { unfold Api.over_limit. rewrite Hlen, Hq. apply bool_decide_eq_false_2.
    change (wrap16 (wrap32 (Z.of_nat (length (@nil Mutation))))) with 0. lia. }
  assert (Hs : ∀ states, Api.skip_remove m states = false).
  { intros states. unfold Api.skip_remove. rewrite Ht.
    rewrite (bool_decide_eq_false_2 (is_Some None)) by by apply is_Some_None. by rewrite andb_false_r. }
  destruct mut as [[e|] states args|[e|] states args|states args]; [..|done];
    cbn [machine_mutate mut_type mut_states mut_args mut_event];
    unfold Api.Add, Api.Remove, Api.EvAdd, Api.EvRemove;
    rewrite run_get_bind, Hdis; unfold Mach.Backoff; rewrite ?Hb, ?Ho, ?Hs; cbn [orb andb]; done.
Qed.

(** The states to set decide the targets, all of which are accepted. *)
Lemma plain_targets m ty states :
  named m → disposing m = false → plain m → states ⊆ stateNames m → ty ≠ mutationEval →
  let mut := newMutation ty (StatesToIndex (stateNames m) states) ∅ false false None in
  ∀ targets, targets_of m mut states = Ok targets →
  accepts mut (schema m) states targets = true ∧ ∀ x, x ∈ targets ↔ x ∈ statesToSet m ty states.
Proof.
  intros Hn Hd Hp Hk Hty mut targets Hts. unfold targets_of in Hts.
  destruct (TargetStates_plain (resolver_of m mut) (statesToSet m ty states)) as (ts & Hts' & Hin).
  - done.
  - intros s Hs. apply Hn. by apply (statesToSet_known m ty states).
  - intros s. destruct (Hp s) as (_ & E1 & E2 & E3). by split_and!.
  - change (mut_Type mut) with ty in Hts. rewrite Hts in Hts'. injection Hts' as <-. split; [|done].
    unfold accepts. cbn [mut mut_Type newMutation mut_IsAuto mut_IsCheck].
    case_bool_decide as Hr; [done|]. apply orb_true_iff. left. apply bool_decide_eq_true.
    apply elem_of_nil_inv. intros x [Hx Hno]%elem_of_StatesDiff. apply Hno, Hin.
    destruct ty; cbn; [by apply elem_of_app; left|done..].
Qed.

Lemma takes_mutate n piped m mut :
  takes (S n) piped m → pipe_mut piped mut →
  returns (machine_mutate mut) m (λ _ m', takes n piped m'
    ∧ ∀ t, t ∈ piped → contains (activeStates m') t = effect mut t (contains (activeStates m) t)).
Proof.
  intros Ht Hm. pose proof Ht as [Hd Hi Hfl Hk Hp Htk].
  assert (Hm' : mut_type mut ≠ MutationSet ∧ NoDup (mut_states mut) ∧ mut_states mut ⊆ piped)
    by by destruct mut; destruct Hm.
  destruct Hm' as (Hty & Hnd & Hsub).
  unfold returns. rewrite (machine_mutate_queues (S n) piped m mut) by done.
  assert (Hty' : mut_type mut ≠ mutationEval) by by destruct mut.
  assert (Hsub' : mut_states mut ⊆ stateNames m) by (etrans; done).
  assert (Htick : queueTick m + 1 < two64) by lia.
  destruct (queue_process_returns randId done bindings autoOrder evals Horder Hnodup fuel
    (mut_type mut) (mut_states mut) (mut_args mut) (mut_event mut) m) as (targets & Hts & Hr);
    [done..|intros s; apply (Hp s)|lia|].
  pose proof (queue_process_drains randId done bindings autoOrder evals Horder Hnodup fuel
    (mut_type mut) (mut_states mut) (mut_args mut) (mut_event mut) m
    Hty' Hd Hi Hnd Hsub' Htick Hfuel) as Hr'.
  pose proof Hd as [[[Hdis _] _ _] Hn _ _ _ _].
  destruct (plain_targets m (mut_type mut) (mut_states mut) Hn Hdis Hp Hsub' Hty' targets Hts)
    as [Hacc Hin].
  eapply returns_mono; [exact (returns_and _ _ _ _ Hr Hr')|].
  intros r m' [(_ & Hst & Hsp & Hi' & Htk') [Hd' Hfl']]. split.
  - split; [done|done|by rewrite Hfl'| | |lia].
    + unfold stateNames. by rewrite Hsp.
    + intros s. unfold schema. rewrite Hsp. apply Hp.
  - intros t _. unfold activeStates. rewrite Hst.
    assert (Hacc' : accepts (newMutation (mut_type mut) (StatesToIndex (stateNames m) (mut_states mut))
      (mut_args mut) false false None) (schema m) (mut_states mut) targets = true) by exact Hacc.
    rewrite Hacc'. fold (activeStates (setActiveStates (mut_states mut) targets m)).
    rewrite setActiveStates_active by done. apply eq_true_iff_eq. rewrite contains_true, Hin.
    destruct mut as [e states args|e states args|]; [..|done]; cbn.
    + rewrite elem_of_app, orb_true_iff, !contains_true. done.
    + rewrite elem_of_slicesFilter, andb_true_iff, !contains_true. tauto.
Qed.

#[local] Instance machine_laws : PipeTargetLaws Machine := {
  pt_active m t := contains (activeStates m) t;
  pt_ok := takes;
  pt_takes n piped m mut H1 H2 := takes_mutate n piped m mut H1 H2;
}.

(** ** Properties *)


(** Activating and deactivating a source state starts an [Add] and a [Remove] of
    the target state; when the scheduler runs the second first, nothing is left
    pending, the source state is inactive and the target state stays active. *)
Theorem pipes_reorder states targetStates m b src s t :
  let pairs := zip states (default states targetStates) in
  BindMany m states targetStates = Ok (inr b) → pairs_ok pairs → (s, t) ∈ pairs → s ∉ src →
  takes 2 pairs.*2 m →
  ∃ y, rtc (pipe_step b) (mkPipeSys src m []) y
    ∧ y.(ps_go) = [] ∧ y.(ps_source) = src ∧ contains (activeStates y.(ps_target)) t = true.
Proof.
  intros pairs Hb Hp Hin Hs Ht.
  set (e := mkPipeEvent (mkEventSrc "" "" None) ∅ []).
  assert (Hf : Forall2 (implements e) b.(pb_fields) (table e pairs))
    by (by apply (BindMany_ok m states targetStates)).
  set (add := PipeAdd (Some e.(pe_src)) [t] e.(pe_args)).
  set (rem := PipeRemove (Some e.(pe_src)) [t] e.(pe_args)).
  assert (Hpt : t ∈ pairs.*2) by (apply list_elem_of_fmap; by exists (s, t)).
  assert (Hadd : pipe_mut pairs.*2 add ∧ pipe_mut pairs.*2 rem).
  { split; (split; [apply NoDup_singleton|]); intros x Hx; apply list_elem_of_singleton in Hx; by subst x. }
  destruct (takes_mutate 1 _ m rem Ht) as (r1 & m1 & He1 & Ht1 & _); [apply Hadd|].
  destruct (takes_mutate 0 _ m1 add Ht1) as (r2 & m2 & He2 & _ & Ha2); [apply Hadd|].
  exists (mkPipeSys src m2 []). split_and!; [|done|done|].
  2:{ cbn. rewrite (Ha2 t Hpt). cbn. apply orb_true_iff. left. apply contains_true. left. }
  apply rtc_l with (mkPipeSys (s :: src) m [add]).
  { apply (pipe_transition b _ (s :: src) [] [s] e); cbn [ps_source ps_target ps_go].
    { split; intros x; [|by intros ->%list_elem_of_singleton; left|].
      - split; [by intros ?%not_elem_of_nil|]. intros [? []]. by right.
      - intros [->|?]%elem_of_cons ?; [left|done]. }
    rewrite (call_methods_started e _ (table e pairs)) by done. do 2 f_equal. by apply started_added. }
  apply rtc_l with (mkPipeSys src m [add; rem]).
  { apply (pipe_transition b (mkPipeSys (s :: src) m [add]) src [s] [] e); cbn [ps_source ps_target ps_go].
    { split; intros x; [|by intros ?%not_elem_of_nil|by intros ? []; right].
      rewrite list_elem_of_singleton, elem_of_cons. naive_solver. }
    rewrite (call_methods_started e _ (table e pairs)) by done. do 2 f_equal. cbn [app]. f_equal.
    by apply started_removed. }
  apply rtc_l with (mkPipeSys src m1 [add]).
  { by apply (pipe_run b (mkPipeSys src m [add; rem]) 1 rem r1 m1). }
  apply rtc_once. by apply (pipe_run b (mkPipeSys src m1 [add]) 0 add r2 m2).
Qed.
End machine.

(** ** Witnesses *)

(** An idle machine of two plain states. *)
Definition pipe_target : Machine :=
  mkMachine (mkFlags "target" 1000 true false false false false false false None)
    (mkSchemaPart {["A" := zeroState; "B" := zeroState]} ["A"; "B"] [] 0 true)
    (mkStatePart [] ∅ ∅) (mkQueuePart [] 1 0 0 0 false false) NewSubscriptionManager [] [] None.

Lemma pipe_target_takes n states :
  1 + Z.of_nat n < two64 → states ⊆ ["A"; "B"] → takes n states pipe_target.
Proof.
  intros Hn Hs. split; [|done|done|done| |done].
  - split; [done|apply named_check; by vm_compute|done|constructor|done|].
    split; [done|cbn; lia..|vm_compute; done].
  - intros s. unfold schema_get.
    change (schema pipe_target) with ({["A" := zeroState; "B" := zeroState]} : gmap string State).
    rewrite lookup_insert, lookup_singleton. by repeat case_decide.
Qed.

Abbreviation pipe_params f := (f (λ _, "tx") (λ _, false) [] schema_order (λ _, HEnd true) 2%nat) (only parsing).

Definition pipe_bind : outcome (string + PipeBinding Machine) :=
  @BindMany Machine (pipe_params machine_target) pipe_target ["Foo"; "Bar"] (Some ["A"; "B"]).

Lemma pipe_pairs : pairs_ok (zip ["Foo"; "Bar"] (default ["Foo"; "Bar"] (Some ["A"; "B"]))).
Proof.
  split; [compute_decide..|]. intros s t Hin. cbn in Hin. rewrite !elem_of_cons, elem_of_nil in Hin.
  destruct Hin as [[= -> ->]|[[= -> ->]|[]]]; done.
Qed.

Definition pipe_event : PipeEvent := mkPipeEvent (mkEventSrc "source" "tx1" None) ∅ [].


Example pipes_reorder_witness :
  ∃ b y, pipe_bind = Ok (inr b)
    ∧ rtc (pipe_step (W:=Machine) (H:=pipe_params machine_target) b) (mkPipeSys [] pipe_target []) y
    ∧ y.(ps_source) = [] ∧ contains (activeStates y.(ps_target)) "A" = true.
Proof.
  destruct pipe_bind as [[err|b]|msg|] eqn:Hb; [vm_compute in Hb; discriminate Hb| |vm_compute in Hb; discriminate Hb..].
  destruct (pipes_reorder (λ _, "tx") (λ _, false) [] schema_order (λ _, HEnd true) 2
    schema_order_known schema_order_nodup ltac:(lia) ["Foo"; "Bar"] (Some ["A"; "B"]) pipe_target b
    [] "Foo" "A") as (y & Hr & _ & Hs & Ha).
  - exact Hb.
  - exact pipe_pairs.
  - left.
  - apply not_elem_of_nil.
  - apply pipe_target_takes; [reflexivity|done].
  - by exists b, y.
Defined.
