(* ===== verification/Pool.v ===== *)
(** * Pools of goroutines ([pkg/machine/machine.go])

    [PoolFork] starts a goroutine for a handler unless too many of the
    handler's goroutines run already.  The state is the counters and limits;
    the answer says how many goroutines were started, which happens before the
    panic of handlers without a pool. *)

From S2P Require Import Prelude.

#[local] Open Scope Z_scope.

Record Pools := mkPools {
  po_pools : gmap string Z;
  po_limits : gmap string Z;
  po_global : Z;
  po_globalLimit : Z;
}.

Definition NewPools : Pools := mkPools ∅ ∅ 0 1000.

Definition PoolSetLimit (handlerName : string) (limit : Z) (p : Pools) : Pools :=
  mkPools (<[handlerName := 0]> p.(po_pools)) (<[handlerName := limit]> p.(po_limits))
    p.(po_global) p.(po_globalLimit).

Definition PoolSetLimitGlobal (limit : Z) (p : Pools) : Pools :=
  mkPools p.(po_pools) p.(po_limits) p.(po_global) limit.

(** [c] is [nil] without a pool; the fork of such a handler comes first. *)
Definition PoolFork (valid : bool) (name : string) (p : Pools) : Pools * nat * outcome bool :=
  if negb valid then (p, 0%nat, Ok false)
  else if bool_decide (p.(po_globalLimit) ≤ p.(po_global) + 1) && bool_decide (0 < p.(po_globalLimit))
  then (p, 0%nat, Ok false)
  else
    let unlimited := if decide (is_Some (p.(po_pools) !! name) ∧ is_Some (p.(po_limits) !! name))
                     then 0%nat else 1%nat in
    match p.(po_pools) !! name with
    | None => (p, unlimited, Panic "nil pointer dereference")
    | Some c =>
        if bool_decide (default 0 (p.(po_limits) !! name) ≤ c + 1) then (p, unlimited, Ok false)
        else (mkPools (<[name := c + 1]> p.(po_pools)) p.(po_limits) p.(po_global)
                p.(po_globalLimit), S unlimited, Ok true)
    end.

(** A pooled goroutine ends. *)
Definition pool_done (name : string) (p : Pools) : Pools :=
  mkPools (alter (λ c, c - 1) name p.(po_pools)) p.(po_limits) p.(po_global) p.(po_globalLimit).

(** ** Counting *)

(** The counters tell the goroutines that run, and stay below their limits. *)
Record pools_ok (running : gmap string nat) (p : Pools) : Prop := {
  pl_count : ∀ name c, p.(po_pools) !! name = Some c → c = Z.of_nat (default 0%nat (running !! name));
  pl_limit : ∀ name c, p.(po_pools) !! name = Some c →
    ∃ l, p.(po_limits) !! name = Some l ∧ (c = 0 ∨ c < l);
}.

Lemma PoolFork_ok running valid name p p' n b :
  pools_ok running p → PoolFork valid name p = (p', n, Ok b) →
  n = (if b then 1%nat else 0%nat)
  ∧ pools_ok (if b then <[name := S (default 0%nat (running !! name))]> running else running) p'.
Proof.
  intros [Hc Hl]. unfold PoolFork. destruct (negb valid); [by intros [= <- <- <-]|].
  destruct (_ && _); [by intros [= <- <- <-]|].
  destruct (po_pools p !! name) as [c|] eqn:Hn; [|done].
  destruct (Hl name c Hn) as (l & Hlim & Hcl).
  rewrite decide_True by (rewrite Hlim; eauto). rewrite Hlim. change (default 0 (Some l)) with l.
  case_bool_decide as Hb; intros [= <- <- <-]; [by split|]. split; [done|]. split; cbn.
  - intros name' c'. destruct (decide (name' = name)) as [->|Hne].
    + rewrite !lookup_insert_eq. intros [= <-]. pose proof (Hc name c Hn). unfold default at 1. simpl id. lia.
    + rewrite !lookup_insert_ne by done. apply Hc.
  - intros name' c'. destruct (decide (name' = name)) as [->|Hne].
    + rewrite lookup_insert_eq. intros [= <-]. exists l. split; [done|]. right. lia.
    + rewrite lookup_insert_ne by done. apply Hl.
Qed.

Lemma PoolFork_no_pool valid name p :
  p.(po_pools) !! name = None →
  PoolFork valid name p = (p, 0%nat, Ok false)
  ∨ PoolFork valid name p = (p, 1%nat, Panic "nil pointer dereference").
Proof.
  intros Hn. unfold PoolFork. destruct (negb valid); [auto|]. destruct (_ && _); [auto|].
  rewrite Hn, decide_False; [auto|]. intros [[c Hc] _]. done.
Qed.

Lemma pool_done_ok running name p n :
  pools_ok running p → running !! name = Some (S n) → pools_ok (<[name := n]> running) (pool_done name p).
Proof.
  intros [Hc Hl] Hr. split; cbn; intros name' c'.
  - destruct (decide (name' = name)) as [->|Hne].
    + rewrite lookup_alter_eq, lookup_insert_eq. intros (c & Hp & Hcc)%fmap_Some.
      specialize (Hc name c Hp). rewrite Hr in Hc. cbn in *. lia.
    + rewrite lookup_alter_ne, lookup_insert_ne by done. apply Hc.
  - destruct (decide (name' = name)) as [->|Hne].
    + rewrite lookup_alter_eq. intros (c & Hp & Hcc)%fmap_Some. destruct (Hl name c Hp) as (l & Hlim & H).
      specialize (Hc name c Hp). rewrite Hr in Hc. cbn in Hc. exists l. split; [done|]. lia.
    + rewrite lookup_alter_ne by done. apply Hl.
Qed.
