(* ===== verification/Topic.v ===== *)
(** * Topics: peers that broadcast their machines' clocks ([pkg/pubsub])

    A topic exposes machines to its peers, and keeps a network machine for each
    machine of the others.  Peers send their clocks ([MsgUpdates]), introduce
    machines ([MsgInfo]), gossip about the clocks of third ones and ask for what
    they miss.  The topic is a state machine itself: the handlers here are its
    final handlers ([...State]), with what they ask of their machine recorded in
    [tp_calls], and its negotiation handlers ([...Enter], [...Exit]).

    Network machines live in a store ([tp_heap]), since [netMachs] and
    [netMachsIntApi] share them, each with whether its clock is locked.  The maps
    of messages are lists, in the order they are ranged over; maps of the topic
    are ranged over in the order of [map_to_list].  The transport is third-party
    and left out: what arrives is a sender and a payload ([Codec] decodes it),
    what is sent is recorded.  A handler sees one instant ([now]). *)

From S2P Require Import Prelude StateList SchemaDef MachTime Mutation Relations Subscriptions Machine Queue NetMach Pool.

#[local] Open Scope Z_scope.

(** ** Messages *)

Definition MsgTypeUpdates := "updates".
Definition MsgTypeBye := "bye".
Definition MsgTypeInfo := "info".
Definition MsgTypeReqInfo := "reqinfo".
Definition MsgTypeReqUpdates := "requpdates".
Definition MsgTypeGossip := "gossip".

(** A machine's introduction; the schema is [None] where it is [nil]. *)
Record Info := mkInfo {
  inf_Id : string;
  inf_Schema : option (gmap string State);
  inf_States : list string;
  inf_MTime : list Z;
  inf_Tags : list string;
  inf_Parent : string;
}.

(** By peer and index: sums of machine times, machine times, introductions. *)
Definition PeerGossips := list (string * list (Z * Z)).
Definition MachClocks := list (Z * list Z).
Definition PeerClocks := list (string * MachClocks).
Definition MachInfo := list (Z * option Info).
Definition PeerInfo := list (string * MachInfo).

Inductive TopicMsg :=
| TmInfo (info : PeerInfo) (gossips : option PeerGossips)
| TmUpdates (clocks : PeerClocks)
| TmGossip (gossips : option PeerGossips)
| TmReqInfo (peerIds : list string)
| TmReqUpdates (peerIds : list string).

Definition msg_type (msg : TopicMsg) : string :=
  match msg with
  | TmInfo _ _ => MsgTypeInfo
  | TmUpdates _ => MsgTypeUpdates
  | TmGossip _ => MsgTypeGossip
  | TmReqInfo _ => MsgTypeReqInfo
  | TmReqUpdates _ => MsgTypeReqUpdates
  end.

(** The library that encodes messages; an error is a text. *)
Record Codec := mkCodec {
  enc : TopicMsg → string + string;
  dec_type : string → string + string;
  dec_info : string → string + (PeerInfo * option PeerGossips);
  dec_bye : string → string + ();
  dec_updates : string → string + PeerClocks;
  dec_gossip : string → string + option PeerGossips;
  dec_reqinfo : string → string + list string;
  dec_requpdates : string → string + list string;
}.

(** A message as it arrives. *)
Record PsMessage := mkPsMessage { ps_From : string; ps_Data : string }.

Record ListFilters := mkListFilters {
  lf_IdExact : string;
  lf_IdPartial : string;
  lf_IdRegexp : option (string → bool);
  lf_Parent : string;
  lf_PeerId : string;
}.

(** The arguments of the topic's mutations that its handlers read; [None] where
    a field is [nil], and the capacity of the channel for [NetMachs]. *)
Record TArgs := mkTArgs {
  a_MsgInfo : option (PeerInfo * option PeerGossips);
  a_MsgUpdates : option PeerClocks;
  a_MsgBye : option ();
  a_MsgReqInfo : option (list string);
  a_MsgReqUpdates : option (list string);
  a_Msgs : option (list (option PsMessage));
  a_Msg : string;
  a_MsgType : string;
  a_PeerId : string;
  a_PeerIds : list string;
  a_MachClocks : option MachClocks;
  a_PeersGossip : option PeerGossips;
  a_NetMachs : option nat;
  a_ListFilters : option ListFilters;
}.

(** Arguments without a value, from which the others are made. *)
Definition noArgs : TArgs :=
  mkTArgs None None None None None None "" "" "" [] None None None None.

Definition args_info (msg : PeerInfo * option PeerGossips) (peerId : string) : TArgs :=
  mkTArgs (Some msg) None None None None None "" "" peerId [] None None None None.
Definition args_updates (clocks : PeerClocks) (peerId : string) : TArgs :=
  mkTArgs None (Some clocks) None None None None "" "" peerId [] None None None None.
Definition args_bye (peerId : string) : TArgs :=
  mkTArgs None None (Some ()) None None None "" "" peerId [] None None None None.
Definition args_reqinfo (peerIds : list string) (peerId : string) : TArgs :=
  mkTArgs None None None (Some peerIds) None None "" "" peerId [] None None None None.
Definition args_requpdates (peerIds : list string) (peerId : string) : TArgs :=
  mkTArgs None None None None (Some peerIds) None "" "" peerId [] None None None None.
Definition args_msgs (msgs : list (option PsMessage)) : TArgs :=
  mkTArgs None None None None None (Some msgs) "" "" "" [] None None None None.
Definition args_send (msg ty : string) : TArgs :=
  mkTArgs None None None None None None msg ty "" [] None None None None.
Definition args_peer (peerId : string) : TArgs :=
  mkTArgs None None None None None None "" "" peerId [] None None None None.
Definition args_peers (peerIds : list string) : TArgs :=
  mkTArgs None None None None None None "" "" "" peerIds None None None None.
Definition args_clocks (clocks : MachClocks) (peerId : string) : TArgs :=
  mkTArgs None None None None None None "" "" peerId [] (Some clocks) None None None.
Definition args_gossip (gossips : option PeerGossips) (peerId : string) : TArgs :=
  mkTArgs None None None None None None "" "" peerId [] None gossips None None.

(** What handlers ask for: mutations of the topic's machine ([TcAsk] after
    checking them), sending, and work in a goroutine. *)
Inductive TopicCall :=
| TcAdd (state : string) (a : TArgs)
| TcRemove (state : string)
| TcAsk (state : string) (a : TArgs)
| TcAddErr (err : string)
| TcAddErrState (state err : string)
| TcPublish (msg : string)
| TcGo (calls : list TopicCall).

(** ** The topic *)

(** An exposed machine, with the flag of its tracer. *)
Record Exposed := mkExposed {
  ex_mach : Machine;
  ex_tags : list string;
  ex_parent : string;
  ex_dirty : bool;
}.

Record TopicConf := mkTopicConf {
  tc_self : string;
  tc_machId : string;
  tc_MaxMsgsPerWin : Z;
  tc_Multiplayer : Z;
  tc_MaxQueueLen : Z;
  tc_GossipAmount : Z;
  tc_TestSchema : option (gmap string State);
  tc_TestStates : option (list string);
}.

Record Topic := mkTopic {
  tp_conf : TopicConf;
  tp_exposed : list Exposed;
  tp_heap : list (NetMach * bool);
  tp_netMachs : gmap string (gmap Z nat);
  tp_intApi : gmap string (gmap Z nat);
  tp_info : gmap string (gmap Z Info);
  tp_missingUpdates : gmap string (gmap Z Z);
  tp_pending : gmap string (gmap Z (list Z));
  tp_missingPeers : gset string;
  tp_lastReqHello : Z;
  tp_lastReqUpdate : Z;
  tp_reqInfo : gmap string Z;
  tp_reqUpdate : gmap string Z;
  tp_msgsWin : Z;
  tp_msgsWinCount : Z;
  tp_pools : Pools;
  tp_calls : list TopicCall;
}.

Definition tp_self (t : Topic) : string := t.(tp_conf).(tc_self).
Definition known (t : Topic) (peerId : string) : bool := bool_decide (is_Some (t.(tp_netMachs) !! peerId)).
Definition missing (t : Topic) (peerId : string) : bool := bool_decide (peerId ∈ t.(tp_missingPeers)).
Definition mach_at (t : Topic) (peerId : string) (machIdx : Z) : option nat :=
  machs ← t.(tp_netMachs) !! peerId; machs !! machIdx.
Definition int_at (t : Topic) (peerId : string) (machIdx : Z) : option nat :=
  machs ← t.(tp_intApi) !! peerId; machs !! machIdx.
Definition pending_at (t : Topic) (peerId : string) (machIdx : Z) : option (list Z) :=
  machs ← t.(tp_pending) !! peerId; machs !! machIdx.
Definition missing_at (t : Topic) (peerId : string) (machIdx : Z) : option Z :=
  machs ← t.(tp_missingUpdates) !! peerId; machs !! machIdx.

Definition set_exposed (x : list Exposed) (t : Topic) : Topic :=
  mkTopic t.(tp_conf) x t.(tp_heap) t.(tp_netMachs) t.(tp_intApi) t.(tp_info) t.(tp_missingUpdates)
    t.(tp_pending) t.(tp_missingPeers) t.(tp_lastReqHello) t.(tp_lastReqUpdate) t.(tp_reqInfo)
    t.(tp_reqUpdate) t.(tp_msgsWin) t.(tp_msgsWinCount) t.(tp_pools) t.(tp_calls).
Definition set_heap (h : list (NetMach * bool)) (t : Topic) : Topic :=
  mkTopic t.(tp_conf) t.(tp_exposed) h t.(tp_netMachs) t.(tp_intApi) t.(tp_info) t.(tp_missingUpdates)
    t.(tp_pending) t.(tp_missingPeers) t.(tp_lastReqHello) t.(tp_lastReqUpdate) t.(tp_reqInfo)
    t.(tp_reqUpdate) t.(tp_msgsWin) t.(tp_msgsWinCount) t.(tp_pools) t.(tp_calls).
Definition set_machs (n i : gmap string (gmap Z nat)) (f : gmap string (gmap Z Info)) (t : Topic) : Topic :=
  mkTopic t.(tp_conf) t.(tp_exposed) t.(tp_heap) n i f t.(tp_missingUpdates)
    t.(tp_pending) t.(tp_missingPeers) t.(tp_lastReqHello) t.(tp_lastReqUpdate) t.(tp_reqInfo)
    t.(tp_reqUpdate) t.(tp_msgsWin) t.(tp_msgsWinCount) t.(tp_pools) t.(tp_calls).
Definition set_missing (u : gmap string (gmap Z Z)) (p : gmap string (gmap Z (list Z)))
    (m : gset string) (t : Topic) : Topic :=
  mkTopic t.(tp_conf) t.(tp_exposed) t.(tp_heap) t.(tp_netMachs) t.(tp_intApi) t.(tp_info) u p m
    t.(tp_lastReqHello) t.(tp_lastReqUpdate) t.(tp_reqInfo)
    t.(tp_reqUpdate) t.(tp_msgsWin) t.(tp_msgsWinCount) t.(tp_pools) t.(tp_calls).
Definition set_req (lh lu : Z) (ri ru : gmap string Z) (t : Topic) : Topic :=
  mkTopic t.(tp_conf) t.(tp_exposed) t.(tp_heap) t.(tp_netMachs) t.(tp_intApi) t.(tp_info)
    t.(tp_missingUpdates) t.(tp_pending) t.(tp_missingPeers) lh lu ri ru
    t.(tp_msgsWin) t.(tp_msgsWinCount) t.(tp_pools) t.(tp_calls).
Definition set_win (win count : Z) (t : Topic) : Topic :=
  mkTopic t.(tp_conf) t.(tp_exposed) t.(tp_heap) t.(tp_netMachs) t.(tp_intApi) t.(tp_info)
    t.(tp_missingUpdates) t.(tp_pending) t.(tp_missingPeers) t.(tp_lastReqHello) t.(tp_lastReqUpdate)
    t.(tp_reqInfo) t.(tp_reqUpdate) win count t.(tp_pools) t.(tp_calls).
Definition set_pools (p : Pools) (t : Topic) : Topic :=
  mkTopic t.(tp_conf) t.(tp_exposed) t.(tp_heap) t.(tp_netMachs) t.(tp_intApi) t.(tp_info)
    t.(tp_missingUpdates) t.(tp_pending) t.(tp_missingPeers) t.(tp_lastReqHello) t.(tp_lastReqUpdate)
    t.(tp_reqInfo) t.(tp_reqUpdate) t.(tp_msgsWin) t.(tp_msgsWinCount) p t.(tp_calls).
Definition add_calls (l : list TopicCall) (t : Topic) : Topic :=
  mkTopic t.(tp_conf) t.(tp_exposed) t.(tp_heap) t.(tp_netMachs) t.(tp_intApi) t.(tp_info)
    t.(tp_missingUpdates) t.(tp_pending) t.(tp_missingPeers) t.(tp_lastReqHello) t.(tp_lastReqUpdate)
    t.(tp_reqInfo) t.(tp_reqUpdate) t.(tp_msgsWin) t.(tp_msgsWinCount) t.(tp_pools) (t.(tp_calls) ++ l).

Definition ask (c : TopicCall) : held Topic () := hmodify (add_calls [c]).

(** [NewTopic] *)
Definition NewTopic (self machId : string) (exposed : list Exposed) (testSchema : option (gmap string State))
    (testStates : option (list string)) : Topic :=
  mkTopic (mkTopicConf self machId 10 5 10 5 testSchema testStates) exposed [] ∅ ∅ ∅ ∅ ∅ ∅ 0 0 ∅ ∅ 0 0
    (PoolSetLimitGlobal 10 NewPools) [].

(** ** Network machines of the topic *)

(** [nm.Time(nil)], which waits for the clock's lock. *)
Definition nm_time (p : nat) : held Topic (list Z) := λ t,
  match t.(tp_heap) !! p with
  | None => (t, Panic "nil pointer dereference")
  | Some (_, true) => (t, Block)
  | Some (m, false) => (t, Net.Time m None)
  end.

Definition nm_sum (p : nat) : held Topic Z :=
  l ← nm_time p; hlift (MachTime.Time.Sum l None).

Section topic.
Context (done : nat → bool) (codec : Codec).

(** [intApi.Lock()] and [intApi.UpdateClock(mtime, 0, 0)], which unlocks at its
    end: a panic leaves the lock. [None] is a [nil] internal API. *)
Definition nm_update (p : option nat) (mtime : list Z) : held Topic () := λ t,
  match p with
  | None => (t, Panic "nil pointer dereference")
  | Some p =>
      match t.(tp_heap) !! p with
      | None => (t, Panic "nil pointer dereference")
      | Some (_, true) => (t, Block)
      | Some (m, false) =>
          match updateClock done mtime 0 0 m with
          | Ok (_, m') => (set_heap (<[p := (m', false)]> t.(tp_heap)) t, Ok ())
          | Panic msg => (set_heap (<[p := (m, true)]> t.(tp_heap)) t, Panic msg)
          | Block => (set_heap (<[p := (m, true)]> t.(tp_heap)) t, Block)
          end
      end
  end.

(** ** Receiving *)

(** The buffer of messages received, flushed when full and every second. *)
Definition bufSize : nat := 50.

Definition buf_args (buf : list PsMessage) : TArgs :=
  args_msgs ((Some <$> buf) ++ replicate (bufSize - length buf) None).

(** One received message: dropped when the queue is long, kept while there is
    room.  A full buffer is flushed without keeping the message. *)
Definition receive (self : string) (maxQueueLen queueLen : Z) (buf : list PsMessage) (m : PsMessage)
  : list PsMessage * list TopicCall :=
  if bool_decide (m.(ps_From) = self) then (buf, [])
  else if bool_decide (maxQueueLen < queueLen) then (buf, [])
  else if bool_decide (length buf < bufSize)%nat then (buf ++ [m], [])
  else ([], [TcAdd "ProcessMsgs" (buf_args buf)]).

Definition receive_flush (buf : list PsMessage) : list PsMessage * list TopicCall :=
  if bool_decide (buf = []) then (buf, []) else ([], [TcAdd "ProcessMsgs" (buf_args buf)]).

(** A peer joined or left the channel; [hello] is the delayed greeting. *)
Definition peer_event (joined : bool) (peerId : string) : TopicCall :=
  TcAdd (if joined then "PeerJoined" else "PeerLeft") (args_peer peerId).

Definition hello (t : Topic) : list TopicCall :=
  if bool_decide (t.(tp_exposed) = []) then [] else [TcAdd "SendInfo" (args_peers [tp_self t])].

Definition process_msg (m : PsMessage) : held Topic () :=
  let from := m.(ps_From) in
  let data := m.(ps_Data) in
  match codec.(dec_type) data with
  | inl _ => ask (TcAdd "MsgReceived" (args_msgs [Some m]))
  | inr ty =>
      if bool_decide (ty = MsgTypeInfo) then
        match codec.(dec_info) data with
        | inr msg =>
            ask (TcAdd "MsgInfo" (args_info msg from)) ;;
            ask (TcAsk "MissPeersByGossip" (args_gossip msg.2 from)) ;;
            ask (TcAsk "MissUpdatesByGossip" (args_gossip msg.2 from))
        | inl err => ask (TcAddErr err)
        end
      else if bool_decide (ty = MsgTypeBye) then
        match codec.(dec_bye) data with
        | inr _ => ask (TcAdd "MsgBye" (args_bye from))
        | inl _ => mret ()
        end
      else if bool_decide (ty = MsgTypeUpdates) then
        match codec.(dec_updates) data with
        | inr msg => ask (TcAdd "MsgUpdates" (args_updates msg from))
        | inl err => ask (TcAddErr err)
        end
      else if bool_decide (ty = MsgTypeGossip) then
        match codec.(dec_gossip) data with
        | inr msg =>
            ask (TcAsk "MissPeersByGossip" (args_gossip msg from)) ;;
            ask (TcAsk "MissUpdatesByGossip" (args_gossip msg from))
        | inl err => ask (TcAddErr err)
        end
      else if bool_decide (ty = MsgTypeReqInfo) then
        match codec.(dec_reqinfo) data with
        | inr msg => ask (TcAsk "MsgReqInfo" (args_reqinfo msg from))
        | inl err => ask (TcAddErr err)
        end
      else if bool_decide (ty = MsgTypeReqUpdates) then
        match codec.(dec_requpdates) data with
        | inr msg => ask (TcAsk "MsgReqUpdates" (args_requpdates msg from))
        | inl err => ask (TcAddErr err)
        end
      else ask (TcAddErrState "ErrListening" ("unsupported msg type: " +:+ ty))
  end.

Definition ProcessMsgsState (a : TArgs) : held Topic () :=
  hfor (λ m : option PsMessage, match m with Some m => process_msg m | None => mret () end)
    (default [] a.(a_Msgs)).

(** ** Introductions *)

Definition MsgInfoEnter (t : Topic) (a : TArgs) : bool :=
  match a.(a_MsgInfo) with
  | None => false
  | Some (info, _) =>
      negb (bool_decide (a.(a_PeerId) = "")) &&
      existsb (λ pm : string * MachInfo,
        missing t pm.1 || negb (known t pm.1)
        || existsb (λ m : Z * option Info, negb (bool_decide (is_Some (mach_at t pm.1 m.1)))) pm.2)
        info
  end.

Definition init_peer (peerId : string) (t : Topic) : Topic :=
  if known t peerId then t
  else set_machs (<[peerId := ∅]> t.(tp_netMachs)) (<[peerId := ∅]> t.(tp_intApi))
         (<[peerId := ∅]> t.(tp_info)) t.

Definition del_pending (peerId : string) (machIdx : Z) (t : Topic) : Topic :=
  let machs := delete machIdx (default ∅ (t.(tp_pending) !! peerId)) in
  set_missing t.(tp_missingUpdates)
    (if bool_decide (machs = ∅) then delete peerId t.(tp_pending) else <[peerId := machs]> t.(tp_pending))
    t.(tp_missingPeers) t.

(** The new network machine [p], its internal API and its introduction. *)
Definition put_mach (peerId : string) (machIdx : Z) (p : nat) (info : Info) (t : Topic) : Topic :=
  set_machs (<[peerId := <[machIdx := p]> (default ∅ (t.(tp_netMachs) !! peerId))]> t.(tp_netMachs))
    (<[peerId := <[machIdx := p]> (default ∅ (t.(tp_intApi) !! peerId))]> t.(tp_intApi))
    (<[peerId := <[machIdx := info]> (default ∅ (t.(tp_info) !! peerId))]> t.(tp_info)) t.

(** The internal API is looked up before the new machine is stored. *)
Definition info_mach (randId peerId : string) (machIdx : Z) (info : option Info) : held Topic () :=
  t ← hget;
  match mach_at t peerId machIdx, info with
  | _, None => hlift (Panic "nil pointer dereference")
  | Some p, Some info =>
      new ← hlift (MachTime.Time.Sum info.(inf_MTime) None);
      old ← nm_sum p;
      if bool_decide (old < new) then nm_update (int_at t peerId machIdx) info.(inf_MTime) else mret ()
  | None, Some info =>
      let schema := match t.(tp_conf).(tc_TestSchema) with Some s => Some s | None => info.(inf_Schema) end in
      let names := default info.(inf_States) t.(tp_conf).(tc_TestStates) in
      match NewNetworkMachine ("ps-" +:+ info.(inf_Id) +:+ "-" +:+ randId) false schema names
              t.(tp_conf).(tc_machId) (Some ["pubsub-worker"; "src-id:" +:+ info.(inf_Id)]) false with
      | inl err => ask (TcAddErr err)
      | inr netMach =>
          let p := length t.(tp_heap) in
          hmodify (set_heap (t.(tp_heap) ++ [(netMach, false)])) ;;
          let intApi := int_at t peerId machIdx in
          match pending_at t peerId machIdx with
          | Some mtime =>
              nm_update intApi mtime ;;
              hmodify (del_pending peerId machIdx) ;;
              ask (TcRemove "MissPeersByUpdates")
          | None => nm_update intApi info.(inf_MTime)
          end ;;
          hmodify (put_mach peerId machIdx p info)
      end
  end.

Definition info_peer (randId : string) (pm : string * MachInfo) : held Topic () :=
  let '(peerId, machs) := pm in
  t ← hget;
  if bool_decide (peerId = tp_self t) then mret ()
  else
    hmodify (init_peer peerId) ;;
    (if missing t peerId then
       hmodify (λ t, set_missing t.(tp_missingUpdates) t.(tp_pending) (t.(tp_missingPeers) ∖ {[peerId]}) t) ;;
       ask (TcRemove "MissPeersByGossip")
     else mret ()) ;;
    hfor (λ m : Z * option Info, info_mach randId peerId m.1 m.2) machs.

(** The sender is unknown, and missing. *)
Definition confirm_sender (peerId : string) (t : Topic) : Topic :=
  if known t peerId then t
  else set_missing t.(tp_missingUpdates) t.(tp_pending) ({[peerId]} ∪ t.(tp_missingPeers)) t.

Definition MsgInfoState (randId : string) (a : TArgs) : held Topic () :=
  match a.(a_MsgInfo) with
  | None => hlift (Panic "nil pointer dereference")
  | Some (info, _) =>
      hfor (info_peer randId) info ;;
      hmodify (confirm_sender a.(a_PeerId))
  end.

(** ** Gossips *)

Definition MissPeersByGossipEnter (t : Topic) (a : TArgs) : bool :=
  match a.(a_PeersGossip) with
  | None => false
  | Some gossips =>
      existsb (λ pm : string * list (Z * Z),
        negb (bool_decide (pm.1 = tp_self t)) && negb (missing t pm.1)
        && match t.(tp_netMachs) !! pm.1 with
           | None => true
           | Some machs => negb (bool_decide (length pm.2 = size machs))
           end) gossips
  end.

Definition miss_peer (peerId : string) (t : Topic) : Topic :=
  if bool_decide (peerId = tp_self t) || missing t peerId || known t peerId then t
  else set_missing t.(tp_missingUpdates) t.(tp_pending) ({[peerId]} ∪ t.(tp_missingPeers)) t.

Definition MissPeersByGossipState (a : TArgs) : held Topic () :=
  hfor (λ pm : string * list (Z * Z), hmodify (miss_peer pm.1)) (default [] a.(a_PeersGossip)).

Definition MissPeersByGossipExit (t : Topic) : bool := bool_decide (t.(tp_missingPeers) = ∅).

(** Stops at the first gossip about a later time. *)
Fixpoint any_later (machs : gmap Z nat) (sums : list (Z * Z)) : held Topic bool :=
  match sums with
  | [] => mret false
  | (machIdx, mtime) :: sums =>
      match machs !! machIdx with
      | None => any_later machs sums
      | Some p =>
          old ← nm_sum p;
          if bool_decide (old < mtime) then mret true else any_later machs sums
      end
  end.

Fixpoint any_peer_later (gossips : PeerGossips) : held Topic bool :=
  match gossips with
  | [] => mret false
  | (peerId, sums) :: gossips =>
      t ← hget;
      match t.(tp_netMachs) !! peerId with
      | Some machs =>
          if bool_decide (peerId = tp_self t) then any_peer_later gossips
          else b ← any_later machs sums; if b : bool then mret true else any_peer_later gossips
      | None => any_peer_later gossips
      end
  end.

Definition MissUpdatesByGossipEnter (a : TArgs) : held Topic bool :=
  match a.(a_PeersGossip) with None => mret false | Some gossips => any_peer_later gossips end.

Definition put_missing (peerId : string) (machIdx mtime : Z) (t : Topic) : Topic :=
  set_missing
    (<[peerId := <[machIdx := mtime]> (default ∅ (t.(tp_missingUpdates) !! peerId))]> t.(tp_missingUpdates))
    t.(tp_pending) t.(tp_missingPeers) t.

Definition miss_update (peerId : string) (m : Z * Z) : held Topic () :=
  t ← hget;
  match mach_at t peerId m.1 with
  | None => hmodify (put_missing peerId m.1 m.2)
  | Some p =>
      old ← nm_sum p;
      if bool_decide (old < m.2) then hmodify (put_missing peerId m.1 m.2) else mret ()
  end.

Definition init_missing (peerId : string) (t : Topic) : Topic :=
  if bool_decide (is_Some (t.(tp_missingUpdates) !! peerId)) then t
  else set_missing (<[peerId := ∅]> t.(tp_missingUpdates)) t.(tp_pending) t.(tp_missingPeers) t.

Definition drop_empty_missing (peerId : string) (t : Topic) : Topic :=
  if bool_decide (default ∅ (t.(tp_missingUpdates) !! peerId) = ∅)
  then set_missing (delete peerId t.(tp_missingUpdates)) t.(tp_pending) t.(tp_missingPeers) t else t.

Definition MissUpdatesByGossipState (a : TArgs) : held Topic () :=
  hfor (λ pm : string * list (Z * Z),
    t ← hget;
    if bool_decide (pm.1 = tp_self t) || negb (known t pm.1) then mret ()
    else
      hmodify (init_missing pm.1) ;;
      hfor (miss_update pm.1) pm.2 ;;
      hmodify (drop_empty_missing pm.1)) (default [] a.(a_PeersGossip)).

Definition MissUpdatesByGossipExit (t : Topic) : bool := bool_decide (t.(tp_missingUpdates) = ∅).

(** ** Peers and sending *)

Definition PeerLeftEnter (a : TArgs) : bool := negb (bool_decide (a.(a_PeerId) = "")).
Definition PeerJoinedEnter (a : TArgs) : bool := negb (bool_decide (a.(a_PeerId) = "")).

Definition PeerJoinedState (queueLen : Z) (a : TArgs) : held Topic () :=
  ask (TcRemove "PeerJoined") ;;
  hmodify (λ t, set_missing t.(tp_missingUpdates) t.(tp_pending) ({[a.(a_PeerId)]} ∪ t.(tp_missingPeers)) t) ;;
  t ← hget;
  if bool_decide (t.(tp_conf).(tc_MaxQueueLen) < queueLen) then mret ()
  else ask (TcAdd "SendInfo" (args_peers [tp_self t])).

Definition MsgByeEnter (a : TArgs) : bool := bool_decide (is_Some a.(a_MsgBye)).
Definition MsgReceivedEnter (a : TArgs) : bool := bool_decide (is_Some a.(a_Msgs)).

(** [second]: the seconds of the wall clock's minute. *)
Definition SendMsgEnter (second : Z) (a : TArgs) : held Topic bool :=
  t ← hget;
  if bool_decide (t.(tp_conf).(tc_Multiplayer) = 0) then hlift (Panic "integer divide by zero")
  else
    let win := Z.quot second t.(tp_conf).(tc_Multiplayer) in
    let count := if bool_decide (t.(tp_msgsWin) = win) then t.(tp_msgsWinCount) else 0 in
    hmodify (set_win win (count + 1)) ;;
    mret (bool_decide (count + 1 ≤ t.(tp_conf).(tc_MaxMsgsPerWin))
          && negb (bool_decide (a.(a_Msg) = ""))).

(** [Machine.PoolFork]: the goroutines it starts are recorded, and its panic
    comes after them. *)
Definition pool_fork (valid : bool) (name : string) (calls : list TopicCall) : held Topic bool := λ t,
  let '(p, n, r) := PoolFork valid name t.(tp_pools) in
  (add_calls (replicate n (TcGo calls)) (set_pools p t), r).

Definition SendMsgState (now : Z) (valid : bool) (a : TArgs) : held Topic () :=
  (if bool_decide (a.(a_MsgType) = MsgTypeReqInfo)
   then hmodify (λ t, set_req now t.(tp_lastReqUpdate) t.(tp_reqInfo) t.(tp_reqUpdate) t)
   else if bool_decide (a.(a_MsgType) = MsgTypeReqUpdates)
   then hmodify (λ t, set_req t.(tp_lastReqHello) now t.(tp_reqInfo) t.(tp_reqUpdate) t)
   else mret ()) ;;
  pool_fork valid "SendMsgState" [TcPublish a.(a_Msg)] ;;
  mret ().

Definition SendInfoEnter (a : TArgs) : bool := negb (bool_decide (a.(a_PeerIds) = [])).

(** After a random delay. *)
Definition SendInfoState (valid : bool) (a : TArgs) : held Topic () :=
  if valid then ask (TcGo [TcAdd "DoSendInfo" (args_peers a.(a_PeerIds)); TcRemove "SendInfo"])
  else ask (TcRemove "SendInfo").

(** ** Clock updates *)

Definition MsgUpdatesEnter (a : TArgs) : bool :=
  bool_decide (is_Some a.(a_MsgUpdates)) && negb (bool_decide (a.(a_PeerId) = "")).

(** A later update makes a missing one obsolete. *)
Definition clean_missing (peerId : string) (machIdx sum : Z) (t : Topic) : Topic :=
  match missing_at t peerId machIdx with
  | Some missed =>
      if bool_decide (missed ≤ sum) then
        let machs := delete machIdx (default ∅ (t.(tp_missingUpdates) !! peerId)) in
        set_missing
          (if bool_decide (machs = ∅) then delete peerId t.(tp_missingUpdates)
           else <[peerId := machs]> t.(tp_missingUpdates)) t.(tp_pending) t.(tp_missingPeers) t
      else t
  | None => t
  end.

Definition update_mach (peerId : string) (m : Z * list Z) : held Topic () :=
  t ← hget;
  match mach_at t peerId m.1 with
  | None => mret ()
  | Some p =>
      new ← hlift (MachTime.Time.Sum m.2 None);
      old ← nm_sum p;
      (if bool_decide (old < new) then nm_update (int_at t peerId m.1) m.2 else mret ()) ;;
      hmodify (clean_missing peerId m.1 new)
  end.

Definition update_peer (pm : string * MachClocks) : held Topic () :=
  t ← hget;
  if bool_decide (pm.1 = tp_self t) then mret ()
  else if known t pm.1 then hfor (update_mach pm.1) pm.2
  else ask (TcAdd "MissPeersByUpdates" (args_clocks pm.2 pm.1)).

Definition MsgUpdatesState (a : TArgs) : held Topic () :=
  hfor update_peer (default [] a.(a_MsgUpdates)) ;;
  hmodify (confirm_sender a.(a_PeerId)).

(** Updates for peers not known yet: the later ones are kept. *)
Definition MissPeersByUpdatesEnter (a : TArgs) : bool :=
  bool_decide (is_Some a.(a_MachClocks)) && negb (bool_decide (a.(a_PeerId) = "")).

Definition merge_pending (machs : gmap Z (list Z)) (m : Z * list Z) : outcome (gmap Z (list Z)) :=
  match machs !! m.1 with
  | Some old =>
      s ← MachTime.Time.Sum m.2 None;
      s0 ← MachTime.Time.Sum old None;
      Ok (if bool_decide (s0 < s) then <[m.1 := m.2]> machs else machs)
  | None => Ok (<[m.1 := m.2]> machs)
  end.

Fixpoint merge_all (machs : gmap Z (list Z)) (l : MachClocks) : outcome (gmap Z (list Z)) :=
  match l with
  | [] => Ok machs
  | m :: l => machs ← merge_pending machs m; merge_all machs l
  end.

Definition MissPeersByUpdatesState (a : TArgs) : held Topic () :=
  t ← hget;
  let clocks := default [] a.(a_MachClocks) in
  machs ← hlift (match t.(tp_pending) !! a.(a_PeerId) with
                 | None => Ok (list_to_map clocks)
                 | Some machs => merge_all machs clocks
                 end);
  hmodify (λ t, set_missing t.(tp_missingUpdates) (<[a.(a_PeerId) := machs]> t.(tp_pending))
                  t.(tp_missingPeers) t).

Definition MissPeersByUpdatesExit (t : Topic) : bool := bool_decide (t.(tp_pending) = ∅).

(** ** Requests *)

(** [rand.Intn], on draws that can be anything. *)
Definition Intn (rnd : nat → Z) (i : nat) (n : Z) : outcome Z :=
  if bool_decide (n ≤ 0) then Panic "invalid argument to Intn" else Ok (rnd i `mod` n).

(** Only one of the peers that know a requested one answers, roughly. *)
Definition MsgReqInfoEnter (rnd : nat → Z) (t : Topic) (a : TArgs) : outcome bool :=
  match a.(a_MsgReqInfo) with
  | None => Ok false
  | Some peerIds =>
      if bool_decide (a.(a_PeerId) = "") then Ok false
      else if existsb (λ p, known t p || bool_decide (p = tp_self t)) peerIds then
        if bool_decide (size t.(tp_netMachs) = 0%nat) then Ok true
        else r ← Intn rnd 0 (Z.of_nat (size t.(tp_netMachs))); Ok (negb (bool_decide (r = 0)))
      else Ok false
  end.

Definition MsgReqInfoState (now : Z) (a : TArgs) : held Topic () :=
  t ← hget;
  match a.(a_MsgReqInfo) with
  | None => hlift (Panic "nil pointer dereference")
  | Some peerIds =>
      hfor (λ p, hmodify (λ t, set_req t.(tp_lastReqHello) t.(tp_lastReqUpdate)
                                 (<[p := now]> t.(tp_reqInfo)) t.(tp_reqUpdate) t)) peerIds ;;
      hmodify (confirm_sender a.(a_PeerId)) ;;
      ask (TcAdd "SendInfo"
        (args_peers (slicesFilter peerIds (λ p, known t p || bool_decide (p = tp_self t)))))
  end.

(** It tests the other request's field, which its messages never have. *)
Definition MsgReqUpdatesEnter (rnd : nat → Z) (t : Topic) (a : TArgs) : outcome bool :=
  match a.(a_MsgReqInfo) with
  | None => Ok false
  | Some peerIds =>
      if bool_decide (a.(a_PeerId) = "") then Ok false
      else if existsb (λ p, known t p || bool_decide (p = tp_self t)) peerIds
      then r ← Intn rnd 0 (Z.of_nat (size t.(tp_netMachs))); Ok (negb (bool_decide (r = 0)))
      else Ok false
  end.

(** The times of a peer's network machines. *)
Fixpoint machs_times (machs : list (Z * nat)) : held Topic MachClocks :=
  match machs with
  | [] => mret []
  | (i, p) :: machs => l ← nm_time p; rest ← machs_times machs; mret ((i, l) :: rest)
  end.

Definition exposed_times (t : Topic) : MachClocks :=
  imap (λ i x, (Z.of_nat i, Mach.time x.(ex_mach) None)) t.(tp_exposed).

Fixpoint collect_updates (now : Z) (peerIds : list string) (clocks : gmap string MachClocks)
  : held Topic (gmap string MachClocks) :=
  match peerIds with
  | [] => mret clocks
  | p :: peerIds =>
      t ← hget;
      let clocks := if bool_decide (p = tp_self t) then <[p := exposed_times t]> clocks else clocks in
      hmodify (λ t, set_req t.(tp_lastReqHello) t.(tp_lastReqUpdate) t.(tp_reqInfo)
                      (<[p := now]> t.(tp_reqUpdate)) t) ;;
      clocks ← (match t.(tp_netMachs) !! p with
                | Some machs => l ← machs_times (map_to_list machs); mret (<[p := l]> clocks)
                | None => mret clocks
                end);
      collect_updates now peerIds clocks
  end.

(** Encoding a message and asking for it to be sent. *)
Definition send_calls (msg : TopicMsg) : list TopicCall :=
  match codec.(enc) msg with
  | inl err => [TcAddErr err]
  | inr bytes => [TcAdd "SendMsg" (args_send bytes (msg_type msg))]
  end.

Definition MsgReqUpdatesState (now : Z) (valid : bool) (a : TArgs) : held Topic () :=
  match a.(a_MsgReqUpdates) with
  | None => hlift (Panic "nil pointer dereference")
  | Some peerIds =>
      clocks ← collect_updates now peerIds ∅;
      hmodify (confirm_sender a.(a_PeerId)) ;;
      if bool_decide (clocks = ∅) then mret ()
      else pool_fork valid "MsgReqUpdatesState" (send_calls (TmUpdates (map_to_list clocks))) ;; mret ()
  end.

(** ** Listing *)

Definition ListMachinesEnter (a : TArgs) : bool :=
  match a.(a_NetMachs) with Some capacity => bool_decide (0 < capacity)%nat | None => false end.

Definition lists (f : ListFilters) (contains_str : string → string → bool) (peerId : string)
    (m : NetMach) : bool :=
  let id := m.(nm_info).(ni_id) in
  (bool_decide (f.(lf_IdExact) = "") || bool_decide (id = f.(lf_IdExact)))
  && match f.(lf_IdRegexp) with Some re => re id | None => true end
  && (bool_decide (f.(lf_IdPartial) = "") || contains_str id f.(lf_IdPartial))
  && (bool_decide (f.(lf_PeerId) = "") || bool_decide (peerId = f.(lf_PeerId)))
  && (bool_decide (f.(lf_Parent) = "") || bool_decide (m.(nm_info).(ni_parentId) = f.(lf_Parent))).

Definition noFilters : ListFilters := mkListFilters "" "" None "" "".

(** What is sent over the channel. *)
Definition ListMachinesState (contains_str : string → string → bool) (a : TArgs)
  : held Topic (list nat) :=
  ask (TcRemove "ListMachines") ;;
  t ← hget;
  let f := default noFilters a.(a_ListFilters) in
  mret (map_to_list t.(tp_netMachs) ≫= λ pm, map_to_list pm.2 ≫= λ ip,
          match t.(tp_heap) !! ip.2 with
          | Some (m, _) => if lists f contains_str pm.1 m then [ip.2] else []
          | None => []
          end).

(** ** Heartbeat *)

(** [active] and [willBe]: the topic's own active and queued states. *)
Definition HeartbeatState (active willBe : string → bool) : held Topic () :=
  ask (TcRemove "Heartbeat") ;;
  ask (TcRemove "MissPeersByGossip") ;;
  ask (TcRemove "MissPeersByUpdates") ;;
  hfor (λ s, if active s || willBe s then mret () else ask (TcAdd s noArgs))
    ["SendGossips"; "ReqMissingUpdates"; "ReqMissingPeers"] ;;
  if active "SendUpdates" || willBe "SendUpdates" then mret ()
  else
    t ← hget;
    hmodify (set_exposed ((λ x, mkExposed x.(ex_mach) x.(ex_tags) x.(ex_parent) false) <$> t.(tp_exposed))) ;;
    ask (TcAdd "SendUpdates"
      (args_clocks (omap (λ ix : nat * Exposed, if ix.2.(ex_dirty)
         then Some (Z.of_nat ix.1, Mach.time ix.2.(ex_mach) None) else None) (imap pair t.(tp_exposed))) "")).

Definition SendUpdatesEnter (a : TArgs) : bool := negb (bool_decide (default [] a.(a_MachClocks) = [])).

Definition SendUpdatesState (valid : bool) (a : TArgs) : held Topic () :=
  t ← hget;
  (if valid then hmodify (add_calls (send_calls (TmUpdates [(tp_self t, default [] a.(a_MachClocks))])))
   else mret ()) ;;
  ask (TcRemove "SendUpdates").

Definition SendGossipsEnter (rnd : nat → Z) (t : Topic) : outcome bool :=
  if bool_decide (size t.(tp_netMachs) = 0%nat) then Ok false
  else r ← Intn rnd 0 (Z.of_nat (size t.(tp_netMachs))); Ok (bool_decide (r = 0)).

Fixpoint machs_sums (machs : list (Z * nat)) : held Topic (list (Z * Z)) :=
  match machs with
  | [] => mret []
  | (i, p) :: machs => s ← nm_sum p; rest ← machs_sums machs; mret ((i, s) :: rest)
  end.

(** Gossips about [n] random peers, the [i]-th draw first. *)
Fixpoint pick_gossips (rnd : nat → Z) (n i : nat) (acc : gmap string (list (Z * Z)))
  : held Topic (gmap string (list (Z * Z))) :=
  match n with
  | O => mret acc
  | S n =>
      t ← hget;
      let all := map_to_list t.(tp_netMachs) in
      r ← hlift (Intn rnd i (Z.of_nat (length all)));
      pm ← hlift (slice_get all r);
      let '(pid, machs) := (pm : string * gmap Z nat) in
      if bool_decide (machs = ∅) then pick_gossips rnd n (S i) acc
      else sums ← machs_sums (map_to_list machs); pick_gossips rnd n (S i) (<[pid := sums]> acc)
  end.

Definition SendGossipsState (rnd : nat → Z) (valid : bool) : held Topic () :=
  t ← hget;
  gossips ← pick_gossips rnd (Z.to_nat t.(tp_conf).(tc_GossipAmount)) 0 ∅;
  if valid then
    ask (TcGo (send_calls (TmGossip (Some (map_to_list gossips))) ++ [TcRemove "SendGossips"]))
  else ask (TcRemove "SendGossips").

(** ** Asking for what is missing *)

Definition second_ns : Z := 1000000000.
Definition reqMissFreq : Z := 5 * second_ns.

Definition ReqMissingPeersEnter (now : Z) (t : Topic) : bool :=
  negb (bool_decide (t.(tp_missingPeers) = ∅) && bool_decide (t.(tp_pending) = ∅))
  && bool_decide (reqMissFreq < now - t.(tp_lastReqHello)).

(** At most [amount] different ones of the peers, drawn [maxTries] times; the
    ones asked for recently are skipped, and the others marked. *)
Fixpoint pick_req (rnd : nat → Z) (now freq : Z) (pids : list string) (amount tries i : nat)
    (asked : gmap string Z) (req : list string) : outcome (gmap string Z * list string) :=
  match tries with
  | O => Ok (asked, req)
  | S tries =>
      if bool_decide (amount ≤ length req)%nat then Ok (asked, req)
      else
        r ← Intn rnd i (Z.of_nat (length pids));
        pid ← slice_get pids r;
        if contains req pid then pick_req rnd now freq pids amount tries (S i) asked req
        else if match asked !! pid with Some at_ => bool_decide (now - at_ < freq) | None => false end
        then pick_req rnd now freq pids amount tries (S i) asked req
        else pick_req rnd now freq pids amount tries (S i) (<[pid := now]> asked) (req ++ [pid])
  end.

Definition req_freq (t : Topic) : Z := 5 * t.(tp_conf).(tc_Multiplayer) * second_ns.

Definition ReqMissingPeersState (rnd : nat → Z) (now : Z) (valid : bool) : held Topic () :=
  t ← hget;
  let pids := elements t.(tp_missingPeers) ++ (map_to_list t.(tp_pending)).*1 in
  r ← hlift (pick_req rnd now (req_freq t) pids 5 15 0 t.(tp_reqInfo) []);
  let '(asked, req) := (r : gmap string Z * list string) in
  hmodify (λ t, set_req t.(tp_lastReqHello) t.(tp_lastReqUpdate) asked t.(tp_reqUpdate) t) ;;
  if bool_decide (req = []) then ask (TcRemove "ReqMissingPeers")
  else
    ok ← pool_fork valid "ReqMissingPeersState" (send_calls (TmReqInfo req) ++ [TcRemove "ReqMissingPeers"]);
    if ok : bool then mret () else ask (TcRemove "ReqMissingPeers").

Definition ReqMissingUpdatesEnter (now : Z) (t : Topic) : bool :=
  negb (bool_decide (t.(tp_missingUpdates) = ∅))
  && bool_decide (reqMissFreq < now - t.(tp_lastReqUpdate)).

Definition ReqMissingUpdatesState (rnd : nat → Z) (now : Z) (valid : bool) : held Topic () :=
  t ← hget;
  r ← hlift (pick_req rnd now (req_freq t) (map_to_list t.(tp_missingUpdates)).*1 5 15 0 t.(tp_reqUpdate) []);
  let '(asked, req) := (r : gmap string Z * list string) in
  hmodify (λ t, set_req t.(tp_lastReqHello) t.(tp_lastReqUpdate) t.(tp_reqInfo) asked t) ;;
  if bool_decide (req = []) || negb valid then ask (TcRemove "ReqMissingUpdates")
  else
    ok ← pool_fork valid "ReqMissingUpdatesState"
           (send_calls (TmReqUpdates req) ++ [TcRemove "ReqMissingUpdates"]);
    if ok : bool then mret () else ask (TcRemove "ReqMissingUpdates").

(** ** Introducing machines *)

Definition DoSendInfoEnter (a : TArgs) : bool := negb (bool_decide (a.(a_PeerIds) = [])).

Definition own_info (t : Topic) (x : Exposed) : Info :=
  mkInfo x.(ex_mach).(m_flags).(f_id)
    (match t.(tp_conf).(tc_TestSchema) with None => Some (schema x.(ex_mach)) | Some _ => None end)
    (match t.(tp_conf).(tc_TestStates) with None => Mach.StateNames x.(ex_mach) | Some _ => [] end)
    (Mach.time x.(ex_mach) None) x.(ex_tags) x.(ex_parent).

(** Peers that are not known are left out. *)
Definition infos (t : Topic) (peerIds : list string) : gmap string MachInfo :=
  fold_left (λ acc p,
    if bool_decide (p = tp_self t)
    then <[p := imap (λ i x, (Z.of_nat i, Some (own_info t x))) t.(tp_exposed)]> acc
    else match t.(tp_info) !! p with
         | Some machs => <[p := (λ im : Z * Info, (im.1, Some im.2)) <$> map_to_list machs]> acc
         | None => acc
         end) peerIds ∅.

Definition DoSendInfoState (rnd : nat → Z) (valid : bool) (a : TArgs) : held Topic () :=
  ask (TcRemove "DoSendInfo") ;;
  t ← hget;
  gossips ← pick_gossips rnd
    (Z.to_nat (Z.min t.(tp_conf).(tc_GossipAmount) (Z.of_nat (size t.(tp_netMachs))))) 0 ∅;
  if valid then
    hmodify (add_calls (send_calls (TmInfo (map_to_list (infos t a.(a_PeerIds)))
                                      (Some (map_to_list gossips)))))
  else mret ().

Definition netMachsCount (t : Topic) : nat := sum_list_with (λ pm, size pm.2) (map_to_list t.(tp_netMachs)).

(** ** The handlers as steps *)

(** An exposed machine ends a transition. *)
Definition TransitionEnd (i : nat) (m : Machine) (t : Topic) : Topic :=
  set_exposed (alter (λ x, mkExposed m x.(ex_tags) x.(ex_parent) true) i t.(tp_exposed)) t.

(** The mutations of the topic's machine that run handlers of this file. *)
Inductive TopicState :=
| TsProcessMsgs | TsMsgInfo | TsMissPeersByGossip | TsMissUpdatesByGossip | TsPeerJoined | TsSendMsg
| TsSendInfo | TsMsgUpdates | TsMsgReqInfo | TsMsgReqUpdates | TsMissPeersByUpdates | TsListMachines
| TsHeartbeat | TsSendUpdates | TsSendGossips | TsReqMissingPeers | TsReqMissingUpdates | TsDoSendInfo.

(** What a handler finds around it. *)
Record TopicEnv := mkTopicEnv {
  te_now : Z;
  te_second : Z;
  te_valid : bool;
  te_rnd : nat → Z;
  te_randId : string;
  te_queueLen : Z;
  te_active : string → bool;
  te_willBe : string → bool;
  te_contains : string → string → bool;
}.

(** The state's negotiation handler, where it has one. *)
Definition topic_enter (s : TopicState) (e : TopicEnv) (a : TArgs) : held Topic bool :=
  t ← hget;
  match s with
  | TsProcessMsgs | TsHeartbeat => mret true
  | TsMsgInfo => mret (MsgInfoEnter t a)
  | TsMissPeersByGossip => mret (MissPeersByGossipEnter t a)
  | TsMissUpdatesByGossip => MissUpdatesByGossipEnter a
  | TsPeerJoined => mret (PeerJoinedEnter a)
  | TsSendMsg => SendMsgEnter e.(te_second) a
  | TsSendInfo => mret (SendInfoEnter a)
  | TsMsgUpdates => mret (MsgUpdatesEnter a)
  | TsMsgReqInfo => hlift (MsgReqInfoEnter e.(te_rnd) t a)
  | TsMsgReqUpdates => hlift (MsgReqUpdatesEnter e.(te_rnd) t a)
  | TsMissPeersByUpdates => mret (MissPeersByUpdatesEnter a)
  | TsListMachines => mret (ListMachinesEnter a)
  | TsSendUpdates => mret (SendUpdatesEnter a)
  | TsSendGossips => hlift (SendGossipsEnter e.(te_rnd) t)
  | TsReqMissingPeers => mret (ReqMissingPeersEnter e.(te_now) t)
  | TsReqMissingUpdates => mret (ReqMissingUpdatesEnter e.(te_now) t)
  | TsDoSendInfo => mret (DoSendInfoEnter a)
  end.

Definition topic_state (s : TopicState) (e : TopicEnv) (a : TArgs) : held Topic () :=
  match s with
  | TsProcessMsgs => ProcessMsgsState a
  | TsMsgInfo => MsgInfoState e.(te_randId) a
  | TsMissPeersByGossip => MissPeersByGossipState a
  | TsMissUpdatesByGossip => MissUpdatesByGossipState a
  | TsPeerJoined => PeerJoinedState e.(te_queueLen) a
  | TsSendMsg => SendMsgState e.(te_now) e.(te_valid) a
  | TsSendInfo => SendInfoState e.(te_valid) a
  | TsMsgUpdates => MsgUpdatesState a
  | TsMsgReqInfo => MsgReqInfoState e.(te_now) a
  | TsMsgReqUpdates => MsgReqUpdatesState e.(te_now) e.(te_valid) a
  | TsMissPeersByUpdates => MissPeersByUpdatesState a
  | TsListMachines => ListMachinesState e.(te_contains) a ;; mret ()
  | TsHeartbeat => HeartbeatState e.(te_active) e.(te_willBe)
  | TsSendUpdates => SendUpdatesState e.(te_valid) a
  | TsSendGossips => SendGossipsState e.(te_rnd) e.(te_valid)
  | TsReqMissingPeers => ReqMissingPeersState e.(te_rnd) e.(te_now) e.(te_valid)
  | TsReqMissingUpdates => ReqMissingUpdatesState e.(te_rnd) e.(te_now) e.(te_valid)
  | TsDoSendInfo => DoSendInfoState e.(te_rnd) e.(te_valid) a
  end.

(** One mutation; what was written before a panic stays. *)
Definition topic_step (s : TopicState) (e : TopicEnv) (a : TArgs) : held Topic () :=
  b ← topic_enter s e a; if b : bool then topic_state s e a else mret ().

Inductive topic_reached (t0 : Topic) : Topic → Prop :=
| reached_new : topic_reached t0 t0
| reached_step s e a t : topic_reached t0 t → topic_reached t0 (topic_step s e a t).1
| reached_transition i m t : topic_reached t0 t → topic_reached t0 (TransitionEnd i m t).
End topic.
