(* ===== verification/Gossip.v ===== *)
(** * What topics promise

    What no topic gets to: knowing a machine of a peer
    ([topic_knows_no_machine]).  Then what the handler of clocks would do with
    known machines, which waits for that to be fixed: clocks that come in any
    order, any number of times, leave the latest one ([MsgUpdates_latest]); the
    requests for what is missing, and the limit of messages in a time window. *)

From S2P Require Import Prelude StateList SchemaDef MachTime Mutation Relations Subscriptions Machine Queue NetMach Pool Topic.

#[local] Open Scope Z_scope.

(** ** No machine of a peer *)

(** Nothing is stored for any peer, and nothing waits to be used. *)
Definition no_machs (t : Topic) : Prop :=
  ∀ peerId i, mach_at t peerId i = None ∧ int_at t peerId i = None.

Lemma no_machs_same t t' :
  t'.(tp_netMachs) = t.(tp_netMachs) → t'.(tp_intApi) = t.(tp_intApi) → no_machs t → no_machs t'.
Proof. intros H1 H2 Hn p i. unfold mach_at, int_at. rewrite H1, H2. apply Hn. Qed.

(** Code that writes neither map of network machines keeps [no_machs]. *)
Ltac keep_step :=
  match goal with
  | |- holds _ (_ ≫= _) => apply holds_bind; [|intros ?]
  | |- holds _ (mret _) => apply holds_ret
  | |- holds _ hget => apply holds_hget
  | |- holds _ (hlift _) => apply holds_hlift
  | |- holds _ (hfor _ _) => apply holds_hfor; intros ?
  | |- holds _ (ask _) => apply holds_hmodify; intros ? ?; by eapply no_machs_same
  | |- holds _ (hmodify _) =>
      let H := fresh in apply holds_hmodify; intros ? H; eapply no_machs_same; [..|exact H];
      solve [unfold clean_missing, confirm_sender, miss_peer, put_missing, init_missing,
               drop_empty_missing, del_pending; repeat case_match; done]
  | |- holds _ (match ?x with _ => _ end) => destruct x
  | |- holds _ (let '(_, _) := ?x in _) => destruct x
  end.

Ltac keep := repeat keep_step.

Section no_machs.
Context (done : nat → bool) (codec : Codec).

Lemma nm_time_no_machs p : holds no_machs (nm_time p).
Proof.
  intros t Ht. unfold nm_time. by destruct (tp_heap t !! p) as [[m []]|].
Qed.

Lemma nm_sum_no_machs p : holds no_machs (nm_sum p).
Proof. unfold nm_sum. apply holds_bind; [apply nm_time_no_machs|]. intros l. keep. Qed.

Lemma nm_update_no_machs p mtime : holds no_machs (nm_update done p mtime).
Proof.
  intros t Ht. unfold nm_update. destruct p as [p|]; [|done].
  destruct (tp_heap t !! p) as [[m []]|]; [done| |done].
  by destruct (updateClock done mtime 0 0 m) as [[]| |]; eapply no_machs_same.
Qed.

Lemma pool_fork_no_machs valid name calls : holds no_machs (pool_fork valid name calls).
Proof.
  intros t Ht. unfold pool_fork. destruct (PoolFork valid name (tp_pools t)) as [[p n] r].
  by eapply no_machs_same.
Qed.

#[local] Hint Resolve nm_time_no_machs nm_sum_no_machs nm_update_no_machs pool_fork_no_machs : core.
Ltac keep_all := repeat (first [done | solve [auto] | keep_step]).

Lemma any_later_no_machs machs sums : holds no_machs (any_later machs sums).
Proof. induction sums as [|[i s] sums IH]; cbn; keep_all. Qed.

Lemma any_peer_later_no_machs gossips : holds no_machs (any_peer_later gossips).
Proof. pose proof any_later_no_machs. induction gossips as [|[p s] gossips IH]; cbn; keep_all. Qed.

Lemma machs_times_no_machs machs : holds no_machs (machs_times machs).
Proof. induction machs as [|[i p] machs IH]; cbn; keep_all. Qed.

Lemma machs_sums_no_machs machs : holds no_machs (machs_sums machs).
Proof. induction machs as [|[i p] machs IH]; cbn; keep_all. Qed.

Lemma collect_updates_no_machs now peerIds clocks : holds no_machs (collect_updates now peerIds clocks).
Proof.
  pose proof machs_times_no_machs. revert clocks.
  induction peerIds as [|p peerIds IH]; intros clocks; cbn; keep_all.
Qed.

Lemma pick_gossips_no_machs rnd n i acc : holds no_machs (pick_gossips rnd n i acc).
Proof.
  pose proof machs_sums_no_machs. revert i acc.
  induction n as [|n IH]; intros i acc; cbn; keep_all.
Qed.

Lemma init_peer_no_machs peerId t : no_machs t → no_machs (init_peer peerId t).
Proof.
  intros Ht p i. unfold init_peer. destruct (known t peerId); [apply Ht|].
  destruct (Ht p i) as [H1 H2]. unfold mach_at, int_at in *. cbn.
  destruct (decide (p = peerId)) as [->|Hne]; [by rewrite !lookup_insert_eq|].
  by rewrite !lookup_insert_ne by done.
Qed.

(** A new machine's internal API is [nil] when it is used. *)
Lemma nm_update_none mtime t : nm_update done None mtime t = (t, Panic "nil pointer dereference").
Proof. done. Qed.

(** A schema that a network machine takes. *)
Definition schema_fits (c : TopicConf) (info : Info) : Prop :=
  match (match c.(tc_TestSchema) with Some s => Some s | None => info.(inf_Schema) end) with
  | Some s => size s = length (default info.(inf_States) c.(tc_TestStates))
  | None => True
  end.

Lemma new_mach_fits id c info parent tags :
  schema_fits c info →
  ∃ m, NewNetworkMachine id false
    (match c.(tc_TestSchema) with Some s => Some s | None => info.(inf_Schema) end)
    (default info.(inf_States) c.(tc_TestStates)) parent tags false = inr m.
Proof.
  unfold schema_fits, NewNetworkMachine. destruct (match tc_TestSchema c with Some s => _ | None => _ end) as [s|].
  - intros ->. rewrite bool_decide_eq_true_2 by done. by eexists.
  - by eexists.
Qed.

Lemma info_mach_panics randId peerId i info t :
  no_machs t → schema_fits t.(tp_conf) info →
  ∃ t', info_mach done randId peerId i (Some info) t = (t', Panic "nil pointer dereference").
Proof.
  intros Ht Hs. unfold info_mach. rewrite held_get_bind. destruct (Ht peerId i) as [E1 E2]. rewrite E1.
  edestruct new_mach_fits as [m Hm]; [exact Hs|]. rewrite Hm, held_modify_bind, E2.
  destruct (pending_at t peerId i) as [mtime|]; [|by erewrite held_panic_bind by done; eexists].
  set (e := nm_update done None mtime ≫= _). set (t' := set_heap _ _). exists t'.
  assert (He : e t' = (t', Panic "nil pointer dereference")) by by apply held_panic_bind.
  by rewrite (held_panic_bind e _ _ _ _ He).
Qed.

Lemma info_mach_no_machs randId peerId i info : holds no_machs (info_mach done randId peerId i info).
Proof.
  intros t Ht. pose proof (nm_update_no_machs None) as Hu. destruct (Ht peerId i) as [E1 E2].
  unfold info_mach. rewrite held_get_bind, E1. destruct info as [info|]; [|exact Ht].
  destruct (NewNetworkMachine _ _ _ _ _ _ _) as [err|m]; [by eapply no_machs_same|].
  rewrite held_modify_bind, E2. set (t' := set_heap _ _).
  assert (Ht' : no_machs t') by by eapply no_machs_same.
  destruct (pending_at t peerId i) as [mtime|].
  - set (e := nm_update done None mtime ≫= _).
    assert (He : e t' = (t', Panic "nil pointer dereference")) by by apply held_panic_bind.
    by rewrite (held_panic_bind e _ _ _ _ He).
  - by erewrite held_panic_bind by done.
Qed.

Lemma process_msg_no_machs m : holds no_machs (process_msg codec m).
Proof. unfold process_msg. keep_all. Qed.

Lemma info_peer_no_machs randId pm : holds no_machs (info_peer done randId pm).
Proof.
  unfold info_peer. destruct pm as [p machs]. pose proof info_mach_no_machs.
  apply holds_bind; [apply holds_hget|]. intros t. destruct (bool_decide _); [apply holds_ret|].
  apply holds_bind; [apply holds_hmodify, init_peer_no_machs|]. intros _. keep_all.
Qed.

Lemma topic_enter_no_machs s e a : holds no_machs (topic_enter s e a).
Proof.
  pose proof any_peer_later_no_machs. unfold topic_enter, MissUpdatesByGossipEnter, SendMsgEnter.
  apply holds_bind; [apply holds_hget|intros t]. destruct s; keep_all.
Qed.

Lemma update_peer_no_machs pm : holds no_machs (update_peer done pm).
Proof. unfold update_peer, update_mach. keep_all. Qed.

Lemma topic_state_no_machs s e a : holds no_machs (topic_state done codec s e a).
Proof.
  pose proof process_msg_no_machs. pose proof info_peer_no_machs. pose proof update_peer_no_machs.
  pose proof collect_updates_no_machs. pose proof pick_gossips_no_machs.
  destruct s; cbn;
    unfold ProcessMsgsState, MsgInfoState, MissPeersByGossipState, MissUpdatesByGossipState, miss_update,
      PeerJoinedState, SendMsgState, SendInfoState, MsgUpdatesState, MsgReqInfoState, MsgReqUpdatesState,
      MissPeersByUpdatesState, ListMachinesState, HeartbeatState, SendUpdatesState, SendGossipsState,
      ReqMissingPeersState, ReqMissingUpdatesState, DoSendInfoState; keep_all.
Qed.

Lemma topic_step_no_machs s e a : holds no_machs (topic_step done codec s e a).
Proof.
  pose proof topic_enter_no_machs. pose proof topic_state_no_machs. unfold topic_step. keep_all.
Qed.

Lemma topic_reached_no_machs t0 t : no_machs t0 → topic_reached done codec t0 t → no_machs t.
Proof.
  intros H0. induction 1 as [|s e a t _ IH|i m t _ IH]; [done|by apply topic_step_no_machs|].
  by eapply no_machs_same.
Qed.

(** Introducing a machine the way peers do. *)
Lemma MsgInfo_panics randId from t peerId i info machs peers gossips :
  no_machs t → peerId ≠ tp_self t → schema_fits t.(tp_conf) info →
  (MsgInfoState done randId
    (args_info ((peerId, (i, Some info) :: machs) :: peers, gossips) from) t).2
  = Panic "nil pointer dereference".
Proof.
  intros Ht Hne Hs. unfold MsgInfoState. cbn [a_MsgInfo args_info hfor].
  set (e1 := info_peer done randId _).
  assert (∃ t', e1 t = (t', Panic "nil pointer dereference")) as (t' & He1).
  { unfold e1, info_peer. rewrite held_get_bind, bool_decide_eq_false_2 by done. rewrite held_modify_bind.
    set (t1 := init_peer peerId t). assert (H1 : no_machs t1) by by apply init_peer_no_machs.
    assert (Hc : tp_conf t1 = tp_conf t) by (unfold t1, init_peer; by destruct (known t peerId)).
    set (e2 := if missing t peerId then _ else _).
    assert (∃ t2, e2 t1 = (t2, Ok ()) ∧ no_machs t2 ∧ tp_conf t2 = tp_conf t) as (t2 & He2 & H2 & Hc2).
    { unfold e2. destruct (missing t peerId); [|by exists t1]. eexists. split; [reflexivity|].
      split; [by eapply no_machs_same|done]. }
    rewrite (held_ok_bind e2 () _ _ _ He2). cbn [hfor fst snd].
    destruct (info_mach_panics randId peerId i info t2 H2) as [t3 He3]; [by rewrite Hc2|].
    exists t3. by apply held_panic_bind. }
  by rewrite (held_panic_bind (_ ≫= _) _ _ _ t' (held_panic_bind e1 _ _ _ _ He1)).
Qed.
End no_machs.

(** ** The latest clock *)

(** A later clock replaces an earlier one. *)
Definition later (old new : list Z) : list Z :=
  if bool_decide (time_sum old < time_sum new) then new else old.

Definition latest (l : list (list Z)) (t0 : list Z) : list Z := fold_left later l t0.

Lemma latest_max l t0 :
  (latest l t0 = t0 ∨ latest l t0 ∈ l)
  ∧ time_sum t0 ≤ time_sum (latest l t0) ∧ ∀ x, x ∈ l → time_sum x ≤ time_sum (latest l t0).
Proof.
  revert t0. induction l as [|y l IH]; intros t0; cbn -[time_sum].
  { split_and!; [by left|lia|]. by intros x ?%not_elem_of_nil. }
  destruct (IH (later t0 y)) as (H1 & H2 & H3). unfold latest in *.
  assert (Hl : (later t0 y = t0 ∨ later t0 y = y) ∧ time_sum t0 ≤ time_sum (later t0 y)
    ∧ time_sum y ≤ time_sum (later t0 y)).
  { unfold later. case_bool_decide; split_and!; auto; lia. }
  destruct Hl as (Hl1 & Hl2 & Hl3). split_and!; [|lia|].
  - destruct H1 as [->|H1]; [|right; by right]. destruct Hl1 as [->| ->]; [by left|right; by left].
  - intros x [->|Hx]%elem_of_cons; [lia|auto].
Qed.

(** Any order and repetition of the same clocks ends with the same one. *)
Lemma latest_set l l' t0 :
  (∀ x y, x ∈ t0 :: l → y ∈ t0 :: l → time_sum x = time_sum y → x = y) → (∀ x, x ∈ l ↔ x ∈ l') →
  latest l t0 = latest l' t0.
Proof.
  intros Hinj Hs. destruct (latest_max l t0) as (A1 & A2 & A3). destruct (latest_max l' t0) as (B1 & B2 & B3).
  assert (HA : latest l t0 ∈ t0 :: l) by (destruct A1 as [->|]; [left|by right]).
  assert (HB : latest l' t0 ∈ t0 :: l) by (destruct B1 as [->|HB]; [left|right; by apply Hs]).
  apply Hinj; [done|done|]. apply Z.le_antisymm.
  - apply elem_of_cons in HA as [->|HA]; [done|]. by apply B3, Hs.
  - apply elem_of_cons in HB as [->|HB]; [done|]. by apply A3.
Qed.

(** A network machine nobody waits for. *)
Record mach_good (m : NetMach) : Prop := {
  mg_waits : waitless m.(nm_subs);
  mg_closed : NoDup m.(nm_closed);
  mg_names : NoDup m.(nm_stateNames);
  mg_agrees : clock_agrees m;
}.

Lemma Time_good m : mach_good m → Net.Time m None = Ok (machTime m).
Proof.
  intros [_ _ Hnd [Hl _]]. unfold Net.Time, Net.time, Net.StateNames. cbn [default].
  change (default (nm_stateNames m) None) with (nm_stateNames m).
  apply mapM_ok_Forall2. apply Forall2_same_length_lookup. split; [by rewrite Hl|].
  intros i s v Hs Hv. unfold Net.Index1, Net.StateNames. erewrite index_of_lookup by done.
  by apply slice_get_nat.
Qed.

Lemma updateClock_good done now m :
  mach_good m → length now = length m.(nm_stateNames) →
  ∃ m', updateClock done now 0 0 m = Ok ((), m') ∧ mach_good m' ∧ machTime m' = now
    ∧ m'.(nm_stateNames) = m.(nm_stateNames).
Proof.
  intros [Hw Hc Hnd Ha] Hl. destruct (updateClock_returns done now 0 0 m Hl Hw Hc) as (m' & He & Hw' & Hc').
  pose proof (updateClock_updated done now 0 0 m m' Ha Hnd Hl He) as [U1 _ _ U2 U3 _ _ _].
  exists m'. split_and!; [done| |done|done]. split; [done|done|by rewrite U3|done].
Qed.

(** Every network machine is unlocked, well formed and stored once. *)
Record topic_good (t : Topic) : Prop := {
  tg_int : ∀ peerId i p, mach_at t peerId i = Some p → int_at t peerId i = Some p;
  tg_heap : ∀ peerId i p, mach_at t peerId i = Some p →
    ∃ m, t.(tp_heap) !! p = Some (m, false) ∧ mach_good m;
  tg_inj : ∀ peerId i peerId' i' p, mach_at t peerId i = Some p → mach_at t peerId' i' = Some p →
    peerId' = peerId ∧ i' = i;
}.

Definition at_mach {A} (f : NetMach → A) (t : Topic) (peerId : string) (i : Z) : option A :=
  p ← mach_at t peerId i; mb ← t.(tp_heap) !! p; Some (f mb.1).

Abbreviation time_at := (at_mach machTime).
Abbreviation names_at := (at_mach nm_stateNames).

(** A clock has a tick for each of the machine's states. *)
Definition clock_fits (t : Topic) (peerId : string) (m : Z * list Z) : Prop :=
  ∀ names, names_at t peerId m.1 = Some names → length m.2 = length names.

Record same_nets (t t' : Topic) : Prop := {
  sn_conf : t'.(tp_conf) = t.(tp_conf);
  sn_machs : ∀ peerId i, mach_at t' peerId i = mach_at t peerId i;
  sn_known : ∀ peerId, known t' peerId = known t peerId;
  sn_names : ∀ peerId i, names_at t' peerId i = names_at t peerId i;
}.

Lemma same_nets_trans t1 t2 t3 : same_nets t1 t2 → same_nets t2 t3 → same_nets t1 t3.
Proof. intros [A1 A2 A3 A4] [B1 B2 B3 B4]. split; intros; congruence. Qed.

Section latest.
Context (done : nat → bool).

Lemma good_mach t peerId i p :
  topic_good t → mach_at t peerId i = Some p →
  ∃ m, t.(tp_heap) !! p = Some (m, false) ∧ mach_good m
    ∧ ∀ A (f : NetMach → A), at_mach f t peerId i = Some (f m).
Proof.
  intros Ht Hp. destruct (tg_heap _ Ht _ _ _ Hp) as (m & Hm & Hg). exists m. split_and!; [done..|].
  intros A f. unfold at_mach. rewrite Hp. cbn. by rewrite Hm.
Qed.

(** Writing a machine where one is stored. *)
Lemma put_good t peerId i p m m' :
  topic_good t → mach_at t peerId i = Some p → t.(tp_heap) !! p = Some (m, false) → mach_good m' →
  m'.(nm_stateNames) = m.(nm_stateNames) →
  let t' := set_heap (<[p := (m', false)]> t.(tp_heap)) t in
  same_nets t t' ∧ topic_good t' ∧ ∀ peerId' i',
    time_at t' peerId' i' = if decide (peerId' = peerId ∧ i' = i) then Some (machTime m') else time_at t peerId' i'.
Proof.
  intros Ht Hp Hm Hg Hn t'. pose proof Ht as [Hi Hh Hinj].
  assert (Hlt : (p < length (tp_heap t))%nat) by by eapply lookup_lt_Some.
  assert (Hat : ∀ A (f : NetMach → A) peerId' i', at_mach f t' peerId' i'
    = if decide (peerId' = peerId ∧ i' = i) then Some (f m') else at_mach f t peerId' i').
  { intros A f peerId' i'. unfold at_mach. change (mach_at t' peerId' i') with (mach_at t peerId' i').
    destruct (decide (peerId' = peerId ∧ i' = i)) as [[-> ->]|Hne].
    - rewrite Hp. cbn. by rewrite list_lookup_insert_eq by done.
    - destruct (mach_at t peerId' i') as [p'|] eqn:Hp'; [|done]. cbn.
      rewrite list_lookup_insert_ne; [done|]. intros <-. apply Hne. by eapply Hinj. }
  split_and!.
  - split; [done|done|done|]. intros peerId' i'. rewrite Hat. case_decide as Hd; [|done]. destruct Hd as [-> ->].
    unfold at_mach. rewrite Hp. cbn. by rewrite Hm, Hn.
  - split; [exact Hi| |exact Hinj]. intros peerId' i' p' Hp'. cbn. destruct (decide (p' = p)) as [->|Hne].
    + rewrite list_lookup_insert_eq by done. by eexists.
    + rewrite list_lookup_insert_ne by done. by apply (Hh peerId' i').
  - apply Hat.
Qed.

Lemma same_nets_missing u q s t : same_nets t (set_missing u q s t).
Proof. by split. Qed.

Lemma topic_good_nets t t' :
  t'.(tp_heap) = t.(tp_heap) → t'.(tp_netMachs) = t.(tp_netMachs) → t'.(tp_intApi) = t.(tp_intApi) →
  topic_good t → topic_good t'.
Proof.
  intros H1 H2 H3 [G1 G2 G3]. split; unfold mach_at, int_at in *; rewrite ?H1, ?H2, ?H3; done.
Qed.

(** Handlers that write no network machine. *)
Lemma unchanged t t' :
  t'.(tp_conf) = t.(tp_conf) → t'.(tp_heap) = t.(tp_heap) → t'.(tp_netMachs) = t.(tp_netMachs) →
  t'.(tp_intApi) = t.(tp_intApi) →
  same_nets t t' ∧ (topic_good t → topic_good t') ∧ ∀ peerId i, time_at t' peerId i = time_at t peerId i.
Proof.
  intros H1 H2 H3 H4. split_and!.
  - split; intros; unfold at_mach, mach_at, known in *; by rewrite ?H1, ?H2, ?H3.
  - by apply topic_good_nets.
  - intros. unfold at_mach, mach_at. by rewrite H2, H3.
Qed.

Lemma clean_missing_unchanged peerId i s t :
  let t' := clean_missing peerId i s t in
  same_nets t t' ∧ (topic_good t → topic_good t') ∧ ∀ peerId i, time_at t' peerId i = time_at t peerId i.
Proof. cbn. apply unchanged; unfold clean_missing; by repeat case_match. Qed.

Lemma update_mach_good peerId m t :
  topic_good t → clock_fits t peerId m →
  ends (update_mach done peerId m) t (λ _ t', same_nets t t' ∧ topic_good t' ∧ ∀ peerId' i',
    time_at t' peerId' i' = if decide (peerId' = peerId ∧ i' = m.1) then (λ old, later old m.2) <$> time_at t peerId' i'
                            else time_at t peerId' i').
Proof.
  intros Ht Hf. unfold update_mach, ends. rewrite held_get_bind.
  destruct (mach_at t peerId m.1) as [p|] eqn:Hp.
  2:{ exists (), t. split; [done|]. split_and!; [by split|done|]. intros peerId' i'. case_decide as Hd; [|done].
      destruct Hd as [-> ->]. unfold at_mach. by rewrite Hp. }
  destruct (good_mach t peerId m.1 p Ht Hp) as (nm & Hm & Hg & Hat).
  rewrite (held_lift_bind _ (time_sum m.2)) by done.
  assert (Hs : nm_sum p t = (t, Ok (time_sum (machTime nm)))).
  { unfold nm_sum, nm_time, mbind, held_bind. rewrite Hm. by rewrite Time_good. }
  rewrite (held_ok_bind _ _ _ _ _ Hs). rewrite (tg_int _ Ht _ _ _ Hp).
  set (e := if bool_decide _ then _ else _).
  assert (∃ t1, e t = (t1, Ok ()) ∧ same_nets t t1 ∧ topic_good t1 ∧ ∀ peerId' i',
    time_at t1 peerId' i' = if decide (peerId' = peerId ∧ i' = m.1)
      then Some (later (machTime nm) m.2) else time_at t peerId' i') as (t1 & He & Hn & Hg1 & Hat1).
  { unfold e, later. case_bool_decide as Hlt.
    - destruct (updateClock_good done m.2 nm Hg) as (nm' & Hu & Hg' & Htime & Hnames).
      { apply Hf. apply Hat. }
      exists (set_heap (<[p := (nm', false)]> t.(tp_heap)) t). split.
      { unfold nm_update. by rewrite Hm, Hu. }
      destruct (put_good t peerId m.1 p nm nm' Ht Hp Hm Hg' Hnames) as (A1 & A2 & A3).
      split_and!; [done..|]. intros. rewrite A3. by rewrite Htime.
    - exists t. split_and!; [done|by split|done|]. intros peerId' i'. case_decide as Hd; [|done].
      destruct Hd as [-> ->]. apply Hat. }
  rewrite (held_ok_bind _ _ _ _ _ He).
  destruct (clean_missing_unchanged peerId m.1 (time_sum m.2) t1) as (B1 & B2 & B3).
  exists (), (clean_missing peerId m.1 (time_sum m.2) t1). split; [done|]. split_and!.
  - by eapply same_nets_trans.
  - by apply B2.
  - intros peerId' i'. rewrite B3, Hat1. case_decide as Hd; [|done]. destruct Hd as [-> ->].
    by rewrite Hat.
Qed.

(** The clocks a message has for one machine. *)
Definition of_mach (i : Z) (machs : MachClocks) : list (list Z) :=
  machs ≫= λ m, if decide (m.1 = i) then [m.2] else [].

Definition of_peer (self peerId : string) (i : Z) (clocks : PeerClocks) : list (list Z) :=
  clocks ≫= λ pm, if decide (pm.1 = peerId ∧ pm.1 ≠ self) then of_mach i pm.2 else [].

Definition received (self peerId : string) (i : Z) (msgs : list TArgs) : list (list Z) :=
  msgs ≫= λ a, of_peer self peerId i (default [] a.(a_MsgUpdates)).

(** Each machine moves to the latest of its clocks in [l]. *)
Definition takes_latest (t t' : Topic) (l : string → Z → list (list Z)) : Prop :=
  same_nets t t' ∧ topic_good t' ∧ ∀ peerId i, time_at t' peerId i = latest (l peerId i) <$> time_at t peerId i.

Lemma takes_latest_nil t : topic_good t → takes_latest t t (λ _ _, []).
Proof.
  intros Ht. split_and!; [by split|done|]. intros. by destruct (time_at t peerId i).
Qed.

Lemma takes_latest_app t t1 t2 l1 l2 :
  takes_latest t t1 l1 → takes_latest t1 t2 l2 → takes_latest t t2 (λ p i, l1 p i ++ l2 p i).
Proof.
  intros (A1 & A2 & A3) (B1 & B2 & B3). split_and!; [by eapply same_nets_trans|done|].
  intros p i. rewrite B3, A3. destruct (time_at t p i); [|done]. cbn. f_equal.
  unfold latest. by rewrite fold_left_app.
Qed.

Lemma takes_latest_ext t t' l l' :
  (∀ p i, is_Some (mach_at t p i) → l p i = l' p i) → takes_latest t t' l → takes_latest t t' l'.
Proof.
  intros He (A1 & A2 & A3). split_and!; [done..|]. intros p i. rewrite A3.
  destruct (time_at t p i) as [x|] eqn:Hx; [|done]. rewrite He; [done|]. unfold at_mach in Hx.
  destruct (mach_at t p i); [done|]. done.
Qed.

Lemma takes_latest_unchanged t t' :
  t'.(tp_conf) = t.(tp_conf) → t'.(tp_heap) = t.(tp_heap) → t'.(tp_netMachs) = t.(tp_netMachs) →
  t'.(tp_intApi) = t.(tp_intApi) → topic_good t → takes_latest t t' (λ _ _, []).
Proof.
  intros H1 H2 H3 H4 Ht. destruct (unchanged t t' H1 H2 H3 H4) as (A1 & A2 & A3).
  split_and!; [done|auto|]. intros. rewrite A3. by destruct (time_at t peerId i).
Qed.

(** Running a loop of such steps. *)
Lemma hfor_latest {X} (f : X → held Topic ()) (l : X → string → Z → list (list Z)) (fits : Topic → X → Prop) xs t :
  (∀ x t, topic_good t → fits t x → ends (f x) t (λ _ t', takes_latest t t' (l x))) →
  (∀ x t t', same_nets t t' → fits t x → fits t' x) →
  topic_good t → (∀ x, x ∈ xs → fits t x) →
  ends (hfor f xs) t (λ _ t', takes_latest t t' (λ p i, xs ≫= λ x, l x p i)).
Proof.
  intros Hf Hfits. revert t. induction xs as [|x xs IH]; intros t Ht Hx; cbn [hfor].
  { apply ends_ret. by apply takes_latest_nil. }
  apply ends_bind. eapply ends_mono; [apply Hf; [done|apply Hx; left]|].
  intros [] t1 H1. pose proof H1 as (A1 & A2 & _). eapply ends_mono; [apply IH; [done|]|].
  - intros y Hy. eapply Hfits; [done|]. apply Hx. by right.
  - intros [] t2 H2. by apply (takes_latest_app t t1 t2 (l x) _ H1 H2).
Qed.

Lemma clock_fits_same peerId m t t' : same_nets t t' → clock_fits t peerId m → clock_fits t' peerId m.
Proof. intros [_ _ _ Hn] Hf names Hnm. apply Hf. by rewrite <- Hn. Qed.

Definition peer_fits (t : Topic) (pm : string * MachClocks) : Prop := ∀ m, m ∈ pm.2 → clock_fits t pm.1 m.

Lemma update_peer_latest pm t :
  topic_good t → peer_fits t pm →
  ends (update_peer done pm) t (λ _ t', takes_latest t t' (λ p i,
    if decide (pm.1 = p ∧ pm.1 ≠ tp_self t) then of_mach i pm.2 else [])).
Proof.
  intros Ht Hf. unfold update_peer, ends. rewrite held_get_bind. case_bool_decide as Hself.
  { exists (), t. split; [done|]. eapply takes_latest_ext; [|by apply takes_latest_nil].
    intros p i _. cbn. by rewrite decide_False by naive_solver. }
  destruct (known t pm.1) eqn:Hk.
  - eapply ends_mono.
    { apply (hfor_latest (update_mach done pm.1)
        (λ m p i, if decide (pm.1 = p ∧ m.1 = i) then [m.2] else []) (λ t, clock_fits t pm.1)).
      - intros m t1 Ht1 Hm. eapply ends_mono; [by apply update_mach_good|].
        intros [] t2 (A1 & A2 & A3). split_and!; [done..|]. intros p i. rewrite A3.
        case_decide as Hd.
        + destruct Hd as [-> ->]. by rewrite decide_True.
        + rewrite decide_False by naive_solver. by destruct (time_at t1 p i).
      - intros m t1 t2. apply clock_fits_same.
      - done.
      - exact Hf. }
    intros [] t' H'. eapply takes_latest_ext; [|exact H']. intros p i _. cbn. unfold of_mach.
    destruct (decide (pm.1 = p)) as [<-|Hne].
    + rewrite (decide_True _ _ (conj eq_refl Hself)). apply list_bind_ext; [|done]. intros m.
      destruct (decide (m.1 = i)); [by rewrite decide_True|by rewrite decide_False by naive_solver].
    + rewrite (decide_False _ _ (λ H, Hne (proj1 H))).
      apply elem_of_nil_inv. intros x (m & Hx & _)%list_elem_of_bind.
      rewrite decide_False in Hx by naive_solver. by apply not_elem_of_nil in Hx.
  - exists (), (add_calls [TcAdd "MissPeersByUpdates" (args_clocks pm.2 pm.1)] t). split; [done|].
    eapply takes_latest_ext; [|by apply takes_latest_unchanged].
    intros p i [q Hq]. cbn. rewrite decide_False; [done|]. intros [<- _].
    unfold known in Hk. apply bool_decide_eq_false in Hk. apply Hk. unfold mach_at in Hq.
    destruct (tp_netMachs t !! pm.1); [done|]. done.
Qed.

Definition msg_fits (t : Topic) (a : TArgs) : Prop := ∀ pm, pm ∈ default [] a.(a_MsgUpdates) → peer_fits t pm.

Lemma MsgUpdates_takes_latest a t :
  topic_good t → msg_fits t a →
  ends (MsgUpdatesState done a) t (λ _ t', takes_latest t t' (λ p i,
    of_peer (tp_self t) p i (default [] a.(a_MsgUpdates)))).
Proof.
  intros Ht Hf. unfold MsgUpdatesState. apply ends_bind. eapply ends_mono.
  { apply (hfor_latest (update_peer done)
      (λ pm p i, if decide (pm.1 = p ∧ pm.1 ≠ tp_self t) then of_mach i pm.2 else [])
      (λ t' pm, tp_conf t' = tp_conf t ∧ peer_fits t' pm)).
    - intros pm t1 Ht1 [Hc Hp]. unfold tp_self. rewrite <- Hc. by apply update_peer_latest.
    - intros pm t1 t2 Hs [Hc Hp]. split; [by rewrite (sn_conf _ _ Hs)|].
      intros m Hm. eapply clock_fits_same; [done|]. by apply Hp.
    - done.
    - intros pm Hpm. split; [done|]. by apply Hf. }
  intros [] t1 H1. exists (), (confirm_sender (a_PeerId a) t1). split; [done|].
  assert (H2 : takes_latest t1 (confirm_sender (a_PeerId a) t1) (λ _ _, [])).
  { unfold confirm_sender. destruct (known t1 (a_PeerId a)); [|apply takes_latest_unchanged; try done];
      [apply takes_latest_nil|]; apply H1. }
  eapply takes_latest_ext; [|exact (takes_latest_app _ _ _ _ _ H1 H2)].
  intros p i _. cbn. by rewrite app_nil_r.
Qed.

Lemma messages_take_latest msgs t :
  topic_good t → (∀ a, a ∈ msgs → msg_fits t a) →
  ends (hfor (MsgUpdatesState done) msgs) t (λ _ t', takes_latest t t' (λ p i,
    received (tp_self t) p i msgs)).
Proof.
  intros Ht Hf. eapply ends_mono.
  { apply (hfor_latest (MsgUpdatesState done)
      (λ a p i, of_peer (tp_self t) p i (default [] a.(a_MsgUpdates)))
      (λ t' a, tp_conf t' = tp_conf t ∧ msg_fits t' a)).
    - intros a t1 Ht1 [Hc Hm]. unfold tp_self. rewrite <- Hc. by apply MsgUpdates_takes_latest.
    - intros a t1 t2 Hs [Hc Hm]. split; [by rewrite (sn_conf _ _ Hs)|].
      intros pm Hpm m Hmm. eapply clock_fits_same; [done|]. by apply (Hm pm).
    - done.
    - intros a Ha. split; [done|]. by apply Hf. }
  intros [] t' H. exact H.
Qed.
End latest.

(** ** Asking for what is missing *)

(** What a draw of peers to ask for gives. *)
Record asks (now freq : Z) (pids : list string) (amount : nat) (asked asked' : gmap string Z)
    (req : list string) : Prop := {
  as_nodup : NoDup req;
  as_amount : (length req ≤ amount)%nat;
  as_wanted : ∀ p, p ∈ req → p ∈ pids ∧ ∀ at_, asked !! p = Some at_ → freq ≤ now - at_;
  as_marked : ∀ p, asked' !! p = if decide (p ∈ req) then Some now else asked !! p;
}.

Lemma pick_req_asks rnd now freq pids amount tries i asked0 asked req :
  pids ≠ [] → asks now freq pids amount asked0 asked req →
  ∃ asked' req', pick_req rnd now freq pids amount tries i asked req = Ok (asked', req')
    ∧ asks now freq pids amount asked0 asked' req'.
Proof.
  intros Hne. revert i asked req. induction tries as [|tries IH]; intros i asked req Ha; cbn [pick_req].
  { by exists asked, req. }
  case_bool_decide as Hlen; [by exists asked, req|].
  assert (Hpos : 0 < Z.of_nat (length pids)) by (destruct pids; [done|cbn; lia]).
  unfold Intn. rewrite bool_decide_eq_false_2 by lia. cbn [mbind outcome_bind].
  set (r := rnd i `mod` Z.of_nat (length pids)).
  assert (Hr : 0 ≤ r < Z.of_nat (length pids)) by by apply Z.mod_pos_bound.
  destruct (lookup_lt_is_Some_2 pids (Z.to_nat r)) as [pid Hpid]; [lia|].
  assert (Hget : slice_get pids r = Ok pid).
  { rewrite <- (Z2Nat.id r) by lia. by apply slice_get_nat. }
  rewrite Hget. cbn [mbind outcome_bind].
  destruct (contains req pid) eqn:Hc; [by apply IH|]. apply contains_false in Hc.
  destruct Ha as [A1 A2 A3 A4]. pose proof (A4 pid) as Hp. rewrite decide_False in Hp by done.
  destruct (match asked !! pid with Some at_ => _ | None => _ end) eqn:Hrecent; [by apply IH|].
  apply IH. split.
  - apply NoDup_app. split_and!; [done| |apply NoDup_singleton].
    intros x Hx Hxp. apply list_elem_of_singleton in Hxp as ->. done.
  - rewrite length_app. cbn. lia.
  - intros p [Hin|Hin]%elem_of_app; [by apply A3|]. apply list_elem_of_singleton in Hin as ->.
    split; [by eapply list_elem_of_lookup_2|]. intros at_ Hat. rewrite Hp, Hat in Hrecent.
    apply bool_decide_eq_false in Hrecent. lia.
  - intros p. destruct (decide (p = pid)) as [->|Hn].
    + rewrite lookup_insert_eq. rewrite decide_True; [done|]. apply elem_of_app. right. left.
    + rewrite lookup_insert_ne by done. rewrite A4.
      destruct (decide (p ∈ req)) as [Hin|Hin];
        [rewrite decide_True; [done|apply elem_of_app; by left]|rewrite decide_False; [done|]].
      rewrite elem_of_app, list_elem_of_singleton. tauto.
Qed.

Lemma asks_none now freq pids amount asked : asks now freq pids amount asked asked [].
Proof. split; [apply NoDup_nil_2|cbn; lia|by intros p ?%not_elem_of_nil|]. done. Qed.

(** ** The window of messages *)

(** How many of some attempts to send are accepted. *)
Fixpoint accepted (attempts : list (Z * TArgs)) : held Topic nat :=
  match attempts with
  | [] => mret 0%nat
  | (second, a) :: attempts =>
      b ← SendMsgEnter second a; n ← accepted attempts; mret (if b : bool then S n else n)
  end.

Lemma SendMsgEnter_run second a t :
  t.(tp_conf).(tc_Multiplayer) ≠ 0 →
  let win := Z.quot second t.(tp_conf).(tc_Multiplayer) in
  let count := (if bool_decide (t.(tp_msgsWin) = win) then t.(tp_msgsWinCount) else 0) + 1 in
  SendMsgEnter second a t
  = (set_win win count t,
     Ok (bool_decide (count ≤ t.(tp_conf).(tc_MaxMsgsPerWin)) && negb (bool_decide (a.(a_Msg) = "")))).
Proof. intros Hm. unfold SendMsgEnter. rewrite held_get_bind, bool_decide_eq_false_2 by done. done. Qed.

Lemma accepted_window win attempts t :
  t.(tp_conf).(tc_Multiplayer) ≠ 0 → t.(tp_msgsWin) = win →
  (∀ x, x ∈ attempts → Z.quot x.1 t.(tp_conf).(tc_Multiplayer) = win) →
  ∃ n t', accepted attempts t = (t', Ok n)
    ∧ Z.of_nat n ≤ Z.max 0 (t.(tp_conf).(tc_MaxMsgsPerWin) - t.(tp_msgsWinCount)).
Proof.
  intros Hm. revert t Hm. induction attempts as [|[second a] attempts IH]; intros t Hm Hw Hx; cbn [accepted].
  { exists 0%nat, t. split; [done|]. lia. }
  pose proof (SendMsgEnter_run second a t Hm) as He. cbv zeta in He.
  pose proof (Hx (second, a) ltac:(left)) as Hwin. cbn [fst] in Hwin. rewrite Hwin in He. rewrite bool_decide_eq_true_2 in He by done.
  rewrite (held_ok_bind _ _ _ _ _ He).
  destruct (IH (set_win win (tp_msgsWinCount t + 1) t)) as (n & t' & Hn & Hle); [done|done| |].
  { intros x Hin. apply Hx. by right. }
  rewrite (held_ok_bind _ _ _ _ _ Hn). eexists _, t'. split; [done|]. cbn in Hle.
  case_bool_decide; [|cbn; lia]. destruct (negb _); cbn; lia.
Qed.

(** ** Properties *)

(** Messages with clocks of known machines, handled in any order and any number of
    times, leave each machine with the latest of its own clock and the ones
    received for it, by the sums of their ticks; so the same clocks received
    otherwise - reordered, repeated, split into other messages - leave the same
    time, when sums tell the clocks apart. *)
Theorem MsgUpdates_latest done t msgs :
  topic_good t → (∀ a, a ∈ msgs → msg_fits t a) →
  ∃ t', hfor (MsgUpdatesState done) msgs t = (t', Ok ())
    ∧ ∀ p i old, time_at t p i = Some old →
      (∃ new, time_at t' p i = Some new ∧ new ∈ old :: received (tp_self t) p i msgs
        ∧ ∀ x, x ∈ old :: received (tp_self t) p i msgs → time_sum x ≤ time_sum new)
      ∧ ∀ msgs' t'', (∀ a, a ∈ msgs' → msg_fits t a) →
          hfor (MsgUpdatesState done) msgs' t = (t'', Ok ()) →
          (∀ x, x ∈ received (tp_self t) p i msgs ↔ x ∈ received (tp_self t) p i msgs') →
          (∀ x y, x ∈ old :: received (tp_self t) p i msgs → y ∈ old :: received (tp_self t) p i msgs →
             time_sum x = time_sum y → x = y) →
          time_at t'' p i = time_at t' p i.
Proof.
  intros Ht Hf. destruct (messages_take_latest done msgs t Ht Hf) as ([] & t' & He & _ & _ & Hat).
  exists t'. split; [done|]. intros p i old Hold. split.
  - exists (latest (received (tp_self t) p i msgs) old). split; [by rewrite Hat, Hold|].
    destruct (latest_max (received (tp_self t) p i msgs) old) as (H1 & H2 & H3). split.
    + destruct H1 as [->|H1]; [left|by right].
    + intros x [->|Hx]%elem_of_cons; [done|by apply H3].
  - intros msgs' t'' Hf' He' Hsame Hinj.
    destruct (messages_take_latest done msgs' t Ht Hf') as ([] & t3 & He3 & _ & _ & Hat').
    rewrite He' in He3. injection He3 as <-. rewrite Hat, Hat', Hold. cbn. f_equal. symmetry.
    by apply latest_set.
Qed.

(** C20: However a topic came about, it knows no machine of a peer: a message that
    introduces one, with a schema that fits its states, makes the handler panic,
    because the internal API of the new machine is looked up where it is not
    stored yet. *)
Theorem topic_knows_no_machine done codec self machId exposed testSchema testStates t :
  topic_reached done codec (NewTopic self machId exposed testSchema testStates) t →
  (∀ peerId i, mach_at t peerId i = None)
  ∧ ∀ randId from peerId i info machs peers gossips,
      peerId ≠ tp_self t → schema_fits t.(tp_conf) info →
      (MsgInfoState done randId
         (args_info ((peerId, (i, Some info) :: machs) :: peers, gossips) from) t).2
      = Panic "nil pointer dereference".
Proof.
  intros Hr. assert (Hn : no_machs t).
  { eapply topic_reached_no_machs; [|exact Hr]. intros p i. by unfold mach_at, int_at. }
  split; [intros p i; apply Hn|]. intros. by apply MsgInfo_panics.
Qed.

(** When something is missing, asking for it draws at most five different peers,
    all of them missing or waited for, none asked for within the time between
    requests, marks exactly these as asked now, and asks for them in one
    message. *)
Theorem ReqMissingPeers_spec codec rnd now valid t :
  ReqMissingPeersEnter now t = true →
  ∃ req, asks now (req_freq t) (elements t.(tp_missingPeers) ++ (map_to_list t.(tp_pending)).*1) 5
           t.(tp_reqInfo) (ReqMissingPeersState codec rnd now valid t).1.(tp_reqInfo) req
    ∧ (∀ calls, TcGo calls ∈ (ReqMissingPeersState codec rnd now valid t).1.(tp_calls) →
         TcGo calls ∈ t.(tp_calls)
         ∨ req ≠ [] ∧ calls = send_calls codec (TmReqInfo req) ++ [TcRemove "ReqMissingPeers"]).
Proof.
  intros [Hmiss _]%andb_true_iff. unfold ReqMissingPeersState. rewrite held_get_bind.
  set (pids := elements (tp_missingPeers t) ++ _).
  assert (Hne : pids ≠ []).
  { unfold pids. apply negb_true_iff, andb_false_iff in Hmiss. intros [H1 H2]%app_eq_nil.
    destruct Hmiss as [Hm|Hm]; apply bool_decide_eq_false in Hm; apply Hm.
    - by apply leibniz_equiv, elements_empty_inv.
    - apply fmap_nil_inv in H2. by apply map_to_list_empty_iff. }
  destruct (pick_req_asks rnd now (req_freq t) pids 5 15 0 t.(tp_reqInfo) t.(tp_reqInfo) [] Hne)
    as (asked & req & Hp & Ha); [apply asks_none|].
  rewrite (held_lift_bind _ _ _ _ Hp). cbn beta iota. rewrite held_modify_bind.
  set (t1 := set_req _ _ asked _ t). exists req. destruct (bool_decide (req = [])) eqn:Hreq;
    [apply bool_decide_eq_true in Hreq|apply bool_decide_eq_false in Hreq].
  - split; [exact Ha|]. cbn. intros calls [Hc|Hc]%elem_of_app; [by left|].
    by apply list_elem_of_singleton in Hc.
  - set (calls0 := send_calls codec (TmReqInfo req) ++ _).
    destruct (PoolFork valid "ReqMissingPeersState" (tp_pools t1)) as [[pl n] r] eqn:Hpool.
    assert (Hfork : pool_fork valid "ReqMissingPeersState" calls0 t1
      = (add_calls (replicate n (TcGo calls0)) (set_pools pl t1), r)) by (unfold pool_fork; by rewrite Hpool).
    assert (Hgo : ∀ calls, TcGo calls ∈ tp_calls t ++ replicate n (TcGo calls0) →
      TcGo calls ∈ tp_calls t ∨ req ≠ [] ∧ calls = calls0).
    { intros calls [Hc|[[= ->] _]%elem_of_replicate]%elem_of_app; [by left|by right]. }
    destruct r as [[]| |].
    + rewrite (held_ok_bind _ _ _ _ _ Hfork). split; [exact Ha|exact Hgo].
    + rewrite (held_ok_bind _ _ _ _ _ Hfork). split; [exact Ha|]. cbn.
      intros calls [Hc|Hc]%elem_of_app; [by apply Hgo|]. by apply list_elem_of_singleton in Hc.
    + rewrite (held_panic_bind _ _ _ _ _ Hfork). split; [exact Ha|exact Hgo].
    + unfold mbind, held_bind. rewrite Hfork. split; [exact Ha|exact Hgo].
Qed.

(** Of any number of attempts to send in one time window, at most
    [MaxMsgsPerWin] are accepted, less the ones counted before. *)
Theorem SendMsg_window attempts t win :
  t.(tp_conf).(tc_Multiplayer) ≠ 0 →
  (∀ x, x ∈ attempts → Z.quot x.1 t.(tp_conf).(tc_Multiplayer) = win) →
  ∃ n t', accepted attempts t = (t', Ok n)
    ∧ Z.of_nat n ≤ Z.max 0 (t.(tp_conf).(tc_MaxMsgsPerWin)
        - (if bool_decide (t.(tp_msgsWin) = win) then t.(tp_msgsWinCount) else 0)).
Proof.
  intros Hm Hx. case_bool_decide as Hw; [by eapply accepted_window|].
  destruct attempts as [|[second a] attempts]; [exists 0%nat, t; split; [done|lia]|].
  assert (Heq : accepted ((second, a) :: attempts) t = accepted ((second, a) :: attempts) (set_win win 0 t)).
  { cbn [accepted]. unfold mbind at 1 3, held_bind at 1 3.
    pose proof (Hx (second, a) ltac:(left)) as Hwin. cbn [fst] in Hwin.
    rewrite !SendMsgEnter_run by done. cbn. rewrite Hwin.
    by rewrite (bool_decide_eq_false_2 _ Hw), (bool_decide_eq_true_2 (win = win)) by done. }
  destruct (accepted_window win ((second, a) :: attempts) (set_win win 0 t)) as (n & t' & Hn & Hle); [done..|].
  exists n, t'. split; [by rewrite Heq|]. cbn in Hle. lia.
Qed.

(** ** Witnesses *)

Definition peer_mach : NetMach :=
  mkNetMach (mkNetInfo "net" "" "ps" [] false false) None ["A"; "B"]
    (mkNetClock [0; 0] {["A" := 0; "B" := 0]} 1 0 []) NewSubscriptionManager
    (mkNetBind [] 0 [] [] []) false None [] [].

Lemma peer_mach_good : mach_good peer_mach.
Proof.
  split; [by eexists _, _, _|apply NoDup_nil_2|compute_decide|]. split; [done|].
  intros [|[|i]] s [= <-]; by vm_compute.
Qed.

Definition new_topic : Topic := NewTopic "self" "ps" [] None None.

(** It knows machine 0 of peer P. *)
Definition peer_topic : Topic :=
  set_machs {["P" := {[0 := 0%nat]}]} {["P" := {[0 := 0%nat]}]} ∅ (set_heap [(peer_mach, false)] new_topic).

Lemma peer_topic_mach p i q : mach_at peer_topic p i = Some q ↔ p = "P" ∧ i = 0 ∧ q = 0%nat.
Proof.
  unfold mach_at. cbn. destruct (decide (p = "P")) as [->|Hp].
  - rewrite lookup_singleton_eq. cbn. rewrite lookup_singleton_Some. naive_solver.
  - rewrite lookup_singleton_ne by done. naive_solver.
Qed.

Lemma peer_topic_good : topic_good peer_topic.
Proof.
  split.
  - intros p i q H. exact H.
  - intros p i q (-> & -> & ->)%peer_topic_mach. exists peer_mach. split; [done|apply peer_mach_good].
  - intros p i p' i' q (-> & -> & ->)%peer_topic_mach (-> & -> & _)%peer_topic_mach. done.
Qed.

Definition update_msg (clock : list Z) : TArgs := args_updates [("P", [(0, clock)])] "Q".

Lemma update_msg_fits a b : msg_fits peer_topic (update_msg [a; b]).
Proof.
  intros pm Hpm%list_elem_of_singleton. subst pm. intros m Hm%list_elem_of_singleton. subst m.
  intros names Hn. unfold at_mach in Hn. cbn in Hn.
  assert (Hm : mach_at peer_topic "P" 0 = Some 0%nat) by by apply peer_topic_mach.
  rewrite Hm in Hn. cbn in Hn. by injection Hn as <-.
Qed.

(** An older clock that arrives after a newer one does no harm. *)
Example MsgUpdates_latest_witness :
  ∃ t', hfor (MsgUpdatesState (λ _, false)) [update_msg [2; 1]; update_msg [1; 0]] peer_topic = (t', Ok ())
    ∧ time_at t' "P" 0 = Some [2; 1].
Proof.
  destruct (MsgUpdates_latest (λ _, false) peer_topic [update_msg [2; 1]; update_msg [1; 0]])
    as (t' & He & Ht').
  - apply peer_topic_good.
  - intros a Ha. rewrite !elem_of_cons, elem_of_nil in Ha.
    destruct Ha as [->|[->|[]]]; apply update_msg_fits.
  - exists t'. split; [exact He|]. destruct (Ht' "P" 0 [0; 0]) as [(new & Hn & Hin & Hmax) _]; [by vm_compute|].
    rewrite Hn. f_equal. specialize (Hmax [2; 1]).
    change (received (tp_self peer_topic) "P" 0 [update_msg [2; 1]; update_msg [1; 0]]) with [[2; 1]; [1; 0]] in *.
    assert (H : time_sum [2; 1] ≤ time_sum new) by (apply Hmax; right; left).
    rewrite !elem_of_cons, elem_of_nil in Hin. destruct Hin as [->|[->|[->|[]]]]; [|done|];
      vm_compute in H; by destruct H.
Defined.

Definition any_codec : Codec :=
  mkCodec (λ _, inr "msg") (λ _, inl "err") (λ _, inl "err") (λ _, inl "err") (λ _, inl "err")
    (λ _, inl "err") (λ _, inl "err") (λ _, inl "err").

Definition topic_env : TopicEnv :=
  mkTopicEnv 10000000000 0 true (λ n, Z.of_nat n) "rand" 0 (λ _, false) (λ _, false) (λ _ _, true).

(** A peer joins and introduces its machine. *)
Definition joined_topic : Topic :=
  (topic_step (λ _, false) any_codec TsPeerJoined topic_env (args_peer "P") new_topic).1.

Lemma joined_topic_reached : topic_reached (λ _, false) any_codec new_topic joined_topic.
Proof. apply reached_step, reached_new. Qed.

Example topic_knows_no_machine_witness :
  (MsgInfoState (λ _, false) "rand"
     (args_info ([("P", [(0, Some (mkInfo "m" None ["A"] [1] [] ""))])], None) "P") joined_topic).2
  = Panic "nil pointer dereference".
Proof.
  destruct (topic_knows_no_machine (λ _, false) any_codec "self" "ps" [] None None joined_topic
    joined_topic_reached) as [_ Hp].
  apply Hp; [discriminate|exact I].
Defined.

Example ReqMissingPeers_spec_witness :
  ∃ req, asks 10000000000 (req_freq joined_topic)
      (elements joined_topic.(tp_missingPeers) ++ (map_to_list joined_topic.(tp_pending)).*1) 5
      joined_topic.(tp_reqInfo)
      (ReqMissingPeersState any_codec (λ n, Z.of_nat n) 10000000000 true joined_topic).1.(tp_reqInfo) req.
Proof.
  destruct (ReqMissingPeers_spec any_codec (λ n, Z.of_nat n) 10000000000 true joined_topic) as (req & Ha & _).
  - vm_compute. reflexivity.
  - by exists req.
Defined.

Example SendMsg_window_witness :
  ∃ n t', accepted (replicate 30 (3, args_send "msg" "gossip")) new_topic = (t', Ok n) ∧ (n ≤ 10)%nat.
Proof.
  destruct (SendMsg_window (replicate 30 (3, args_send "msg" "gossip")) new_topic 0) as (n & t' & Hn & Hle).
  - discriminate.
  - intros x [-> _]%elem_of_replicate. reflexivity.
  - exists n, t'. split; [exact Hn|]. apply Nat2Z.inj_le. exact Hle.
Defined.
