(* ===== verification/GoStrings.v ===== *)
(** * Go's [strings], [sort.Strings] and quoting

    The functions of the standard library that the text formats use, on strings of
    bytes. *)

From S2P Require Import Prelude StateList.

#[local] Open Scope Z_scope.

(** [strings.Split] by a separator that is not empty. [skip]: bytes of the
    separator still to pass over. *)
Fixpoint split_from (sep s cur : string) (skip : nat) : list string :=
  match s with
  | EmptyString => [cur]
  | String.String c s' =>
      match skip with
      | S skip => split_from sep s' cur skip
      | O =>
          if String.prefix sep s then cur :: split_from sep s' "" (String.length sep - 1)
          else split_from sep s' (cur +:+ String.String c EmptyString) 0
      end
  end.

Definition Split (s sep : string) : list string := split_from sep s "" 0.

(** [strings.Index], [strings.Contains], [strings.Cut] *)
Definition IndexStr (s sub : string) : Z :=
  match String.index 0 sub s with Some n => Z.of_nat n | None => -1 end.
Definition Contains (s sub : string) : bool := bool_decide (0 ≤ IndexStr s sub).
Definition Cut (s sep : string) : string * string * bool :=
  match String.index 0 sep s with
  | Some n => (substring s 0 (Z.of_nat n), substring s (Z.of_nat n + str_len sep) (str_len s), true)
  | None => (s, "", false)
  end.

(** [strings.TrimRight] with a set of bytes. *)
Fixpoint in_set (c : Ascii.ascii) (cutset : string) : bool :=
  match cutset with
  | EmptyString => false
  | String.String d cutset => Ascii.eqb c d || in_set c cutset
  end.
Fixpoint TrimRight (s cutset : string) : string :=
  match s with
  | EmptyString => EmptyString
  | String.String c s =>
      match TrimRight s cutset with
      | EmptyString => if in_set c cutset then EmptyString else String.String c EmptyString
      | t => String.String c t
      end
  end.

Fixpoint Repeat (s : string) (n : nat) : string :=
  match n with O => "" | S n => s +:+ Repeat s n end.

Definition nl : string := String.String (Ascii.ascii_of_nat 10) EmptyString.

(** [sort.Strings]: equal strings cannot be told apart, so the algorithm does not
    show. *)
Definition str_le (s t : string) : Prop := String.leb s t = true.
#[export] Instance str_le_dec s t : Decision (str_le s t).
Proof. unfold str_le. apply _. Defined.
Definition sort_Strings (l : list string) : list string := merge_sort str_le l.

Lemma sort_Strings_perm l : sort_Strings l ≡ₚ l.
Proof. apply merge_sort_Permutation. Qed.

(** [%q]: quotes, with escapes for the bytes below 32, 34, 92 and 127; other bytes
    are taken for parts of printable runes. *)
Definition hex (n : nat) : string :=
  String.String (Ascii.ascii_of_nat (if (n <? 10)%nat then 48 + n else 87 + n)) EmptyString.
Definition quote_char (c : Ascii.ascii) : string :=
  let n := Ascii.nat_of_ascii c in
  let esc x := String.String (Ascii.ascii_of_nat 92) (String.String (Ascii.ascii_of_nat x) EmptyString) in
  if (n =? 34)%nat then esc 34%nat else if (n =? 92)%nat then esc 92%nat
  else if (n =? 7)%nat then esc 97%nat else if (n =? 8)%nat then esc 98%nat
  else if (n =? 12)%nat then esc 102%nat else if (n =? 10)%nat then esc 110%nat
  else if (n =? 13)%nat then esc 114%nat else if (n =? 9)%nat then esc 116%nat
  else if (n =? 11)%nat then esc 118%nat
  else if (n <? 32)%nat || (n =? 127)%nat then esc 120%nat +:+ hex (n / 16) +:+ hex (n mod 16)
  else String.String c EmptyString.
Fixpoint quote_chars (s : string) : string :=
  match s with EmptyString => EmptyString | String.String c s => quote_char c +:+ quote_chars s end.
Definition dquote : string := String.String (Ascii.ascii_of_nat 34) EmptyString.
Definition Quote (s : string) : string := dquote +:+ quote_chars s +:+ dquote.

(** ** Splitting what was joined *)

Definition space : Ascii.ascii := Ascii.ascii_of_nat 32.

(** No byte of [s] is [c]. *)
Fixpoint free_of (c : Ascii.ascii) (s : string) : bool :=
  match s with
  | EmptyString => true
  | String.String d s => negb (Ascii.eqb c d) && free_of c s
  end.

Lemma app_empty_r (s : string) : s +:+ "" = s.
Proof. induction s as [|c s IH]; [done|]. apply (f_equal (String.String c) IH). Qed.

Lemma app_assoc_str (s t u : string) : (s +:+ t) +:+ u = s +:+ (t +:+ u).
Proof. induction s as [|c s IH]; [done|]. apply (f_equal (String.String c) IH). Qed.

Lemma prefix_app (s t : string) : String.prefix s (s +:+ t) = true.
Proof.
  induction s as [|c s IH]; [by destruct t|]. simpl. by destruct (Ascii.ascii_dec c c).
Qed.

Lemma split_skip sep s t cur : split_from sep (s +:+ t) cur (String.length s) = split_from sep t cur 0.
Proof. induction s as [|c s IH]; [done|]. simpl. done. Qed.

(** Text without the first byte of the separator is not split. *)
Lemma split_free c sep s cur t :
  free_of c s = true →
  split_from (String.String c sep) (s +:+ t) cur 0 = split_from (String.String c sep) t (cur +:+ s) 0.
Proof.
  revert cur. induction s as [|d s IH]; intros cur Hf; [by rewrite app_empty_r|].
  apply andb_true_iff in Hf as [Hd Hf]. simpl.
  destruct (Ascii.ascii_dec c d) as [<-|Hn]; [by rewrite Ascii.eqb_refl in Hd|].
  rewrite IH by done. by rewrite app_assoc_str.
Qed.

Lemma Split_two c sep s t :
  free_of c s = true → free_of c t = true →
  Split (s +:+ String.String c sep +:+ t) (String.String c sep) = [s; t].
Proof.
  intros Hs Ht. unfold Split. rewrite split_free by done. simpl.
  destruct (Ascii.ascii_dec c c); [|done]. rewrite prefix_app, Nat.sub_0_r, split_skip. f_equal.
  pose proof (split_free c sep t "" "" Ht) as H. rewrite app_empty_r in H. rewrite H. done.
Qed.

(** ** Slicing what was joined *)

Lemma length_app_str (s t : string) : String.length (s +:+ t) = (String.length s + String.length t)%nat.
Proof. induction s as [|c s IH]; [done|]. simpl. by rewrite IH. Qed.

Lemma str_len_app (s t : string) : str_len (s +:+ t) = str_len s + str_len t.
Proof. unfold str_len. rewrite length_app_str. lia. Qed.

Lemma substring_all (t : string) : String.substring 0 (String.length t) t = t.
Proof. induction t as [|c t IH]; [done|]. simpl. by rewrite IH. Qed.

Lemma length_substring (n : nat) (s : string) : String.length (String.substring 0 n s) = Nat.min n (String.length s).
Proof. revert n. induction s as [|c s IH]; intros [|n]; try done. simpl. by rewrite IH. Qed.

(** [s[len(p):]] of [p+t]. *)
Lemma substring_drop (p t : string) : substring (p +:+ t) (str_len p) (str_len (p +:+ t)) = t.
Proof.
  unfold substring, str_len. rewrite length_app_str.
  replace (Z.to_nat (Z.of_nat (String.length p + String.length t) - Z.of_nat (String.length p)))
    with (String.length t) by lia.
  rewrite Nat2Z.id. induction p as [|c p IH]; [apply substring_all|]. simpl. exact IH.
Qed.
