(* ===== verification/Effects.v ===== *)
(** * Handlers of connected programs

    What the handlers of servers, clients, supervisors and workers have in common:
    methods that change the fields of an object, make calls to machines and
    connections ([tell]) and start goroutines ([spawn]), in order, and can panic on
    the way; the answers of waits; and waiting longer after each failed try. *)

From S2P Require Import Prelude.

#[local] Open Scope Z_scope.

(** What a wait with a context ends in. *)
Inductive Waited := WOk | WErr (err : string) | WExpired.

Record Mem (S C G : Type) := mkMem { fields : S; calls : list C; gos : list G }.
Arguments mkMem {S C G}.
Arguments fields {S C G}.
Arguments calls {S C G}.
Arguments gos {S C G}.

Section effects.
Context {S C G : Type}.

Definition tell (c : C) : held (Mem S C G) () :=
  hmodify (λ m, mkMem m.(fields) (m.(calls) ++ [c]) m.(gos)).
Definition tells (l : list C) : held (Mem S C G) () :=
  hmodify (λ m, mkMem m.(fields) (m.(calls) ++ l) m.(gos)).
Definition spawn (g : G) : held (Mem S C G) () :=
  hmodify (λ m, mkMem m.(fields) m.(calls) (m.(gos) ++ [g])).
Definition put (f : S → S) : held (Mem S C G) () :=
  hmodify (λ m, mkMem (f m.(fields)) m.(calls) m.(gos)).
Definition peek : held (Mem S C G) S := m ← hget; mret m.(fields).
End effects.

Definition nil_panic {S T} : held S T := hlift (Panic "invalid memory address or nil pointer dereference").

(** Run straight-line code. *)
Ltac run_mem :=
  unfold tell, tells, spawn, put, peek, nil_panic, hmodify, hget, hlift, mbind, held_bind, mret, held_ret in *;
  cbn in *.

(** Compute the state reached by a run of steps. *)
Ltac at_state := match goal with |- rtc _ ?s _ => let s' := eval vm_compute in s in change s with s' end.

(** [errors.Join] *)
Definition errorsJoin (errs : list (option string)) : option string :=
  match omap id errs with
  | [] => None
  | e :: es => Some (fold_left (λ s e, s +:+ String (Ascii.ascii_of_nat 10) EmptyString +:+ e) es e)
  end.

(** ** Waiting longer

    [time.Duration] is an [int64]. *)

Definition wrap_s64 (z : Z) : Z := (z + 2 ^ 63) `mod` 2 ^ 64 - 2 ^ 63.
Definition wrap_s32 (z : Z) : Z := (z + 2 ^ 31) `mod` 2 ^ 32 - 2 ^ 31.

Definition backoff (max delay : Z) : Z :=
  if bool_decide (0 < max) then
    let delay := wrap_s64 (delay * 2) in
    if bool_decide (max < delay) then max else delay
  else delay.

Lemma wrap_s64_id z : - 2 ^ 63 ≤ z < 2 ^ 63 → wrap_s64 z = z.
Proof. intros Hz. unfold wrap_s64. rewrite Z.mod_small; lia. Qed.

(** Each wait is twice as long as the one before, up to the maximum. *)
Lemma backoff_iter max delay k :
  0 < delay ≤ max → max < 2 ^ 62 → Nat.iter k (backoff max) delay = Z.min max (delay * 2 ^ Z.of_nat k).
Proof.
  intros Hd Hm. induction k as [|k IH]; [cbn; lia|].
  rewrite Nat.iter_succ, IH. unfold backoff. rewrite bool_decide_eq_true_2 by lia.
  rewrite Nat2Z.inj_succ, Z.pow_succ_r by lia.
  assert (1 ≤ 2 ^ Z.of_nat k) by (pose proof (Z.pow_pos_nonneg 2 (Z.of_nat k)); lia).
  set (p := 2 ^ Z.of_nat k) in *. assert (0 < delay * p) by nia.
  rewrite wrap_s64_id by lia. case_bool_decide; lia.
Qed.

Lemma backoff_off delay k : Nat.iter k (backoff 0) delay = delay.
Proof. induction k as [|k IH]; [done|]. by rewrite Nat.iter_succ, IH. Qed.
