(* ===== verification/RpcConn.v ===== *)
(** * Connections of RPC clients and servers ([pkg/rpc])

    The handlers of [rpc_client.go] (Module [Cli]) and [rpc_server.go] (Module
    [Srv]) on connecting, shaking hands, retrying and stopping, with the bodies of
    the goroutines they start, and what [rpc.go] does with errors and pipes
    (Modules [Errs] and [Log]).  What goes over an established connection is in
    [Rpc].  Dialing, listening and [rpc2] are third parties: their answers are
    arguments, and so is the clock. *)

From S2P Require Import Prelude StateList SchemaDef MachTime Mutation Queue Machine Rpc Effects.

#[local] Open Scope Z_scope.

Definition ArgsPrefix : string := "am_rpc".

(** [MsgSrvPayload]; its data is an abstract type. *)
Record MsgSrvPayload := mkSrvPayload {
  pl_Name : string;
  pl_Destination : string;
  pl_Data : Val;
  pl_Token : string;
  pl_Source : string;
  pl_SourceTx : string;
}.

(** The typed arguments the handlers pass, by their fields in use. *)
Inductive RpcArgs :=
| NoArgs
| ArgsAddr (addr : string)
| ArgsHandshake (id : string) (time : option (list Z)) (queueTick : Z)
| ArgsPayload (name : string) (payload : option MsgSrvPayload)
| ArgsName (name : string)
| ArgsClient (client : nat).

(** What handlers ask for: mutations of their own machine, of the consumer, and
    effects on connections. *)
Inductive RpcCall :=
| RAdd (states : list string) (args : RpcArgs)
| RRemove (states : list string) (args : RpcArgs)
| RErr (state err : string) (args : RpcArgs)
| RConsumer (states : list string) (args : RpcArgs)
| RNotify (method : string)
| RHandle (methods : list string)
| RClose (what : string)
| RShutdown
| RDetach
| RDispose
| RDisposeNet.

(** ** Errors *)
Module Errs.

Definition ErrInvalidParams := "invalid params".
Definition ErrInvalidResp := "invalid response".
Definition ErrRpc := "rpc".
Definition ErrNoAccess := "no access".
Definition ErrNoConn := "not connected".
Definition ErrDestination := "wrong destination".
Definition ErrNetworkTimeout := "network timeout".

Definition AddErrRpcStr (msg : string) : RpcCall := RErr "ErrRpc" (ErrRpc +:+ ": " +:+ msg) NoArgs.
Definition AddErrParams (err : string) : RpcCall := RErr "ErrRpc" (ErrInvalidParams +:+ ": " +:+ err) NoArgs.
Definition AddErrResp (err : string) : RpcCall := RErr "ErrRpc" (ErrInvalidResp +:+ ": " +:+ err) NoArgs.
Definition AddErrNetwork (err : string) : RpcCall := RErr "ErrNetwork" err NoArgs.
Definition AddErrNetworkTimeout (err : string) : RpcCall := RErr "ErrNetworkTimeout" err NoArgs.
Definition AddErrNoConn (err : string) : RpcCall := RErr "ErrNetwork" (ErrNoConn +:+ ": " +:+ err) NoArgs.

(** [strings.Contains] *)
Definition strings_Contains (s sub : string) : bool := bool_decide (is_Some (String.index 0 sub s)).

(** [opErr]: the error is a [net.OpError]; wrapping it with a message hides that
    from the type assertion. *)
Definition AddErr (msg err : string) (opErr : bool) : RpcCall :=
  let '(err, opErr) := if bool_decide (msg = "") then (err, opErr) else (err +:+ ": " +:+ msg, false) in
  if HasPrefix err "gob: " then AddErrResp err
  else if strings_Contains err "rpc2: can't find method" then AddErrRpcStr err
  else if strings_Contains err "connection is shut down" || strings_Contains err "unexpected EOF"
  then RErr "ErrRpc" err NoArgs
  else if strings_Contains err "timeout"
  then AddErrNetwork (default "" (errorsJoin [Some err; Some ErrNetworkTimeout]))
  else if opErr then AddErrNetwork err
  else RErr "Exception" err NoArgs.

(** [ExceptionHandler.ExceptionEnter]: [parse] reads the error off the arguments
    of type [A] ([nil] without them) and tells whether it is [ErrNetwork]. *)
Definition ExceptionEnter (parse : Val → option bool) (args : gmap string Val) (names active : list string) : bool :=
  let netErr := default false (args !! ArgIndex ArgsPrefix StateAny ≫= parse) in
  let isRpcClient := contains names "Disconnecting" && contains names "Disconnected" in
  negb (netErr && isRpcClient && (contains active "Disconnecting" || contains active "Disconnected")).

(** The error setters pass the error in the arguments of [Exception], which
    [ExceptionEnter] does not look at. *)
Lemma ExceptionEnter_never parse err args names active :
  args !! ArgIndex ArgsPrefix StateAny = None →
  ExceptionEnter parse (PassMerge [args; passException err]) names active = true.
Proof.
  intros Ha. unfold ExceptionEnter. assert (PassMerge [args; passException err] !! ArgIndex ArgsPrefix StateAny = None) as ->;
    [|done].
  unfold PassMerge. cbn. rewrite !lookup_union_None. split_and!; try done; try (by apply lookup_singleton_ne).
Qed.

(** A wrapped error never is a network one by its type. *)
Lemma AddErr_op_hidden msg err op : msg ≠ "" → AddErr msg err op = AddErr msg err false.
Proof. intros Hm. unfold AddErr. by rewrite bool_decide_eq_false_2. Qed.

End Errs.

(** ** Clients *)
Module Cli.
Import Errs.

Definition GetClientId (name : string) : string := "rc-" +:+ name.

(** [Client]: the fields its connection uses; the underlying connection and its
    [rpc2] client are numbers. *)
Record RpcClient := mkRpcClient {
  cn_Addr : string;
  cn_NetMach : bool;
  cn_Consumer : bool;
  cn_Conn : option nat;
  cn_rpc : option nat;
  cn_connRetryRound : Z;
}.

(** The options, as [NewClient] sets them. *)
Record CliOpts := mkCliOpts {
  co_NoSchema : bool;
  co_Consumer : option (list string);
  co_WebSocket : string;
  co_ConnTimeout : Z;
  co_ConnRetries : Z;
  co_ConnRetryTimeout : Z;
  co_ConnRetryDelay : Z;
  co_ConnRetryBackoff : Z;
  co_CallTimeout : Z;
  co_CallRetryDelay : Z;
  co_CallRetryBackoff : Z;
  co_HelloDelay : Z;
  co_ReconnectOnDisconn : bool;
}.

Definition second : Z := 1000000000.

Definition default_opts (noSchema : bool) (consumer : option (list string)) (webSocket : string) (debug : bool)
  : CliOpts :=
  mkCliOpts noSchema consumer webSocket (3 * second) 50 (300 * second) second (10 * second)
    (if debug then 10 * (3 * second) else 3 * second) (second / 10) (10 * second) 0 true.

(** [notConsumer]: what [Implements] answers of the consumer's states. *)
Definition NewClient (addr id randId : string) (consumer : option (list string))
    (notConsumer : list string → option string) : string + (string * RpcClient) :=
  let id := if bool_decide (id = "") then randId else id in
  match consumer with
  | None => inr (id, mkRpcClient addr false false None None 0)
  | Some names =>
      match notConsumer names with
      | Some err => inl ("consumer has to implement pkg/rpc/states/ConsumerStatesDef: " +:+ err)
      | None => inr (id, mkRpcClient addr false true None None 0)
      end
  end.

(** Goroutines. *)
Inductive CliGo :=
| GoConnect
| GoRun (client : nat)
| GoDisconnect
| GoWatch
| GoHandshake
| GoRetry.

Definition M := Mem RpcClient RpcCall CliGo.

Definition set_conn (conn : option nat) (c : RpcClient) : RpcClient :=
  mkRpcClient c.(cn_Addr) c.(cn_NetMach) c.(cn_Consumer) conn c.(cn_rpc) c.(cn_connRetryRound).
Definition set_rpc (rpc : option nat) (c : RpcClient) : RpcClient :=
  mkRpcClient c.(cn_Addr) c.(cn_NetMach) c.(cn_Consumer) c.(cn_Conn) rpc c.(cn_connRetryRound).
Definition set_round (n : Z) (c : RpcClient) : RpcClient :=
  mkRpcClient c.(cn_Addr) c.(cn_NetMach) c.(cn_Consumer) c.(cn_Conn) c.(cn_rpc) n.
Definition set_net (b : bool) (c : RpcClient) : RpcClient :=
  mkRpcClient c.(cn_Addr) b c.(cn_Consumer) c.(cn_Conn) c.(cn_rpc) c.(cn_connRetryRound).

(** [made]: the error of making the network machine. *)
Definition StartState (made : option string) : held M () :=
  match made with
  | Some err => tell (RErr "Exception" err NoArgs) ;; tell (RRemove ["Start"] NoArgs)
  | None => put (set_net true)
  end.

(** [before]: the states active before the transition. *)
Definition StartEnd (before : list string) : held M () :=
  if contains before "Connecting" && contains before "Exception" then mret ()
  else if contains before "Connecting" || contains before "Connected"
  then tell (RAdd ["Disconnecting"] NoArgs)
  else mret ().

Definition ConnectingEnter (c : RpcClient) : bool :=
  negb (bool_decide (c.(cn_Addr) = "")) || bool_decide (is_Some c.(cn_Conn)).

Definition ConnectingState : held M () := spawn GoConnect.

(** [bindRpcHandlers], with the new client. *)
Definition client_methods : list string :=
  ["ClientSetClock"; "ClientSetClockMany"; "ClientSendPayload"; "ClientBye"; "SchemaChange"].
Definition bindRpcHandlers (client : nat) : held M () :=
  tell (RHandle client_methods) ;; put (set_rpc (Some client)).

(** The goroutine. [ws]: whether a WebSocket is dialed; [dial]: the connection or
    the error; [expired]: whether the context ended while a TCP one was dialed. *)
Definition connect (ws expired : bool) (dial : string + nat) (client : nat) : held M () :=
  c ← peek;
  ok ← (match c.(cn_Conn) with
        | Some _ => mret true
        | None =>
            if negb ws && expired then mret false
            else match dial with
            | inl err => tell (RAdd ["Disconnected"] NoArgs) ;; tell (AddErrNetwork err) ;; mret false
            | inr conn => put (set_conn (Some conn)) ;; mret true
            end
        end);
  if ok : bool then bindRpcHandlers client ;; spawn (GoRun client) else mret ().

(** The goroutine that runs the client adds [Connected] from one more. *)
Definition run_client : RpcCall := RAdd ["Connected"] NoArgs.

Definition DisconnectingEnter (c : RpcClient) : bool :=
  bool_decide (is_Some c.(cn_rpc)) && bool_decide (is_Some c.(cn_Conn)).

Definition DisconnectingState : held M () := spawn GoDisconnect.

Definition GroupConnected : list string := ["Connecting"; "Connected"; "Disconnecting"; "Disconnected"].

(** [active], [willBe]: whether one of the group is, or is queued. *)
Definition ensureGroupConnected (active willBe : bool) : list RpcCall :=
  if negb active && negb willBe then [RAdd ["Disconnected"] NoArgs] else [].

(** The goroutine. [expired]: when the context ended: before it, in the cooldown,
    while closing, or not at all. *)
Inductive Expires := ExpBefore | ExpCooldown | ExpClosing | ExpNever.

Definition disconnect (c : RpcClient) (exp : Expires) (active willBe : bool) : list RpcCall :=
  match exp with
  | ExpBefore => []
  | ExpCooldown => [RNotify "Close"] ++ ensureGroupConnected active willBe
  | ExpClosing =>
      [RNotify "Close"] ++ match c.(cn_rpc) with Some _ => [RClose "rpc"] | None => [] end
      ++ ensureGroupConnected active willBe
  | ExpNever =>
      [RNotify "Close"] ++ match c.(cn_rpc) with Some _ => [RClose "rpc"] | None => [] end
      ++ [RAdd ["Disconnected"] NoArgs] ++ ensureGroupConnected active willBe
  end.

Definition ConnectedState : held M () :=
  c ← peek;
  match c.(cn_rpc) with
  | None => nil_panic
  | Some _ => put (set_round 0) ;; spawn GoWatch
  end.

(** [closed]: the connection ended, rather than the state. *)
Definition watch (closed : bool) : list RpcCall := if closed then [RAdd ["Disconnected"] NoArgs] else [].

Definition DisconnectedEnter (willDisconnect : bool) : bool := negb willDisconnect.

Definition DisconnectedState (o : CliOpts) (before : list string) : held M () :=
  put (set_conn None) ;;
  if (contains before "Connected" || contains before "Connecting") && o.(co_ReconnectOnDisconn)
  then tell (RAdd ["RetryingConn"] NoArgs) else mret ().

Definition HandshakingState : held M () := spawn GoHandshake.

(** What a call over the connection ends in: with its answer, the context, its own
    timeout, an error set by a test, an error ([opErr]: a [net.OpError]), or a
    panic that [PanicToErr] takes. *)
Inductive CallEnd :=
| CallOk
| CallExpired
| CallTimeout (err : string)
| CallTest (err : string)
| CallFailed (err : string) (opErr : bool)
| CallPanic (err : string).

(** [Client.call]: whether it succeeded, and the error it adds. *)
Definition call_end (mName : string) (r : CallEnd) : bool * list RpcCall :=
  match r with
  | CallOk => (true, [])
  | CallExpired => (false, [])
  | CallTimeout err => (false, [AddErrNetworkTimeout err])
  | CallTest err => (false, [AddErrNetwork (err +:+ ": " +:+ mName)])
  | CallFailed err opErr => (false, [AddErr mName err opErr])
  | CallPanic err => (false, [RErr "Exception" err NoArgs])
  end.
Definition call_ok (r : CallEnd) : bool := match r with CallOk => true | _ => false end.

(** The tries of [Hello]: [call i] is what the [i]-th call ends in, [wait i] tells
    whether the wait after it was not cut short. The waits, the errors of the
    calls, and the result: [None] when the context expired. *)
Fixpoint hello_tries (o : CliOpts) (call : nat → CallEnd) (wait : nat → bool) (n i : nat) (delay : Z)
  : list Z * list RpcCall * option bool :=
  match n with
  | O => ([], [], Some false)
  | S n =>
      let '(ok, errs) := call_end "Hello" (call i) in
      if ok : bool then ([], errs, Some true)
      else if negb (wait i) then ([delay], errs, None)
      else
        let '(waits, errs', r) := hello_tries o call wait n (S i) (backoff o.(co_CallRetryBackoff) delay) in
        (delay :: waits, errs ++ errs', r)
  end.

(** What is missing in the answer to [Hello]. [hasSchema]: the network machine has
    a schema already. *)
Definition invalid_hello (o : CliOpts) (hasSchema : bool) (resp : MsgSrvHello) : option string :=
  if bool_decide (resp.(sh_Serialized).(ser_StateNames) = []) then Some "states missing"
  else if bool_decide (resp.(sh_Serialized).(ser_ID) = "") then Some "ID missing"
  else match resp.(sh_Schema) with
  | Some _ => None
  | None => if negb hasSchema && negb o.(co_NoSchema) then Some "schema missing" else None
  end.

(** The error of [updateStatesSchema], which the handshake goes on after. *)
Definition schema_err (resp : MsgSrvHello) : list RpcCall :=
  let l1 := Z.of_nat (length resp.(sh_Serialized).(ser_StateNames)) in
  let l2 := Z.of_nat (length resp.(sh_Serialized).(ser_Time)) in
  if bool_decide (l1 = l2) then []
  else [RErr "Exception" ("resp.Serialized len invalid: " +:+ pretty l1 +:+ " != " +:+ pretty l2) NoArgs].

(** The goroutine of [Handshaking] past the delay: the errors of its calls, and
    what it ends in; [confirm]: what the call of [Handshake] ends in.  What
    [updateStatesSchema] sets, and the tags, are in [Rpc]. *)
Definition shake_hands (o : CliOpts) (call : nat → CallEnd) (wait : nat → bool) (hasSchema : bool)
    (resp : MsgSrvHello) (confirm : CallEnd) : list RpcCall :=
  let '(_, errs, r) := hello_tries o call wait (Z.to_nat o.(co_ConnRetries)) 0 o.(co_CallRetryDelay) in
  errs ++
  match r with
  | None => []
  | Some false => [RAdd ["RetryingConn"] NoArgs]
  | Some true =>
      match invalid_hello o hasSchema resp with
      | Some msg => [AddErrRpcStr msg]
      | None =>
          let '(ok, errs) := call_end "Handshake" confirm in
          schema_err resp ++ errs
          ++ if negb ok then [RAdd ["RetryingConn"] NoArgs]
             else [RAdd ["HandshakeDone"]
                     (ArgsHandshake resp.(sh_Serialized).(ser_ID) (Some resp.(sh_Serialized).(ser_Time))
                        resp.(sh_Serialized).(ser_QueueTick))]
      end
  end.

Definition CallRetryFailedState : held M () := tell (RRemove ["CallRetryFailed"] NoArgs).

Definition RetryingCallEnter (active : list string) : bool :=
  contains active "Connected" || contains active "RetryingConn".

(** Past the shared exception handler. *)
Definition ExceptionState : held M () := tell (RRemove ["Exception"] NoArgs).

Definition RetryingConnState : held M () := spawn GoRetry.

(** A round of the goroutine: where the context expired in it ([None]: it did
    not), and the time since the start at its end. *)
Inductive RetryAt := AtLoop | AtWait | AtAdd | AtConnect.
Record RetryRound := mkRetryRound { rr_expired : option RetryAt; rr_elapsed : Z }.

(** What the rounds do: the waits, the calls, the counter, and whether the context
    is still there at the end. *)
Fixpoint retry_rounds (o : CliOpts) (env : nat → RetryRound) (n i : nat) (round delay : Z)
  : list Z * list RpcCall * Z * bool :=
  match n with
  | O => ([], [], round, true)
  | S n =>
      let round' := wrap_s32 (round + 1) in
      match (env i).(rr_expired) with
      | Some AtLoop => ([], [], round, false)
      | Some AtWait => ([delay], [], round', false)
      | Some _ => ([delay], [RAdd ["Connecting"] NoArgs], round', false)
      | None =>
          let cs := [RAdd ["Connecting"] NoArgs; RRemove ["Exception"] NoArgs] in
          if bool_decide (0 < o.(co_ConnRetryTimeout)) && bool_decide (o.(co_ConnRetryTimeout) < (env i).(rr_elapsed))
          then ([delay], cs, round', true)
          else
            let '(waits, cs', round, alive) :=
              retry_rounds o env n (S i) round' (backoff o.(co_ConnRetryBackoff) delay) in
            (delay :: waits, cs ++ cs', round, alive)
      end
  end.

(** The goroutine of [RetryingConn]. *)
Definition retry_conn (o : CliOpts) (env : nat → RetryRound) (c : RpcClient)
  : list Z * list RpcCall * RpcClient :=
  let n := Z.to_nat (wrap_s32 o.(co_ConnRetries) - c.(cn_connRetryRound)) in
  let '(waits, cs, round, alive) := retry_rounds o env n 0 c.(cn_connRetryRound) o.(co_ConnRetryDelay) in
  (waits,
   cs ++ (if alive then [RRemove ["RetryingConn"] NoArgs; RAdd ["ConnRetryFailed"] NoArgs] else []),
   set_round round c).

Definition ServerPayloadEnter (c : RpcClient) (name : string) (payload : option MsgSrvPayload)
  : bool * list RpcCall :=
  if negb c.(cn_Consumer) then (false, [])
  else match payload with
  | None => (false, [RErr "ErrDelivery" "invalid payload" (ArgsName name)])
  | Some _ => (true, [])
  end.

Definition ServerPayloadState (name : string) (payload : option MsgSrvPayload) : held M () :=
  c ← peek;
  if c.(cn_Consumer) then tell (RConsumer ["ServerPayload"] (ArgsPayload name payload)) else nil_panic.

Definition HealthcheckState (active willBe : bool) : held M () :=
  tell (RRemove ["Healthcheck"] NoArgs) ;; tells (ensureGroupConnected active willBe).

Definition Start : RpcCall := RAdd ["Start"; "Connecting"] NoArgs.

(** [res]: the result of adding [Disconnecting]; [waited]: what the wait for
    [Disconnected] ends in, when the caller has a context. *)
Definition Stop (res : Z) (waited : option Waited) (dispose : bool) : held M Z :=
  tell (RAdd ["Disconnecting"] NoArgs) ;;
  (match waited with
   | Some (WErr _) | Some WExpired =>
       if negb (bool_decide (res = Canceled)) then tell (RRemove ["Start"] NoArgs) else mret ()
   | _ => mret ()
   end) ;;
  (if dispose then
     tell RDispose ;;
     c ← peek;
     if c.(cn_NetMach) then tell RDisposeNet else nil_panic
   else mret ()) ;;
  mret res.

Definition IsPartial (skipped : list string) : bool := negb (bool_decide (skipped = [])).

(** [resp]: the answer of the server, if there is one. *)
Definition Args (resp : option (list string)) : option (list string) := resp.

Definition RemoteSendingPayload (p : MsgSrvPayload) : RpcCall :=
  RAdd ["ServerDelivering"] (ArgsPayload p.(pl_Name) (Some p)).
Definition RemoteSendPayload (p : MsgSrvPayload) : RpcCall :=
  RAdd ["ServerPayload"] (ArgsPayload p.(pl_Name) (Some p)).
Definition RemoteBye : RpcCall := RRemove ["Start"] NoArgs.

(** ** What the loops do *)

(** The first [n] waits. *)
Definition waits_of (max delay : Z) (n : nat) : list Z := (λ k, Nat.iter k (backoff max) delay) <$> seq 0 n.

Lemma waits_of_S max delay n : waits_of max delay (S n) = delay :: waits_of max (backoff max delay) n.
Proof.
  unfold waits_of. cbn [seq fmap list_fmap]. f_equal. rewrite <- fmap_S_seq, <- list_fmap_compose.
  apply list_fmap_ext. intros i k _. cbn. by rewrite Nat.iter_swap.
Qed.

Lemma waits_of_0 max delay : waits_of max delay 0 = [].
Proof. done. Qed.

Definition is_err (c : RpcCall) : bool := match c with RErr _ _ _ => true | _ => false end.

(** A call that fails adds at most one error, one that succeeds none. *)
Lemma call_end_spec mName r :
  (call_end mName r).1 = call_ok r ∧ Forall (λ c, is_err c = true) (call_end mName r).2
  ∧ (length (call_end mName r).2 ≤ 1)%nat ∧ (call_ok r = true → (call_end mName r).2 = []).
Proof.
  destruct r; cbn; split_and!; try done; try lia; repeat constructor.
  unfold AddErr. destruct (bool_decide _); by repeat case_match.
Qed.

Lemma hello_tries_waits o call wait n i delay :
  let '(waits, errs, r) := hello_tries o call wait n i delay in
  waits = waits_of o.(co_CallRetryBackoff) delay (length waits) ∧ (length waits ≤ n)%nat
  ∧ Forall (λ c, is_err c = true) errs ∧ (length errs ≤ n)%nat.
Proof.
  revert i delay. induction n as [|n IH]; intros i delay; [done|]. cbn.
  destruct (call_end_spec "Hello" (call i)) as (_ & He & Hl & _).
  destruct (call_end "Hello" (call i)) as [[] errs]; cbn in *; [split_and!; [done|lia|done|lia]|].
  destruct (wait i); cbn; [|split_and!; [done|lia|done|lia]].
  specialize (IH (S i) (backoff o.(co_CallRetryBackoff) delay)).
  destruct (hello_tries o call wait n (S i) _) as [[waits errs'] r]. destruct IH as (IH & Hw & He' & Hl').
  cbn [length]. rewrite waits_of_S, <- IH, length_app. split_and!; [done|lia|by apply Forall_app|lia].
Qed.

(** The first call that succeeds ends them, unless a wait was cut short before. *)
Lemma hello_tries_ok o call wait n i delay :
  (hello_tries o call wait n i delay).2 = Some true
  ↔ ∃ j, (j < n)%nat ∧ call_ok (call (i + j)%nat) = true
         ∧ ∀ k, (k < j)%nat → call_ok (call (i + k)%nat) = false ∧ wait (i + k)%nat = true.
Proof.
  revert i delay. induction n as [|n IH]; intros i delay; cbn.
  { split; [done|]. intros (j & Hj & _). lia. }
  destruct (call_end_spec "Hello" (call i)) as (Hc & _). destruct (call_end "Hello" (call i)) as [[] errs]; cbn in Hc |- *.
  { split; [|done]. intros _. exists 0%nat. rewrite Nat.add_0_r. split; [lia|]. split; [done|]. intros k Hk. lia. }
  destruct (wait i) eqn:Hw; cbn.
  - specialize (IH (S i) (backoff o.(co_CallRetryBackoff) delay)).
    destruct (hello_tries o call wait n (S i) _) as [[waits errs'] r]. cbn in *. rewrite IH. split.
    + intros (j & Hj & Hok & Hb). exists (S j). rewrite Nat.add_succ_r. split; [lia|]. split; [done|].
      intros [|k] Hk; [by rewrite Nat.add_0_r|]. rewrite Nat.add_succ_r. apply Hb. lia.
    + intros ([|j] & Hj & Hok & Hb); [rewrite Nat.add_0_r in Hok; congruence|].
      exists j. rewrite Nat.add_succ_r in Hok. split; [lia|]. split; [done|].
      intros k Hk. specialize (Hb (S k)). rewrite Nat.add_succ_r in Hb. apply Hb. lia.
  - split; [done|]. intros ([|j] & Hj & Hok & Hb); [rewrite Nat.add_0_r in Hok; congruence|].
    destruct (Hb 0%nat) as [_ Hb0]; [lia|]. rewrite Nat.add_0_r in Hb0. congruence.
Qed.

(** A handshake is shaped so: errors, and then at most one mutation. *)
Definition shaped (n : nat) (cs : list RpcCall) : Prop :=
  ∃ errs asks, cs = errs ++ asks ∧ Forall (λ c, is_err c = true) errs ∧ Forall (λ c, is_err c = false) asks
    ∧ (length asks ≤ 1)%nat ∧ (length errs ≤ n)%nat.

Lemma shaped_one n c : is_err c = false → shaped n [c].
Proof. intros Hc. exists [], [c]. split_and!; [done|done|by repeat constructor|cbn; lia..]. Qed.
Lemma shaped_err n c : is_err c = true → shaped (S n) [c].
Proof. intros Hc. exists [c], []. split_and!; [done|by repeat constructor|done|cbn; lia..]. Qed.
Lemma shaped_app n k errs cs :
  Forall (λ c, is_err c = true) errs → (length errs ≤ n)%nat → shaped k cs → shaped (n + k) (errs ++ cs).
Proof.
  intros He Hl (es & asks & -> & H1 & H2 & H3 & H4). exists (errs ++ es), asks.
  rewrite length_app, app_assoc. split_and!; [done|by apply Forall_app|done|done|lia].
Qed.

(** What an answer needs. *)
Lemma invalid_hello_spec o hasSchema resp :
  invalid_hello o hasSchema resp = None
  ↔ resp.(sh_Serialized).(ser_StateNames) ≠ [] ∧ resp.(sh_Serialized).(ser_ID) ≠ ""
    ∧ (is_Some resp.(sh_Schema) ∨ hasSchema = true ∨ o.(co_NoSchema) = true).
Proof.
  unfold invalid_hello. case_bool_decide; [naive_solver|]. case_bool_decide; [naive_solver|].
  destruct (sh_Schema resp); [split; [eauto|done]|]. destruct hasSchema, (co_NoSchema o); cbn; split; try done; eauto.
  intros (_ & _ & [[? [=]]|[[=]|[=]]]).
Qed.

(** C35: a handshake is done exactly when it should be: the client asks for
    [HandshakeDone] if and only if one of the tries of [Hello] is answered before
    they run out and before a wait is cut short, the answer has states, an
    identifier and, when the client needs one, a schema, and the server took the
    confirmation; it passes on what the server answered.  Whatever happens, what it
    does to its machine are errors - at most one for each call, and one for an
    answer that is not right - and after them at most one mutation. *)
Theorem shake_hands_spec (o : CliOpts) (call : nat → CallEnd) (wait : nat → bool) (hasSchema : bool)
    (resp : MsgSrvHello) (confirm : CallEnd) :
  let cs := shake_hands o call wait hasSchema resp confirm in
  let finish := RAdd ["HandshakeDone"] (ArgsHandshake resp.(sh_Serialized).(ser_ID)
                (Some resp.(sh_Serialized).(ser_Time)) resp.(sh_Serialized).(ser_QueueTick)) in
  shaped (Z.to_nat o.(co_ConnRetries) + 2) cs
  ∧ (finish ∈ cs
     ↔ (∃ j, Z.of_nat j < o.(co_ConnRetries) ∧ call_ok (call j) = true
             ∧ ∀ k, (k < j)%nat → call_ok (call k) = false ∧ wait k = true)
       ∧ resp.(sh_Serialized).(ser_StateNames) ≠ [] ∧ resp.(sh_Serialized).(ser_ID) ≠ ""
       ∧ (is_Some resp.(sh_Schema) ∨ hasSchema = true ∨ o.(co_NoSchema) = true)
       ∧ call_ok confirm = true).
Proof.
  pose proof (hello_tries_ok o call wait (Z.to_nat o.(co_ConnRetries)) 0 o.(co_CallRetryDelay)) as Hh.
  pose proof (hello_tries_waits o call wait (Z.to_nat o.(co_ConnRetries)) 0 o.(co_CallRetryDelay)) as Hw.
  cbv zeta. set (finish := RAdd ["HandshakeDone"] _). set (n := Z.to_nat o.(co_ConnRetries)) in *.
  assert (Hj : (∃ j, Z.of_nat j < o.(co_ConnRetries) ∧ call_ok (call j) = true
             ∧ ∀ k, (k < j)%nat → call_ok (call k) = false ∧ wait k = true)
    ↔ (hello_tries o call wait n 0 o.(co_CallRetryDelay)).2 = Some true).
  { rewrite Hh. split; intros (j & Hj & H); exists j; (split; [lia|exact H]). }
  rewrite Hj. clear Hh Hj. unfold shake_hands. fold n finish.
  destruct (hello_tries _ _ _ _ _ _) as [[waits errs] r]. destruct Hw as (_ & _ & He & Hl). cbn [snd].
  assert (Hno : ∀ l, Forall (λ c, is_err c = true) l → finish ∉ l).
  { intros l Hf Hin. rewrite Forall_forall in Hf. by specialize (Hf _ Hin). }
  destruct (call_end_spec "Handshake" confirm) as (Hok & Hce & Hcl & _).
  destruct (call_end "Handshake" confirm) as [ok errs2]. cbn [fst snd] in Hok, Hce, Hcl.
  assert (Hse : Forall (λ c, is_err c = true) (schema_err resp) ∧ (length (schema_err resp) ≤ 1)%nat).
  { unfold schema_err. case_bool_decide; split; by repeat constructor. }
  destruct Hse as [Hse Hsl]. rewrite elem_of_app. pose proof (invalid_hello_spec o hasSchema resp) as Hinv.
  assert (H0 : finish ∉ errs) by by apply Hno.
  split; [apply shaped_app; [done|done|]|];
    (destruct r as [[]|]; [destruct (invalid_hello o hasSchema resp) as [msg|]| |]).
  - by apply (shaped_err 1).
  - apply (shaped_app 1 1), (shaped_app 1 0); [done..|]. destruct ok; by apply shaped_one.
  - by apply shaped_one.
  - exists [], []. split_and!; [done..|cbn; lia|cbn; lia].
  - split; [intros [?|Hin]; [done|set_solver]|]. intros (_ & H1 & H2 & H3 & _). by destruct Hinv as [_ Hinv]; specialize (Hinv (conj H1 (conj H2 H3))).
  - destruct Hinv as [Hinv _]. destruct (Hinv eq_refl) as (H1 & H2 & H3). rewrite !elem_of_app, <- Hok.
    split; [|intros (_ & _ & _ & _ & ->); right; right; right; left].
    intros [?|[Hin|[Hin|Hin]]]; [done|by apply Hno in Hin..|]. destruct ok; [done|set_solver].
  - split; [intros [?|Hin]; [done|set_solver]|naive_solver].
  - split; [intros [?|Hin]; [done|set_solver]|naive_solver].
Qed.

Lemma retry_rounds_waits o env n i round delay :
  let '(waits, cs, round', alive) := retry_rounds o env n i round delay in
  waits = waits_of o.(co_ConnRetryBackoff) delay (length waits) ∧ (length waits ≤ n)%nat
  ∧ (0 ≤ round → round + Z.of_nat n < 2 ^ 31 → round' = round + Z.of_nat (length waits))
  ∧ ((∀ j, (env j).(rr_expired) = None) →
     alive = true
     ∧ cs = concat (replicate (length waits) [RAdd ["Connecting"] NoArgs; RRemove ["Exception"] NoArgs])
     ∧ ((∀ j, (env j).(rr_elapsed) ≤ o.(co_ConnRetryTimeout)) → length waits = n)).
Proof.
  revert i round delay. induction n as [|n IH]; intros i round delay.
  { cbn. split; [done|]. split; [lia|]. split; [lia|done]. }
  assert (Hr : 0 ≤ round → round + Z.of_nat (S n) < 2 ^ 31 → wrap_s32 (round + 1) = round + 1).
  { intros H1 H2. unfold wrap_s32. rewrite Z.mod_small; lia. }
  cbn [retry_rounds]. destruct (rr_expired (env i)) as [[]|] eqn:He.
  1-4: cbn; split; [done|]; split; [lia|]; split; [intros H1 H2; rewrite ?Hr by lia; lia|];
    intros Hn; specialize (Hn i); congruence.
  destruct (_ && _) eqn:Ht.
  - apply andb_true_iff in Ht as [_ Ht%bool_decide_eq_true]. cbn.
    split; [done|]. split; [lia|]. split; [intros H1 H2; rewrite Hr by lia; lia|].
    intros _. split; [done|]. split; [done|]. intros Hn. specialize (Hn i). lia.
  - specialize (IH (S i) (wrap_s32 (round + 1)) (backoff o.(co_ConnRetryBackoff) delay)).
    destruct (retry_rounds _ _ _ _ _ _) as [[[waits cs] round'] alive]. destruct IH as (IH1 & IH2 & IH3 & IH4).
    cbn [length]. rewrite waits_of_S, <- IH1. split; [done|]. split; [lia|]. split.
    + intros H1 H2. rewrite Hr in IH3 by lia. rewrite IH3; lia.
    + intros Hn. destruct (IH4 Hn) as (-> & -> & H). split; [done|]. split; [done|]. intros Hm. by rewrite H.
Qed.

(** reconnecting is bounded.  A client in [RetryingConn] waits before each of
    at most [ConnRetries] tries, counting those since it was last connected, twice
    as long as before the previous one, up to the maximum, and counts them; if it
    is not stopped or connected meanwhile it uses all of them, unless the time is
    up, and ends in [ConnRetryFailed]. *)
Theorem retry_conn_spec (o : CliOpts) (env : nat → RetryRound) (c : RpcClient) :
  0 < o.(co_ConnRetryDelay) ≤ o.(co_ConnRetryBackoff) → o.(co_ConnRetryBackoff) < 2 ^ 62 →
  0 ≤ c.(cn_connRetryRound) ≤ o.(co_ConnRetries) → o.(co_ConnRetries) < 2 ^ 31 →
  let '(waits, cs, c') := retry_conn o env c in
  waits = (λ k : nat, Z.min o.(co_ConnRetryBackoff) (o.(co_ConnRetryDelay) * 2 ^ Z.of_nat k)) <$> seq 0 (length waits)
  ∧ Z.of_nat (length waits) ≤ o.(co_ConnRetries) - c.(cn_connRetryRound)
  ∧ c'.(cn_connRetryRound) = c.(cn_connRetryRound) + Z.of_nat (length waits)
  ∧ ((∀ i, (env i).(rr_expired) = None) →
     cs = concat (replicate (length waits) [RAdd ["Connecting"] NoArgs; RRemove ["Exception"] NoArgs])
          ++ [RRemove ["RetryingConn"] NoArgs; RAdd ["ConnRetryFailed"] NoArgs]
     ∧ ((∀ i, (env i).(rr_elapsed) ≤ o.(co_ConnRetryTimeout)) →
        Z.of_nat (length waits) = o.(co_ConnRetries) - c.(cn_connRetryRound))).
Proof.
  intros Hd Hb Hc Hn. unfold retry_conn.
  assert (wrap_s32 o.(co_ConnRetries) = o.(co_ConnRetries)) as ->
    by (unfold wrap_s32; rewrite Z.mod_small; lia).
  set (n := Z.to_nat (o.(co_ConnRetries) - c.(cn_connRetryRound))).
  pose proof (retry_rounds_waits o env n 0 c.(cn_connRetryRound) o.(co_ConnRetryDelay)) as H.
  destruct (retry_rounds _ _ _ _ _ _) as [[[waits cs] round'] alive]. destruct H as (H1 & H2 & H3 & H4).
  split; [|split; [lia|split; [cbn; apply H3; lia|]]].
  - rewrite H1 at 1. unfold waits_of. apply list_fmap_ext. intros i k _. apply backoff_iter; lia.
  - intros Hx. destruct (H4 Hx) as (-> & -> & H). split; [done|]. intros Ht. rewrite H by done. lia.
Qed.

Definition client1 : RpcClient := mkRpcClient "localhost:1" true false None None 48.

Lemma retry_conn_spec_witness :
  let '(waits, cs, c') := retry_conn (default_opts false None "" false) (λ _, mkRetryRound None 0) client1 in
  Z.of_nat (length waits) = 2 ∧ c'.(cn_connRetryRound) = 50.
Proof.
  pose proof (retry_conn_spec (default_opts false None "" false) (λ _, mkRetryRound None 0) client1) as H.
  destruct (retry_conn _ _ _) as [[waits cs] c'].
  destruct H as (_ & _ & Hr & H); [by vm_compute..|].
  destruct H as [_ H]; [done|]. rewrite Hr, H; by vm_compute.
Defined.
End Cli.

(** ** Servers *)
Module Srv.
Import Errs.

(** The options of [ServerOpts] and the settings of the server that its
    connection uses. *)
Record SrvOpts := mkSrvOpts {
  so_WebSocket : bool;
  so_WebSocketTunnel : string;
  so_PushInterval : Z;
  so_WsTunReconn : bool;
  so_WsTunConnRetries : Z;
  so_WsTunConnRetryTimeout : Z;
  so_WsTunConnRetryDelay : Z;
  so_WsTunConnRetryBackoff : Z;
}.

Definition default_opts (webSocket : bool) (tunnel : string) (debug : bool) : SrvOpts :=
  mkSrvOpts webSocket tunnel (Cli.second / 4) true 50 (if debug then 3000 * Cli.second else 300 * Cli.second)
    Cli.second (10 * Cli.second).

(** What [NewServer] validates, in its order. [hasStates]: the source has the
    states of [StateSourceStates]. *)
Definition NewServer_err (webSocket : bool) (tunnel addr : string) (source verified hasHandlers hasStates : bool)
  : option string :=
  if negb (bool_decide (tunnel = "")) && bool_decide (addr = "") then Some "addr required for WebSocketTunnel"
  else if webSocket && bool_decide (addr = "") then Some "addr required for WebSocket"
  else if negb source then Some "netSrcMach required"
  else if negb verified then Some "net source states not verified, call VerifyStates()"
  else if hasHandlers && negb hasStates
  then Some "schema error: NetSourceMach with handlers has to implement pkg/rpc/states/StateSourceStatesDef"
  else None.

(** A ticker of the library: whether it still ticks. *)
Record RpcServer := mkRpcServer {
  sn_Addr : string;
  sn_Listener : option string;
  sn_Conn : option string;
  sn_wsConn : bool;
  sn_wsTunRetryRound : Z;
  sn_bound : bool;
  sn_rpcClient : option nat;
  sn_clientId : option string;
  sn_ticker : option bool;
}.

Definition new_server (addr : string) : RpcServer :=
  mkRpcServer addr None None false 0 false None None None.

Definition set_addr (addr : string) (s : RpcServer) : RpcServer :=
  mkRpcServer addr s.(sn_Listener) s.(sn_Conn) s.(sn_wsConn) s.(sn_wsTunRetryRound) s.(sn_bound)
    s.(sn_rpcClient) s.(sn_clientId) s.(sn_ticker).
Definition set_listener (l : option string) (s : RpcServer) : RpcServer :=
  mkRpcServer s.(sn_Addr) l s.(sn_Conn) s.(sn_wsConn) s.(sn_wsTunRetryRound) s.(sn_bound)
    s.(sn_rpcClient) s.(sn_clientId) s.(sn_ticker).
Definition set_conn (c : option string) (s : RpcServer) : RpcServer :=
  mkRpcServer s.(sn_Addr) s.(sn_Listener) c s.(sn_wsConn) s.(sn_wsTunRetryRound) s.(sn_bound)
    s.(sn_rpcClient) s.(sn_clientId) s.(sn_ticker).
Definition set_ws (ws : bool) (s : RpcServer) : RpcServer :=
  mkRpcServer s.(sn_Addr) s.(sn_Listener) s.(sn_Conn) ws s.(sn_wsTunRetryRound) s.(sn_bound)
    s.(sn_rpcClient) s.(sn_clientId) s.(sn_ticker).
Definition set_round (n : Z) (s : RpcServer) : RpcServer :=
  mkRpcServer s.(sn_Addr) s.(sn_Listener) s.(sn_Conn) s.(sn_wsConn) n s.(sn_bound)
    s.(sn_rpcClient) s.(sn_clientId) s.(sn_ticker).
Definition set_bound (b : bool) (s : RpcServer) : RpcServer :=
  mkRpcServer s.(sn_Addr) s.(sn_Listener) s.(sn_Conn) s.(sn_wsConn) s.(sn_wsTunRetryRound) b
    s.(sn_rpcClient) s.(sn_clientId) s.(sn_ticker).
Definition set_client (c : option nat) (id : option string) (s : RpcServer) : RpcServer :=
  mkRpcServer s.(sn_Addr) s.(sn_Listener) s.(sn_Conn) s.(sn_wsConn) s.(sn_wsTunRetryRound) s.(sn_bound)
    c id s.(sn_ticker).
Definition set_ticker (t : option bool) (s : RpcServer) : RpcServer :=
  mkRpcServer s.(sn_Addr) s.(sn_Listener) s.(sn_Conn) s.(sn_wsConn) s.(sn_wsTunRetryRound) s.(sn_bound)
    s.(sn_rpcClient) s.(sn_clientId) t.

Inductive SrvGo := GoHttp | GoListen | GoServe | GoTicks | GoShutdown.

Definition M := Mem RpcServer RpcCall SrvGo.

(** What [NewServer] does when its machine is disposed. *)
Definition on_dispose : held M () :=
  s ← peek;
  (match s.(sn_Listener) with Some _ => tell (RClose "listener") ;; put (set_listener None) | None => mret () end) ;;
  put (set_bound false) ;;
  tell RDetach.

(** Past the shared exception handler. [tunnel]: the state [WebSocketTunnel] is
    active; [netErr]: [ErrNetwork] was added by the transition. *)
Definition ExceptionState (o : SrvOpts) (tunnel netErr : bool) : held M () :=
  if negb tunnel then mret ()
  else
    s ← peek;
    (if s.(sn_wsConn) then tell (RClose "ws") else mret ()) ;;
    (match s.(sn_Conn) with Some _ => tell (RClose "conn") | None => mret () end) ;;
    if netErr && bool_decide (s.(sn_wsTunRetryRound) < wrap_s32 o.(so_WsTunConnRetries)) && o.(so_WsTunReconn)
    then tell (RRemove ["Exception"] NoArgs) ;; tell (RAdd ["RpcStarting"] NoArgs)
    else mret ().

Definition StartState (o : SrvOpts) : held M () :=
  if o.(so_WebSocket) then spawn GoHttp else mret ().

(** The goroutine: what serving HTTP ends in. *)
Definition serve_http (err : option string) : list RpcCall :=
  match err with
  | Some err => [AddErrNetwork err; RRemove ["RpcStarting"] NoArgs]
  | None => []
  end.

Definition StartEnd (o : SrvOpts) (tunnel dispose : bool) : held M () :=
  s ← peek;
  (if o.(so_WebSocket) then spawn GoShutdown
   else if tunnel && s.(sn_wsConn) then tell (RClose "ws")
   else mret ()) ;;
  if dispose then tell RDispose else mret ().

Definition RpcStartingEnter (s : RpcServer) : bool :=
  negb (bool_decide (s.(sn_Addr) = "") && bool_decide (s.(sn_Listener) = None) && bool_decide (s.(sn_Conn) = None)).

Definition server_methods : list string :=
  ["Hello"; "Handshake"; "Add"; "AddNS"; "Remove"; "Set"; "Sync"; "ArgsBase"; "Close"].
Definition bindRpcHandlers : held M () := put (set_bound true) ;; tell (RHandle server_methods).

Definition RpcStartingState (o : SrvOpts) : held M () :=
  bindRpcHandlers ;;
  if o.(so_WebSocket) then mret () else spawn GoListen.

(** A round of dialing a tunnel: whether the context expired before it, whether in
    the wait; the connection or the error, and whether that is a timeout; the time
    since the start after it. *)
Record Dial := mkDial {
  dl_expired : bool;
  dl_waited : bool;
  dl_conn : (string * bool) + string;
  dl_elapsed : Z;
}.

(** The rounds: the waits, the errors, the server, and whether the loop ended
    rather than expired in a wait. *)
Fixpoint dial_rounds (o : SrvOpts) (env : nat → Dial) (n i : nat) (delay : Z) (s : RpcServer)
  : list Z * list RpcCall * RpcServer * bool :=
  match n with
  | O => ([], [], s, true)
  | S n =>
      let d := env i in
      if d.(dl_expired) || negb (o.(so_WsTunReconn) || bool_decide (s.(sn_wsTunRetryRound) = 0))
         || negb (bool_decide (s.(sn_wsTunRetryRound) < wrap_s32 o.(so_WsTunConnRetries)))
      then ([], [], s, true)
      else
        let s := set_round (wrap_s32 (s.(sn_wsTunRetryRound) + 1)) s in
        if negb d.(dl_waited) then ([delay], [], s, false)
        else match d.(dl_conn) with
        | inr conn => ([delay], [], set_round 0 (set_conn (Some conn) (set_ws true s)), true)
        | inl (err, timeout) =>
            let e := if timeout : bool then AddErrNetworkTimeout err else AddErrNetwork err in
            if bool_decide (0 < o.(so_WsTunConnRetryTimeout))
               && bool_decide (o.(so_WsTunConnRetryTimeout) < d.(dl_elapsed))
            then ([delay], [e], s, true)
            else
              let '(waits, es, s, go) := dial_rounds o env n (S i) (backoff o.(so_WsTunConnRetryBackoff) delay) s in
              (delay :: waits, e :: es, s, go)
        end
  end.

(** The goroutine of [RpcStarting]. [connAddr]: the local address of a connection;
    [listening]: the new listener's address or the error. *)
Definition listen (o : SrvOpts) (env : nat → Dial) (connAddr : string → string) (listening : string + string)
    (s : RpcServer) : list Z * list RpcCall * RpcServer :=
  let next := RAdd ["RpcAccepting"] NoArgs in
  if negb (bool_decide (o.(so_WebSocketTunnel) = "")) then
    let '(waits, es, s, go) :=
      dial_rounds o env (Z.to_nat (wrap_s32 o.(so_WsTunConnRetries))) 0 o.(so_WsTunConnRetryDelay) (set_conn None s) in
    (waits,
     es ++ (if negb go then []
            else match s.(sn_Conn) with None => [RRemove ["RpcStarting"] NoArgs] | Some _ => [next] end),
     s)
  else match s.(sn_Conn), s.(sn_Listener) with
  | Some conn, _ => ([], [next], set_addr (connAddr conn) s)
  | None, Some l => ([], [next], set_addr l s)
  | None, None =>
      match listening with
      | inl err => ([], [AddErrNetwork err; RRemove ["RpcStarting"] NoArgs], s)
      | inr addr => ([], [next], set_addr addr (set_listener (Some addr) s))
      end
  end.

Definition RpcAcceptingEnter (s : RpcServer) : bool :=
  bool_decide (is_Some s.(sn_Listener)) || bool_decide (is_Some s.(sn_Conn)).

Definition RpcAcceptingState : held M () := spawn GoServe.

Definition ready_call (s : RpcServer) : RpcCall := RAdd ["RpcReady"] (ArgsAddr s.(sn_Addr)).

(** The goroutine that accepts, once that returned: [expired], [expired2]: whether
    [Start] ended before or while the listener was closed; [start]: whether it is
    active then. *)
Definition accepted (expired expired2 start : bool) : held M () :=
  s ← peek;
  match s.(sn_Conn), s.(sn_Listener) with
  | None, None => tell (AddErrNetwork "no listener") ;; tell (RRemove ["RpcReady"] NoArgs)
  | _, lis =>
      if expired then mret ()
      else
        (match lis with
         | Some _ => tell (RClose "listener") ;; put (set_listener None)
         | None => mret ()
         end) ;;
        if expired2 || negb start then mret ()
        else tell (RRemove ["RpcReady"] NoArgs) ;; tell (RAdd ["RpcStarting"] NoArgs)
  end.

Definition on_disconnect (client : nat) : RpcCall := RRemove ["ClientConnected"] (ArgsClient client).
Definition on_connect (client : nat) : RpcCall := RAdd ["ClientConnected"] (ArgsClient client).

Definition RpcReadyEnter (active : list string) : bool := contains active "RpcAccepting".

(** A new ticker is made only the first time. *)
Definition RpcReadyState (o : SrvOpts) : held M () :=
  if bool_decide (o.(so_PushInterval) = 0) then mret ()
  else
    s ← peek;
    (match s.(sn_ticker) with None => put (set_ticker (Some true)) | Some _ => mret () end) ;;
    spawn GoTicks.

(** The goroutine, when [RpcReady] ended. *)
Definition stop_ticks : held M () :=
  s ← peek;
  match s.(sn_ticker) with Some _ => put (set_ticker (Some false)) | None => nil_panic end.

Definition HandshakeDoneEnd : held M () :=
  s ← peek;
  match s.(sn_rpcClient) with Some _ => tell (RClose "client") | None => mret () end.

Definition Start : RpcCall := RAdd ["Start"] NoArgs.

(** [disposing]: the machine has the state [Disposing]. *)
Definition Stop (mach disposing dispose : bool) : held M Z :=
  if negb mach then mret Canceled
  else (if disposing : bool then tell (RAdd ["Disposing"] NoArgs) else tell RDispose) ;; mret Executed.

Definition ClientId (s : RpcServer) : string := default "" s.(sn_clientId).

(** The payload sent, or the error. [src]: the machine and the transition of the
    source event; [token]: a random identifier. *)
Definition SendPayload (active : list string) (s : RpcServer) (src : option (string * string)) (token : string)
    (p : MsgSrvPayload) : string + MsgSrvPayload :=
  if negb (contains active "ClientConnected") || negb (contains active "HandshakeDone") then inl ErrNoConn
  else if negb (bool_decide (p.(pl_Destination) = "")) && negb (bool_decide (ClientId s = p.(pl_Destination)))
  then inl (ErrDestination +:+ ": " +:+ p.(pl_Destination) +:+ " != " +:+ ClientId s)
  else inr (match src with
            | Some (m, tx) => mkSrvPayload p.(pl_Name) p.(pl_Destination) p.(pl_Data) token m tx
            | None => mkSrvPayload p.(pl_Name) p.(pl_Destination) p.(pl_Data) token p.(pl_Source) p.(pl_SourceTx)
            end).

(** The goroutine of [RemoteBye]. *)
Definition bye (s : RpcServer) : list RpcCall :=
  match s.(sn_rpcClient) with Some _ => [RClose "client"] | None => [] end
  ++ [RRemove ["HandshakeDone"] NoArgs].

(** [ServeHTTP]: the connection a client upgraded to. *)
Definition ServeHTTP (upgraded : option string) : held M () :=
  match upgraded with
  | None => mret ()
  | Some conn => put (set_conn (Some conn)) ;; tell (RAdd ["RpcAccepting"] NoArgs)
  end.

(** What changes the server: its handlers and the ends of their goroutines. *)
Inductive srv_runs (o : SrvOpts) : held M () → Prop :=
| RunOnDispose : srv_runs o on_dispose
| RunException tunnel netErr : srv_runs o (ExceptionState o tunnel netErr)
| RunStart : srv_runs o (StartState o)
| RunStartEnd tunnel dispose : srv_runs o (StartEnd o tunnel dispose)
| RunStarting : srv_runs o (RpcStartingState o)
| RunListen env connAddr listening : srv_runs o (put (λ s, (listen o env connAddr listening s).2))
| RunAccepting : srv_runs o RpcAcceptingState
| RunAccepted e1 e2 start : srv_runs o (accepted e1 e2 start)
| RunReady : srv_runs o (RpcReadyState o)
| RunStopTicks : srv_runs o stop_ticks
| RunHandshakeDoneEnd : srv_runs o HandshakeDoneEnd
| RunServeHTTP upgraded : srv_runs o (ServeHTTP upgraded)
| RunHello client id : srv_runs o (put (set_client (Some client) (Some id)))
| RunBye : srv_runs o (put (set_client None None)).

Inductive srv_step (o : SrvOpts) (s : RpcServer) : RpcServer → Prop :=
| SrvStep h : srv_runs o h → srv_step o s (h (mkMem s [] [])).1.(fields).

Lemma dial_rounds_ticker o env n i delay s :
  (dial_rounds o env n i delay s).1.2.(sn_ticker) = s.(sn_ticker).
Proof.
  revert i delay s. induction n as [|n IH]; intros i delay s; [done|]. cbn [dial_rounds].
  destruct (_ || _ || _); [done|]. destruct (negb (dl_waited (env i))); [done|].
  destruct (dl_conn (env i)) as [[err timeout]|conn]; [|done]. destruct (_ && _); [done|].
  match goal with |- context [dial_rounds o env n (S i) ?d ?s1] => specialize (IH (S i) d s1) end.
  destruct (dial_rounds o env n (S i) _ _) as [[[waits es] s'] go]. by cbn in *.
Qed.

Lemma listen_ticker o env connAddr listening s : (listen o env connAddr listening s).2.(sn_ticker) = s.(sn_ticker).
Proof.
  unfold listen. destruct (negb _).
  - pose proof (dial_rounds_ticker o env (Z.to_nat (wrap_s32 o.(so_WsTunConnRetries))) 0
      o.(so_WsTunConnRetryDelay) (set_conn None s)) as H.
    destruct (dial_rounds _ _ _ _ _ _) as [[[waits es] s'] go]. by cbn in *.
  - destruct (sn_Conn s), (sn_Listener s); try done. by destruct listening.
Qed.

Lemma step_ticker o s s' : srv_step o s s' → s.(sn_ticker) = Some false → s'.(sn_ticker) = Some false.
Proof.
  intros [h Hr] Ht.
  assert (Hf : ∀ f : RpcServer → RpcServer, sn_ticker (f s) = sn_ticker s →
    sn_ticker (fields (put (C := RpcCall) (G := SrvGo) f (mkMem s [] [])).1) = Some false) by (intros f; cbn; congruence).
  destruct Hr.
  6: apply Hf, listen_ticker.
  all: unfold on_dispose, ExceptionState, StartState, StartEnd, RpcStartingState, bindRpcHandlers,
    RpcAcceptingState, accepted, RpcReadyState, stop_ticks, HandshakeDoneEnd, ServeHTTP;
    run_mem; repeat (case_match; cbn in *; simplify_eq); done.
Qed.

(** pushes in intervals end with the first [RpcReady].  Once the ticker was
    stopped with the state, no handler and no goroutine of the server starts it or
    another one again, whatever the connections do: a server that is ready again,
    after its listener failed, leaves the updates that come too soon after another
    to the next ones. *)
Theorem ticker_stays_stopped (o : SrvOpts) (s s' : RpcServer) :
  rtc (srv_step o) s s' → s.(sn_ticker) = Some false → s'.(sn_ticker) = Some false.
Proof. induction 1 as [s|s s1 s2 H _ IH]; [done|]. intros Ht. by apply IH, (step_ticker o s). Qed.

(** A server that is ready, loses its listener, and is ready again. *)
Definition opts1 : SrvOpts := default_opts false "" false.
Definition server1 : RpcServer :=
  mkRpcServer "localhost:1" (Some "localhost:1") None false 0 true None None (Some false).

Lemma ticker_stays_stopped_witness :
  ∃ s s', s.(sn_ticker) = Some true ∧ srv_step opts1 s server1 ∧ rtc (srv_step opts1) server1 s'
          ∧ s'.(sn_Addr) = "localhost:2" ∧ s'.(sn_ticker) = Some false.
Proof.
  exists (set_ticker (Some true) server1).
  set (s2 := set_listener None server1). set (s3 := set_addr "localhost:2" (set_listener (Some "localhost:2") s2)).
  assert (Hs : rtc (srv_step opts1) server1 s3).
  { eapply rtc_l; [apply (SrvStep opts1 server1 (accepted false false true)); constructor|].
    eapply rtc_l; [apply (SrvStep opts1 _ (put (λ s, (listen opts1
      (λ _, mkDial false false (inr "") 0) (λ c, c) (inr "localhost:2") s).2))); constructor|].
    eapply rtc_l; [apply (SrvStep opts1 _ (RpcReadyState opts1)); constructor|]. apply rtc_refl. }
  exists s3. split; [done|]. split; [|split; [exact Hs|split; [done|]]].
  - apply (SrvStep opts1 (set_ticker (Some true) server1) stop_ticks). constructor.
  - apply (ticker_stays_stopped opts1 server1 s3 Hs). done.
Defined.

(** A connection that was served is taken for a new one: the server starts again
    with it, and at once. *)
Lemma served_conn_again (o : SrvOpts) (s : RpcServer) (conn : string) (env : nat → Dial)
    (connAddr : string → string) (listening : string + string) :
  s.(sn_Conn) = Some conn → o.(so_WebSocketTunnel) = "" →
  let m := (accepted false false true (mkMem s [] [])).1 in
  RAdd ["RpcStarting"] NoArgs ∈ m.(calls)
  ∧ (listen o env connAddr listening m.(fields)).1 = ([], [RAdd ["RpcAccepting"] NoArgs])
  ∧ (listen o env connAddr listening m.(fields)).2.(sn_Conn) = Some conn.
Proof.
  intros Hc Ho. unfold accepted, listen. run_mem. rewrite Hc, Ho. cbn.
  destruct (sn_Listener s); cbn; rewrite ?Hc; cbn; split_and!; try done; set_solver.
Qed.
End Srv.
