(* ===== verification/Logging.v ===== *)
(** * Logs, tracers, events and contexts ([mach_misc.go], [machine.go])

    What observes a machine: log entries with their levels, the semantic logger and
    its list of pipes (Module [Sem], and [NetSem] for the one of network machines in
    [rpc.go]), the tracers bound to a machine (Module [Trace]), events as handlers
    see them and contexts carry them (Module [Ev]). Loggers and tracers are numbers;
    formatting a message is an argument. *)

From S2P Require Import Prelude StateList SchemaDef MachTime Mutation Queue Machine Effects.

#[local] Open Scope Z_scope.

(** ** Levels and entries *)

Inductive LogLevel := LogNothing | LogExternal | LogChanges | LogOps | LogDecisions | LogEverything.

Definition level_num (l : LogLevel) : Z :=
  match l with
  | LogNothing => 0 | LogExternal => 1 | LogChanges => 2 | LogOps => 3 | LogDecisions => 4
  | LogEverything => 5
  end.

Definition LogLevel_String (l : LogLevel) : string :=
  match l with
  | LogNothing => "nothing" | LogExternal => "external" | LogChanges => "changes" | LogOps => "ops"
  | LogDecisions => "decisions" | LogEverything => "everything"
  end.

Definition LogLevel_Level (l : LogLevel) : string := pretty (level_num l).

Record LogEntry := mkLogEntry { le_Level : LogLevel; le_Text : string }.

#[export] Instance LogLevel_eq : EqDecision LogLevel.
Proof. solve_decision. Defined.
#[export] Instance LogEntry_eq : EqDecision LogEntry.
Proof. solve_decision. Defined.

(** [LogArgsMapperMerge]: later mappers win. *)
Definition LogArgsMapperMerge (mappers : list (gmap string Val → gmap string string))
    (args : gmap string Val) : gmap string string :=
  fold_left (λ ret m, m args ∪ ret) mappers ∅.

Definition LogArgs : list string := ["name"; "id"; "port"; "addr"; "err"; "path"; "url"; "uri"].
Definition LogArgsMaxLen : Z := 20.

(** [NewLogArgsMapper]; [show]: the value as text. The counter of names found
    counts all of them. *)
Definition NewLogArgsMapper (show : Val → string) (maxLen : Z) (names : list string)
    (args : gmap string Val) : outcome (option (gmap string string)) :=
  let maxLen := if bool_decide (maxLen = 0) then LogArgsMaxLen else maxLen in
  match names with
  | [] => Ok None
  | _ =>
      Some <$> foldr (λ name acc,
        m ← acc;
        match args !! name with
        | Some v => t ← truncateStr (show v) maxLen; Ok (<[name := t]> m)
        | None => Ok m
        end) (Ok ∅) (rev names)
  end.

(** ** Pipes, as loggers list them *)

Record Pipe := mkPipe {
  pp_IsAdd : bool;
  pp_SourceState : string;
  pp_TargetMach : string;
  pp_TargetState : string;
  pp_SourceMach : string;
}.

Definition kind_of (isAdd : bool) : string := if isAdd then "add" else "remove".
Definition pipe_out_text (isAdd : bool) (sourceState targetMach : string) : string :=
  "[pipe-out:" +:+ kind_of isAdd +:+ "] " +:+ sourceState +:+ " to " +:+ targetMach.
Definition pipe_in_text (isAdd : bool) (targetState sourceMach : string) : string :=
  "[pipe-in:" +:+ kind_of isAdd +:+ "] " +:+ targetState +:+ " from " +:+ sourceMach.
Definition pipe_gc_text (machId : string) : string := "[pipe:gc] " +:+ machId.

Definition pipe_text (p : Pipe) : string :=
  if bool_decide (p.(pp_SourceState) = "")
  then pipe_in_text p.(pp_IsAdd) p.(pp_TargetState) p.(pp_SourceMach)
  else pipe_out_text p.(pp_IsAdd) p.(pp_SourceState) p.(pp_TargetMach).

Definition pipe_out (isAdd : bool) (sourceState targetMach : string) : Pipe :=
  mkPipe isAdd sourceState targetMach "" "".
Definition pipe_in (isAdd : bool) (targetState sourceMach : string) : Pipe :=
  mkPipe isAdd "" "" targetState sourceMach.

Definition of_mach (machId : string) (p : Pipe) : bool :=
  bool_decide (p.(pp_SourceMach) = machId) || bool_decide (p.(pp_TargetMach) = machId).

(** ** The log of a machine *)

(** The logging part of a machine and of its transition: the entries of the
    transition that runs ([None]: none runs), and those that wait for the next. *)
Record LogState := mkLogState {
  ls_id : string;
  ls_disposing : bool;
  ls_logId : bool;
  ls_level : LogLevel;
  ls_logger : option nat;
  ls_tx : option (list LogEntry);
  ls_entries : list LogEntry;
  ls_logged : list (nat * string);
  ls_printed : list string;
}.

(** ** The machine's semantic logger *)
Module Sem.

(** The messages it logs itself go to the machine's log. *)
Record semLogger := mkSem {
  sm_steps : bool;
  sm_graph : bool;
  sm_queued : bool;
  sm_args : bool;
  sm_can : bool;
  sm_pipes : list Pipe;
  sm_logArgs : option nat;
  sm_log : LogState;
}.

Definition set_flags (steps graph queued args can : bool) (s : semLogger) : semLogger :=
  mkSem steps graph queued args can s.(sm_pipes) s.(sm_logArgs) s.(sm_log).
Definition set_pipes (l : list Pipe) (s : semLogger) : semLogger :=
  mkSem s.(sm_steps) s.(sm_graph) s.(sm_queued) s.(sm_args) s.(sm_can) l s.(sm_logArgs) s.(sm_log).
Definition set_logArgs (m : option nat) (s : semLogger) : semLogger :=
  mkSem s.(sm_steps) s.(sm_graph) s.(sm_queued) s.(sm_args) s.(sm_can) s.(sm_pipes) m s.(sm_log).
Definition set_log (l : LogState) (s : semLogger) : semLogger :=
  mkSem s.(sm_steps) s.(sm_graph) s.(sm_queued) s.(sm_args) s.(sm_can) s.(sm_pipes) s.(sm_logArgs) l.

Definition SetArgsMapper (mapper : nat) (s : semLogger) : semLogger := set_logArgs (Some mapper) s.
Definition ArgsMapper (s : semLogger) : option nat := s.(sm_logArgs).
(** [make]: the number of the mapper that [NewLogArgsMapper] makes. *)
Definition SetArgsMapperDef (make : list string → nat) (additional : list string) (s : semLogger) : semLogger :=
  SetArgsMapper (make (LogArgs ++ additional)) s.

Definition log_with (logId : bool) (level : LogLevel) (logger : option nat) (l : LogState) : LogState :=
  mkLogState l.(ls_id) l.(ls_disposing) logId level logger l.(ls_tx) l.(ls_entries) l.(ls_logged) l.(ls_printed).

Definition EnableId (val : bool) (s : semLogger) : semLogger :=
  set_log (log_with val s.(sm_log).(ls_level) s.(sm_log).(ls_logger) s.(sm_log)) s.
Definition IsId (s : semLogger) : bool := s.(sm_log).(ls_logId).
Definition SetLogger (fn : option nat) (s : semLogger) : semLogger :=
  set_log (log_with s.(sm_log).(ls_logId) s.(sm_log).(ls_level) fn s.(sm_log)) s.
Definition Logger (s : semLogger) : option nat := s.(sm_log).(ls_logger).
Definition SetLevel (lvl : LogLevel) (s : semLogger) : semLogger :=
  set_log (log_with s.(sm_log).(ls_logId) lvl s.(sm_log).(ls_logger) s.(sm_log)) s.
Definition Level (s : semLogger) : LogLevel := s.(sm_log).(ls_level).

(** [noop]: the logger that does nothing. *)
Definition SetEmpty (noop : nat) (lvl : LogLevel) (s : semLogger) : semLogger :=
  SetLevel lvl (SetLogger (Some noop) s).
Definition SetSimple (logf : option nat) (lvl : LogLevel) (s : semLogger) : outcome semLogger :=
  match logf with
  | None => Panic "logf cannot be nil"
  | Some f => Ok (SetLevel lvl (SetLogger (Some f) s))
  end.

(** [m.logEv]: [fmt] formats a message with its arguments; [e]: the name of an
    event. *)
Definition log_prefix (e : option string) (l : LogState) : string :=
  (if l.(ls_logId) then "[" +:+ substring l.(ls_id) 0 (Z.min 5 (str_len l.(ls_id))) +:+ "] " else "")
  +:+ match e with Some name => "[" +:+ name +:+ "] " | None => "" end.

Definition allows_dups (prefix out : string) : bool :=
  HasPrefix out (prefix +:+ "[pipe-") || HasPrefix out (prefix +:+ "[ctx") || HasPrefix out (prefix +:+ "[when").

Definition logEv (e : option string) (level : LogLevel) (fmt : string → string) (msg : string) (l : LogState)
  : LogState :=
  if bool_decide (level_num l.(ls_level) < level_num level) || l.(ls_disposing) then l
  else
    let prefix := log_prefix e l in
    let out := fmt (prefix +:+ msg) in
    let '(logged, printed) :=
      match l.(ls_logger) with
      | Some f => (l.(ls_logged) ++ [(f, out)], l.(ls_printed))
      | None => (l.(ls_logged), l.(ls_printed) ++ [out])
      end in
    let '(tx, entries) :=
      match l.(ls_tx) with
      | Some t => (Some (t ++ [mkLogEntry level out]), l.(ls_entries))
      | None =>
          let dup := match last l.(ls_entries) with
                     | Some x => bool_decide (x.(le_Text) = out) | None => false end in
          (None, if dup && negb (allows_dups prefix out) then l.(ls_entries)
                 else l.(ls_entries) ++ [mkLogEntry level out])
      end in
    mkLogState l.(ls_id) l.(ls_disposing) l.(ls_logId) l.(ls_level) l.(ls_logger) tx entries logged printed.

Definition log (level : LogLevel) (fmt : string → string) (msg : string) (l : LogState) : LogState :=
  logEv None level fmt msg l.

Definition newline : Ascii.ascii := Ascii.ascii_of_nat 10.

Fixpoint one_line (s : string) : string :=
  match s with
  | EmptyString => EmptyString
  | String.String c s => String.String (if Ascii.eqb c newline then Ascii.ascii_of_nat 32 else c) (one_line s)
  end.

(** The event is not used. *)
Definition LogEv (e : option string) (fmt : string → string) (msg : string) (l : LogState) : LogState :=
  if l.(ls_disposing) then l else log LogExternal fmt ("[exter] " +:+ one_line msg) l.
Definition Log (fmt : string → string) (msg : string) (l : LogState) : LogState := LogEv None fmt msg l.

(** Formatting without arguments, of texts without verbs. *)
Definition log_plain (level : LogLevel) (msg : string) (s : semLogger) : semLogger :=
  set_log (log level id msg s.(sm_log)) s.

Definition AddPipeOut (isAdd : bool) (sourceState targetMach : string) (s : semLogger) : semLogger :=
  let s := log_plain LogOps (pipe_out_text isAdd sourceState targetMach) s in
  set_pipes (s.(sm_pipes) ++ [pipe_out isAdd sourceState targetMach]) s.
Definition AddPipeIn (isAdd : bool) (targetState sourceMach : string) (s : semLogger) : semLogger :=
  let s := log_plain LogOps (pipe_in_text isAdd targetState sourceMach) s in
  set_pipes (s.(sm_pipes) ++ [pipe_in isAdd targetState sourceMach]) s.
Definition RemovePipes (machId : string) (s : semLogger) : semLogger :=
  let s := log_plain LogOps (pipe_gc_text machId) s in
  set_pipes (filter (λ p, of_mach machId p = false) s.(sm_pipes)) s.
Definition Pipes (s : semLogger) : list LogEntry := (λ p, mkLogEntry LogOps (pipe_text p)) <$> s.(sm_pipes).

Definition IsSteps (s : semLogger) : bool := s.(sm_steps).
Definition EnableSteps (b : bool) (s : semLogger) : semLogger :=
  set_flags b s.(sm_graph) s.(sm_queued) s.(sm_args) s.(sm_can) s.
Definition IsCan (s : semLogger) : bool := s.(sm_can).
Definition EnableCan (b : bool) (s : semLogger) : semLogger :=
  set_flags s.(sm_steps) s.(sm_graph) s.(sm_queued) s.(sm_args) b s.
Definition IsGraph (s : semLogger) : bool := s.(sm_graph).
Definition EnableGraph (b : bool) (s : semLogger) : semLogger :=
  set_flags s.(sm_steps) b s.(sm_queued) s.(sm_args) s.(sm_can) s.
Definition IsQueued (s : semLogger) : bool := s.(sm_queued).
Definition EnableQueued (b : bool) (s : semLogger) : semLogger :=
  set_flags s.(sm_steps) s.(sm_graph) b s.(sm_args) s.(sm_can) s.
Definition IsArgs (s : semLogger) : bool := s.(sm_args).
Definition EnableArgs (b : bool) (s : semLogger) : semLogger :=
  set_flags s.(sm_steps) s.(sm_graph) s.(sm_queued) b s.(sm_can) s.
Definition EnableStateCtx (b : bool) (s : semLogger) : semLogger := s.
Definition IsStateCtx (s : semLogger) : bool := false.
Definition EnableWhen (b : bool) (s : semLogger) : semLogger := s.
Definition IsWhen (s : semLogger) : bool := false.
End Sem.

(** ** The semantic logger of network machines ([rpc.go]) *)
Module NetSem.
Import Sem.

(** It keeps two switches, and logs to the network machine. *)
Definition net_log (level : LogLevel) (fmt : string → string) (msg : string) (l : LogState) : LogState :=
  if bool_decide (level_num l.(ls_level) < level_num level) then l
  else
    let out := fmt (log_prefix None l +:+ msg) in
    let '(logged, printed) :=
      match l.(ls_logger) with
      | Some f => (l.(ls_logged) ++ [(f, out)], l.(ls_printed))
      | None => (l.(ls_logged), l.(ls_printed) ++ [out])
      end in
    mkLogState l.(ls_id) l.(ls_disposing) l.(ls_logId) l.(ls_level) l.(ls_logger) l.(ls_tx)
      (l.(ls_entries) ++ [mkLogEntry level out]) logged printed.

Definition Log (fmt : string → string) (msg : string) (l : LogState) : LogState := net_log LogExternal fmt msg l.

Definition log_plain (level : LogLevel) (msg : string) (s : semLogger) : semLogger :=
  set_log (net_log level id msg s.(sm_log)) s.

Definition AddPipeOut (isAdd : bool) (sourceState targetMach : string) (s : semLogger) : semLogger :=
  let s := log_plain LogOps (pipe_out_text isAdd sourceState targetMach) s in
  set_pipes (s.(sm_pipes) ++ [pipe_out isAdd sourceState targetMach]) s.
Definition AddPipeIn (isAdd : bool) (targetState sourceMach : string) (s : semLogger) : semLogger :=
  let s := log_plain LogOps (pipe_in_text isAdd targetState sourceMach) s in
  set_pipes (s.(sm_pipes) ++ [pipe_in isAdd targetState sourceMach]) s.
Definition RemovePipes (machId : string) (s : semLogger) : semLogger :=
  let s := log_plain LogOps (pipe_gc_text machId) s in
  set_pipes (filter (λ p, of_mach machId p = false) s.(sm_pipes)) s.
Definition Pipes (s : semLogger) : list LogEntry := (λ p, mkLogEntry LogOps (pipe_text p)) <$> s.(sm_pipes).

Definition SetArgsMapper (mapper : nat) (s : semLogger) : semLogger := s.
Definition SetArgsMapperDef (additional : list string) (s : semLogger) : semLogger := s.
Definition ArgsMapper (s : semLogger) : option nat := None.
Definition EnableId (val : bool) (s : semLogger) : semLogger := Sem.EnableId val s.
Definition IsId (s : semLogger) : bool := Sem.IsId s.
Definition SetLogger (fn : option nat) (s : semLogger) : semLogger := Sem.SetLogger fn s.
Definition Logger (s : semLogger) : option nat := Sem.Logger s.
Definition SetLevel (lvl : LogLevel) (s : semLogger) : semLogger := Sem.SetLevel lvl s.
Definition Level (s : semLogger) : LogLevel := Sem.Level s.
Definition SetEmpty (noop : nat) (lvl : LogLevel) (s : semLogger) : semLogger := Sem.SetEmpty noop lvl s.
(** A [nil] function is taken, and panics when it is called. *)
Definition SetSimple (logf : nat) (lvl : LogLevel) (s : semLogger) : semLogger :=
  Sem.SetLevel lvl (Sem.SetLogger (Some logf) s).
Definition IsSteps (s : semLogger) : bool := s.(sm_steps).
Definition EnableSteps (b : bool) (s : semLogger) : semLogger := Sem.EnableSteps b s.
Definition IsGraph (s : semLogger) : bool := s.(sm_graph).
Definition EnableGraph (b : bool) (s : semLogger) : semLogger := Sem.EnableGraph b s.
Definition EnableStateCtx (b : bool) (s : semLogger) : semLogger := s.
Definition IsStateCtx (s : semLogger) : bool := true.
Definition EnableWhen (b : bool) (s : semLogger) : semLogger := s.
Definition IsWhen (s : semLogger) : bool := true.
Definition EnableArgs (b : bool) (s : semLogger) : semLogger := s.
Definition IsArgs (s : semLogger) : bool := true.
Definition EnableQueued (b : bool) (s : semLogger) : semLogger := s.
Definition IsQueued (s : semLogger) : bool := true.
Definition EnableCan (b : bool) (s : semLogger) : semLogger := s.
Definition IsCan (s : semLogger) : bool := true.
End NetSem.

(** ** Tracers *)
Module Trace.

(** A tracer: its id, and whether it is a pointer to a struct. *)
Record Tracer := mkTracer { tr_Id : string; tr_struct : bool }.

(** [TracerNoOp.TracerId] *)
Definition TracerId (id : string) : outcome string := if bool_decide (id = "") then Panic "tracer ID required" else Ok id.

(** The tracers of a machine; what is returned is the id and the error. *)
Definition TracerBind (disposing : bool) (t : Tracer) (l : list Tracer)
  : list Tracer * outcome (string * option string) :=
  if disposing then (l, Ok ("", None))
  else if negb t.(tr_struct) then (l, Ok ("", Some "BindTracer expects a pointer to a struct"))
  else (l ++ [t], match TracerId t.(tr_Id) with
                  | Ok id => Ok (id, None)
                  | Panic msg => Panic msg
                  | Block => Block
                  end).
Definition BindTracer := TracerBind.

(** The first one with the id is removed; asking a tracer for its id can panic. *)
Fixpoint detach (id : string) (l : list Tracer) : outcome (option (list Tracer)) :=
  match l with
  | [] => Ok None
  | t :: l =>
      i ← TracerId t.(tr_Id);
      if bool_decide (i = id) then Ok (Some l)
      else r ← detach id l; Ok (option_map (cons t) r)
  end.

Definition TracerDetach (disposing : bool) (id : string) (l : list Tracer) : outcome (list Tracer * option string) :=
  if disposing then Ok (l, None)
  else r ← detach id l;
       Ok match r with Some l' => (l', None) | None => (l, Some "tracer not bound") end.
Definition DetachTracer := TracerDetach.

Definition Tracers (l : list Tracer) : list Tracer := l.

(** [LastTxTracer] *)
Definition LastTxTracer := option Transition.
Definition NewLastTxTracer : LastTxTracer := None.
Definition LastTxTracer_TracerId : string := "lasttx".
Definition LastTxTracer_TransitionEnd (t : Transition) (l : LastTxTracer) : LastTxTracer := Some t.
Definition LastTxTracer_Load (l : LastTxTracer) : option Transition := l.
Definition LastTxTracer_String (show : Transition → string) (l : LastTxTracer) : string :=
  default "" (show <$> l).
End Trace.

(** ** Events and contexts *)
Module Ev.

(** [Event]: the machine is an id; a context is known to be done or not. *)
Record Event := mkEvent {
  ev_Ctx : option bool;
  ev_Name : string;
  ev_MachineId : string;
  ev_TransitionId : string;
  ev_Args : gmap string Val;
  ev_IsCheck : bool;
  ev_machine : option string;
  ev_machApi : bool;
}.

Definition noEvent : Event := mkEvent None "" "" "" ∅ false None false.
Definition NewEvent (mach : option string) (machApi : bool) : Event :=
  mkEvent None "" "" "" ∅ false mach machApi.

(** [current]: the transition of the machine, if there is one. *)
Definition Event_Transition (current : option Transition) (e : Event) : option Transition :=
  if e.(ev_machApi) then current else None.
Definition Event_Mutation (current : option Transition) (e : Event) : outcome (option Mutation) :=
  match e.(ev_machine) with
  | None => Panic "invalid memory address or nil pointer dereference"
  | Some _ => Ok (tx_Mutation <$> current)
  end.
Definition Event_Machine (e : Event) : option string := e.(ev_machine).

Definition IsValid (current : option Transition) (e : Event) : bool :=
  match Event_Transition current e with
  | None => false
  | Some tx =>
      if default false e.(ev_Ctx) then false
      else bool_decide (e.(ev_TransitionId) = tx.(tx_Id)) && negb tx.(tx_IsCompleted) && tx.(tx_IsAccepted)
  end.

Definition Export (e : Event) : Event :=
  mkEvent None e.(ev_Name) (default e.(ev_MachineId) e.(ev_machine)) e.(ev_TransitionId) ∅ e.(ev_IsCheck) None false.
Definition Clone (e : Event) : Event :=
  let e2 := Export e in
  mkEvent e.(ev_Ctx) e2.(ev_Name) e2.(ev_MachineId) e2.(ev_TransitionId) e.(ev_Args) e2.(ev_IsCheck) None false.
Definition SwapArgs (args : gmap string Val) (e : Event) : Event :=
  let e2 := Clone e in
  mkEvent e2.(ev_Ctx) e2.(ev_Name) e2.(ev_MachineId) e2.(ev_TransitionId) args e2.(ev_IsCheck) None false.

(** [CtxValue] *)
Record CtxValue := mkCtxValue {
  cv_Id : string;
  cv_State : string;
  cv_Tick : Z;
  cv_Event : option Event;
  cv_MachTime : Z;
}.

Definition TxId (c : CtxValue) : string := default "" (ev_TransitionId <$> c.(cv_Event)).
Definition Url (c : CtxValue) : string :=
  "ctx://" +:+ c.(cv_Id) +:+ "/" +:+ c.(cv_State) +:+ "/" +:+ pretty c.(cv_Tick).
Definition CtxValue_String (c : CtxValue) : string := Url c.
Definition UrlTx (incTime : bool) (c : CtxValue) : string :=
  let tx := TxId c in
  if bool_decide (tx = "") then ""
  else "mach://" +:+ c.(cv_Id) +:+ "/" +:+ tx
       +:+ (if bool_decide (0 < c.(cv_MachTime)) && incTime then "?t=" +:+ pretty c.(cv_MachTime) else "").

(** The value a context carries under [CtxKey], if any. *)
Definition zeroCtx : CtxValue := mkCtxValue "" "" 0 None 0.
Definition CtxToEv (v : option CtxValue) : Event := default noEvent (default zeroCtx v).(cv_Event).
Definition EvToCtx (v : option CtxValue) (e : option Event) : option CtxValue :=
  match e with
  | None => v
  | Some e =>
      let v := default zeroCtx v in
      Some (mkCtxValue v.(cv_Id) v.(cv_State) v.(cv_Tick) (Some (Export e)) v.(cv_MachTime))
  end.

(** [ExceptionHandler.ExceptionState]: the text it logs. [panic]: the type of the
    mutation and the called states of a handler that panicked. *)
Definition ExceptionState (logStackTrace : bool) (err trace : option string) (panic : option (string * list string))
  : string :=
  let err := default "missing error in args to ExceptionState" err in
  let stack := match trace with
               | Some t => if logStackTrace && negb (bool_decide (t = ""))
                           then String.String Sem.newline t else ""
               | None => "" end in
  match panic with
  | None => "[error] " +:+ TrimSpace err +:+ stack
  | Some (mutType, called) => "[error:" +:+ mutType +:+ "] " +:+ j called +:+ " (" +:+ err +:+ ")" +:+ stack
  end.
End Ev.

(** ** What holds of logs *)

(** No entry that waits for a transition is repeated by the next one, unless it is
    about pipes or subscriptions. *)
Definition repeats_ok (prefix : string) (l : list LogEntry) : Prop :=
  ∀ i x y, l !! i = Some x → l !! S i = Some y → x.(le_Text) = y.(le_Text) →
  Sem.allows_dups prefix y.(le_Text) = true.

Lemma repeats_ok_app prefix l y :
  repeats_ok prefix l →
  (∀ x, last l = Some x → x.(le_Text) = y.(le_Text) → Sem.allows_dups prefix y.(le_Text) = true) →
  repeats_ok prefix (l ++ [y]).
Proof.
  intros Hl Hy i a b Ha Hb Ht. destruct (decide (S i < length l)%nat) as [Hi|Hi].
  - rewrite lookup_app_l in Ha by lia. rewrite lookup_app_l in Hb by lia. exact (Hl i a b Ha Hb Ht).
  - assert (length l = S i) as Hn.
    { pose proof (lookup_lt_Some _ _ _ Hb) as H. rewrite length_app in H. cbn in H. lia. }
    rewrite lookup_app_l in Ha by lia. rewrite lookup_app_r in Hb by lia.
    rewrite Hn, Nat.sub_diag in Hb. injection Hb as <-. apply (Hy a); [|done].
    rewrite last_lookup, Hn. done.
Qed.

(** Logging keeps it, with any message, level and formatting. *)
Lemma log_repeats level fmt msg l :
  repeats_ok (Sem.log_prefix None l) l.(ls_entries) →
  repeats_ok (Sem.log_prefix None l) (Sem.log level fmt msg l).(ls_entries).
Proof.
  intros Hl. unfold Sem.log, Sem.logEv. destruct (_ || _); [done|]. cbv zeta.
  destruct (ls_logger l), (ls_tx l) as [t|]; cbn; try done.
  all: destruct (last (ls_entries l)) as [x|] eqn:Hx; cbn;
    [|apply repeats_ok_app; [done|congruence]].
  all: case_bool_decide as Ht; cbn; [|apply repeats_ok_app; [done|naive_solver]].
  all: destruct (Sem.allows_dups _ _) eqn:Hd; cbn; [|done]; by apply repeats_ok_app.
Qed.

(** Removing the pipes of a machine removes all of them, and no others. *)
Lemma RemovePipes_spec machId s p :
  p ∈ (Sem.RemovePipes machId s).(Sem.sm_pipes)
  ↔ p ∈ s.(Sem.sm_pipes) ∧ p.(pp_SourceMach) ≠ machId ∧ p.(pp_TargetMach) ≠ machId.
Proof.
  unfold Sem.RemovePipes. cbn. rewrite list_elem_of_filter. unfold of_mach.
  rewrite orb_false_iff, !bool_decide_eq_false. naive_solver.
Qed.

(** Copies of events belong to no machine: they are never valid. *)
Lemma Clone_not_valid current e : Ev.IsValid current (Ev.Clone e) = false.
Proof. done. Qed.

(** The event of a context survives, without its arguments. *)
Lemma EvToCtx_CtxToEv v e : Ev.CtxToEv (Ev.EvToCtx v (Some e)) = Ev.Export e.
Proof. done. Qed.

(** A tracer that was bound with an id of its own can be detached again. *)
Lemma detach_bound t l :
  t.(Trace.tr_Id) ≠ "" → Forall (λ u, u.(Trace.tr_Id) ≠ "" ∧ u.(Trace.tr_Id) ≠ t.(Trace.tr_Id)) l →
  Trace.detach t.(Trace.tr_Id) (l ++ [t]) = Ok (Some l).
Proof.
  intros Ht. induction 1 as [|u l [Hu Hd] _ IH]; cbn; unfold Trace.TracerId.
  - rewrite bool_decide_eq_false_2 by done. cbn. by rewrite bool_decide_eq_true_2.
  - rewrite bool_decide_eq_false_2 by done. cbn. rewrite bool_decide_eq_false_2 by done.
    rewrite IH. done.
Qed.
