(* ===== verification/Dbg.v ===== *)
(** * Telemetry to the debugger ([pkg/telemetry/dbg/dbg.go])

    The messages a machine's tracer sends (schemas and transitions), what can be
    read off them, and the tracer itself: the events of the machine become jobs of
    an outbox, which a goroutine works off in order.  The connection and its
    answers are arguments. *)

From S2P Require Import Prelude StateList SchemaDef MachTime Mutation Queue Machine GoStrings Logging.

#[local] Open Scope Z_scope.

(** ** Messages *)

Record DbgMsgStruct := mkMsgStruct {
  ms_ID : string;
  ms_StatesIndex : list string;
  ms_States : gmap string State;
  ms_Groups : gmap string (list Z);
  ms_GroupsOrder : list string;
  ms_Parent : string;
  ms_Tags : list string;
}.

Definition MsgStruct_Clock (d : DbgMsgStruct) (index : list string) (state : string) : Z := 0.
Definition MsgStruct_Is (d : DbgMsgStruct) (index states : list string) : bool := false.
Definition HasTag (d : DbgMsgStruct) (tag val : string) : bool :=
  existsb (λ t, bool_decide (t = tag)
                || (negb (bool_decide (val = "")) && HasPrefix t (tag +:+ ":")
                    && bool_decide (val = TrimPrefix t (tag +:+ ":")))) d.(ms_Tags).
Definition MsgStruct_Schema (d : DbgMsgStruct) : gmap string State := d.(ms_States).

(** Entries of the logs can be [nil] pointers. *)
Record DbgMsgTx := mkMsgTx {
  mx_MachineID : string;
  mx_ID : string;
  mx_Clocks : list Z;
  mx_QueueTick : Z;
  mx_MutQueueToken : Z;
  mx_MutQueueTick : Z;
  mx_Type : MutationType;
  mx_CalledStates : option (list string);
  mx_CalledStatesIdxs : list Z;
  mx_Steps : list Step;
  mx_LogEntries : list (option LogEntry);
  mx_PreLogEntries : list (option LogEntry);
  mx_Queue : Z;
  mx_IsAuto : bool;
  mx_Accepted : bool;
  mx_IsCheck : bool;
  mx_IsQueued : bool;
  mx_Args : option (gmap string string);
}.

Definition tick_of_msg (m : DbgMsgTx) (idx : Z) : outcome Z :=
  if bool_decide (Z.of_nat (length m.(mx_Clocks)) ≤ idx) then Ok 0 else slice_get m.(mx_Clocks) idx.

Definition Clock (m : DbgMsgTx) (index : list string) (state : string) : outcome Z :=
  let idx := index_of index state in
  if bool_decide (idx = -1) then Ok 0 else tick_of_msg m idx.

Definition IsIdx (m : DbgMsgTx) (idxs : list Z) : outcome bool :=
  foldr (λ idx rest,
    if bool_decide (idx = -1) then Ok false
    else t ← tick_of_msg m idx; if IsActiveTick t then rest else Ok false) (Ok true) idxs.

Definition Index (m : DbgMsgTx) (index : list string) (state : string) : Z := index_of index state.

Definition Is (m : DbgMsgTx) (index states : list string) : outcome bool := IsIdx m (Index m index <$> states).
Definition Is1 (m : DbgMsgTx) (index : list string) (state : string) : outcome bool := Is m index [state].

Definition ActiveStates (m : DbgMsgTx) (index : list string) : list string :=
  slicesFilter index (λ state,
    match tick_of_msg m (index_of index state) with Ok t => IsActiveTick t | _ => false end).

Definition CalledStateNames (m : DbgMsgTx) (index : list string) : outcome (list string) :=
  match m.(mx_CalledStates) with
  | Some l => Ok l
  | None => mapM (λ idx, slice_get index idx) m.(mx_CalledStatesIdxs)
  end.

Definition TimeSum (m : DbgMsgTx) : Z := fold_left (λ s t, wrap64 (s + t)) m.(mx_Clocks) 0.
Definition Url (m : DbgMsgTx) : string := "mach://" +:+ m.(mx_MachineID) +:+ "/" +:+ m.(mx_ID).
Definition MsgTx_String (m : DbgMsgTx) : string := Url m.

Definition MutString (m : DbgMsgTx) (index : list string) : outcome string :=
  names ← CalledStateNames m index;
  Ok ((if bool_decide (m.(mx_Type) = MutationRemove) then "-" else "+") +:+ j names).

(** [time]: the time of the message as text. *)
Definition TxString (time : string) (m : DbgMsgTx) (index : list string) : outcome string :=
  names ← CalledStateNames m index;
  steps ← mapM (λ s, Step_StringFromIndex s index) m.(mx_Steps);
  let nl := String.String Sem.newline EmptyString in
  Ok (Url m +:+ nl +:+ time +:+ nl +:+ nl
      +:+ "[" +:+ MutationType_String m.(mx_Type) +:+ "] " +:+ j names +:+ nl
      +:+ fold_left (λ acc s, acc +:+ "- " +:+ s +:+ nl) steps "").

(** ** The tracer *)

(** [removeLogPrefix]: texts that are too short are lost. *)
Definition removeLogPrefix (id : string) (isId : bool) (entries : list LogEntry) : list (option LogEntry) :=
  if negb isId then Some <$> entries
  else
    let prefixLen := Z.min (str_len id + 3) 8 in
    (λ le, if bool_decide (str_len le.(le_Text) < prefixLen) then None
           else Some (mkLogEntry le.(le_Level) (substring le.(le_Text) prefixLen (str_len le.(le_Text))))) <$> entries.

(** What the goroutine has to do: connect and send the schema, with the pipes
    known then; send a schema; send a transition. *)
Inductive Job := JInit (pipes : option DbgMsgTx) | JSchema | JTx (m : DbgMsgTx).

(** What went over the connection. *)
Inductive Sent := SentSchema | SentTx (m : DbgMsgTx).

Record Tracer := mkTracer {
  dt_Addr : string;
  dt_Ws : bool;
  dt_outbox : list Job;
  dt_client : bool;
  dt_errCount : Z;
  dt_exited : bool;
  dt_lastTx : string;
  dt_queued : Z;
  dt_lastMTime : list Z;
  dt_detach : bool;
}.

Definition NewTracer (addr : string) : Tracer := mkTracer addr false [] false 0 false "" 0 [] false.
Definition TracerId : string := "dbg".

Definition set_outbox (l : list Job) (t : Tracer) : Tracer :=
  mkTracer t.(dt_Addr) t.(dt_Ws) l t.(dt_client) t.(dt_errCount) t.(dt_exited) t.(dt_lastTx) t.(dt_queued)
    t.(dt_lastMTime) t.(dt_detach).
Definition set_net (client : bool) (errs : Z) (t : Tracer) : Tracer :=
  mkTracer t.(dt_Addr) t.(dt_Ws) t.(dt_outbox) client errs t.(dt_exited) t.(dt_lastTx) t.(dt_queued)
    t.(dt_lastMTime) t.(dt_detach).
Definition set_last (lastTx : string) (queued : Z) (mTime : list Z) (t : Tracer) : Tracer :=
  mkTracer t.(dt_Addr) t.(dt_Ws) t.(dt_outbox) t.(dt_client) t.(dt_errCount) t.(dt_exited) lastTx queued mTime
    t.(dt_detach).
Definition set_exited (t : Tracer) : Tracer :=
  mkTracer t.(dt_Addr) t.(dt_Ws) t.(dt_outbox) t.(dt_client) t.(dt_errCount) true t.(dt_lastTx) t.(dt_queued)
    t.(dt_lastMTime) true.

(** [t.outbox <- f]: the channel has room for 1000. *)
Definition push (j : Job) : held Tracer () :=
  t ← hget;
  if bool_decide (length t.(dt_outbox) = 1000%nat) then hlift Block
  else hmodify (set_outbox (t.(dt_outbox) ++ [j])).

(** [pipes]: what the machine's logger lists. *)
Definition MachineInit (machId : string) (mTime : list Z) (pipes : list LogEntry) : held Tracer () :=
  hmodify (λ t, set_last (match pipes with [] => t.(dt_lastTx) | _ => "semlogger" end) t.(dt_queued) mTime t) ;;
  push (JInit (match pipes with
               | [] => None
               | _ => Some (mkMsgTx machId "semlogger" mTime 0 0 0 MutationSet None [] [] (Some <$> pipes) [] 0
                              false true true false None)
               end)).

Definition SchemaChange (mTime : list Z) : held Tracer () :=
  hmodify (λ t, set_last t.(dt_lastTx) t.(dt_queued) mTime t) ;; push JSchema.

(** What the tracer reads of the machine and of its logger. *)
Record MachView := mkMachView {
  mv_Id : string;
  mv_QueueTick : Z;
  mv_IsCan : bool;
  mv_IsId : bool;
  mv_mapArgs : option (gmap string Val → option (gmap string string));
}.

(** [accepted], [timeAfter], [steps], [logs], [preLogs], [queueLen]: of the
    transition. *)
Record TxView := mkTxView {
  tv_Id : string;
  tv_accepted : bool;
  tv_timeAfter : list Z;
  tv_steps : list Step;
  tv_logs : list LogEntry;
  tv_preLogs : list LogEntry;
  tv_queueLen : Z;
}.

Definition TransitionEnd (v : MachView) (tx : TxView) (mut : Mutation) : held Tracer () :=
  t ← hget;
  if bool_decide (10 < t.(dt_errCount)) && negb t.(dt_exited) then hmodify set_exited
  else if mut.(mut_IsCheck) && negb v.(mv_IsCan) then mret ()
  else
    let msg := mkMsgTx v.(mv_Id) tx.(tv_Id) tx.(tv_timeAfter) v.(mv_QueueTick) mut.(mut_QueueToken) 0
      mut.(mut_Type) None mut.(mut_Called) tx.(tv_steps)
      (removeLogPrefix v.(mv_Id) v.(mv_IsId) tx.(tv_logs)) (removeLogPrefix v.(mv_Id) v.(mv_IsId) tx.(tv_preLogs))
      tx.(tv_queueLen) mut.(mut_IsAuto) tx.(tv_accepted) mut.(mut_IsCheck) false
      (f ← v.(mv_mapArgs); f mut.(mut_Args)) in
    hmodify (set_last tx.(tv_Id) 0 tx.(tv_timeAfter)) ;;
    push (JTx msg).

(** [AException]'s error, if the arguments hold one. *)
Definition exception_of (args : gmap string Val) : option string :=
  match args !! exceptionKey with Some (VException err) => Some err | _ => None end.

Definition MutationQueued (v : MachView) (mut : Mutation) : held Tracer () :=
  if mut.(mut_IsCheck) && negb v.(mv_IsCan) then mret ()
  else
    t ← hget;
    let args := f ← v.(mv_mapArgs); f mut.(mut_Args) in
    let args := match exception_of mut.(mut_Args) with
                | Some err => Some (<["err" := err]> (default ∅ args)) | None => args end in
    let msg := mkMsgTx v.(mv_Id) (t.(dt_lastTx) +:+ "-" +:+ pretty t.(dt_queued)) t.(dt_lastMTime) v.(mv_QueueTick)
      mut.(mut_QueueToken) mut.(mut_QueueTick) mut.(mut_Type) None mut.(mut_Called) [] [] []
      mut.(mut_QueueLen) mut.(mut_IsAuto) true mut.(mut_IsCheck) true args in
    hmodify (set_last t.(dt_lastTx) (t.(dt_queued) + 1) t.(dt_lastMTime)) ;;
    push (JTx msg).

(** What a job meets: whether the machine is disposed, whether it can connect,
    whether the first and the second message get through. *)
Record NetAnswer := mkNetAnswer { na_disposed : bool; na_dial : bool; na_first : bool; na_second : bool }.

(** [sendMsgSchema]; a [nil] client answers no error, and then the fake transition
    of the logger needs a client. *)
Definition send_schema (a : NetAnswer) (semlog : option DbgMsgTx) (t : Tracer) : list Sent * Tracer * outcome bool :=
  if negb t.(dt_client) then
    match semlog with
    | None => ([], t, Ok true)
    | Some _ => ([], t, Panic "invalid memory address or nil pointer dereference")
    end
  else if negb a.(na_first) then ([], t, Ok false)
  else match semlog with
  | None => ([SentSchema], t, Ok true)
  | Some m =>
      if a.(na_second) then ([SentSchema; SentTx m], t, Ok true)
      else ([SentSchema], set_net t.(dt_client) (t.(dt_errCount) + 1) t, Ok true)
  end.

(** A job, run by the goroutine: what it sent, and the error it adds to the
    machine. *)
Definition run_job (env : bool) (a : NetAnswer) (j : Job) (t : Tracer)
  : list Sent * Tracer * outcome (option string) :=
  match j with
  | JInit semlog =>
      if a.(na_disposed) then ([], t, Ok None)
      else
        let t := set_net a.(na_dial) t.(dt_errCount) t in
        if negb a.(na_dial) && env then ([], t, Ok None)
        else let '(sent, t, r) := send_schema a semlog t in (sent, t, r ≫= λ _, Ok None)
  | JSchema =>
      let '(sent, t, r) := send_schema a None t in
      (sent, t, ok ← r; Ok (if ok : bool then None else Some "failed to send new struct to am-dbg"))
  | JTx m =>
      if negb t.(dt_client) then ([], set_net false (t.(dt_errCount) + 1) t, Ok None)
      else if a.(na_first) then ([SentTx m], t, Ok None)
      else ([], set_net true (t.(dt_errCount) + 1) t, Ok None)
  end.

(** [MachineDispose], past its delay: whether it closes the connection. *)
Definition MachineDispose (t : Tracer) : bool := t.(dt_client).

(** [TransitionsToDbg]: the addresses of the debugging tracers bound already. *)
Definition DbgAddr : string := "localhost:6831".
Definition TransitionsToDbg (bound : list string) (addr : string) (bindErr : option string) (ws : bool)
    (machId : string) (mTime : list Z) (pipes : list LogEntry) : option string + option (Tracer * outcome ()) :=
  let addr := if bool_decide (addr = "") then DbgAddr else addr in
  if contains bound addr then inr None
  else match bindErr with
  | Some err => inl (Some err)
  | None =>
      let t := mkTracer addr ws [] false 0 false "" 0 [] false in
      inr (Some (MachineInit machId mTime pipes t))
  end.

(** The goroutine works off the outbox in order. *)
Fixpoint work_off (env : bool) (answers : list NetAnswer) (t : Tracer) : list Sent * Tracer :=
  match answers, t.(dt_outbox) with
  | a :: answers, j :: jobs =>
      let '(sent, t, r) := run_job env a j (set_outbox jobs t) in
      let '(sent', t) := work_off env answers t in
      (sent ++ sent', t)
  | _, _ => ([], t)
  end.

(** ** What the debugger sees *)

(** The messages of the jobs. *)
Definition job_msgs (j : Job) : list Sent :=
  match j with
  | JInit None => [SentSchema]
  | JInit (Some m) => [SentSchema; SentTx m]
  | JSchema => [SentSchema]
  | JTx m => [SentTx m]
  end.

Definition fine (a : NetAnswer) : Prop :=
  a.(na_disposed) = false ∧ a.(na_dial) = true ∧ a.(na_first) = true ∧ a.(na_second) = true.

Definition is_init (j : Job) : bool := match j with JInit _ => true | _ => false end.

Lemma run_job_fine env a j t :
  fine a → t.(dt_client) = true ∨ is_init j = true →
  run_job env a j t = (job_msgs j, set_net true t.(dt_errCount) t, Ok None).
Proof.
  intros (Hd & Hc & H1 & H2) Ht. destruct t as [ad ws ob cl ec ex lt q mt dd]. cbn in Ht.
  destruct j as [[m|]| |m]; cbn; rewrite ?Hd, ?Hc, ?H1, ?H2; cbn; unfold send_schema; cbn;
    rewrite ?Hd, ?Hc, ?H1, ?H2; cbn; try done; (destruct Ht as [->|?]; [|done]); cbn;
    rewrite ?H1, ?H2; done.
Qed.

(** Once there is a connection and nothing fails, everything queued is sent, in
    order and once. *)
Lemma work_off_all env answers t :
  Forall fine answers → (length t.(dt_outbox) ≤ length answers)%nat →
  t.(dt_client) = true ∨ (is_init <$> head t.(dt_outbox)) = Some true →
  (work_off env answers t).1 = concat (job_msgs <$> t.(dt_outbox)).
Proof.
  intros Ha. revert t. induction Ha as [|a answers Hfine Ha IH]; intros t Hl Ht; cbn.
  - destruct (dt_outbox t); [done|cbn in Hl; lia].
  - destruct (dt_outbox t) as [|j jobs] eqn:Ho; [done|]. cbn in Hl, Ht.
    rewrite run_job_fine; [|done|destruct Ht as [Ht|[= Ht]]; [by left|by right]].
    specialize (IH (set_net true (set_outbox jobs t).(dt_errCount) (set_outbox jobs t))).
    destruct (work_off env answers _) as [sent' t']. cbn in *. rewrite IH; [done|lia|by left].
Qed.

(** What a machine logs with its identifier reaches the debugger without it. *)
Lemma removeLogPrefix_logged (l : LogState) (level : LogLevel) (msg : string) :
  removeLogPrefix l.(ls_id) l.(ls_logId) [mkLogEntry level (Sem.log_prefix None l +:+ msg)]
  = [Some (mkLogEntry level msg)].
Proof.
  unfold removeLogPrefix, Sem.log_prefix. destruct (ls_logId l); cbn [negb]; [|done].
  set (p := ("[" +:+ _ +:+ "] ") +:+ "").
  assert (Hp : Z.min (str_len (ls_id l) + 3) 8 = str_len p).
  { unfold p. rewrite !str_len_app. unfold str_len at 3, substring. rewrite length_substring.
    unfold str_len. cbn. lia. }
  clearbody p. rewrite Hp. cbn [fmap list_fmap le_Text le_Level].
  rewrite bool_decide_eq_false_2, substring_drop; [done|]. rewrite str_len_app. unfold str_len. lia.
Qed.

(** Without a debugger, a machine with pipes brings the program down. *)
Lemma init_panics (a : NetAnswer) (m : DbgMsgTx) (t : Tracer) :
  a.(na_disposed) = false → a.(na_dial) = false →
  (run_job false a (JInit (Some m)) t).2 = Panic "invalid memory address or nil pointer dereference".
Proof. intros Hd Hc. cbn. by rewrite Hd, Hc. Qed.
