(* ===== verification/Graph.v ===== *)
(** * The network graph ([pkg/graph/graph.go])

    A graph of machines and their states, made from the messages that machines
    send to the debugger: schemas add machines, states and relations, logs of
    transitions add connections and pipes.  The library of graphs is third-party
    code: a class of operations ([GraphLib]) with the laws it documents
    ([GraphLaws]), which a pair of maps satisfies. *)

From S2P Require Import NetMach Prelude StateList SchemaDef MachTime Mutation Queue Machine Requests GoStrings Logging Dbg.

#[local] Open Scope Z_scope.

(** ** Vertices and edges *)

Record Vertex := mkVertex { vx_StateName : string; vx_MachId : string }.

Definition hash (v : Vertex) : string :=
  if bool_decide (v.(vx_StateName) = "") then v.(vx_MachId) else v.(vx_MachId) +:+ ":" +:+ v.(vx_StateName).

Record MachineHas := mkMachineHas { mh_Inherited : string; mh_Auto : bool; mh_Multi : bool }.
Record MachPipeTo := mkMachPipeTo { mp_FromState : string; mp_ToState : string; mp_MutType : MutationType }.

Record EdgeData := mkEdgeData {
  ed_MachHas : option MachineHas;
  ed_MachConnectedTo : bool;
  ed_MachChildOf : bool;
  ed_MachPipesTo : list MachPipeTo;
  ed_StateRelation : list Relation;
}.

Definition noData : EdgeData := mkEdgeData None false false [] [].
Definition ed_has (auto multi : bool) : EdgeData := mkEdgeData (Some (mkMachineHas "" auto multi)) false false [] [].
Definition ed_connected : EdgeData := mkEdgeData None true false [] [].
Definition ed_child : EdgeData := mkEdgeData None false true [] [].
Definition ed_relation (r : Relation) : EdgeData := mkEdgeData None false false [] [r].
Definition set_pipes (l : list MachPipeTo) (d : EdgeData) : EdgeData :=
  mkEdgeData d.(ed_MachHas) d.(ed_MachConnectedTo) d.(ed_MachChildOf) l d.(ed_StateRelation).
Definition add_relation (r : Relation) (d : EdgeData) : EdgeData :=
  mkEdgeData d.(ed_MachHas) d.(ed_MachConnectedTo) d.(ed_MachChildOf) d.(ed_MachPipesTo)
    (d.(ed_StateRelation) ++ [r]).

(** [graph.ErrVertexAlreadyExists], or another error. *)
Inductive GraphErr := VertexExists | OtherErr (msg : string).

(** The library. An edge's data is a pointer: [gr_set] is what writing through it,
    or [UpdateEdge], does. *)
Class GraphLib (G : Type) := {
  gr_new : G;
  gr_AddVertex : Vertex → G → GraphErr + G;
  gr_Vertex : string → G → option Vertex;
  gr_AddEdge : string → string → EdgeData → G → GraphErr + G;
  gr_Edge : string → string → G → option EdgeData;
  gr_set : string → string → EdgeData → G → G;
  gr_RemoveEdge : string → string → G → GraphErr + G;
  gr_targets : G → string → list string;
  gr_sources : G → string → list string;
  gr_vertices : G → list string;
}.

(** What it documents of directed graphs (the mirror is undirected, and nothing is
    asked of it): vertices are unique by their hash, edges
    by their ends, which must be there. *)
Class GraphLaws (G : Type) `{GraphLib G} := {
  gl_Vertex : G → gmap string Vertex;
  gl_Edge : G → gmap (string * string) EdgeData;
  gl_new : gl_Vertex gr_new = ∅ ∧ gl_Edge gr_new = ∅;
  gl_Vertex_get k g : gr_Vertex k g = gl_Vertex g !! k;
  gl_Edge_get s t g : gr_Edge s t g = gl_Edge g !! (s, t);
  gl_AddVertex_new v g : gl_Vertex g !! hash v = None →
    ∃ g', gr_AddVertex v g = inr g' ∧ gl_Vertex g' = <[hash v := v]> (gl_Vertex g) ∧ gl_Edge g' = gl_Edge g;
  gl_AddVertex_old v g : is_Some (gl_Vertex g !! hash v) → gr_AddVertex v g = inl VertexExists;
  gl_AddEdge_new s t d g :
    is_Some (gl_Vertex g !! s) → is_Some (gl_Vertex g !! t) → gl_Edge g !! (s, t) = None →
    ∃ g', gr_AddEdge s t d g = inr g' ∧ gl_Vertex g' = gl_Vertex g ∧ gl_Edge g' = <[(s, t) := d]> (gl_Edge g);
  gl_AddEdge_err s t d g :
    gl_Vertex g !! s = None ∨ gl_Vertex g !! t = None ∨ is_Some (gl_Edge g !! (s, t)) →
    ∃ msg, gr_AddEdge s t d g = inl (OtherErr msg);
  gl_set s t d g : is_Some (gl_Edge g !! (s, t)) →
    gl_Vertex (gr_set s t d g) = gl_Vertex g ∧ gl_Edge (gr_set s t d g) = <[(s, t) := d]> (gl_Edge g);
  gl_RemoveEdge s t g : is_Some (gl_Edge g !! (s, t)) →
    ∃ g', gr_RemoveEdge s t g = inr g' ∧ gl_Vertex g' = gl_Vertex g ∧ gl_Edge g' = delete (s, t) (gl_Edge g);
  gl_targets g s t : t ∈ gr_targets g s ↔ is_Some (gl_Edge g !! (s, t));
  gl_sources g s t : s ∈ gr_sources g t ↔ is_Some (gl_Edge g !! (s, t));
  gl_targets_nodup g s : NoDup (gr_targets g s);
  gl_sources_nodup g t : NoDup (gr_sources g t);
}.

Section graph.
(** Directed and undirected graphs. *)
Context {G M : Type} `{GraphLib G, GraphLib M}.

(** The order in which maps are ranged over. *)
Context (order : gmap string State → list (string * State)).

(** [Client] of the graph. *)
Record Client := mkClient {
  gc_Id : string;
  gc_MsgSchema : DbgMsgStruct;
  gc_LatestMsgTx : option DbgMsgTx;
  gc_LatestTimeSum : Z;
  gc_LatestMTime : list Z;
}.

(** [Graph]; what it adds to the server's machine are errors. *)
Record Graph := mkGraph {
  g_Clients : gmap string Client;
  g_G : G;
  g_Map : M;
  g_errs : list (string * option GraphErr);
}.

Definition set_G (g' : G) (g : Graph) : Graph := mkGraph g.(g_Clients) g' g.(g_Map) g.(g_errs).
Definition set_Map (m : M) (g : Graph) : Graph := mkGraph g.(g_Clients) g.(g_G) m g.(g_errs).
Definition set_client (id : string) (c : Client) (g : Graph) : Graph :=
  mkGraph (<[id := c]> g.(g_Clients)) g.(g_G) g.(g_Map) g.(g_errs).

(** [New], once the server's machine has the states it needs. *)
Definition New (implements : bool) (serverId : string) : string + Graph :=
  if implements then inr (mkGraph ∅ gr_new gr_new [])
  else inl ("Graph.New: server machine " +:+ serverId +:+ " does not implement ssdbg.ServerStates").

(** [Clone]; the edges' data stays shared, [clone] and [mirror] being the library's. *)
Definition Clone (clone : G → GraphErr + G) (mirror : M → GraphErr + M) (g : Graph) : GraphErr + Graph :=
  match clone g.(g_G) with
  | inl e => inl e
  | inr c1 =>
      match mirror g.(g_Map) with
      | inl e => inl e
      | inr c2 =>
          inr (mkGraph (map_imap (λ id c, Some (mkClient id c.(gc_MsgSchema) None c.(gc_LatestTimeSum)
                                                  c.(gc_LatestMTime))) g.(g_Clients)) c1 c2 [])
      end
  end.

Definition Clear (g : Graph) : Graph := mkGraph ∅ gr_new gr_new g.(g_errs).

Record Connection := mkConnection { cx_Edge : EdgeData; cx_Source : Vertex; cx_Target : Vertex }.

Definition Graph_Connection (source target : string) (g : Graph) : option Connection :=
  e ← gr_Edge source target g.(g_G);
  t ← gr_Vertex target g.(g_G);
  s ← gr_Vertex source g.(g_G);
  Some (mkConnection e s t).

(** Code that answers an error: what was done before it stays. *)
Definition code := held Graph (option GraphErr).
Definition and_then (c d : code) : code := r ← c; match r with Some e => mret (Some e) | None => d end.

Definition of_G (f : G → GraphErr + G) : code := λ g,
  match f g.(g_G) with inl e => (g, Ok (Some e)) | inr g' => (set_G g' g, Ok None) end.
(** The mirror's errors are dropped. *)
Definition on_Map (f : M → GraphErr + M) : code := λ g,
  (match f g.(g_Map) with inl _ => g | inr m => set_Map m g end, Ok None).

Fixpoint each {A} (f : A → code) (l : list A) : code :=
  match l with [] => mret None | x :: l => and_then (f x) (each f l) end.

Definition addMach (id : string) (client : option Client) : code :=
  r ← of_G (gr_AddVertex (mkVertex "" id));
  match r with
  | Some VertexExists =>
      (match client with Some c => hmodify (set_client id c) | None => mret () end) ;; mret None
  | Some e => mret (Some e)
  | None => on_Map (gr_AddVertex (mkVertex "" id))
  end.

Definition AddEdge (srcId destId : string) (data : EdgeData) : code :=
  and_then (addMach srcId None) (and_then (addMach destId None)
    (and_then (of_G (gr_AddEdge srcId destId data)) (on_Map (gr_AddEdge srcId destId noData)))).

Definition state_key (id name : string) : string := id +:+ ":" +:+ name.

Definition add_state (id : string) (p : string * State) : code :=
  let '(name, props) := p in
  and_then (of_G (gr_AddVertex (mkVertex name id))) (and_then (on_Map (gr_AddVertex (mkVertex name id)))
    (and_then (of_G (gr_AddEdge id (state_key id name) (ed_has props.(st_Auto) props.(st_Multi))))
       (on_Map (gr_AddEdge id (state_key id name) noData)))).

Definition add_relation_edge (id name : string) (r : Relation) (relState : string) : code :=
  let from := state_key id name in
  let to := state_key id relState in
  g ← hget;
  match gr_Edge from to g.(g_G) with
  | Some data => hmodify (λ g, set_G (gr_set from to (add_relation r data) g.(g_G)) g) ;; mret None
  | None => and_then (of_G (gr_AddEdge from to (ed_relation r))) (on_Map (gr_AddEdge from to noData))
  end.

Definition add_relations (id : string) (p : string * State) : code :=
  let '(name, state) := p in
  and_then (each (add_relation_edge id name RelationRequire) (elems state.(st_Require)))
    (and_then (each (add_relation_edge id name RelationAdd) (elems state.(st_Add)))
       (each (add_relation_edge id name RelationRemove) (elems state.(st_Remove)))).

Definition AddClient (msg : DbgMsgStruct) : code :=
  let id := msg.(ms_ID) in
  let c := mkClient id msg None 0 (replicate (size msg.(ms_States)) 0) in
  hmodify (set_client id c) ;;
  and_then (addMach id (Some c))
    (and_then (if bool_decide (msg.(ms_Parent) = "") then mret None
               else and_then (AddEdge id msg.(ms_Parent) ed_child) (on_Map (gr_AddEdge id msg.(ms_Parent) noData)))
       (and_then (each (add_state id) (order msg.(ms_States))) (each (add_relations id) (order msg.(ms_States))))).

Definition RemoveClient (id : string) : code := mret None.

(** ** Reading logs *)

(** [for _, arg := range strings.Split(line[1])]: the ids among the arguments. *)
Definition conn_arg (clientId arg : string) : code :=
  match Split arg "=" with
  | a0 :: rest =>
      if negb (bool_decide (a0 = "id")) then mret None
      else match rest with
      | [] => hlift (Panic "index out of range")
      | id :: _ => and_then (AddEdge id clientId ed_connected) (on_Map (gr_AddEdge id clientId noData))
      end
  | [] => mret None
  end.

Definition conn_entry (clientId : string) (entry : option LogEntry) : code :=
  match entry with
  | None => hlift (Panic "invalid memory address or nil pointer dereference")
  | Some item =>
      if negb (HasPrefix item.(le_Text) "[add] ") then mret None
      else match Split (TrimRight item.(le_Text) (")" +:+ nl)) "(" with
      | _ :: args :: _ => each (conn_arg clientId) (Split args " ")
      | _ => hlift (Panic "index out of range")
      end
  end.

Definition TagRpcServer : string := "rpc-server".

(** [GetTransitionStates] of a transition with the two times and no steps. *)
Definition parseRpcConns (c : Client) (msgTx : DbgMsgTx) : code :=
  let index := c.(gc_MsgSchema).(ms_StatesIndex) in
  let tags := c.(gc_MsgSchema).(ms_Tags) in
  and_then
    (match c.(gc_LatestMsgTx) with
     | None => mret None
     | Some prevTx =>
         r ← hlift (Kit.GetTransitionStates (Some prevTx.(mx_Clocks)) (Some msgTx.(mx_Clocks)) [] index);
         if contains r.1.1 "HandshakeDone" && contains tags TagRpcServer
         then each (conn_entry c.(gc_Id)) msgTx.(mx_LogEntries) else mret None
     end)
    (let id := Kit.TagValue tags TagKeySrcId in
     if bool_decide (id = "") then mret None
     else and_then (AddEdge c.(gc_Id) id ed_connected) (on_Map (gr_AddEdge c.(gc_Id) id noData))).

(** A log line about a pipe: whether it is outgoing, what it does, the state and
    the other machine. *)
Record PipeLine := mkPipeLine { pl_out : bool; pl_mut : MutationType; pl_state : string; pl_other : string }.

Definition pipe_prefix (out isAdd : bool) : string :=
  (if out then "[pipe-out:" else "[pipe-in:") +:+ kind_of isAdd +:+ "] ".

(** [None]: the line is not about a pipe. *)
Definition parse_pipe (text : string) : outcome (option PipeLine) :=
  let kinds := [(false, true); (false, false); (true, true); (true, false)] in
  match find_first (λ k : bool * bool, HasPrefix text (pipe_prefix k.1 k.2)) kinds with
  | None => Ok None
  | Some (out, isAdd) =>
      let prefix := pipe_prefix out isAdd in
      match Split (substring text (str_len prefix) (str_len text)) (if out then " to " else " from ") with
      | state :: other :: _ =>
          Ok (Some (mkPipeLine out (if isAdd then MutationAdd else MutationRemove) state other))
      | _ => Panic "index out of range"
      end
  end.

(** The first pipe whose other side is missing takes it; a pipe that has it is
    left as it is. *)
Fixpoint match_pipe (l : PipeLine) (pipes : list MachPipeTo) : option (list MachPipeTo) :=
  match pipes with
  | [] => None
  | p :: pipes =>
      let mine := if l.(pl_out) then p.(mp_FromState) else p.(mp_ToState) in
      if bool_decide (p.(mp_MutType) = l.(pl_mut)) && bool_decide (mine = "") then
        Some ((if l.(pl_out) then mkMachPipeTo l.(pl_state) p.(mp_ToState) p.(mp_MutType)
               else mkMachPipeTo p.(mp_FromState) l.(pl_state) p.(mp_MutType)) :: pipes)
      else if bool_decide (p.(mp_MutType) = l.(pl_mut)) && bool_decide (mine = l.(pl_state)) then Some (p :: pipes)
      else option_map (cons p) (match_pipe l pipes)
  end.

Definition new_pipe (l : PipeLine) : MachPipeTo :=
  if l.(pl_out) then mkMachPipeTo l.(pl_state) "" l.(pl_mut) else mkMachPipeTo "" l.(pl_state) l.(pl_mut).

Definition see_pipe (l : PipeLine) (pipes : list MachPipeTo) : list MachPipeTo :=
  default (pipes ++ [new_pipe l]) (match_pipe l pipes).

Definition source_of (id : string) (l : PipeLine) : string := if l.(pl_out) then id else l.(pl_other).
Definition target_of (id : string) (l : PipeLine) : string := if l.(pl_out) then l.(pl_other) else id.

(** The edge between the two machines, added when there is none; a machine that is
    not known yet is added, too. *)
Definition ensure_edge (src dst other : string) : code :=
  g ← hget;
  match gr_Edge src dst g.(g_G) with
  | Some data => mret None
  | None =>
      r ← of_G (gr_AddEdge src dst noData);
      r ← (match r with
           | None => mret None
           | Some _ => and_then (addMach other None) (of_G (gr_AddEdge src dst noData))
           end);
      match r with Some e => mret (Some e) | None => on_Map (gr_AddEdge src dst noData) end
  end.

Definition add_pipe (id : string) (l : PipeLine) : code :=
  let src := source_of id l in
  let dst := target_of id l in
  and_then (ensure_edge src dst l.(pl_other))
    (g ← hget;
     match gr_Edge src dst g.(g_G) with
     | Some data =>
         hmodify (λ g, set_G (gr_set src dst (set_pipes (see_pipe l data.(ed_MachPipesTo)) data) g.(g_G)) g) ;;
         mret None
     | None => mret None
     end).

(** All edges of a machine are removed. *)
Definition remove_pipes (id : string) : code :=
  g ← hget;
  and_then (each (λ t, and_then (of_G (gr_RemoveEdge id t)) (on_Map (gr_RemoveEdge id t))) (gr_targets g.(g_G) id))
    (g ← hget;
     each (λ s, and_then (of_G (gr_RemoveEdge s id)) (on_Map (gr_RemoveEdge s id))) (gr_sources g.(g_G) id)).

Definition parseMsgReader (id : string) (log : option LogEntry) : code :=
  match log with
  | None => hlift (Panic "invalid memory address or nil pointer dereference")
  | Some e =>
      l ← hlift (parse_pipe e.(le_Text));
      match l with
      | Some l => add_pipe id l
      | None =>
          if HasPrefix e.(le_Text) "[pipe:gc] " then
            match Split e.(le_Text) " " with
            | _ :: machId :: _ => remove_pipes machId
            | _ => hlift (Panic "index out of range")
            end
          else mret None
      end
  end.

Definition parseMsgLog (c : Client) (msgTx : DbgMsgTx) : code :=
  and_then (each (parseMsgReader c.(gc_Id)) msgTx.(mx_PreLogEntries))
    (each (parseMsgReader c.(gc_Id)) msgTx.(mx_LogEntries)).

(** [AddErrGraph] *)
Definition AddErrGraph (what : string) (r : option GraphErr) : held Graph () :=
  match r with
  | None => mret ()
  | Some e => hmodify (λ g, mkGraph g.(g_Clients) g.(g_G) g.(g_Map) (g.(g_errs) ++ [(what, Some e)]))
  end.

(** The called states of the message become indexes, and its machine is dropped. *)
Definition compact (index : list string) (m : DbgMsgTx) : DbgMsgTx :=
  match m.(mx_CalledStates) with
  | None | Some [] => m
  | Some called =>
      mkMsgTx "" m.(mx_ID) m.(mx_Clocks) m.(mx_QueueTick) m.(mx_MutQueueToken) m.(mx_MutQueueTick) m.(mx_Type)
        None (index_of index <$> called) m.(mx_Steps) m.(mx_LogEntries) m.(mx_PreLogEntries) m.(mx_Queue)
        m.(mx_IsAuto) m.(mx_Accepted) m.(mx_IsCheck) m.(mx_IsQueued) m.(mx_Args)
  end.

Definition ParseMsg (id : string) (msgTx : DbgMsgTx) : held Graph () :=
  g ← hget;
  match g.(g_Clients) !! id with
  | None => mret ()
  | Some c =>
      let msgTx := compact c.(gc_MsgSchema).(ms_StatesIndex) msgTx in
      r ← parseRpcConns c msgTx;
      AddErrGraph "ParseMsg" r ;;
      r ← parseMsgLog c msgTx;
      AddErrGraph "parseMsgLog" r ;;
      hmodify (set_client id (mkClient c.(gc_Id) c.(gc_MsgSchema) (Some msgTx) (TimeSum msgTx) msgTx.(mx_Clocks)))
  end.
End graph.

(** ** A library *)

Record MapGraph := mkMapGraph { mg_V : gmap string Vertex; mg_E : gmap (string * string) EdgeData }.

#[export] Instance map_graph : GraphLib MapGraph := {
  gr_new := mkMapGraph ∅ ∅;
  gr_AddVertex v g :=
    match mg_V g !! hash v with
    | Some _ => inl VertexExists
    | None => inr (mkMapGraph (<[hash v := v]> (mg_V g)) (mg_E g))
    end;
  gr_Vertex k g := mg_V g !! k;
  gr_AddEdge s t d g :=
    match mg_V g !! s, mg_V g !! t, mg_E g !! (s, t) with
    | Some _, Some _, None => inr (mkMapGraph (mg_V g) (<[(s, t) := d]> (mg_E g)))
    | _, _, _ => inl (OtherErr "edge")
    end;
  gr_Edge s t g := mg_E g !! (s, t);
  gr_set s t d g := mkMapGraph (mg_V g) (<[(s, t) := d]> (mg_E g));
  gr_RemoveEdge s t g :=
    match mg_E g !! (s, t) with
    | Some _ => inr (mkMapGraph (mg_V g) (delete (s, t) (mg_E g)))
    | None => inl (OtherErr "edge")
    end;
  gr_targets g s := (λ p : string * string * EdgeData, p.1.2) <$> filter (λ p, p.1.1 = s) (map_to_list (mg_E g));
  gr_sources g t := (λ p : string * string * EdgeData, p.1.1) <$> filter (λ p, p.1.2 = t) (map_to_list (mg_E g));
  gr_vertices g := (map_to_list (mg_V g)).*1;
}.

Lemma map_ends_NoDup {D} (m : gmap (string * string) D) (f h : string * string → string) k :
  (∀ p q : string * string, f p = f q → h p = h q → p = q) →
  NoDup ((λ p : string * string * D, f p.1) <$> filter (λ p, h p.1 = k) (map_to_list m)).
Proof.
  intros Hinj. apply NoDup_fmap_2_strong.
  - intros [p d] [q e] [Hp Hp']%list_elem_of_filter [Hq Hq']%list_elem_of_filter Hf. cbn in *.
    assert (p = q) as -> by (apply Hinj; congruence).
    apply elem_of_map_to_list in Hp', Hq'. congruence.
  - apply NoDup_filter, NoDup_map_to_list.
Qed.

Lemma map_ends_spec {D} (m : gmap (string * string) D) (f h : string * string → string) a k key :
  (∀ p, f p = a → h p = k → p = key) → f key = a → h key = k →
  a ∈ ((λ p : string * string * D, f p.1) <$> filter (λ p, h p.1 = k) (map_to_list m)) ↔ is_Some (m !! key).
Proof.
  intros Hu Hf Hh. rewrite list_elem_of_fmap. split.
  - intros ([p d] & -> & [Hk Hp]%list_elem_of_filter). cbn in *. rewrite <- (Hu p) by done.
    apply elem_of_map_to_list in Hp. by exists d.
  - intros [d Hd]. exists (key, d). split; [done|]. apply list_elem_of_filter. cbn. split; [done|].
    by apply elem_of_map_to_list.
Qed.

#[export] Instance map_graph_laws : GraphLaws MapGraph.
Proof.
  refine {| gl_Vertex := mg_V; gl_Edge := mg_E |}; try done.
  - intros v g Hv. cbn. rewrite Hv. eauto.
  - intros v g [w Hw]. cbn. by rewrite Hw.
  - intros s t d g [v Hv] [w Hw] He. cbn. rewrite Hv, Hw, He. eauto.
  - intros s t d g He. cbn. destruct (mg_V g !! s), (mg_V g !! t), (mg_E g !! (s, t)); eauto.
    destruct He as [?|[?|[? ?]]]; done.
  - intros s t g [d Hd]. cbn. rewrite Hd. eauto.
  - intros g s t. apply (map_ends_spec _ snd fst); [|done..]. intros [? ?]. cbn. congruence.
  - intros g s t. apply (map_ends_spec _ fst snd); [|done..]. intros [? ?]. cbn. congruence.
  - intros g s. apply (map_ends_NoDup _ snd fst). intros [? ?] [? ?]. cbn. congruence.
  - intros g t. apply (map_ends_NoDup _ fst snd). intros [? ?] [? ?]. cbn. congruence.
Defined.

(** ** Reading pipes *)

Definition no_space (s : string) : Prop := free_of space s = true.
Definition mut_of (isAdd : bool) : MutationType := if isAdd then MutationAdd else MutationRemove.

(** What loggers write is what the graph reads. *)
Lemma pipe_parsed (out isAdd : bool) (s t : string) :
  no_space s → no_space t →
  parse_pipe (if out then pipe_out_text isAdd s t else pipe_in_text isAdd s t)
  = Ok (Some (mkPipeLine out (mut_of isAdd) s t)).
Proof.
  intros Hs Ht. unfold parse_pipe.
  set (text := if out then pipe_out_text isAdd s t else pipe_in_text isAdd s t).
  assert (Htext : text = pipe_prefix out isAdd +:+ (s +:+ (if out then " to " else " from ") +:+ t)).
  { unfold text. destruct out, isAdd; reflexivity. }
  assert (Hk : find_first (λ k : bool * bool, HasPrefix text (pipe_prefix k.1 k.2))
                 [(false, true); (false, false); (true, true); (true, false)] = Some (out, isAdd)).
  { assert (Hp : HasPrefix text (pipe_prefix out isAdd) = true) by (rewrite Htext; apply prefix_app).
    assert (Hn : ∀ o a, (o, a) ≠ (out, isAdd) → HasPrefix text (pipe_prefix o a) = false).
    { intros o a Hoa. rewrite Htext. destruct o, a, out, isAdd; try reflexivity; by destruct Hoa. }
    clearbody text. clear Htext. destruct out, isAdd; cbn [find_first fst snd]; by rewrite ?Hn, Hp by done. }
  cbv zeta. rewrite Hk, Htext, substring_drop.
  assert (Split (s +:+ (if out then " to " else " from ") +:+ t) (if out then " to " else " from ") = [s; t]) as ->.
  { destruct out; by apply (Split_two space). }
  by destruct isAdd.
Qed.

(** The pipes of an edge, told line by line. *)
Record PipeSpec := mkPipeSpec { ps_isAdd : bool; ps_from : string; ps_to : string }.

Definition line_out (p : PipeSpec) (dst : string) : PipeLine := mkPipeLine true (mut_of p.(ps_isAdd)) p.(ps_from) dst.
Definition line_in (p : PipeSpec) (src : string) : PipeLine := mkPipeLine false (mut_of p.(ps_isAdd)) p.(ps_to) src.
Definition pipe_of (p : PipeSpec) : MachPipeTo := mkMachPipeTo p.(ps_from) p.(ps_to) (mut_of p.(ps_isAdd)).

Record pipe_wf (p : PipeSpec) : Prop := {
  pw_from : p.(ps_from) ≠ "" ∧ no_space p.(ps_from);
  pw_to : p.(ps_to) ≠ "" ∧ no_space p.(ps_to);
}.

(** Complete pipes with other states are passed over. *)
Lemma match_pipe_skip l ps q :
  Forall pipe_wf ps →
  Forall (λ p, mut_of p.(ps_isAdd) = l.(pl_mut) →
               (if l.(pl_out) then p.(ps_from) else p.(ps_to)) ≠ l.(pl_state)) ps →
  match_pipe l ((pipe_of <$> ps) ++ q) = option_map (app (pipe_of <$> ps)) (match_pipe l q).
Proof.
  induction 1 as [|p ps Hp _ IH]; intros Hd; cbn; [by destruct (match_pipe l q)|].
  apply Forall_cons in Hd as [Hd Hds]. rewrite IH by done.
  assert ((if pl_out l then ps_from p else ps_to p) ≠ "") by (destruct Hp; destruct (pl_out l); naive_solver).
  rewrite (bool_decide_eq_false_2 ((if pl_out l then ps_from p else ps_to p) = "")) by done.
  rewrite andb_false_r.
  destruct (bool_decide (mut_of (ps_isAdd p) = pl_mut l)) eqn:Hm; cbn.
  - apply bool_decide_eq_true in Hm. rewrite bool_decide_eq_false_2 by auto.
    by destruct (match_pipe l q).
  - by destruct (match_pipe l q).
Qed.

Lemma match_pipe_none l ps :
  Forall pipe_wf ps →
  Forall (λ p, mut_of p.(ps_isAdd) = l.(pl_mut) →
               (if l.(pl_out) then p.(ps_from) else p.(ps_to)) ≠ l.(pl_state)) ps →
  match_pipe l (pipe_of <$> ps) = None.
Proof. intros Hps Hd. pose proof (match_pipe_skip l ps [] Hps Hd) as Hk. by rewrite app_nil_r in Hk. Qed.

(** The two lines of a pipe, in either order, add it. *)
Lemma see_pair ps p src dst (first_out : bool) :
  Forall pipe_wf ps → pipe_wf p →
  Forall (λ q, q.(ps_isAdd) = p.(ps_isAdd) → q.(ps_from) ≠ p.(ps_from) ∧ q.(ps_to) ≠ p.(ps_to)) ps →
  let l1 := if first_out then line_out p dst else line_in p src in
  let l2 := if first_out then line_in p src else line_out p dst in
  see_pipe l2 (see_pipe l1 (pipe_of <$> ps)) = pipe_of <$> (ps ++ [p]).
Proof.
  intros Hps Hp Hd. cbv zeta.
  assert (Hmut : ∀ q : PipeSpec, mut_of q.(ps_isAdd) = mut_of p.(ps_isAdd) → q.(ps_isAdd) = p.(ps_isAdd)).
  { intros q. unfold mut_of. by destruct (ps_isAdd q), (ps_isAdd p). }
  assert (H1 : Forall (λ q, mut_of q.(ps_isAdd) = pl_mut (line_out p dst) → q.(ps_from) ≠ p.(ps_from)) ps).
  { eapply Forall_impl; [exact Hd|]. intros q Hq Hm. by apply Hq, Hmut. }
  assert (H2 : Forall (λ q, mut_of q.(ps_isAdd) = pl_mut (line_in p src) → q.(ps_to) ≠ p.(ps_to)) ps).
  { eapply Forall_impl; [exact Hd|]. intros q Hq Hm. by apply Hq, Hmut. }
  rewrite fmap_app. destruct first_out; unfold see_pipe.
  - rewrite (match_pipe_none (line_out p dst)) by done. cbn [default].
    rewrite match_pipe_skip by done. cbn. by rewrite bool_decide_eq_true_2.
  - rewrite (match_pipe_none (line_in p src)) by done. cbn [default].
    rewrite match_pipe_skip by done. cbn. by rewrite bool_decide_eq_true_2.
Qed.

(** ** Reading the logs of several machines *)

Section reading.
Context {G M : Type} `{GraphLaws G, GraphLib M}.

(** A line that one of the two machines of a pipe writes about its state. *)
Record PipeEvent := mkPipeEvent {
  pe_src : string; pe_dst : string; pe_out : bool; pe_isAdd : bool; pe_state : string;
}.

Definition pe_logger (e : PipeEvent) : string := if e.(pe_out) then e.(pe_src) else e.(pe_dst).
Definition pe_other (e : PipeEvent) : string := if e.(pe_out) then e.(pe_dst) else e.(pe_src).
Definition pe_text (e : PipeEvent) : string :=
  if e.(pe_out) then pipe_out_text e.(pe_isAdd) e.(pe_state) (pe_other e)
  else pipe_in_text e.(pe_isAdd) e.(pe_state) (pe_other e).
Definition pe_line (e : PipeEvent) : PipeLine :=
  mkPipeLine e.(pe_out) (mut_of e.(pe_isAdd)) e.(pe_state) (pe_other e).

Definition read_event (e : PipeEvent) : code (G := G) (M := M) :=
  parseMsgReader (pe_logger e) (Some (mkLogEntry LogOps (pe_text e))).

Definition event_ok (g : Graph (G := G) (M := M)) (e : PipeEvent) : Prop :=
  is_Some (gl_Vertex g.(g_G) !! e.(pe_src)) ∧ is_Some (gl_Vertex g.(g_G) !! e.(pe_dst)) ∧
  no_space e.(pe_state) ∧ no_space (pe_other e).

Definition on_edge (s d : string) (e : PipeEvent) : Prop := e.(pe_src) = s ∧ e.(pe_dst) = d.
#[export] Instance on_edge_dec s d e : Decision (on_edge s d e).
Proof. unfold on_edge. apply _. Defined.

(** What a line makes of the edge it is about. *)
Definition seen (e : PipeEvent) (d : option EdgeData) : option EdgeData :=
  let data := default noData d in Some (set_pipes (see_pipe (pe_line e) data.(ed_MachPipesTo)) data).

Lemma ensure_edge_ok (src dst other : string) (g : Graph (G := G) (M := M)) :
  is_Some (gl_Vertex g.(g_G) !! src) → is_Some (gl_Vertex g.(g_G) !! dst) →
  ∃ g', ensure_edge src dst other g = (g', Ok None) ∧ gl_Vertex g'.(g_G) = gl_Vertex g.(g_G) ∧
    gl_Edge g'.(g_G) = <[(src, dst) := default noData (gl_Edge g.(g_G) !! (src, dst))]> (gl_Edge g.(g_G)).
Proof.
  intros Hs Hd. unfold ensure_edge, of_G, on_Map, mbind, held_bind, hget, mret, held_ret.
  rewrite gl_Edge_get. destruct (gl_Edge (g_G g) !! (src, dst)) eqn:He; cbn.
  - eexists; split; [done|]. split; [done|]. by rewrite insert_id.
  - destruct (gl_AddEdge_new src dst noData (g_G g) Hs Hd He) as (g' & -> & Hv & Hg).
    eexists; split; [done|]. by destruct (gr_AddEdge src dst noData (g_Map (set_G g' g))).
Qed.

Lemma read_line (e : PipeEvent) (g : Graph (G := G) (M := M)) :
  event_ok g e →
  ∃ g', read_event e g = (g', Ok None) ∧ gl_Vertex g'.(g_G) = gl_Vertex g.(g_G) ∧
    ∀ s d, gl_Edge g'.(g_G) !! (s, d)
           = if decide (on_edge s d e) then seen e (gl_Edge g.(g_G) !! (s, d)) else gl_Edge g.(g_G) !! (s, d).
Proof.
  intros (Hs & Hd & Hst & Hot). unfold read_event, parseMsgReader. cbn [le_Text].
  assert (parse_pipe (pe_text e) = Ok (Some (pe_line e))) as -> by (apply pipe_parsed; done).
  assert (source_of (pe_logger e) (pe_line e) = pe_src e) as Hsrc.
  { unfold source_of, pe_logger, pe_other; cbn. unfold pe_other. by destruct (pe_out e). }
  assert (target_of (pe_logger e) (pe_line e) = pe_dst e) as Hdst.
  { unfold target_of, pe_logger, pe_other; cbn. unfold pe_other. by destruct (pe_out e). }
  unfold add_pipe, and_then, hlift, mbind, held_bind, hget, hmodify, mret, held_ret. cbv zeta.
  rewrite Hsrc, Hdst. destruct (ensure_edge_ok _ _ (pl_other (pe_line e)) g Hs Hd) as (g1 & -> & Hv & He).
  cbn -[gr_Edge gr_set see_pipe]. rewrite gl_Edge_get, He, lookup_insert_eq.
  eexists; split; [done|]. cbn -[gr_set see_pipe].
  destruct (gl_set (pe_src e) (pe_dst e)
    (set_pipes (see_pipe (pe_line e) (ed_MachPipesTo (default noData (gl_Edge (g_G g) !! (pe_src e, pe_dst e)))))
       (default noData (gl_Edge (g_G g) !! (pe_src e, pe_dst e)))) (g_G g1)) as [Hv' He'].
  { rewrite He, lookup_insert_eq. eauto. }
  rewrite Hv', Hv, He', He. split; [done|]. intros s d. rewrite insert_insert_eq.
  destruct (decide (on_edge s d e)) as [[<- <-]|Hne]; [by rewrite lookup_insert_eq|].
  rewrite lookup_insert_ne; [done|]. intros [= <- <-]. by destruct Hne.
Qed.

Definition pipes_of (d : option EdgeData) : list MachPipeTo := (default noData d).(ed_MachPipesTo).

Lemma read_lines (evs : list PipeEvent) (g : Graph (G := G) (M := M)) :
  Forall (event_ok g) evs →
  ∃ g', each read_event evs g = (g', Ok None) ∧ gl_Vertex g'.(g_G) = gl_Vertex g.(g_G) ∧
    ∀ s d, gl_Edge g'.(g_G) !! (s, d) = foldl (λ x e, seen e x) (gl_Edge g.(g_G) !! (s, d)) (filter (on_edge s d) evs).
Proof.
  revert g. induction evs as [|e evs IH]; intros g Hok; [by exists g|].
  apply Forall_cons in Hok as [He Hok]. destruct (read_line e g He) as (g1 & Hr & Hv & Hg).
  destruct (IH g1) as (g' & Hr' & Hv' & Hg').
  { eapply Forall_impl; [exact Hok|]. unfold event_ok. intros x. by rewrite Hv. }
  exists g'. split; [|split; [congruence|]].
  - cbn [each]. unfold and_then, mbind, held_bind. by rewrite Hr.
  - intros s d. rewrite Hg', Hg, filter_cons. by destruct (decide (on_edge s d e)).
Qed.

Lemma seen_pipes evs d :
  pipes_of (foldl (λ x e, seen e x) d evs) = foldl (λ l e, see_pipe (pe_line e) l) (pipes_of d) evs.
Proof. revert d. induction evs as [|e evs IH]; intros d; [done|]. cbn [foldl]. by rewrite IH. Qed.

(** The two lines of a pipe, in the order told by the flag. *)
Definition told (src dst : string) (p : PipeSpec * bool) : list PipeEvent :=
  let a := mkPipeEvent src dst true p.1.(ps_isAdd) p.1.(ps_from) in
  let b := mkPipeEvent src dst false p.1.(ps_isAdd) p.1.(ps_to) in
  if p.2 then [a; b] else [b; a].

Definition pipes_differ (p q : PipeSpec) : Prop :=
  q.(ps_isAdd) = p.(ps_isAdd) → q.(ps_from) ≠ p.(ps_from) ∧ q.(ps_to) ≠ p.(ps_to).

Lemma told_pairs src dst ps done :
  Forall pipe_wf done → Forall (λ p, pipe_wf p.1) ps →
  Forall (λ p, Forall (pipes_differ p.1) done) ps →
  ForallOrdPairs (λ p q, pipes_differ q.1 p.1) ps →
  foldl (λ l e, see_pipe (pe_line e) l) (pipe_of <$> done) (ps ≫= told src dst) = pipe_of <$> (done ++ ps.*1).
Proof.
  revert done. induction ps as [|[p b] ps IH]; intros don Hd Hwf Hdd Hpp; [by rewrite app_nil_r|].
  inversion Hwf; inversion Hdd; inversion Hpp; subst. cbn in *.
  rewrite foldl_app.
  replace (foldl _ (pipe_of <$> don) (told src dst (p, b))) with (pipe_of <$> (don ++ [p])).
  - change (don ++ p :: ps.*1) with (don ++ [p] ++ ps.*1). rewrite app_assoc. apply IH; [|done| |done].
    { apply Forall_app. split; [done|by constructor]. }
    apply Forall_forall. intros x Hx. apply Forall_app. split; [by eapply Forall_forall in H9|].
    constructor; [|done]. by eapply Forall_forall in H12.
  - symmetry. destruct b; [exact (see_pair don p src dst true Hd ltac:(done) ltac:(done))
                          |exact (see_pair don p src dst false Hd ltac:(done) ltac:(done))].
Qed.

(** C36: The pipes between two machines are what their logs say: when the lines about
    them come pipe by pipe (the two of one in
    either order), between them only lines about other pipes and machines, no
    [pipe:gc] among them, and no state is piped twice with the same mutation, then
    an edge that had no pipes has these, in order. *)
Theorem pipes_paired (g : Graph (G := G) (M := M)) (evs : list PipeEvent) src dst (ps : list (PipeSpec * bool)) :
  Forall (event_ok g) evs →
  filter (on_edge src dst) evs = ps ≫= told src dst →
  Forall (λ p, pipe_wf p.1) ps →
  ForallOrdPairs (λ p q, pipes_differ q.1 p.1) ps →
  pipes_of (gl_Edge g.(g_G) !! (src, dst)) = [] →
  ∃ g', each read_event evs g = (g', Ok None) ∧ pipes_of (gl_Edge g'.(g_G) !! (src, dst)) = pipe_of <$> ps.*1.
Proof.
  intros Hok Hf Hwf Hpp Hnil. destruct (read_lines evs g Hok) as (g' & Hr & _ & Hg).
  exists g'. split; [done|]. rewrite Hg, seen_pipes, Hf, Hnil.
  apply (told_pairs src dst ps []); [done..| |done]. apply Forall_forall. by constructor.
Qed.
End reading.

(** ** A network of two machines *)

Section mirror.
Definition pair_graph : Graph (G := MapGraph) (M := MapGraph) :=
  mkGraph ∅ (mkMapGraph (<["a" := mkVertex "" "a"]> {["b" := mkVertex "" "b"]}) ∅) gr_new [].

Definition pair_pipes : list (PipeSpec * bool) :=
  [(mkPipeSpec true "Start" "Begin", true); (mkPipeSpec false "Start" "Begin", false);
   (mkPipeSpec true "Ready" "Begun", false)].

Definition pair_log : list PipeEvent :=
  [mkPipeEvent "a" "b" true true "Start"; mkPipeEvent "b" "a" true true "Stop";
   mkPipeEvent "a" "b" false true "Begin"; mkPipeEvent "a" "b" false false "Begin";
   mkPipeEvent "a" "b" true false "Start"; mkPipeEvent "a" "b" false true "Begun";
   mkPipeEvent "a" "b" true true "Ready"].

Lemma pipes_paired_witness :
  ∃ g', each read_event pair_log pair_graph = (g', Ok None) ∧
        pipes_of (gl_Edge g'.(g_G) !! ("a", "b")) = pipe_of <$> pair_pipes.*1.
Proof.
  apply (pipes_paired pair_graph pair_log "a" "b" pair_pipes).
  - repeat constructor; vm_compute; eauto.
  - vm_compute. reflexivity.
  - repeat constructor; vm_compute; congruence.
  - repeat first [apply FOP_nil | apply FOP_cons | apply Forall_nil_2 | apply Forall_cons_2]; intros Ha; try done; by split.
  - reflexivity.
Defined.

(** Of a state piped to two, the second is lost, and its other side is paired with
    the next pipe. *)
Example pipe_mispaired :
  ∃ g', each read_event
          [mkPipeEvent "a" "b" true true "Start"; mkPipeEvent "a" "b" false true "Begin";
           mkPipeEvent "a" "b" true true "Start"; mkPipeEvent "a" "b" false true "Open";
           mkPipeEvent "a" "b" true true "Ready"; mkPipeEvent "a" "b" false true "Begun"] pair_graph = (g', Ok None) ∧
        pipes_of (gl_Edge g'.(g_G) !! ("a", "b"))
        = [mkMachPipeTo "Start" "Begin" MutationAdd; mkMachPipeTo "Ready" "Open" MutationAdd;
           mkMachPipeTo "" "Begun" MutationAdd].
Proof. eexists. split; vm_compute; reflexivity. Qed.

(** When the pipes of a machine are collected, its states and parent go with them. *)
Example gc_removes_states :
  let g := mkGraph (G := MapGraph) (M := MapGraph) ∅
             (mkMapGraph (<["a" := mkVertex "" "a"]> (<["a:S" := mkVertex "S" "a"]> {["b" := mkVertex "" "b"]}))
                (<[("a", "a:S") := ed_has false false]> {[("a", "b") := ed_child]})) gr_new [] in
  ∃ g', parseMsgReader "a" (Some (mkLogEntry LogOps "[pipe:gc] a")) g = (g', Ok None) ∧ gl_Edge g'.(g_G) = ∅.
Proof. cbv zeta. eexists. split; vm_compute; reflexivity. Qed.

(** The second message of a network machine adds an error: its source is linked
    already. *)
Example net_messages :
  let c := mkClient "n" (mkMsgStruct "n" [] ∅ ∅ [] "" [TagKeySrcId +:+ ":b"]) None 0 [] in
  let g := mkGraph (G := MapGraph) (M := MapGraph) {["n" := c]} gr_new gr_new [] in
  let tx := mkMsgTx "n" "t1" [] 0 0 0 MutationAdd None [] [] [] [] 0 false true false false None in
  (ParseMsg "n" tx g).1.(g_errs) = [] ∧
  (ParseMsg "n" tx (ParseMsg "n" tx g).1).1.(g_errs) = [("ParseMsg", Some (OtherErr "edge"))].
Proof. cbv zeta. split; vm_compute; reflexivity. Qed.
End mirror.
