(* ===== verification/GraphText.v ===== *)
(** * The network graph as text ([pkg/graph/graph.go])

    [Inspect] collects what the graph knows of each machine; [Markdown] prints it
    flat, [Markup] as a tree of children.  Writing a machine recurs into its
    children without a bound: fuel, of which the number of machines is enough. *)

From S2P Require Import Prelude StateList SchemaDef MachTime Mutation Dbg GoStrings Graph.

#[local] Open Scope Z_scope.

Record MachInspect := mkInspect {
  mi_Child : string;
  mi_States : list string;
  mi_Conns : list string;
  mi_Pipes : gmap string (list string);
  mi_Time : Z;
  mi_Schema : gmap string State;
  mi_Tags : list string;
  mi_MTime : list Z;
}.

(** ** Inspecting a graph *)

Section inspect.
Context {G M : Type} `{GraphLib G, GraphLib M}.

Definition inspect_new (c : Client) : MachInspect :=
  mkInspect "" c.(gc_MsgSchema).(ms_StatesIndex) [] ∅ c.(gc_LatestTimeSum) c.(gc_MsgSchema).(ms_States)
    c.(gc_MsgSchema).(ms_Tags) c.(gc_LatestMTime).

Definition pipe_text (p : MachPipeTo) : string :=
  "[" +:+ MutationType_String p.(mp_MutType) +:+ "] " +:+ p.(mp_FromState) +:+ " -> " +:+ p.(mp_ToState).

(** An edge of the machine; no pipes leave no entry. *)
Definition inspect_edge (target : string) (e : EdgeData) (i : MachInspect) : MachInspect :=
  mkInspect
    (if e.(ed_MachChildOf) then target else i.(mi_Child)) i.(mi_States)
    (if e.(ed_MachConnectedTo) then i.(mi_Conns) ++ [target] else i.(mi_Conns))
    (match e.(ed_MachPipesTo) with
     | [] => i.(mi_Pipes)
     | ps => <[target := default [] (i.(mi_Pipes) !! target) ++ (pipe_text <$> ps)]> i.(mi_Pipes)
     end)
    i.(mi_Time) i.(mi_Schema) i.(mi_Tags) i.(mi_MTime).

Fixpoint inspect_edges (g : Graph (G := G) (M := M)) (machId : string) (targets : list string) (i : MachInspect)
    : outcome MachInspect :=
  match targets with
  | [] => Ok i
  | t :: targets =>
      match Graph_Connection machId t g with
      | None => Panic "invalid memory address or nil pointer dereference"
      | Some conn => inspect_edges g machId targets (inspect_edge t conn.(cx_Edge) i)
      end
  end.

Definition inspect_mach (g : Graph (G := G) (M := M)) (machId : string) (ret : gmap string MachInspect)
    : outcome (gmap string MachInspect) :=
  if bool_decide (length (Split machId ":") = 2%nat) then Ok ret
  else match g.(g_Clients) !! machId with
  | None => Ok ret
  | Some c =>
      i ← inspect_edges g machId (gr_targets g.(g_G) machId) (default (inspect_new c) (ret !! machId));
      Ok (<[machId := i]> ret)
  end.

Definition Inspect (g : Graph (G := G) (M := M)) : outcome (gmap string MachInspect) :=
  foldr (λ id ret, r ← ret; inspect_mach g id r) (Ok ∅) (gr_vertices g.(g_G)).
End inspect.

(** ** Markdown *)

Definition Join (l : list string) (sep : string) : string := String.concat sep l.
Definition sorted_keys {A} (m : gmap string A) : list string := sort_Strings (map_to_list m).*1.

(** A list under its title; nothing when it is empty. *)
Definition md_list (title : string) (l : list string) : string :=
  if bool_decide (l = []) then ""
  else title +:+ "- " +:+ Join (sort_Strings l) (nl +:+ "- ") +:+ nl +:+ nl.

Definition md_pipes (pipes : gmap string (list string)) : string :=
  if bool_decide (pipes = ∅) then ""
  else "### Pipes" +:+ nl +:+ nl
       +:+ fold_left (λ ret k,
             ret +:+ "#### " +:+ k +:+ nl
             +:+ "- " +:+ Join (sort_Strings (default [] (pipes !! k))) (nl +:+ "- ") +:+ nl +:+ nl)
             (sorted_keys pipes) "".

Definition md_mach (id : string) (data : MachInspect) : string :=
  "## " +:+ id +:+ nl +:+ "Time: t" +:+ pretty data.(mi_Time) +:+ nl
  +:+ (if negb (bool_decide (data.(mi_Child) = "")) then "Parent: " +:+ data.(mi_Child) +:+ nl +:+ nl else nl)
  +:+ md_list ("### States" +:+ nl) data.(mi_States)
  +:+ md_list ("### RPC" +:+ nl) data.(mi_Conns)
  +:+ md_pipes data.(mi_Pipes)
  +:+ "-----" +:+ nl +:+ nl.

(** The lists of the argument are sorted in place: its machines afterwards. *)
Definition sort_inspect (i : MachInspect) : MachInspect :=
  mkInspect i.(mi_Child) (sort_Strings i.(mi_States)) (sort_Strings i.(mi_Conns)) (sort_Strings <$> i.(mi_Pipes))
    i.(mi_Time) i.(mi_Schema) i.(mi_Tags) i.(mi_MTime).

Definition Markdown (inspect : gmap string MachInspect) : string * gmap string MachInspect :=
  (fold_left (λ ret id, match inspect !! id with Some d => ret +:+ md_mach id d | None => ret end)
     (sorted_keys inspect) ("# am-vis inspect-dump" +:+ nl +:+ nl),
   sort_inspect <$> inspect).

(** ** Markup *)

Definition tagged (pad tag body : string) : string := pad +:+ "<" +:+ tag +:+ ">" +:+ body +:+ "</" +:+ tag +:+ ">" +:+ nl.
Definition attr (name val : string) : string := " " +:+ name +:+ "=" +:+ dquote +:+ val +:+ dquote.
Definition on (name : string) (b : bool) : string := if b then attr name "1" else "".

Definition writeRelations (pad tag : string) (rels : rel) : string :=
  fold_left (λ ret r, ret +:+ tagged (pad +:+ "    ") tag r) (sort_Strings (elems rels)) "".

Definition state_attrs (name : string) (data : MachInspect) (state : State) : string :=
  let idx := index_of data.(mi_States) name in
  (if bool_decide (0 ≤ idx) && bool_decide (idx < len data.(mi_MTime)) then
     let tick := nth (Z.to_nat idx) data.(mi_MTime) 0 in
     attr "tick" (pretty tick) +:+ on "active" (IsActiveTick tick)
   else "")
  +:+ on "auto" state.(st_Auto) +:+ on "multi" state.(st_Multi).

Definition writeState (name : string) (data : MachInspect) (pad : string) : string :=
  match data.(mi_Schema) !! name with
  | None => tagged pad "state" name
  | Some state =>
      let attrs := state_attrs name data state in
      let rels := [state.(st_Require); state.(st_Add); state.(st_Remove); state.(st_After)] in
      if forallb (λ r, bool_decide (elems r = [])) rels then
        pad +:+ "<state" +:+ attrs +:+ ">" +:+ name +:+ "</state>" +:+ nl
      else
        pad +:+ "<state" +:+ attrs +:+ ">" +:+ nl +:+ pad +:+ "    " +:+ name +:+ nl
        +:+ writeRelations pad "require" state.(st_Require) +:+ writeRelations pad "add" state.(st_Add)
        +:+ writeRelations pad "remove" state.(st_Remove) +:+ writeRelations pad "after" state.(st_After)
        +:+ pad +:+ "</state>" +:+ nl
  end.

(** The attributes and the body of a pipe's text. *)
Definition read_pipe_text (pipe : string) : string * string :=
  let close := IndexStr pipe "]" in
  if HasPrefix pipe "[" && bool_decide (1 < close) then
    let mut := TrimSpace (substring pipe 1 close) in
    let rest := TrimSpace (substring pipe (close + 1) (str_len pipe)) in
    let add := attr "add" (if bool_decide (mut = "remove") then "0" else "1") in
    match Cut rest " -> " with
    | (from, to, true) =>
        let from := TrimSpace from in
        let to := TrimSpace to in
        (add +:+ (if bool_decide (from = "") then "" else " as=" +:+ Quote from),
         if negb (bool_decide (to = "")) then to else if negb (bool_decide (from = "")) then from else rest)
    | (_, _, false) => (add, rest)
    end
  else ("", pipe).

Definition writePipe (target pipe pad : string) : string :=
  let '(attrs, body) := read_pipe_text pipe in
  pad +:+ "<pipe" +:+ " to=" +:+ Quote target +:+ attrs +:+ ">" +:+ body +:+ "</pipe>" +:+ nl.

(** What a machine's element holds before its children. *)
Definition mach_body (data : MachInspect) (inner : string) : string :=
  fold_left (λ ret s, ret +:+ writeState s data inner) (sort_Strings data.(mi_States)) ""
  +:+ fold_left (λ ret c, ret +:+ tagged inner "rpc" c) (sort_Strings data.(mi_Conns)) ""
  +:+ fold_left (λ ret t,
        fold_left (λ ret p, ret +:+ writePipe t p inner) (sort_Strings (default [] (data.(mi_Pipes) !! t))) ret)
        (sorted_keys data.(mi_Pipes)) ""
  +:+ fold_left (λ ret t, ret +:+ tagged inner "tag" t) (sort_Strings data.(mi_Tags)) "".

(** Lines written one after another. *)
Fixpoint lines (f : string → outcome string) (l : list string) : outcome string :=
  match l with
  | [] => Ok ""
  | x :: l => s ← f x; rest ← lines f l; Ok (nl +:+ s +:+ rest)
  end.

Fixpoint writeMachine (fuel : nat) (inspect : gmap string MachInspect) (children : gmap string (list string))
    (id : string) (indent : nat) : outcome string :=
  match fuel with
  | O => Block
  | S fuel =>
      match inspect !! id with
      | None => Panic "invalid memory address or nil pointer dereference"
      | Some data =>
          let pad := Repeat "    " indent in
          rest ← lines (λ c, writeMachine fuel inspect children c (S indent)) (default [] (children !! id));
          Ok (pad +:+ "<machine id=" +:+ Quote id +:+ attr "time" (pretty data.(mi_Time)) +:+ ">" +:+ nl
              +:+ mach_body data (pad +:+ "    ") +:+ rest +:+ pad +:+ "</machine>" +:+ nl)
      end
  end.

(** The map from parents to children, sorted: the order of the map does not show. *)
Definition children_of (inspect : gmap string MachInspect) (parent : string) : list string :=
  sort_Strings (filter (λ p : string * MachInspect, p.2.(mi_Child) = parent) (map_to_list inspect)).*1.
Definition roots (inspect : gmap string MachInspect) : list string := children_of inspect "".
Definition children_map (inspect : gmap string MachInspect) : gmap string (list string) :=
  set_to_map (λ p, (p, children_of inspect p))
    (list_to_set (filter (λ p, p ≠ "") ((λ p : string * MachInspect, p.2.(mi_Child)) <$> map_to_list inspect)) : gset string).

Definition Markup (fuel : nat) (inspect : gmap string MachInspect) : outcome string :=
  body ← lines (λ id, writeMachine fuel inspect (children_map inspect) id 1) (roots inspect);
  Ok ("<graph>" +:+ nl +:+ body +:+ "</graph>" +:+ nl).

(** ** The tree of machines *)

Lemma elem_of_sort_Strings (x : string) l : x ∈ sort_Strings l ↔ x ∈ l.
Proof. by rewrite sort_Strings_perm. Qed.

Lemma elem_of_children_of inspect p c :
  c ∈ children_of inspect p ↔ ∃ d, inspect !! c = Some d ∧ d.(mi_Child) = p.
Proof.
  unfold children_of. rewrite elem_of_sort_Strings, list_elem_of_fmap. split.
  - intros ([k d] & -> & [Hp Hk]%list_elem_of_filter). cbn in *. exists d. by rewrite <- elem_of_map_to_list.
  - intros (d & Hd & Hp). exists (c, d). split; [done|]. apply list_elem_of_filter.
    by rewrite elem_of_map_to_list.
Qed.

Lemma children_map_spec inspect p c :
  c ∈ default [] (children_map inspect !! p) ↔ p ≠ "" ∧ c ∈ children_of inspect p.
Proof.
  unfold children_map. destruct (set_to_map _ _ !! p) as [l|] eqn:Hl; cbn.
  - apply lookup_set_to_map in Hl as (q & Hq & [= -> <-]); [|by intros ?? _ _ [= ->]].
    apply elem_of_list_to_set, list_elem_of_filter in Hq as [Hq _]. by split; [|intros [_ ?]].
  - split; [by intros ?%not_elem_of_nil|]. intros [Hp (d & Hd & Hc)%elem_of_children_of]. exfalso.
    apply eq_None_not_Some in Hl. apply Hl. exists (children_of inspect p).
    apply lookup_set_to_map; [by intros ?? _ _ [= ->]|]. exists p. split; [|done].
    apply elem_of_list_to_set, list_elem_of_filter. split; [done|]. apply list_elem_of_fmap. exists (c, d).
    by rewrite elem_of_map_to_list.
Qed.

(** The parents of a machine, up to one without a parent. *)
Inductive lineage (inspect : gmap string MachInspect) : string → list string → Prop :=
| lineage_root id d : inspect !! id = Some d → d.(mi_Child) = "" → lineage inspect id []
| lineage_child id d p l :
    inspect !! id = Some d → d.(mi_Child) = p → p ≠ "" → lineage inspect p l → lineage inspect id (p :: l).

Lemma lineage_det inspect id l : lineage inspect id l → ∀ l', lineage inspect id l' → l = l'.
Proof.
  induction 1 as [id d Hd Hr|id d p l Hd Hc Hp _ IH]; intros l' Hl'; inversion Hl'; simplify_eq; try done.
  f_equal. auto.
Qed.

Lemma lineage_above inspect id l :
  lineage inspect id l → ∀ x, x ∈ l → ∃ l', lineage inspect x l' ∧ (length l' < length l)%nat.
Proof.
  induction 1 as [|id d p l Hd Hc Hp Hl IH]; intros x Hx; [by apply not_elem_of_nil in Hx|].
  apply elem_of_cons in Hx as [->|Hx]; [exists l; split; [done|cbn; lia]|].
  destruct (IH x Hx) as (l' & ? & ?). exists l'. split; [done|cbn; lia].
Qed.

Lemma lineage_short inspect id l : lineage inspect id l → (length l < size inspect)%nat.
Proof.
  intros Hl. enough (NoDup (id :: l) ∧ ∀ x, x ∈ id :: l → x ∈ dom inspect) as [Hn Hi].
  { rewrite <- size_dom. assert (list_to_set (id :: l) ⊆ dom inspect) as Hs by (intros x; rewrite elem_of_list_to_set; auto).
    apply subseteq_size in Hs. rewrite size_list_to_set in Hs by done. cbn in Hs. lia. }
  induction Hl as [id d Hd Hr|id d p l Hd Hc Hp Hl [IHn IHi]].
  - split; [apply NoDup_singleton|]. intros x ->%list_elem_of_singleton. by apply elem_of_dom_2 in Hd.
  - split.
    + apply NoDup_cons. split; [|done]. intros Hx.
      assert (lineage inspect id (p :: l)) as Hid by (by eapply lineage_child).
      destruct (lineage_above _ _ _ Hid id Hx) as (l' & Hl' & Hlt).
      rewrite (lineage_det _ _ _ Hid _ Hl') in Hlt. lia.
    + intros x [->|Hx]%elem_of_cons; [by apply elem_of_dom_2 in Hd|auto].
Qed.

Lemma lines_total f l : (∀ x, x ∈ l → ∃ s, f x = Ok s) → ∃ s, lines f l = Ok s.
Proof.
  induction l as [|x l IH]; intros Hf; [by eexists|].
  destruct (Hf x) as [s Hs]; [by constructor|]. destruct IH as [r Hr]; [intros y Hy; apply Hf; by constructor|].
  cbn. rewrite Hs. cbn. rewrite Hr. by eexists.
Qed.

Lemma writeMachine_total inspect fuel id l indent :
  lineage inspect id l → (size inspect ≤ fuel + length l)%nat →
  ∃ s, writeMachine fuel inspect (children_map inspect) id indent = Ok s.
Proof.
  revert id l indent. induction fuel as [|fuel IH]; intros id l indent Hl Hf.
  { apply lineage_short in Hl. lia. }
  assert (∃ d, inspect !! id = Some d) as [d Hd] by (inversion Hl; eauto).
  cbn [writeMachine]. rewrite Hd.
  edestruct (lines_total (λ c, writeMachine fuel inspect (children_map inspect) c (S indent))
              (default [] (children_map inspect !! id))) as [s Hs]; [|rewrite Hs; by eexists].
  intros c [Hid (dc & Hdc & Hc)%elem_of_children_of]%children_map_spec.
  apply (IH c (id :: l)); [by eapply lineage_child|cbn; lia].
Qed.

(** Whatever the machines claim of their parents, unknown ones and cycles included,
    the text is written: a recursion as deep as there are machines is enough, and no
    missing machine is looked up. *)
Theorem Markup_total (inspect : gmap string MachInspect) fuel :
  (size inspect ≤ fuel)%nat → ∃ s, Markup fuel inspect = Ok s.
Proof.
  intros Hf. unfold Markup.
  edestruct (lines_total (λ id, writeMachine fuel inspect (children_map inspect) id 1) (roots inspect)) as [s Hs];
    [|rewrite Hs; by eexists].
  intros id (d & Hd & Hr)%elem_of_children_of.
  apply (writeMachine_total _ _ _ []); [by eapply lineage_root|cbn; lia].
Qed.

(** ** Two texts of one graph *)

Section texts.
Definition mach_text : MachInspect :=
  mkInspect "" ["Start"; "Ready"] [] ∅ 1 {["Start" := zeroState; "Ready" := zeroState]} [] [1; 0].
Definition child_text (parent : string) : MachInspect := mkInspect parent [] [] ∅ 0 ∅ [] [].

Lemma Markup_total_witness :
  ∃ s, Markup 4 {["a" := mach_text; "b" := child_text "a"; "c" := child_text "d"; "d" := child_text "c"]} = Ok s.
Proof. apply Markup_total. vm_compute. repeat constructor. Defined.

(** Machines whose parents are not known, or are their own, are left out. *)
Example Markup_leaves_out :
  Markup 2 {["c" := child_text "d"; "d" := child_text "c"]} = Markup 1 {["c" := child_text "other"]} ∧
  Markup 1 {["c" := child_text "other"]} = Ok ("<graph>" +:+ nl +:+ "</graph>" +:+ nl).
Proof. by vm_compute. Qed.

(** Ticks are found by the position of a state. [Markdown] sorts the states of the
    machines it prints, and the callers print both, so the ticks that [Markup] prints
    are those of other states. *)
Example ticks_after_Markdown :
  let i := {["a" := mach_text]} in
  let i' := (Markdown i).2 in
  (λ d, state_attrs "Start" d zeroState) <$> i !! "a" = Some (attr "tick" "1" +:+ attr "active" "1") ∧
  (λ d, state_attrs "Start" d zeroState) <$> i' !! "a" = Some (attr "tick" "0").
Proof. by vm_compute. Qed.
End texts.
