(* ===== verification/RpcMux.v ===== *)
(** * The RPC multiplexer ([pkg/rpc/mux.go])

    A mux listens and makes an RPC server of its own for every connection: the
    handlers of its machine, the goroutine that listens ([GoStart]), the one
    that accepts connections ([GoAccept]) and one per server, which waits for its
    client to leave ([GoServed]).  Listening, accepting, cmux and the servers
    ([RpcConn.Srv]) are answers.  [step] is what these goroutines and the removal
    of [HasClients] make together. *)

From S2P Require Import Prelude StateList SchemaDef MachTime Mutation Machine Queue Transition Rpc Effects RpcConn Pipes.

#[local] Open Scope Z_scope.

(** [Mux]: [mx_Source], [mx_NewServerFn]: whether they are set; the listener by
    its address. *)
Record Mux := mkMux {
  mx_Name : string;
  mx_Addr : string;
  mx_Source : bool;
  mx_NewServerFn : bool;
  mx_Listener : option string;
  mx_NewServerErr : option string;
  mx_countConns : Z;
  mx_countDisconns : Z;
}.

Definition set_listener (l : option string) (m : Mux) : Mux :=
  mkMux m.(mx_Name) m.(mx_Addr) m.(mx_Source) m.(mx_NewServerFn) l m.(mx_NewServerErr)
    m.(mx_countConns) m.(mx_countDisconns).
Definition set_addr (a : string) (m : Mux) : Mux :=
  mkMux m.(mx_Name) a m.(mx_Source) m.(mx_NewServerFn) m.(mx_Listener) m.(mx_NewServerErr)
    m.(mx_countConns) m.(mx_countDisconns).
Definition set_server_err (e : option string) (m : Mux) : Mux :=
  mkMux m.(mx_Name) m.(mx_Addr) m.(mx_Source) m.(mx_NewServerFn) m.(mx_Listener) e
    m.(mx_countConns) m.(mx_countDisconns).
(** The counters are [int64]. *)
Definition add_conn (m : Mux) : Mux :=
  mkMux m.(mx_Name) m.(mx_Addr) m.(mx_Source) m.(mx_NewServerFn) m.(mx_Listener) m.(mx_NewServerErr)
    (wrap_s64 (m.(mx_countConns) + 1)) m.(mx_countDisconns).
Definition add_disconn (m : Mux) : Mux :=
  mkMux m.(mx_Name) m.(mx_Addr) m.(mx_Source) m.(mx_NewServerFn) m.(mx_Listener) m.(mx_NewServerErr)
    m.(mx_countConns) (wrap_s64 (m.(mx_countDisconns) + 1)).

(** What the mux asks of its machine, of connections and of the servers it
    makes, by their names. *)
Inductive MuxCall :=
| MAdd (state : string) (args : RpcArgs)
| MRemove (state : string)
| MErr (err : string)
| MErrNetwork (err : string)
| MCloseListener
| MCloseConn (conn : string)
| MServe (server conn : string)
| MStopServer (server : string)
| MDispose.

Inductive MuxGo :=
| GoStart
| GoAccept (addr : string)
| GoReady (addr : string)
| GoServed (server : string).

Abbreviation mux_do := (held (Mem Mux MuxCall MuxGo)).

(** [NewMux]: [mach]: an error of making the machine. *)
Definition NewMux (addr name : string) (source newServerFn : bool) (mach : option string) : string + Mux :=
  match mach with
  | Some err => inl err
  | None => inr (mkMux name addr source newServerFn None None 0 0)
  end.

(** ** Handlers *)

(** [a]: the typed arguments with their error, [None] for missing ones. *)
Definition NewServerErrEnter (a : option (option string)) : bool :=
  match a with Some (Some _) => true | _ => false end.

Definition NewServerErrState (a : option (option string)) : mux_do () :=
  match a with
  | None => nil_panic
  | Some err => put (set_server_err err)
  end.

Definition StartEnter (m : Mux) : bool := m.(mx_NewServerFn) || m.(mx_Source).

Definition StartState : mux_do () := spawn GoStart.

(** The goroutine of [StartState]; [listen]: the new listener's address;
    [serve]: the error cmux ends with. *)
Definition go_start (expired : bool) (listen : string + string) (serve : option string) : mux_do () :=
  if expired then mret ()
  else
    m ← peek;
    let up (addr : string) : mux_do () :=
      put (set_addr addr) ;;
      spawn (GoAccept addr) ;;
      match serve with
      | Some err => tells [MErr err; MRemove "Start"]
      | None => mret ()
      end in
    match m.(mx_Listener) with
    | Some addr => up addr
    | None =>
        match listen with
        | inl err => tells [MErrNetwork err; MRemove "Start"]
        | inr addr => put (set_listener (Some addr)) ;; up addr
        end
    end.

Definition StartEnd : mux_do () :=
  m ← peek;
  match m.(mx_Listener) with
  | Some _ => tell MCloseListener ;; put (set_listener None)
  | None => mret ()
  end.

Definition ClientConnectedState : mux_do () := tell (MRemove "ClientConnected").

Definition HasClientsEnd (m : Mux) : bool := bool_decide (m.(mx_countConns) = m.(mx_countDisconns)).

(** ** Methods *)

Definition NewDefaultServer (m : Mux) (id : string) : string := m.(mx_Name) +:+ "-" +:+ id.

(** [made]: what [NewServer] or [NewServerFn] answered, the latter with the name
    of its server, [None] for a nil one. *)
Definition NewServer (id conn : string) (made : string + option string) : mux_do (string + string) :=
  m ← peek;
  match made with
  | inl err => mret (inl err)
  | inr fn =>
      if negb m.(mx_NewServerFn)
      then tell (MServe (NewDefaultServer m id) conn) ;; mret (inr (NewDefaultServer m id))
      else
        match fn with
        | None => nil_panic
        | Some srv => tell (MServe srv conn) ;; mret (inr srv)
        end
  end.

Definition accept_begin (addr : string) : mux_do () := spawn (GoReady addr).
Definition go_ready (addr : string) : mux_do () := tell (MAdd "Ready" (ArgsAddr addr)).

(** One round of the loop of [accept]: it goes on after an error. *)
Definition accept_next (accepted : string + string) (made : string + option string) : mux_do () :=
  match accepted with
  | inl err => tell (MErr err)
  | inr conn =>
      tell (MAdd "ClientConnected" (ArgsAddr conn)) ;;
      put add_conn ;;
      m ← peek;
      server ← NewServer (pretty m.(mx_countConns)) conn made;
      match server with
      | inl err => tell (MCloseConn conn) ;; put add_disconn
      | inr srv => tell (MAdd "HasClients" NoArgs) ;; spawn (GoServed srv)
      end
  end.

(** The goroutine of a server, once its client was connected and left, or the
    mux stopped. *)
Definition go_served (srv : string) : mux_do () :=
  tell (MStopServer srv) ;; put add_disconn ;; tell (MRemove "HasClients").

Definition Start : mux_do () := tell (MAdd "Start" NoArgs).
Definition Stop (dispose : bool) : mux_do () :=
  tell (MRemove "Start") ;; if dispose then tell MDispose else mret ().

(** [BindMux]: an error, or what [Pipes.Bind] is called with. *)
Definition BindMux (activeState inactiveState : string) : string + (string * string * string) :=
  if bool_decide (activeState = "") then inl "active state must be set"
  else inr ("HasClients", activeState, or_default activeState inactiveState).

(** ** The mux at work *)

(** [w_has]: whether [HasClients] is active. *)
Record World := mkWorld { w_mem : Mem Mux MuxCall MuxGo; w_has : bool }.

(** A mutation of the mux's machine. [HasClientsEnd] is a handler of the final
    phase, so its answer is not asked for. *)
Definition mutate (c : MuxCall) (has : bool) : bool :=
  match c with
  | MAdd state _ => bool_decide (state = "HasClients") || has
  | MRemove state => negb (bool_decide (state = "HasClients")) && has
  | _ => has
  end.

Inductive step : World → World → Prop :=
| Accepting w accepted made mem addr :
    GoAccept addr ∈ w.(w_mem).(gos) → accept_next accepted made w.(w_mem) = (mem, Ok ()) →
    step w (mkWorld mem w.(w_has))
| Serving w l1 srv l2 mem :
    w.(w_mem).(gos) = l1 ++ GoServed srv :: l2 →
    go_served srv (mkMem w.(w_mem).(fields) w.(w_mem).(calls) (l1 ++ l2)) = (mem, Ok ()) →
    step w (mkWorld mem w.(w_has))
| Handling w c cs :
    w.(w_mem).(calls) = c :: cs →
    step w (mkWorld (mkMem w.(w_mem).(fields) cs w.(w_mem).(gos)) (mutate c w.(w_has))).

Definition is_served (g : MuxGo) : bool := match g with GoServed _ => true | _ => false end.
(** The servers that run. *)
Definition served (w : World) : nat := length (filter (λ g, is_served g = true) w.(w_mem).(gos)).

(** Equal modulo the width of an [int64]. *)
Definition congruent (a b : Z) : Prop := ∃ k, a = b + k * 2 ^ 64.

Lemma wrap_s64_congruent z : congruent (wrap_s64 z) z.
Proof. exists (- ((z + 2 ^ 63) / 2 ^ 64)). unfold wrap_s64. rewrite Z.mod_eq by lia. lia. Qed.

Lemma wrap_s64_range z : - 2 ^ 63 ≤ wrap_s64 z < 2 ^ 63.
Proof. unfold wrap_s64. pose proof (Z.mod_pos_bound (z + 2 ^ 63) (2 ^ 64)). lia. Qed.

(** The counters tell how many servers run. *)
Definition counts (f : Mux) (n : Z) : Prop :=
  congruent (f.(mx_countConns) - f.(mx_countDisconns)) n
  ∧ - 2 ^ 63 ≤ f.(mx_countConns) < 2 ^ 63 ∧ - 2 ^ 63 ≤ f.(mx_countDisconns) < 2 ^ 63.

Lemma counts_conn f n : counts f n → counts (add_conn f) (n + 1).
Proof.
  intros ([k Hk] & Hc & Hd). split_and!; cbn; [|apply wrap_s64_range|apply wrap_s64_range|lia|lia].
  destruct (wrap_s64_congruent (mx_countConns f + 1)) as [j ->]. exists (k + j). lia.
Qed.

Lemma counts_disconn f n : counts f n → counts (add_disconn f) (n - 1).
Proof.
  intros ([k Hk] & Hc & Hd). split_and!; cbn; [|lia|lia|apply wrap_s64_range|apply wrap_s64_range].
  destruct (wrap_s64_congruent (mx_countDisconns f + 1)) as [j ->]. exists (k - j). lia.
Qed.

Lemma served_app l1 l2 :
  length (filter (λ g, is_served g = true) (l1 ++ l2))
  = (length (filter (λ g, is_served g = true) l1) + length (filter (λ g, is_served g = true) l2))%nat.
Proof. by rewrite filter_app, length_app. Qed.

Lemma served_mid l1 s l2 :
  length (filter (λ g, is_served g = true) (l1 ++ GoServed s :: l2))
  = S (length (filter (λ g, is_served g = true) (l1 ++ l2))).
Proof. rewrite !served_app, filter_cons_True by done. cbn. lia. Qed.

(** A round of [accept] makes a server run, or counts a connection lost. *)
Lemma accept_next_counts accepted made mem mem' n :
  accept_next accepted made mem = (mem', Ok ()) → counts mem.(fields) (n + Z.of_nat (length (filter (λ g, is_served g = true) mem.(gos)))) →
  counts mem'.(fields) (n + Z.of_nat (length (filter (λ g, is_served g = true) mem'.(gos)))).
Proof.
  destruct mem as [f cs gs]. unfold accept_next, NewServer. destruct accepted as [err|conn]; run_mem.
  { by intros [= <-]. }
  intros Ha Hn. apply counts_conn in Hn.
  destruct made as [err|fn]; cbn in Ha.
  { injection Ha as <-. cbn. apply counts_disconn in Hn. by replace (n + _) with (n + Z.of_nat (length (filter (λ g, is_served g = true) gs)) + 1 - 1) by lia. }
  destruct (negb (mx_NewServerFn f)); [|destruct fn as [srv|]; [|discriminate Ha]].
  all: cbn in Ha; injection Ha as <-; cbn; rewrite served_app; cbn; rewrite Nat2Z.inj_add, Z.add_assoc; exact Hn.
Qed.

Definition counted (w : World) : Prop := counts w.(w_mem).(fields) (Z.of_nat (served w)).

Lemma counted_step w w' : step w w' → counted w → counted w'.
Proof.
  intros Hs Hc. unfold counted, served in *.
  destruct Hs as [w accepted made mem addr _ Ha|[[f cs gs] has] l1 srv l2 mem Hg Hs|w c cs Hcs]; cbn in *.
  - exact (accept_next_counts _ _ _ _ 0 Ha Hc).
  - unfold go_served in Hs. run_mem. injection Hs as <-. cbn. apply counts_disconn in Hc.
    rewrite Hg, served_mid in Hc. by replace (Z.of_nat (S _) - 1) with (Z.of_nat (length (filter (λ g, is_served g = true) (l1 ++ l2)))) in Hc by lia.
  - exact Hc.
Qed.

(** Starting without connections, the test of [HasClientsEnd] says whether any
    server runs. *)
Theorem HasClientsEnd_counts w0 w :
  rtc step w0 w → w0.(w_mem).(fields).(mx_countConns) = 0 → w0.(w_mem).(fields).(mx_countDisconns) = 0 →
  served w0 = 0%nat → Z.of_nat (served w) < 2 ^ 64 →
  HasClientsEnd w.(w_mem).(fields) = bool_decide (served w = 0%nat).
Proof.
  intros Hr Hc Hd Hs Hlt. assert (counted w) as ([k Hk] & H1 & H2).
  { assert (counted w0) as H0.
    { unfold counted, counts. rewrite Hc, Hd, Hs. split_and!; try lia. by exists 0. }
    clear -Hr H0. induction Hr as [|x y z Hxy _ IH]; [done|]. by apply IH, (counted_step x). }
  unfold HasClientsEnd. apply bool_decide_ext. nia.
Qed.

(** A machine that is up, and two clients of which the first leaves. *)
Definition mux_up : World :=
  mkWorld (mkMem (mkMux "m" ":80" true false (Some ":80") None 0 0) [] [GoAccept ":80"]) false.

Definition one_left : World :=
  mkWorld (mkMem (mkMux "m" ":80" true false (Some ":80") None 2 1) []
             [GoAccept ":80"; GoServed "m-2"]) false.

(** The answer of [HasClientsEnd] comes too late: a handler of the final phase
    cannot keep the state. *)
Lemma HasClientsEnd_final : isFinalName "HasClientsEnd" = true.
Proof. reflexivity. Qed.

Lemma HasClientsEnd_ignored args m v m' :
  callHandler "HasClientsEnd" args (λ _, HEnd false) m = Ok (v, m') → v = None.
Proof.
  unfold callHandler. intros (m0 & m1 & [= <- <-] & He)%run_bind_ok. destruct (negb _); [done|].
  apply run_bind_ok in He as (t & m2 & Ht & He). apply run_bind_ok in He as (r & m3 & Hr & He).
  destruct (_ && _) in Hr; injection Hr as <- <-; cbn in He; by injection He as <-.
Qed.

(** Accept a connection; handle a call. *)
Ltac accept_one c :=
  eapply rtc_l; [eapply (Accepting _ (inr c) (inr None)); [by apply list_elem_of_here|reflexivity]|at_state].
Ltac handle_one := eapply rtc_l; [by eapply Handling|at_state].

(** A client is left, and [HasClients] is gone. *)
Lemma HasClients_lost :
  rtc step mux_up one_left ∧ served one_left = 1%nat ∧ HasClientsEnd one_left.(w_mem).(fields) = false
  ∧ one_left.(w_has) = false.
Proof.
  split; [|by vm_compute]. accept_one "a". accept_one "b".
  do 6 handle_one.
  eapply rtc_l; [by eapply (Serving _ [GoAccept ":80"])|at_state].
  do 2 handle_one. apply rtc_refl.
Qed.

Lemma HasClientsEnd_counts_witness :
  let w := mkWorld (mkMem (mkMux "m" ":80" true false (Some ":80") None 1 0)
    [MAdd "ClientConnected" (ArgsAddr "a"); MServe "m-1" "a"; MAdd "HasClients" NoArgs]
    [GoAccept ":80"; GoServed "m-1"]) false in
  rtc step mux_up w ∧ HasClientsEnd w.(w_mem).(fields) = bool_decide (served w = 0%nat) ∧ served w = 1%nat.
Proof.
  intros w. assert (Hr : rtc step mux_up w) by (accept_one "a"; apply rtc_refl).
  split; [exact Hr|]. split; [|reflexivity].
  apply (HasClientsEnd_counts mux_up w Hr); reflexivity.
Defined.
