(* ===== verification/Node.v ===== *)
(** * Node supervisors and their workers ([pkg/node])

    A supervisor keeps a pool of worker processes.  Forking one takes several
    mutations: [ForkWorker] makes a bootstrap server, [ForkingWorker] starts the
    process and stores its entry under the bootstrap's address, [WorkerConnected]
    connects to the worker, [WorkerForked] moves the entry to the worker's
    address.  The handlers here are the methods of [supervisor.go], with what
    they ask of the supervisor's machine in [sv_calls] and the goroutines they
    start in [sv_go]; the bodies of the goroutines are definitions of their own,
    which take what their waits and calls end in.  Of a connection to a worker
    ([Remote]) the model knows the states of the network machine.  A process ends
    with the context of its command, which is the one of [Start]: [os/exec] kills
    it then ([CExecKill]), and the goroutine that waits for it knows
    ([GoMonitor]).  Go's cache of errors is third-party code, and an argument. *)

From S2P Require Import Prelude StateList SchemaDef MachTime Mutation Queue Effects.

#[local] Open Scope Z_scope.

(** ** Arguments *)

Inductive WorkerState := StateIniting | StateRpc | StateIdle | StateBusy | StateReady | StateAll.

Definition WorkerState_String (s : WorkerState) : string :=
  match s with
  | StateIniting => "initing" | StateRpc => "rpc" | StateIdle => "idle" | StateBusy => "busy"
  | StateReady => "ready" | StateAll => ""
  end.

(** An RPC client: its machine's id, the id of the network machine and its
    active states ([None] before the handshake), its process-wide number. *)
Record Remote := mkRemote {
  rm_Id : string;
  rm_net : option (string * list string);
}.

Section node.
Context {Cache : Type} (cache_new : Z → Cache) (cache_add : string → Cache → Cache) (cache_count : Cache → Z).

(** [workerInfo]; [wi_proc]: the process, [nil] in tests. *)
Record workerInfo := mkWorkerInfo {
  wi_proc : option nat;
  wi_rpc : option Remote;
  wi_publicAddr : string;
  wi_localAddr : string;
  wi_errs : Cache;
  wi_errsRecent : Cache;
}.

(** [bootstrap], as far as the supervisor sees it: its server's address. *)
Record bootstrap := mkBootstrap { bt_Id : string; bt_server : option string }.

Definition Addr (b : bootstrap) : string := default "" b.(bt_server).

(** [A], with the error of [am.AException]. *)
Record A := mkA {
  a_Id : string;
  a_PublicAddr : string;
  a_LocalAddr : string;
  a_BootAddr : string;
  a_NodesList : list string;
  a_WorkerRpcId : string;
  a_SuperRpcId : string;
  a_WorkerRpc : option Remote;
  a_Bootstrap : option bootstrap;
  a_Dispose : bool;
  a_WorkerAddr : string;
  a_WorkerInfo : option workerInfo;
  a_WorkersCh : option nat;
  a_WorkerState : WorkerState;
  a_Err : option string;
}.

Definition noA : A := mkA "" "" "" "" [] "" "" None None false "" None None StateAll None.
Definition a_local (addr : string) : A := mkA "" "" addr "" [] "" "" None None false "" None None StateAll None.
Definition a_ident (addr id : string) : A := mkA id "" addr "" [] "" "" None None false "" None None StateAll None.
Definition a_boot (b : bootstrap) : A := mkA "" "" "" "" [] "" "" None (Some b) false "" None None StateAll None.
Definition a_set (addr : string) (w : option workerInfo) : A :=
  mkA "" "" "" "" [] "" "" None None false addr w None StateAll None.
Definition with_rpc (r : Remote) (a : A) : A :=
  mkA a.(a_Id) a.(a_PublicAddr) a.(a_LocalAddr) a.(a_BootAddr) a.(a_NodesList) a.(a_WorkerRpcId)
    a.(a_SuperRpcId) (Some r) a.(a_Bootstrap) a.(a_Dispose) a.(a_WorkerAddr) a.(a_WorkerInfo)
    a.(a_WorkersCh) a.(a_WorkerState) a.(a_Err).

(** ** What handlers ask for *)

(** Mutations of the supervisor's machine, in order, and effects outside.
    [CExecKill]: [os/exec] kills the process that was given the address. *)
Inductive SupCall :=
| CAdd (state : string) (args : A)
| CRemove (states : list string)
| CErr (state err : string) (args : A)
| CStopServer (addr : string)
| CDisposeBoot (b : bootstrap)
| CKill (proc : nat)
| CExecKill (addr : string)
| CPing (id : string)
| CSend (ch : nat) (workers : list workerInfo)
| CRun (cmd : list string)
| CBind (id : string)
| CStopRpc.

(** Goroutines. [GoMonitor]: one per process, which is killed when the context of
    [Start] ends; [killed]: it was. *)
Inductive SupGo :=
| GoServe
| GoForkReady (args : A)
| GoTestFork (b : bootstrap)
| GoMonitor (killed : bool) (args : A)
| GoConnect (args : A)
| GoHeartbeat (ready : list workerInfo)
| GoNormalize
| GoProvide (args : A) (idle : list workerInfo).

Record SupConf := mkSupConf {
  sc_Name : string;
  sc_WorkerBin : list string;
  sc_WorkerErrTtl : Z;
  sc_WorkerErrRecent : Z;
  sc_WorkerErrKill : Z;
  sc_test : bool;
}.

(** [Supervisor]: the fields its handlers use. *)
Record Supervisor := mkSupervisor {
  sv_conf : SupConf;
  sv_Max : Z;
  sv_Min : Z;
  sv_Warm : Z;
  sv_MaxClientWorkers : Z;
  sv_PublicAddr : string;
  sv_LocalAddr : string;
  sv_PublicRpcs : gmap string nat;
  sv_workers : gmap string workerInfo;
  sv_calls : list SupCall;
  sv_go : list SupGo;
}.

Definition set_pool (max min warm maxClient : Z) (s : Supervisor) : Supervisor :=
  mkSupervisor s.(sv_conf) max min warm maxClient s.(sv_PublicAddr) s.(sv_LocalAddr) s.(sv_PublicRpcs)
    s.(sv_workers) s.(sv_calls) s.(sv_go).
Definition set_addrs (public local : string) (s : Supervisor) : Supervisor :=
  mkSupervisor s.(sv_conf) s.(sv_Max) s.(sv_Min) s.(sv_Warm) s.(sv_MaxClientWorkers) public local
    s.(sv_PublicRpcs) s.(sv_workers) s.(sv_calls) s.(sv_go).
Definition set_rpcs (m : gmap string nat) (s : Supervisor) : Supervisor :=
  mkSupervisor s.(sv_conf) s.(sv_Max) s.(sv_Min) s.(sv_Warm) s.(sv_MaxClientWorkers) s.(sv_PublicAddr)
    s.(sv_LocalAddr) m s.(sv_workers) s.(sv_calls) s.(sv_go).
Definition set_workers (m : gmap string workerInfo) (s : Supervisor) : Supervisor :=
  mkSupervisor s.(sv_conf) s.(sv_Max) s.(sv_Min) s.(sv_Warm) s.(sv_MaxClientWorkers) s.(sv_PublicAddr)
    s.(sv_LocalAddr) s.(sv_PublicRpcs) m s.(sv_calls) s.(sv_go).
Definition add_calls (l : list SupCall) (g : list SupGo) (s : Supervisor) : Supervisor :=
  mkSupervisor s.(sv_conf) s.(sv_Max) s.(sv_Min) s.(sv_Warm) s.(sv_MaxClientWorkers) s.(sv_PublicAddr)
    s.(sv_LocalAddr) s.(sv_PublicRpcs) s.(sv_workers) (s.(sv_calls) ++ l) (s.(sv_go) ++ g).

Definition set_pending (calls : list SupCall) (g : list SupGo) (s : Supervisor) : Supervisor :=
  mkSupervisor s.(sv_conf) s.(sv_Max) s.(sv_Min) s.(sv_Warm) s.(sv_MaxClientWorkers) s.(sv_PublicAddr)
    s.(sv_LocalAddr) s.(sv_PublicRpcs) s.(sv_workers) calls g.

Definition ask (c : SupCall) : held Supervisor () := hmodify (add_calls [c] []).
Definition start_go (g : SupGo) : held Supervisor () := hmodify (add_calls [] [g]).

Definition ErrWorkerMissing := "worker missing".
Definition ErrWorkerHealth := "worker failed healthcheck".
Definition ErrWorkerConn := "error starting connection".
Definition ErrWorkerKill := "error killing worker".
Definition ErrHeartbeat := "heartbeat failed".

(** The errors wrap their sentinels. *)
Definition AddErrWorker (err : string) (args : A) : SupCall := CErr "ErrWorker" ("worker error: " +:+ err) args.
Definition AddErrPool (err : string) (args : A) : SupCall := CErr "ErrPool" ("pool error: " +:+ err) args.
Definition AddErrRpc (err : string) (args : A) : SupCall := CErr "ErrNetwork" ("rpc error: " +:+ err) args.

(** ** Workers *)

Definition newWorkerInfo (s : Supervisor) (proc : option nat) : workerInfo :=
  mkWorkerInfo proc None "" "" (cache_new s.(sv_conf).(sc_WorkerErrTtl))
    (cache_new s.(sv_conf).(sc_WorkerErrRecent)).

Definition hasErrs (w : workerInfo) : bool := bool_decide (0 < cache_count w.(wi_errsRecent)).

(** The entries, in the order the map is ranged over. *)
Definition infos (s : Supervisor) : list workerInfo := (map_to_list s.(sv_workers)).*2.

Definition net_states (w : workerInfo) : option (list string) :=
  match w.(wi_rpc) with Some r => snd <$> r.(rm_net) | None => None end.

Definition initing (w : workerInfo) : bool := match w.(wi_rpc) with None => true | Some _ => false end.
Definition has_net (w : workerInfo) : bool := match net_states w with Some _ => true | None => false end.
Definition is1 (w : workerInfo) (state : string) : bool := contains (default [] (net_states w)) state.

Definition WorkStatus : list string := ["WorkRequested"; "Working"; "WorkReady"; "Idle"].

Definition idle (w : workerInfo) : bool := negb (hasErrs w) && is1 w "Idle".
Definition busy (w : workerInfo) : bool :=
  negb (hasErrs w) && existsb (is1 w) WorkStatus && negb (is1 w "Idle").
Definition ready (w : workerInfo) : bool := negb (hasErrs w) && is1 w "Ready".

Definition initingWorkers (s : Supervisor) : list workerInfo := slicesFilter (infos s) initing.
Definition rpcWorkers (s : Supervisor) : list workerInfo := slicesFilter (infos s) has_net.
Definition idleWorkers (s : Supervisor) : list workerInfo := slicesFilter (rpcWorkers s) idle.
Definition busyWorkers (s : Supervisor) : list workerInfo := slicesFilter (rpcWorkers s) busy.
Definition readyWorkers (s : Supervisor) : list workerInfo := slicesFilter (rpcWorkers s) ready.

Definition len_workers (s : Supervisor) : Z := Z.of_nat (size s.(sv_workers)).

(** [s.min()] *)
Definition min_ (s : Supervisor) : Z := if bool_decide (s.(sv_Max) < s.(sv_Min)) then s.(sv_Max) else s.(sv_Min).

(** ** Handlers of errors and clients *)

(** [willBe]: whether [Exception] is queued; [joined]: whether [err] wraps
    [ErrWorkerKill]. An entry of the map is a pointer, changed in place. *)
Definition ErrWorkerState (willBe joined : bool) (args : A) : held Supervisor () :=
  (if negb willBe then ask (CRemove ["ErrWorker"; "Exception"]) else mret ()) ;;
  s ← hget;
  (match s.(sv_workers) !! args.(a_LocalAddr) with
   | Some w =>
       if joined then mret ()
       else
         let err := default "" args.(a_Err) in
         let w := mkWorkerInfo w.(wi_proc) w.(wi_rpc) w.(wi_publicAddr) w.(wi_localAddr)
                    (cache_add err w.(wi_errs)) (cache_add err w.(wi_errsRecent)) in
         hmodify (set_workers (<[args.(a_LocalAddr) := w]> s.(sv_workers))) ;;
         if bool_decide (s.(sv_conf).(sc_WorkerErrKill) < cache_count w.(wi_errs))
         then ask (CAdd "KillingWorker" (a_local args.(a_LocalAddr))) else mret ()
   | None => mret ()
   end) ;;
  (match args.(a_Bootstrap) with Some b => ask (CDisposeBoot b) | None => mret () end) ;;
  ask (CRemove ["PoolReady"]).

Definition ClientConnectedState : held Supervisor () := ask (CRemove ["ClientConnected"]).

(** The address is an argument of [rpc.A]. *)
Definition ClientDisconnectedEnter (addr : string) : bool := negb (bool_decide (addr = "")).

Definition ClientDisconnectedState (addr : string) : held Supervisor () :=
  ask (CRemove ["ClientDisconnected"]) ;;
  s ← hget;
  match s.(sv_PublicRpcs) !! addr with
  | None => hlift (Panic "invalid memory address or nil pointer dereference")
  | Some _ =>
      ask (CStopServer addr) ;;
      hmodify (set_rpcs (delete addr s.(sv_PublicRpcs)))
  end.

(** ** Starting and stopping *)

Definition StartEnter (args : A) : bool :=
  negb (bool_decide (args.(a_PublicAddr) = "")) && negb (bool_decide (args.(a_LocalAddr) = "")).

(** The errors of making the two servers and of binding the second one. *)
Definition StartState (muxErr locErr bindErr : option string) (args : A) : held Supervisor () :=
  hmodify (set_addrs args.(a_PublicAddr) args.(a_LocalAddr)) ;;
  match muxErr, locErr, bindErr with
  | Some err, _, _ => ask (AddErrRpc err noA)
  | None, Some err, _ => ask (AddErrRpc err noA)
  | None, None, Some err => ask (AddErrRpc err noA)
  | None, None, None => start_go GoServe
  end.

(** The goroutine of [StartState] until its loop: the servers, and the pool. *)
Definition serve (servers pool : Waited) : list SupCall :=
  match servers with
  | WExpired => []
  | WErr err => [AddErrRpc err noA]
  | WOk => []
  end.

(** Whether it goes on to add [Heartbeat] at every tick. *)
Definition serves (servers pool : Waited) : bool :=
  match servers, pool with WOk, WOk => true | _, _ => false end.

Definition StartEnd : held Supervisor () := ask CStopRpc.

(** The context of [Start], which processes run under ([exec.CommandContext]), is
    done once the state is not active: the processes that run are killed. *)
Definition running (s : Supervisor) : list string :=
  omap (λ g, match g with GoMonitor false a => Addr <$> a.(a_Bootstrap) | _ => None end) s.(sv_go).
Definition kill_process (g : SupGo) : SupGo := match g with GoMonitor _ a => GoMonitor true a | _ => g end.
Definition Start_done : held Supervisor () :=
  hmodify (λ s, set_pending (s.(sv_calls) ++ (CExecKill <$> running s)) (kill_process <$> s.(sv_go)) s).

(** ** Forking *)

Definition ForkWorkerEnter (s : Supervisor) : bool := bool_decide (len_workers s < s.(sv_Max)).

(** [boot]: the bootstrap or the error of making it; [started]: whether its
    machine started without an error. *)
Definition ForkWorkerState (boot : string + bootstrap) (started : bool) : held Supervisor () :=
  ask (CRemove ["ForkWorker"]) ;;
  match boot with
  | inl err => ask (AddErrWorker err noA)
  | inr b =>
      if negb started then ask (AddErrWorker ErrWorkerConn (a_boot b))
      else start_go (GoForkReady (a_boot b))
  end.

Definition fork_ready (w : Waited) (args : A) : list SupCall :=
  match w with
  | WExpired => []
  | WErr err => [AddErrWorker err args]
  | WOk => [CAdd "ForkingWorker" args]
  end.

Definition ForkingWorkerEnter (s : Supervisor) (args : A) : bool :=
  match args.(a_Bootstrap) with
  | Some b => negb (bool_decide (Addr b = "")) && bool_decide (len_workers s < s.(sv_Max))
  | None => false
  end.

(** [pipeErr], [startErr]: the errors of preparing and of starting the process;
    [cmd.Process] is [nil] when it is read, before the process was started. *)
Definition ForkingWorkerState (pipeErr startErr : option string) (args : A) : held Supervisor () :=
  ask (CRemove ["ForkingWorker"]) ;;
  match args.(a_Bootstrap) with
  | None => hlift (Panic "invalid memory address or nil pointer dereference")
  | Some b =>
      s ← hget;
      if s.(sv_conf).(sc_test) then start_go (GoTestFork b)
      else
        match s.(sv_conf).(sc_WorkerBin) with
        | [] => hlift (Panic "index out of range")
        | bin :: rest =>
            ask (CAdd "SetWorker" (a_set (Addr b) (Some (newWorkerInfo s None)))) ;;
            match pipeErr, startErr with
            | Some err, _ => ask (AddErrWorker err (a_boot b))
            | None, Some err => ask (AddErrWorker err (a_boot b))
            | None, None =>
                ask (CRun (bin :: rest ++ ["-a"; Addr b])) ;;
                start_go (GoMonitor false (a_boot b))
            end
        end
  end.

(** The goroutine that tests fork in; and the one that waits for a process. *)
Definition test_fork (s : Supervisor) (expired : bool) (err : option string) (b : bootstrap)
  : list SupCall :=
  if expired then []
  else match err with
  | Some err => [AddErrWorker err (a_boot b)]
  | None => [CAdd "SetWorker" (a_set (Addr b) (Some (newWorkerInfo s None)))]
  end.

Definition monitor (err : option string) (args : A) : list SupCall :=
  match err with Some err => [AddErrWorker err args] | None => [] end.

Definition WorkerConnectedEnter (args : A) : bool := negb (bool_decide (args.(a_LocalAddr) = "")).

Definition WorkerConnectedState (args : A) : held Supervisor () :=
  ask (CRemove ["WorkerConnected"]) ;; start_go (GoConnect args).

(** [client]: the client or the error of making it; [machErr]: its machine's
    error when the wait for it fails. *)
Definition connect (expired : bool) (client : string + Remote) (w : Waited) (machErr : string) (args : A)
  : list SupCall :=
  if expired then []
  else match client with
  | inl err => [AddErrWorker err args]
  | inr r =>
      match w with
      | WExpired => []
      | WErr _ => [AddErrWorker machErr args]
      | WOk => [CAdd "WorkerForked" (with_rpc r args)]
      end
  end.

Definition WorkerForkedEnter (args : A) : bool :=
  negb (bool_decide (args.(a_LocalAddr) = ""))
  && match args.(a_WorkerRpc) with Some _ => true | None => false end.

Definition WorkerForkedState (bindErr : option string) (args : A) : held Supervisor () :=
  ask (CRemove ["WorkerForked"]) ;;
  match args.(a_WorkerRpc) with
  | None => hlift (Panic "invalid memory address or nil pointer dereference")
  | Some wrpc =>
      let addr := args.(a_LocalAddr) in
      let argsOut := a_ident addr wrpc.(rm_Id) in
      s ← hget;
      match s.(sv_workers) !! args.(a_BootAddr) with
      | None => ask (AddErrWorker ErrWorkerMissing argsOut)
      | Some info =>
          let info := mkWorkerInfo info.(wi_proc) (Some wrpc) args.(a_PublicAddr) addr info.(wi_errs)
                        info.(wi_errsRecent) in
          hmodify (set_workers (<[addr := info]> (delete args.(a_BootAddr) s.(sv_workers)))) ;;
          ask (CBind wrpc.(rm_Id)) ;;
          match bindErr with
          | Some err => ask (AddErrWorker err argsOut)
          | None =>
              match wrpc.(rm_net) with
              | None => hlift (Panic "invalid memory address or nil pointer dereference")
              | Some (id, _) => ask (CPing id) ;; ask (CAdd "PoolReady" noA)
              end
          end
      end
  end.

(** The handlers it binds to the client of a worker. *)
Definition worker_exception (err : string) (argsOut : A) : SupCall := AddErrWorker err argsOut.
Definition worker_ready_end (argsOut : A) : SupCall := CAdd "KillWorker" argsOut.

(** ** Killing *)

(** The handler of [KillWorker], [WorkerReady], [WorkerGone] and [Healthcheck]. *)
Definition remove_multi (state : string) : held Supervisor () := ask (CRemove [state]).

Definition KillingWorkerEnter (args : A) : bool := negb (bool_decide (args.(a_LocalAddr) = "")).

(** [testKill]: what a test's function answers; [killErr]: the error of killing
    the process. A [nil] process panics. *)
Definition KillingWorkerState (testKill : option (option string)) (killErr : option string) (args : A)
  : held Supervisor () :=
  ask (CRemove ["KillingWorker"]) ;;
  let argsOut := a_local args.(a_LocalAddr) in
  match testKill with
  | Some None => mret ()
  | Some (Some err) => ask (CErr "Exception" err argsOut)
  | None =>
      s ← hget;
      match s.(sv_workers) !! args.(a_LocalAddr) with
      | None => ask (AddErrWorker ErrWorkerMissing argsOut)
      | Some w =>
          match w.(wi_proc), killErr with
          | None, _ => hlift (Panic "invalid memory address or nil pointer dereference")
          | Some _, Some err => ask (AddErrWorker err argsOut)
          | Some p, None => ask (CKill p) ;; ask (CAdd "WorkerKilled" argsOut)
          end
      end
  end.

Definition WorkerKilledEnter (args : A) : bool := negb (bool_decide (args.(a_LocalAddr) = "")).

Definition WorkerKilledState (args : A) : held Supervisor () :=
  ask (CRemove ["WorkerKilled"]) ;;
  hmodify (λ s, set_workers (delete args.(a_LocalAddr) s.(sv_workers)) s) ;;
  ask (CRemove ["PoolReady"]).

(** ** The pool *)

Definition PoolReadyEnter (s : Supervisor) : bool :=
  bool_decide (min_ s ≤ Z.of_nat (length (readyWorkers s))).
Definition PoolReadyExit (s : Supervisor) : bool :=
  bool_decide (Z.of_nat (length (readyWorkers s)) < min_ s).

Definition HeartbeatState : held Supervisor () :=
  s ← hget;
  match readyWorkers s with
  | [] => ask (CRemove ["Heartbeat"])
  | l => start_go (GoHeartbeat l)
  end.

(** Three pings of a worker: whether its tick moved on after one of them. *)
Definition pinged (tick : Z) (ticks : list Z) : bool :=
  existsb (λ t, bool_decide (tick < t)) (take 3 ticks).

(** What a call of [Workers] ends in. *)
Inductive Listed := LExpired | LErr (err : string) | LOk (workers : list workerInfo).

(** The goroutine: the workers with whether they answered, the wait for all of
    them, the idle workers. An expired context is an error of the wait, too. *)
Definition heartbeat (answers : list (workerInfo * bool)) (w : Waited) (idle : Listed) : list SupCall :=
  ((λ p : workerInfo * bool,
      AddErrWorker ErrWorkerHealth
        (a_ident p.1.(wi_localAddr) match p.1.(wi_rpc) with
                                    | Some r => default "" (fst <$> r.(rm_net)) | None => "" end))
    <$> filter (λ p : workerInfo * bool, p.2 = false) answers)
  ++ match w with
     | WErr err => [AddErrPool (ErrHeartbeat +:+ ": " +:+ err) noA]
     | WExpired => [AddErrPool (ErrHeartbeat +:+ ": context canceled") noA]
     | WOk =>
         [CAdd "PoolReady" noA; CRemove ["PoolReady"]]
         ++ match idle with
            | LExpired => []
            | LErr err => [AddErrWorker err noA]
            | LOk [] => [CRemove ["WorkersAvailable"]]
            | LOk _ => [CAdd "WorkersAvailable" noA]
            end
     end
  ++ [CRemove ["Heartbeat"]].

Definition NormalizingPoolState : held Supervisor () := start_go GoNormalize.

(** A round: the entries there are, or the error of listing them; the numbers
    of ready workers its checks see (none for an expired one); whether the pause
    was cut short; whether [PoolReady] is active after it. *)
Record Round := mkRound {
  rd_existing : Listed;
  rd_checks : list Z;
  rd_paused : bool;
  rd_ready : bool;
}.

(** [for ii := len(existing); ii < s.min()+s.Warm && ii < s.Max; ii++] *)
Definition missing_forks (s : Supervisor) (existing : Z) : nat :=
  Z.to_nat (Z.min (min_ s + s.(sv_Warm)) s.(sv_Max) - existing).

(** The first check that sees enough workers ends the interval. *)
Fixpoint check_calls (s : Supervisor) (counts : list Z) : list SupCall :=
  match counts with
  | [] => []
  | n :: counts => if bool_decide (min_ s ≤ n) then [CAdd "PoolReady" noA] else check_calls s counts
  end.

(** The rounds, and whether the pool became ready ([None]: the context
    expired). The flag the interval sets is another variable of that name, so
    the pause is never skipped. *)
Fixpoint normalize_rounds (s : Supervisor) (rounds : list Round) : list SupCall * option bool :=
  match rounds with
  | [] => ([], Some false)
  | r :: rounds =>
      match r.(rd_existing) with
      | LExpired => ([], None)
      | LErr _ => normalize_rounds s rounds
      | LOk l =>
          let calls := replicate (missing_forks s (Z.of_nat (length l))) (CAdd "ForkWorker" noA)
                       ++ check_calls s r.(rd_checks) in
          if negb r.(rd_paused) then (calls, None)
          else if r.(rd_ready) then (calls, Some true)
          else let '(rest, b) := normalize_rounds s rounds in (calls ++ rest, b)
      end
  end.

Definition normalize (s : Supervisor) (expired : bool) (rounds : list Round) : list SupCall :=
  if expired then []
  else
    let '(calls, b) := normalize_rounds s (take 5 rounds) in
    calls ++ match b with Some false => [CErr "ErrPool" "pool error: failed to normalize pool" noA] | _ => [] end
    ++ [CAdd "PoolNormalized" noA].

(** ** Clients and lists *)

Definition ProvideWorkerEnter (args : A) : bool :=
  negb (bool_decide (args.(a_WorkerRpcId) = "")) && negb (bool_decide (args.(a_SuperRpcId) = "")).

Definition ProvideWorkerState (args : A) : held Supervisor () :=
  ask (CRemove ["ProvideWorker"]) ;;
  s ← hget;
  start_go (GoProvide args (idleWorkers s)).

(** The goroutine: the workers it asks to serve the client; [accepts] is what
    [Add1Sync] answers for each ([None] when the context expired). A worker that
    accepts is passed over like one that is logged as rejecting. *)
Fixpoint provide (idle : list workerInfo) (accepts : list (option bool)) : list workerInfo :=
  match idle, accepts with
  | w :: idle, Some true :: accepts => w :: provide idle accepts
  | w :: _, _ => [w]
  | [], _ => []
  end.

(** [cap(ch) > 0]: channels made by [Workers] have room for one list. *)
Definition ListWorkersEnter (cap : Z) (args : A) : bool :=
  match args.(a_WorkersCh) with Some _ => bool_decide (0 < cap) | None => false end.

Definition list_workers (s : Supervisor) (st : WorkerState) : list workerInfo :=
  match st with
  | StateReady => readyWorkers s
  | StateIniting => initingWorkers s
  | StateBusy => busyWorkers s
  | StateIdle => idleWorkers s
  | StateRpc | StateAll => infos s
  end.

Definition ListWorkersState (args : A) : held Supervisor () :=
  ask (CRemove ["ListWorkers"]) ;;
  s ← hget;
  match args.(a_WorkersCh) with
  | Some ch => ask (CSend ch (list_workers s args.(a_WorkerState)))
  | None => hlift Block
  end.

Definition SetWorkerEnter (args : A) : bool := negb (bool_decide (args.(a_WorkerAddr) = "")).

Definition SetWorkerState (args : A) : held Supervisor () :=
  ask (CRemove ["SetWorker"]) ;;
  hmodify (λ s, set_workers (match args.(a_WorkerInfo) with
                             | Some w => <[args.(a_WorkerAddr) := w]> s.(sv_workers)
                             | None => delete args.(a_WorkerAddr) s.(sv_workers)
                             end) s).

(** ** Methods *)

Definition Start (publicAddr : string) : held Supervisor () :=
  ask (CAdd "Start" (mkA "" publicAddr "localhost:0" "" [] "" "" None None false "" None None StateAll None)).

(** Asks; whether the pool is ready then is up to the machine. *)
Definition CheckPool : held Supervisor () :=
  ask (CAdd "NormalizingPool" noA) ;; ask (CAdd "PoolReady" noA).

Definition SetPool (min max warm maxPerClient : Z) : held Supervisor () :=
  let min := if bool_decide (max < min) then max else min in
  hmodify (set_pool max min warm (if bool_decide (maxPerClient = 0) then max else maxPerClient)) ;;
  CheckPool.

(** [Workers]: [res] is the answer of the mutation, [w] what the select ends
    in, [sent] what was sent on the channel. *)
Definition Workers (res : Z) (w : Waited) (sent : list workerInfo) : Listed :=
  if bool_decide (res = Canceled) then LErr "listing workers: transition canceled"
  else match w with
  | WExpired => LExpired
  | WErr _ => LErr "listing workers: timeout"
  | WOk => LOk sent
  end.

(** The last steps of [newClientConn]: storing the server, in an eval. *)
Definition store_conn (remoteAddr : string) (srv : nat) : held Supervisor () :=
  hmodify (λ s, set_rpcs (<[remoteAddr := srv]> s.(sv_PublicRpcs)) s).

(** [NewSupervisor], past its validation. *)
Definition NewSupervisor (conf : SupConf) : Supervisor :=
  mkSupervisor conf 10 2 5 10 "" "" ∅ ∅ [] [].

(** What is validated: the error, if any. [missing]: the first state of a worker
    that the schema lacks. *)
Definition NewSupervisor_err (workerBin : list string) (workerSchema : option (gmap string State))
    (missing : option string) : option string :=
  match workerBin with
  | [] | "" :: _ => Some "super: workerBin required"
  | _ =>
      match workerSchema with
      | None => Some "super: workerSchema required"
      | Some _ =>
          (λ m, "worker has to implement am/node/states/WorkerStates: " +:+ m) <$> missing
      end
  end.

(** ** The supervisor's steps

    A call that is due runs its handler when the negotiation lets it, or is
    dropped, in any order; a goroutine ends with some calls; and calls come from
    outside: clients, bootstraps, the pipes of RPC machines.  Only the supervisor
    itself sets, forks and connects workers. *)

(** What a call can run. *)
Inductive runs (s : Supervisor) : SupCall → held Supervisor () → Prop :=
| RunDropped c : runs s c (mret ())
| RunErrWorker willBe joined err args :
    runs s (CErr "ErrWorker" err args) (ErrWorkerState willBe joined args)
| RunClientConnected args : runs s (CAdd "ClientConnected" args) ClientConnectedState
| RunClientDisconnected addr args : ClientDisconnectedEnter addr = true →
    runs s (CAdd "ClientDisconnected" args) (ClientDisconnectedState addr)
| RunStart e1 e2 e3 args : StartEnter args = true → runs s (CAdd "Start" args) (StartState e1 e2 e3 args)
| RunStartEnd : runs s (CRemove ["Start"]) (Start_done ;; StartEnd)
| RunForkWorker boot started args : ForkWorkerEnter s = true →
    runs s (CAdd "ForkWorker" args) (ForkWorkerState boot started)
| RunForkingWorker e1 e2 args : ForkingWorkerEnter s args = true →
    runs s (CAdd "ForkingWorker" args) (ForkingWorkerState e1 e2 args)
| RunWorkerConnected args : WorkerConnectedEnter args = true →
    runs s (CAdd "WorkerConnected" args) (WorkerConnectedState args)
| RunWorkerForked e args : WorkerForkedEnter args = true →
    runs s (CAdd "WorkerForked" args) (WorkerForkedState e args)
| RunMulti state args : state ∈ ["WorkerReady"; "WorkerGone"; "KillWorker"; "Healthcheck"] →
    runs s (CAdd state args) (remove_multi state)
| RunKillingWorker tk ke args : KillingWorkerEnter args = true →
    runs s (CAdd "KillingWorker" args) (KillingWorkerState tk ke args)
| RunWorkerKilled args : WorkerKilledEnter args = true →
    runs s (CAdd "WorkerKilled" args) (WorkerKilledState args)
| RunHeartbeat args : runs s (CAdd "Heartbeat" args) HeartbeatState
| RunNormalizing args : runs s (CAdd "NormalizingPool" args) NormalizingPoolState
| RunProvide args : ProvideWorkerEnter args = true →
    runs s (CAdd "ProvideWorker" args) (ProvideWorkerState args)
| RunList cap args : ListWorkersEnter cap args = true → runs s (CAdd "ListWorkers" args) (ListWorkersState args)
| RunSet args : SetWorkerEnter args = true → runs s (CAdd "SetWorker" args) (SetWorkerState args).

(** What a goroutine can end in. *)
Inductive ends (s : Supervisor) : SupGo → list SupCall → Prop :=
| EndServe w1 w2 n : ends s GoServe (serve w1 w2 ++ replicate n (CAdd "Heartbeat" noA))
| EndForkReady w args : ends s (GoForkReady args) (fork_ready w args)
| EndTestFork expired err b : ends s (GoTestFork b) (test_fork s expired err b)
| EndMonitor killed err args : ends s (GoMonitor killed args) (monitor err args)
| EndConnect expired client w machErr args :
    ends s (GoConnect args) (connect expired client w machErr args)
| EndHeartbeat l answers w idle : ends s (GoHeartbeat l) (heartbeat answers w idle)
| EndNormalize expired rounds : ends s GoNormalize (normalize s expired rounds)
| EndProvide args l : ends s (GoProvide args l) [].

(** The calls that others make. *)
Definition outside (c : SupCall) : Prop :=
  match c with
  | CAdd state _ => state ∉ ["SetWorker"; "WorkerForked"; "ForkingWorker"]
  | CRemove _ | CErr _ _ _ => True
  | _ => False
  end.

(** [free s c]: whether the step may run [c] now. *)
Inductive sup_step (free : Supervisor → SupCall → Prop) (s : Supervisor) : Supervisor → Prop :=
| StepCall l1 c l2 h :
    s.(sv_calls) = l1 ++ c :: l2 → free s c →
    runs (set_pending (l1 ++ l2) s.(sv_go) s) c h →
    sup_step free s (h (set_pending (l1 ++ l2) s.(sv_go) s)).1
| StepGo l1 g l2 calls :
    s.(sv_go) = l1 ++ g :: l2 → ends s g calls →
    sup_step free s (set_pending (s.(sv_calls) ++ calls) (l1 ++ l2) s)
| StepOutside c : outside c → sup_step free s (add_calls [c] [] s).

Definition any_call (s : Supervisor) (c : SupCall) : Prop := True.

(** ** What holds in every reachable pool *)

(** A call that sets a worker sets a new one, and nothing kills. *)
Definition call_ok (c : SupCall) : Prop :=
  match c with
  | CAdd state a =>
      if String.eqb state "SetWorker" then
        match a.(a_WorkerInfo) with Some w => w.(wi_proc) = None ∧ w.(wi_rpc) = None | None => True end
      else True
  | CKill _ => False
  | _ => True
  end.

(** No entry knows its process, connected entries are at their own address. *)
Definition entry_ok (addr : string) (w : workerInfo) : Prop :=
  w.(wi_proc) = None ∧ (w.(wi_rpc) = None ∨ w.(wi_localAddr) = addr).

Record pool_inv (s : Supervisor) : Prop := {
  pi_workers : map_Forall entry_ok s.(sv_workers);
  pi_calls : Forall call_ok s.(sv_calls);
}.

(** Adding calls that are fine keeps the invariant. *)
Lemma inv_ask c s : call_ok c → pool_inv s → pool_inv (add_calls [c] [] s).
Proof. intros Hc [H1 H2]. split; [done|]. cbn. apply Forall_app. split; [done|by constructor]. Qed.

(** Handlers are straight-line code: run them. *)
Ltac run_handler :=
  unfold ErrWorkerState, ClientConnectedState, ClientDisconnectedState, StartState, StartEnd, Start_done,
    ForkWorkerState, ForkingWorkerState, WorkerConnectedState, WorkerForkedState, remove_multi,
    KillingWorkerState, WorkerKilledState, HeartbeatState, NormalizingPoolState, ProvideWorkerState,
    ListWorkersState, SetWorkerState, ask, start_go, hmodify, hget, hlift, mbind, held_bind, mret, held_ret;
  repeat (cbn -[cache_count]; case_match; simplify_eq); cbn -[cache_count].

Lemma entry_ok_same addr w w' :
  w'.(wi_proc) = w.(wi_proc) → w'.(wi_rpc) = w.(wi_rpc) → w'.(wi_localAddr) = w.(wi_localAddr) →
  entry_ok addr w → entry_ok addr w'.
Proof. unfold entry_ok. by intros -> -> ->. Qed.

(** A known process is never there to kill. *)
Lemma entries_no_proc s addr w p :
  map_Forall entry_ok s.(sv_workers) → s.(sv_workers) !! addr = Some w → wi_proc w = Some p → False.
Proof. intros Hw Hl Hp. destruct (Hw addr w Hl) as [H _]. congruence. Qed.

Lemma runs_inv s c h : runs s c h → call_ok c → pool_inv s → pool_inv (h s).1.
Proof.
  intros Hr Hc [Hw Hp]. destruct Hr; run_handler.
  all: split; cbn; rewrite <- ?(assoc_L (++)); try done; try (by apply Forall_app; repeat constructor).
  all: try (by apply Forall_app; split; [done|]; apply Forall_app; split; [|by repeat constructor];
    apply Forall_fmap, Forall_forall).
  all: try (apply map_Forall_insert_2; [|first [done|by apply map_Forall_delete]]).
  all: try (by apply map_Forall_delete).
  all: try (match goal with Hl : sv_workers _ !! _ = Some _ |- _ =>
    by (eapply entry_ok_same; [..|exact (Hw _ _ Hl)]) end).
  all: try (by exfalso; eapply entries_no_proc).
  all: try (match goal with Hl : sv_workers _ !! _ = Some ?w |- entry_ok _ (mkWorkerInfo (wi_proc ?w) _ _ _ _ _) =>
    destruct (Hw _ _ Hl); split; [done|by right] end).
  cbn in Hc. match goal with Hi : a_WorkerInfo _ = Some _ |- _ => rewrite Hi in Hc end.
  destruct Hc. split; [done|by left].
Qed.

(** Normalizing asks for new workers, and for the pool to be ready. *)
Lemma normalize_calls s rounds :
  Forall (λ c, c = CAdd "ForkWorker" noA ∨ c = CAdd "PoolReady" noA) (normalize_rounds s rounds).1.
Proof.
  induction rounds as [|r rounds IH]; [constructor|]. cbn.
  destruct (rd_existing r) as [| |l]; [constructor|done|].
  set (calls := replicate _ _ ++ _).
  assert (Hc : Forall (λ c, c = CAdd "ForkWorker" noA ∨ c = CAdd "PoolReady" noA) calls).
  { apply Forall_app. split.
    - apply Forall_forall. intros c [-> _]%elem_of_replicate. by left.
    - induction (rd_checks r) as [|n k IHk]; [constructor|]. cbn.
      case_bool_decide; [constructor; [by right|constructor]|done]. }
  destruct (negb (rd_paused r)); [done|]. destruct (rd_ready r); [done|].
  destruct (normalize_rounds s rounds) as [rest b]. cbn in *. by apply Forall_app.
Qed.

Lemma ends_ok s g calls : ends s g calls → Forall call_ok calls.
Proof.
  destruct 1; unfold serve, fork_ready, test_fork, monitor, connect, heartbeat, normalize.
  - apply Forall_app. split; [by destruct w1; repeat constructor|]. apply Forall_forall.
    by intros c [-> _]%elem_of_replicate.
  - by destruct w; repeat constructor.
  - by destruct expired; [constructor|]; destruct err; repeat constructor.
  - by destruct err; repeat constructor.
  - destruct expired; [constructor|]. destruct client; [by repeat constructor|].
    by destruct w; repeat constructor.
  - rewrite !Forall_app. split_and!; [|destruct w; rewrite ?Forall_app; [split|..]|]; try by repeat constructor.
    + apply Forall_forall. by intros c (p & -> & _)%list_elem_of_fmap.
    + by destruct idle0 as [| |[]]; repeat constructor.
  - destruct expired; [constructor|].
    assert (Hr : ∀ rounds, Forall call_ok (normalize_rounds s rounds).1)
      by (intros; eapply Forall_impl; [apply normalize_calls|]; by intros c [->| ->]).
    specialize (Hr (take 5 rounds)). destruct (normalize_rounds s (take 5 rounds)) as [calls b].
    cbn in Hr. rewrite !Forall_app. split_and!; [done|destruct b as [[]|]; by repeat constructor|by repeat constructor].
  - constructor.
Qed.

Lemma outside_ok c : outside c → call_ok c.
Proof.
  destruct c; cbn; try done. intros Hs. destruct (String.eqb_spec state "SetWorker") as [->|]; [|done].
  exfalso. apply Hs. left.
Qed.

(** Taking a call or a goroutine away. *)
Lemma inv_pending l g s : Forall call_ok l → pool_inv s → pool_inv (set_pending l g s).
Proof. by intros Hl [H1 _]. Qed.

Lemma step_inv free s s' : sup_step free s s' → pool_inv s → pool_inv s'.
Proof.
  intros Hs Hi. pose proof Hi as [Hw Hc]. destruct Hs as [l1 c l2 h Hq _ Hr|l1 g l2 calls _ He|c Ho].
  - rewrite Hq in Hc. apply Forall_app in Hc as [H1 [H2 H3]%List.Forall_cons_iff].
    eapply runs_inv; [exact Hr|done|]. apply inv_pending; [by apply Forall_app|done].
  - apply inv_pending; [|done]. apply Forall_app. split; [done|by eapply ends_ok].
  - by apply inv_ask; [apply outside_ok|].
Qed.

(** ** How many workers there are *)

(** Entries, and those on their way: queued by [ForkingWorker], or in the
    goroutine that tests fork in. *)
Definition sets_one (c : SupCall) : bool :=
  match c with
  | CAdd state a => String.eqb state "SetWorker" && bool_decide (is_Some a.(a_WorkerInfo))
  | _ => false
  end.
Definition tests_one (g : SupGo) : bool := match g with GoTestFork _ => true | _ => false end.
Definition count {B} (f : B → bool) (l : list B) : nat := sum_list_with (λ x, if f x then 1 else 0)%nat l.
Definition coming (s : Supervisor) : nat := (count sets_one s.(sv_calls) + count tests_one s.(sv_go))%nat.
Definition load (s : Supervisor) : Z := len_workers s + Z.of_nat (coming s).

(** No worker is on its way when another is forked. *)
Definition one_fork (s : Supervisor) (c : SupCall) : Prop :=
  match c with
  | CAdd state _ => state = "ForkingWorker" → coming s = 0%nat
  | _ => True
  end.
Lemma count_app {B} (f : B → bool) l1 l2 : count f (l1 ++ l2) = (count f l1 + count f l2)%nat.
Proof. apply sum_list_with_app. Qed.

Lemma size_insert_le {V} (m : gmap string V) k v : (size (<[k:=v]> m) ≤ S (size m))%nat.
Proof. rewrite map_size_insert. by destruct (m !! k); cbn; lia. Qed.

Lemma size_delete_le {V} (m : gmap string V) k : (size (delete k m) ≤ size m)%nat.
Proof. rewrite map_size_delete. by destruct (m !! k); cbn; lia. Qed.

Lemma size_delete_Some {V} (m : gmap string V) k v : m !! k = Some v → S (size (delete k m)) = size m.
Proof.
  intros Hk. rewrite map_size_delete, Hk. cbn.
  assert (size m ≠ 0%nat); [|lia]. intros H0%map_size_empty_iff. by rewrite H0, lookup_empty in Hk.
Qed.

Lemma size_insert_Some {V} (m : gmap string V) k v w : m !! k = Some w → size (<[k:=v]> m) = size m.
Proof. intros Hk. by rewrite map_size_insert, Hk. Qed.

Lemma fork_room s args : ForkingWorkerEnter s args = true → len_workers s < s.(sv_Max).
Proof.
  unfold ForkingWorkerEnter. destruct (a_Bootstrap args); [|done].
  by intros [_ H%bool_decide_eq_true]%andb_true_iff.
Qed.

(** Killing processes brings no worker. *)
Lemma count_kills l : count sets_one (CExecKill <$> l) = 0%nat.
Proof. by induction l as [|a l IH]. Qed.
Lemma count_killed l : count tests_one (kill_process <$> l) = count tests_one l.
Proof. unfold count. induction l as [|g l IH]; [done|]. cbn. rewrite IH. by destruct g. Qed.

(** A handler brings at most the worker it sets or forks. *)
Lemma runs_load s c h :
  runs s c h → one_fork s c →
  (h s).1.(sv_Max) = s.(sv_Max)
  ∧ (load (h s).1 ≤ load s + (if sets_one c then 1 else 0)
     ∨ load (h s).1 ≤ load s + 1 ∧ load s < s.(sv_Max)).
Proof.
  intros Hr Hone. destruct Hr; run_handler; (split; [done|]);
    unfold load, coming, len_workers; cbn -[count];
    rewrite ?count_app, ?count_kills, ?count_killed; cbn -[Z.add Z.of_nat];
    try (left; lia).
  all: try (match goal with H : sv_workers _ !! ?k = Some _ |- context [<[?k := ?v]> (sv_workers _)] =>
    rewrite (size_insert_Some _ _ v _ H) by done end; left; lia).
  all: try (match goal with H : sv_workers _ !! ?k = Some _
      |- context [size (<[?a := ?v]> (delete ?k (sv_workers ?s)))] =>
    pose proof (size_insert_le (delete k (sv_workers s)) a v);
    pose proof (size_delete_Some _ _ _ H) end; left; lia).
  all: try (match goal with |- context [size (delete ?k (sv_workers ?s))] =>
    pose proof (size_delete_le (sv_workers s) k) end; left; lia).
  all: try (match goal with |- context [size (<[?k := ?v]> (sv_workers ?s))] =>
    pose proof (size_insert_le (sv_workers s) k v) end; left; lia).
  all: specialize (Hone eq_refl); unfold coming in Hone;
    match goal with H : ForkingWorkerEnter _ _ = true |- _ => apply fork_room in H end;
    unfold len_workers in *; right; lia.
Qed.

(** A goroutine sets no worker but the one that tests fork in. *)
Lemma ends_load s g calls :
  ends s g calls → (count sets_one calls ≤ if tests_one g then 1 else 0)%nat.
Proof.
  assert (Hnone : ∀ l, Forall (λ c, sets_one c = false) l → count sets_one l = 0%nat).
  { induction 1 as [|c l Hc _ IH]; [done|]. unfold count in *. cbn. by rewrite Hc, IH. }
  destruct 1; cbn [tests_one]; unfold serve, fork_ready, test_fork, monitor, connect.
  - rewrite count_app, Hnone, Hnone; [done| |by destruct w1; repeat constructor].
    apply Forall_forall. by intros c [-> _]%elem_of_replicate.
  - destruct w; cbn; lia.
  - destruct expired, err; cbn; lia.
  - destruct err; cbn; lia.
  - destruct expired, client, w; cbn; lia.
  - rewrite Hnone; [done|]. unfold heartbeat. rewrite !Forall_app. split_and!.
    + apply Forall_forall. by intros c (p & -> & _)%list_elem_of_fmap.
    + destruct w; [|by repeat constructor..]. apply Forall_app. split; [by repeat constructor|].
      by destruct idle0 as [| |[]]; repeat constructor.
    + by repeat constructor.
  - rewrite Hnone; [done|]. unfold normalize. destruct expired; [constructor|].
    assert (Hr : ∀ rounds, Forall (λ c, sets_one c = false) (normalize_rounds s rounds).1)
      by (intros; eapply Forall_impl; [apply normalize_calls|]; by intros c [->| ->]).
    specialize (Hr (take 5 rounds)). destruct (normalize_rounds s (take 5 rounds)) as [calls b].
    cbn in Hr. rewrite !Forall_app. split_and!; [done|destruct b as [[]|]; by repeat constructor|by repeat constructor].
  - done.
Qed.

Lemma outside_sets c : outside c → sets_one c = false.
Proof.
  destruct c; cbn; try done. intros Hs. destruct (String.eqb_spec state "SetWorker") as [->|]; [|done].
  exfalso. apply Hs. left.
Qed.

Lemma count_mid {B} (f : B → bool) l1 x l2 :
  (count f (l1 ++ x :: l2) = count f (l1 ++ l2) + (if f x then 1 else 0))%nat.
Proof. rewrite !count_app. unfold count. cbn. lia. Qed.

(** The bound, where no two forks are under way. *)
Definition fits (s : Supervisor) : Prop := load s ≤ s.(sv_Max).

Lemma step_load s s' : sup_step one_fork s s' → fits s → fits s' ∧ s'.(sv_Max) = s.(sv_Max).
Proof.
  unfold fits. destruct 1 as [l1 c l2 h Hq Hf Hr|l1 g l2 calls Hq He|c Ho]; intros Hl.
  - set (s0 := set_pending (l1 ++ l2) s.(sv_go) s) in *.
    assert (Hload : load s = load s0 + (if sets_one c then 1 else 0)).
    { unfold load, coming, s0, len_workers; cbn -[count]. rewrite Hq, count_mid. destruct (sets_one c); lia. }
    assert (Hone : one_fork s0 c).
    { destruct c; try done. intros ->. specialize (Hf eq_refl). revert Hf.
      unfold coming, s0; cbn -[count]. rewrite Hq, count_mid. lia. }
    destruct (runs_load s0 c h Hr Hone) as [HM H]. rewrite HM. split; [|done].
    change (sv_Max s0) with (sv_Max s) in *. destruct (sets_one c); lia.
  - split; [|done]. apply ends_load in He. revert Hl. unfold load, coming, len_workers; cbn -[count].
    rewrite Hq, count_mid, !count_app. destruct (tests_one g); lia.
  - split; [|done]. revert Hl. unfold load, coming, len_workers; cbn -[count].
    rewrite app_nil_r, count_app. assert (count sets_one [c] = 0%nat) as ->; [|lia].
    unfold count; cbn. by rewrite (outside_sets c Ho).
Qed.

Lemma steps_fit s s' : rtc (sup_step one_fork) s s' → fits s → fits s' ∧ s'.(sv_Max) = s.(sv_Max).
Proof.
  induction 1 as [s|s s1 s2 H1 _ IH]; [done|]. intros Hf.
  destruct (step_load s s1 H1 Hf) as [Hf1 HM]. destruct (IH Hf1) as [Hf2 ->]. done.
Qed.

Lemma steps_inv free s s' : rtc (sup_step free) s s' → pool_inv s → pool_inv s'.
Proof. induction 1 as [|s s1 s2 H1 _ IH]; [done|]. intros Hi. apply IH. by eapply step_inv. Qed.

Lemma inv_NewSupervisor conf : pool_inv (NewSupervisor conf).
Proof. split; [apply map_Forall_empty|constructor]. Qed.

(** C33: the supervisor never has more workers than [Max], whatever its clients,
    bootstraps and workers do and however its goroutines end, if no worker is on
    its way when the next one is forked: from a pool that fits, entries and
    workers on their way together never exceed [Max]. *)
Theorem pool_bounded s s' :
  fits s → rtc (sup_step one_fork) s s' → len_workers s' ≤ s.(sv_Max) ∧ s'.(sv_Max) = s.(sv_Max).
Proof.
  intros Hf Hs. destruct (steps_fit s s' Hs Hf) as [H1 H2]. split; [|done].
  unfold fits, load in H1. lia.
Qed.

(** Ending [Start] kills the processes that run, and leaves none. *)
Lemma Start_kills s addr :
  addr ∈ running s → CExecKill addr ∈ ((Start_done ;; StartEnd) s).1.(sv_calls)
  ∧ running ((Start_done ;; StartEnd) s).1 = [].
Proof.
  intros Hr. unfold StartEnd, Start_done, ask, hmodify, mbind, held_bind. cbn. split.
  - apply elem_of_app; left. apply elem_of_app; right. by apply list_elem_of_fmap_2.
  - unfold running. cbn. rewrite app_nil_r. by induction s.(sv_go) as [|[] l IH].
Qed.

(** Nothing else kills a process through its context. *)
Lemma runs_exec_kill s c h addr :
  runs s c h → c ≠ CRemove ["Start"] → CExecKill addr ∈ (h s).1.(sv_calls) → CExecKill addr ∈ s.(sv_calls).
Proof.
  intros Hr Hc. destruct Hr; try done; run_handler; rewrite <- ?(assoc_L (++));
    try done; intros Hin%elem_of_app; (destruct Hin as [|Hin]; [done|]); by set_solver.
Qed.

(** C34: Without a test's [TestKill], the supervisor itself kills no worker.  In every
    state that it can reach, in any order of calls and with any answers, no kill
    of a process was asked for, entries are stored at their own address once they
    are connected, and [KillingWorker] on a worker the pool knows panics: the
    process is read before it was started, and is [nil] in every entry.  What
    kills is the end of [Start], through the context of the commands, and only
    this: it kills every process that runs.  (Disposing the supervisor's machine,
    which ends this context too, is not among the steps.) *)
Theorem only_Start_kills conf s :
  rtc (sup_step any_call) (NewSupervisor conf) s →
  (∀ p, CKill p ∉ s.(sv_calls))
  ∧ map_Forall (λ addr w, wi_rpc w = None ∨ wi_localAddr w = addr) s.(sv_workers)
  ∧ (∀ killErr args, is_Some (s.(sv_workers) !! args.(a_LocalAddr)) →
     (KillingWorkerState None killErr args s).2 = Panic "invalid memory address or nil pointer dereference")
  ∧ (∀ c h addr, runs s c h → c ≠ CRemove ["Start"] →
     CExecKill addr ∈ (h s).1.(sv_calls) → CExecKill addr ∈ s.(sv_calls))
  ∧ (∀ addr, addr ∈ running s →
     CExecKill addr ∈ ((Start_done ;; StartEnd) s).1.(sv_calls) ∧ running ((Start_done ;; StartEnd) s).1 = []).
Proof.
  intros Hs. destruct (steps_inv _ _ _ Hs (inv_NewSupervisor conf)) as [Hw Hc]. split_and!.
  - intros p Hp. rewrite Forall_forall in Hc. by apply (Hc _ Hp).
  - intros addr w Hl. by destruct (Hw addr w Hl).
  - intros ke args [w Hl]. destruct (Hw _ _ Hl) as [Hn _].
    unfold KillingWorkerState, ask, hmodify, hget, hlift, mbind, held_bind, mret, held_ret. cbn.
    by rewrite Hl, Hn.
  - intros c h addr. apply runs_exec_kill.
  - apply Start_kills.
Qed.
End node.

(** ** Pools of one worker *)

(** A cache that never expires. *)
Definition never_new (ttl : Z) : list string := [].
Definition never_add (err : string) (c : list string) : list string := c ++ [err].
Definition never_count (c : list string) : Z := Z.of_nat (length c).

Definition step1 free := sup_step never_new never_add never_count free.

Definition conf1 : SupConf := mkSupConf "n" ["bin"] 0 0 1 false.

Definition pool1 : Supervisor (Cache := list string) :=
  set_pool 1 1 0 1 (NewSupervisor conf1).

Definition boot (n : string) : bootstrap := mkBootstrap n (Some n).

(** Run a call, or end a goroutine. *)
Tactic Notation "run_call" uconstr(l1) uconstr(r) :=
  eapply rtc_l; [eapply (StepCall _ _ _ _ _ l1); [reflexivity|done|by eapply r]|at_state].
Tactic Notation "end_go" uconstr(l1) uconstr(e) :=
  eapply rtc_l; [eapply (StepGo _ _ _ _ _ l1); [reflexivity|by eapply e]|at_state].
Ltac from_outside c := eapply rtc_l; [apply (StepOutside _ _ _ _ _ c); cbn; set_solver|at_state].

(** A worker from the request to its entry, with nothing else under way. *)
Ltac fork_one :=
  from_outside (CAdd (Cache := list string) "ForkWorker" noA);
  run_call [] (RunForkWorker _ _ _ _ (inr (boot "b")) true);
  end_go [] (EndForkReady _ _ WOk);
  run_call [_] (RunForkingWorker _ _ _ _ None None);
  run_call [_; _] (RunSet).

Definition pool1_forked : Supervisor (Cache := list string) :=
  set_workers {["b" := newWorkerInfo never_new pool1 None]}
    (set_pending [CRemove ["ForkWorker"]; CRemove ["ForkingWorker"]; CRun ["bin"; "-a"; "b"]; CRemove ["SetWorker"]]
       [GoMonitor false (a_boot (boot "b"))] pool1).

Lemma pool1_forks : rtc (step1 one_fork) pool1 pool1_forked.
Proof. fork_one. vm_compute. reflexivity. Qed.

(** With two forks under way, [Max] is exceeded. *)
Lemma pool1_overflows :
  ∃ s, rtc (step1 any_call) pool1 s ∧ len_workers s = 2 ∧ s.(sv_Max) = 1.
Proof.
  eexists. split.
  - from_outside (CAdd (Cache := list string) "ForkWorker" noA).
    from_outside (CAdd (Cache := list string) "ForkWorker" noA).
    run_call [] (RunForkWorker _ _ _ _ (inr (boot "b")) true).
    run_call [] (RunForkWorker _ _ _ _ (inr (boot "c")) true).
    end_go [] (EndForkReady _ _ WOk).
    end_go [] (EndForkReady _ _ WOk).
    run_call [_; _] (RunForkingWorker _ _ _ _ None None).
    run_call [_; _] (RunForkingWorker _ _ _ _ None None).
    run_call [_; _; _] (RunSet).
    run_call [_; _; _; _; _] (RunSet).
    apply rtc_refl.
  - by vm_compute.
Qed.

Definition new_forked : Supervisor (Cache := list string) :=
  set_workers pool1_forked.(sv_workers)
    (set_pending pool1_forked.(sv_calls) pool1_forked.(sv_go) (NewSupervisor conf1)).

Lemma new_forks : rtc (step1 any_call) (NewSupervisor conf1) new_forked.
Proof. fork_one. vm_compute. reflexivity. Qed.

Lemma pool_bounded_witness : len_workers pool1_forked = 1 ∧ len_workers pool1_forked ≤ pool1.(sv_Max).
Proof.
  split; [by vm_compute|].
  apply (pool_bounded never_new never_add never_count pool1 pool1_forked); [by vm_compute|apply pool1_forks].
Defined.

Lemma only_Start_kills_witness :
  (KillingWorkerState None None (a_local "b") new_forked).2
  = Panic "invalid memory address or nil pointer dereference".
Proof.
  apply (only_Start_kills never_new never_add never_count conf1 new_forked); [apply new_forks|].
  by vm_compute; eauto.
Defined.
