(* ===== verification/Members.v ===== *)
(** * Bootstraps, workers and clients of a node ([pkg/node])

    What talks to a supervisor: the bootstrap machine that a forked worker reports
    its addresses to ([supervisor_misc.go], Module [Boot]), the worker
    ([node_worker.go], Module [Work]) and the client ([node_client.go], Module
    [Client]).  Handlers are methods over the fields they use, with what they ask
    of other machines in [calls] and the goroutines they start in [gos]; the
    bodies of goroutines take what their waits end in.  RPC clients and servers
    are third parties here: the handlers make, start and stop them.  Arguments
    travel as the maps they are in the code: the two argument types of the package
    share one key. *)

From S2P Require Import Prelude StateList SchemaDef MachTime Mutation Queue Effects Node.

#[local] Open Scope Z_scope.

Section members.
Context {Cache : Type} (cache_new : Z → Cache) (cache_add : string → Cache → Cache) (cache_count : Cache → Z).

(** ** Arguments on their way *)

Record ARpc := mkARpc {
  r_Id : string;
  r_PublicAddr : string;
  r_LocalAddr : string;
  r_BootAddr : string;
  r_NodesList : list string;
  r_WorkerRpcId : string;
  r_SuperRpcId : string;
}.

Definition noRpc : ARpc := mkARpc "" "" "" "" [] "" "".

(** What an entry of an argument map holds: a pointer or a value of one of the
    types, or something else. *)
Inductive Arg :=
| PtrA (a : A (Cache := Cache))
| ValA (a : A (Cache := Cache))
| PtrRpc (r : ARpc)
| ValRpc (r : ARpc)
| OtherArg.

(** [Args.ArgsPrefix], [ArgsBase.ArgsState] *)
Definition ArgsPrefix : string := "am_node".
Definition argsKey : string := ArgIndex ArgsPrefix StateAny.

Definition Pass (a : Arg) : gmap string Arg := {[argsKey := a]}.

(** [am.ParseArgs[A]] and [am.ParseArgs[ARpc]]: other types give zero values. *)
Definition parseA (args : gmap string Arg) : A (Cache := Cache) :=
  match args !! argsKey with
  | Some (PtrA a) => a
  | Some (ValA a) => a
  | _ => noA
  end.
Definition parseRpc (args : gmap string Arg) : ARpc :=
  match args !! argsKey with
  | Some (PtrRpc r) => r
  | Some (ValRpc r) => r
  | _ => noRpc
  end.

(** RPC: [gob] knows [ARpc], and turns pointers to it into values; it cannot
    send the other type. *)
Definition over_rpc (args : gmap string Arg) : gmap string Arg :=
  omap (λ v, match v with PtrRpc r | ValRpc r => Some (ValRpc r) | _ => None end) args.

(** ** What handlers ask for *)

Inductive Who := Own | Super | Net (conn : string).

#[export] Instance Who_eq : EqDecision Who.
Proof. solve_decision. Defined.

Inductive Call :=
| MAdd (who : Who) (state : string) (args : gmap string Arg)
| MRemove (who : Who) (state : string) (args : gmap string Arg)
| MErr (who : Who) (state err : string) (args : gmap string Arg)
| MStart (conn : string)
| MStop (conn : string) (dispose : bool)
| MDispose.

Definition rpcErr (err : string) : Call := MErr Own "ErrNetwork" ("rpc error: " +:+ err) ∅.

(** [fmt]'s text for a [nil] error. *)
Definition nilErr : string := "%!w(<nil>)".

(** ** Bootstraps *)

(** [bootstrap]: its server's address once it is made; [bootstrap.log] only logs. *)
Record Boot := mkBoot { bo_Id : string; bo_server : option string }.

Inductive BootGo := GoTimeout | GoDispose.

Definition boot_self (b : Boot) : bootstrap := mkBootstrap b.(bo_Id) b.(bo_server).
Definition Boot_Addr (b : Boot) : string := default "" b.(bo_server).

(** [srv]: the new server's address or the error of making it. *)
Definition Boot_StartState (srv : string + string) (bindErr : option string) : held (Mem Boot Call BootGo) () :=
  match srv with
  | inl err => put (λ b, mkBoot b.(bo_Id) None) ;; tell (MErr Own "ErrNetwork" err ∅)
  | inr addr =>
      put (λ b, mkBoot b.(bo_Id) (Some addr)) ;;
      match bindErr with
      | Some err => tell (MErr Own "Exception" err ∅)
      | None => tell (MStart "server") ;; spawn GoTimeout
      end
  end.

(** Past the timeout: whether the machine is disposed, whether a worker reported. *)
Definition boot_timeout (b : Boot) (disposed reported : bool) : list Call :=
  if negb disposed && negb reported
  then [MErr Super "ErrWorker" "worker bootstrap: timeout"
          (Pass (PtrA (mkA b.(bo_Id) "" "" "" [] "" "" None (Some (boot_self b)) false "" None None StateAll None)))]
  else [].

Definition Boot_StartEnd : held (Mem Boot Call BootGo) () :=
  b ← peek;
  (match b.(bo_server) with Some _ => tell (MStop "server" true) | None => mret () end) ;;
  tell MDispose.

Definition WorkerAddrEnter (args : gmap string Arg) : bool :=
  let a := parseRpc args in
  negb (bool_decide (a.(r_LocalAddr) = "")) && negb (bool_decide (a.(r_PublicAddr) = ""))
  && negb (bool_decide (a.(r_Id) = "")).

Definition WorkerAddrState (args : gmap string Arg) : held (Mem Boot Call BootGo) () :=
  let a := parseRpc args in
  b ← peek;
  tell (MAdd Super "WorkerConnected"
    (Pass (PtrA (mkA a.(r_Id) a.(r_PublicAddr) a.(r_LocalAddr) (Boot_Addr b) [] "" "" None None false "" None
                   None StateAll None)))) ;;
  spawn GoDispose.

(** The goroutine of [WorkerAddrState] past its second, and [bootstrap.Dispose]. *)
Definition boot_leave : Call := MRemove Own "Start" ∅.
Definition Boot_Dispose : held (Mem Boot Call BootGo) () := tell boot_leave.

(** ** Workers *)

(** An RPC server: its address, and who may use it ([nil]: anyone). *)
Record Server := mkServer { sr_Addr : string; sr_allowed : option (list string) }.

Record Worker := mkWorker {
  w_Id : string;
  w_Name : string;
  w_AcceptClient : string;
  w_BootAddr : string;
  w_BootRpc : option string;
  w_LocalAddr : string;
  w_LocalRpc : option Server;
  w_PublicAddr : string;
  w_PublicRpc : option Server;
}.

Definition set_boot (addr : string) (w : Worker) : Worker :=
  mkWorker w.(w_Id) w.(w_Name) w.(w_AcceptClient) addr w.(w_BootRpc) w.(w_LocalAddr) w.(w_LocalRpc)
    w.(w_PublicAddr) w.(w_PublicRpc).
Definition set_bootRpc (c : option string) (w : Worker) : Worker :=
  mkWorker w.(w_Id) w.(w_Name) w.(w_AcceptClient) w.(w_BootAddr) c w.(w_LocalAddr) w.(w_LocalRpc)
    w.(w_PublicAddr) w.(w_PublicRpc).
Definition set_local (addr : string) (srv : option Server) (w : Worker) : Worker :=
  mkWorker w.(w_Id) w.(w_Name) w.(w_AcceptClient) w.(w_BootAddr) w.(w_BootRpc) addr srv
    w.(w_PublicAddr) w.(w_PublicRpc).
Definition set_public (addr : string) (srv : option Server) (w : Worker) : Worker :=
  mkWorker w.(w_Id) w.(w_Name) w.(w_AcceptClient) w.(w_BootAddr) w.(w_BootRpc) w.(w_LocalAddr) w.(w_LocalRpc)
    addr srv.
Definition set_accept (id : string) (w : Worker) : Worker :=
  mkWorker w.(w_Id) w.(w_Name) id w.(w_BootAddr) w.(w_BootRpc) w.(w_LocalAddr) w.(w_LocalRpc)
    w.(w_PublicAddr) w.(w_PublicRpc).

Inductive WorkerGo := GoHello | GoStopBoot.

(** [NewWorker]'s checks: the first error; [schema]: whether there is one;
    [missing]: what [Implements] answers. *)
Definition NewWorker_err (kind : string) (stateNames : option (list string)) (schema : bool)
    (missing : option string) : option string :=
  if bool_decide (kind = "") then Some "worker: kind required"
  else match stateNames with
  | None => Some "worker: stateNames required"
  | Some _ =>
      if negb schema then Some "worker: workerStruct required"
      else (λ e, "client has to implement am/node/states/WorkerStates: " +:+ e) <$> missing
  end.

Definition Worker_StartEnter (args : gmap string Arg) : bool :=
  negb (bool_decide ((parseA args).(a_LocalAddr) = "")).

(** [loc], [pub]: the new servers or the errors; [bl], [bp]: the errors of
    binding to them; [rl], [rp]: the results of starting them. *)
Definition Worker_StartState (loc : string + Server) (bl : list (option string)) (pub : string + Server)
    (bp : list (option string)) (rl rp : Z) (args : gmap string Arg) : held (Mem Worker Call WorkerGo) () :=
  put (set_boot (parseA args).(a_LocalAddr)) ;;
  match loc with
  | inl err => put (λ w, set_local w.(w_LocalAddr) None w) ;; tell (rpcErr err)
  | inr l =>
      put (λ w, set_local w.(w_LocalAddr) (Some l) w) ;;
      match errorsJoin bl with
      | Some err => tell (MErr Own "Exception" err ∅)
      | None =>
          match pub with
          | inl err => put (λ w, set_public w.(w_PublicAddr) None w) ;; tell (rpcErr err)
          | inr p =>
              put (λ w, set_public w.(w_PublicAddr) (Some p) w) ;;
              match errorsJoin bp with
              | Some err => tell (MErr Own "Exception" err ∅)
              | None =>
                  tell (MStart "local") ;;
                  if negb (bool_decide (rl = Executed)) then tell (rpcErr nilErr)
                  else
                    tell (MStart "public") ;;
                    if negb (bool_decide (rp = Executed)) then tell (rpcErr nilErr) else mret ()
              end
          end
      end
  end.

Definition Worker_StartEnd (args : gmap string Arg) : held (Mem Worker Call WorkerGo) () :=
  w ← peek;
  (match w.(w_PublicRpc) with Some _ => tell (MStop "public" true) | None => mret () end) ;;
  (match w.(w_LocalRpc) with Some _ => tell (MStop "local" true) | None => mret () end) ;;
  (match w.(w_BootRpc) with Some _ => spawn GoStopBoot | None => mret () end) ;;
  (if (parseA args).(a_Dispose) then tell MDispose else mret ()).

Definition LocalRpcReadyState : held (Mem Worker Call WorkerGo) () :=
  w ← peek;
  match w.(w_LocalRpc) with Some l => put (set_local l.(sr_Addr) (Some l)) | None => nil_panic end.
Definition PublicRpcReadyState : held (Mem Worker Call WorkerGo) () :=
  w ← peek;
  match w.(w_PublicRpc) with Some p => put (set_public p.(sr_Addr) (Some p)) | None => nil_panic end.

(** [client]: the client of the bootstrap or the error of making it. *)
Definition RpcReadyState (client : string + string) (bindErr : option string) : held (Mem Worker Call WorkerGo) () :=
  tell (MAdd Own "Ready" ∅) ;;
  match client with
  | inl err => put (set_bootRpc None) ;; tell (rpcErr err)
  | inr c =>
      put (set_bootRpc (Some c)) ;;
      match bindErr with
      | Some err => tell (rpcErr err)
      | None => tell (MStart "boot") ;; spawn GoHello
      end
  end.

(** The goroutine: the wait for the client to be ready. *)
Definition hello_args (w : Worker) : ARpc := mkARpc w.(w_Id) w.(w_PublicAddr) w.(w_LocalAddr) "" [] "" "".
Definition hello (w : Worker) (wait : Waited) : list Call :=
  match wait with
  | WExpired => []
  | WErr err => [rpcErr err]
  | WOk => [MAdd (Net "boot") "WorkerAddr" (Pass (PtrRpc (hello_args w))); MStop "boot" true]
  end.

Definition HealthcheckState : held (Mem Worker Call WorkerGo) () := tell (MRemove Own "Healthcheck" ∅).

Definition ServeClientEnter (args : gmap string Arg) : bool := negb (bool_decide ((parseA args).(a_Id) = "")).

Definition ServeClientState (args : gmap string Arg) : held (Mem Worker Call WorkerGo) () :=
  tell (MRemove Own "ServeClient" ∅) ;;
  let id := (parseA args).(a_Id) in
  put (set_accept id) ;;
  w ← peek;
  match w.(w_PublicRpc) with
  | Some p => put (set_public w.(w_PublicAddr) (Some (mkServer p.(sr_Addr) (Some [id]))))
  | None => nil_panic
  end.

Definition Worker_Start (bootAddr : string) : Call := MAdd Own "Start" (Pass (PtrA (a_local bootAddr))).
Definition Worker_Stop (dispose : bool) : Call :=
  MRemove Own "Start"
    (Pass (PtrA (mkA "" "" "" "" [] "" "" None None dispose "" None None StateAll None))).

(** ** Clients *)

(** [arpc.AServerPayload], as far as the handler reads it: its name and, when
    there is a payload, its data when that is a string. *)
Record Payload := mkPayload { pl_Name : string; pl_Data : option (option string) }.

(** The clients it made: their addresses. *)
Record NodeClient := mkNodeClient {
  cl_Name : string;
  cl_RpcSuper : option string;
  cl_RpcWorker : option string;
  cl_nodeList : list string;
}.

Inductive ClientGo := GoNodes (nodes : list string) | GoWorker (addr : string).

Definition GetWorkerClientId (name : string) : string := "nc-worker-" +:+ name.
Definition GetSuperClientId (name : string) : string := "nc-super-" +:+ name.

(** [NewClient]'s checks: the first error. [notWorker], [notClient]: what
    [SchemaImplements] and [Implements] answer. *)
Definition NewClient_err (clientId : string) (schema : bool) (workerKind : string)
    (notWorker notClient : option string) : option string :=
  if bool_decide (clientId = "") then Some "client: clientId required"
  else if negb schema then Some "client: workerSchema required"
  else if bool_decide (workerKind = "") then Some "client: workerKind required"
  else match notWorker with
  | Some e => Some ("worker has to implement am/node/states/WorkerStates: " +:+ e)
  | None => (λ e, "client has to implement am/node/states/ClientStates: " +:+ e) <$> notClient
  end.

Definition Client_StartEnter (args : gmap string Arg) : bool :=
  bool_decide (0 < Z.of_nat (length (parseA args).(a_NodesList))).

(** [made]: the error of making the client of the supervisor. *)
Definition Client_StartState (made : option string) (binds : list (option string)) (args : gmap string Arg)
  : held (Mem NodeClient Call ClientGo) () :=
  let nodes := (parseA args).(a_NodesList) in
  match nodes with
  | [] => hlift (Panic "index out of range")
  | addr :: _ =>
      put (λ c, mkNodeClient c.(cl_Name) c.(cl_RpcSuper) c.(cl_RpcWorker) nodes) ;;
      match made with
      | Some err =>
          put (λ c, mkNodeClient c.(cl_Name) None c.(cl_RpcWorker) c.(cl_nodeList)) ;;
          tell (rpcErr ("failed to connect to the Supervisor: " +:+ err))
      | None =>
          put (λ c, mkNodeClient c.(cl_Name) (Some addr) c.(cl_RpcWorker) c.(cl_nodeList)) ;;
          match errorsJoin binds with
          | Some err => tell (MErr Own "Exception" err ∅)
          | None => spawn (GoNodes nodes)
          end
      end
  end.

(** A try of the goroutine: whether the context expired before it, what its wait
    ended in, whether the client is stopped then. *)
Record Try := mkTry { tr_expired : bool; tr_wait : Waited; tr_stopped : bool }.

(** The tries of the nodes: the calls, and the addresses the client was set to.
    [machErr]: the client's own error, joined with the wait's. *)
Fixpoint try_nodes (machErr : option string) (nodes : list string) (tries : list Try)
  : list Call * list string :=
  match nodes, tries with
  | addr :: nodes, t :: tries =>
      if t.(tr_expired) then ([], [])
      else
        let start := [MRemove Own "Exception" ∅; MStart "super"] in
        match t.(tr_wait) with
        | WExpired => (start, [addr])
        | w =>
            if t.(tr_stopped) then
              let '(cs, addrs) := try_nodes machErr nodes tries in
              (start ++ [MStop "super" false; MRemove Own "Exception" ∅] ++ cs, addr :: addrs)
            else match w with
            | WErr err => (start ++ [rpcErr (default "" (errorsJoin [Some err; machErr]))], [addr])
            | _ => let '(cs, addrs) := try_nodes machErr nodes tries in (start ++ cs, addr :: addrs)
            end
        end
  | _, _ => ([], [])
  end.

Definition Client_StartEnd : held (Mem NodeClient Call ClientGo) () :=
  c ← peek;
  (match c.(cl_RpcSuper) with Some _ => tell (MStop "super" true) | None => mret () end) ;;
  (match c.(cl_RpcWorker) with Some _ => tell (MStop "worker" true) | None => mret () end).

(** [states]: the active states of the supervisor's network machine. *)
Definition WorkerRequestedEnter (c : NodeClient) (states : list string) : outcome bool :=
  match c.(cl_RpcSuper) with
  | None => Panic "invalid memory address or nil pointer dereference"
  | Some _ => Ok (contains states "WorkersAvailable")
  end.

(** [superId], [workerId]: [c.RpcSuper.Mach.Id()] and what [arpc.GetClientId]
    makes of the client's name. *)
Definition request_args (superId workerId : string) : ARpc := mkARpc "" "" "" "" [] workerId superId.
Definition WorkerRequestedState (superId workerId : string) : held (Mem NodeClient Call ClientGo) () :=
  c ← peek;
  match c.(cl_RpcSuper) with
  | None => nil_panic
  | Some _ => tell (MAdd (Net "super") "ProvideWorker" (Pass (PtrRpc (request_args superId workerId))))
  end.

Definition ServerPayloadEnter (p : Payload) : bool :=
  negb (bool_decide (p.(pl_Name) = "")) && bool_decide (is_Some p.(pl_Data)).

Definition ServerPayloadState (requested : bool) (p : Payload) : held (Mem NodeClient Call ClientGo) () :=
  tell (MRemove Own "ServerPayload" ∅) ;;
  match p.(pl_Data) with
  | None => nil_panic
  | Some data =>
      if negb (bool_decide (p.(pl_Name) = "ProvideWorker")) then mret ()
      else if negb requested then mret ()
      else match data with
      | Some addr =>
          if bool_decide (addr = "") then tell (MErr Own "ErrSupervisor" "invalid worker address" ∅)
          else spawn (GoWorker addr)
      | None => tell (MErr Own "ErrSupervisor" "invalid worker address" ∅)
      end
  end.

(** The goroutine: the calls, and the new client's address. *)
Definition to_worker (addr : string) (made : option string) (binds : list (option string)) (wait : option string)
  : list Call * option string :=
  match made with
  | Some err => ([rpcErr ("failed to connect to the NetworkMachine: " +:+ err)], None)
  | None =>
      (match errorsJoin binds with
       | Some err => [MErr Own "Exception" err ∅]
       | None => MStart "worker" :: match wait with
                                    | Some _ => [MRemove Own "WorkerRequested" ∅]
                                    | None => []
                                    end
       end, Some addr)
  end.

Definition Client_Start (nodesList : list string) : Call :=
  MAdd Own "Start" (Pass (PtrA (mkA "" "" "" "" nodesList "" "" None None false "" None None StateAll None))).

Definition Client_Stop : held (Mem NodeClient Call ClientGo) () :=
  c ← peek;
  (match c.(cl_RpcSuper) with Some _ => tell (MStop "super" false) | None => mret () end) ;;
  (match c.(cl_RpcWorker) with Some _ => tell (MStop "worker" false) | None => mret () end) ;;
  tell (MRemove Own "Start" ∅).

Definition Client_Dispose : held (Mem NodeClient Call ClientGo) () :=
  Client_Stop ;;
  put (λ c, mkNodeClient c.(cl_Name) None None c.(cl_nodeList)) ;;
  tell MDispose.

(** [ReqWorker]: the first error, of the request or of the wait. *)
Definition ReqWorker (c : NodeClient) (requested waited : option string) : outcome (option string) :=
  match requested, waited with
  | Some err, _ => Ok (Some err)
  | None, Some err => Ok (Some err)
  | None, None =>
      match c.(cl_RpcWorker) with
      | Some _ => Ok None
      | None => Panic "invalid memory address or nil pointer dereference"
      end
  end.

(** ** Between members *)

Lemma parseA_Pass a : parseA (Pass (PtrA a)) = a.
Proof. done. Qed.

Lemma parseRpc_Pass r : parseRpc (Pass (PtrRpc r)) = r.
Proof. done. Qed.

Lemma parseRpc_over r : parseRpc (over_rpc (Pass (PtrRpc r))) = r.
Proof. done. Qed.

(** Arguments of one type are no arguments of the other, on either side of RPC. *)
Lemma parseA_rpc r : parseA (Pass (PtrRpc r)) = noA ∧ parseA (over_rpc (Pass (PtrRpc r))) = noA.
Proof. done. Qed.

(** The mutation that a handler asks of another machine, if it is one. *)
Definition asked (who : Who) (state : string) (c : Call) : option (gmap string Arg) :=
  match c with
  | MAdd w s args => if bool_decide (w = who ∧ s = state) then Some args else None
  | _ => None
  end.

(** What the supervisor's [ProvideWorker] sends to an idle worker. *)
Definition serve_args (clientId : string) : ARpc := mkARpc clientId "" "" "" [] "" "".
Definition serve_request (args : A (Cache := Cache)) : gmap string Arg :=
  Pass (PtrRpc (serve_args args.(a_WorkerRpcId))).

(** The walk over the nodes does not stop at one that connects. *)
Lemma try_nodes_all machErr nodes tries :
  length tries = length nodes →
  Forall (λ t, t.(tr_expired) = false ∧ t.(tr_wait) = WOk) tries →
  (try_nodes machErr nodes tries).2 = nodes.
Proof.
  revert tries. induction nodes as [|addr nodes IH]; intros [|t tries] Hl Ht; try done.
  apply Forall_cons in Ht as [[He Hw] Ht]. injection Hl as Hl. specialize (IH tries Hl Ht). cbn.
  rewrite He, Hw. destruct (tr_stopped t), (try_nodes machErr nodes tries); cbn in *; by f_equal.
Qed.

(** a forked worker is handed over.  What a worker with both of its
    addresses reports to its bootstrap is accepted, and makes the bootstrap ask
    the supervisor for [WorkerConnected] with the bootstrap's own address; once
    the supervisor is connected to the worker, [WorkerForked] moves the entry from
    the bootstrap's address to the worker's local address, with the connection and
    both addresses set and its errors kept, pings the worker, and asks for
    [PoolReady]. *)
Theorem fork_handshake (w : Worker) (b : Boot) (s : Supervisor (Cache := Cache)) (info : workerInfo) (r : Remote)
    (id : string) (net : list string) (err : string) :
  w.(w_Id) ≠ "" → w.(w_LocalAddr) ≠ "" → w.(w_PublicAddr) ≠ "" →
  s.(sv_workers) !! Boot_Addr b = Some info → r.(rm_net) = Some (id, net) →
  ∃ report conn forked,
    asked (Net "boot") "WorkerAddr" <$> head (hello w WOk) = Some (Some report)
    ∧ WorkerAddrEnter (over_rpc report) = true
    ∧ asked Super "WorkerConnected" <$> (WorkerAddrState (over_rpc report) (mkMem b [] [])).1.(calls)
      = [Some conn]
    ∧ WorkerConnectedEnter (parseA conn) = true
    ∧ connect false (inr r) WOk err (parseA conn) = [CAdd "WorkerForked" forked]
    ∧ WorkerForkedEnter forked = true
    ∧ let '(s', res) := WorkerForkedState None forked s in
      res = Ok ()
      ∧ s'.(sv_workers)
        = <[w.(w_LocalAddr) := mkWorkerInfo info.(wi_proc) (Some r) w.(w_PublicAddr) w.(w_LocalAddr)
                                 info.(wi_errs) info.(wi_errsRecent)]> (delete (Boot_Addr b) s.(sv_workers))
      ∧ s'.(sv_calls) = s.(sv_calls)
          ++ [CRemove ["WorkerForked"]; CBind r.(rm_Id); CPing id; CAdd "PoolReady" noA].
Proof.
  intros Hi Hl Hp Hinfo Hnet. do 3 eexists. split; [reflexivity|].
  split; [|split; [reflexivity|]]; [unfold WorkerAddrEnter; rewrite parseRpc_over; cbn; by rewrite !bool_decide_eq_false_2|].
  rewrite parseA_Pass. split; [unfold WorkerConnectedEnter; cbn; by rewrite bool_decide_eq_false_2|].
  split; [reflexivity|]. split; [unfold WorkerForkedEnter; cbn; by rewrite bool_decide_eq_false_2|].
  unfold WorkerForkedState, ask, hmodify, hget, hlift, mbind, held_bind, mret, held_ret. cbn.
  rewrite parseRpc_over, Hinfo; cbn. rewrite Hnet. cbn. rewrite <- !(assoc_L (++)). done.
Qed.

(** no client is ever given a worker.  Clients ask for one with arguments of
    type [ARpc], the supervisor reads arguments of type [A], which share their
    key: the request of every client is vetoed when it arrives.  And so would be
    the supervisor's request to the idle worker. *)
Theorem requests_vetoed (c : NodeClient) (superId workerId : string) (calls0 : list Call) (gos0 : list ClientGo) :
  c.(cl_RpcSuper) ≠ None →
  (∃ args, (WorkerRequestedState superId workerId (mkMem c calls0 gos0)).1.(calls)
             = calls0 ++ [MAdd (Net "super") "ProvideWorker" args]
           ∧ parseRpc args = request_args superId workerId
           ∧ ProvideWorkerEnter (parseA (over_rpc args)) = false)
  ∧ ∀ args, parseRpc (serve_request args) = serve_args args.(a_WorkerRpcId)
            ∧ ServeClientEnter (over_rpc (serve_request args)) = false.
Proof.
  intros Hc. split; [|done].
  exists (Pass (PtrRpc (request_args superId workerId))). split; [|split; reflexivity].
  unfold WorkerRequestedState, peek, tell, hmodify, hget, mbind, held_bind, mret, held_ret. cbn.
  destruct (cl_RpcSuper c); done.
Qed.
End members.

(** ** A fork, and a client *)

Definition worker1 : Worker :=
  mkWorker "nw" "w" "" "b" None "localhost:1" (Some (mkServer "localhost:1" None)) "0.0.0.0:2"
    (Some (mkServer "0.0.0.0:2" None)).

Lemma fork_handshake_witness :
  ∃ forked,
    ((WorkerForkedState None forked pool1_forked).1.(sv_workers) !! "localhost:1")
    = Some (mkWorkerInfo None (Some (mkRemote "c" (Some ("nw", ["Ready"])))) "0.0.0.0:2" "localhost:1" [] []).
Proof.
  edestruct (fork_handshake worker1 (mkBoot "nb" (Some "b")) pool1_forked
    (newWorkerInfo never_new pool1 None) (mkRemote "c" (Some ("nw", ["Ready"]))) "nw" ["Ready"] "")
    as (report & conn & forked & _ & _ & _ & _ & _ & _ & H); [done..|].
  exists forked. destruct (WorkerForkedState None forked pool1_forked) as [s' res]. destruct H as (_ & H & _).
  cbn. rewrite H. by vm_compute.
Defined.

Lemma requests_vetoed_witness :
  ∃ args,
    (WorkerRequestedState (Cache := list string) "super" "worker"
       (mkMem (mkNodeClient "c" (Some "localhost:1") None ["localhost:1"]) [] [])).1.(calls)
    = [MAdd (Net "super") "ProvideWorker" args]
    ∧ ProvideWorkerEnter (parseA (over_rpc args)) = false.
Proof.
  destruct (requests_vetoed (Cache := list string) (mkNodeClient "c" (Some "localhost:1") None ["localhost:1"])
    "super" "worker" [] []) as [(args & H1 & _ & H2) _]; [done|]. by exists args.
Defined.
