(* ===== verification/Shipped.v ===== *)
(** * The schemas the packages ship

    The states, groups and relations of [pkg/states], [pkg/rpc/states],
    [pkg/node/states], [pkg/pubsub/states] and of the tools, a Module per
    package, as data built by the code of [States] and [SchemaDef]; the names a
    Go file imports with a dot ([Start], [Exception]) are written out.  Every
    schema is well-formed ([shipped_wf]), and the groups of which one state is
    active at a time are such in every machine that can be reached
    ([groups_exclusive]), but for those whose Add relations say otherwise. *)

From S2P Require Import Prelude StateList States SchemaDef MachTime Mutation Relations Subscriptions Machine Queue Transition Run Semantics Invariants Lifecycle.

#[local] Open Scope Z_scope.

(** ** Literals *)

(** A field of a [State] literal. *)
Inductive Entry :=
| Auto_ | Multi_
| Require_ (l : list string) | Add_ (l : list string)
| Remove_ (l : list string) | After_ (l : list string).

Definition set_entry (st : State) (e : Entry) : State :=
  match e with
  | Auto_ => set_Auto st true
  | Multi_ => set_Multi st true
  | Require_ l => set_Require st (Some l)
  | Add_ l => set_Add st (Some l)
  | Remove_ l => set_Remove st (Some l)
  | After_ l => set_After st (Some l)
  end.

(** [State{...}], [Schema{...}] and the literals of the structs. *)
Definition st (es : list Entry) : State := fold_left set_entry es zeroState.
Definition Schema_lit (l : list (string * State)) : gmap string State :=
  fold_left (λ m '(n, st), <[n := st]> m) l ∅.
Definition vals (names : list string) : list (Field string) := (λ n, FVal n "") <$> names.
Definition embed {A} (name : string) (fields : list (Field A)) : Field A := FPtr true name fields.
Definition G (name : string) : Field (list string) := FVal name [].
Definition groups_lit (fs : list (Field (list string))) (vs : list (string * list string))
  : list (Field (list string)) :=
  (λ f, match f with
        | FVal n l => FVal n (default l (snd <$> head (filter (λ v, v.1 = n) vs)))
        | _ => f
        end) <$> fs.

(** ** The packages *)

Module Pkg.

(** *** [pkg/states/ss_basic.go] *)

Definition BasicStatesDef : list (Field string) := [embed "StatesBase" StatesBase] ++ vals
  ["ErrNetwork"; "ErrHandlerTimeout"; "Start"; "Ready"; "Healthcheck"; "Heartbeat"].
Definition ssB := NewStates BasicStatesDef.
Definition BasicStates := ssB.
Definition BasicSchema : gmap string State := Schema_lit [
    ("Exception", st [Multi_]);
    ("ErrNetwork", st [Multi_; Add_ ["Exception"]; Require_ ["Exception"]]);
    ("ErrHandlerTimeout", st [Multi_; Add_ ["Exception"]; Require_ ["Exception"]]);
    ("Start", st []);
    ("Ready", st [Require_ ["Start"]]);
    ("Healthcheck", st [Multi_]);
    ("Heartbeat", st [])].


(** *** [pkg/states/ss_connected.go] *)

Definition ConnectedStatesDef : list (Field string) := vals ["ErrConnecting"; "Connecting";
  "Connected"; "Disconnecting"; "Disconnected"] ++ [embed "StatesBase" StatesBase].
Definition ConnPoolStatesDef : list (Field string) := vals ["ErrConnecting"; "Connecting";
  "Connected"; "ConnectedFully"; "Disconnecting"; "Disconnected"] ++
  [embed "StatesBase" StatesBase].
Definition ssC := NewStates ConnectedStatesDef.
Definition ssPc := NewStates ConnPoolStatesDef.
Definition ConnectedGroupsDef (vs : list (string * list string)) : list (Field (list string)) :=
  groups_lit [G "Connected"] vs.
Definition ConnPoolGroupsDef (vs : list (string * list string)) : list (Field (list string)) :=
  groups_lit [G "Connected"] vs.
Definition sgC := NewStateGroups (ConnectedGroupsDef [("Connected", ["Connecting"; "Connected";
  "Disconnecting"; "Disconnected"])]) [].
Definition sgCp := NewStateGroups (ConnPoolGroupsDef [("Connected", ["Connected";
  "Disconnected"])]) [].
Definition ConnectedStates := ssC.
Definition ConnectedGroups := sgC.
Definition ConnPoolStates := ssPc.
Definition ConnPoolGroups := sgCp.
Definition ConnectedSchema : gmap string State := Schema_lit [
    ("ErrConnecting", st [Require_ ["Exception"]]);
    ("Connecting", st [Require_ ["Start"]; Remove_ (group sgC "Connected")]);
    ("Connected", st [Require_ ["Start"]; Remove_ (group sgC "Connected")]);
    ("Disconnecting", st [Remove_ (group sgC "Connected")]);
    ("Disconnected", st [Auto_; Remove_ (group sgC "Connected")])].

Definition ConnPoolSchema : gmap string State := Schema_lit [
    ("ErrConnecting", st [Require_ ["Exception"]]);
    ("Disconnected", st [Remove_ ["Connecting"; "ConnectedFully"; "Disconnecting"]]);
    ("Connecting", st [Require_ ["Start"]; Remove_ ["Disconnecting"]]);
    ("Connected", st [Require_ ["Start"]; Remove_ ["Disconnected"]]);
    ("ConnectedFully", st [Require_ ["Connected"]; Remove_ ["Disconnected"]]);
    ("Disconnecting", st [Remove_ ["ConnectedFully"; "Connected"; "Connecting"]])].


(** *** [pkg/states/ss_disposed.go] *)

Definition DisposedStatesDef : list (Field string) := [embed "StatesBase" StatesBase] ++ vals
  ["RegisterDisposal"; "Disposing"; "Disposed"].
Definition ssD := NewStates DisposedStatesDef.
Definition DisposedGroupsDef (vs : list (string * list string)) : list (Field (list string)) :=
  groups_lit [] vs.
Definition sgD := NewStateGroups (DisposedGroupsDef []) [].
Definition DisposedStates := ssD.
Definition DisposedGroups := sgD.
Definition DisposedSchema : gmap string State := Schema_lit [
    ("RegisterDisposal", st [Multi_]);
    ("Disposing", st [Remove_ ["Start"; "Exception"]]);
    ("Disposed", st [Remove_ ["Start"; "Exception"; "Disposing"]])].


End Pkg.

Module SsRpc.

(** *** [pkg/rpc/states/ss_rpc.go] *)

Definition StateSourceStatesDef : list (Field string) := [embed "StatesBase" StatesBase] ++ vals
  ["ErrOnClient"].
Definition SharedStatesDef : list (Field string) := [embed "StatesBase" StatesBase] ++ vals
  ["ErrNetworkTimeout"; "ErrRpc"; "ErrDelivery"; "HandshakeDone"; "Handshaking"] ++
  [embed "BasicStatesDef" Pkg.BasicStatesDef] ++
  [embed "StateSourceStatesDef" StateSourceStatesDef].
Definition ServerStatesDef : list (Field string) := [embed "StatesBase" StatesBase] ++ vals
  ["Ready"; "RpcStarting"; "RpcAccepting"; "RpcReady"; "ClientConnected"; "HandshakeDone";
  "MetricSync"; "WebSocketTunnel"] ++ [embed "SharedStatesDef" SharedStatesDef].
Definition ClientStatesDef : list (Field string) := [embed "StatesBase" StatesBase] ++ vals
  ["RetryingCall"; "CallRetryFailed"; "RetryingConn"; "ConnRetryFailed"; "Ready";
  "HandshakeDone"; "ServerDelivering"; "ServerPayload"; "MetricSync"] ++
  [embed "SharedStatesDef" SharedStatesDef] ++
  [embed "ConnectedStatesDef" Pkg.ConnectedStatesDef].
Definition MuxStatesDef : list (Field string) := [embed "StatesBase" StatesBase] ++ vals
  ["Ready"; "ClientConnected"; "HasClients"; "NewServerErr"] ++
  [embed "BasicStatesDef" Pkg.BasicStatesDef].
Definition ConsumerStatesDef : list (Field string) := [embed "StatesBase" StatesBase] ++ vals
  ["Exception"; "ServerPayload"].
Definition s := NewStates SharedStatesDef.
Definition ssSS := NewStates StateSourceStatesDef.
Definition ssS := NewStates ServerStatesDef.
Definition ssC := NewStates ClientStatesDef.
Definition ssD := NewStates MuxStatesDef.
Definition ssCo := NewStates ConsumerStatesDef.
Definition SharedGroupsDef (vs : list (string * list string)) : list (Field (list string)) :=
  groups_lit [G "Handshake"] vs.
Definition ServerGroupsDef (vs : list (string * list string)) : list (Field (list string)) :=
  groups_lit [embed "SharedGroupsDef" (SharedGroupsDef []); G "Rpc"] vs.
Definition ClientGroupsDef (vs : list (string * list string)) : list (Field (list string)) :=
  groups_lit [embed "SharedGroupsDef" (SharedGroupsDef []);
  embed "ConnectedGroupsDef" (Pkg.ConnectedGroupsDef [])] vs.
Definition MuxGroupsDef (vs : list (string * list string)) : list (Field (list string)) :=
  groups_lit [] vs.
Definition g := NewStateGroups (SharedGroupsDef [("Handshake", ["Handshaking";
  "HandshakeDone"])]) [].
Definition sgD := NewStateGroups (MuxGroupsDef []) [].
Definition SharedStates := s.
Definition SharedGroups := g.
Definition sgS := NewStateGroups (ServerGroupsDef [("Rpc", ["RpcStarting"; "RpcAccepting";
  "RpcReady"])]) [SharedGroups].
Definition sgC := NewStateGroups (ClientGroupsDef []) [Pkg.ConnectedGroups; SharedGroups].
Definition StateSourceStates := ssSS.
Definition ServerStates := ssS.
Definition ServerGroups := sgS.
Definition ClientStates := ssC.
Definition ClientGroups := sgC.
Definition MuxStates := ssD.
Definition MuxGroups := sgD.
Definition ConsumerStates := ssCo.
Definition StateSourceSchema : gmap string State := Schema_lit [
    ("ErrOnClient", st [Require_ ["Exception"]])].

Definition SharedSchema : gmap string State := Schema_Merge Pkg.BasicSchema [
  StateSourceSchema;
  Schema_lit [
    ("ErrNetwork", st [Require_ ["Exception"]]);
    ("ErrNetworkTimeout", st [Require_ ["Exception"]]);
    ("ErrRpc", st [Require_ ["Exception"]]);
    ("ErrDelivery", st [Require_ ["Exception"]]);
    ("Handshaking", st [Require_ ["Start"]; Remove_ (group g "Handshake")]);
    ("HandshakeDone", st [Require_ ["Start"]; Remove_ (group g "Handshake")])]].

Definition ServerSchema : gmap string State := Schema_Merge SharedSchema [
  Schema_lit [
    ("ErrNetwork", st [Require_ ["Exception"]; Remove_ ["ClientConnected"]]);
    ("HandshakeDone", State_Extend (schema_get SharedSchema "HandshakeDone") (st [Require_
      ["ClientConnected"]; Remove_ ["Exception"]]));
    ("Start", st [Add_ ["RpcStarting"]]);
    ("Ready", st [Auto_; Require_ ["HandshakeDone"; "RpcReady"]]);
    ("RpcStarting", st [Require_ ["Start"]; Remove_ (group sgS "Rpc")]);
    ("RpcAccepting", st [Require_ ["Start"]; Remove_ (group sgS "Rpc")]);
    ("RpcReady", st [Require_ ["Start"]; Remove_ (group sgS "Rpc")]);
    ("ClientConnected", st [Require_ ["RpcReady"]]);
    ("MetricSync", st [Multi_]);
    ("WebSocketTunnel", st [])]].

Definition ClientSchema : gmap string State := Schema_Merge SharedSchema [
  Pkg.ConnectedSchema;
  Schema_lit [
    ("ErrNetwork", st [Require_ ["Exception"]; Remove_ ["Connecting"]]);
    ("Start", st [Add_ ["Connecting"]; Remove_ ["ConnRetryFailed"]]);
    ("Ready", st [Auto_; Require_ ["HandshakeDone"]]);
    ("Connected", State_Extend (schema_get Pkg.ConnectedSchema "Connected") (st [Remove_
      ["RetryingConn"]; Add_ ["Handshaking"]]));
    ("Handshaking", State_Extend (schema_get SharedSchema "Handshaking") (st [Require_
      ["Connected"]]));
    ("HandshakeDone", StateAdd (schema_get SharedSchema "HandshakeDone") (st [Require_
      ["Connected"]]));
    ("RetryingCall", st [Require_ ["Start"]]);
    ("CallRetryFailed", st [Remove_ ["RetryingCall"]; Add_ ["ErrNetwork"; "Exception"]]);
    ("RetryingConn", st [Require_ ["Start"]]);
    ("ConnRetryFailed", st [Remove_ ["Start"]]);
    ("ServerDelivering", st [Multi_; Require_ ["Connected"]]);
    ("ServerPayload", st [Multi_; Require_ ["Connected"]]);
    ("MetricSync", st [Multi_])]].

Definition MuxSchema : gmap string State := Schema_Merge Pkg.BasicSchema [
  Schema_lit [
    ("Exception", st [Multi_; Remove_ ["Ready"]]);
    ("Ready", st [Require_ ["Start"]]);
    ("ClientConnected", st [Multi_; Require_ ["Start"]]);
    ("HasClients", st [Require_ ["Start"]]);
    ("NewServerErr", st [])]].

Definition ConsumerSchema : gmap string State := Schema_lit [
    ("ServerPayload", st [Multi_])].


End SsRpc.

Module SsNode.

(** *** [pkg/node/states/ss_bootstrap.go] *)

Definition BootstrapStatesDef : list (Field string) := [embed "StatesBase" StatesBase] ++ vals
  ["WorkerAddr"] ++ [embed "BasicStatesDef" Pkg.BasicStatesDef] ++
  [embed "StateSourceStatesDef" SsRpc.StateSourceStatesDef].
Definition cos := NewStates BootstrapStatesDef.
Definition BootstrapStates := cos.
Definition BootstrapSchema : gmap string State := Schema_Merge Pkg.BasicSchema [
  SsRpc.StateSourceSchema;
  Schema_lit [
    ("WorkerAddr", st [])]].


(** *** [pkg/node/states/ss_node_client.go] *)

Definition ClientStatesDef : list (Field string) := [embed "StatesBase" StatesBase] ++ vals
  ["Exception"; "ErrWorker"; "ErrSupervisor"; "WorkerDisconnected"; "WorkerConnecting";
  "WorkerConnected"; "WorkerDisconnecting"; "WorkerReady"; "Ready"; "SuperDisconnected";
  "SuperConnecting"; "SuperConnected"; "SuperDisconnecting"; "SuperReady"; "WorkerRequested"] ++
  [embed "BasicStatesDef" Pkg.BasicStatesDef] ++
  [embed "ConsumerStatesDef" SsRpc.ConsumerStatesDef].
Definition ssC := NewStates ClientStatesDef.
Definition ClientGroupsDef (vs : list (string * list string)) : list (Field (list string)) :=
  groups_lit [embed "ConnectedGroupsDef" (Pkg.ConnectedGroupsDef [])] vs.
Definition sgC := NewStateGroups (ClientGroupsDef []) [Pkg.ConnectedGroups].
Definition ClientStates := ssC.
Definition ClientGroups := sgC.
Definition ClientSchema : gmap string State := Schema_Merge Pkg.BasicSchema [
  SsRpc.ConsumerSchema;
  Schema_lit [
    ("ErrWorker", st [Require_ ["Exception"]]);
    ("ErrSupervisor", st [Require_ ["Exception"]]);
    ("SuperDisconnected", st []);
    ("SuperConnecting", st []);
    ("SuperConnected", st []);
    ("SuperDisconnecting", st []);
    ("SuperReady", st []);
    ("WorkerDisconnected", st []);
    ("WorkerConnecting", st []);
    ("WorkerConnected", st []);
    ("WorkerDisconnecting", st []);
    ("WorkerReady", st [Remove_ ["WorkerRequested"]]);
    ("WorkerRequested", st [Require_ ["SuperReady"]]);
    ("Ready", st [Auto_; Require_ ["WorkerReady"]])]].


(** *** [pkg/node/states/ss_node_worker.go] *)

Definition WorkerStatesDef : list (Field string) := [embed "StatesBase" StatesBase] ++ vals
  ["ErrWork"; "ErrWorkTimeout"; "ErrClient"; "ErrSupervisor"; "Ready"; "LocalRpcReady";
  "PublicRpcReady"; "RpcReady"; "SuperConnected"; "ServeClient"; "ClientConnected";
  "ClientSendPayload"; "SuperSendPayload"; "Idle"; "WorkRequested"; "Working"; "WorkReady"] ++
  [embed "BasicStatesDef" Pkg.BasicStatesDef] ++
  [embed "StateSourceStatesDef" SsRpc.StateSourceStatesDef].
Definition ssW := NewStates WorkerStatesDef.
Definition WorkerGroupsDef (vs : list (string * list string)) : list (Field (list string)) :=
  groups_lit [G "WorkStatus"] vs.
Definition sgW := NewStateGroups (WorkerGroupsDef [("WorkStatus", ["WorkRequested"; "Working";
  "WorkReady"; "Idle"])]) [].
Definition WorkerStates := ssW.
Definition WorkerGroups := sgW.
Definition WorkerSchema : gmap string State := Schema_Merge Pkg.BasicSchema [
  SsRpc.StateSourceSchema;
  Schema_lit [
    ("ErrWork", st [Require_ ["Exception"]]);
    ("ErrWorkTimeout", st [Require_ ["Exception"]]);
    ("ErrClient", st [Require_ ["Exception"]]);
    ("ErrSupervisor", st [Require_ ["Exception"]]);
    ("LocalRpcReady", st [Require_ ["Start"]]);
    ("PublicRpcReady", st [Require_ ["Start"]]);
    ("SuperConnected", st [Require_ ["Start"]]);
    ("ClientConnected", st [Require_ ["Start"]]);
    ("Ready", st [Require_ ["LocalRpcReady"]]);
    ("RpcReady", st [Auto_; Require_ ["LocalRpcReady"; "PublicRpcReady"]]);
    ("ServeClient", st [Require_ ["PublicRpcReady"]]);
    ("ClientSendPayload", st [Require_ ["PublicRpcReady"]]);
    ("SuperSendPayload", st [Require_ ["LocalRpcReady"]]);
    ("Idle", st [Auto_; Require_ ["Ready"]; Remove_ (group sgW "WorkStatus")]);
    ("WorkRequested", st [Require_ ["Ready"]; Remove_ (group sgW "WorkStatus")]);
    ("Working", st [Require_ ["Ready"]; Remove_ (group sgW "WorkStatus")]);
    ("WorkReady", st [Require_ ["Ready"]; Remove_ (group sgW "WorkStatus")])]].


(** *** [pkg/node/states/ss_supervisor.go] *)

Definition SupervisorStatesDef : list (Field string) := [embed "StatesBase" StatesBase] ++ vals
  ["ErrWorker"; "ErrPool"; "LocalRpcReady"; "PublicRpcReady"; "Ready"; "Heartbeat";
  "PoolStarting"; "NormalizingPool"; "PoolNormalized"; "PoolReady"; "WorkersAvailable";
  "ListWorkers"; "SetWorker"; "ForkWorker"; "ForkingWorker"; "WorkerConnected"; "WorkerForked";
  "KillWorker"; "KillingWorker"; "WorkerKilled"; "WorkerReady"; "WorkerGone"; "ClientConnected";
  "ClientDisconnected"; "ProvideWorker"; "WorkerIssues"; "ClientSendPayload"; "SuperConnected";
  "SuperDisconnected"; "SuperSendPayload"] ++ [embed "BasicStatesDef" Pkg.BasicStatesDef] ++
  [embed "StateSourceStatesDef" SsRpc.StateSourceStatesDef].
Definition ssS := NewStates SupervisorStatesDef.
Definition SupervisorGroupsDef (vs : list (string * list string)) : list (Field (list string))
  := groups_lit [embed "ConnectedGroupsDef" (Pkg.ConnectedGroupsDef []); G "PoolStatus"; G
  "Errors"; G "PoolNormalized"] vs.
Definition sgS := NewStateGroups (SupervisorGroupsDef [("PoolStatus", ["PoolStarting";
  "PoolReady"]); ("Errors", ["ErrWorker"; "ErrPool"]); ("PoolNormalized", ["PoolNormalized";
  "NormalizingPool"])]) [].
Definition SupervisorStates := ssS.
Definition SupervisorGroups := sgS.
Definition SupervisorSchema : gmap string State := Schema_Merge Pkg.BasicSchema [
  SsRpc.StateSourceSchema;
  Schema_lit [
    ("ErrWorker", st [Require_ ["Exception"]; Add_ ["NormalizingPool"; "Heartbeat"]]);
    ("ErrPool", st [Require_ ["Exception"]; Remove_ ["PoolNormalized"]; Add_
      ["NormalizingPool"]]);
    ("ClientConnected", st [Multi_]);
    ("ClientDisconnected", st [Multi_]);
    ("SuperConnected", st [Multi_]);
    ("SuperDisconnected", st [Multi_]);
    ("LocalRpcReady", st [Require_ ["Start"]]);
    ("PublicRpcReady", st [Require_ ["Start"]]);
    ("WorkerReady", st [Multi_; Require_ ["Start"]; Add_ ["PoolReady"]]);
    ("WorkerGone", st [Multi_; Require_ ["Start"]; Remove_ ["PoolReady"]]);
    ("Start", st [Add_ ["PoolStarting"]]);
    ("Ready", st [Require_ ["LocalRpcReady"; "PublicRpcReady"; "PoolReady"]]);
    ("Heartbeat", st [Require_ ["Start"]]);
    ("PoolStarting", st [Remove_ (group sgS "PoolStatus"); Add_ ["NormalizingPool"]]);
    ("PoolReady", st [Require_ ["Start"]; Remove_ (group sgS "PoolStatus"); Add_ ["Heartbeat"]]);
    ("NormalizingPool", st [Require_ ["Start"]; Remove_ (group sgS "PoolNormalized"); After_
      ["ErrWorker"]]);
    ("PoolNormalized", st [Require_ ["Start"]; Remove_ (group sgS "PoolNormalized"); Add_
      ["Heartbeat"]]);
    ("WorkersAvailable", st [Require_ ["PoolReady"]]);
    ("ListWorkers", st [Multi_; Require_ ["Start"]]);
    ("SetWorker", st [Multi_; Require_ ["Start"]]);
    ("ForkWorker", st [Multi_; Require_ ["Start"]]);
    ("ForkingWorker", st [Multi_; Require_ ["Start"]]);
    ("WorkerConnected", st [Multi_; Require_ ["Start"]]);
    ("WorkerForked", st [Multi_; Require_ ["Start"]; Add_ ["Heartbeat"]]);
    ("KillWorker", st [Multi_]);
    ("KillingWorker", st [Multi_]);
    ("WorkerKilled", st [Multi_; Add_ ["NormalizingPool"; "Heartbeat"]]);
    ("ProvideWorker", st [Multi_; Require_ ["WorkersAvailable"]]);
    ("WorkerIssues", st [Multi_]);
    ("ClientSendPayload", st [Multi_]);
    ("SuperSendPayload", st [Multi_])]].


End SsNode.

Module SsPubsub.

(** *** [pkg/pubsub/states/ss_topic.go] *)

Definition TopicStatesDef : list (Field string) := [embed "StatesBase" StatesBase] ++ vals
  ["ErrJoining"; "ErrListening"; "Joining"; "Joined"; "Started"; "MissPeersByUpdates";
  "MissPeersByGossip"; "MissUpdatesByGossip"; "SendGossips"; "SendUpdates"; "ReqMissingPeers";
  "ReqMissingUpdates"; "DoSendInfo"; "PeerJoined"; "PeerLeft"; "MsgInfo"; "MsgBye";
  "MsgUpdates"; "MsgReqInfo"; "MsgReqUpdates"; "MsgReceived"; "ListMachines"; "SendMsg";
  "ProcessMsgs"; "SendInfo"] ++ [embed "BasicStatesDef" Pkg.BasicStatesDef] ++
  [embed "ConnectedStatesDef" Pkg.ConnectedStatesDef] ++
  [embed "DisposedStatesDef" Pkg.DisposedStatesDef].
Definition ssT := NewStates TopicStatesDef.
Definition TopicGroupsDef (vs : list (string * list string)) : list (Field (list string)) :=
  groups_lit [embed "ConnectedGroupsDef" (Pkg.ConnectedGroupsDef [])] vs.
Definition sgT := NewStateGroups (TopicGroupsDef []) [Pkg.ConnectedGroups].
Definition TopicStates := ssT.
Definition TopicGroups := sgT.
Definition TopicSchema : gmap string State := Schema_Merge Pkg.BasicSchema [
  Pkg.ConnectedSchema;
  Pkg.DisposedSchema;
  Schema_lit [
    ("ErrJoining", st [Require_ ["Exception"]]);
    ("ErrListening", st [Require_ ["Exception"]]);
    ("Started", st [Require_ ["Start"]]);
    ("Joining", st [Require_ ["Connected"]; Remove_ ["Joined"]]);
    ("Joined", st [Require_ ["Connected"]; Remove_ ["Joining"]]);
    ("Ready", st [Auto_; Require_ ["Joined"]]);
    ("SendGossips", st [Require_ ["Joined"]]);
    ("SendUpdates", st [Require_ ["Joined"]]);
    ("ReqMissingPeers", st [Require_ ["Joined"]]);
    ("ReqMissingUpdates", st [Require_ ["Joined"]]);
    ("DoSendInfo", st [Require_ ["Joined"]]);
    ("PeerJoined", st [Multi_; Require_ ["Joined"]]);
    ("PeerLeft", st [Multi_; Require_ ["Joined"]]);
    ("MsgInfo", st [Multi_; Require_ ["Joined"]]);
    ("MsgBye", st [Multi_; Require_ ["Joined"]]);
    ("MsgUpdates", st [Multi_; Require_ ["Joined"]]);
    ("MsgReqInfo", st [Multi_; Require_ ["Joined"]]);
    ("MsgReqUpdates", st [Multi_; Require_ ["Joined"]]);
    ("MsgReceived", st [Multi_; Require_ ["Joined"]]);
    ("MissPeersByUpdates", st [Multi_; Require_ ["Joined"]]);
    ("MissPeersByGossip", st [Multi_; Require_ ["Joined"]]);
    ("MissUpdatesByGossip", st [Multi_; Require_ ["Joined"]]);
    ("ListMachines", st [Multi_; Require_ ["Joined"]]);
    ("SendMsg", st [Multi_; Require_ ["Joined"]]);
    ("ProcessMsgs", st [Multi_; Require_ ["Joined"]]);
    ("SendInfo", st [Require_ ["Joined"]]);
    ("Heartbeat", st [Require_ ["Joined"]])]].


End SsPubsub.

Module SsDbg.

(** *** [tools/debugger/states/ss_dbg.go] *)

Definition ServerStatesDef : list (Field string) := [embed "StatesBase" StatesBase] ++ vals
  ["ErrGraph"; "ConnectEvent"; "ClientMsg"; "DisconnectEvent"; "InitClient"].
Definition DebuggerStatesDef : list (Field string) := [embed "StatesBase" StatesBase] ++ vals
  ["ErrDiagrams"; "ErrUi"; "ErrWeb"; "WebReqDiag"; "WebSocketDiag"; "UserFwd"; "UserBack";
  "UserFwdMarker"; "UserBackMarker"; "TreeFocused"; "TreeGroupsFocused"; "LogFocused";
  "ClientListFocused"; "TimelineTxsFocused"; "TimelineMarkersFocused"; "MatrixFocused";
  "DialogFocused"; "Toolbar1Focused"; "Toolbar2Focused"; "Toolbar3Focused"; "Toolbar4Focused";
  "LogReaderFocused"; "AddressFocused"; "Resized"; "TimelineTxHidden"; "TimelineMarkersHidden";
  "NarrowLayout"; "UserNarrowLayout"; "ClientListVisible"; "StateNameSelected"; "HelpDialog";
  "ExportDialog"; "LogUserScrolled"; "Ready"; "FilterAutoTx"; "FilterAutoCanceledTx";
  "FilterCanceledTx"; "FilterQueuedTx"; "FilterEmptyTx"; "FilterDisconn"; "LogTimestamps";
  "FilterTraces"; "FilterHealth"; "FilterChecks"; "FilterRpcMachs"; "FilterOutGroup"; "Redraw";
  "Loading"; "Start"; "Heartbeat"; "GcMsgs"; "TreeLogView"; "MatrixView"; "TreeMatrixView";
  "TailMode"; "Playing"; "Paused"; "ToggleTool"; "ToolToggled"; "SwitchingClientTx";
  "SwitchedClientTx"; "ScrollToMutTx"; "MatrixRain"; "MatrixRainSelected"; "LogReaderVisible";
  "LogReaderEnabled"; "UpdateLogScheduled"; "UpdatingLog"; "LogUpdated"; "UpdateLogReader";
  "UpdateFocus"; "Overlay"; "AfterFocus"; "FocusPrev"; "FocusNext"; "ToolRain"; "Fwd"; "Back";
  "FwdMarker"; "BackMarker"; "ScrollToTx"; "ScrollToMarker"; "ToggleMark"; "SelectingClient";
  "ClientSelected"; "TxSelected"; "RemoveClient"; "BuildingLog"; "LogBuilt"; "SetCursor";
  "SetGroup"; "SshServer"; "SshDisconn"; "DiagramsGraphRendering"; "DiagramsGraphReady";
  "DiagramsMachRendering"; "DiagramsMachReady"; "DiagramsStatesRendering";
  "DiagramsStatesReady"] ++ [embed "BasicStatesDef" Pkg.BasicStatesDef] ++
  [embed "ServerStatesDef" ServerStatesDef] ++
  [embed "StateSourceStatesDef" SsRpc.StateSourceStatesDef] ++
  [embed "DisposedStatesDef" Pkg.DisposedStatesDef].
Definition ssV := NewStates ServerStatesDef.
Definition ssD := NewStates DebuggerStatesDef.
Definition groupFocus : list string := ["AddressFocused"; "ClientListFocused";
  "TreeGroupsFocused"; "TreeFocused"; "LogFocused"; "LogReaderFocused"; "MatrixFocused";
  "TimelineTxsFocused"; "TimelineMarkersFocused"; "Toolbar1Focused"; "Toolbar2Focused";
  "Toolbar3Focused"; "Toolbar4Focused"; "DialogFocused"].
Definition groupFilters : list string := ["FilterAutoTx"; "FilterCanceledTx"; "FilterEmptyTx";
  "FilterHealth"; "FilterOutGroup"; "FilterQueuedTx"; "FilterAutoCanceledTx"].
Definition DebuggerGroupsDef (vs : list (string * list string)) : list (Field (list string)) :=
  groups_lit [G "Focused"; G "Views"; G "Playing"; G "ClientTx"; G "Filters"; G "Dialog"; G
  "Debug"; G "DiagramsMach"; G "Mcp"; G "McpReadonly"; G "Loading"] vs.
Definition sgD := NewStateGroups (DebuggerGroupsDef [("Focused", groupFocus); ("Views",
  ["MatrixView"; "TreeLogView"; "TreeMatrixView"]); ("Playing", ["Playing"; "Paused";
  "TailMode"]); ("ClientTx", ["SwitchingClientTx"; "SwitchedClientTx"]); ("Filters",
  groupFilters); ("Dialog", ["HelpDialog"; "ExportDialog"]); ("Debug", S.Add1 (groupFocus)
  ["ExportDialog"; "UpdateFocus"; "LogReaderVisible"; "UpdateFocus"; "FocusNext"; "FocusPrev";
  "Overlay"; "HelpDialog"; "ExportDialog"]); ("Loading", ["SelectingClient"; "GcMsgs";
  "DiagramsStatesRendering"; "DiagramsGraphRendering"; "DiagramsMachRendering"])]) [].
Definition ServerStates := ssV.
Definition DebuggerStates := ssD.
Definition DebuggerGroups := sgD.
Definition ServerSchema : gmap string State := Schema_lit [
    ("ErrGraph", st [Require_ ["Exception"]]);
    ("ConnectEvent", st [Multi_; Require_ ["Start"]]);
    ("ClientMsg", st [Multi_; Require_ ["Start"]]);
    ("DisconnectEvent", st [Multi_; Require_ ["Start"]]);
    ("InitClient", st [Multi_; Require_ ["Start"]])].

Definition input_and_view_states : list (string * State) := [
    ("ErrDiagrams", st [Multi_; Require_ ["Exception"]]);
    ("ErrWeb", st [Multi_; Require_ ["Exception"]]);
    ("ErrUi", st [Multi_; Require_ ["Exception"]]);
    ("WebReqDiag", st [Multi_; Require_ ["Start"]]);
    ("WebSocketDiag", st [Multi_; Require_ ["Start"]]);
    ("UserFwd", st [Add_ ["Fwd"]; Remove_ (group sgD "Playing")]);
    ("UserBack", st [Add_ ["Back"]; Remove_ (group sgD "Playing")]);
    ("UserFwdMarker", st [Add_ ["FwdMarker"]; Require_ ["ClientSelected"]; Remove_ (S.Add1
      (group sgD "Playing") ["LogUserScrolled"])]);
    ("UserBackMarker", st [Add_ ["BackMarker"]; Require_ ["ClientSelected"]; Remove_ (S.Add1
      (group sgD "Playing") ["LogUserScrolled"])]);
    ("TreeFocused", st [Remove_ (group sgD "Focused")]);
    ("TreeGroupsFocused", st [Remove_ (group sgD "Focused")]);
    ("LogFocused", st [Remove_ (group sgD "Focused")]);
    ("ClientListFocused", st [Remove_ (group sgD "Focused")]);
    ("TimelineTxsFocused", st [Remove_ (group sgD "Focused")]);
    ("TimelineMarkersFocused", st [Remove_ (group sgD "Focused")]);
    ("MatrixFocused", st [Remove_ (group sgD "Focused")]);
    ("DialogFocused", st [Remove_ (group sgD "Focused")]);
    ("Toolbar1Focused", st [Remove_ (group sgD "Focused")]);
    ("Toolbar2Focused", st [Remove_ (group sgD "Focused")]);
    ("Toolbar3Focused", st [Remove_ (group sgD "Focused")]);
    ("Toolbar4Focused", st [Remove_ (group sgD "Focused")]);
    ("LogReaderFocused", st [Require_ ["LogReaderVisible"]; Remove_ (group sgD "Focused")]);
    ("AddressFocused", st [Remove_ (group sgD "Focused")]);
    ("Resized", st [Multi_]);
    ("TimelineTxHidden", st [Require_ ["TimelineMarkersHidden"]]);
    ("TimelineMarkersHidden", st []);
    ("NarrowLayout", st [Require_ ["Ready"]; Remove_ ["ClientListVisible"]]);
    ("UserNarrowLayout", st [Add_ ["NarrowLayout"]]);
    ("ClientListVisible", st []);
    ("StateNameSelected", st [Multi_; Require_ ["ClientSelected"]]);
    ("HelpDialog", st [Add_ ["DialogFocused"]; Remove_ (S.Add (group sgD "Dialog") [group sgD
      "Focused"])]);
    ("ExportDialog", st [Add_ ["DialogFocused"]; Remove_ (S.Add (group sgD "Dialog") [group sgD
      "Focused"])]);
    ("LogUserScrolled", st [Remove_ ["Playing"; "TailMode"]; Require_ ["LogFocused"]]);
    ("Ready", st [Require_ ["Start"]; Add_ ["UpdateFocus"]]);
    ("FilterAutoTx", st [Remove_ ["FilterAutoCanceledTx"]]);
    ("FilterAutoCanceledTx", st [Remove_ ["FilterAutoTx"]]);
    ("FilterCanceledTx", st []);
    ("FilterQueuedTx", st []);
    ("FilterEmptyTx", st []);
    ("FilterDisconn", st []);
    ("LogTimestamps", st []);
    ("FilterTraces", st []);
    ("FilterHealth", st []);
    ("FilterChecks", st []);
    ("FilterRpcMachs", st []);
    ("FilterOutGroup", st []);
    ("Redraw", st []);
    ("Loading", st [])].

Definition action_states : list (string * State) := [
    ("Start", st [Add_ ["LogTimestamps"; "FilterHealth"; "ClientListFocused";
      "FilterAutoCanceledTx"; "ClientListVisible"]]);
    ("Heartbeat", st [Multi_; Require_ ["Start"]]);
    ("GcMsgs", st [Add_ ["Loading"]; Remove_ ["SelectingClient"; "SwitchedClientTx";
      "ScrollToTx"; "ScrollToMutTx"]]);
    ("TreeLogView", st [Auto_; Require_ ["Start"]; Remove_ (S.Add1 (group sgD "Views")
      ["MatrixRain"])]);
    ("MatrixView", st [Remove_ (S.Add1 (group sgD "Views") ["LogReaderVisible"])]);
    ("TreeMatrixView", st [Remove_ (S.Add1 (group sgD "Views") ["LogReaderVisible"])]);
    ("TailMode", st [Require_ ["ClientSelected"]; Remove_ (S.Add1 (group sgD "Playing")
      ["LogUserScrolled"])]);
    ("Playing", st [Require_ ["ClientSelected"]; Remove_ (S.Add1 (group sgD "Playing")
      ["LogUserScrolled"])]);
    ("Paused", st [Auto_; Require_ ["ClientSelected"]; Remove_ (group sgD "Playing")]);
    ("ToggleTool", st [Remove_ ["ToolToggled"]]);
    ("ToolToggled", st [Remove_ ["ToggleTool"]]);
    ("SwitchingClientTx", st [Require_ ["Ready"]; Remove_ ["SwitchedClientTx"]]);
    ("SwitchedClientTx", st [Require_ ["Ready"]; Remove_ ["SwitchingClientTx"]]);
    ("ScrollToMutTx", st [Require_ ["ClientSelected"]]);
    ("MatrixRain", st []);
    ("MatrixRainSelected", st [Multi_; Require_ ["MatrixRain"; "ClientSelected"]]);
    ("LogReaderVisible", st [Auto_; Require_ ["TreeLogView"; "LogReaderEnabled"]]);
    ("LogReaderEnabled", st []);
    ("UpdateLogScheduled", st [Require_ ["Ready"]]);
    ("UpdatingLog", st [Require_ ["Ready"; "ClientSelected"]; Remove_ ["LogUpdated"]]);
    ("LogUpdated", st [Require_ ["Ready"; "ClientSelected"]; Remove_ ["UpdatingLog"]]);
    ("UpdateLogReader", st [Require_ ["Ready"; "LogReaderEnabled"]]);
    ("UpdateFocus", st [Multi_; Require_ ["Ready"]]);
    ("Overlay", st [Require_ ["LogReaderFocused"]]);
    ("AfterFocus", st [Multi_; Require_ ["Ready"]]);
    ("FocusPrev", st [Multi_; Require_ ["Ready"]]);
    ("FocusNext", st [Multi_; Require_ ["Ready"]]);
    ("ToolRain", st [Multi_; Require_ ["Ready"]])].

Definition tx_client_diagram_states : list (string * State) := [
    ("Fwd", st [Require_ ["ClientSelected"]; Remove_ ["Overlay"]]);
    ("Back", st [Require_ ["ClientSelected"]; Remove_ ["Overlay"]]);
    ("FwdMarker", st [Require_ ["ClientSelected"]]);
    ("BackMarker", st [Require_ ["ClientSelected"]]);
    ("ScrollToTx", st [Multi_; Require_ ["ClientSelected"]; Remove_ ["TailMode"; "Playing"]]);
    ("ScrollToMarker", st [Require_ ["ClientSelected"]; Remove_ ["TailMode"; "Playing"]]);
    ("ToggleMark", st [Multi_; Require_ ["ClientSelected"]]);
    ("SelectingClient", st [Add_ ["Loading"]; Require_ ["Start"]; Remove_ ["ClientSelected";
      "Overlay"]]);
    ("ClientSelected", st [Require_ ["Start"]; Remove_ ["SelectingClient"]]);
    ("TxSelected", st [Require_ ["ClientSelected"]]);
    ("RemoveClient", st [Require_ ["ClientSelected"]]);
    ("BuildingLog", st [Require_ ["ClientSelected"]; Remove_ ["LogBuilt"]; After_
      ["ClientSelected"]]);
    ("LogBuilt", st [Require_ ["ClientSelected"]; Remove_ ["BuildingLog"]]);
    ("SetCursor", st [Require_ ["Ready"]]);
    ("SetGroup", st [Multi_; Require_ ["ClientSelected"]]);
    ("SshServer", st [Require_ ["Start"]]);
    ("SshDisconn", st [Multi_; Require_ ["SshServer"]]);
    ("DiagramsGraphRendering", st [Multi_; Require_ ["Ready"]; Add_ ["Loading"]; Remove_
      ["DiagramsGraphReady"]]);
    ("DiagramsGraphReady", st [Require_ ["Ready"]; Remove_ ["DiagramsGraphRendering"]]);
    ("DiagramsMachRendering", st [Multi_; Require_ ["ClientSelected"]; Add_ ["Loading"]; Remove_
      ["DiagramsMachReady"]]);
    ("DiagramsMachReady", st [Require_ ["ClientSelected"]; Remove_ ["DiagramsMachRendering"]]);
    ("DiagramsStatesRendering", st [Multi_; Require_ ["ClientSelected"]; Add_ ["Loading"];
      Remove_ ["DiagramsStatesReady"]]);
    ("DiagramsStatesReady", st [Require_ ["ClientSelected"]; Remove_
      ["DiagramsStatesRendering"]])].

Definition DebuggerSchema : gmap string State := Schema_Merge Pkg.BasicSchema [
  ServerSchema;
  SsRpc.StateSourceSchema;
  Pkg.DisposedSchema;
  Schema_lit (input_and_view_states ++ action_states ++ tx_client_diagram_states)].

End SsDbg.

Module SsRelay.

(** *** [tools/relay/states/ss_relay.go] *)

Definition RelayStatesDef : list (Field string) := [embed "StatesBase" StatesBase] ++ vals
  ["HttpStarting"; "HttpReady"; "WsTunListenConn"; "WsTunListenDisconn"; "WsDialConn";
  "WsDialDisconn"] ++ [embed "BasicStatesDef" Pkg.BasicStatesDef] ++
  [embed "DisposedStatesDef" Pkg.DisposedStatesDef] ++
  [embed "ServerStatesDef" SsDbg.ServerStatesDef].
Definition WsTcpTunStatesDef : list (Field string) := [embed "StatesBase" StatesBase] ++ vals
  ["ErrClient"; "ErrServer"; "WebSocket"; "TcpListen"; "TcpListening"; "TcpAccepted"] ++
  [embed "DisposedStatesDef" Pkg.DisposedStatesDef] ++
  [embed "BasicStatesDef" Pkg.BasicStatesDef].
Definition ss := NewStates RelayStatesDef.
Definition ssW := NewStates WsTcpTunStatesDef.
Definition RelayGroupsDef (vs : list (string * list string)) : list (Field (list string)) :=
  groups_lit [] vs.
Definition WsTcpTunGroupsDef (vs : list (string * list string)) : list (Field (list string)) :=
  groups_lit [] vs.
Definition sg := NewStateGroups (RelayGroupsDef []) [].
Definition sgW := NewStateGroups (WsTcpTunGroupsDef []) [].
Definition RelayStates := ss.
Definition RelayGroups := sg.
Definition WsTcpTunStates := ssW.
Definition WsTcpTunGroups := sgW.
Definition RelaySchema : gmap string State := Schema_Merge Pkg.BasicSchema [
  Pkg.DisposedSchema;
  SsDbg.ServerSchema;
  Schema_lit [
    ("HttpStarting", st [Require_ ["Start"]; Remove_ ["HttpReady"]]);
    ("HttpReady", st [Require_ ["Start"]; Remove_ ["HttpStarting"]]);
    ("WsTunListenConn", st [Multi_; Require_ ["HttpReady"]]);
    ("WsTunListenDisconn", st [Multi_; Require_ ["HttpReady"]]);
    ("WsDialConn", st [Multi_; Require_ ["HttpReady"]]);
    ("WsDialDisconn", st [Multi_; Require_ ["HttpReady"]])]].

Definition WsTcpTunSchema : gmap string State := Schema_Merge Pkg.BasicSchema [
  Pkg.DisposedSchema;
  Schema_lit [
    ("ErrClient", st [Add_ ["Disposing"]; Require_ ["Exception"]]);
    ("ErrServer", st [Add_ ["Disposing"]; Require_ ["Exception"]]);
    ("WebSocket", st []);
    ("Start", st [Add_ ["TcpListen"; "WebSocket"]]);
    ("TcpListen", st [Require_ ["WebSocket"]; Remove_ ["TcpListening"]]);
    ("TcpListening", st [Require_ ["Start"; "WebSocket"]; Remove_ ["TcpListen"]]);
    ("TcpAccepted", st [Add_ ["Ready"]; Require_ ["TcpListening"]]);
    ("Ready", st [Require_ ["TcpAccepted"]])]].


End SsRelay.

Module SsRepl.

(** *** [tools/repl/states/ss_repl.go] *)

Definition ReplStatesDef : list (Field string) := [embed "StatesBase" StatesBase] ++ vals
  ["ErrSyntax"; "RpcConn"; "RpcDisconn"; "CmdAdd"; "CmdRemove"; "CmdGroupAdd"; "CmdGroupRemove";
  "CmdList"; "CmdScript"; "CmdWhenTime"; "CmdWhen"; "CmdWhenNot"; "CmdInspect"; "CmdStatus";
  "ReplMode"; "ListMachines"; "AddrChanged"] ++ [embed "BasicStatesDef" Pkg.BasicStatesDef] ++
  [embed "ConnPoolStatesDef" Pkg.ConnPoolStatesDef] ++
  [embed "DisposedStatesDef" Pkg.DisposedStatesDef].
Definition ssC := NewStates ReplStatesDef.
Definition ReplGroupsDef (vs : list (string * list string)) : list (Field (list string)) :=
  groups_lit [embed "ConnectedGroupsDef" (Pkg.ConnectedGroupsDef []); G "Cmds"] vs.
Definition sgC := NewStateGroups (ReplGroupsDef [("Cmds", ["CmdAdd"; "CmdRemove"; "CmdList";
  "CmdScript"; "CmdWhenTime"; "CmdWhen"; "CmdWhenNot"; "CmdInspect"; "CmdStatus"])])
  [Pkg.ConnectedGroups].
Definition ReplStates := ssC.
Definition ReplGroups := sgC.
Definition ReplSchema : gmap string State := Schema_Merge Pkg.BasicSchema [
  Pkg.ConnPoolSchema;
  Pkg.DisposedSchema;
  Schema_lit [
    ("ErrSyntax", st [Multi_; Require_ ["Exception"]]);
    ("ErrNetwork", st [Multi_; Require_ ["Exception"]; Remove_ ["ConnectedFully"]]);
    ("RpcConn", st [Multi_]);
    ("RpcDisconn", st [Multi_]);
    ("CmdAdd", st [Multi_; Require_ ["Connected"]]);
    ("CmdRemove", st [Multi_; Require_ ["Connected"]]);
    ("CmdGroupAdd", st [Multi_; Require_ ["Connected"]]);
    ("CmdGroupRemove", st [Multi_; Require_ ["Connected"]]);
    ("CmdList", st [Multi_; Require_ ["Connected"]]);
    ("CmdScript", st [Multi_; Require_ ["Connected"]]);
    ("CmdWhenTime", st [Multi_; Require_ ["Connected"]]);
    ("CmdWhen", st [Multi_; Require_ ["Connected"]]);
    ("CmdWhenNot", st [Multi_; Require_ ["Connected"]]);
    ("CmdInspect", st [Multi_; Require_ ["Connected"]]);
    ("CmdStatus", st [Multi_; Require_ ["Connected"]]);
    ("ReplMode", st []);
    ("ListMachines", st [Multi_; Require_ ["Start"]]);
    ("AddrChanged", st [Multi_; Require_ ["Start"]])]].


End SsRepl.

Module SsGenerator.

(** *** [tools/generator/states/ss_generator.go] *)

Definition GeneratorStatesDef : list (Field string) := [embed "StatesBase" StatesBase] ++ vals
  ["InheritBasic"; "InheritConnected"; "InheritDisposed"; "InheritRpcStateSource";
  "InheritNodeWorker"; "Inherit"; "GroupsLocal"; "GroupsInherited"; "Groups"].
Definition ssG := NewStates GeneratorStatesDef.
Definition GeneratorGroupsDef (vs : list (string * list string)) : list (Field (list string)) :=
  groups_lit [G "Inherit"] vs.
Definition sgG := NewStateGroups (GeneratorGroupsDef [("Inherit", ["InheritBasic";
  "InheritConnected"; "InheritRpcStateSource"; "InheritNodeWorker"; "InheritDisposed"])]) [].
Definition GeneratorStates := ssG.
Definition GeneratorGroups := sgG.
Definition GeneratorSchema : gmap string State := Schema_lit [
    ("InheritBasic", st []);
    ("InheritConnected", st [Add_ ["GroupsInherited"]]);
    ("InheritDisposed", st []);
    ("InheritRpcStateSource", st []);
    ("InheritNodeWorker", st [Add_ ["GroupsInherited"]; Remove_ ["InheritRpcStateSource"]]);
    ("Inherit", st [Auto_]);
    ("GroupsLocal", st []);
    ("GroupsInherited", st []);
    ("Groups", st [Auto_])].


End SsGenerator.

Module SsVisualizer.

(** *** [tools/visualizer/states/ss_visualizer.go] *)

Definition VisualizerStatesDef : list (Field string) := [embed "StatesBase" StatesBase] ++
  [embed "BasicStatesDef" Pkg.BasicStatesDef] ++
  [embed "DisposedStatesDef" Pkg.DisposedStatesDef] ++
  [embed "ServerStatesDef" SsDbg.ServerStatesDef].
Definition ssV := NewStates VisualizerStatesDef.
Definition VisualizerGroupsDef (vs : list (string * list string)) : list (Field (list string))
  := groups_lit [] vs.
Definition sgV := NewStateGroups (VisualizerGroupsDef []) [].
Definition VisualizerStates := ssV.
Definition VisualizerGroups := sgV.
Definition VisualizerSchema : gmap string State := Schema_Merge Pkg.BasicSchema [
  Pkg.DisposedSchema;
  SsDbg.ServerSchema;
  Schema_lit []].


End SsVisualizer.

(** ** Checks of a schema *)

#[local] Open Scope lazy_bool_scope.

Lemma lazy_and (a b : bool) : a &&& b = true ↔ a = true ∧ b = true.
Proof. destruct a, b; naive_solver. Qed.

Lemma lazy_or (a b : bool) : a ||| b = true ↔ a = true ∨ b = true.
Proof. destruct a, b; naive_solver. Qed.

Section checks.
Context (sch : gmap string State).

Definition sadds (z : string) : list string := elems (schema_get sch z).(st_Add).
Definition sremoves (z : string) : list string := elems (schema_get sch z).(st_Remove).
Definition srequires (z : string) : list string := elems (schema_get sch z).(st_Require).

(** For all states, and for some. *)
Definition every (f : string → bool) : bool := forallb f (keys sch).
Definition added (x : string) : bool := existsb (λ z, contains (sadds z) x) (keys sch).
Definition removed (x : string) : bool := existsb (λ z, contains (sremoves z) x) (keys sch).

Definition named : bool := negb (contains (keys sch) "") && negb (added "").

(** [Relations.excludes] and [Relations.contenders] *)
Definition excludes_b (x y : string) : bool :=
  contains (sremoves x) y
  &&& every (λ z, if contains (sadds z) x then contains (sremoves z) y else true).

Definition contenders_b (x y : string) : bool :=
  contains (sremoves x) y &&& (contains (sremoves y) x
  &&& (negb (contains (sremoves x) x) &&& (negb (contains (sremoves y) y)
  &&& (every (λ z, if contains (sremoves z) x || contains (sremoves z) y
         then bool_decide (z = x) ||| (bool_decide (z = y) ||| negb (removed z)) else true)
  &&& (every (λ z, if contains (sadds z) x then negb (added z) else true)
  &&& forallb (λ r, negb (added r)) (srequires x)))))).

Definition rivals (x y : string) : bool :=
  excludes_b x y ||| (excludes_b y x ||| (contenders_b x y ||| contenders_b y x)).

(** At most one state of [g] at a time. *)
Definition exclusive (g : list string) : bool :=
  forallb (λ x, forallb (λ y, bool_decide (x = y) ||| rivals x y) g) g.

(** All relations name states of the schema. *)
Definition closed : bool :=
  every (λ n, forallb (contains (keys sch)) (Schema_AdjacentStates sch n)).

(** No state requires what it removes. *)
Definition consistent : bool :=
  every (λ n, bool_decide (parse_conflicts (keys sch) n (schema_get sch n) = [])).

(** *** The checks are right *)

Lemma in_relation (f : State → rel) x z :
  f zeroState = None → x ∈ elems (f (schema_get sch z)) → z ∈ keys sch.
Proof.
  intros Hf Hx. apply elem_of_keys. unfold schema_get in Hx. destruct (sch !! z); [by eexists|].
  cbn in Hx. rewrite Hf in Hx. by apply elem_of_nil in Hx.
Qed.

Lemma every_spec f z : every f = true → z ∈ keys sch → f z = true.
Proof. unfold every. rewrite forallb_forall. intros H Hz. apply H. by apply list_elem_of_In. Qed.

Lemma added_false x : added x = false → ∀ z, x ∉ sadds z.
Proof.
  intros Ha z Hx. apply not_true_iff_false in Ha. apply Ha. apply existsb_exists.
  exists z. split; [apply list_elem_of_In; by eapply (in_relation st_Add)|by apply contains_true].
Qed.

Lemma removed_false x : removed x = false → ∀ z, x ∉ sremoves z.
Proof.
  intros Ha z Hx. apply not_true_iff_false in Ha. apply Ha. apply existsb_exists.
  exists z. split; [apply list_elem_of_In; by eapply (in_relation st_Remove)|by apply contains_true].
Qed.

Lemma named_spec : named = true → named_schema sch.
Proof.
  unfold named. rewrite andb_true_iff, !negb_true_iff. intros [H1 H2]. split.
  - apply contains_false in H1. rewrite elem_of_keys in H1. by apply eq_None_not_Some.
  - intros n. by apply added_false.
Qed.

Lemma excludes_spec rr x y : rr.(rr_schema) = sch → excludes_b x y = true → excludes rr x y.
Proof.
  intros Hrr. unfold excludes_b. rewrite lazy_and. intros [H1 H2].
  unfold excludes, Relations.removes. rewrite Hrr. split; [by apply contains_true|].
  intros z Hz. pose proof (every_spec _ z H2) as H. cbv beta in H. apply contains_true.
  rewrite (proj2 (contains_true (sadds z) x)) in H by done. apply H. by eapply (in_relation st_Add).
Qed.

Lemma contenders_spec rr x y : rr.(rr_schema) = sch → contenders_b x y = true → contenders rr x y.
Proof.
  intros Hrr. unfold contenders_b. rewrite !lazy_and, !negb_true_iff.
  intros (H1 & H2 & H3 & H4 & H5 & H6 & H7). reflect.
  split; unfold Relations.removes, Relations.requires; rewrite Hrr.
  - done.
  - intros z Hz. assert (Hk : z ∈ keys sch) by (destruct Hz; by eapply (in_relation st_Remove)).
    pose proof (every_spec _ z H5 Hk) as H. cbv beta in H.
    assert (contains (sremoves z) x || contains (sremoves z) y = true) as E.
    { apply orb_true_iff. destruct Hz; [left|right]; by apply contains_true. }
    rewrite E, !lazy_or, !bool_decide_eq_true, negb_true_iff in H.
    destruct H as [?|[?|H]]; [by left|by right; left|]. right; right. by apply removed_false.
  - intros z Hz. pose proof (every_spec _ z H6) as H. cbv beta in H.
    rewrite (proj2 (contains_true (sadds z) x)) in H by done.
    apply added_false, negb_true_iff, H. by eapply (in_relation st_Add).
  - intros r Hr. rewrite forallb_forall in H7. apply added_false, negb_true_iff, H7.
    by apply list_elem_of_In.
Qed.

(** Exclusive groups are exclusive among target states. *)
Lemma exclusive_targets g :
  exclusive g = true →
  target_property sch (λ l, ∀ x y, x ∈ g → y ∈ g → x ∈ l → y ∈ l → x = y).
Proof.
  intros He. split; [intros l l' Hl H x y ? ? Hx Hy; by apply H; try apply Hl|].
  intros rr l ts Hrr Hts x y Hx Hy Hxt Hyt. unfold exclusive in He. rewrite forallb_forall in He.
  specialize (He x ltac:(by apply list_elem_of_In)). rewrite forallb_forall in He.
  specialize (He y ltac:(by apply list_elem_of_In)).
  apply lazy_or in He as [He|He]; [by apply bool_decide_eq_true in He|exfalso].
  unfold rivals in He. rewrite !lazy_or in He. destruct He as [He|[He|[He|He]]].
  - by apply (excludes_spec rr), (TargetStates_excludes rr l ts) in He.
  - by apply (excludes_spec rr), (TargetStates_excludes rr l ts) in He.
  - by apply (contenders_spec rr), (TargetStates_contenders rr l ts) in He.
  - by apply (contenders_spec rr), (TargetStates_contenders rr l ts) in He.
Qed.

(** Parsing finds no conflict, and the same schema, in any order. *)
Lemma consistent_parse order :
  (∀ k, k ∈ order ↔ is_Some (sch !! k)) → consistent = true → (Schema_Parse order sch).2 = [].
Proof.
  intros Ho Hc. unfold Schema_Parse. cbn [snd].
  assert (Hk : ∀ n, n ∈ order → parse_conflicts (keys sch) n (schema_get sch n) = []).
  { intros n Hn. apply Ho, elem_of_keys in Hn. pose proof (every_spec _ n Hc Hn) as H.
    by apply bool_decide_eq_true in H. }
  clear Ho. induction order as [|n order IH]; [done|]. cbn. rewrite Hk by left. apply IH.
  intros k Hin. apply Hk. by right.
Qed.

Lemma Schema_Parse_order order :
  (∀ k, k ∈ order ↔ is_Some (sch !! k)) → (Schema_Parse order sch).1 = (Schema_Parse (keys sch) sch).1.
Proof.
  intros Ho. apply map_eq. intros n. rewrite !Schema_Parse_lookup; [done| |done].
  intros k. apply elem_of_keys.
Qed.
End checks.

(** ** The packages' machines *)

(** The schema of a new machine. *)
Definition machine_schema (s : gmap string State) : gmap string State :=
  with_exception (Schema_Parse (keys s) s).1.

(** A schema with its states and the groups of which one state is active at a
    time. *)
Record Package := mkPackage {
  pk_states : outcome StatesDef;
  pk_schema : gmap string State;
  pk_exclusive : list (list string);
}.

Definition packages : list Package := [
  mkPackage Pkg.BasicStates Pkg.BasicSchema [];
  mkPackage SsRpc.SharedStates SsRpc.SharedSchema [group SsRpc.SharedGroups "Handshake"];
  mkPackage SsRpc.ServerStates SsRpc.ServerSchema
    [group SsRpc.ServerGroups "Handshake"; group SsRpc.ServerGroups "Rpc"];
  mkPackage SsRpc.ClientStates SsRpc.ClientSchema
    [group SsRpc.ClientGroups "Handshake"; group SsRpc.ClientGroups "Connected"];
  mkPackage SsRpc.MuxStates SsRpc.MuxSchema [];
  mkPackage SsRpc.ConsumerStates SsRpc.ConsumerSchema [];
  mkPackage SsNode.BootstrapStates SsNode.BootstrapSchema [];
  mkPackage SsNode.ClientStates SsNode.ClientSchema [];
  mkPackage SsNode.WorkerStates SsNode.WorkerSchema [group SsNode.WorkerGroups "WorkStatus"];
  mkPackage SsNode.SupervisorStates SsNode.SupervisorSchema
    [group SsNode.SupervisorGroups "PoolStatus"; group SsNode.SupervisorGroups "PoolNormalized"];
  mkPackage SsPubsub.TopicStates SsPubsub.TopicSchema
    [group SsPubsub.TopicGroups "Connected"; ["Joining"; "Joined"]];
  mkPackage SsDbg.DebuggerStates SsDbg.DebuggerSchema
    [group SsDbg.DebuggerGroups "Focused"; group SsDbg.DebuggerGroups "Views";
     group SsDbg.DebuggerGroups "Playing"; group SsDbg.DebuggerGroups "ClientTx";
     group SsDbg.DebuggerGroups "Dialog"];
  mkPackage SsRelay.RelayStates SsRelay.RelaySchema [["HttpStarting"; "HttpReady"]];
  mkPackage SsRelay.WsTcpTunStates SsRelay.WsTcpTunSchema [["TcpListen"; "TcpListening"]];
  mkPackage SsRepl.ReplStates SsRepl.ReplSchema [];
  mkPackage SsGenerator.GeneratorStates SsGenerator.GeneratorSchema [];
  mkPackage SsVisualizer.VisualizerStates SsVisualizer.VisualizerSchema []].

Definition check_package (p : Package) : bool :=
  match pk_states p with
  | Ok sd =>
      let names := sd_names sd in
      let sch := with_exception (pk_schema p) in
      consistent (pk_schema p) && closed sch
      && forallb (contains (keys sch)) names && forallb (contains names) (keys sch)
      && negb (contains names "")
      && named (machine_schema (pk_schema p))
      && forallb (exclusive (machine_schema (pk_schema p))) (pk_exclusive p)
  | _ => false
  end.

Lemma packages_checked : forallb check_package packages = true.
Proof. vm_compute. reflexivity. Qed.

Lemma package_checked p :
  p ∈ packages → ∃ sd, pk_states p = Ok sd
  ∧ consistent (pk_schema p) = true ∧ closed (with_exception (pk_schema p)) = true
  ∧ (∀ n, n ∈ sd_names sd ↔ n ∈ keys (with_exception (pk_schema p))) ∧ ("" ∉ sd_names sd)
  ∧ named (machine_schema (pk_schema p)) = true
  ∧ ∀ g, g ∈ pk_exclusive p → exclusive (machine_schema (pk_schema p)) g = true.
Proof.
  intros Hp. pose proof packages_checked as H. rewrite forallb_forall in H.
  specialize (H p ltac:(by apply list_elem_of_In)). unfold check_package in H.
  destruct (pk_states p) as [sd| |]; [|done..]. exists sd. split; [done|].
  rewrite !andb_true_iff, !forallb_forall, negb_true_iff in H.
  destruct H as ((((((H1 & H2) & H3) & H4) & H5) & H6) & H7). reflect.
  do 2 (split; [done|]). split; [|split; [done|split; [done|]]].
  - intros n. rewrite !list_elem_of_In. split; intros Hn; [apply H3 in Hn|apply H4 in Hn];
      apply contains_true in Hn; by apply list_elem_of_In.
  - intros g Hg. apply H7. by apply list_elem_of_In.
Qed.

(** ** Properties *)

(** C24: Each of the 17 packages and tools listed defines its schema, merged with
    those of its mixins, for exactly the states of its struct (Exception comes by
    itself); its relations name no other states; no state requires what it
    removes, whatever order the schema is parsed in; and a machine made of it
    accepts the names of the struct as its states. *)
Theorem packages_wf p :
  p ∈ packages → ∃ sd, pk_states p = Ok sd
  ∧ (∀ n, n ∈ sd_names sd ↔ n = StateException ∨ is_Some (pk_schema p !! n))
  ∧ (∀ n r, r ∈ Schema_AdjacentStates (pk_schema p) n → r ∈ sd_names sd)
  ∧ ∀ pq order torder randId env opts,
      (∀ k, k ∈ order ↔ is_Some (pk_schema p !! k)) →
      ∃ m c m', New pq order torder randId env (pk_schema p) opts = Ok (m, c)
        ∧ VerifyStates (sd_names sd) m = inr m' ∧ stateNames m' ≡ₚ stateNames m.
Proof.
  intros Hp. destruct (package_checked p Hp) as (sd & Hsd & Hc & Hcl & Hn & Hne & _).
  assert (Hkeys : ∀ n, n ∈ keys (with_exception (pk_schema p)) ↔ n = StateException ∨ is_Some (pk_schema p !! n)).
  { intros n. rewrite elem_of_keys. unfold with_exception. destruct (pk_schema p !! StateException) eqn:He.
    - split; [by right|]. by intros [->|?]; [eexists|].
    - rewrite lookup_insert_is_Some. destruct (decide (StateException = n)); naive_solver. }
  exists sd. split; [done|]. split; [intros n; by rewrite Hn, Hkeys|]. split.
  - intros n r Hr. apply Hn. assert (Hnk : n ∈ keys (with_exception (pk_schema p))).
    { apply Hkeys. right. unfold Schema_AdjacentStates in Hr.
      destruct (pk_schema p !! n); [by eexists|by apply elem_of_nil in Hr]. }
    pose proof (every_spec _ _ n Hcl Hnk) as H. cbv beta in H. rewrite forallb_forall in H.
    apply contains_true, H, list_elem_of_In. unfold Schema_AdjacentStates, with_exception in *.
    destruct (pk_schema p !! StateException) eqn:He; [done|].
    rewrite lookup_insert_ne; [done|]. intros <-. rewrite He in Hr. by apply elem_of_nil in Hr.
  - intros pq order torder randId env opts Ho.
    rewrite New_ok by (by apply consistent_parse). rewrite Schema_Parse_order by done.
    set (m := new_machine _ _ _ _). exists m, (new_config (cloneOptions opts) env).
    destruct (new_machine_parity torder randId (Schema_Parse (keys (pk_schema p)) (pk_schema p)).1
      (cloneOptions opts)) as (_ & _ & _ & Hs & Hnames & _). fold m in Hs, Hnames.
    assert (Hkm : ∀ n, n ∈ sd_names sd ↔ is_Some (schema m !! n)).
    { intros n. rewrite Hn, Hkeys, Hs. unfold with_exception.
      pose proof (Schema_Parse_lookup _ (pk_schema p) n (elem_of_keys (pk_schema p))) as Hl.
      pose proof (Schema_Parse_lookup _ (pk_schema p) StateException (elem_of_keys (pk_schema p))) as Hx.
      destruct ((Schema_Parse _ _).1 !! StateException) eqn:E.
      - rewrite Hl, fmap_is_Some. split; [|by right]. intros [->|?]; [|done].
        symmetry in Hx. apply fmap_Some in Hx as (? & -> & _). by eexists.
      - rewrite lookup_insert_is_Some, Hl, fmap_is_Some. destruct (decide (StateException = n)); naive_solver. }
    destruct (VerifyStates_ok (sd_names sd) m) as (m' & Hv & _ & Hperm); [done..|by rewrite Hs|].
    by exists m'.
Qed.

(** C5: Whatever handlers are bound and whatever they do, in a machine made of the
    schema of one of the 17 packages at most one state is active of each group
    that [packages] lists for it: handshake and server of RPC, the connections of
    its client and of topics, joining, the status of workers and of the pool, the
    focus, views, playing, transitions and dialogs of the debugger, the listeners
    of the relay.  Not of the groups of the REPL and of the client of nodes
    ([repl_group_not_exclusive], [node_client_group_unknown]). *)
Theorem groups_exclusive p g pq order torder randId env opts m0 c m m' x y
    randTx done bindings autoOrder evals :
  p ∈ packages → g ∈ pk_exclusive p →
  (∀ k, k ∈ order ↔ is_Some (pk_schema p !! k)) →
  New pq order torder randId env (pk_schema p) opts = Ok (m0, c) →
  schema m = schema m0 → m.(m_st) = m0.(m_st) → m.(m_t) = m0.(m_t) →
  rtc (mach_step randTx done bindings autoOrder evals) m m' →
  x ∈ g → y ∈ g → x ∈ activeStates m' → y ∈ activeStates m' → x = y.
Proof.
  intros Hp Hg Ho HN Hsch Hst Ht Hr Hx Hy.
  destruct (package_checked p Hp) as (sd & _ & Hc & _ & _ & _ & Hn & He).
  rewrite New_ok in HN by (by apply consistent_parse). 
  assert (Hm : new_machine torder randId (Schema_Parse order (pk_schema p)).1 (cloneOptions opts) = m0)
    by congruence.
  rewrite Schema_Parse_order in Hm by done. subst m0.
  destruct (new_machine_parity torder randId (Schema_Parse (keys (pk_schema p)) (pk_schema p)).1
    (cloneOptions opts)) as (Hpar & Hact & Htx & Hs & _).
  rewrite Hs in Hsch. rewrite Htx in Ht. unfold activeStates in Hact. rewrite <- Hst in Hact.
  destruct (reachable_allowed randTx done bindings autoOrder evals
    (λ l, ∀ x y, x ∈ g → y ∈ g → x ∈ l → y ∈ l → x = y) m m') as [_ H]; [..|by apply H].
  - rewrite Hsch. by apply named_spec.
  - eapply parity_clock, Hpar; unfold activeStates, clock; by rewrite Hst.
  - unfold activeStates. rewrite Hact. apply not_elem_of_nil.
  - done.
  - rewrite Hsch. by apply exclusive_targets, He.
  - unfold activeStates. rewrite Hact. by intros ? ? _ _ ?%elem_of_nil.
  - done.
Qed.

(** A worker is asked to work, and then does. *)
Definition worker_binding : Binding :=
  mkBinding "" (λ name, if bool_decide (name = "WorkRequestedState")
    then Some (λ _, HCall (CallAdd ["Working"] ∅) (λ _, HEnd true)) else None).

Definition worker_step (r : outcome (Z * Machine)) (states : list string) : outcome (Z * Machine) :=
  '(_, m) ← r;
  api_call (processQueue (λ _, "tx") (λ _, false) [worker_binding] (λ m, keys (schema m))
    (λ _, HEnd true) 60) (CallAdd states ∅) m.

Definition worker_start : outcome (Machine * Config) :=
  New (mret 0) (keys SsNode.WorkerSchema) [] "worker" false SsNode.WorkerSchema None.

Definition worker_run : outcome (Z * Machine) :=
  '(m, _) ← worker_start;
  fold_left worker_step [["Start"]; ["LocalRpcReady"; "Ready"]; ["WorkRequested"]]
    (Ok (0, with_flags start_loop m)).

Definition worker_states : list string :=
  match worker_run with Ok (_, m) => activeStates m | _ => [] end.

Lemma worker_steps m l r r' m' :
  fold_left worker_step l (Ok (r, m)) = Ok (r', m') →
  rtc (mach_step (λ _, "tx") (λ _, false) [worker_binding] (λ m, keys (schema m)) (λ _, HEnd true)) m m'.
Proof.
  revert m r. induction l as [|c l IH]; intros m r He; [by injection He as _ <-|].
  cbn [fold_left] in He. unfold worker_step at 2 in He. cbn [mbind outcome_bind] in He.
  destruct (api_call _ (CallAdd c ∅) m) as [[r1 m1]|msg|] eqn:E.
  - eapply rtc_l; [eapply (step_call _ _ _ _ _ 60 (CallAdd c ∅) m r1 m1), E|by eapply IH].
  - exfalso. clear E IH. induction l; [done|]. by apply IHl.
  - exfalso. clear E IH. induction l; [done|]. by apply IHl.
Qed.

Lemma worker_works : contains worker_states "Working" = true.
Proof. vm_compute. reflexivity. Qed.

Example groups_exclusive_witness :
  ∃ r m', worker_run = Ok (r, m') ∧ "Working" ∈ activeStates m' ∧ ¬ "Idle" ∈ activeStates m'.
Proof.
  pose proof worker_works as Hw. unfold worker_states in Hw.
  destruct worker_run as [[r m']|msg|] eqn:E; [|discriminate Hw..].
  apply contains_true in Hw. exists r, m'. split; [reflexivity|]. split; [exact Hw|]. intros Hi.
  unfold worker_run in E. destruct worker_start as [[m0 c]|msg|] eqn:E0; [|discriminate E..].
  assert (H : "Working" = "Idle"); [|discriminate H].
  apply (groups_exclusive (mkPackage SsNode.WorkerStates SsNode.WorkerSchema
      [group SsNode.WorkerGroups "WorkStatus"]) (group SsNode.WorkerGroups "WorkStatus")
    (mret 0) (keys SsNode.WorkerSchema) [] "worker" false None m0 c (with_flags start_loop m0) m'
    "Working" "Idle"
    (λ _, "tx") (λ _, false) [worker_binding] (λ m, keys (schema m)) (λ _, HEnd true)).
  - unfold packages. do 8 right. left.
  - left.
  - intros k. apply elem_of_keys.
  - exact E0.
  - reflexivity.
  - reflexivity.
  - reflexivity.
  - eapply worker_steps, E.
  - apply contains_true. vm_compute. reflexivity.
  - apply contains_true. vm_compute. reflexivity.
  - exact Hw.
  - exact Hi.
Defined.

Example packages_wf_witness :
  ∃ sd, SsNode.WorkerStates = Ok sd ∧ "Working" ∈ sd_names sd ∧ "Ready" ∈ sd_names sd.
Proof.
  destruct (packages_wf (mkPackage SsNode.WorkerStates SsNode.WorkerSchema
      [group SsNode.WorkerGroups "WorkStatus"])) as (sd & Hsd & Hn & Hr & _).
  { unfold packages. do 8 right. left. }
  exists sd. split; [exact Hsd|]. split.
  - apply Hn. right. cbn [pk_schema]. compute_decide.
  - apply (Hr "Working"). apply contains_true. vm_compute. reflexivity.
Defined.

(** The groups of the REPL are those of one connection, while its schema is the
    one of a pool: connected and connecting go together. *)
Example repl_group_not_exclusive :
  let run := fold_left (λ r c, '(_, m) ← r;
      api_call (processQueue (λ _, "tx") (λ _, false) [] (λ m, keys (schema m)) (λ _, HEnd true) 60)
        (CallAdd [c] ∅) m) ["Start"; "Connecting"; "Connected"]
    ('(m, _) ← New (mret 0) (keys SsRepl.ReplSchema) [] "repl" false SsRepl.ReplSchema None; Ok (0, m)) in
  group SsRepl.ReplGroups "Connected" = ["Connecting"; "Connected"; "Disconnecting"; "Disconnected"]
  ∧ match run with
    | Ok (_, m) => contains (activeStates m) "Connecting" && contains (activeStates m) "Connected"
    | _ => false
    end = true.
Proof. vm_compute. done. Qed.

(** A mixin need not be closed: states of a connection require [Start], which the
    schema they are merged into has to define. *)
Example connected_mixin_open :
  contains (Schema_AdjacentStates Pkg.ConnectedSchema "Connected") "Start" = true
  ∧ Pkg.ConnectedSchema !! "Start" = None.
Proof. vm_compute. done. Qed.

(** The client of a node has a group of states its schema does not define. *)
Example node_client_group_unknown :
  forallb (λ n, (bool_decide (SsNode.ClientSchema !! n = None))) (group SsNode.ClientGroups "Connected") = true
  ∧ group SsNode.ClientGroups "Connected" ≠ [].
Proof. vm_compute. done. Qed.
