(* ===== verification/DbgClient.v ===== *)
(** * The debugger's clients ([src/tools/debugger])

    What the debugger keeps of a machine that sends it transitions, and how it
    moves through them: the client of [server/dbg_server.go] (Module [Client])
    with its searches, the parsing of messages, filters, cursor, history and
    markers of [debugger.go] (Module [View]), and addresses of transitions
    ([types/dbg_types.go], Module [Addr]).  The messages are those of [Dbg].
    Times of day are numbers; what is drawn on the screen is left out. *)

From S2P Require Import Prelude StateList SchemaDef MachTime Mutation Machine GoStrings Logging Dbg NetMach Requests Shipped.

#[local] Open Scope Z_scope.

(** ** Binary search of Go's library *)

(** [sort.Search]: [n - i] halves in every round, and as many rounds as there
    are elements are enough. *)
Fixpoint search_loop (fuel : nat) (f : Z → bool) (i n : Z) : Z :=
  match fuel with
  | O => i
  | S fuel =>
      if bool_decide (i < n)
      then
        let h := (i + n) / 2 in
        if negb (f h) then search_loop fuel f (h + 1) n else search_loop fuel f i h
      else i
  end.
Definition sort_Search (n : Z) (f : Z → bool) : Z := search_loop (Z.to_nat n) f 0 n.

(** True from some point on. *)
Definition upward (f : Z → bool) (lo hi : Z) : Prop :=
  ∀ a b, lo ≤ a ≤ b → b < hi → f a = true → f b = true.

Lemma search_loop_spec fuel f i n :
  (Z.to_nat (n - i) ≤ fuel)%nat → i ≤ n → upward f i n →
  let r := search_loop fuel f i n in
  i ≤ r ≤ n ∧ (∀ k, i ≤ k < r → f k = false) ∧ (∀ k, r ≤ k < n → f k = true).
Proof.
  revert i n. induction fuel as [|fuel IH]; intros i n Hfuel Hle Hup; cbn.
  { assert (i = n) as -> by lia. split_and!; intros; lia. }
  case_bool_decide as Hlt; [|assert (i = n) as -> by lia; split_and!; intros; lia].
  set (h := (i + n) / 2). assert (i ≤ h < n) as Hh.
  { split; [apply Z.div_le_lower_bound; lia|apply Z.div_lt_upper_bound; lia]. }
  destruct (f h) eqn:Hf; cbn.
  - destruct (IH i h) as (H1 & H2 & H3); [lia..| |].
    { intros a b Hab Hb. apply Hup; lia. }
    split_and!; [lia..|exact H2|]. intros k Hk. destruct (decide (k < h)); [apply H3; lia|].
    apply (Hup h); [lia..|exact Hf].
  - destruct (IH (h + 1) n) as (H1 & H2 & H3); [lia..| |].
    { intros a b Hab Hb. apply Hup; lia. }
    split_and!; [lia..| |exact H3]. intros k Hk. destruct (decide (k ≤ h)) as [Hkh|]; [|apply H2; lia].
    destruct (f k) eqn:Hfk; [|done]. rewrite (Hup k h) in Hf; [done|lia..|done].
Qed.

(** Any function: the answer is a position, or the end. *)
Lemma search_loop_range fuel f i n : i ≤ n → i ≤ search_loop fuel f i n ≤ n.
Proof.
  revert i n. induction fuel as [|fuel IH]; intros i n Hle; cbn; [lia|].
  case_bool_decide; [|lia]. assert (i ≤ (i + n) / 2 < n).
  { split; [apply Z.div_le_lower_bound; lia|apply Z.div_lt_upper_bound; lia]. }
  destruct (f _); cbn; [specialize (IH i ((i + n) / 2))|specialize (IH ((i + n) / 2 + 1) n)]; lia.
Qed.

(** [slices.BinarySearchFunc]: [less]: an element is before the target; [equal]:
    it is the target. *)
Definition BinarySearch {A} (l : list A) (less equal : A → bool) : Z * bool :=
  let n := Z.of_nat (length l) in
  let i := sort_Search n (λ i, match l !! Z.to_nat i with Some x => negb (less x) | None => false end) in
  (i, match l !! Z.to_nat i with Some x => bool_decide (i < n) && equal x | None => false end).

(** ** Clients *)
Module Client.

(** A message with the time it was received at. *)
Record RxTx := mkRxTx { rx_Msg : DbgMsgTx; rx_Time : Z }.

(** [MsgTxParsed], without the log's entries and forks. *)
Record MsgTxParsed := mkParsed {
  pa_StatesAdded : list Z;
  pa_StatesRemoved : list Z;
  pa_StatesTouched : list Z;
  pa_TimeSum : Z;
  pa_TimeDiff : Z;
}.

Record MsgSchemaParsed := mkSchemaParsed {
  sp_Groups : gmap string (list string);
  sp_GroupsOrder : list string;
  sp_Hash : string;
}.

(** [server.Client] and, of [debugger.Client], the cursor and the state
    selected. *)
Record Client := mkClient {
  cl_Id : string;
  cl_ConnId : string;
  cl_Connected : bool;
  cl_MsgStruct : DbgMsgStruct;
  cl_MsgTxs : list RxTx;
  cl_Markers : gset string;
  cl_MTimeSum : Z;
  cl_SelectedGroup : string;
  cl_SelectedState : string;
  cl_MsgTxsFiltered : list Z;
  cl_Errors : list Z;
  cl_MsgTxsParsed : list MsgTxParsed;
  cl_Schema : MsgSchemaParsed;
  cl_txCache : gmap string Z;
  cl_CursorTx1 : Z;
}.

Definition set_parsed (sum : Z) (errors : list Z) (parsed : list MsgTxParsed) (c : Client) : Client :=
  mkClient c.(cl_Id) c.(cl_ConnId) c.(cl_Connected) c.(cl_MsgStruct) c.(cl_MsgTxs) c.(cl_Markers) sum
    c.(cl_SelectedGroup) c.(cl_SelectedState) c.(cl_MsgTxsFiltered) errors parsed c.(cl_Schema)
    c.(cl_txCache) c.(cl_CursorTx1).
Definition set_txs (l : list RxTx) (c : Client) : Client :=
  mkClient c.(cl_Id) c.(cl_ConnId) c.(cl_Connected) c.(cl_MsgStruct) l c.(cl_Markers) c.(cl_MTimeSum)
    c.(cl_SelectedGroup) c.(cl_SelectedState) c.(cl_MsgTxsFiltered) c.(cl_Errors) c.(cl_MsgTxsParsed)
    c.(cl_Schema) c.(cl_txCache) c.(cl_CursorTx1).
Definition set_markers (m : gset string) (c : Client) : Client :=
  mkClient c.(cl_Id) c.(cl_ConnId) c.(cl_Connected) c.(cl_MsgStruct) c.(cl_MsgTxs) m c.(cl_MTimeSum)
    c.(cl_SelectedGroup) c.(cl_SelectedState) c.(cl_MsgTxsFiltered) c.(cl_Errors) c.(cl_MsgTxsParsed)
    c.(cl_Schema) c.(cl_txCache) c.(cl_CursorTx1).
Definition set_cache (m : gmap string Z) (c : Client) : Client :=
  mkClient c.(cl_Id) c.(cl_ConnId) c.(cl_Connected) c.(cl_MsgStruct) c.(cl_MsgTxs) c.(cl_Markers) c.(cl_MTimeSum)
    c.(cl_SelectedGroup) c.(cl_SelectedState) c.(cl_MsgTxsFiltered) c.(cl_Errors) c.(cl_MsgTxsParsed)
    c.(cl_Schema) m c.(cl_CursorTx1).
Definition set_filtered (l : list Z) (c : Client) : Client :=
  mkClient c.(cl_Id) c.(cl_ConnId) c.(cl_Connected) c.(cl_MsgStruct) c.(cl_MsgTxs) c.(cl_Markers) c.(cl_MTimeSum)
    c.(cl_SelectedGroup) c.(cl_SelectedState) l c.(cl_Errors) c.(cl_MsgTxsParsed) c.(cl_Schema) c.(cl_txCache)
    c.(cl_CursorTx1).
Definition set_cursor (i : Z) (c : Client) : Client :=
  mkClient c.(cl_Id) c.(cl_ConnId) c.(cl_Connected) c.(cl_MsgStruct) c.(cl_MsgTxs) c.(cl_Markers) c.(cl_MTimeSum)
    c.(cl_SelectedGroup) c.(cl_SelectedState) c.(cl_MsgTxsFiltered) c.(cl_Errors) c.(cl_MsgTxsParsed)
    c.(cl_Schema) c.(cl_txCache) i.

Definition len_txs (c : Client) : Z := Z.of_nat (length c.(cl_MsgTxs)).

(** *** Schemas *)

(** One group of [ParseSchema]'s loop: whether the group [self] was met, and the
    group before. *)
Definition parse_group (m : DbgMsgStruct) (g : string) (acc : bool * list string * MsgSchemaParsed)
  : outcome (bool * list string * MsgSchemaParsed) :=
  let '(pastSelf, prev, sp) := acc in
  let name := TrimSuffix g "StatesDef" in
  let name := if bool_decide (g = "self") then "- self" else if pastSelf : bool then "- " +:+ name else name in
  states ← IndexesToStates m.(ms_StatesIndex) (default [] (m.(ms_Groups) !! g));
  let groups := <[name := states]> sp.(sp_Groups) in
  let groups := if pastSelf then <[g := states ++ prev]> groups else groups in
  let prev := if pastSelf then states else prev in
  Ok (pastSelf || bool_decide (g = "self"), prev,
      mkSchemaParsed groups (sp.(sp_GroupsOrder) ++ [name]) sp.(sp_Hash)).

Fixpoint parse_groups (m : DbgMsgStruct) (order : list string) (acc : bool * list string * MsgSchemaParsed)
  : outcome (bool * list string * MsgSchemaParsed) :=
  match order with
  | [] => Ok acc
  | g :: order => acc ← parse_group m g acc; parse_groups m order acc
  end.

(** [hash]: the digest of [SchemaHash]. *)
Definition ParseSchema (hash : string → Z → string) (m : DbgMsgStruct) : outcome MsgSchemaParsed :=
  let sp := mkSchemaParsed {["all" := m.(ms_StatesIndex)]} ["all"] (Kit.SchemaHash hash (Some m.(ms_States))) in
  acc ← parse_groups m m.(ms_GroupsOrder) (false, [], sp);
  Ok acc.2.

Definition NewClient (hash : string → Z → string) (connId : string) (m : DbgMsgStruct) : outcome Client :=
  sp ← ParseSchema hash m;
  Ok (mkClient m.(ms_ID) connId false m [] ∅ 0 "" "" [] [] [] sp ∅ 0).

(** *** Markers, lookups and searches *)

Definition TxIsMarked (txId : string) (c : Client) : bool := bool_decide (txId ∈ c.(cl_Markers)).
Definition TxMark (txId : string) (mark : bool) (c : Client) : Client :=
  set_markers (if mark then {[txId]} ∪ c.(cl_Markers) else c.(cl_Markers) ∖ {[txId]}) c.
Definition ClearCache (c : Client) : Client := set_cache ∅ c.

(** [None]: the zero time. *)
Definition LastActive (c : Client) : option Z := rx_Time <$> last c.(cl_MsgTxs).

(** [c.Errors] goes down, so [sort.Search] finds the last error before [tx]. *)
Definition HadErrSinceTx (tx distance : Z) (c : Client) : bool :=
  let es := c.(cl_Errors) in
  if bool_decide (tx ∈ es) then true
  else
    let index := sort_Search (Z.of_nat (length es))
      (λ i, match es !! Z.to_nat i with Some e => bool_decide (e < tx) | None => false end) in
    match es !! Z.to_nat index with
    | None => false
    | Some e => bool_decide (tx - e < distance)
    end.

(** The first message for which [p] holds, or the last one; -1 without any. *)
Definition tx_at (p : RxTx → bool) (c : Client) : Z :=
  let l := len_txs c in
  if bool_decide (l = 0) then -1
  else
    let i := sort_Search l (λ i, match c.(cl_MsgTxs) !! Z.to_nat i with Some x => p x | None => false end) in
    if bool_decide (i = l) then l - 1 else i.

Definition TxAtQueueTick (qTick : Z) (c : Client) : Z :=
  tx_at (λ x, bool_decide (qTick ≤ x.(rx_Msg).(mx_QueueTick))) c.

(** Both cases of the test for the closer one give the same. *)
Definition TxAtHTime (hTime : Z) (c : Client) : Z := tx_at (λ x, bool_decide (hTime ≤ x.(rx_Time))) c.

Definition Client_StatesToIndexes (c : Client) (states : list string) : list Z :=
  StatesToIndexes c.(cl_MsgStruct).(ms_StatesIndex) states.
Definition StatesStringToIndex (c : Client) (states : string) : list Z :=
  S.Index c.(cl_MsgStruct).(ms_StatesIndex) (Split states " ").

(** Positions are kept once found. *)
Definition TxIndex (id : string) (c : Client) : Z * Client :=
  match c.(cl_txCache) !! id with
  | Some idx => (idx, c)
  | None =>
      match list_find (λ x, x.(rx_Msg).(mx_ID) = id) c.(cl_MsgTxs) with
      | Some (i, _) => (Z.of_nat i, set_cache (<[id := Z.of_nat i]> c.(cl_txCache)) c)
      | None => (-1, c)
      end
  end.

Definition at_index {A} (l : list A) (idx : Z) : option A :=
  if bool_decide (idx < 0) then None else l !! Z.to_nat idx.
Definition Tx (idx : Z) (c : Client) : option RxTx := at_index c.(cl_MsgTxs) idx.
Definition TxParsed (idx : Z) (c : Client) : option MsgTxParsed := at_index c.(cl_MsgTxsParsed) idx.

(** The later transition that ran a queued mutation, by queue tick or token. *)
Definition executes (tx check : DbgMsgTx) : bool :=
  negb check.(mx_IsQueued)
  && (bool_decide (check.(mx_QueueTick) = tx.(mx_MutQueueTick))
      || bool_decide (0 < check.(mx_MutQueueToken)) && bool_decide (check.(mx_MutQueueToken) = tx.(mx_MutQueueToken))).

Definition TxExecutedBy (idx : Z) (c : Client) : outcome (option RxTx) :=
  x ← slice_get c.(cl_MsgTxs) idx;
  if negb x.(rx_Msg).(mx_IsQueued) then Ok None
  else Ok (snd <$> list_find (λ y, executes x.(rx_Msg) y.(rx_Msg) = true) (drop (Z.to_nat (idx + 1)) c.(cl_MsgTxs))).

Definition TxAtMachTime (sum : Z) (c : Client) : Z :=
  let '(idx, ok) := BinarySearch c.(cl_MsgTxsParsed) (λ p, bool_decide (p.(pa_TimeSum) < sum))
    (λ p, bool_decide (p.(pa_TimeSum) = sum)) in
  if ok then idx else 0.

Definition FilterIndexByCursor1 (cursor1 : Z) (c : Client) : Z :=
  if bool_decide (cursor1 = 0) then 0 else index_of c.(cl_MsgTxsFiltered) (cursor1 - 1).

(** *** Entries of the log reader *)

Section reader.
Context {Entry : Type}.
Definition AddReaderEntry (txId : string) (e : Entry) (r : gmap string (list Entry)) : Z * gmap string (list Entry) :=
  let l := default [] (r !! txId) ++ [e] in (Z.of_nat (length l) - 1, <[txId := l]> r).
Definition GetReaderEntry (txId : string) (idx : Z) (r : gmap string (list Entry)) : outcome (option Entry) :=
  match r !! txId with
  | None => Ok None
  | Some l => if bool_decide (Z.of_nat (length l) ≤ idx) then Ok None else Some <$> slice_get l idx
  end.
End reader.

(** *** What the searches find *)

(** The order of a list, by a measure of its elements. *)
Definition rising {A} (m : A → Z) (l : list A) : Prop :=
  ∀ i j x y, (i ≤ j)%nat → l !! i = Some x → l !! j = Some y → m x ≤ m y.
Definition falling (l : list Z) : Prop :=
  ∀ i j x y, (i < j)%nat → l !! i = Some x → l !! j = Some y → y < x.

(** The search of the errors finds one close enough. *)
Lemma had_err c tx distance :
  falling c.(cl_Errors) →
  HadErrSinceTx tx distance c = true ↔
  ∃ e, e ∈ c.(cl_Errors) ∧ (e = tx ∨ e < tx ∧ tx - e < distance).
Proof.
  intros Hf. unfold HadErrSinceTx. set (es := cl_Errors c) in *. case_bool_decide as Hin.
  { split; [intros _; exists tx; auto|done]. }
  set (f := λ i, match es !! Z.to_nat i with Some e => bool_decide (e < tx) | None => false end).
  assert (Hup : upward f 0 (Z.of_nat (length es))).
  { intros a b Hab Hb. unfold f. destruct (es !! Z.to_nat a) as [x|] eqn:Ha; [|done].
    destruct (lookup_lt_is_Some_2 es (Z.to_nat b)) as [y Hy]; [lia|]. rewrite Hy, !bool_decide_eq_true.
    destruct (decide (a = b)) as [->|]; [by rewrite Ha in Hy; injection Hy as ->|].
    pose proof (Hf (Z.to_nat a) (Z.to_nat b) x y ltac:(lia) Ha Hy). lia. }
  destruct (search_loop_spec (Z.to_nat (Z.of_nat (length es))) f 0 (Z.of_nat (length es))) as (Hr & Hlo & Hhi);
    [lia..|exact Hup|]. fold (sort_Search (Z.of_nat (length es)) f) in *. set (r := sort_Search _ f) in *.
  assert (Hbelow : ∀ e, e ∈ es → e < tx → ∃ i, r ≤ Z.of_nat i ∧ es !! i = Some e).
  { intros e [i Hi]%list_elem_of_lookup_1 Hlt. exists i. split; [|done].
    destruct (decide (r ≤ Z.of_nat i)); [done|]. specialize (Hlo (Z.of_nat i) ltac:(lia)). unfold f in Hlo.
    rewrite Nat2Z.id, Hi, bool_decide_eq_false in Hlo. lia. }
  destruct (es !! Z.to_nat r) as [e|] eqn:He.
  - pose proof (lookup_lt_Some _ _ _ He). specialize (Hhi r ltac:(lia)) as Hfr. unfold f in Hfr.
    rewrite He, bool_decide_eq_true in Hfr. rewrite bool_decide_eq_true. split.
    + intros Hd. exists e. split; [by eapply list_elem_of_lookup_2|]. by right.
    + intros (e' & He' & [->|[Hlt Hd]]); [done|]. destruct (Hbelow e' He' Hlt) as (i & Hi & Hl).
      destruct (decide (Z.to_nat r = i)) as [<-|]; [rewrite He in Hl; injection Hl as ->; done|].
      pose proof (Hf (Z.to_nat r) i e e' ltac:(lia) He Hl). lia.
  - split; [done|]. intros (e' & He' & [->|[Hlt Hd]]); [done|]. destruct (Hbelow e' He' Hlt) as (i & Hi & Hl).
    apply lookup_lt_Some in Hl. apply lookup_ge_None_1 in He. lia.
Qed.

(** A search of a list by a property that stays true. *)
Lemma search_list {A} (l : list A) (p : A → bool) :
  (∀ i j x y, (i ≤ j)%nat → l !! i = Some x → l !! j = Some y → p x = true → p y = true) →
  let r := sort_Search (Z.of_nat (length l)) (λ i, match l !! Z.to_nat i with Some x => p x | None => false end) in
  0 ≤ r ≤ Z.of_nat (length l)
  ∧ (∀ i x, Z.of_nat i < r → l !! i = Some x → p x = false)
  ∧ (∀ i x, r ≤ Z.of_nat i → l !! i = Some x → p x = true).
Proof.
  intros Hp. set (f := λ i, match l !! Z.to_nat i with Some x => p x | None => false end).
  assert (Hup : upward f 0 (Z.of_nat (length l))).
  { intros a b Hab Hb Ha. unfold f in *. destruct (l !! Z.to_nat a) as [x|] eqn:Hx; [|done].
    destruct (lookup_lt_is_Some_2 l (Z.to_nat b)) as [y Hy]; [lia|]. rewrite Hy.
    eapply (Hp (Z.to_nat a) (Z.to_nat b)); [lia|done..]. }
  destruct (search_loop_spec (Z.to_nat (Z.of_nat (length l))) f 0 (Z.of_nat (length l))) as (Hr & Hlo & Hhi);
    [lia..|exact Hup|]. fold (sort_Search (Z.of_nat (length l)) f) in *. cbv zeta. split_and!; [lia..| |].
  - intros i x Hi Hx. specialize (Hlo (Z.of_nat i) ltac:(lia)). unfold f in Hlo. by rewrite Nat2Z.id, Hx in Hlo.
  - intros i x Hi Hx. pose proof (lookup_lt_Some _ _ _ Hx).
    specialize (Hhi (Z.of_nat i) ltac:(lia)). unfold f in Hhi. by rewrite Nat2Z.id, Hx in Hhi.
Qed.

Lemma tx_at_spec (p : RxTx → bool) c :
  c.(cl_MsgTxs) ≠ [] →
  (∀ i j x y, (i ≤ j)%nat → c.(cl_MsgTxs) !! i = Some x → c.(cl_MsgTxs) !! j = Some y → p x = true → p y = true) →
  ∃ x, c.(cl_MsgTxs) !! Z.to_nat (tx_at p c) = Some x ∧ 0 ≤ tx_at p c < len_txs c
    ∧ (∀ i y, Z.of_nat i < tx_at p c → c.(cl_MsgTxs) !! i = Some y → p y = false)
    ∧ (p x = true ∨ tx_at p c = len_txs c - 1).
Proof.
  intros Hne Hp. destruct (search_list _ p Hp) as (Hr & Hlo & Hhi). cbv zeta in *.
  unfold tx_at, len_txs in *. set (r := sort_Search _ _) in *.
  assert (0 < Z.of_nat (length (cl_MsgTxs c))) as Hl by (destruct (cl_MsgTxs c); [done|cbn; lia]).
  rewrite bool_decide_eq_false_2 by lia. case_bool_decide as Hrl.
  - destruct (lookup_lt_is_Some_2 (cl_MsgTxs c) (Z.to_nat (Z.of_nat (length (cl_MsgTxs c)) - 1))) as [x Hx]; [lia|].
    exists x. split_and!; [done|lia..| |by right]. intros i y Hi. apply Hlo. lia.
  - destruct (lookup_lt_is_Some_2 (cl_MsgTxs c) (Z.to_nat r)) as [x Hx]; [lia|].
    exists x. split_and!; [done|lia..|exact Hlo|]. left. apply (Hhi (Z.to_nat r)); [lia|done].
Qed.

(** The transition at a queue tick: every earlier one has a smaller tick; its
    own tick is at least the one asked for, unless none is. *)
Theorem TxAtQueueTick_spec qTick c :
  c.(cl_MsgTxs) ≠ [] → rising (λ x, x.(rx_Msg).(mx_QueueTick)) c.(cl_MsgTxs) →
  ∃ x, Tx (TxAtQueueTick qTick c) c = Some x
    ∧ (∀ i y, Z.of_nat i < TxAtQueueTick qTick c → c.(cl_MsgTxs) !! i = Some y → y.(rx_Msg).(mx_QueueTick) < qTick)
    ∧ (qTick ≤ x.(rx_Msg).(mx_QueueTick) ∨ ∀ y, y ∈ c.(cl_MsgTxs) → y.(rx_Msg).(mx_QueueTick) < qTick).
Proof.
  intros Hne Hri. unfold TxAtQueueTick.
  set (p := λ x : RxTx, bool_decide (qTick ≤ x.(rx_Msg).(mx_QueueTick))).
  destruct (tx_at_spec p c Hne) as (x & Hx & Hr & Hlo & Hhi).
  { intros i j y z Hij Hy Hz. unfold p. rewrite !bool_decide_eq_true. pose proof (Hri i j y z Hij Hy Hz). cbn in *. lia. }
  exists x. split_and!.
  - unfold Tx, at_index. rewrite bool_decide_eq_false_2 by lia. done.
  - intros i y Hi Hy. specialize (Hlo i y Hi Hy). unfold p in Hlo. rewrite bool_decide_eq_false in Hlo. lia.
  - destruct (decide (qTick ≤ x.(rx_Msg).(mx_QueueTick))) as [|Hgt]; [by left|]. right.
    destruct Hhi as [Hpx|Hlast]; [unfold p in Hpx; rewrite bool_decide_eq_true in Hpx; lia|].
    intros y [i Hy]%list_elem_of_lookup_1. pose proof (lookup_lt_Some _ _ _ Hy). unfold len_txs in *.
    pose proof (Hri i (Z.to_nat (tx_at p c)) y x ltac:(lia) Hy Hx). cbn in *. lia.
Qed.

(** The transition at a machine time, or the first one. *)
Theorem TxAtMachTime_spec sum c :
  rising pa_TimeSum c.(cl_MsgTxsParsed) →
  (∃ p, TxParsed (TxAtMachTime sum c) c = Some p ∧ p.(pa_TimeSum) = sum)
  ∨ TxAtMachTime sum c = 0 ∧ ∀ p, p ∈ c.(cl_MsgTxsParsed) → p.(pa_TimeSum) ≠ sum.
Proof.
  intros Hri. unfold TxAtMachTime, BinarySearch. set (l := cl_MsgTxsParsed c) in *.
  destruct (search_list l (λ p, negb (bool_decide (pa_TimeSum p < sum)))) as (Hr & Hlo & Hhi).
  { intros i j x y Hij Hx Hy. rewrite !negb_true_iff, !bool_decide_eq_false. pose proof (Hri i j x y Hij Hx Hy). lia. }
  cbv zeta in *. set (r := sort_Search _ _) in *.
  assert (Hmiss : ∀ p, p ∈ l → pa_TimeSum p = sum → ∃ i, r ≤ Z.of_nat i ∧ l !! i = Some p).
  { intros p [i Hi]%list_elem_of_lookup_1 Hs. exists i. split; [|done]. destruct (decide (r ≤ Z.of_nat i)); [done|].
    specialize (Hlo i p ltac:(lia) Hi). rewrite negb_false_iff, bool_decide_eq_true in Hlo. lia. }
  destruct (l !! Z.to_nat r) as [x|] eqn:Hx.
  - pose proof (lookup_lt_Some _ _ _ Hx). rewrite bool_decide_eq_true_2 by lia. cbn. case_bool_decide as He.
    + left. exists x. split; [|done]. unfold TxParsed, at_index. rewrite bool_decide_eq_false_2 by lia. done.
    + right. split; [done|]. intros p Hp Hs. destruct (Hmiss p Hp Hs) as (i & Hi & Hip).
      pose proof (Hri (Z.to_nat r) i x p ltac:(lia) Hx Hip). specialize (Hhi (Z.to_nat r) x ltac:(lia) Hx).
      rewrite negb_true_iff, bool_decide_eq_false in Hhi. lia.
  - right. split; [done|]. intros p Hp Hs. destruct (Hmiss p Hp Hs) as (i & Hi & Hip).
    apply lookup_lt_Some in Hip. apply lookup_ge_None_1 in Hx. lia.
Qed.
End Client.

(** ** Addresses of transitions *)
Module Addr.

(** [MachAddress]; [None]: the zero time. *)
Record MachAddress := mkAddress {
  ma_MachId : string;
  ma_TxId : string;
  ma_Step : Z;
  ma_MachTime : Z;
  ma_QueueTick : Z;
  ma_HumanTime : option Z;
  ma_Group : string;
  ma_State : string;
}.

Definition Clone (a : MachAddress) : MachAddress :=
  mkAddress a.(ma_MachId) a.(ma_TxId) a.(ma_Step) a.(ma_MachTime) 0 None "" "".

(** A byte by its code. *)
Definition chr (n : nat) : Ascii.ascii := Ascii.ascii_of_nat n.

(** [strings.ReplaceAll] of a byte by nothing. *)
Fixpoint without_byte (c : Ascii.ascii) (s : string) : string :=
  match s with
  | EmptyString => EmptyString
  | String.String d s => if Ascii.eqb c d then without_byte c s else String.String d (without_byte c s)
  end.

(** [strings.Cut] at a byte. *)
Fixpoint cut_at (c : Ascii.ascii) (s : string) : string * option string :=
  match s with
  | EmptyString => (EmptyString, None)
  | String.String d s =>
      if Ascii.eqb c d then (EmptyString, Some s)
      else let '(a, b) := cut_at c s in (String.String d a, b)
  end.

Definition NormalizeGroupName (name : string) : string :=
  TrimSuffix (without_byte (chr 32) (without_byte (chr 45) (cut_at (chr 58) name).1)) "StatesDef".

Section text.
(** The text of a time, and the reading of it. *)
Context (time_String : Z → string) (time_Parse : string → option Z).

Definition StringBase (a : option MachAddress) : string :=
  match a with
  | None => ""
  | Some a =>
      if bool_decide (a.(ma_MachId) = "") then ""
      else
        let ret := "mach://" +:+ a.(ma_MachId) in
        if negb (bool_decide (a.(ma_TxId) = ""))
        then ret +:+ "/" +:+ a.(ma_TxId)
             +:+ (if bool_decide (a.(ma_Step) = 0) then "" else "/" +:+ pretty a.(ma_Step))
        else if negb (bool_decide (a.(ma_MachTime) = 0)) then ret +:+ "/?t=" +:+ pretty a.(ma_MachTime)
        else if negb (bool_decide (a.(ma_QueueTick) = 0)) then ret +:+ "/?q=" +:+ pretty a.(ma_QueueTick)
        else match a.(ma_HumanTime) with
             | Some t => ret +:+ "/?q=" +:+ time_String t
             | None => ""
             end
  end.

(** The parameters of an address, by name. *)
Definition params (a : MachAddress) : list (string * string) :=
  (if bool_decide (a.(ma_MachTime) = 0) then [] else [("t", pretty a.(ma_MachTime))])
  ++ (if bool_decide (a.(ma_QueueTick) = 0) then [] else [("q", pretty a.(ma_QueueTick))])
  ++ (match a.(ma_HumanTime) with Some t => [("ht", time_String t)] | None => [] end)
  ++ (if bool_decide (a.(ma_Group) = "") then [] else [("group", NormalizeGroupName a.(ma_Group))])
  ++ (if bool_decide (a.(ma_State) = "") then [] else [("state", a.(ma_State))]).

Definition param_text (p : string * string) : string := p.1 +:+ "=" +:+ p.2.

Definition Address_String (a : MachAddress) : string :=
  let ret := StringBase (Some a) in
  match params a with
  | [] => ret
  | get => ret +:+ "?" +:+ jw (sort_Strings (param_text <$> get)) "&"
  end.

(** [url.Parse]: host, path and query, of addresses without escapes, users and
    ports. *)
Definition url_Parse (u : string) : string * string * string :=
  let u := (cut_at (chr 35) u).1 in
  match cut_at (chr 58) u with
  | (_, None) => ("", (cut_at (chr 63) u).1, default "" (cut_at (chr 63) u).2)
  | (_, Some rest) =>
      let '(rest, q) := cut_at (chr 63) rest in
      if negb (HasPrefix rest "//") then ("", "", default "" q)
      else
        let '(host, path) := cut_at (chr 47) (TrimPrefix rest "//") in
        (host, match path with Some p => "/" +:+ p | None => "" end, default "" q)
  end.

(** [url.ParseQuery], without escapes: the first value of a name. *)
Definition query_Get (q key : string) : string :=
  let value (kv : string) := cut_at (chr 61) kv in
  match list_find (λ kv, kv ≠ "" ∧ (value kv).1 = key) (Split q "&") with
  | Some (_, kv) => default "" (value kv).2
  | None => ""
  end.

(** [strconv.ParseUint] and [strconv.Atoi], [None] for errors. *)
Definition ParseUint (s : string) : option Z :=
  if bool_decide (s = "") then None
  else v ← Kit.digits 0 s; if bool_decide (v < 2 ^ 64) then Some v else None.
Definition parse_int (s : string) : option Z :=
  let in_range v := if bool_decide (- 2 ^ 63 ≤ v < 2 ^ 63) then Some v else None in
  let unsigned s := if bool_decide (s = "") then None else Kit.digits 0 s in
  match s with
  | EmptyString => None
  | String.String c rest =>
      match Ascii.nat_of_ascii c with
      | 45%nat => v ← unsigned rest; in_range (- v)
      | 43%nat => v ← unsigned rest; in_range v
      | _ => v ← unsigned s; in_range v
      end
  end.

Definition ParseMachUrl (u : string) : string + MachAddress :=
  let '(host, path, query) := url_Parse u in
  if bool_decide (host = "") then inl ("mach ID missing in: " +:+ u)
  else
    let p := Split path "/" in
    let uint key := default 0 (ParseUint (query_Get query key)) in
    inr (mkAddress host (default "" (p !! 1%nat)) (default 0 (p !! 2%nat ≫= parse_int))
           (uint "t") (uint "q") (time_Parse (query_Get query "ht"))
           (query_Get query "group") (query_Get query "state")).
End text.

(** *** Reading back *)

Lemma cut_free c s : free_of c s = true → cut_at c s = (s, None).
Proof.
  induction s as [|d s IH]; [done|]. cbn. intros [Hd%negb_true_iff Hs]%andb_prop. by rewrite (IH Hs), Hd.
Qed.

Lemma cut_mid c s t : free_of c s = true → cut_at c (s +:+ String.String c t) = (s, Some t).
Proof.
  induction s as [|d s IH]; simpl; [by rewrite Ascii.eqb_refl|].
  intros [Hd%negb_true_iff Hs]%andb_prop. by rewrite (IH Hs), Hd.
Qed.

Lemma free_app c s t : free_of c (s +:+ t) = free_of c s && free_of c t.
Proof. induction s as [|d s IH]; [done|]. simpl. by rewrite IH, andb_assoc. Qed.

Lemma split_join c l cur :
  l ≠ [] → Forall (λ s, free_of c s = true) l →
  split_from (String.String c "") (jw l (String.String c "")) cur 0 = match l with s :: l => (cur +:+ s) :: l | [] => [] end.
Proof.
  revert cur. induction l as [|s l IH]; intros cur Hne Hf; [done|]. apply Forall_cons in Hf as [Hs Hf].
  destruct l as [|s' l].
  - cbn. rewrite <- (app_empty_r s) at 1. rewrite split_free by done. done.
  - specialize (IH "" ltac:(done) Hf).
    change (jw (s :: s' :: l) (String.String c "")) with (s +:+ (String.String c "" +:+ jw (s' :: l) (String.String c ""))).
    set (rest := jw (s' :: l) _) in *. rewrite split_free by done. simpl.
    destruct (Ascii.ascii_dec c c); [|done]. replace (String.prefix "" ("" +:+ rest)) with true by (by destruct rest).
    change ("" +:+ rest) with rest. by rewrite IH.
Qed.

Lemma Split_jw c l :
  l ≠ [] → Forall (λ s, free_of c s = true) l → Split (jw l (String.String c "")) (String.String c "") = l.
Proof. intros Hne Hf. unfold Split. rewrite split_join by done. by destruct l. Qed.

Lemma jw_free c sep l : free_of c sep = true → Forall (λ s, free_of c s = true) l → free_of c (jw l sep) = true.
Proof.
  intros Hsep. induction l as [|s l IH]; [done|]. intros [Hs Hl]%Forall_cons. destruct l as [|s' l]; [done|].
  change (jw (s :: s' :: l) sep) with (s +:+ (sep +:+ jw (s' :: l) sep)). by rewrite !free_app, Hs, Hsep, IH.
Qed.

(** Numbers are written with digits. *)
Lemma digit_char (x : N) : (x < 10)%N → Kit.digit (pretty_N_char x) = Some (Z.of_N x).
Proof.
  intros Hx. assert (x ∈ [0; 1; 2; 3; 4; 5; 6; 7; 8; 9]%N) as Hin by (rewrite !elem_of_cons; lia).
  repeat (apply elem_of_cons in Hin as [->|Hin]; [reflexivity|]). by apply not_elem_of_nil in Hin.
Qed.

Lemma digits_go x s : Kit.digits 0 (pretty_N_go x s) = Kit.digits (Z.of_N x) s.
Proof.
  revert s. induction (N.lt_wf_0 x) as [x _ IH]; intros s.
  destruct (decide (x = 0)%N) as [->|Hx]; [by rewrite pretty_N_go_0|].
  rewrite pretty_N_go_step by lia. rewrite IH by (apply N.div_lt; lia). cbn [Kit.digits].
  rewrite digit_char by (apply N.mod_lt; lia). cbn. f_equal. rewrite (N.div_mod x 10) at 3 by done. lia.
Qed.

Lemma digits_pretty z : 0 ≤ z → Kit.digits 0 (pretty z) = Some z.
Proof.
  intros Hz. destruct z as [|p|p]; [done| |lia]. unfold pretty, pretty_Z, pretty, pretty_positive, pretty, pretty_N.
  rewrite decide_False by done. rewrite digits_go. done.
Qed.

Definition is_digit (c : Ascii.ascii) : bool := match Kit.digit c with Some _ => true | None => false end.

Lemma free_go c x s : is_digit c = false → free_of c (pretty_N_go x s) = free_of c s.
Proof.
  intros Hc. revert s. induction (N.lt_wf_0 x) as [x _ IH]; intros s.
  destruct (decide (x = 0)%N) as [->|Hx]; [by rewrite pretty_N_go_0|].
  rewrite pretty_N_go_step by lia. rewrite IH by (apply N.div_lt; lia). cbn [free_of].
  destruct (Ascii.eqb_spec c (pretty_N_char (x `mod` 10))) as [->|]; [|done].
  unfold is_digit in Hc. by rewrite digit_char in Hc by (apply N.mod_lt; lia).
Qed.

Lemma free_pretty c z : 0 ≤ z → is_digit c = false → free_of c (pretty z) = true.
Proof.
  intros Hz Hc. destruct z as [|p|p]; [|unfold pretty, pretty_Z, pretty, pretty_positive, pretty, pretty_N|lia].
  - change (negb (Ascii.eqb c (chr 48)) && true = true). by destruct (Ascii.eqb_spec c (chr 48)) as [->|].
  - rewrite decide_False by done. by rewrite free_go.
Qed.

Lemma pretty_first z : 0 ≤ z → pretty z ≠ "".
Proof. intros Hz He. pose proof (digits_pretty z Hz) as Hd. rewrite He in Hd. cbn in Hd. by injection Hd as <-. Qed.
(** Letters, digits, and the marks which a URL keeps as they are. *)
Definition plain_char (c : Ascii.ascii) : bool :=
  let n := Ascii.nat_of_ascii c in
  is_digit c || (Nat.leb 65 n && Nat.leb n 90) || (Nat.leb 97 n && Nat.leb n 122)
  || Nat.eqb n 45 || Nat.eqb n 95 || Nat.eqb n 46.
Fixpoint plain (s : string) : bool :=
  match s with
  | EmptyString => true
  | String.String c s => plain_char c && plain s
  end.

Lemma plain_free c s : plain_char c = false → plain s = true → free_of c s = true.
Proof.
  intros Hc. induction s as [|d s IH]; [done|]. simpl. intros [Hd Hs]%andb_prop. rewrite (IH Hs).
  destruct (Ascii.eqb_spec c d) as [->|]; [by rewrite Hd in Hc|done].
Qed.

(** The value of a name in the query made of parameters in any order. *)
Lemma query_find (ps : list (string * string)) l key :
  NoDup ps.*1 → Forall (λ p, free_of (chr 61) p.1 = true ∧ free_of (chr 38) p.1 = true ∧ free_of (chr 38) p.2 = true) ps →
  ps ≠ [] → l ≡ₚ param_text <$> ps →
  query_Get (jw l "&") key = match list_find (λ p, p.1 = key) ps with Some (_, p) => p.2 | None => "" end.
Proof.
  intros Hnd Hfree Hne Hl.
  assert (Hamp : Forall (λ s, free_of (chr 38) s = true) l).
  { rewrite Hl. apply Forall_fmap. eapply Forall_impl; [exact Hfree|]. intros p (_ & H1 & H2). cbn.
    unfold param_text. rewrite !free_app, H1, H2. done. }
  assert (l ≠ []) as Hl0 by (intros ->; apply Permutation_nil_l in Hl; by destruct ps).
  unfold query_Get. assert (Split (jw l "&") "&" = l) as -> by exact (Split_jw (chr 38) l Hl0 Hamp).
  assert (Hval : ∀ p, p ∈ ps → cut_at (chr 61) (param_text p) = (p.1, Some p.2)).
  { intros p Hp. rewrite Forall_forall in Hfree. destruct (Hfree p Hp) as [H1 _].
    unfold param_text. apply cut_mid. done. }
  assert (Hin : ∀ kv, kv ∈ l → ∃ p, p ∈ ps ∧ kv = param_text p).
  { intros kv Hkv. rewrite Hl in Hkv. apply list_elem_of_fmap in Hkv as (p & -> & Hp). eauto. }
  destruct (list_find _ l) as [[i kv]|] eqn:Hf.
  - apply list_find_Some in Hf as (Hi & [_ Hk] & _). apply list_elem_of_lookup_2 in Hi.
    destruct (Hin kv Hi) as (p & Hp & ->). rewrite (Hval p Hp) in Hk |- *. cbn in Hk |- *.
    destruct (list_find (λ p : string * string, p.1 = key) ps) as [[j p']|] eqn:Hf'.
    + apply list_find_Some in Hf' as (Hj & Hk' & _).
      apply list_elem_of_lookup_1 in Hp as [k Hp].
      assert (j = k) as ->; [|by rewrite Hp in Hj; injection Hj as ->].
      eapply (NoDup_lookup ps.*1); [done|rewrite list_lookup_fmap, Hj; done|rewrite list_lookup_fmap, Hp; cbn; by rewrite Hk, Hk'].
    + apply list_find_None in Hf'. rewrite Forall_forall in Hf'. by destruct (Hf' p Hp).
  - destruct (list_find (λ p : string * string, p.1 = key) ps) as [[j p']|] eqn:Hf'; [|done].
    apply list_find_Some in Hf' as (Hj & Hk' & _). apply list_elem_of_lookup_2 in Hj.
    apply list_find_None in Hf. rewrite Forall_forall in Hf.
    destruct (Hf (param_text p')).
    + rewrite Hl. by apply list_elem_of_fmap_2.
    + rewrite (Hval p' Hj). split; [|done]. unfold param_text. intros He. by destruct p'.1.
Qed.

Lemma parse_int_pretty z : 0 ≤ z < 2 ^ 63 → parse_int (pretty z) = Some z.
Proof.
  intros Hz. pose proof (digits_pretty z ltac:(lia)) as Hd.
  pose proof (free_pretty (chr 45) z ltac:(lia) eq_refl) as Hm.
  pose proof (free_pretty (chr 43) z ltac:(lia) eq_refl) as Hp.
  pose proof (pretty_first z ltac:(lia)) as Hne. unfold parse_int.
  destruct (pretty z) as [|c r]; [done|]. cbv zeta. rewrite bool_decide_eq_false_2 by done. rewrite Hd. cbn [mbind option_bind].
  rewrite (bool_decide_eq_true_2 (- 2 ^ 63 ≤ z < 2 ^ 63)) by lia. cbn in Hm, Hp.
  destruct c as [[] [] [] [] [] [] [] []]; try done.
Qed.

Lemma ParseUint_pretty z : 0 ≤ z < 2 ^ 64 → ParseUint (pretty z) = Some z.
Proof.
  intros Hz. unfold ParseUint. rewrite bool_decide_eq_false_2 by (apply pretty_first; lia).
  rewrite digits_pretty by lia. cbn. by rewrite bool_decide_eq_true_2 by lia.
Qed.

(** An address which [url.Parse] takes without escapes. *)
Record clean (a : MachAddress) : Prop := mkClean {
  cn_id : a.(ma_MachId) ≠ "" ∧ plain a.(ma_MachId) = true;
  cn_tx : a.(ma_TxId) ≠ "" ∧ plain a.(ma_TxId) = true;
  cn_step : 0 ≤ a.(ma_Step) < 2 ^ 63;
  cn_mach : 0 ≤ a.(ma_MachTime) < 2 ^ 64;
  cn_queue : 0 ≤ a.(ma_QueueTick) < 2 ^ 64;
  cn_human : a.(ma_HumanTime) = None;
  cn_group : plain (NormalizeGroupName a.(ma_Group)) = true;
  cn_state : plain a.(ma_State) = true;
}.

Definition path_of (a : MachAddress) : list string :=
  "" :: a.(ma_TxId) :: if bool_decide (a.(ma_Step) = 0) then [] else [pretty a.(ma_Step)].

Lemma StringBase_clean ts a :
  clean a → StringBase ts (Some a) = "mach://" +:+ a.(ma_MachId) +:+ jw (path_of a) "/".
Proof.
  intros [[Hid _] [Htx _] ? ? ? ? ? ?]. unfold StringBase, path_of.
  rewrite (bool_decide_eq_false_2 _ Hid), (bool_decide_eq_false_2 _ Htx). cbn [negb].
  case_bool_decide; rewrite app_assoc_str; [by rewrite app_empty_r|done].
Qed.

(** The base of an address does not end early. *)
Lemma path_free c a :
  clean a → plain_char c = false → c ≠ chr 47 → free_of c (jw (path_of a) "/") = true.
Proof.
  intros [_ [_ Htx] ? ? ? ? ? ?] Hc Hs. unfold path_of.
  assert (Ascii.eqb c (chr 47) = false) as H47 by by destruct (Ascii.eqb_spec c (chr 47)).
  assert (is_digit c = false) as Hd by (unfold plain_char in Hc; by destruct (is_digit c)).
  pose proof (plain_free c _ Hc Htx) as Hf. pose proof (free_pretty c a.(ma_Step) ltac:(lia) Hd) as Hp.
  assert (free_of c "/" = true) as Hslash by (change (negb (Ascii.eqb c (chr 47)) && true = true); by rewrite H47).
  case_bool_decide.
  - change (free_of c ("/" +:+ ma_TxId a) = true). by rewrite free_app, Hslash, Hf.
  - change (free_of c ("/" +:+ ma_TxId a +:+ "/" +:+ pretty (ma_Step a)) = true).
    by rewrite !free_app, Hslash, Hf, Hp.
Qed.

Lemma path_parts a : clean a → Split (jw (path_of a) "/") "/" = path_of a.
Proof.
  intros [_ [_ Htx] ? ? ? ? ? ?]. apply (Split_jw (chr 47)); [done|]. unfold path_of.
  pose proof (plain_free (chr 47) _ eq_refl Htx). pose proof (free_pretty (chr 47) a.(ma_Step) ltac:(lia) eq_refl).
  case_bool_decide; repeat constructor; done.
Qed.

(** Host, path and query of a clean address. *)
Lemma url_Parse_clean a q :
  clean a → free_of (chr 35) (default "" q) = true →
  url_Parse ("mach://" +:+ a.(ma_MachId) +:+ jw (path_of a) "/" +:+ match q with Some q => "?" +:+ q | None => "" end)
  = (a.(ma_MachId), jw (path_of a) "/", default "" q).
Proof.
  intros Ha Hq. pose proof (cn_id a Ha) as [_ Hid].
  pose proof (path_free (chr 35) a Ha eq_refl ltac:(done)) as H35.
  pose proof (path_free (chr 63) a Ha eq_refl ltac:(done)) as H63.
  assert (∃ p, jw (path_of a) "/" = "/" +:+ p) as [p Hp].
  { unfold path_of. case_bool_decide; by eexists. }
  rewrite Hp in *. set (m := ma_MachId a) in *.
  set (rest := "//" +:+ m +:+ ("/" +:+ p) +:+ match q with Some q => "?" +:+ q | None => "" end).
  assert (Hfree : free_of (chr 35) ("mach:" +:+ rest) = true).
  { unfold rest. assert (free_of (chr 35) p = true) as H by exact H35.
    rewrite !free_app, H, (plain_free (chr 35) _ eq_refl Hid).
    destruct q; cbn -[free_of]; rewrite ?free_app; cbn in Hq; by rewrite ?Hq. }
  change ("mach://" +:+ _) with ("mach:" +:+ rest). unfold url_Parse.
  rewrite (cut_free (chr 35)) by exact Hfree. cbn [fst].
  assert (cut_at (chr 58) ("mach:" +:+ rest) = ("mach", Some rest)) as -> by exact (cut_mid (chr 58) "mach" rest eq_refl).
  assert (Hcut : cut_at (chr 63) rest = ("//" +:+ m +:+ "/" +:+ p, q)).
  { unfold rest. assert (free_of (chr 63) ("//" +:+ m +:+ "/" +:+ p) = true) as Hf.
    { assert (free_of (chr 63) p = true) as H by exact H63.
      by rewrite !free_app, H, (plain_free (chr 63) _ eq_refl Hid). }
    destruct q as [q|].
    - rewrite <- (cut_mid (chr 63) ("//" +:+ m +:+ "/" +:+ p) q) by done. f_equal. by rewrite !app_assoc_str.
    - rewrite app_empty_r. by apply cut_free. }
  rewrite Hcut. assert (HasPrefix ("//" +:+ m +:+ "/" +:+ p) "//" = true) as Hpre by apply prefix_app.
  assert (TrimPrefix ("//" +:+ m +:+ "/" +:+ p) "//" = m +:+ "/" +:+ p) as ->.
  { unfold TrimPrefix. rewrite Hpre. apply (substring_drop "//"). }
  rewrite Hpre. cbn [negb].
  assert (cut_at (chr 47) (m +:+ "/" +:+ p) = (m, Some p)) as -> by exact (cut_mid (chr 47) m p (plain_free (chr 47) m eq_refl Hid)).
  done.
Qed.

(** The parameters of a clean address. *)
Lemma params_clean ts a :
  clean a →
  NoDup (params ts a).*1
  ∧ Forall (λ p, free_of (chr 61) p.1 = true ∧ free_of (chr 38) p.1 = true ∧ free_of (chr 38) p.2 = true
                 ∧ free_of (chr 35) p.1 = true ∧ free_of (chr 35) p.2 = true) (params ts a)
  ∧ ∀ key, match list_find (λ p, p.1 = key) (params ts a) with Some (_, p) => p.2 | None => "" end
           = if bool_decide (key = "t") then (if bool_decide (a.(ma_MachTime) = 0) then "" else pretty a.(ma_MachTime))
             else if bool_decide (key = "q") then (if bool_decide (a.(ma_QueueTick) = 0) then "" else pretty a.(ma_QueueTick))
             else if bool_decide (key = "group") then NormalizeGroupName a.(ma_Group)
             else if bool_decide (key = "state") then a.(ma_State) else "".
Proof.
  intros [_ _ _ Ht Hq Hh Hg Hs]. unfold params. rewrite Hh.
  assert (Hnum : ∀ z, 0 ≤ z → free_of (chr 38) (pretty z) = true ∧ free_of (chr 35) (pretty z) = true).
  { intros z Hz. split; by apply free_pretty. }
  destruct (Hnum a.(ma_MachTime)) as [? ?], (Hnum a.(ma_QueueTick)) as [? ?]; [lia..|].
  pose proof (plain_free (chr 38) _ eq_refl Hg). pose proof (plain_free (chr 35) _ eq_refl Hg).
  pose proof (plain_free (chr 38) _ eq_refl Hs). pose proof (plain_free (chr 35) _ eq_refl Hs).
  assert (a.(ma_Group) = "" → NormalizeGroupName a.(ma_Group) = "") as Hgr by by intros ->.
  generalize dependent (NormalizeGroupName (ma_Group a)); intros g Hg ? ? Hgr.
  repeat case_bool_decide; (split; [by apply (bool_decide_unpack _)|split; [by repeat constructor|]]);
    intros key; (repeat (case_bool_decide; [subst key; simpl; auto|])); try (by rewrite (Hgr ltac:(done)));
    cbn; by rewrite ?decide_False by auto.
Qed.

(** What reading finds in the parameters of a clean address. *)
Lemma params_read ts a q :
  clean a → (∀ key, query_Get q key = match list_find (λ p, p.1 = key) (params ts a) with Some (_, p) => p.2 | None => "" end) →
  default 0 (ParseUint (query_Get q "t")) = a.(ma_MachTime)
  ∧ default 0 (ParseUint (query_Get q "q")) = a.(ma_QueueTick)
  ∧ query_Get q "ht" = ""
  ∧ query_Get q "group" = NormalizeGroupName a.(ma_Group)
  ∧ query_Get q "state" = a.(ma_State).
Proof.
  intros Ha Hq. destruct (params_clean ts a Ha) as (_ & _ & Hfind).
  assert (Hnum : ∀ z, 0 ≤ z < 2 ^ 64 → default 0 (ParseUint (if bool_decide (z = 0) then "" else pretty z)) = z).
  { intros z Hz. destruct (bool_decide_reflect (z = 0)) as [->|]; [done|]. by rewrite ParseUint_pretty. }
  rewrite !Hq, !Hfind. cbn [bool_decide decide_rel]. simpl.
  split_and!; [apply Hnum, Ha|apply Hnum, Ha|done..].
Qed.

(** C30: Nothing of an address is lost. *)
Lemma Address_round (ts : Z → string) (tp : string → option Z) a :
  clean a → tp "" = None →
  ParseMachUrl tp (Address_String ts a)
  = inr (mkAddress a.(ma_MachId) a.(ma_TxId) a.(ma_Step) a.(ma_MachTime) a.(ma_QueueTick) None
           (NormalizeGroupName a.(ma_Group)) a.(ma_State)).
Proof.
  intros Ha Htp. destruct (params_clean ts a Ha) as (Hnd & Hfree & _).
  set (q := match params ts a with [] => None | get => Some (jw (sort_Strings (param_text <$> get)) "&") end).
  assert (Hs : Address_String ts a
    = "mach://" +:+ a.(ma_MachId) +:+ jw (path_of a) "/" +:+ match q with Some q => "?" +:+ q | None => "" end).
  { unfold Address_String, q. rewrite (StringBase_clean ts a Ha).
    destruct (params ts a); [by rewrite !app_empty_r|]. by rewrite !app_assoc_str. }
  assert (Hfind : ∀ key, query_Get (default "" q) key
    = match list_find (λ p, p.1 = key) (params ts a) with Some (_, p) => p.2 | None => "" end).
  { intros key. unfold q. destruct (params ts a) as [|p ps] eqn:Hp; [done|]. rewrite <- Hp in *. cbn [default from_option id].
    apply query_find; [done| |by rewrite Hp|apply sort_Strings_perm].
    eapply Forall_impl; [exact Hfree|]. naive_solver. }
  assert (H35 : free_of (chr 35) (default "" q) = true).
  { unfold q. destruct (params ts a) as [|p ps] eqn:Hp; [done|]. rewrite <- Hp in *. cbn [default from_option id].
    apply jw_free; [done|]. rewrite sort_Strings_perm. apply Forall_fmap.
    eapply Forall_impl; [exact Hfree|]. intros p' (_ & _ & _ & H1 & H2). cbn. unfold param_text.
    by rewrite !free_app, H1, H2. }
  destruct (params_read ts a (default "" q) Ha Hfind) as (H1 & H2 & H3 & H4 & H5).
  unfold ParseMachUrl. rewrite Hs, (url_Parse_clean a q Ha H35).
  rewrite (bool_decide_eq_false_2 (ma_MachId a = "")) by apply Ha. cbv zeta.
  rewrite (path_parts a Ha), H1, H2, H3, H4, H5, Htp. unfold path_of. cbn [lookup list_lookup].
  do 2 f_equal. case_bool_decide as H0; [by rewrite H0|]. cbn. by rewrite parse_int_pretty by apply Ha.
Qed.

(** Without a transition the time is written twice, and read as none. *)
Lemma time_lost :
  Address_String (λ _, "") (mkAddress "m" "" 0 5 0 None "" "") = "mach://m/?t=5?t=5"
  ∧ ParseMachUrl (λ _, None) "mach://m/?t=5?t=5" = inr (mkAddress "m" "" 0 0 0 None "" "").
Proof. by vm_compute. Qed.

Lemma Address_round_witness :
  clean (mkAddress "m" "tx" 3 5 7 None "A-StatesDef" "Foo")
  ∧ ParseMachUrl (λ _, None) (Address_String (λ _, "") (mkAddress "m" "tx" 3 5 7 None "A-StatesDef" "Foo"))
    = inr (mkAddress "m" "tx" 3 5 7 None "A" "Foo").
Proof.
  assert (Hc : clean (mkAddress "m" "tx" 3 5 7 None "A-StatesDef" "Foo")) by (split; try split; cbn; try lia; done).
  split; [exact Hc|]. exact (Address_round (λ _, "") (λ _, None) _ Hc eq_refl).
Defined.
End Addr.
