(* ===== verification/DbgView.v ===== *)
(** * The debugger's view of its clients ([src/tools/debugger/debugger.go])

    What is done with the clients of [DbgClient]: filters and the cursor that
    skips what they leave out, the history of addresses (Module [View]), and
    messages as they are parsed (Module [Parse]).  The machine of the debugger is
    its set of active states and the mutations asked of it, in order; what is
    drawn on the screen, files and logs are left out. *)

From S2P Require Import Prelude StateList SchemaDef MachTime Mutation Machine GoStrings Logging Dbg NetMach Requests Effects Shipped DbgClient.
Import Client Addr.

#[local] Open Scope Z_scope.

(** ** Filters, cursors, history and messages *)
Module View.

(** *** Filters *)

Record Filters := mkFilters {
  f_SkipCanceledTx : bool;
  f_SkipAutoTx : bool;
  f_SkipAutoCanceledTx : bool;
  f_SkipEmptyTx : bool;
  f_SkipHealthTx : bool;
  f_SkipQueuedTx : bool;
  f_SkipOutGroup : bool;
  f_SkipChecks : bool;
  f_LogLevel : Z;
  f_SkipRpcMach : bool;
}.

Definition Filters_Equal (f g : option Filters) : bool :=
  match f, g with
  | Some f, Some g =>
      eqb f.(f_SkipCanceledTx) g.(f_SkipCanceledTx) && eqb f.(f_SkipAutoTx) g.(f_SkipAutoTx)
      && eqb f.(f_SkipAutoCanceledTx) g.(f_SkipAutoCanceledTx) && eqb f.(f_SkipEmptyTx) g.(f_SkipEmptyTx)
      && eqb f.(f_SkipHealthTx) g.(f_SkipHealthTx) && eqb f.(f_SkipQueuedTx) g.(f_SkipQueuedTx)
      && eqb f.(f_SkipOutGroup) g.(f_SkipOutGroup) && eqb f.(f_SkipChecks) g.(f_SkipChecks)
      && bool_decide (f.(f_LogLevel) = g.(f_LogLevel)) && eqb f.(f_SkipRpcMach) g.(f_SkipRpcMach)
  | _, _ => false
  end.

(** [on]: the active states of the debugger's machine. *)
Definition filtersFromStates (on : gset string) : Filters :=
  let set s := bool_decide (s ∈ on) in
  mkFilters (set "FilterCanceledTx") (set "FilterAutoTx") (set "FilterAutoCanceledTx") (set "FilterEmptyTx")
    (set "FilterHealth") (set "FilterQueuedTx") (set "FilterOutGroup") (set "FilterChecks") 0 (set "FilterRpcMachs").

(** Mutations, in order: a state to add, or to remove. *)
Definition statesFromFilters (f : Filters) : list (bool * string) :=
  [(f.(f_SkipCanceledTx), "FilterCanceledTx"); (f.(f_SkipAutoTx), "FilterAutoTx");
   (f.(f_SkipAutoCanceledTx), "FilterAutoCanceledTx"); (f.(f_SkipEmptyTx), "FilterEmptyTx");
   (f.(f_SkipHealthTx), "FilterHealth"); (f.(f_SkipQueuedTx), "FilterQueuedTx");
   (f.(f_SkipOutGroup), "FilterOutGroup"); (f.(f_SkipChecks), "FilterChecks"); (f.(f_SkipRpcMach), "FilterRpcMachs")].

Definition filtersActive (on : gset string) : bool := existsb (λ s, bool_decide (s ∈ on)) SsDbg.groupFilters.

(** *** What passes the filters *)

Definition health : list string := ["Healthcheck"; "Heartbeat"].

Definition hFilterTx (c : Client) (idx : Z) (f : Filters) : outcome bool :=
  x ← slice_get c.(cl_MsgTxs) idx;
  let tx := x.(rx_Msg) in
  match TxParsed idx c with
  | None => Ok false
  | Some parsed =>
      called ← CalledStateNames tx c.(cl_MsgStruct).(ms_StatesIndex);
      later ←
        (if f.(f_SkipAutoTx) && tx.(mx_IsAuto) then Ok true
         else if f.(f_SkipAutoCanceledTx) && tx.(mx_IsAuto) && negb tx.(mx_Accepted) then Ok true
         else if f.(f_SkipAutoCanceledTx) && tx.(mx_IsAuto) && tx.(mx_IsQueued) then
           (executed ← TxExecutedBy idx c;
            Ok (match executed with Some y => negb y.(rx_Msg).(mx_Accepted) | None => false end))
         else Ok false);
      if later : bool then Ok false
      else if f.(f_SkipCanceledTx) && negb tx.(mx_Accepted) then Ok false
      else if f.(f_SkipQueuedTx) && tx.(mx_IsQueued) then Ok false
      else if f.(f_SkipChecks) && tx.(mx_IsCheck) then Ok false
      else if f.(f_SkipOutGroup) && negb (bool_decide (c.(cl_SelectedGroup) = ""))
              && bool_decide (StatesShared called (default [] (c.(cl_Schema).(sp_Groups) !! c.(cl_SelectedGroup))) = [])
           then Ok false
      else if f.(f_SkipEmptyTx) && bool_decide (parsed.(pa_TimeDiff) = 0) && negb tx.(mx_IsQueued) && tx.(mx_Accepted)
           then Ok false
      else if f.(f_SkipHealthTx) && bool_decide (length called = 1%nat)
              && match called with s :: _ => bool_decide (s ∈ health) | [] => false end
           then Ok false
      else Ok true
  end.

(** One round of the loop of [hFilterClientTxs]. *)
Definition filter_one (c : Client) (f : Filters) (acc : list Z) (i : Z) : outcome (list Z) :=
  match_ ← hFilterTx c i f; Ok (if match_ : bool then acc ++ [i] else acc).
Fixpoint filter_txs (c : Client) (f : Filters) (acc : list Z) (is_ : list Z) : outcome (list Z) :=
  match is_ with
  | [] => Ok acc
  | i :: is_ => acc ← filter_one c f acc i; filter_txs c f acc is_
  end.

Definition indexes (n : nat) : list Z := Z.of_nat <$> seq 0 n.

Definition hFilterClientTxs (on : gset string) (c : Client) : outcome Client :=
  if negb (filtersActive on) then Ok c
  else l ← filter_txs c (filtersFromStates on) [] (indexes (length c.(cl_MsgTxs))); Ok (set_filtered l c).

(** *** The cursor *)

Definition hIsTxSkipped (on : gset string) (c : Client) (idx : Z) : bool :=
  if negb (filtersActive on) then false
  else bool_decide (index_of c.(cl_MsgTxsFiltered) idx = -1).

(** The loop moves by one, so the messages and one more round are enough. *)
Fixpoint cursor_loop (fuel : nat) (on : gset string) (c : Client) (new : Z) (back : bool) : Z :=
  match fuel with
  | O => new
  | S fuel =>
      if bool_decide (new < 1) then 0
      else if bool_decide (len_txs c < new)
      then if negb (hIsTxSkipped on c (c.(cl_CursorTx1) - 1)) then c.(cl_CursorTx1) else 0
      else if hIsTxSkipped on c (new - 1)
           then cursor_loop fuel on c (if back then new - 1 else new + 1) back
           else new
  end.
Definition hFilterTxCursor1 (on : gset string) (c : Client) (newCursor1 : Z) (back : bool) : Z :=
  if negb (filtersActive on) then newCursor1
  else cursor_loop (S (length c.(cl_MsgTxs))) on c newCursor1 back.

Definition hCurrentTx (C : option Client) : outcome (option RxTx) :=
  match C with
  | None => Ok None
  | Some c =>
      if bool_decide (c.(cl_CursorTx1) = 0) || bool_decide (len_txs c < c.(cl_CursorTx1)) then Ok None
      else Some <$> slice_get c.(cl_MsgTxs) (c.(cl_CursorTx1) - 1)
  end.
Definition hCurrentTxParsed (C : option Client) : outcome (option MsgTxParsed) :=
  match C with
  | None => Ok None
  | Some c =>
      if bool_decide (c.(cl_CursorTx1) = 0) || bool_decide (Z.of_nat (length c.(cl_MsgTxsParsed)) < c.(cl_CursorTx1)) then Ok None
      else Some <$> slice_get c.(cl_MsgTxsParsed) (c.(cl_CursorTx1) - 1)
  end.
Definition hNextTxIdx (on : gset string) (C : option Client) : Z :=
  match C with None => -1 | Some c => hFilterTxCursor1 on c (c.(cl_CursorTx1) + 1) false - 1 end.
Definition hPrevTxIdx (on : gset string) (C : option Client) : Z :=
  match C with None => -1 | Some c => hFilterTxCursor1 on c (c.(cl_CursorTx1) - 1) true - 1 end.
Definition tx_or_nil (C : option Client) (idx : Z) : outcome (option RxTx) :=
  if bool_decide (idx < 0) then Ok None
  else match C with
       | Some c => Some <$> slice_get c.(cl_MsgTxs) idx
       | None => Panic "invalid memory address or nil pointer dereference"
       end.
Definition hNextTx (on : gset string) (C : option Client) := tx_or_nil C (hNextTxIdx on C).
Definition hPrevTx (on : gset string) (C : option Client) := tx_or_nil C (hPrevTxIdx on C).

Definition hGetMachAddress (C : option Client) : outcome (option MachAddress) :=
  match C with
  | None => Ok None
  | Some c =>
      tx ← (if bool_decide (0 < c.(cl_CursorTx1))
            then x ← slice_get c.(cl_MsgTxs) (c.(cl_CursorTx1) - 1);
                 Ok (x.(rx_Msg).(mx_ID), TimeSum x.(rx_Msg))
            else Ok ("", 0));
      Ok (Some (mkAddress c.(cl_Id) tx.1 0 tx.2 0 None c.(cl_SelectedGroup) c.(cl_SelectedState)))
  end.

(** *** The history *)

(** The entries, the newest first, and the position in them. *)
Record History := mkHistory { h_items : list MachAddress; h_cursor : Z }.

Definition hRemoveHistory (clientId : string) (h : History) : History :=
  let cursor := fold_left (λ cur i, if bool_decide (i ≤ cur) && bool_decide (0 < cur) then cur - 1 else cur)
                  (indexes (length h.(h_items))) h.(h_cursor) in
  mkHistory (filter (λ a, a.(ma_MachId) ≠ clientId) h.(h_items)) cursor.

Definition hTrimHistory (h : History) : History :=
  let items := if bool_decide (0 < h.(h_cursor))
               then drop (Z.to_nat (Z.min h.(h_cursor) (Z.of_nat (length h.(h_items))))) h.(h_items)
               else h.(h_items) in
  mkHistory (if bool_decide (100 < length items)%nat then drop 100 items else items) 0.

(** [ts]: the text of a time. *)
Definition hPrependHistory (ts : Z → string) (addr : MachAddress) (h : History) : History :=
  match h.(h_items) with
  | a :: _ =>
      if bool_decide (StringBase ts (Some a) = StringBase ts (Some addr)) then h
      else hTrimHistory (mkHistory (addr :: h.(h_items)) h.(h_cursor))
  | [] => hTrimHistory (mkHistory [addr] h.(h_cursor))
  end.

(** *** What the cursor shows *)

Lemma elem_of_indexes i n : i ∈ indexes n ↔ 0 ≤ i < Z.of_nat n.
Proof.
  unfold indexes. rewrite list_elem_of_fmap. split.
  - intros (k & -> & [? ?]%elem_of_seq). lia.
  - intros Hi. exists (Z.to_nat i). split; [lia|]. apply elem_of_seq. lia.
Qed.

Lemma filter_txs_spec c f is_ acc l :
  filter_txs c f acc is_ = Ok l →
  (∀ i, i ∈ l ↔ i ∈ acc ∨ i ∈ is_ ∧ hFilterTx c i f = Ok true) ∧ ∀ i, i ∈ is_ → ∃ b, hFilterTx c i f = Ok b.
Proof.
  revert acc. induction is_ as [|i is_ IH]; intros acc H; cbn in H.
  - injection H as <-. split; [set_solver|]. by intros i ?%not_elem_of_nil.
  - apply outcome_bind_ok in H as (acc' & Hone & H). apply outcome_bind_ok in Hone as (b & Hb & [= <-]).
    destruct (IH _ H) as [IH1 IH2]. split.
    + intros k. rewrite IH1, elem_of_cons. destruct b; rewrite ?elem_of_app, ?list_elem_of_singleton.
      * split; [intros [[?| ->]|[? ?]]; auto|intros [?|[[->|?] ?]]; auto].
      * split; [intros [?|[? ?]]; auto|intros [?|[[->|?] Hk]]; auto]. by rewrite Hb in Hk.
    + intros k [->|Hk]%elem_of_cons; eauto.
Qed.

Lemma skipped_spec on c i : filtersActive on = true → hIsTxSkipped on c i = false ↔ i ∈ c.(cl_MsgTxsFiltered).
Proof.
  intros Hon. unfold hIsTxSkipped. rewrite Hon. cbn. rewrite bool_decide_eq_false. split.
  - intros Hne. destruct (decide (i ∈ cl_MsgTxsFiltered c)); [done|]. by rewrite index_of_not_in in Hne.
  - intros Hin. destruct (index_of_in (cl_MsgTxsFiltered c) i Hin). lia.
Qed.

(** Backwards: the last one shown up to the position asked for.  Forwards: the
    first one from it, else the one the cursor is at. *)
Lemma cursor_loop_back fuel on c new :
  (Z.to_nat new < fuel)%nat → new ≤ len_txs c →
  let r := cursor_loop fuel on c new true in
  0 ≤ r ≤ Z.max 0 new ∧ (∀ k, r < k ≤ new → hIsTxSkipped on c (k - 1) = true)
  ∧ (r ≠ 0 → hIsTxSkipped on c (r - 1) = false).
Proof.
  revert new. induction fuel as [|fuel IH]; intros new Hf Hnew; [lia|]. cbn [cursor_loop].
  case_bool_decide; [split_and!; [lia..|lia|done]|]. rewrite bool_decide_eq_false_2 by lia.
  destruct (hIsTxSkipped on c (new - 1)) eqn:Hs; [|split_and!; [lia..|intros k Hk; lia|done]].
  destruct (IH (new - 1)) as (H1 & H2 & H3); [lia..|]. split_and!; [lia..| |exact H3].
  intros k Hk. destruct (decide (k = new)) as [->|]; [done|]. apply H2. lia.
Qed.

Lemma cursor_loop_fwd fuel on c new :
  (Z.to_nat (len_txs c + 1 - new) < fuel)%nat → 1 ≤ new →
  let r := cursor_loop fuel on c new false in
  (new ≤ r ≤ len_txs c ∧ hIsTxSkipped on c (r - 1) = false ∧ ∀ k, new ≤ k < r → hIsTxSkipped on c (k - 1) = true)
  ∨ (∀ k, new ≤ k ≤ len_txs c → hIsTxSkipped on c (k - 1) = true)
    ∧ (r = c.(cl_CursorTx1) ∧ hIsTxSkipped on c (r - 1) = false ∨ r = 0).
Proof.
  revert new. induction fuel as [|fuel IH]; intros new Hf Hnew; [lia|]. cbn [cursor_loop].
  rewrite bool_decide_eq_false_2 by lia. case_bool_decide.
  { right. split; [intros k Hk; lia|]. destruct (hIsTxSkipped _ _ _) eqn:Hs; cbn; auto. }
  destruct (hIsTxSkipped on c (new - 1)) eqn:Hs; [|left; split_and!; [lia..|done|intros k Hk; lia]].
  destruct (IH (new + 1)) as [(H1 & H2 & H3)|[H1 H2]]; [lia..| |].
  - left. split_and!; [lia..|done|]. intros k Hk. destruct (decide (k = new)) as [->|]; [done|]. apply H3. lia.
  - right. split; [|done]. intros k Hk. destruct (decide (k = new)) as [->|]; [done|]. apply H1. lia.
Qed.

End View.

(** ** Parsing messages *)
Module Parse.

(** Arguments of a mutation. *)
Inductive Arg :=
| AClient (id : string) | AConn (id : string) | ATx (id : string) | ACursor (n : Z) | ATrim | AFilterTxs
| ARebuildEnd (n : Z) | AId (id : string) | AState (name : string) | AFromConnected | AFromPlaying.

(** What is asked of the debugger's machine, graph and log. *)
Inductive Call :=
| CAdd (states : list string) (args : list Arg)
| CRemove (states : list string)
| CErr (text : string)
| CLog (text : string)
| CParseLog (id : string) (idx : Z)
| CGraphMsg (id : string) (msg : DbgMsgTx)
| CGraphClient (id : string)
| CGraphClear.

(** Goroutines: to go to an address, and the rest of selecting a client. *)
Inductive Go := GGoTo (machId txId : string) | GSelecting (wasTailMode fromConnected fromPlaying : bool).

Definition set_called (names : option (list string)) (idxs : list Z) (m : DbgMsgTx) : DbgMsgTx :=
  mkMsgTx m.(mx_MachineID) m.(mx_ID) m.(mx_Clocks) m.(mx_QueueTick) m.(mx_MutQueueToken) m.(mx_MutQueueTick) m.(mx_Type)
    names idxs m.(mx_Steps) m.(mx_LogEntries) m.(mx_PreLogEntries) m.(mx_Queue) m.(mx_IsAuto) m.(mx_Accepted)
    m.(mx_IsCheck) m.(mx_IsQueued) m.(mx_Args).
Definition set_steps (steps : list Step) (m : DbgMsgTx) : DbgMsgTx :=
  mkMsgTx m.(mx_MachineID) m.(mx_ID) m.(mx_Clocks) m.(mx_QueueTick) m.(mx_MutQueueToken) m.(mx_MutQueueTick) m.(mx_Type)
    m.(mx_CalledStates) m.(mx_CalledStatesIdxs) steps m.(mx_LogEntries) m.(mx_PreLogEntries) m.(mx_Queue) m.(mx_IsAuto)
    m.(mx_Accepted) m.(mx_IsCheck) m.(mx_IsQueued) m.(mx_Args).

(** States by number.  The deprecated data of steps is not looked at. *)
Definition pack_step (index : list string) (s : Step) : Step :=
  if bool_decide (s.(step_FromState) = "") && bool_decide (s.(step_ToState) = "") then s
  else mkStep s.(step_Type) s.(step_RelType) s.(step_IsFinal) s.(step_IsSelf) s.(step_IsEnter)
         "" (index_of index s.(step_FromState)) "" (index_of index s.(step_ToState)).
Definition pack (index : list string) (m : DbgMsgTx) : DbgMsgTx :=
  let m := match m.(mx_CalledStates) with
           | Some ((_ :: _) as names) => set_called None (StatesToIndexes index names) m
           | _ => m
           end in
  set_steps (pack_step index <$> m.(mx_Steps)) m.

(** A state of an error is active. *)
Fixpoint is_err (m : DbgMsgTx) (index names : list string) : outcome bool :=
  match names with
  | [] => Is1 m index StateException
  | name :: names =>
      if HasPrefix name PrefixErr
      then b ← Is1 m index name; if b : bool then Ok true else is_err m index names
      else is_err m index names
  end.

(** An empty time comes as none. *)
Definition time_of (l : list Z) : option (list Z) := match l with [] => None | _ => Some l end.

Section parse.
(** The graph is kept; calls are written, with the answer of doing so. *)
Context (graph outputCallLog : bool) (appendCallLog : DbgMsgTx → option string).
Context (on : gset string).

Definition set_msg (idx : Z) (m : DbgMsgTx) (c : Client) : Client :=
  set_txs (alter (λ x, mkRxTx m x.(rx_Time)) (Z.to_nat idx) c.(cl_MsgTxs)) c.

(** The message before. *)
Definition prev_of (c : Client) (idx : Z) : outcome (list Z * Z) :=
  if bool_decide (1 < len_txs c) && bool_decide (0 < idx)
  then
    x ← slice_get c.(cl_MsgTxs) (idx - 1);
    p ← slice_get c.(cl_MsgTxsParsed) (idx - 1);
    Ok (x.(rx_Msg).(mx_Clocks), p.(pa_TimeSum))
  else Ok ([], 0).

Definition hParseMsg (idx : Z) : held (Mem Client Call Go) () :=
  c ← peek;
  x ← hlift (slice_get c.(cl_MsgTxs) idx);
  let msg := x.(rx_Msg) in
  let index := c.(cl_MsgStruct).(ms_StatesIndex) in
  (if contains (ActiveStates msg index) "Disposed" then tell (CAdd ["DisconnectEvent"] [AConn c.(cl_ConnId)]) else mret ());;
  let sum := TimeSum msg in
  prev ← hlift (prev_of c idx);
  after ← hlift (Time.Sum msg.(mx_Clocks) None);
  before ← hlift (Time.Sum prev.1 None);
  if bool_decide (after < before) then
    tell (CErr "time after < time before");;
    put (λ c, set_parsed sum c.(cl_Errors) (c.(cl_MsgTxsParsed) ++ [mkParsed [] [] [] sum 0]) c)
  else
    sts ← hlift (Kit.GetTransitionStates (time_of prev.1) (time_of msg.(mx_Clocks)) msg.(mx_Steps) index);
    let '(added, removed, touched) := sts in
    let parsed := mkParsed (StatesToIndexes index added) (StatesToIndexes index removed)
                    (StatesToIndexes index touched) sum (wrap64 (sum - prev.2)) in
    let msg := pack index msg in
    put (set_msg idx msg);;
    err ← hlift (is_err msg index index);
    put (λ c, set_parsed sum (if err : bool then idx :: c.(cl_Errors) else c.(cl_Errors))
                (c.(cl_MsgTxsParsed) ++ [parsed]) c);;
    tell (CParseLog c.(cl_Id) idx);;
    (if graph then tell (CGraphMsg c.(cl_Id) msg) else mret ());;
    (if bool_decide ("Start" ∈ on) then tell (CAdd ["BuildingLog"] []) else mret ());;
    names ← hlift (IndexesToStates index msg.(mx_CalledStatesIdxs));
    let msg := set_called (Some names) msg.(mx_CalledStatesIdxs) msg in
    put (set_msg idx msg);;
    (if outputCallLog && negb (bool_decide (msg.(mx_Steps) = []))
     then match appendCallLog msg with Some e => tell (CErr e) | None => mret () end
     else mret ()).
End parse.

(** *** A message that can be read *)

(** Numbers of states it names are those of the index, or none. *)
Definition msg_ok (index : list string) (m : DbgMsgTx) : Prop :=
  Forall (λ i, 0 ≤ i < Z.of_nat (length index)) m.(mx_CalledStatesIdxs)
  ∧ Forall (λ s, -1 ≤ s.(step_FromStateIdx) ∧ -1 ≤ s.(step_ToStateIdx)) m.(mx_Steps).

Definition err_name (s : string) : bool := HasPrefix s PrefixErr || bool_decide (s = StateException).
Definition has_error (index : list string) (m : DbgMsgTx) : bool := existsb err_name (ActiveStates m index).

Lemma tick_of_msg_ok m i : 0 ≤ i → ∃ t, tick_of_msg m i = Ok t.
Proof.
  intros Hi. unfold tick_of_msg. case_bool_decide; [eauto|]. unfold slice_get. rewrite bool_decide_eq_true_2 by done.
  destruct (lookup_lt_is_Some_2 m.(mx_Clocks) (Z.to_nat i)) as [x ->]; [lia|eauto].
Qed.

Lemma Is1_active m index name :
  Is1 m index name = Ok (bool_decide (name ∈ ActiveStates m index)).
Proof.
  unfold Is1, Is, IsIdx. cbn [fmap list_fmap foldr]. unfold Index, ActiveStates.
  destruct (decide (name ∈ index)) as [Hin|Hout].
  - destruct (index_of_in index name Hin) as [Hge _]. rewrite bool_decide_eq_false_2 by lia.
    destruct (tick_of_msg_ok m (index_of index name) Hge) as [t Ht]. rewrite Ht. cbn.
    destruct (IsActiveTick t) eqn:Ha; f_equal; symmetry.
    + rewrite bool_decide_eq_true, elem_of_slicesFilter. by rewrite Ht, Ha.
    + rewrite bool_decide_eq_false, elem_of_slicesFilter. rewrite Ht, Ha. naive_solver.
  - rewrite index_of_not_in by done. rewrite bool_decide_eq_true_2 by done. f_equal. symmetry.
    rewrite bool_decide_eq_false, elem_of_slicesFilter. naive_solver.
Qed.

Lemma is_err_ok m index : is_err m index index = Ok (has_error index m).
Proof.
  assert (H : ∀ names, is_err m index names
    = Ok (existsb (λ s, HasPrefix s PrefixErr && bool_decide (s ∈ ActiveStates m index)) names
          || bool_decide (StateException ∈ ActiveStates m index))).
  { induction names as [|name names IH]; cbn [is_err existsb]; [by rewrite Is1_active|].
    rewrite IH. destruct (HasPrefix name PrefixErr); [|done]. rewrite Is1_active. cbn. by destruct (bool_decide (name ∈ _)). }
  rewrite H. f_equal. apply eq_bool_prop_intro. rewrite orb_True, bool_decide_spec. unfold has_error.
  rewrite !Is_true_true, !existsb_exists. unfold err_name. split.
  - intros [(s & Hs & [Hp Ha%bool_decide_eq_true]%andb_prop)|Hx].
    + exists s. split; [by apply list_elem_of_In|]. by rewrite Hp.
    + exists StateException. split; [by apply list_elem_of_In|]. rewrite (bool_decide_eq_true_2 _ eq_refl). apply orb_true_r.
  - intros (s & Hs%list_elem_of_In & [Hp|Hx%bool_decide_eq_true]%orb_prop); [|right; by subst].
    left. exists s. rewrite Hp, bool_decide_eq_true_2 by done. split; [|done]. apply list_elem_of_In.
    by apply elem_of_slicesFilter in Hs as [? _].
Qed.

Lemma step_state_ok name i index : -1 ≤ i → ∃ s, step_state name i index = Ok s.
Proof.
  intros Hi. unfold step_state. destruct (negb _); [eauto|]. case_bool_decide; [eauto|].
  case_bool_decide; [|eauto]. unfold slice_get. rewrite bool_decide_eq_true_2 by lia.
  destruct (lookup_lt_is_Some_2 index (Z.to_nat i)) as [s ->]; [lia|eauto].
Qed.

Lemma states_loop_ok before after i index added removed :
  0 ≤ i → ∃ r, Kit.states_loop before after i index added removed = Ok r.
Proof.
  assert (Htick : ∀ t j, 0 ≤ j → ∃ v, Time.Tick t j = Ok v).
  { intros t j Hj. unfold Time.Tick. case_bool_decide; [eauto|]. unfold slice_get. rewrite bool_decide_eq_true_2 by done.
    unfold len in *. destruct (lookup_lt_is_Some_2 t (Z.to_nat j)) as [v ->]; [lia|eauto]. }
  assert (Hact : ∀ t j, 0 ≤ j → ∃ b, Kit.active_at t j = Ok b).
  { intros [t|] j Hj; [|eauto]. cbn. destruct (Htick t j Hj) as [v ->]. eauto. }
  revert i added removed. induction index as [|name index IH]; intros i added removed Hi; cbn; [eauto|].
  destruct (Hact before i Hi) as [b ->], (Hact after i Hi) as [a ->]. cbn.
  destruct (b && negb a); [apply IH; lia|]. destruct (negb b && a); [apply IH; lia|].
  destruct before as [bt|]; [|apply IH; lia].
  destruct (Htick bt i Hi) as [v ->]. unfold Kit.tick_at. destruct (Htick (default [] after) i Hi) as [w ->].
  cbn. apply IH. lia.
Qed.

Lemma mapM_all_ok {A B} (f : A → outcome B) l : Forall (λ x, ∃ y, f x = Ok y) l → ∃ k, mapM f l = Ok k.
Proof.
  induction 1 as [|x l [y Hy] _ [k Hk]]; [by exists []|]. exists (y :: k). cbn. by rewrite Hy, Hk.
Qed.

Lemma GetTransitionStates_ok before after steps index :
  Forall (λ s, -1 ≤ s.(step_FromStateIdx) ∧ -1 ≤ s.(step_ToStateIdx)) steps →
  ∃ a r t, Kit.GetTransitionStates before after steps index = Ok (a, r, t).
Proof.
  intros Hs. unfold Kit.GetTransitionStates.
  destruct (states_loop_ok before after 0 index [] [] ltac:(done)) as [[a r] ->]. cbn.
  match goal with |- context [mapM ?f steps] => destruct (mapM_all_ok f steps) as [k Hk] end; [|rewrite Hk; eauto].
  eapply Forall_impl; [exact Hs|]. intros s [Hf Ht]. unfold Step_GetFromState, Step_GetToState.
  destruct (step_state_ok s.(step_FromState) _ index Hf) as [f ->], (step_state_ok s.(step_ToState) _ index Ht) as [t ->].
  eauto.
Qed.

Lemma IndexesToStates_ok index l : Forall (λ i, -1 ≤ i) l → ∃ names, IndexesToStates index l = Ok names.
Proof.
  intros Hl. unfold IndexesToStates. apply mapM_all_ok. apply Forall_lookup. intros k [n i] Hk.
  rewrite list_lookup_imap in Hk. destruct (l !! k) as [j|] eqn:Hj; [|done]. injection Hk as <- <-.
  rewrite Forall_lookup in Hl. specialize (Hl k j Hj). cbn.
  destruct (decide (j = -1)) as [->|H1]; [cbn; eauto|]. rewrite (bool_decide_eq_false_2 _ H1). cbn.
  case_bool_decide as H2; [eauto|]. unfold slice_get. rewrite bool_decide_eq_true_2 by lia.
  destruct (lookup_lt_is_Some_2 index (Z.to_nat j)) as [s ->]; [lia|eauto].
Qed.

Lemma StatesToIndexes_ge index l : Forall (λ i, -1 ≤ i) (StatesToIndexes index l).
Proof.
  unfold StatesToIndexes. apply Forall_fmap, Forall_true. intros s. cbn.
  destruct (decide (s ∈ index)) as [Hin|]; [destruct (index_of_in index s Hin); lia|]. by rewrite index_of_not_in.
Qed.

(** Packing keeps what a message says. *)
Lemma pack_keeps index m :
  (pack index m).(mx_Clocks) = m.(mx_Clocks) ∧ (pack index m).(mx_ID) = m.(mx_ID)
  ∧ (pack index m).(mx_QueueTick) = m.(mx_QueueTick)
  ∧ (msg_ok index m → Forall (λ i, -1 ≤ i) (pack index m).(mx_CalledStatesIdxs)).
Proof.
  unfold pack. destruct (mx_CalledStates m) as [[|n l]|]; (split_and!; [done..|]); intros [Hi _]; cbn.
  - eapply Forall_impl; [exact Hi|]. cbn. lia.
  - change (Forall (λ i, -1 ≤ i) (StatesToIndexes index (n :: l))). apply StatesToIndexes_ge.
  - eapply Forall_impl; [exact Hi|]. cbn. lia.
Qed.

Lemma ActiveStates_clocks m m' index : m.(mx_Clocks) = m'.(mx_Clocks) → ActiveStates m index = ActiveStates m' index.
Proof. intros Hc. unfold ActiveStates, tick_of_msg. by rewrite Hc. Qed.

(** *** The last message parsed *)

(** The clocks of the message before the last one. *)
Definition clocks_before (c : Client) : list Z :=
  match length c.(cl_MsgTxsParsed) with
  | O => []
  | S n => match c.(cl_MsgTxs) !! n with Some x => x.(rx_Msg).(mx_Clocks) | None => [] end
  end.
Definition goes_back (c : Client) (m : DbgMsgTx) : bool :=
  bool_decide (TimeSum m < fold_left (λ s t, wrap64 (s + t)) (clocks_before c) 0).

Definition errors_after (c : Client) (m : DbgMsgTx) : list Z :=
  if negb (goes_back c m) && has_error c.(cl_MsgStruct).(ms_StatesIndex) m
  then Z.of_nat (length c.(cl_MsgTxsParsed)) :: c.(cl_Errors) else c.(cl_Errors).

(** A message as it is kept. *)
Record kept (index : list string) (m m' : DbgMsgTx) : Prop := mkKept {
  kp_clocks : m'.(mx_Clocks) = m.(mx_Clocks);
  kp_id : m'.(mx_ID) = m.(mx_ID);
  kp_tick : m'.(mx_QueueTick) = m.(mx_QueueTick);
  kp_called : ∃ names, CalledStateNames m' index = Ok names;
}.

Lemma prev_of_ok c :
  length c.(cl_MsgTxs) = S (length c.(cl_MsgTxsParsed)) →
  ∃ t, prev_of c (Z.of_nat (length c.(cl_MsgTxsParsed))) = Ok (clocks_before c, t).
Proof.
  intros Hl. unfold prev_of, clocks_before, len_txs. rewrite Hl.
  destruct (length (cl_MsgTxsParsed c)) as [|n] eqn:Hp.
  { rewrite andb_comm. cbn. eauto. }
  rewrite !bool_decide_eq_true_2 by lia. cbn [andb]. replace (Z.of_nat (S n) - 1) with (Z.of_nat n) by lia.
  destruct (lookup_lt_is_Some_2 (cl_MsgTxs c) n) as [x Hx]; [lia|].
  destruct (lookup_lt_is_Some_2 (cl_MsgTxsParsed c) n) as [q Hq]; [lia|].
  assert (Hg : ∀ A (l : list A) y, l !! n = Some y → slice_get l (Z.of_nat n) = Ok y).
  { intros A l y Hy. apply slice_get_ok. rewrite Nat2Z.id. split; [lia|done]. }
  rewrite (Hg _ _ _ Hx), (Hg _ _ _ Hq), Hx. cbn. eauto.
Qed.

Section mem.
Context {S C G : Type}.
Lemma peek_bind {A} (f : S → held (Mem S C G) A) m : (peek ≫= f) m = f m.(fields) m.
Proof. done. Qed.
Lemma tell_bind {A} (c : C) (f : () → held (Mem S C G) A) m :
  (tell c ≫= f) m = f () (mkMem m.(fields) (m.(calls) ++ [c]) m.(gos)).
Proof. done. Qed.
Lemma put_bind {A} (g : S → S) (f : () → held (Mem S C G) A) m :
  (put g ≫= f) m = f () (mkMem (g m.(fields)) m.(calls) m.(gos)).
Proof. done. Qed.
Lemma cond_tell (b : bool) (c : C) (m : Mem S C G) :
  (if b then tell c else mret ()) m = (mkMem m.(fields) (m.(calls) ++ if b then [c] else []) m.(gos), Ok ()).
Proof. destruct b; [done|]. rewrite app_nil_r. by destruct m. Qed.
End mem.

Lemma alter_insert {A} (f : A → A) (l : list A) i x : l !! i = Some x → alter f i l = <[i := f x]> l.
Proof.
  intros Hx. apply list_eq. intros j. destruct (decide (j = i)) as [->|].
  - rewrite list_lookup_alter_eq, Hx, list_lookup_insert_eq; [done|by eapply lookup_lt_Some].
  - by rewrite list_lookup_alter_ne, list_lookup_insert_ne.
Qed.

Lemma maybe_err (b : bool) (o : option string) (m : Mem Client Call Go) :
  ∃ cs, (if b then match o with Some e => tell (CErr e) | None => mret () end else mret ()) m
        = (mkMem m.(fields) cs m.(gos), Ok ()).
Proof. destruct b, o, m; by eexists. Qed.

(** The states of a parsed message are numbers of the index, or none. *)
Definition numbered (p : MsgTxParsed) : Prop :=
  Forall (λ i, -1 ≤ i) p.(pa_StatesAdded) ∧ Forall (λ i, -1 ≤ i) p.(pa_StatesRemoved).

(** A message that can be read is parsed, without a panic. *)
Lemma hParseMsg_ok graph ocl acl on c cs gs x :
  length c.(cl_MsgTxs) = S (length c.(cl_MsgTxsParsed)) →
  c.(cl_MsgTxs) !! length c.(cl_MsgTxsParsed) = Some x →
  msg_ok c.(cl_MsgStruct).(ms_StatesIndex) x.(rx_Msg) →
  ∃ m' p cs',
    hParseMsg graph ocl acl on (Z.of_nat (length c.(cl_MsgTxsParsed))) (mkMem c cs gs)
    = (mkMem (set_parsed (TimeSum x.(rx_Msg)) (errors_after c x.(rx_Msg)) (c.(cl_MsgTxsParsed) ++ [p])
                (set_txs (<[length c.(cl_MsgTxsParsed) := mkRxTx m' x.(rx_Time)]> c.(cl_MsgTxs)) c)) cs' gs, Ok ())
    ∧ p.(pa_TimeSum) = TimeSum x.(rx_Msg) ∧ numbered p
    ∧ kept c.(cl_MsgStruct).(ms_StatesIndex) x.(rx_Msg) m'.
Proof.
  intros Hl Hx Hm. destruct (prev_of_ok c Hl) as [t Hprev]. set (n := length (cl_MsgTxsParsed c)) in *.
  set (msg := rx_Msg x) in *. set (index := ms_StatesIndex (cl_MsgStruct c)) in *.
  assert (Hget : slice_get (cl_MsgTxs c) (Z.of_nat n) = Ok x).
  { apply slice_get_ok. rewrite Nat2Z.id. split; [lia|done]. }
  assert (Hset : ∀ m c' y, c'.(cl_MsgTxs) !! n = Some y → y.(rx_Time) = x.(rx_Time) →
    set_msg (Z.of_nat n) m c' = set_txs (<[n := mkRxTx m x.(rx_Time)]> c'.(cl_MsgTxs)) c').
  { intros m c' y Hc' Hy. unfold set_msg. by rewrite Nat2Z.id, (alter_insert _ _ _ _ Hc'), Hy. }
  destruct (pack_keeps index msg) as (Hpc & Hpi & Hpq & Hpx). specialize (Hpx Hm).
  destruct (IndexesToStates_ok index _ Hpx) as [names Hnames].
  destruct (GetTransitionStates_ok (time_of (clocks_before c)) (time_of msg.(mx_Clocks)) msg.(mx_Steps) index (proj2 Hm))
    as (a & r & t' & Hsts).
  assert (Herr : is_err (pack index msg) index index = Ok (has_error index msg)).
  { rewrite is_err_ok. unfold has_error. by rewrite (ActiveStates_clocks _ msg index Hpc). }
  unfold hParseMsg. rewrite peek_bind. cbn [fields]. rewrite (held_lift_bind _ _ _ _ Hget). cbv zeta. fold msg index.
  rewrite (held_ok_bind _ _ _ _ _ (cond_tell _ _ _)), (held_lift_bind _ _ _ _ Hprev). cbn [fst snd Time.Sum].
  rewrite !(held_lift_bind _ _ _ _ eq_refl). unfold errors_after, goes_back. fold (TimeSum msg).
  destruct (bool_decide (TimeSum msg < _)) eqn:Hback; cbn [negb andb].
  - eexists msg, (mkParsed [] [] [] (TimeSum msg) 0), _. split; [|split; [done|split; [by repeat constructor|]]].
    + rewrite tell_bind. unfold put, hmodify. cbn [fields calls gos].
      replace (<[n:=mkRxTx msg (rx_Time x)]> (cl_MsgTxs c)) with (cl_MsgTxs c); [by destruct c|].
      symmetry. rewrite list_insert_id; [done|]. rewrite Hx. by destruct x.
    + split; [done..|]. unfold CalledStateNames. destruct (mx_CalledStates msg); [eauto|]. apply mapM_all_ok.
      eapply Forall_impl; [exact (proj1 Hm)|]. intros k Hk. cbn in Hk. unfold slice_get. rewrite bool_decide_eq_true_2 by lia.
      destruct (lookup_lt_is_Some_2 index (Z.to_nat k)) as [s ->]; [lia|eauto].
  - rewrite (held_lift_bind _ _ _ _ Hsts), put_bind, (held_lift_bind _ _ _ _ Herr), put_bind, tell_bind.
    rewrite !(held_ok_bind _ _ _ _ _ (cond_tell _ _ _)), (held_lift_bind _ _ _ _ Hnames), put_bind.
    cbn [fields calls gos]. rewrite (Hset (pack index msg) c x Hx eq_refl).
    rewrite (Hset _ _ (mkRxTx (pack index msg) x.(rx_Time))); [|apply list_lookup_insert_eq; lia|done].
    match goal with |- context [(if ?b then match ?o with _ => _ end else mret ()) ?m] =>
      destruct (maybe_err b o m) as [cs' ->] end.
    eexists (set_called (Some names) (mx_CalledStatesIdxs (pack index msg)) (pack index msg)), _, cs'. split; [|split; [|split]].
    + cbn [set_txs set_parsed cl_MsgTxs fields gos]. rewrite list_insert_insert_eq. reflexivity.
    + done.
    + split; apply StatesToIndexes_ge.
    + split; [done..|]. cbn. eauto.
Qed.

(** *** Messages in a row *)

Section feed.
Context (graph ocl : bool) (acl : DbgMsgTx → option string) (on : gset string).

(** What is done with a message of a client: it is appended, and parsed. *)
Definition take_msg (x : RxTx) : held (Mem Client Call Go) () :=
  put (λ c, set_txs (c.(cl_MsgTxs) ++ [x]) c);;
  c ← peek;
  hParseMsg graph ocl acl on (len_txs c - 1).

(** The error of a message counts unless its time is before that of the message
    before. *)
Definition errors_at (index : list string) (ms : list RxTx) (e : nat) : Prop :=
  ∃ x, ms !! e = Some x ∧ has_error index x.(rx_Msg) = true
       ∧ ∀ e' y, e = S e' → ms !! e' = Some y → TimeSum y.(rx_Msg) ≤ TimeSum x.(rx_Msg).

(** A client that took the messages [ms]. *)
Record fed (schema : DbgMsgStruct) (ms : list RxTx) (c : Client) : Prop := mkFed {
  fd_schema : c.(cl_MsgStruct) = schema;
  fd_txs : Forall2 (λ x x', kept schema.(ms_StatesIndex) x.(rx_Msg) x'.(rx_Msg) ∧ x'.(rx_Time) = x.(rx_Time)) ms c.(cl_MsgTxs);
  fd_parsed : Forall2 (λ x p, p.(pa_TimeSum) = TimeSum x.(rx_Msg)) ms c.(cl_MsgTxsParsed);
  fd_errors : ∀ z, z ∈ c.(cl_Errors) ↔ ∃ e, z = Z.of_nat e ∧ errors_at schema.(ms_StatesIndex) ms e;
  fd_falling : falling c.(cl_Errors);
}.

Lemma errors_at_app index ms x e :
  errors_at index (ms ++ [x]) e ↔
  errors_at index ms e
  ∨ e = length ms ∧ has_error index x.(rx_Msg) = true
    ∧ ∀ y, last ms = Some y → TimeSum y.(rx_Msg) ≤ TimeSum x.(rx_Msg).
Proof.
  unfold errors_at. split.
  - intros (y & Hy & He & Hb). destruct (decide (e < length ms)%nat) as [Hlt|Hge].
    + left. rewrite lookup_app_l in Hy by done. exists y. split_and!; [done..|]. intros e' z -> Hz.
      apply (Hb e' z eq_refl). rewrite lookup_app_l by lia. done.
    + right. rewrite lookup_app_r in Hy by lia. apply list_lookup_singleton_Some in Hy as [Hy0 <-].
      assert (e = length ms) as -> by lia. split_and!; [done..|]. intros z Hz. rewrite last_lookup in Hz.
      assert (length ms ≠ 0%nat) by (intros H0; by apply length_zero_iff_nil in H0; subst).
      apply (Hb (pred (length ms)) z); [lia|]. rewrite lookup_app_l by lia. done.
  - intros [(y & Hy & He & Hb)|(-> & He & Hb)].
    + exists y. pose proof (lookup_lt_Some _ _ _ Hy). split_and!; [by apply lookup_app_l_Some|done|].
      intros e' z -> Hz. apply (Hb e' z eq_refl). by rewrite lookup_app_l in Hz by lia.
    + exists x. split_and!; [by apply list_lookup_middle|done|]. intros e' z Hl Hz. apply Hb.
      rewrite last_lookup, Hl. cbn. by rewrite lookup_app_l in Hz by lia.
Qed.

Lemma TimeSum_nonneg m : 0 ≤ TimeSum m.
Proof.
  unfold TimeSum. enough (H : ∀ l s, 0 ≤ s → 0 ≤ fold_left (λ s t, wrap64 (s + t)) l s) by by apply H.
  induction l as [|t l IH]; intros s Hs; cbn -[wrap64]; [done|]. apply IH. unfold wrap64. by apply Z.mod_pos_bound.
Qed.

Lemma goes_back_fed schema ms c x :
  fed schema ms c →
  goes_back (set_txs (c.(cl_MsgTxs) ++ [x]) c) x.(rx_Msg) = true
  ↔ ∃ y, last ms = Some y ∧ TimeSum x.(rx_Msg) < TimeSum y.(rx_Msg).
Proof.
  intros [_ Ht Hp _ _]. pose proof (Forall2_length _ _ _ Ht) as Hlt. pose proof (Forall2_length _ _ _ Hp) as Hlp.
  unfold goes_back, clocks_before. rewrite bool_decide_eq_true. cbn [set_txs cl_MsgTxs cl_MsgTxsParsed].
  rewrite last_lookup, <- Hlp. destruct (length ms) as [|n] eqn:Hn.
  - apply length_zero_iff_nil in Hn as ->. cbn. pose proof (TimeSum_nonneg (rx_Msg x)). naive_solver lia.
  - cbn [pred]. destruct (lookup_lt_is_Some_2 ms n) as [y Hy]; [lia|].
    destruct (Forall2_lookup_l _ _ _ _ _ Ht Hy) as (y' & Hy' & Hk & _).
    rewrite (lookup_app_l_Some _ _ _ _ Hy'), (kp_clocks _ _ _ Hk), Hy. change (fold_left _ (mx_Clocks (rx_Msg y)) 0) with (TimeSum (rx_Msg y)).
    naive_solver.
Qed.

Lemma fed_take schema ms c x cs gs :
  fed schema ms c → msg_ok schema.(ms_StatesIndex) x.(rx_Msg) →
  ∃ c' cs', take_msg x (mkMem c cs gs) = (mkMem c' cs' gs, Ok ()) ∧ fed schema (ms ++ [x]) c'.
Proof.
  intros Hfed Hm. pose proof (goes_back_fed schema ms c x Hfed) as Hback. destruct Hfed as [Hs Ht Hp He Hf].
  pose proof (Forall2_length _ _ _ Ht) as Hlt. pose proof (Forall2_length _ _ _ Hp) as Hlp.
  set (c1 := set_txs (c.(cl_MsgTxs) ++ [x]) c) in *.
  destruct (hParseMsg_ok graph ocl acl on c1 cs gs x) as (m' & p & cs' & Hrun & Hsum & _ & Hk).
  { cbn. rewrite length_app. cbn. lia. }
  { cbn. apply list_lookup_middle. lia. }
  { cbn. by rewrite Hs. }
  assert (Hidx : len_txs c1 - 1 = Z.of_nat (length (cl_MsgTxsParsed c1))).
  { unfold len_txs. cbn. rewrite length_app. cbn. lia. }
  unfold take_msg. rewrite put_bind, peek_bind. cbn [fields calls gos]. fold c1. rewrite Hidx, Hrun.
  eexists _, _. split; [reflexivity|]. cbn in Hk. rewrite Hs in Hk.
  assert (Herrs : errors_after c1 (rx_Msg x)
    = if negb (goes_back c1 (rx_Msg x)) && has_error (ms_StatesIndex schema) (rx_Msg x) then Z.of_nat (length ms) :: cl_Errors c else cl_Errors c).
  { unfold errors_after. cbn [c1 set_txs cl_MsgStruct cl_MsgTxsParsed cl_Errors]. by rewrite Hs, Hlp. }
  assert (Hold : ∀ z, z ∈ cl_Errors c → z < Z.of_nat (length ms)).
  { intros z (e & -> & (y & Hy%lookup_lt_Some & _))%He. lia. }
  split; [done| | | |].
  - cbn. rewrite insert_app_r_alt by lia.
    replace (length (cl_MsgTxsParsed c) - length (cl_MsgTxs c))%nat with 0%nat by lia.
    apply Forall2_app; [done|]. constructor; [split; [exact Hk|done]|constructor].
  - cbn. apply Forall2_app; [done|]. constructor; [done|constructor].
  - intros z. cbn [set_parsed cl_Errors]. rewrite Herrs. destruct (goes_back c1 (rx_Msg x)) eqn:Hb; cbn [negb andb].
    + rewrite He. destruct Hback as [Hback _]. destruct (Hback eq_refl) as (y & Hl & Hlt').
      split; intros (e & -> & Hat); exists e; (split; [done|]); rewrite errors_at_app in *; [by left|].
      destruct Hat as [|(_ & _ & Hall)]; [done|]. specialize (Hall y Hl). lia.
    + assert (Hall : ∀ y, last ms = Some y → TimeSum (rx_Msg y) ≤ TimeSum (rx_Msg x)).
      { intros y Hl. destruct (decide (TimeSum (rx_Msg x) < TimeSum (rx_Msg y))); [|lia].
        assert (false = true) as [=] by (apply Hback; eauto). }
      destruct (has_error _ (rx_Msg x)) eqn:Hh.
      * rewrite elem_of_cons, He. split.
        -- intros [->|(e & -> & Hat)]; [exists (length ms)|exists e]; (split; [done|]); rewrite errors_at_app; auto.
        -- intros (e & -> & [Hat|(-> & _ & _)]%errors_at_app); eauto.
      * rewrite He. split; intros (e & -> & Hat); exists e; (split; [done|]); rewrite errors_at_app in *; [by left|].
        destruct Hat as [|(_ & ? & _)]; [done|congruence].
  - cbn [set_parsed cl_Errors]. rewrite Herrs. destruct (_ && _); [|done].
    intros i j z w Hij Hz Hw. destruct j as [|j]; [lia|]. cbn in Hw. destruct i as [|i]; cbn in Hz.
    + injection Hz as <-. apply Hold. by eapply list_elem_of_lookup_2.
    + apply (Hf i j z w); [lia|done..].
Qed.
Lemma fed_all schema ms ms' c cs gs :
  fed schema ms c → Forall (λ x, msg_ok schema.(ms_StatesIndex) x.(rx_Msg)) ms' →
  ∃ c' cs', hfor take_msg ms' (mkMem c cs gs) = (mkMem c' cs' gs, Ok ()) ∧ fed schema (ms ++ ms') c'.
Proof.
  intros Hfed Hms. revert ms c cs Hfed. induction Hms as [|x ms' Hx _ IH]; intros ms c cs Hfed.
  { eexists _, _. split; [reflexivity|]. by rewrite app_nil_r. }
  destruct (fed_take schema ms c x cs gs Hfed Hx) as (c1 & cs1 & Hrun & Hfed1).
  destruct (IH (ms ++ [x]) c1 cs1 Hfed1) as (c2 & cs2 & Hrun2 & Hfed2).
  exists c2, cs2. split; [|by rewrite <- app_assoc in Hfed2]. cbn [hfor].
  by rewrite (held_ok_bind _ _ _ _ _ Hrun).
Qed.

Lemma NewClient_fed hash connId schema c : NewClient hash connId schema = Ok c → fed schema [] c.
Proof.
  unfold NewClient. intros H. apply outcome_bind_ok in H as (sp & _ & [= <-]).
  split; cbn; [done|constructor|constructor| |by intros i j x y ? ?].
  intros z. split; [by intros ?%not_elem_of_nil|]. by intros (e & _ & x & ? & _).
Qed.

(** C28: A new client parses all the messages which can be read, and finds the errors
    they report: within a distance of a transition there was one exactly when
    some message up to there has an error state active and its time did not go
    back. *)
Theorem errors_seen hash connId schema ms c0 :
  NewClient hash connId schema = Ok c0 →
  Forall (λ x, msg_ok schema.(ms_StatesIndex) x.(rx_Msg)) ms →
  ∃ c cs, hfor take_msg ms (mkMem c0 [] []) = (mkMem c cs [], Ok ())
    ∧ len_txs c = Z.of_nat (length ms) ∧ length c.(cl_MsgTxsParsed) = length ms
    ∧ ∀ tx distance,
        HadErrSinceTx tx distance c = true ↔
        ∃ e, errors_at schema.(ms_StatesIndex) ms e ∧ (Z.of_nat e = tx ∨ Z.of_nat e < tx ∧ tx - Z.of_nat e < distance).
Proof.
  intros Hnew Hms. apply NewClient_fed in Hnew.
  destruct (fed_all schema [] ms c0 [] [] Hnew Hms) as (c & cs & Hrun & [_ Ht Hp He Hf]). cbn [app] in *.
  exists c, cs. apply Forall2_length in Ht, Hp. split_and!; [done|unfold len_txs; lia|done|].
  intros tx distance. rewrite (had_err c tx distance Hf). split.
  - intros (z & (e & -> & Hat)%He & Hz). eauto.
  - intros (e & Hat & Hz). exists (Z.of_nat e). split; [|done]. apply He. eauto.
Qed.
End feed.
End Parse.

(** ** Two transitions *)
Module Examples.
Import View Parse.

Definition schema : DbgMsgStruct := mkMsgStruct "m" ["A"; "ErrB"] ∅ ∅ [] "" [].
Definition msg (id : string) (clocks : list Z) (auto : bool) : RxTx :=
  mkRxTx (mkMsgTx "m" id clocks 1 0 0 MutationAdd None [0] [] [] [] 0 auto true false false None) 10.
Definition messages : list RxTx := [msg "t1" [1; 0] true; msg "t2" [2; 1] false].
Definition client0 : Client :=
  mkClient "m" "c" true schema [] ∅ 0 "" "" [] [] [] (mkSchemaParsed {["all" := ["A"; "ErrB"]]} ["all"] "") ∅ 0.
Definition client2 : Client := (hfor (take_msg false false (λ _, None) ∅) messages (mkMem client0 [] [])).1.(fields).


Lemma errors_seen_witness :
  ∃ c, len_txs c = 2 ∧ (HadErrSinceTx 5 5 c = true ↔
      ∃ e, errors_at schema.(ms_StatesIndex) messages e ∧ (Z.of_nat e = 5 ∨ Z.of_nat e < 5 ∧ 5 - Z.of_nat e < 5)).
Proof.
  destruct (NewClient (λ s _, s) "c" schema) as [c0| |] eqn:Hnew; [|by vm_compute in Hnew..].
  destruct (errors_seen false false (λ _, None) ∅ (λ s _, s) "c" schema messages c0 Hnew) as (c & cs & _ & Hl & _ & He).
  - repeat constructor; cbn; lia.
  - exists c. split; [exact Hl|apply He].
Defined.
End Examples.
