(* ===== verification/DbgHandlers.v ===== *)
(** * The debugger's handlers ([src/tools/debugger/dbg_handlers.go])

    How clients are connected and removed, their messages taken, and how the user
    moves through them: handlers of the debugger's machine on the clients of
    [DbgClient], with what [DbgView] does to one of them.  The machine is its set
    of active states and the mutations asked of it, in order.  Of what is drawn,
    the address bar is here: it looks up the transition of the cursor and the
    machines above, which are not always found. *)

From S2P Require Import Prelude StateList SchemaDef MachTime Mutation Machine GoStrings Logging Dbg NetMach Requests Effects Shipped DbgClient DbgView.
Import Client Addr.

#[local] Open Scope Z_scope.

(** ** The handlers *)
Module Handlers.
Import View Parse.

Record MarkerItem := mkMarker { mk_ClientId : string; mk_TxId : string; mk_Time : Z }.

(** Clients are objects, which the selected client and the map of clients point
    to; [d_on]: the active states of the machine. *)
Record Debugger := mkDebugger {
  d_objs : list Client;
  d_Clients : gmap string nat;
  d_C : option nat;
  d_on : gset string;
  d_history : History;
  d_markers : list MarkerItem;
  d_lastScrolledTxTime : option Z;
  d_msgsDelayed : list RxTx;
  d_msgsDelayedConns : list string;
  d_selectedGroup : string;
  d_selectedState : string;
}.

Definition set_objs (l : list Client) (d : Debugger) : Debugger :=
  mkDebugger l d.(d_Clients) d.(d_C) d.(d_on) d.(d_history) d.(d_markers) d.(d_lastScrolledTxTime)
    d.(d_msgsDelayed) d.(d_msgsDelayedConns) d.(d_selectedGroup) d.(d_selectedState).
Definition set_Clients (m : gmap string nat) (d : Debugger) : Debugger :=
  mkDebugger d.(d_objs) m d.(d_C) d.(d_on) d.(d_history) d.(d_markers) d.(d_lastScrolledTxTime)
    d.(d_msgsDelayed) d.(d_msgsDelayedConns) d.(d_selectedGroup) d.(d_selectedState).
Definition set_C (p : option nat) (d : Debugger) : Debugger :=
  mkDebugger d.(d_objs) d.(d_Clients) p d.(d_on) d.(d_history) d.(d_markers) d.(d_lastScrolledTxTime)
    d.(d_msgsDelayed) d.(d_msgsDelayedConns) d.(d_selectedGroup) d.(d_selectedState).
Definition set_on (on : gset string) (d : Debugger) : Debugger :=
  mkDebugger d.(d_objs) d.(d_Clients) d.(d_C) on d.(d_history) d.(d_markers) d.(d_lastScrolledTxTime)
    d.(d_msgsDelayed) d.(d_msgsDelayedConns) d.(d_selectedGroup) d.(d_selectedState).
Definition set_history (h : History) (d : Debugger) : Debugger :=
  mkDebugger d.(d_objs) d.(d_Clients) d.(d_C) d.(d_on) h d.(d_markers) d.(d_lastScrolledTxTime)
    d.(d_msgsDelayed) d.(d_msgsDelayedConns) d.(d_selectedGroup) d.(d_selectedState).
Definition set_marks (l : list MarkerItem) (d : Debugger) : Debugger :=
  mkDebugger d.(d_objs) d.(d_Clients) d.(d_C) d.(d_on) d.(d_history) l d.(d_lastScrolledTxTime)
    d.(d_msgsDelayed) d.(d_msgsDelayedConns) d.(d_selectedGroup) d.(d_selectedState).
Definition set_time (t : option Z) (d : Debugger) : Debugger :=
  mkDebugger d.(d_objs) d.(d_Clients) d.(d_C) d.(d_on) d.(d_history) d.(d_markers) t
    d.(d_msgsDelayed) d.(d_msgsDelayedConns) d.(d_selectedGroup) d.(d_selectedState).
Definition set_delayed (ms : list RxTx) (conns : list string) (d : Debugger) : Debugger :=
  mkDebugger d.(d_objs) d.(d_Clients) d.(d_C) d.(d_on) d.(d_history) d.(d_markers) d.(d_lastScrolledTxTime)
    ms conns d.(d_selectedGroup) d.(d_selectedState).
Definition set_selected (group state : string) (d : Debugger) : Debugger :=
  mkDebugger d.(d_objs) d.(d_Clients) d.(d_C) d.(d_on) d.(d_history) d.(d_markers) d.(d_lastScrolledTxTime)
    d.(d_msgsDelayed) d.(d_msgsDelayedConns) group state.

Definition set_group (g : string) (c : Client) : Client :=
  mkClient c.(cl_Id) c.(cl_ConnId) c.(cl_Connected) c.(cl_MsgStruct) c.(cl_MsgTxs) c.(cl_Markers) c.(cl_MTimeSum)
    g c.(cl_SelectedState) c.(cl_MsgTxsFiltered) c.(cl_Errors) c.(cl_MsgTxsParsed) c.(cl_Schema) c.(cl_txCache)
    c.(cl_CursorTx1).
Definition set_state (st : string) (c : Client) : Client :=
  mkClient c.(cl_Id) c.(cl_ConnId) c.(cl_Connected) c.(cl_MsgStruct) c.(cl_MsgTxs) c.(cl_Markers) c.(cl_MTimeSum)
    c.(cl_SelectedGroup) st c.(cl_MsgTxsFiltered) c.(cl_Errors) c.(cl_MsgTxsParsed) c.(cl_Schema) c.(cl_txCache)
    c.(cl_CursorTx1).
Definition set_conn (b : bool) (c : Client) : Client :=
  mkClient c.(cl_Id) c.(cl_ConnId) b c.(cl_MsgStruct) c.(cl_MsgTxs) c.(cl_Markers) c.(cl_MTimeSum)
    c.(cl_SelectedGroup) c.(cl_SelectedState) c.(cl_MsgTxsFiltered) c.(cl_Errors) c.(cl_MsgTxsParsed) c.(cl_Schema)
    c.(cl_txCache) c.(cl_CursorTx1).
Definition set_schema (m : DbgMsgStruct) (sp : MsgSchemaParsed) (c : Client) : Client :=
  mkClient c.(cl_Id) c.(cl_ConnId) c.(cl_Connected) m c.(cl_MsgTxs) c.(cl_Markers) c.(cl_MTimeSum)
    c.(cl_SelectedGroup) c.(cl_SelectedState) c.(cl_MsgTxsFiltered) c.(cl_Errors) c.(cl_MsgTxsParsed) sp
    c.(cl_txCache) c.(cl_CursorTx1).

Definition DbgMem : Type := Mem Debugger Call Go.
Definition dbg : Type → Type := held DbgMem.

(** The client at a pointer. *)
Definition client (p : nat) : dbg Client :=
  d ← peek; match d.(d_objs) !! p with Some c => mret c | None => nil_panic end.
Definition selected : dbg (option Client) :=
  d ← peek;
  match d.(d_C) with None => mret None | Some p => c ← client p; mret (Some c) end.
(** [d.C], where it is used without a test. *)
Definition current : dbg nat := d ← peek; match d.(d_C) with Some p => mret p | None => nil_panic end.
Definition upd (p : nat) (f : Client → Client) : dbg () := put (λ d, set_objs (alter f p d.(d_objs)) d).

(** Code of a client, at a pointer. *)
Definition at_client {A} (p : nat) (e : held (Mem Client Call Go) A) : dbg A := λ m,
  match m.(fields).(d_objs) !! p with
  | None => (m, Panic "invalid memory address or nil pointer dereference")
  | Some c =>
      let '(m', r) := e (mkMem c m.(calls) m.(gos)) in
      (mkMem (set_objs (<[p := m'.(fields)]> m.(fields).(d_objs)) m.(fields)) m'.(calls) m'.(gos), r)
  end.

Section handlers.
(** The text of a time, the digest of a schema, whether there is a graph and calls
    are written, the answers of writing and of the log; the parameters. *)
Context (ts : Z → string) (hash : string → Z → string).
Context (graph ocl : bool) (acl : DbgMsgTx → option string) (appendLog : Client → Z → option string).
Context (cleanOnConnect selectConnected : bool).

(** *** The address bar *)

(** The tags of the clients above.  There is no more [fuel] when it goes on for
    ever: more steps than clients come by one of them again. *)
Fixpoint hGetParentTags (fuel : nat) (d : Debugger) (c : Client) (tags : list string) : option (list string) :=
  match fuel with
  | O => None
  | S fuel =>
      match d.(d_Clients) !! c.(cl_MsgStruct).(ms_Parent) ≫= (λ p, d.(d_objs) !! p) with
      | None => Some tags
      | Some parent => hGetParentTags fuel d parent (tags ++ parent.(cl_MsgStruct).(ms_Tags))
      end
  end.

(** Whether the machine changes between some entry and the one next to it. *)
Fixpoint mach_changes (l : list MachAddress) (step : Z) (is_ : list Z) : outcome bool :=
  match is_ with
  | [] => Ok false
  | i :: is_ =>
      a ← slice_get l i;
      b ← slice_get l (i + step);
      if negb (bool_decide (a.(ma_MachId) = b.(ma_MachId))) then Ok true else mach_changes l step is_
  end.

(** What the bar shows, but for colors: which buttons can be used, the address, and
    the tags of the machine and of those above it. *)
Record AddressBar := mkBar {
  ab_copy : bool;
  ab_fwd : bool; ab_fwdMach : bool;
  ab_back : bool; ab_backMach : bool;
  ab_machId : string; ab_connected : bool; ab_txId : string;
  ab_tags : list string; ab_parentTags : list string;
}.

(** A call that does not end overflows the stack, which ends the process. *)
Definition hUpdateAddressBar : dbg AddressBar :=
  sel ← selected;
  txId ← (match sel with
          | Some c => if bool_decide (0 < c.(cl_CursorTx1))
                      then x ← hlift (slice_get c.(cl_MsgTxs) (c.(cl_CursorTx1) - 1)); mret x.(rx_Msg).(mx_ID)
                      else mret ""
          | None => mret ""
          end);
  d ← peek;
  let h := d.(d_history) in
  let len := Z.of_nat (length h.(h_items)) in
  nextMach ← hlift (mach_changes h.(h_items) (-1) (reverse (seqZ 1 h.(h_cursor))));
  prevMach ← hlift (mach_changes h.(h_items) 1 (seqZ h.(h_cursor) (len - 1 - h.(h_cursor))));
  let machId := match sel with Some c => c.(cl_Id) | None => "" end in
  parents ← (match sel with
             | Some c => if bool_decide (machId = "") then mret []
                         else match hGetParentTags (S (size d.(d_Clients))) d c [] with
                              | Some tags => mret tags
                              | None => hlift (Panic "stack overflow")
                              end
             | None => mret []
             end);
  mret (mkBar (negb (bool_decide (machId = ""))) (bool_decide (0 < h.(h_cursor))) nextMach
          (bool_decide (h.(h_cursor) < len - 1)) prevMach machId
          (match sel with Some c => c.(cl_Connected) | None => false end) txId
          (match sel with Some c => if bool_decide (machId = "") then [] else c.(cl_MsgStruct).(ms_Tags) | None => [] end) parents).
(** Of redrawing everything. *)
Definition hRedrawFull : dbg () := hUpdateAddressBar;; mret ().

(** *** The cursor *)

Record CursorArgs := mkCursorArgs { ca_Cursor1 : Z; ca_FilterBack : bool; ca_SkipHistory : bool; ca_TrimHistory : bool }.

(** Whether a transition is selected is told of the one before the move. *)
Definition hSetCursor1 (a : CursorArgs) : dbg () :=
  p ← current;
  c ← client p;
  tx ← hlift (hCurrentTx (Some c));
  d ← peek;
  upd p (set_cursor (hFilterTxCursor1 d.(d_on) c a.(ca_Cursor1) a.(ca_FilterBack)));;
  (if bool_decide (d.(d_history).(h_cursor) = 0) && negb a.(ca_SkipHistory)
   then
     c ← client p;
     addr ← hlift (hGetMachAddress (Some c));
     match addr with Some addr => put (λ d, set_history (hPrependHistory ts addr d.(d_history)) d) | None => mret () end
   else if a.(ca_TrimHistory) then put (λ d, set_history (hTrimHistory d.(d_history)) d)
   else mret ());;
  put (set_time None);;
  match tx with
  | Some _ =>
      tell (CAdd ["TxSelected"] []);;
      c ← client p;
      tx ← hlift (hCurrentTx (Some c));
      match tx with Some x => put (set_time (Some x.(rx_Time))) | None => mret () end
  | None => tell (CRemove ["TxSelected"])
  end.

Definition at_time (t : option Z) (c : Client) : Z :=
  match t with Some t => TxAtHTime t c | None => if bool_decide (len_txs c = 0) then -1 else 0 end.

(** The position is taken for that of a cursor. *)
Definition hScrollToTime (hTime : option Z) (filter : bool) : dbg bool :=
  sel ← selected;
  match sel with
  | None => mret false
  | Some c =>
      let latest := at_time hTime c in
      if bool_decide (latest = -1) then mret false
      else
        d ← peek;
        hSetCursor1 (mkCursorArgs (if filter : bool then hFilterTxCursor1 d.(d_on) c latest true else latest) true false false);;
        mret true
  end.

Definition FwdEnter (amount : Z) (C : option Client) : outcome bool :=
  match C with
  | None => Panic "invalid memory address or nil pointer dereference"
  | Some c => Ok (bool_decide (c.(cl_CursorTx1) + Z.max amount 1 ≤ len_txs c))
  end.
Definition FwdState (amount : Z) : dbg () :=
  tell (CRemove ["Fwd"]);;
  p ← current;
  c ← client p;
  hSetCursor1 (mkCursorArgs (c.(cl_CursorTx1) + Z.max amount 1) false false false);;
  d ← peek;
  c ← client p;
  (if bool_decide ("Playing" ∈ d.(d_on)) && bool_decide (c.(cl_CursorTx1) = len_txs c)
   then tell (CRemove ["Playing"]) else mret ());;
  hRedrawFull.
Definition BackEnter (amount : Z) (C : option Client) : outcome bool :=
  match C with
  | None => Panic "invalid memory address or nil pointer dereference"
  | Some c => Ok (bool_decide (0 ≤ c.(cl_CursorTx1) - Z.max amount 1))
  end.
Definition BackState (amount : Z) : dbg () :=
  tell (CRemove ["Back"]);;
  p ← current;
  c ← client p;
  hSetCursor1 (mkCursorArgs (c.(cl_CursorTx1) - Z.max amount 1) true false false);;
  hRedrawFull.

Definition ScrollToTxEnter (cursor : Z) (id : string) (C : option Client) : bool :=
  match C with
  | None => false
  | Some c =>
      (negb (bool_decide (id = "")) && bool_decide (-1 < (TxIndex id c).1))
      || (bool_decide (0 < cursor) && bool_decide (cursor ≤ len_txs c))
  end.
(** The mutation that ends it comes last, whatever happens before. *)
Definition ScrollToTxState (cursor1 : Z) (id : string) (trim : bool) : dbg () :=
  p ← current;
  cursor1 ← (if bool_decide (id = "") then mret cursor1
             else c ← client p; upd p (λ _, (TxIndex id c).2);; mret ((TxIndex id c).1 + 1));
  hSetCursor1 (mkCursorArgs cursor1 false false trim);;
  hRedrawFull;;
  tell (CRemove ["ScrollToTx"]).

(** [fuel]: as many rounds as messages are enough. *)
Fixpoint mut_loop (fuel : nat) (on : gset string) (c : Client) (state : string) (step i : Z) : outcome (option Z) :=
  match fuel with
  | O => Ok None
  | S fuel =>
      if negb (bool_decide (0 < i) && bool_decide (i < len_txs c + 1)) then Ok None
      else
        parsed ← slice_get c.(cl_MsgTxsParsed) (i - 1);
        x ← slice_get c.(cl_MsgTxs) (i - 1);
        let index := c.(cl_MsgStruct).(ms_StatesIndex) in
        added ← IndexesToStates index parsed.(pa_StatesAdded);
        removed ← (if contains added state then Ok [] else IndexesToStates index parsed.(pa_StatesRemoved));
        called ← (if contains added state || contains removed state then Ok [] else CalledStateNames x.(rx_Msg) index);
        if negb (contains added state) && negb (contains removed state) && negb (contains called state)
        then mut_loop fuel on c state step (i + step)
        else if filtersActive on && negb (bool_decide (i - 1 ∈ c.(cl_MsgTxsFiltered)))
        then mut_loop fuel on c state step (i + step)
        else Ok (Some i)
  end.
Definition ScrollToMutTxState (state : string) (fwd : bool) : dbg () :=
  tell (CRemove ["ScrollToMutTx"]);;
  sel ← selected;
  d ← peek;
  match sel with
  | None => mret ()
  | Some c =>
      let step := if fwd then 1 else -1 in
      i ← hlift (mut_loop (S (length c.(cl_MsgTxs))) d.(d_on) c state step (c.(cl_CursorTx1) + step));
      match i with Some i => tell (CAdd ["ScrollToTx"] [ACursor i; ATrim]) | None => mret () end
  end.

(** *** Markers *)

Definition machIsRpc (m : DbgMsgStruct) : bool :=
  HasTag m "rpc-client" "" || HasTag m "rpc-server" "" || HasTag m "rpc-mux" "" || HasTag m "relay" "".

(** One marker of a client. *)
Definition mark_item (on : gset string) (acc : list MarkerItem * Client) (txId : string) : list MarkerItem * Client :=
  let '(items, c) := acc in
  if bool_decide ("FilterDisconn" ∈ on) && negb c.(cl_Connected) then acc
  else if bool_decide ("FilterRpcMachs" ∈ on) && machIsRpc c.(cl_MsgStruct) then acc
  else
    let '(idx, c) := TxIndex txId c in
    match Tx idx c with
    | None => (items, c)
    | Some x =>
        if filtersActive on && hIsTxSkipped on c idx then (items, c)
        else (items ++ [mkMarker c.(cl_Id) txId x.(rx_Time)], c)
    end.
Definition mark_client (acc : list MarkerItem * Debugger) (q : string * nat) : list MarkerItem * Debugger :=
  let '(items, d) := acc in
  match d.(d_objs) !! q.2 with
  | None => acc
  | Some c =>
      let '(items, c) := fold_left (mark_item d.(d_on)) (elements c.(cl_Markers)) (items, c) in
      (items, set_objs (<[q.2 := c]> d.(d_objs)) d)
  end.

Definition before (a b : MarkerItem) : Prop := a.(mk_Time) ≤ b.(mk_Time).
#[global] Instance before_dec : RelDecision before := λ a b, decide (a.(mk_Time) ≤ b.(mk_Time)).

(** Markers of one time come in any order: here, that of the maps. *)
Definition build_markers (d : Debugger) : Debugger :=
  let '(items, d) := fold_left mark_client (map_to_list d.(d_Clients)) ([], d) in
  set_marks (merge_sort before items) d.
Definition hBuildMarkersIndex : dbg () := put build_markers.

Definition hIsCurrentTxMarked (C : option Client) : outcome bool :=
  tx ← hCurrentTx C;
  Ok (match tx, C with Some x, Some c => TxIsMarked x.(rx_Msg).(mx_ID) c | _, _ => false end).

Definition ToggleMarkState : dbg () :=
  sel ← selected;
  tx ← hlift (hCurrentTx sel);
  match tx with
  | None => mret ()
  | Some x =>
      p ← current;
      c ← client p;
      let id := x.(rx_Msg).(mx_ID) in
      upd p (TxMark id (negb (TxIsMarked id c)));;
      hBuildMarkersIndex
  end.

(** The first marker from a time on; the zero time is before all others. *)
Definition search_marker (l : list MarkerItem) (t : option Z) : Z * bool :=
  BinarySearch l (λ m, match t with Some t => bool_decide (m.(mk_Time) < t) | None => false end)
    (λ m, match t with Some t => bool_decide (m.(mk_Time) = t) | None => false end).
Definition into_range (n i : Z) : Z := if bool_decide (i < 0) then 0 else if bool_decide (n ≤ i) then n - 1 else i.
Definition fwd_index (l : list MarkerItem) (t : option Z) : Z :=
  let n := Z.of_nat (length l) in
  let '(index, found) := search_marker l t in
  into_range n (if found then index + 1 else if bool_decide (index = n) then index - 1 else index).
Definition back_index (l : list MarkerItem) (t : option Z) : Z :=
  let '(index, found) := search_marker l t in
  into_range (Z.of_nat (length l)) (if found then index - 1 else index).

Definition go_to_marker (pick : list MarkerItem → option Z → Z) : dbg () :=
  d ← peek;
  m ← hlift (slice_get d.(d_markers) (pick d.(d_markers) d.(d_lastScrolledTxTime)));
  spawn (GGoTo m.(mk_ClientId) m.(mk_TxId)).
Definition MarkerEnter (d : Debugger) : bool := bool_decide (0 < length d.(d_markers))%nat.
Definition FwdMarkerState : dbg () := tell (CRemove ["FwdMarker"]);; go_to_marker fwd_index.
Definition BackMarkerState : dbg () := tell (CRemove ["BackMarker"]);; go_to_marker back_index.
Definition ScrollToMarkerEnter (cursor1 : Z) (d : Debugger) : bool :=
  bool_decide (0 < cursor1) && bool_decide (cursor1 ≤ Z.of_nat (length d.(d_markers))).
Definition ScrollToMarkerState (cursor1 : Z) : dbg () :=
  tell (CRemove ["ScrollToMarker"]);; go_to_marker (λ _ _, cursor1 - 1).

(** *** Clients that come and go *)

Definition hRemoveClient (id : string) : dbg () :=
  put (λ d, set_history (hRemoveHistory id d.(d_history)) (set_Clients (delete id d.(d_Clients)) d)).

Definition client_list (d : Debugger) : list (string * Client) :=
  omap (λ q : string * nat, pair q.1 <$> d.(d_objs) !! q.2) (map_to_list d.(d_Clients)).
Definition hConnectedClients (d : Debugger) : nat := length (filter (λ q, q.2.(cl_Connected) = true) (client_list d)).

Definition hCleanOnConnect : dbg bool :=
  d ← peek;
  if bool_decide (d.(d_Clients) = ∅) then mret false
  else if forallb (λ q : string * Client, negb q.2.(cl_Connected)) (client_list d) then
    hfor (λ q : string * Client, hRemoveClient q.2.(cl_Id)) (client_list d);;
    (if graph then tell CGraphClear else mret ());;
    mret true
  else mret false.

(** The one active last; of several, the first found. *)
Definition last_active (d : Debugger) : string :=
  (fold_left (λ (acc : string * option Z) (q : string * Client),
     let active := LastActive q.2 in
     let after := match active, acc.2 with
                  | Some a, Some b => bool_decide (b < a)
                  | Some _, None => true
                  | None, _ => false
                  end in
     if after || bool_decide (acc.1 = "") then (q.1, active) else acc) (client_list d) ("", None)).1.

Definition maxClients : nat := 5000.

Definition ConnectEventEnter (msg : option DbgMsgStruct) (connId : string) : bool :=
  match msg with None => false | Some m => negb (bool_decide (connId = "")) && negb (bool_decide (m.(ms_ID) = "")) end.

(** The client of a schema: the one there is, with a new schema, or a new one. *)
Definition connect_client (msg : DbgMsgStruct) (connId : string) : dbg nat :=
  d ← peek;
  found ←
    (match d.(d_Clients) !! msg.(ms_ID) with
     | None => mret None
     | Some p =>
         c ← client p;
         if negb (bool_decide (c.(cl_ConnId) = "")) && bool_decide (c.(cl_ConnId) = connId) then
           tell (CLog ("schema changed for " +:+ msg.(ms_ID)));;
           upd p (λ c, set_schema msg c.(cl_Schema) c);;
           sp ← hlift (ParseSchema hash msg);
           upd p (set_schema msg sp);;
           mret (Some p)
         else
           tell (CLog ("client " +:+ msg.(ms_ID) +:+ " already exists, overriding"));;
           hRemoveClient c.(cl_Id);;
           mret None
     end);
  match found with
  | Some p => mret p
  | None =>
      c ← hlift (NewClient hash connId msg);
      d ← peek;
      let p := length d.(d_objs) in
      put (λ d, set_Clients (<[msg.(ms_ID) := p]> d.(d_Clients)) (set_objs (d.(d_objs) ++ [set_conn true c]) d));;
      mret p
  end.

(** What follows when the client is the only one. *)
Definition select_first (msg : DbgMsgStruct) : dbg () :=
  d ← peek;
  let one := bool_decide (size d.(d_Clients) = 1%nat) in
  (if one || (selectConnected && bool_decide (hConnectedClients d = 1%nat)) then
     tell (CAdd ["SelectingClient"] [AClient msg.(ms_ID); AFromConnected]);;
     put (λ d, set_history (hPrependHistory ts (mkAddress msg.(ms_ID) "" 0 0 0 None "" "") d.(d_history)) d);;
     (if bool_decide (d.(d_selectedState) = "") then mret ()
      else tell (CAdd ["StateNameSelected"] [AState d.(d_selectedState)]))
   else mret ());;
  (if one then tell (CAdd ["TailMode"] []) else mret ()).

Definition ConnectEventState (msg : DbgMsgStruct) (connId : string) : dbg () :=
  cleanup ← (if cleanOnConnect then hCleanOnConnect else mret false);
  p ← connect_client msg connId;
  d ← peek;
  (if negb (bool_decide (d.(d_selectedGroup) = "")) && bool_decide (is_Some (msg.(ms_Groups) !! d.(d_selectedGroup)))
   then upd p (set_group d.(d_selectedGroup)) else mret ());;
  sel ← selected;
  (if (cleanup : bool) || match sel with Some c => bool_decide (c.(cl_Id) = msg.(ms_ID)) | None => false end
   then put (set_C (Some p)) else mret ());;
  d ← peek;
  (if bool_decide (maxClients < size d.(d_Clients))%nat then tell (CAdd ["RemoveClient"] [AClient (last_active d)]) else mret ());;
  select_first msg;;
  (if graph then tell (CGraphClient msg.(ms_ID)) else mret ());;
  tells [CAdd ["InitClient"] [AId msg.(ms_ID)]; CAdd ["DiagramsGraphRendering"] []].

Definition of_conn (connId : string) (c : option Client) : bool :=
  match c with
  | Some c => negb (bool_decide (c.(cl_ConnId) = "")) && bool_decide (c.(cl_ConnId) = connId)
  | None => false
  end.

(** The first client of the connection. *)
Definition DisconnectEventState (connId : string) : dbg () :=
  d ← peek;
  (match list_find (λ q : string * nat, of_conn connId (d.(d_objs) !! q.2) = true) (map_to_list d.(d_Clients)) with
   | Some (_, q) =>
       c ← client q.2;
       upd q.2 (set_conn false);;
       tell (CLog ("client " +:+ c.(cl_Id) +:+ " disconnected"))
   | None => mret ()
   end);;
  hUpdateAddressBar;;
  mret ().

Definition RemoveClientEnter (cid : string) (d : Debugger) : bool :=
  negb (bool_decide (cid = "")) && bool_decide (is_Some (d.(d_Clients) !! cid)).
Definition RemoveClientState (cid : string) : dbg () :=
  tell (CAdd ["DiagramsGraphRendering"] []);;
  d ← peek;
  p ← (match d.(d_Clients) !! cid with Some p => mret p | None => nil_panic end);
  c ← client p;
  put (λ d, set_Clients (delete cid d.(d_Clients)) d);;
  put (λ d, set_history (hRemoveHistory c.(cl_Id) d.(d_history)) d);;
  hBuildMarkersIndex;;
  d ← peek;
  if bool_decide (d.(d_C) = Some p) then
    match map_to_list d.(d_Clients) with
    | (id, _) :: _ => tell (CAdd ["SelectingClient"] [AClient id])
    | [] => tell (CRemove ["ClientSelected"])
    end
  else mret ().

(** *** Messages *)

(** What is left to draw after the loop: the tail, and the first message. *)
Record Updates := mkUpdates { up_tail : bool; up_first : bool }.

(** One message; [None]: the handler returns. *)
Definition take_one (x : RxTx) (connId : outcome string) (u : Updates) : dbg (option Updates) :=
  let machId := x.(rx_Msg).(mx_MachineID) in
  d ← peek;
  match d.(d_Clients) !! machId with
  | None => tell (CLog ("Error: client not found: " +:+ machId));; mret (Some u)
  | Some p =>
      c ← client p;
      conn ← hlift connId;
      if negb (bool_decide (c.(cl_ConnId) = conn))
      then tell (CLog ("Error: conn_id mismatch for " +:+ machId +:+ ", ignoring tx"));; mret (Some u)
      else
        let idx := len_txs c in
        at_client p (take_msg graph ocl acl d.(d_on) x);;
        c ← client p;
        d ← peek;
        ok ← hlift (hFilterTx c idx (filtersFromStates d.(d_on)));
        (if ok : bool then upd p (λ c, set_filtered (c.(cl_MsgTxsFiltered) ++ [idx]) c) else mret ());;
        if bool_decide (d.(d_C) = Some p) then
          c ← client p;
          match appendLog c idx with
          | Some err => tell (CLog ("Error: log append " +:+ err));; mret None
          | None =>
              mret (Some (mkUpdates (u.(up_tail) || bool_decide ("TailMode" ∈ d.(d_on)))
                                    (u.(up_first) || bool_decide (len_txs c = 1))))
          end
        else mret (Some u)
  end.

(** [i]: the place of the first message among all. *)
Fixpoint msgs_loop (i : Z) (ms : list RxTx) (conns : list string) (u : Updates) : dbg (option Updates) :=
  match ms with
  | [] => mret (Some u)
  | x :: ms =>
      u ← take_one x (slice_get conns i) u;
      match u with Some u => msgs_loop (i + 1) ms conns u | None => mret None end
  end.

Definition tail_cursor : dbg () :=
  p ← current;
  c ← client p;
  hSetCursor1 (mkCursorArgs (len_txs c) true false false).

(** While messages are collected away, new ones wait for the next call. *)
Definition ClientMsgState (ms : list RxTx) (conns : list string) : dbg () :=
  tell (CRemove ["ClientMsg"]);;
  d ← peek;
  if bool_decide ("GcMsgs" ∈ d.(d_on)) then
    put (λ d, set_delayed (d.(d_msgsDelayed) ++ ms) (d.(d_msgsDelayedConns) ++ conns) d)
  else
    let waiting := negb (bool_decide (d.(d_msgsDelayed) = [])) in
    let ms := if waiting then d.(d_msgsDelayed) ++ ms else ms in
    let conns := if waiting then d.(d_msgsDelayedConns) ++ conns else conns in
    (if waiting then put (set_delayed [] []) else mret ());;
    u ← msgs_loop 0 ms conns (mkUpdates false false);
    match u with
    | Some u => (if u.(up_tail) then tail_cursor else mret ());; hUpdateAddressBar;; mret ()
    | None => mret ()
    end.

(** *** Selecting clients, groups, states and tools *)

Definition filter_selected : dbg () :=
  d ← peek;
  match d.(d_C) with
  | None => mret ()
  | Some p => c ← client p; c ← hlift (hFilterClientTxs d.(d_on) c); upd p (λ _, c)
  end.

Definition SelectingClientEnter (cid : string) (d : Debugger) : bool :=
  let same := match d.(d_C) ≫= (λ p, d.(d_objs) !! p) with
              | Some c => bool_decide (cid = c.(cl_Id)) && bool_decide ("ClientSelected" ∈ d.(d_on))
              | None => false
              end in
  negb same && negb (bool_decide (d.(d_Clients) = ∅)) && negb (bool_decide (cid = ""))
  && bool_decide (is_Some (d.(d_Clients) !! cid)).

(** [before]: the active states before the transition. *)
Definition SelectingClientState (clientId group : string) (fromConnected : bool) (before : gset string) : dbg () :=
  d ← peek;
  match d.(d_Clients) !! clientId with
  | None => tell (CLog ("Error: client not found: " +:+ clientId))
  | Some p =>
      put (set_C (Some p));;
      (if bool_decide (group = "") then mret () else upd p (set_group group));;
      spawn (GSelecting (bool_decide ("TailMode" ∈ before)) fromConnected (bool_decide ("Playing" ∈ before)))
  end.
(** The goroutine filters, asks the machine's loop to move the cursor, and goes
    on to the selected state.  Its context is never done here, and the end of
    the log, which only drawing reads, is left out. *)
Definition selecting_eval (wasTailMode : bool) : dbg () :=
  d ← peek;
  moved ← (if wasTailMode then mret false else hScrollToTime d.(d_lastScrolledTxTime) true);
  if moved : bool then mret () else tail_cursor.
Definition selecting_fork (wasTailMode fromConnected fromPlaying : bool) : dbg () :=
  filter_selected;;
  selecting_eval wasTailMode;;
  tell (CAdd (["ClientSelected"; "BuildingLog"] ++ if wasTailMode then ["TailMode"] else [])
          ((if fromConnected then [AFromConnected] else []) ++ if fromPlaying then [AFromPlaying] else [])).

(** [selecting]: the transition selects another client. *)
Definition ClientSelectedEnd (selecting : bool) : dbg () :=
  (if selecting then mret () else put (set_C None));; hRedrawFull.

Definition SetGroupEnter (group : string) (C : option Client) : outcome bool :=
  if bool_decide (group = "") then Ok false
  else
    let group := (cut_at (chr 58) group).1 in
    match C with
    | None => Panic "invalid memory address or nil pointer dereference"
    | Some c =>
        Ok (negb (bool_decide (group = "")) && negb (bool_decide (group = c.(cl_SelectedGroup)))
            && bool_decide (is_Some (c.(cl_Schema).(sp_Groups) !! group)))
    end.
Definition SetGroupState (group : string) : dbg () :=
  p ← current;
  let g := if bool_decide (group = "all") then "" else (cut_at (chr 58) group).1 in
  upd p (set_group g);;
  put (λ d, set_selected g d.(d_selectedState) d);;
  c ← client p;
  tells [CAdd ["DiagramsMachRendering"] []; CAdd ["DiagramsStatesRendering"] [];
         CAdd ["ToolToggled"; "UpdateLogScheduled"] [AFilterTxs; ARebuildEnd (len_txs c)]].

Definition StateNameSelectedState (state : string) : dbg () :=
  p ← current;
  upd p (set_state state);;
  put (λ d, set_selected d.(d_selectedGroup) state d).
Definition StateNameSelectedEnd : dbg () :=
  d ← peek;
  (match d.(d_C) with Some p => upd p (set_state "") | None => mret () end);;
  put (λ d, set_selected d.(d_selectedGroup) "" d).

(** After a tool changed: the filters are applied, and the cursor moves off what
    they hide. *)
Definition ToolToggledState (filterTxs : bool) : dbg () :=
  (if filterTxs then filter_selected else mret ());;
  d ← peek;
  (match d.(d_C) with
   | None => mret ()
   | Some p =>
       (if bool_decide ("TailMode" ∈ d.(d_on)) then tail_cursor else mret ());;
       c ← client p;
       tells [CAdd ["BuildingLog"] [ARebuildEnd (len_txs c)]; CAdd ["UpdateLogScheduled"] []];;
       (if filterTxs then hSetCursor1 (mkCursorArgs c.(cl_CursorTx1) true false false) else mret ())
   end);;
  tell (CRemove ["ToolToggled"]).

(** *** Collecting messages *)

Definition msgMaxThreshold : Z := 300.

(** The first half of what a client keeps is dropped.  Only the selected client's
    cursor moves with it; errors stay as they are. *)
Definition gc_client (p : nat) : dbg () :=
  c ← client p;
  let idx := len_txs c `div` 2 in
  upd p (λ c, set_txs (drop (Z.to_nat idx) c.(cl_MsgTxs)) c);;
  (if bool_decide (idx ≤ Z.of_nat (length c.(cl_MsgTxsParsed))) then mret () else hlift (Panic "slice bounds out of range"));;
  upd p (λ c, ClearCache (set_parsed c.(cl_MTimeSum) c.(cl_Errors) (drop (Z.to_nat idx) c.(cl_MsgTxsParsed)) c));;
  d ← peek;
  (if bool_decide (d.(d_C) = Some p) then
     c ← client p;
     tell (CAdd ["BuildingLog"] [ARebuildEnd (len_txs c)]);;
     upd p (λ c, set_cursor (Z.max 0 (c.(cl_CursorTx1) - idx)) c);;
     (if filtersActive d.(d_on) then filter_selected else mret ())
   else mret ());;
  c ← client p;
  if bool_decide (len_txs c < msgMaxThreshold)
  then tell (CAdd ["RemoveClient"] [AClient c.(cl_Id)])
  else upd p (λ c, set_parsed (fold_left (λ s q, wrap64 (s + q.(pa_TimeSum))) c.(cl_MsgTxsParsed) 0)
                     c.(cl_Errors) c.(cl_MsgTxsParsed) c).

(** [over], [expired]: the memory is over the limit, and the context is done, at a
    round.  After a hundred rounds it gives up. *)
Fixpoint gc_rounds (fuel : nat) (over expired : nat → bool) (round : nat) (ps : list nat) : dbg () :=
  match fuel with
  | O => hlift Block
  | S fuel =>
      if negb (over round) then mret ()
      else if expired round then tell (CLog "GC: context expired")
      else if bool_decide (100 < round)%nat then tell (CErr "too many GC rounds")
      else
        tell (CLog ("GC tx round " +:+ pretty (Z.of_nat round)));;
        hfor gc_client ps;;
        gc_rounds fuel over expired (S round) ps
  end.
Definition GcMsgsState (over expired : nat → bool) : dbg () :=
  d ← peek;
  gc_rounds 102 over expired 0 (map_to_list d.(d_Clients)).*2;;
  hBuildMarkersIndex;;
  hRedrawFull;;
  tell (CRemove ["GcMsgs"]).
End handlers.
End Handlers.
