(* ===== verification/DbgRuns.v ===== *)
(** * Runs of the debugger's handlers

    Whatever the machine has active, a debugger whose clients are in order takes
    messages that can be read, and moves through them, without a panic, and its
    clients stay in order ([debugger_runs]). *)

From S2P Require Import Prelude StateList SchemaDef MachTime Mutation Machine GoStrings Logging Dbg NetMach Requests Effects Shipped DbgClient DbgView DbgHandlers.
Import Client Addr View Parse Handlers.

#[local] Open Scope Z_scope.

(** ** Clients in order *)

(** Each message is parsed and names its states, the cursor and the positions
    kept are those of messages. *)
Record client_ok (c : Client) : Prop := mkClientOk {
  co_parsed : length c.(cl_MsgTxsParsed) = length c.(cl_MsgTxs);
  co_cursor : 0 ≤ c.(cl_CursorTx1) ≤ len_txs c;
  co_called : Forall (λ x, ∃ names, CalledStateNames x.(rx_Msg) c.(cl_MsgStruct).(ms_StatesIndex) = Ok names) c.(cl_MsgTxs);
  co_states : Forall numbered c.(cl_MsgTxsParsed);
  co_cache : ∀ id i, c.(cl_txCache) !! id = Some i → 0 ≤ i < len_txs c;
}.

(** The states of a machine, and its parent. *)
Definition place (m : DbgMsgStruct) : list string * string := (m.(ms_StatesIndex), m.(ms_Parent)).

(** What is changed of a client leaves it in order, and its names alone. *)
Definition keeps_client (c c' : Client) : Prop :=
  client_ok c' ∧ place c'.(cl_MsgStruct) = place c.(cl_MsgStruct)
  ∧ c'.(cl_Id) = c.(cl_Id) ∧ c'.(cl_ConnId) = c.(cl_ConnId).

Lemma slice_get_in {A} (l : list A) i : 0 ≤ i < Z.of_nat (length l) → ∃ x, slice_get l i = Ok x ∧ x ∈ l.
Proof.
  intros Hi. destruct (lookup_lt_is_Some_2 l (Z.to_nat i)) as [x Hx]; [lia|]. exists x.
  split; [apply slice_get_ok; split; [lia|done]|by eapply list_elem_of_lookup_2].
Qed.

Lemma hFilterTx_ok c i f : client_ok c → 0 ≤ i < len_txs c → ∃ b, hFilterTx c i f = Ok b.
Proof.
  intros [Hp _ Hc _ _] Hi. unfold hFilterTx. unfold len_txs in *.
  destruct (slice_get_in c.(cl_MsgTxs) i Hi) as (x & Hx & Hin). rewrite Hx. cbn [mbind outcome_bind].
  destruct (TxParsed i c) as [q|]; [|eauto]. rewrite Forall_forall in Hc. destruct (Hc x Hin) as [names Hn]. rewrite Hn.
  cbn [mbind outcome_bind].
  assert (∃ o, TxExecutedBy i c = Ok o) as [o Ho].
  { unfold TxExecutedBy. rewrite Hx. cbn. destruct (negb _); eauto. }
  rewrite Ho. repeat (case_match; cbn [mbind outcome_bind]); eauto.
Qed.

Lemma hFilterClientTxs_ok on c : client_ok c → ∃ l, hFilterClientTxs on c = Ok (set_filtered l c).
Proof.
  intros Hc. unfold hFilterClientTxs. destruct (negb _); [exists c.(cl_MsgTxsFiltered); by destruct c|].
  assert (H : ∀ is_ acc, (∀ i, i ∈ is_ → 0 ≤ i < len_txs c) → ∃ l, filter_txs c (filtersFromStates on) acc is_ = Ok l).
  { induction is_ as [|i is_ IH]; intros acc Hin; cbn; [eauto|].
    destruct (hFilterTx_ok c i (filtersFromStates on) Hc) as [b Hb]; [apply Hin; left|].
    unfold filter_one. rewrite Hb. cbn. apply IH. intros k Hk. apply Hin. by right. }
  destruct (H (indexes (length c.(cl_MsgTxs))) []) as [l Hl]; [intros i ?%elem_of_indexes; unfold len_txs; lia|].
  rewrite Hl. cbn. eauto.
Qed.

Lemma cursor_range on c new back : client_ok c → 0 ≤ new ≤ len_txs c → 0 ≤ hFilterTxCursor1 on c new back ≤ len_txs c.
Proof.
  intros [_ Hcur _ _ _] Hnew. unfold hFilterTxCursor1. destruct (negb _); [done|]. destruct back.
  - pose proof (cursor_loop_back (S (length c.(cl_MsgTxs))) on c new) as H. cbv zeta in H.
    destruct H as (H & _ & _); [unfold len_txs in *; lia|lia|]. lia.
  - destruct (decide (new = 0)) as [->|]; [cbn [cursor_loop]; rewrite bool_decide_eq_true_2 by lia; lia|].
    pose proof (cursor_loop_fwd (S (length c.(cl_MsgTxs))) on c new) as H. cbv zeta in H.
    destruct H as [(H & _ & _)|[_ [[-> _]| ->]]]; [unfold len_txs in *; lia|lia..].
Qed.

Lemma TxIndex_ok id c : client_ok c → -1 ≤ (TxIndex id c).1 < len_txs c ∧ client_ok (TxIndex id c).2
  ∧ (TxIndex id c).2.(cl_CursorTx1) = c.(cl_CursorTx1) ∧ len_txs (TxIndex id c).2 = len_txs c.
Proof.
  intros Hc. destruct Hc as [H1 H2 H3 H4 H5] eqn:E. clear E. unfold TxIndex.
  destruct (cl_txCache c !! id) as [i|] eqn:Hi.
  { specialize (H5 id i Hi). cbn. split_and!; [lia..|done|done|done]. }
  destruct (list_find _ _) as [[i x]|] eqn:Hf; cbn.
  - apply list_find_Some in Hf as (Hl & _). apply lookup_lt_Some in Hl. unfold len_txs.
    split_and!; [lia..| |done|done]. split; cbn; [done|done|done|done|]. intros id' j. rewrite lookup_insert_Some.
    intros [[_ <-]|[_ Hj]]; [unfold len_txs; cbn; lia|by apply (H5 id')].
  - unfold len_txs in *. split_and!; [lia..|done|done|done].
Qed.

Lemma take_ok graph ocl acl on c x cs gs :
  client_ok c → msg_ok c.(cl_MsgStruct).(ms_StatesIndex) x.(rx_Msg) →
  ∃ c' cs', take_msg graph ocl acl on x (mkMem c cs gs) = (mkMem c' cs' gs, Ok ())
            ∧ keeps_client c c' ∧ len_txs c' = len_txs c + 1.
Proof.
  intros [Hp Hcur Hc Hs Hca] Hm. set (c1 := set_txs (c.(cl_MsgTxs) ++ [x]) c) in *.
  destruct (hParseMsg_ok graph ocl acl on c1 cs gs x) as (m' & q & cs' & Hrun & Hsum & Hq & Hk).
  { cbn. rewrite length_app. cbn. lia. }
  { cbn. apply list_lookup_middle. lia. }
  { done. }
  assert (Hidx : len_txs c1 - 1 = Z.of_nat (length (cl_MsgTxsParsed c1))).
  { unfold len_txs. cbn. rewrite length_app. cbn. lia. }
  unfold take_msg. rewrite put_bind, peek_bind. cbn [fields calls gos]. fold c1. rewrite Hidx, Hrun.
  eexists _, _. split; [reflexivity|]. cbn [c1 set_txs cl_MsgTxs cl_MsgTxsParsed]. rewrite insert_app_r_alt by lia.
  replace (length (cl_MsgTxsParsed c) - length (cl_MsgTxs c))%nat with 0%nat by lia. cbn [insert list_insert].
  assert (Hlen : ∀ y : RxTx, Z.of_nat (length (c.(cl_MsgTxs) ++ [y])) = len_txs c + 1).
  { intros y. unfold len_txs. rewrite length_app. cbn. lia. }
  split; [|apply Hlen]. split; [|done]. split; unfold len_txs; cbn [set_parsed set_txs cl_MsgTxs cl_MsgTxsParsed cl_CursorTx1 cl_txCache cl_MsgStruct c1].
  - rewrite !length_app. cbn. lia.
  - rewrite Hlen. unfold len_txs in *. lia.
  - apply Forall_app. split; [done|]. constructor; [|done]. exact (kp_called _ _ _ Hk).
  - apply Forall_app. split; [done|]. by constructor.
  - intros id i Hi. rewrite Hlen. specialize (Hca id i Hi). lia.
Qed.

(** *** Parents *)

(** The clients above one, when there is an end to them: all different. *)
Lemma parents_chain d fuel c tags :
  is_Some (hGetParentTags fuel d c tags) →
  ∃ l, NoDup l ∧ (∀ id, id ∈ l → id ∈ dom d.(d_Clients))
    ∧ (∀ k ts, is_Some (hGetParentTags k d c ts) ↔ (length l < k)%nat)
    ∧ ∀ id, id ∈ l → ∃ p e n, d.(d_Clients) !! id = Some p ∧ d.(d_objs) !! p = Some e ∧ (n < length l)%nat
        ∧ ∀ k ts, is_Some (hGetParentTags k d e ts) ↔ (n < k)%nat.
Proof.
  revert c tags. induction fuel as [|fuel IH]; intros c tags; [by intros [? ?]|]. cbn [hGetParentTags].
  destruct (d_Clients d !! _) as [p|] eqn:Hp; cbn [mbind option_bind]; [destruct (d_objs d !! p) as [e|] eqn:He|].
  2, 3: intros _; exists []; split_and!; [by apply NoDup_nil_2|set_solver| |set_solver];
    (intros [|k] ts; cbn; [split; [by intros [? ?]|lia]|]); rewrite Hp; cbn; rewrite ?He; (split; [lia|eauto]).
  intros (l & Hnd & Hdom & Hlen & Hall)%IH. exists (c.(cl_MsgStruct).(ms_Parent) :: l).
  assert (Hnew : ms_Parent (cl_MsgStruct c) ∉ l).
  { intros (q & f & n & Hq & Hf & Hn & Hk)%Hall. rewrite Hp in Hq. injection Hq as <-. rewrite He in Hf. injection Hf as <-.
    specialize (Hlen (S n) []). specialize (Hk (S n) []). assert (is_Some (hGetParentTags (S n) d e [])) as Hs by (apply Hk; lia).
    apply Hlen in Hs. lia. }
  split_and!; [by apply NoDup_cons| | |].
  - intros id [->|Hid]%elem_of_cons; [by apply elem_of_dom|auto].
  - intros [|k] ts; cbn; [split; [by intros [? ?]|lia]|]. rewrite Hp. cbn. rewrite He, Hlen. lia.
  - intros id [->|Hid]%elem_of_cons.
    + exists p, e, (length l). split_and!; [done|done|cbn; lia|done].
    + destruct (Hall id Hid) as (q & f & n & ? & ? & ? & ?). exists q, f, n. split_and!; [done|done|cbn; lia|done].
Qed.

(** One step more than there are clients is enough, or none are. *)
Lemma hGetParentTags_fuel d fuel c tags :
  is_Some (hGetParentTags fuel d c tags) → is_Some (hGetParentTags (S (size d.(d_Clients))) d c tags).
Proof.
  intros (l & Hnd & Hdom & Hlen & _)%parents_chain. apply Hlen.
  assert (length l ≤ size (dom d.(d_Clients)))%nat as Hl; [|by rewrite size_dom in Hl; lia].
  rewrite <- (size_list_to_set (C := gset string) l Hnd). apply subseteq_size. intros id. rewrite elem_of_list_to_set. auto.
Qed.

Lemma mach_changes_ok l step is_ :
  (∀ i, i ∈ is_ → 0 ≤ i < Z.of_nat (length l) ∧ 0 ≤ i + step < Z.of_nat (length l)) → ∃ b, mach_changes l step is_ = Ok b.
Proof.
  induction is_ as [|i is_ IH]; intros H; cbn; [eauto|]. destruct (H i) as [H1 H2]; [left|].
  destruct (slice_get_in l i H1) as (a & -> & _), (slice_get_in l (i + step) H2) as (b & -> & _). cbn.
  destruct (negb _); [eauto|]. apply IH. intros k Hk. apply H. by right.
Qed.

(** ** Debuggers in order *)

Section runs.
Context (ts : Z → string) (hash : string → Z → string).
Context (graph ocl : bool) (acl : DbgMsgTx → option string) (appendLog : Client → Z → option string).
Context (cleanOnConnect selectConnected : bool).

(** The states and the parent of a machine, by its name: a machine that comes back
    has the same; and no machine is above itself. *)
Context (machine_of : string → list string * string) (rank : string → nat).
Hypothesis older : ∀ id, (machine_of id).2 = "" ∨ (rank (machine_of id).2 < rank id)%nat.
Definition schema_of (id : string) : list string := (machine_of id).1.

Definition readable (x : RxTx) : Prop := msg_ok (schema_of x.(rx_Msg).(mx_MachineID)) x.(rx_Msg).

Record dbg_ok (d : Debugger) : Prop := mkDbgOk {
  do_client : ∀ p c, d.(d_objs) !! p = Some c → client_ok c ∧ place c.(cl_MsgStruct) = machine_of c.(cl_Id);
  do_map : ∀ id p, d.(d_Clients) !! id = Some p → ∃ c, d.(d_objs) !! p = Some c ∧ c.(cl_Id) = id;
  do_C : ∀ p, d.(d_C) = Some p → ∃ c, d.(d_objs) !! p = Some c;
  do_delayed : length d.(d_msgsDelayedConns) = length d.(d_msgsDelayed) ∧ Forall readable d.(d_msgsDelayed);
  do_named : d.(d_Clients) !! "" = None;
  do_history : d.(d_history).(h_cursor) = 0;
}.

(** What moving through clients leaves alone. *)
Record same (d d' : Debugger) : Prop := mkSame {
  sm_map : d'.(d_Clients) = d.(d_Clients);
  sm_C : d'.(d_C) = d.(d_C);
  sm_on : d'.(d_on) = d.(d_on);
  sm_objs : length d'.(d_objs) = length d.(d_objs);
  sm_ids : ∀ p c c', d.(d_objs) !! p = Some c → d'.(d_objs) !! p = Some c' → c'.(cl_Id) = c.(cl_Id) ∧ c'.(cl_ConnId) = c.(cl_ConnId);
  sm_delayed : d'.(d_msgsDelayed) = d.(d_msgsDelayed) ∧ d'.(d_msgsDelayedConns) = d.(d_msgsDelayedConns);
}.

(** A run that ends, in order. *)
Definition fine {A} (e : dbg A) (m : DbgMem) (Q : A → Debugger → Prop) : Prop :=
  ends e m (λ a m', dbg_ok m'.(fields) ∧ Q a m'.(fields)).

Lemma fine_bind {A B} (e : dbg A) (f : A → dbg B) m Q :
  fine e m (λ a d, ∀ m', m'.(fields) = d → dbg_ok d → fine (f a) m' Q) → fine (e ≫= f) m Q.
Proof.
  intros H. apply ends_bind. eapply ends_mono; [exact H|]. intros a m' [Hd Hf]. by apply Hf.
Qed.
Lemma fine_ret {A} (a : A) m (Q : A → Debugger → Prop) : dbg_ok m.(fields) → Q a m.(fields) → fine (mret a) m Q.
Proof. intros Hd HQ. by apply ends_ret. Qed.
Lemma fine_mono {A} (e : dbg A) m (Q Q' : A → Debugger → Prop) :
  fine e m Q → (∀ a d, Q a d → Q' a d) → fine e m Q'.
Proof. intros H HQ. eapply ends_mono; [exact H|]. intros a m' [Hd Ha]. auto. Qed.

(** Steps that cannot fail. *)
Lemma fine_run {A B} (e : dbg A) (f : A → dbg B) m a m' Q :
  e m = (m', Ok a) → fine (f a) m' Q → fine (e ≫= f) m Q.
Proof. intros He Hf. apply ends_bind. by exists a, m'. Qed.
Lemma fine_end {A} (e : dbg A) m a m' (Q : A → Debugger → Prop) :
  e m = (m', Ok a) → dbg_ok m'.(fields) → Q a m'.(fields) → fine e m Q.
Proof. intros He Hd HQ. by exists a, m'. Qed.

Lemma run_client p c m : m.(fields).(d_objs) !! p = Some c → client p m = (m, Ok c).
Proof. intros Hp. unfold client. rewrite peek_bind, Hp. done. Qed.
Lemma run_current p m : m.(fields).(d_C) = Some p → current m = (m, Ok p).
Proof. intros Hp. unfold current. rewrite peek_bind, Hp. done. Qed.
Lemma run_lift {A} (e : outcome A) a (m : DbgMem) : e = Ok a → hlift e m = (m, Ok a).
Proof. by intros ->. Qed.
Lemma run_selected m : dbg_ok m.(fields) →
  ∃ o, selected m = (m, Ok o)
       ∧ match o with Some c => ∃ p, m.(fields).(d_C) = Some p ∧ m.(fields).(d_objs) !! p = Some c | None => m.(fields).(d_C) = None end.
Proof.
  intros Hd. assert (Hs : selected m = match d_C (fields m) with
    None => (m, Ok None) | Some p => (c ← client p; mret (Some c)) m end).
  { change (selected m) with ((match d_C (fields m) with None => mret None | Some p => c ← client p; mret (Some c) end : dbg (option Client)) m).
    by destruct (d_C (fields m)). }
  rewrite Hs. destruct (d_C (fields m)) as [p|] eqn:Hp; [|by exists None].
  destruct (do_C _ Hd p Hp) as [c Hc]. exists (Some c). rewrite (held_ok_bind _ _ _ _ _ (run_client p c m Hc)). eauto.
Qed.

Lemma ok_objs d d' p c c' :
  dbg_ok d → d.(d_objs) !! p = Some c → keeps_client c c' →
  d'.(d_objs) = <[p := c']> d.(d_objs) → d'.(d_Clients) = d.(d_Clients) → d'.(d_C) = d.(d_C) → d'.(d_on) = d.(d_on) →
  d'.(d_msgsDelayed) = d.(d_msgsDelayed) → d'.(d_msgsDelayedConns) = d.(d_msgsDelayedConns) →
  d'.(d_history) = d.(d_history) → dbg_ok d' ∧ same d d'.
Proof.
  intros [H1 H2 H3 H4 H5 H6] Hp (Hk & Hidx & Hid & Hconn) Ho Hm HC Hon Hdm Hdc Hh.
  assert (Hlook : ∀ q e, d'.(d_objs) !! q = Some e → q = p ∧ e = c' ∨ q ≠ p ∧ d.(d_objs) !! q = Some e).
  { intros q e. rewrite Ho, list_lookup_insert_Some. naive_solver. }
  assert (Hat : d'.(d_objs) !! p = Some c').
  { rewrite Ho. apply list_lookup_insert_eq. by eapply lookup_lt_Some. }
  assert (Hne : ∀ q, q ≠ p → d'.(d_objs) !! q = d.(d_objs) !! q).
  { intros q Hq. by rewrite Ho, list_lookup_insert_ne. }
  split; [split|split].
  - intros q e [[-> ->]|[_ Hq]]%Hlook; [|by apply (H1 q)]. split; [done|]. rewrite Hidx, Hid. by apply (H1 p).
  - intros id q Hq. rewrite Hm in Hq. destruct (H2 id q Hq) as (e & He & Hid'). destruct (decide (q = p)) as [->|Hqp].
    + exists c'. split; [done|]. rewrite Hp in He. injection He as ->. by rewrite Hid.
    + exists e. by rewrite Hne.
  - intros q Hq. rewrite HC in Hq. destruct (H3 q Hq) as [e He]. destruct (decide (q = p)) as [->|]; [eauto|]. exists e. by rewrite Hne.
  - by rewrite Hdm, Hdc.
  - by rewrite Hm.
  - by rewrite Hh.
  - done.
  - done.
  - done.
  - rewrite Ho. apply length_insert.
  - intros q e e' He [[-> ->]|[_ Hq]]%Hlook; [|rewrite He in Hq; by injection Hq as ->].
    rewrite Hp in He. by injection He as ->.
  - done.
Qed.

Lemma same_refl d : same d d.
Proof. split; try done. intros p c c' Hc Hc'. rewrite Hc in Hc'. by injection Hc' as ->. Qed.
Lemma same_trans d1 d2 d3 : same d1 d2 → same d2 d3 → same d1 d3.
Proof.
  intros [A1 A2 A3 A4 A5 [A6 A7]] [B1 B2 B3 B4 B5 [B6 B7]]. split; try congruence; [|split; congruence].
  intros p c c' Hc Hc'. destruct (lookup_lt_is_Some_2 d2.(d_objs) p) as [e He].
  { rewrite A4. by eapply lookup_lt_Some. }
  destruct (A5 p c e Hc He), (B5 p e c' He Hc'). split; congruence.
Qed.

(** What is left of the clients by changes elsewhere. *)
Definition only (d d' : Debugger) : Prop :=
  d'.(d_objs) = d.(d_objs) ∧ d'.(d_Clients) = d.(d_Clients) ∧ d'.(d_C) = d.(d_C) ∧ d'.(d_on) = d.(d_on)
  ∧ d'.(d_msgsDelayed) = d.(d_msgsDelayed) ∧ d'.(d_msgsDelayedConns) = d.(d_msgsDelayedConns)
  ∧ (d.(d_history).(h_cursor) = 0 → d'.(d_history).(h_cursor) = 0).

Lemma prepend_start addr h : h.(h_cursor) = 0 → (hPrependHistory ts addr h).(h_cursor) = 0.
Proof. intros Hh. unfold hPrependHistory. destruct (h_items h); [done|]. by case_bool_decide. Qed.
Lemma remove_start id h : h.(h_cursor) = 0 → (hRemoveHistory id h).(h_cursor) = 0.
Proof.
  unfold hRemoveHistory. cbn [h_cursor]. intros ->. induction (indexes (length (h_items h))) as [|i l IH]; [done|].
  cbn [fold_left]. by rewrite andb_false_r.
Qed.

Lemma only_ok d d' : dbg_ok d → only d d' → dbg_ok d' ∧ same d d'.
Proof.
  intros [H1 H2 H3 H4 H5 H6] (Ho & Hm & HC & Hon & Hdm & Hdc & Hh). split; [split|split].
  - by rewrite Ho.
  - by rewrite Hm, Ho.
  - by rewrite HC, Ho.
  - by rewrite Hdm, Hdc.
  - by rewrite Hm.
  - auto.
  - done.
  - done.
  - done.
  - by rewrite Ho.
  - intros p c c' Hc Hc'. rewrite Ho, Hc in Hc'. by injection Hc' as ->.
  - done.
Qed.

Lemma only_prepend addr d : dbg_ok d →
  dbg_ok (set_history (hPrependHistory ts addr d.(d_history)) d) ∧ only d (set_history (hPrependHistory ts addr d.(d_history)) d).
Proof.
  intros Hd. assert (only d (set_history (hPrependHistory ts addr (d_history d)) d)) as Ho
    by (split_and!; try done; by apply prepend_start). split; [by apply (only_ok _ _ Hd)|done].
Qed.

Lemma hCurrentTx_ok c : client_ok c → ∃ o, hCurrentTx (Some c) = Ok o ∧ ∀ x, o = Some x → x ∈ c.(cl_MsgTxs).
Proof.
  intros Hc. unfold hCurrentTx. destruct (bool_decide_reflect (cl_CursorTx1 c = 0)) as [|H0]; cbn [orb]; [by exists None|].
  case_bool_decide; [by exists None|]. pose proof (co_cursor c Hc).
  destruct (slice_get_in c.(cl_MsgTxs) (c.(cl_CursorTx1) - 1)) as (x & Hx & Hin); [unfold len_txs in *; lia|].
  rewrite Hx. exists (Some x). split; [done|]. by intros y [= <-].
Qed.

Lemma hGetMachAddress_ok c : client_ok c → ∃ a, hGetMachAddress (Some c) = Ok (Some a).
Proof.
  intros Hc. unfold hGetMachAddress. case_bool_decide; cbn [mbind outcome_bind]; [|eauto]. pose proof (co_cursor c Hc).
  destruct (slice_get_in c.(cl_MsgTxs) (c.(cl_CursorTx1) - 1)) as (x & Hx & Hin); [unfold len_txs in *; lia|].
  rewrite Hx. cbn. eauto.
Qed.

Lemma set_cursor_ok c r : client_ok c → 0 ≤ r ≤ len_txs c → keeps_client c (set_cursor r c).
Proof. intros [] Hr. split; [|done]. by split. Qed.

(** What is selected, connected or filtered of a client. *)
Lemma fields_keep c : client_ok c →
  (∀ g, keeps_client c (set_group g c)) ∧ (∀ st, keeps_client c (set_state st c)) ∧ (∀ b, keeps_client c (set_conn b c))
  ∧ (∀ l, keeps_client c (set_filtered l c)) ∧ (∀ id b, keeps_client c (TxMark id b c)).
Proof. intros []. split_and!; intros; by split. Qed.

Lemma hSetCursor1_fine a p c m :
  dbg_ok m.(fields) → m.(fields).(d_C) = Some p → m.(fields).(d_objs) !! p = Some c → 0 ≤ a.(ca_Cursor1) ≤ len_txs c →
  fine (hSetCursor1 ts a) m (λ _ d, same m.(fields) d ∧ ∃ r, 0 ≤ r ≤ len_txs c ∧ d.(d_objs) !! p = Some (set_cursor r c)).
Proof.
  intros Hd HC Hp Ha. destruct (do_client _ Hd p c Hp) as [Hc _]. unfold hSetCursor1.
  eapply fine_run; [by apply run_current|]. eapply fine_run; [by apply run_client|].
  destruct (hCurrentTx_ok c Hc) as (tx & Htx & _). eapply fine_run; [by apply run_lift|].
  eapply fine_run; [reflexivity|]. eapply fine_run; [reflexivity|].
  set (r := hFilterTxCursor1 _ _ _ _). assert (Hr : 0 ≤ r ≤ len_txs c) by by apply cursor_range.
  set (m1 := mkMem _ _ _). set (c1 := set_cursor r c).
  assert (Hk : keeps_client c c1) by by apply set_cursor_ok.
  assert (Hobj : d_objs (fields m1) = <[p := c1]> (d_objs (fields m))).
  { cbn. by rewrite (alter_insert _ _ _ _ Hp). }
  destruct (ok_objs (fields m) (fields m1) p c c1 Hd Hp Hk Hobj) as [Hd1 Hs1]; [done..|].
  assert (Hp1 : d_objs (fields m1) !! p = Some c1) by (rewrite Hobj; apply list_lookup_insert_eq; by eapply lookup_lt_Some).
  assert (Hfin : ∀ e : dbg (), fine e m1 (λ _ d, only (fields m1) d) →
    fine e m1 (λ _ d, same (fields m) d ∧ ∃ r, 0 ≤ r ≤ len_txs c ∧ d_objs d !! p = Some (set_cursor r c))).
  { intros e He. eapply fine_mono; [exact He|]. intros [] d Hon. destruct (only_ok (fields m1) d Hd1 Hon) as [_ Hs2].
    split; [by eapply same_trans|]. exists r. split; [done|]. destruct Hon as [Ho _]. by rewrite Ho. }
  apply Hfin. assert (Hc1 : client_ok c1) by apply Hk. apply fine_bind.
  apply (fine_mono _ _ (λ _ d, only (fields m1) d)).
  - destruct (bool_decide _ && _); [|destruct (ca_TrimHistory a)].
    + eapply fine_run; [by apply run_client|]. destruct (hGetMachAddress_ok c1 Hc1) as [addr Ha'].
      eapply fine_run; [by apply run_lift|]. destruct (only_prepend addr _ Hd1). by eapply fine_end.
    + eapply fine_end; [reflexivity|by apply (only_ok _ _ Hd1)|done].
    + by apply fine_ret.
  - intros [] d Hon m2 <- Hd2. eapply fine_run; [reflexivity|].
    assert (Hp2 : d_objs (fields m2) !! p = Some c1) by (destruct Hon as [Ho _]; by rewrite Ho).
    assert (Hset : ∀ t, dbg_ok (set_time t (fields m2)) ∧ only (fields m1) (set_time t (fields m2))).
    { intros t. split; [by apply (only_ok _ _ Hd2)|exact Hon]. }
    destruct tx as [x|].
    + eapply fine_run; [reflexivity|]. eapply fine_run; [by apply run_client|].
      destruct (hCurrentTx_ok c1 Hc1) as (tx' & Htx' & _). eapply fine_run; [by apply run_lift|].
      destruct tx' as [x'|]; [|by apply fine_ret; apply Hset].
      eapply fine_end; [reflexivity|by apply (Hset (Some (rx_Time x')))|by apply (Hset (Some (rx_Time x')))].
    + eapply fine_end; [reflexivity|by apply (Hset None)|by apply (Hset None)].
Qed.

(** *** The address bar *)

(** No parent is above itself, so there is an end to the parents. *)
Lemma parents_end d c : dbg_ok d → place c.(cl_MsgStruct) = machine_of c.(cl_Id) →
  is_Some (hGetParentTags (S (size d.(d_Clients))) d c []).
Proof.
  intros Hd Hc. apply (hGetParentTags_fuel d (S (rank c.(cl_Id)))).
  enough (H : ∀ n c tags, (rank (cl_Id c) < n)%nat → place c.(cl_MsgStruct) = machine_of c.(cl_Id) → is_Some (hGetParentTags n d c tags)) by by apply H; [lia|].
  clear c Hc. induction n as [|n IH]; intros c tags Hn Hc; [lia|]. cbn.
  assert (Hpar : ms_Parent (cl_MsgStruct c) = (machine_of c.(cl_Id)).2) by by rewrite <- Hc.
  destruct (d_Clients d !! _) as [p|] eqn:Hp; cbn; [|eauto]. destruct (d_objs d !! p) as [e|] eqn:He; cbn; [|eauto].
  destruct (do_map _ Hd _ _ Hp) as (e' & He' & Hid). rewrite He in He'. injection He' as <-.
  apply IH; [|by apply (do_client _ Hd p)]. rewrite Hid, Hpar. destruct (older c.(cl_Id)) as [H0|Hr]; [|lia].
  rewrite Hpar, H0, (do_named _ Hd) in Hp. done.
Qed.

Lemma hUpdateAddressBar_ok m : dbg_ok m.(fields) → ∃ bar, hUpdateAddressBar m = (m, Ok bar).
Proof.
  intros Hd. unfold hUpdateAddressBar. destruct (run_selected m Hd) as (o & Hrun & Ho).
  rewrite (held_ok_bind _ _ _ _ _ Hrun).
  assert (∃ id, (match o with
    | Some c => if bool_decide (0 < c.(cl_CursorTx1)) then x ← hlift (slice_get c.(cl_MsgTxs) (c.(cl_CursorTx1) - 1)); mret x.(rx_Msg).(mx_ID) else mret ""
    | None => mret "" end : dbg string) m = (m, Ok id)) as [id Htx].
  { destruct o as [c|]; [|eauto]. destruct Ho as (p & _ & Hp). destruct (do_client _ Hd p c Hp) as [Hc _].
    case_bool_decide; [|eauto]. pose proof (co_cursor c Hc).
    destruct (slice_get_in c.(cl_MsgTxs) (c.(cl_CursorTx1) - 1)) as (x & Hx & _); [unfold len_txs in *; lia|].
    rewrite (held_lift_bind _ _ _ _ Hx). eauto. }
  rewrite (held_ok_bind _ _ _ _ _ Htx), peek_bind. cbv zeta. rewrite (do_history _ Hd).
  destruct (mach_changes_ok (h_items (d_history (fields m))) (-1) (reverse (seqZ 1 0))) as [b1 H1]; [by intros i ?%not_elem_of_nil|].
  destruct (mach_changes_ok (h_items (d_history (fields m))) 1 (seqZ 0 (Z.of_nat (length (h_items (d_history (fields m)))) - 1 - 0)))
    as [b2 H2]; [intros i ?%elem_of_seqZ; lia|].
  rewrite (held_lift_bind _ _ _ _ H1), (held_lift_bind _ _ _ _ H2).
  destruct o as [c|]; [|by eexists]. destruct Ho as (p & _ & Hp). destruct (do_client _ Hd p c Hp) as [_ Hpl].
  destruct (bool_decide (cl_Id c = "")); [by eexists|]. destruct (parents_end _ c Hd Hpl) as [tags Ht]. rewrite Ht. by eexists.
Qed.

Lemma hRedrawFull_ok m : dbg_ok m.(fields) → hRedrawFull m = (m, Ok ()).
Proof. intros Hd. destruct (hUpdateAddressBar_ok m Hd) as [bar Hb]. unfold hRedrawFull. by rewrite (held_ok_bind _ _ _ _ _ Hb). Qed.

(** *** Moving *)

Definition any {A} : A → Debugger → Prop := λ _ _, True.

Lemma fine_tell {A} x (f : () → dbg A) m Q :
  fine (f ()) (mkMem m.(fields) (m.(calls) ++ [x]) m.(gos)) Q → fine (tell x ≫= f) m Q.
Proof. intros H. by eapply fine_run. Qed.

Lemma fine_redraw m : dbg_ok m.(fields) → fine hRedrawFull m any.
Proof. intros Hd. eapply fine_end; [by apply hRedrawFull_ok|done..]. Qed.
Lemma fine_bar m : dbg_ok m.(fields) → fine (hUpdateAddressBar;; mret ()) m any.
Proof.
  intros Hd. destruct (hUpdateAddressBar_ok m Hd) as [bar Hb]. eapply fine_run; [exact Hb|]. by apply fine_ret.
Qed.

Lemma fine_tells l m : dbg_ok m.(fields) → fine (tells l) m any.
Proof. intros Hd. by eapply fine_end. Qed.

(** Changes of the client [p], for good. *)
Lemma fine_upd p c f m :
  dbg_ok m.(fields) → m.(fields).(d_objs) !! p = Some c → keeps_client c (f c) →
  fine (upd p f) m (λ _ d, same m.(fields) d ∧ d.(d_objs) !! p = Some (f c)).
Proof.
  intros Hd Hp Hk. destruct (ok_objs (fields m) (set_objs (alter f p (d_objs (fields m))) (fields m)) p c (f c) Hd Hp Hk)
    as [Hd1 Hs1]; [by apply alter_insert|done..|]. eapply fine_end; [reflexivity|exact Hd1|].
  split; [exact Hs1|]. cbn. by rewrite list_lookup_alter_eq, Hp.
Qed.

Lemma fine_put {A} g (f : () → dbg A) m Q :
  dbg_ok m.(fields) → only m.(fields) (g m.(fields)) →
  (∀ m', m'.(fields) = g m.(fields) → dbg_ok m'.(fields) → fine (f ()) m' Q) → fine (put g ≫= f) m Q.
Proof.
  intros Hd Ho Hf. eapply fine_run; [reflexivity|]. apply Hf; [done|]. cbn. by apply (only_ok _ _ Hd).
Qed.

Lemma FwdState_fine amount m c :
  dbg_ok m.(fields) → (∃ p, m.(fields).(d_C) = Some p ∧ m.(fields).(d_objs) !! p = Some c) →
  FwdEnter amount (Some c) = Ok true → fine (FwdState ts amount) m any.
Proof.
  intros Hd (p & HC & Hp) [= He%bool_decide_eq_true]. destruct (do_client _ Hd p c Hp) as [Hc _].
  pose proof (co_cursor c Hc). unfold FwdState. apply fine_tell. eapply fine_run; [by apply run_current|].
  eapply fine_run; [by apply run_client|]. apply fine_bind. eapply fine_mono; [apply (hSetCursor1_fine _ p c); [done..|cbn; lia]|].
  intros [] d (Hs & r & Hr & Hp1) m' <- Hd'. eapply fine_run; [reflexivity|]. eapply fine_run; [by apply run_client|].
  eapply fine_run; [by apply cond_tell|]. by apply fine_redraw.
Qed.

Lemma BackState_fine amount m c :
  dbg_ok m.(fields) → (∃ p, m.(fields).(d_C) = Some p ∧ m.(fields).(d_objs) !! p = Some c) →
  BackEnter amount (Some c) = Ok true → fine (BackState ts amount) m any.
Proof.
  intros Hd (p & HC & Hp) [= He%bool_decide_eq_true]. destruct (do_client _ Hd p c Hp) as [Hc _].
  pose proof (co_cursor c Hc). unfold BackState. apply fine_tell. eapply fine_run; [by apply run_current|].
  eapply fine_run; [by apply run_client|]. apply fine_bind.
  eapply fine_mono; [apply (hSetCursor1_fine _ p c); [done..|cbn; lia]|]. intros [] d _ m' <- Hd'. by apply fine_redraw.
Qed.

Lemma TxIndex_keeps id c : client_ok c → keeps_client c (TxIndex id c).2.
Proof.
  intros Hc. destruct (TxIndex_ok id c Hc) as (_ & Hk & _). split; [done|]. unfold TxIndex.
  destruct (_ !! _); [done|]. destruct (list_find _ _) as [[i x]|]; done.
Qed.

Lemma ScrollToTxState_fine cursor1 id trim m c :
  dbg_ok m.(fields) → (∃ p, m.(fields).(d_C) = Some p ∧ m.(fields).(d_objs) !! p = Some c) →
  ScrollToTxEnter cursor1 id (Some c) = true → fine (ScrollToTxState ts cursor1 id trim) m any.
Proof.
  intros Hd (p & HC & Hp) He. destruct (do_client _ Hd p c Hp) as [Hc _].
  unfold ScrollToTxState. eapply fine_run; [by apply run_current|]. apply fine_bind.
  apply (fine_mono _ _ (λ i d, d.(d_C) = Some p ∧ ∃ c', d.(d_objs) !! p = Some c' ∧ 0 ≤ i ≤ len_txs c')).
  - destruct (bool_decide_reflect (id = "")) as [->|Hid].
    + apply fine_ret; [done|]. split; [done|]. exists c. split; [done|]. cbn in He.
      apply andb_prop in He as [?%bool_decide_eq_true ?%bool_decide_eq_true]. lia.
    + destruct (TxIndex_ok id c Hc) as (Hi & _ & _ & Hl). eapply fine_run; [by apply run_client|]. apply fine_bind.
      eapply fine_mono; [by apply (fine_upd p c), TxIndex_keeps|]. intros [] d [Hs Hp1] m' <- Hd'.
      apply fine_ret; [done|]. split; [by rewrite (sm_C _ _ Hs)|]. eexists. split; [exact Hp1|]. cbn. lia.
  - intros i d (HC' & c' & Hp' & Hi) m' <- Hd'. apply fine_bind.
    eapply fine_mono; [by apply (hSetCursor1_fine _ p c')|]. intros [] d _ m'' <- Hd''.
    eapply fine_run; [by apply hRedrawFull_ok|]. by eapply fine_end.
Qed.

Lemma at_time_range t c : at_time t c = -1 ∨ 0 ≤ at_time t c ≤ len_txs c.
Proof.
  unfold at_time. destruct t as [t|].
  - unfold TxAtHTime, tx_at. case_bool_decide as H0; [by left|]. right.
    pose proof (search_loop_range (Z.to_nat (len_txs c)) (λ i, match c.(cl_MsgTxs) !! Z.to_nat i with
      Some x => bool_decide (t ≤ x.(rx_Time)) | None => false end) 0 (len_txs c)) as Hr.
    unfold sort_Search. set (r := search_loop _ _ _ _) in *. assert (0 ≤ len_txs c) by (unfold len_txs; lia).
    specialize (Hr ltac:(lia)). case_bool_decide; lia.
  - case_bool_decide; [by left|]. right. unfold len_txs in *. lia.
Qed.

Lemma tail_cursor_fine m p :
  dbg_ok m.(fields) → m.(fields).(d_C) = Some p → fine (tail_cursor ts) m (λ _ d, same m.(fields) d).
Proof.
  intros Hd HC. destruct (do_C _ Hd p HC) as [c Hp]. unfold tail_cursor. eapply fine_run; [by apply run_current|].
  eapply fine_run; [by apply run_client|].
  eapply fine_mono; [apply (hSetCursor1_fine _ p c); [done..|cbn; unfold len_txs; lia]|]. by intros [] d [Hs _].
Qed.

Lemma hScrollToTime_fine t b m : dbg_ok m.(fields) → fine (hScrollToTime ts t b) m (λ _ d, same m.(fields) d).
Proof.
  intros Hd. unfold hScrollToTime. destruct (run_selected m Hd) as (o & Hrun & Ho).
  eapply fine_run; [exact Hrun|]. destruct o as [c|]; [|by apply fine_ret; [|apply same_refl]].
  destruct Ho as (p & HC & Hp). destruct (do_client _ Hd p c Hp) as [Hc _]. cbv zeta.
  destruct (bool_decide_reflect (at_time t c = -1)); [by apply fine_ret; [|apply same_refl]|].
  eapply fine_run; [reflexivity|]. apply fine_bind.
  destruct (at_time_range t c) as [|Hr]; [done|]. eapply fine_mono.
  - apply (hSetCursor1_fine _ p c); [done..|]. cbn. destruct b; [by apply cursor_range|done].
  - intros [] d [Hs _] m' <- Hd'. by apply fine_ret.
Qed.

Lemma mut_loop_ok fuel on c st step i : client_ok c → ∃ o, mut_loop fuel on c st step i = Ok o.
Proof.
  intros Hc. revert i. induction fuel as [|fuel IH]; intros i; cbn; [eauto|].
  destruct (negb _) eqn:Hrange; [eauto|]. apply negb_false_iff, andb_prop in Hrange as [H1%bool_decide_eq_true H2%bool_decide_eq_true].
  destruct (slice_get_in c.(cl_MsgTxsParsed) (i - 1)) as (q & Hq & Hqin); [rewrite (co_parsed c Hc); unfold len_txs in *; lia|].
  destruct (slice_get_in c.(cl_MsgTxs) (i - 1)) as (x & Hx & Hxin); [unfold len_txs in *; lia|].
  rewrite Hq, Hx. cbn. pose proof (co_states c Hc) as Hst. rewrite Forall_forall in Hst. destruct (Hst q Hqin) as [Ha Hr].
  pose proof (co_called c Hc) as Hca. rewrite Forall_forall in Hca. destruct (Hca x Hxin) as [names Hn].
  destruct (IndexesToStates_ok (ms_StatesIndex (cl_MsgStruct c)) _ Ha) as [added Hadd].
  destruct (IndexesToStates_ok (ms_StatesIndex (cl_MsgStruct c)) _ Hr) as [removed Hrem].
  rewrite Hadd, Hrem, Hn. cbn.
  repeat (case_match; cbn [mbind outcome_bind]; try apply IH; eauto).
Qed.

Lemma ScrollToMutTxState_fine st fwd m : dbg_ok m.(fields) → fine (ScrollToMutTxState st fwd) m any.
Proof.
  intros Hd. unfold ScrollToMutTxState. apply fine_tell. set (m1 := mkMem _ _ _). assert (Hd1 : dbg_ok (fields m1)) by done.
  destruct (run_selected m1 Hd1) as (o & Hrun & Ho). eapply fine_run; [exact Hrun|]. eapply fine_run; [reflexivity|].
  destruct o as [c|]; [|by apply fine_ret]. destruct Ho as (p & _ & Hp). destruct (do_client _ Hd p c Hp) as [Hc _].
  match goal with |- context [mut_loop ?n ?on c st ?s ?i] => destruct (mut_loop_ok n on c st s i Hc) as [o Ho] end.
  eapply fine_run; [by apply run_lift|]. destruct o; [by eapply fine_end|by apply fine_ret].
Qed.

(** *** Markers *)

Lemma mark_items_keeps on l items c : client_ok c → keeps_client c (fold_left (mark_item on) l (items, c)).2.
Proof.
  revert items c. induction l as [|id l IH]; intros items c Hc; [done|]. cbn [fold_left].
  assert (H : keeps_client c (mark_item on (items, c) id).2).
  { unfold mark_item. destruct (_ && _); [done|]. destruct (_ && machIsRpc _); [done|].
    pose proof (TxIndex_keeps id c Hc) as Hk. destruct (TxIndex id c) as [idx c1]. cbn in Hk.
    destruct (Tx idx c1); [|done]. by destruct (_ && _). }
  destruct (mark_item on (items, c) id) as [items1 c1]. cbn in H. destruct H as (Hc1 & Hx & Hi & Hn).
  destruct (IH items1 c1 Hc1) as (Hc2 & Hx2 & Hi2 & Hn2). split; [done|]. split_and!; congruence.
Qed.

Lemma mark_clients_ok l items d :
  dbg_ok d → dbg_ok (fold_left mark_client l (items, d)).2 ∧ same d (fold_left mark_client l (items, d)).2.
Proof.
  revert items d. induction l as [|[id p] l IH]; intros items d Hd; [by split; [|apply same_refl]|]. cbn [fold_left].
  unfold mark_client at 2 4. cbn [snd]. destruct (d_objs d !! p) as [c|] eqn:Hp; [|by apply IH].
  destruct (do_client _ Hd p c Hp) as [Hc _]. pose proof (mark_items_keeps (d_on d) (elements (cl_Markers c)) items c Hc) as Hk.
  destruct (fold_left _ _ (items, c)) as [items1 c1]. cbn in Hk.
  destruct (ok_objs d (set_objs (<[p := c1]> (d_objs d)) d) p c c1 Hd Hp Hk) as [Hd1 Hs1]; [done..|].
  destruct (IH items1 _ Hd1) as [Hd2 Hs2]. split; [exact Hd2|by eapply same_trans].
Qed.

Lemma build_markers_ok d : dbg_ok d → dbg_ok (build_markers d) ∧ same d (build_markers d).
Proof.
  intros Hd. unfold build_markers. destruct (mark_clients_ok (map_to_list (d_Clients d)) [] d Hd) as [Hd1 Hs1].
  destruct (fold_left _ _ _) as [items d1]. cbn in Hd1, Hs1. destruct (only_ok d1 (set_marks (merge_sort before items) d1) Hd1) as [Hd2 Hs2]; [done|].
  split; [done|by eapply same_trans].
Qed.

Lemma hBuildMarkersIndex_fine m : dbg_ok m.(fields) → fine hBuildMarkersIndex m (λ _ d, same m.(fields) d).
Proof. intros Hd. destruct (build_markers_ok _ Hd). by eapply fine_end. Qed.

Lemma ToggleMarkState_fine m : dbg_ok m.(fields) → fine ToggleMarkState m any.
Proof.
  intros Hd. unfold ToggleMarkState. destruct (run_selected m Hd) as (o & Hrun & Ho). eapply fine_run; [exact Hrun|].
  destruct o as [c|].
  2: { eapply fine_run; [by apply run_lift|]. by apply fine_ret. }
  destruct Ho as (p & HC & Hp). destruct (do_client _ Hd p c Hp) as [Hc _].
  destruct (hCurrentTx_ok c Hc) as (tx & Htx & _). eapply fine_run; [by apply run_lift|].
  destruct tx as [x|]; [|by apply fine_ret]. eapply fine_run; [by apply run_current|]. eapply fine_run; [by apply run_client|].
  apply fine_bind. eapply fine_mono; [apply (fine_upd p c); [done..|by apply fields_keep]|].
  intros [] d _ m' <- Hd'. eapply fine_mono; [by apply hBuildMarkersIndex_fine|done].
Qed.

Lemma into_range_in n i : 0 < n → 0 ≤ into_range n i < n.
Proof. intros Hn. unfold into_range. repeat case_bool_decide; lia. Qed.

Lemma go_to_marker_fine pick m :
  dbg_ok m.(fields) →
  0 ≤ pick m.(fields).(d_markers) m.(fields).(d_lastScrolledTxTime) < Z.of_nat (length m.(fields).(d_markers)) →
  fine (go_to_marker pick) m any.
Proof.
  intros Hd Hr. unfold go_to_marker. eapply fine_run; [reflexivity|].
  destruct (slice_get_in _ _ Hr) as (x & Hx & _). eapply fine_run; [by apply run_lift|]. by eapply fine_end.
Qed.

Lemma marker_steps m :
  dbg_ok m.(fields) → MarkerEnter m.(fields) = true → fine FwdMarkerState m any ∧ fine BackMarkerState m any.
Proof.
  intros Hd He%bool_decide_eq_true. unfold FwdMarkerState, BackMarkerState.
  split; apply fine_tell, go_to_marker_fine; try done; cbn [fields].
  - unfold fwd_index. destruct (search_marker _ _) as [i b]. apply into_range_in. lia.
  - unfold back_index. destruct (search_marker _ _) as [i b]. apply into_range_in. lia.
Qed.

Lemma ScrollToMarkerState_fine cursor1 m :
  dbg_ok m.(fields) → ScrollToMarkerEnter cursor1 m.(fields) = true → fine (ScrollToMarkerState cursor1) m any.
Proof.
  intros Hd [H1%bool_decide_eq_true H2%bool_decide_eq_true]%andb_prop. apply fine_tell, go_to_marker_fine; cbn; [done|lia].
Qed.

(** *** Clients that come and go *)

Lemma fine_hfor {A} (f : A → dbg ()) l m :
  dbg_ok m.(fields) → (∀ x m, dbg_ok m.(fields) → fine (f x) m any) → fine (hfor f l) m any.
Proof.
  intros Hd Hf. revert m Hd. induction l as [|x l IH]; intros m Hd; cbn [hfor]; [by apply fine_ret|].
  apply fine_bind. eapply fine_mono; [by apply Hf|]. intros a d _ m' <- Hd'. by apply IH.
Qed.

Lemma remove_ok id d : dbg_ok d → dbg_ok (set_Clients (delete id (d_Clients d)) d).
Proof.
  intros [H1 H2 H3 H4 H5 H6]. split; [done| |done|done| |done].
  - intros k p Hk. cbn [set_Clients d_Clients] in Hk. apply lookup_delete_Some in Hk as [_ Hk]. by apply H2.
  - cbn. rewrite lookup_delete_None. auto.
Qed.

Lemma hRemoveClient_fine id m : dbg_ok m.(fields) → fine (hRemoveClient id) m any.
Proof.
  intros Hd. eapply fine_end; [reflexivity| |done]. cbn [fields].
  apply (only_ok (set_Clients (delete id (d_Clients (fields m))) (fields m))); [by apply remove_ok|].
  split_and!; try done. apply remove_start.
Qed.

Lemma hCleanOnConnect_fine m : dbg_ok m.(fields) → fine (hCleanOnConnect graph) m any.
Proof.
  intros Hd. unfold hCleanOnConnect. eapply fine_run; [reflexivity|]. case_bool_decide; [by apply fine_ret|].
  destruct (forallb _ _); [|by apply fine_ret]. apply fine_bind. eapply fine_mono.
  - apply fine_hfor; [done|]. intros x m' Hm'. by apply hRemoveClient_fine.
  - intros [] d _ m' <- Hd'. eapply fine_run; [by apply cond_tell|]. by apply fine_ret.
Qed.

Lemma new_client_ok d msg c connId :
  dbg_ok d → NewClient hash connId msg = Ok c → place msg = machine_of msg.(ms_ID) → msg.(ms_ID) ≠ "" →
  dbg_ok (set_Clients (<[msg.(ms_ID) := length d.(d_objs)]> d.(d_Clients)) (set_objs (d.(d_objs) ++ [set_conn true c]) d)).
Proof.
  intros [H1 H2 H3 H4 H5 H6] Hnew Hidx Hname. unfold NewClient in Hnew. apply outcome_bind_ok in Hnew as (sp & _ & [= <-]).
  assert (Hold : ∀ p c, d_objs d !! p = Some c → (d_objs d ++ [set_conn true (mkClient (ms_ID msg) connId false msg [] ∅ 0 "" "" [] [] [] sp ∅ 0)]) !! p = Some c).
  { intros p c Hp. by apply lookup_app_l_Some. }
  split; cbn [set_Clients set_objs d_objs d_Clients d_C d_msgsDelayed d_msgsDelayedConns d_history].
  - intros p e He. apply lookup_app_Some in He as [He|[_ He]]; [by apply (H1 p)|].
    apply list_lookup_singleton_Some in He as [_ <-]. split; [|done]. split; cbn; try done; unfold len_txs; cbn; lia.
  - intros id p. rewrite lookup_insert_Some. intros [[<- <-]|[_ Hp]].
    + eexists. split; [by apply list_lookup_middle|done].
    + destruct (H2 id p Hp) as (e & He & Hid). eauto.
  - intros p Hp. destruct (H3 p Hp) as [e He]. eauto.
  - done.
  - by rewrite lookup_insert_ne.
  - done.
Qed.

Lemma connect_client_fine msg connId m :
  dbg_ok m.(fields) → is_ok (ParseSchema hash msg) = true → place msg = machine_of msg.(ms_ID) → msg.(ms_ID) ≠ "" →
  fine (connect_client hash msg connId) m (λ p d, ∃ c, d.(d_objs) !! p = Some c).
Proof.
  intros Hd Hok Hidx Hname. destruct (ParseSchema hash msg) as [sp| |] eqn:Hsp; [|done..]. unfold connect_client.
  eapply fine_run; [reflexivity|]. apply fine_bind.
  apply (fine_mono _ _ (λ o d, match o with Some p => ∃ c, d.(d_objs) !! p = Some c | None => True end)).
  - destruct (d_Clients (fields m) !! ms_ID msg) as [p|] eqn:Hp; [|by apply fine_ret].
    destruct (do_map _ Hd _ _ Hp) as (c & Hc & Hid). destruct (do_client _ Hd p c Hc) as [Hco Hci].
    assert (Hschema : ∀ q, keeps_client c (set_schema msg q c)).
    { intros q. destruct Hco. assert (Hpl : place msg = place (cl_MsgStruct c)) by by rewrite Hidx, Hci, Hid.
      split; [|done]. split; try done. cbn. by injection Hpl as -> _. }
    eapply fine_run; [by apply run_client|]. destruct (_ && _).
    + apply fine_tell. apply fine_bind. eapply fine_mono; [apply (fine_upd p c); [done|done|apply Hschema]|].
      intros [] d [_ Hp1] m' <- Hd'. eapply fine_run; [by apply run_lift|]. apply fine_bind.
      eapply fine_mono; [apply (fine_upd p (set_schema msg (cl_Schema c) c)); [done|done|]|].
      * destruct (Hschema sp) as (Ha & Hb & _). by split; [|split_and!].
      * intros [] d [_ Hp2] m'' <- Hd''. apply fine_ret; [done|eauto].
    + apply fine_tell. apply fine_bind. eapply fine_mono; [by apply hRemoveClient_fine|].
      intros [] d _ m' <- Hd'. by apply fine_ret.
  - intros o d Ho m' <- Hd'. destruct o as [p|]; [by apply fine_ret|].
    assert (Hnew : ∃ c, NewClient hash connId msg = Ok c) by (unfold NewClient; rewrite Hsp; by eexists).
    destruct Hnew as [c Hnew]. eapply fine_run; [by apply run_lift|]. eapply fine_run; [reflexivity|].
    eapply fine_run; [reflexivity|]. apply fine_ret; cbn [fields]; [by eapply new_client_ok|].
    exists (set_conn true c). by apply list_lookup_middle.
Qed.

Lemma select_first_fine msg m : dbg_ok m.(fields) → fine (select_first ts selectConnected msg) m any.
Proof.
  intros Hd. unfold select_first. eapply fine_run; [reflexivity|]. cbv zeta. apply fine_bind.
  apply (fine_mono _ _ any).
  - destruct (_ || _); [|by apply fine_ret]. apply fine_tell. apply fine_put; [done|by apply only_prepend|]. intros m' _ Hd'.
    destruct (bool_decide _); [by apply fine_ret|by eapply fine_end].
  - intros [] d _ m' <- Hd'. destruct (bool_decide _); [by eapply fine_end|by apply fine_ret].
Qed.

Lemma ConnectEventState_fine msg connId m :
  dbg_ok m.(fields) → is_ok (ParseSchema hash msg) = true → place msg = machine_of msg.(ms_ID) → msg.(ms_ID) ≠ "" →
  fine (ConnectEventState ts hash graph cleanOnConnect selectConnected msg connId) m any.
Proof.
  intros Hd Hok Hidx Hname. unfold ConnectEventState. apply fine_bind. apply (fine_mono _ _ any).
  { destruct cleanOnConnect; [by apply hCleanOnConnect_fine|by apply fine_ret]. }
  intros cleanup d _ m1 <- Hd1. apply fine_bind. eapply fine_mono; [by apply connect_client_fine|].
  intros p d [c Hp] m2 <- Hd2. eapply fine_run; [reflexivity|]. apply fine_bind.
  apply (fine_mono _ _ (λ _ d, ∃ c, d.(d_objs) !! p = Some c)).
  { destruct (_ && _); [|apply fine_ret; eauto]. destruct (do_client _ Hd2 p c Hp) as [Hc _].
    eapply fine_mono; [apply (fine_upd p c); [done..|]|intros [] d [_ ?]; eauto]. by apply fields_keep. }
  intros [] d [c' Hp'] m3 <- Hd3. destruct (run_selected m3 Hd3) as (o & Hrun & _). eapply fine_run; [exact Hrun|].
  apply fine_bind. apply (fine_mono _ _ any).
  { destruct (_ || _); [|by apply fine_ret]. eapply fine_end; [reflexivity| |done]. cbn [fields].
    destruct Hd3 as [H1 H2 H3 H4 H5 H6]. split; [done|done| |done..]. cbn. intros q [= <-]. eauto. }
  intros [] d _ m4 <- Hd4. eapply fine_run; [reflexivity|]. eapply fine_run; [by apply cond_tell|].
  apply fine_bind. eapply fine_mono; [by apply select_first_fine|]. intros [] d _ m5 <- Hd5.
  eapply fine_run; [by apply cond_tell|]. by apply fine_tells.
Qed.

Lemma DisconnectEventState_fine connId m : dbg_ok m.(fields) → fine (DisconnectEventState connId) m any.
Proof.
  intros Hd. unfold DisconnectEventState. eapply fine_run; [reflexivity|].
  apply fine_bind. apply (fine_mono _ _ any); [|intros [] d _ m' <- Hd'; by apply fine_bar].
  destruct (list_find _ _) as [[i q]|] eqn:Hf; [|by apply fine_ret]. apply list_find_Some in Hf as (_ & Hq & _).
  destruct (d_objs (fields m) !! q.2) as [c|] eqn:Hp; [|done]. destruct (do_client _ Hd _ c Hp) as [Hc _].
  eapply fine_run; [by apply run_client|]. apply fine_bind.
  eapply fine_mono; [apply (fine_upd q.2 c); [done..|by apply fields_keep]|]. intros [] d _ m' <- Hd'. by eapply fine_end.
Qed.

Lemma RemoveClientState_fine cid m :
  dbg_ok m.(fields) → RemoveClientEnter cid m.(fields) = true → fine (RemoveClientState cid) m any.
Proof.
  intros Hd [_ [p Hp]%bool_decide_eq_true]%andb_prop. destruct (do_map _ Hd _ _ Hp) as (c & Hc & _).
  unfold RemoveClientState. apply fine_tell. eapply fine_run; [reflexivity|]. cbn [fields]. rewrite Hp.
  eapply fine_run; [reflexivity|]. eapply fine_run; [by apply run_client|]. eapply fine_run; [reflexivity|].
  apply fine_put; [by apply remove_ok|split_and!; try done; apply remove_start|]. intros m' _ Hd'. apply fine_bind.
  eapply fine_mono; [by apply hBuildMarkersIndex_fine|]. intros [] d _ m'' <- Hd''. eapply fine_run; [reflexivity|].
  destruct (bool_decide _); [|by apply fine_ret]. destruct (map_to_list _) as [|[id q] l]; by eapply fine_end.
Qed.

(** *** Messages *)

Lemma at_client_run {A} p c (e : held (Mem Client Call Go) A) m c' cs' gs' a :
  m.(fields).(d_objs) !! p = Some c → e (mkMem c m.(calls) m.(gos)) = (mkMem c' cs' gs', Ok a) →
  at_client p e m = (mkMem (set_objs (<[p := c']> m.(fields).(d_objs)) m.(fields)) cs' gs', Ok a).
Proof. intros Hp He. unfold at_client. by rewrite Hp, He. Qed.

(** The tail is followed only with a selected client. *)
Definition tail_ok (u : option Updates) (d : Debugger) : Prop :=
  match u with Some u => u.(up_tail) = true → ∃ p, d.(d_C) = Some p | None => True end.

Lemma take_one_fine x conn u m :
  dbg_ok m.(fields) → readable x → tail_ok (Some u) m.(fields) →
  fine (take_one graph ocl acl appendLog x (Ok conn) u) m (λ u d, d.(d_C) = m.(fields).(d_C) ∧ tail_ok u d).
Proof.
  intros Hd Hx Hu. unfold take_one. eapply fine_run; [reflexivity|].
  destruct (d_Clients (fields m) !! _) as [p|] eqn:Hp.
  2: { apply fine_tell. by apply fine_ret. }
  destruct (do_map _ Hd _ _ Hp) as (c & Hc & Hid). destruct (do_client _ Hd p c Hc) as [Hco Hci].
  eapply fine_run; [by apply run_client|]. eapply fine_run; [by apply run_lift|].
  destruct (negb _). { apply fine_tell. by apply fine_ret. }
  assert (Hm : msg_ok (ms_StatesIndex (cl_MsgStruct c)) (rx_Msg x)) by (rewrite Hid in Hci; unfold readable, schema_of in Hx; by rewrite <- Hci in Hx).
  destruct (take_ok graph ocl acl (d_on (fields m)) c x m.(calls) m.(gos) Hco Hm) as (c1 & cs1 & Hrun & Hk & Hlen).
  eapply fine_run; [by eapply at_client_run|]. set (m1 := mkMem _ _ _).
  destruct (ok_objs (fields m) (fields m1) p c c1 Hd Hc Hk) as [Hd1 Hs1]; [done..|].
  assert (Hp1 : d_objs (fields m1) !! p = Some c1) by (apply list_lookup_insert_eq; by eapply lookup_lt_Some).
  eapply fine_run; [by apply run_client|]. eapply fine_run; [reflexivity|].
  destruct (hFilterTx_ok c1 (len_txs c) (filtersFromStates (d_on (fields m1)))) as [b Hb]; [apply Hk|pose proof (co_cursor c Hco); lia|].
  eapply fine_run; [by apply run_lift|]. apply fine_bind.
  apply (fine_mono _ _ (λ _ d, d.(d_C) = m.(fields).(d_C) ∧ ∃ c', d.(d_objs) !! p = Some c')).
  { destruct b; [|apply fine_ret; eauto]. eapply fine_mono; [apply (fine_upd p c1); [done..|apply fields_keep, Hk]|].
    intros [] d [Hs2 Hp2]. split; [by rewrite (sm_C _ _ Hs2)|eauto]. }
  intros [] d [HC [c2 Hp2]] m2 <- Hd2. destruct (bool_decide_reflect (d_C (fields m1) = Some p)) as [Hsel|].
  - eapply fine_run; [by apply run_client|]. destruct (appendLog c2 (len_txs c)).
    + apply fine_tell. by apply fine_ret.
    + apply fine_ret; [done|]. split; [done|]. intros _. exists p. rewrite HC. exact Hsel.
  - apply fine_ret; [done|]. split; [done|]. cbn in Hu |- *. by rewrite HC.
Qed.

Lemma msgs_loop_fine ms i conns u m :
  dbg_ok m.(fields) → Forall readable ms → 0 ≤ i → i + Z.of_nat (length ms) ≤ Z.of_nat (length conns) → tail_ok (Some u) m.(fields) →
  fine (msgs_loop graph ocl acl appendLog i ms conns u) m (λ u d, tail_ok u d).
Proof.
  intros Hd Hms. revert i u m Hd. induction Hms as [|x ms Hx _ IH]; intros i u m Hd Hi Hlen Hu; cbn [msgs_loop]; [by apply fine_ret|].
  cbn [length] in Hlen. destruct (slice_get_in conns i) as (conn & Hconn & _); [lia|]. rewrite Hconn.
  apply fine_bind. eapply fine_mono; [by apply take_one_fine|]. intros [u'|] d [_ Hu'] m' <- Hd'.
  - apply IH; [done|lia|lia|done].
  - by apply fine_ret.
Qed.

Lemma set_delayed_ok ms conns d :
  dbg_ok d → length conns = length ms → Forall readable ms → dbg_ok (set_delayed ms conns d).
Proof. intros [] Hl Hms. by split. Qed.

Lemma ClientMsgState_fine ms conns m :
  dbg_ok m.(fields) → Forall readable ms → length conns = length ms →
  fine (ClientMsgState ts graph ocl acl appendLog ms conns) m any.
Proof.
  intros Hd Hms Hlen. unfold ClientMsgState. apply fine_tell. eapply fine_run; [reflexivity|].
  destruct (do_delayed _ Hd) as [Hdl Hdr]. cbn [fields calls gos]. destruct (bool_decide ("GcMsgs" ∈ _)).
  { eapply fine_end; [reflexivity| |done]. apply set_delayed_ok; [done| |by apply Forall_app]. cbn. rewrite !length_app. lia. }
  apply fine_bind. set (waiting := negb _).
  set (ms' := if waiting then d_msgsDelayed _ ++ ms else ms). set (conns' := if waiting then d_msgsDelayedConns _ ++ conns else conns).
  assert (Hms' : Forall readable ms') by (unfold ms'; destruct waiting; [by apply Forall_app|done]).
  assert (Hlen' : length conns' = length ms').
  { unfold ms', conns'. destruct waiting; [rewrite !length_app|]; lia. }
  apply (fine_mono _ _ any).
  { destruct waiting; [|by apply fine_ret]. eapply fine_end; [reflexivity|by apply set_delayed_ok|done]. }
  intros [] d _ m1 <- Hd1. apply fine_bind. eapply fine_mono; [apply msgs_loop_fine; [done|done|lia|lia|done]|].
  intros [u|] d Hu m2 <- Hd2; [|by apply fine_ret]. apply fine_bind.
  apply (fine_mono _ _ any); [|intros [] d _ m3 <- Hd3; by apply fine_bar].
  destruct (up_tail u) eqn:Htail; [|by apply fine_ret].
  destruct (Hu Htail) as [p HC]. eapply fine_mono; [by apply (tail_cursor_fine _ p)|done].
Qed.

(** *** Selecting *)

Lemma filter_selected_fine m : dbg_ok m.(fields) → fine filter_selected m (λ _ d, same m.(fields) d).
Proof.
  intros Hd. unfold filter_selected. eapply fine_run; [reflexivity|].
  destruct (d_C (fields m)) as [p|] eqn:HC; [|by apply fine_ret; [|apply same_refl]].
  destruct (do_C _ Hd p HC) as [c Hp]. destruct (do_client _ Hd p c Hp) as [Hc _].
  eapply fine_run; [by apply run_client|]. destruct (hFilterClientTxs_ok (d_on (fields m)) c Hc) as [l Hl].
  eapply fine_run; [by apply run_lift|]. eapply fine_mono; [apply (fine_upd p c); [done..|by apply fields_keep]|].
  by intros [] d [Hs _].
Qed.

Lemma SelectingClientState_fine cid group fc before m :
  dbg_ok m.(fields) → fine (SelectingClientState cid group fc before) m any.
Proof.
  intros Hd. unfold SelectingClientState. eapply fine_run; [reflexivity|].
  destruct (d_Clients (fields m) !! cid) as [p|] eqn:Hp; [|by eapply fine_end].
  destruct (do_map _ Hd _ _ Hp) as (c & Hc & _). destruct (do_client _ Hd p c Hc) as [Hco _].
  eapply fine_run; [reflexivity|]. set (m1 := mkMem _ _ _).
  assert (Hd1 : dbg_ok (fields m1)).
  { destruct Hd as [H1 H2 H3 H4 H5 H6]. split; [done|done| |done..]. cbn. intros q [= <-]. eauto. }
  apply fine_bind. apply (fine_mono _ _ any).
  - destruct (bool_decide _); [by apply fine_ret|]. eapply fine_mono; [apply (fine_upd p c); [done..|by apply fields_keep]|done].
  - intros [] d _ m' <- Hd'. by eapply fine_end.
Qed.

Lemma selecting_fork_fine tail fc fp m p :
  dbg_ok m.(fields) → m.(fields).(d_C) = Some p → fine (selecting_fork ts tail fc fp) m any.
Proof.
  intros Hd HC. unfold selecting_fork. apply fine_bind. eapply fine_mono; [by apply filter_selected_fine|].
  intros [] d Hs m1 <- Hd1. assert (HC1 : d_C (fields m1) = Some p) by by rewrite (sm_C _ _ Hs).
  apply fine_bind. apply (fine_mono _ _ any); [|intros [] d _ m' <- Hd'; by eapply fine_end].
  unfold selecting_eval. eapply fine_run; [reflexivity|]. apply fine_bind.
  apply (fine_mono _ _ (λ _ d, same m1.(fields) d)).
  - destruct tail; [by apply fine_ret; [|apply same_refl]|by apply hScrollToTime_fine].
  - intros [] d Hs2 m2 <- Hd2; [by apply fine_ret|]. eapply fine_mono; [apply (tail_cursor_fine _ p); [done|]|done].
    by rewrite (sm_C _ _ Hs2).
Qed.

Lemma SetGroupState_fine group m c :
  dbg_ok m.(fields) → (∃ p, m.(fields).(d_C) = Some p ∧ m.(fields).(d_objs) !! p = Some c) →
  fine (SetGroupState group) m any.
Proof.
  intros Hd (p & HC & Hp). destruct (do_client _ Hd p c Hp) as [Hc _]. unfold SetGroupState.
  eapply fine_run; [by apply run_current|]. apply fine_bind.
  eapply fine_mono; [apply (fine_upd p c); [done..|by apply fields_keep]|]. intros [] d [_ Hp1] m1 <- Hd1.
  apply fine_put; [done|done|]. intros m2 Hm2 Hd2. eapply fine_run; [apply run_client; by rewrite Hm2|]. by apply fine_tells.
Qed.

Lemma StateNameSelected_fine st m p :
  dbg_ok m.(fields) → m.(fields).(d_C) = Some p → fine (StateNameSelectedState st) m any.
Proof.
  intros Hd HC. destruct (do_C _ Hd p HC) as [c Hp]. destruct (do_client _ Hd p c Hp) as [Hc _]. unfold StateNameSelectedState.
  eapply fine_run; [by apply run_current|]. apply fine_bind.
  eapply fine_mono; [apply (fine_upd p c); [done..|by apply fields_keep]|]. intros [] d _ m1 <- Hd1.
  eapply fine_end; [reflexivity|by apply (only_ok _ _ Hd1)|done].
Qed.

Lemma StateNameSelectedEnd_fine m : dbg_ok m.(fields) → fine StateNameSelectedEnd m any.
Proof.
  intros Hd. unfold StateNameSelectedEnd. eapply fine_run; [reflexivity|]. apply fine_bind. apply (fine_mono _ _ any).
  - destruct (d_C (fields m)) as [p|] eqn:HC; [|by apply fine_ret]. destruct (do_C _ Hd p HC) as [c Hp].
    destruct (do_client _ Hd p c Hp) as [Hc _]. eapply fine_mono; [apply (fine_upd p c); [done..|by apply fields_keep]|done].
  - intros [] d _ m1 <- Hd1. eapply fine_end; [reflexivity|by apply (only_ok _ _ Hd1)|done].
Qed.

Lemma ToolToggledState_fine b m : dbg_ok m.(fields) → fine (ToolToggledState ts b) m any.
Proof.
  intros Hd. unfold ToolToggledState. apply fine_bind. apply (fine_mono _ _ any).
  { destruct b; [eapply fine_mono; [by apply filter_selected_fine|done]|by apply fine_ret]. }
  intros [] d _ m1 <- Hd1. eapply fine_run; [reflexivity|]. apply fine_bind.
  apply (fine_mono _ _ any); [|intros [] d _ m' <- Hd'; by eapply fine_end].
  destruct (d_C (fields m1)) as [p|] eqn:HC; [|by apply fine_ret]. destruct (do_C _ Hd1 p HC) as [c Hp].
  apply fine_bind. apply (fine_mono _ _ (λ _ d, same m1.(fields) d)).
  { destruct (bool_decide _); [by apply (tail_cursor_fine _ p)|by apply fine_ret; [|apply same_refl]]. }
  intros [] d Hs m2 <- Hd2. assert (HC2 : d_C (fields m2) = Some p) by by rewrite (sm_C _ _ Hs).
  destruct (do_C _ Hd2 p HC2) as [c2 Hp2]. destruct (do_client _ Hd2 p c2 Hp2) as [Hc2 _].
  eapply fine_run; [by apply run_client|]. eapply fine_run; [reflexivity|]. destruct b; [|by apply fine_ret].
  eapply fine_mono; [apply (hSetCursor1_fine _ p c2); [done..|by apply co_cursor]|done].
Qed.

(** *** All inputs *)

(** What comes to the debugger: connections and messages, the goroutine that goes
    on with a selection, what the user does, and what its machine has active. *)
Inductive Input :=
| IConnect (msg : DbgMsgStruct) (connId : string) | IDisconnect (connId : string)
| IMsgs (ms : list RxTx) (conns : list string) | IRemove (cid : string)
| ISelect (cid group : string) (fromConnected : bool) (before : gset string)
| ISelecting (wasTailMode fromConnected fromPlaying : bool) | IUnselect (selecting : bool)
| IGroup (group : string) | IState (st : string) | IStateEnd | ITool (filterTxs : bool)
| IFwd (amount : Z) | IBack (amount : Z) | IScroll (cursor1 : Z) (id : string) (trim : bool)
| IMutTx (st : string) (fwd : bool) | IMark | IFwdMarker | IBackMarker | IToMarker (cursor1 : Z)
| IActive (on : gset string).

Definition exec (i : Input) : dbg () :=
  match i with
  | IConnect msg connId => ConnectEventState ts hash graph cleanOnConnect selectConnected msg connId
  | IDisconnect connId => DisconnectEventState connId
  | IMsgs ms conns => ClientMsgState ts graph ocl acl appendLog ms conns
  | IRemove cid => RemoveClientState cid
  | ISelect cid group fc before => SelectingClientState cid group fc before
  | ISelecting tail fc fp => selecting_fork ts tail fc fp
  | IUnselect selecting => ClientSelectedEnd selecting
  | IGroup group => SetGroupState group
  | IState st => StateNameSelectedState st
  | IStateEnd => StateNameSelectedEnd
  | ITool b => ToolToggledState ts b
  | IFwd amount => FwdState ts amount
  | IBack amount => BackState ts amount
  | IScroll cursor1 id trim => ScrollToTxState ts cursor1 id trim
  | IMutTx st fwd => ScrollToMutTxState st fwd
  | IMark => ToggleMarkState
  | IFwdMarker => FwdMarkerState
  | IBackMarker => BackMarkerState
  | IToMarker cursor1 => ScrollToMarkerState cursor1
  | IActive on => put (set_on on)
  end.

Definition sel_of (d : Debugger) : option Client := d.(d_C) ≫= λ p, d.(d_objs) !! p.

(** The handler before it lets it pass; selecting and states need the client that
    the machine's schema requires. *)
Definition accepts (i : Input) (d : Debugger) : bool :=
  let is_true (o : outcome bool) := match o with Ok b => b | _ => false end in
  match i with
  | IConnect msg connId => ConnectEventEnter (Some msg) connId
  | IDisconnect connId => negb (bool_decide (connId = ""))
  | IRemove cid => RemoveClientEnter cid d
  | ISelect cid _ _ _ => SelectingClientEnter cid d
  | ISelecting _ _ _ | IState _ => bool_decide (is_Some d.(d_C))
  | IGroup group => is_true (SetGroupEnter group (sel_of d))
  | IFwd amount => is_true (FwdEnter amount (sel_of d))
  | IBack amount => is_true (BackEnter amount (sel_of d))
  | IScroll cursor1 id _ => ScrollToTxEnter cursor1 id (sel_of d)
  | IFwdMarker | IBackMarker => MarkerEnter d
  | IToMarker cursor1 => ScrollToMarkerEnter cursor1 d
  | IMsgs _ _ | IUnselect _ | IStateEnd | ITool _ | IMutTx _ _ | IMark | IActive _ => true
  end.

(** Schemas that can be parsed, of the states and the parent a machine has; messages of these
    states, each with its connection. *)
Definition valid (i : Input) : Prop :=
  match i with
  | IConnect msg _ => is_ok (ParseSchema hash msg) = true ∧ place msg = machine_of msg.(ms_ID)
  | IMsgs ms conns => Forall readable ms ∧ length conns = length ms
  | _ => True
  end.

Lemma sel_of_some d c : sel_of d = Some c → ∃ p, d.(d_C) = Some p ∧ d.(d_objs) !! p = Some c.
Proof. unfold sel_of. destruct (d_C d) as [p|]; [|done]. cbn. eauto. Qed.

Lemma exec_fine i m : dbg_ok m.(fields) → valid i → accepts i m.(fields) = true → fine (exec i) m any.
Proof.
  intros Hd Hv Ha.
  assert (Hsel : ∀ (o : option Client → outcome bool), (∀ b, o None = Ok b → b = false) →
    match o (sel_of (fields m)) with Ok b => b | _ => false end = true →
    ∃ c, (∃ p, d_C (fields m) = Some p ∧ d_objs (fields m) !! p = Some c) ∧ o (Some c) = Ok true).
  { intros o Ho Ht. destruct (sel_of (fields m)) as [c|] eqn:Hs.
    - exists c. split; [by apply sel_of_some|]. destruct (o (Some c)) as [[]| |]; done.
    - destruct (o None) as [b| |] eqn:Hn; [|done..]. rewrite (Ho b eq_refl) in Ht. done. }
  destruct i; cbn [exec accepts valid] in *.
  - apply ConnectEventState_fine; [done|apply Hv|apply Hv|]. unfold ConnectEventEnter in Ha.
    apply andb_prop in Ha as [_ Hn]. by apply negb_true_iff, bool_decide_eq_false in Hn.
  - by apply DisconnectEventState_fine.
  - by apply ClientMsgState_fine; [|apply Hv..].
  - by apply RemoveClientState_fine.
  - by apply SelectingClientState_fine.
  - apply bool_decide_eq_true in Ha as [p Hp]. by eapply selecting_fork_fine.
  - apply fine_bind. apply (fine_mono _ _ any); [|intros [] d _ m' <- Hd'; by apply fine_redraw].
    destruct selecting; [by apply fine_ret|]. eapply fine_end; [reflexivity| |done]. cbn.
    destruct Hd as [H1 H2 H3 H4 H5 H6]. by split.
  - destruct (Hsel (SetGroupEnter group)) as (c & Hc & _); [|done|by eapply SetGroupState_fine].
    intros b. unfold SetGroupEnter. case_bool_decide; [by intros [= <-]|done].
  - apply bool_decide_eq_true in Ha as [p Hp]. by eapply StateNameSelected_fine.
  - by apply StateNameSelectedEnd_fine.
  - by apply ToolToggledState_fine.
  - destruct (Hsel (FwdEnter amount)) as (c & Hc & He); [done|done|by eapply FwdState_fine].
  - destruct (Hsel (BackEnter amount)) as (c & Hc & He); [done|done|by eapply BackState_fine].
  - destruct (sel_of (fields m)) as [c|] eqn:Hs; [|done]. apply sel_of_some in Hs. by eapply ScrollToTxState_fine.
  - by apply ScrollToMutTxState_fine.
  - by apply ToggleMarkState_fine.
  - exact (proj1 (marker_steps m Hd Ha)).
  - exact (proj2 (marker_steps m Hd Ha)).
  - by apply ScrollToMarkerState_fine.
  - eapply fine_end; [reflexivity| |done]. cbn. destruct Hd as [H1 H2 H3 H4 H5 H6]. by split.
Qed.

Definition newDebugger : Debugger := mkDebugger [] ∅ None ∅ (mkHistory [] 0) [] None [] [] "" "".

(** A step: an input which is let through, whatever it ends in. *)
Definition dstep (m m' : DbgMem) : Prop := ∃ i, valid i ∧ accepts i m.(fields) = true ∧ (exec i m).1 = m'.

Lemma newDebugger_ok : dbg_ok newDebugger.
Proof. by split. Qed.

(** C26: However clients connect, send messages and go, and whatever the user selects,
    filters, marks and scrolls to: no handler panics, every message stays parsed,
    and every cursor stays at a transition of its client or before the first.
    Provided that schemas parse and messages can be read with them, that a machine
    has the same states and the same parent each time it connects, and that no
    machine is above itself.  Collecting messages and walking the history are not
    among the steps, and what is drawn is left out, but for the address bar. *)
Theorem debugger_runs m :
  rtc dstep (mkMem newDebugger [] []) m →
  (∀ i, valid i → accepts i m.(fields) = true → ∃ m', exec i m = (m', Ok ()))
  ∧ ∀ p c, m.(fields).(d_objs) !! p = Some c →
      length c.(cl_MsgTxsParsed) = length c.(cl_MsgTxs) ∧ 0 ≤ c.(cl_CursorTx1) ≤ len_txs c.
Proof.
  intros Hr. assert (Hd : dbg_ok m.(fields)).
  { remember (mkMem newDebugger [] []) as m0 eqn:H0. assert (dbg_ok (fields m0)) as Hd0 by (subst; apply newDebugger_ok). clear H0.
    induction Hr as [m|m1 m2 m3 (i & Hv & Ha & <-) _ IH]; [done|]. apply IH.
    destruct (exec_fine i m1 Hd0 Hv Ha) as ([] & m' & Hrun & Hd' & _). by rewrite Hrun. }
  split.
  - intros i Hv Ha. destruct (exec_fine i m Hd Hv Ha) as ([] & m' & Hrun & _). eauto.
  - intros p c Hp. destruct (do_client _ Hd p c Hp) as [[] _]. done.
Qed.
End runs.

(** ** Collecting messages ends *)

Definition returns_or_panics {A} (e : dbg A) : Prop := ∀ m, (e m).2 ≠ Block.

Lemma rp_ret {A} (a : A) : returns_or_panics (mret a).
Proof. done. Qed.
Lemma rp_bind {A B} (e : dbg A) (f : A → dbg B) :
  returns_or_panics e → (∀ a, returns_or_panics (f a)) → returns_or_panics (e ≫= f).
Proof.
  intros He Hf m. specialize (He m). unfold mbind, held_bind. destruct (e m) as [m' [a|msg|]]; cbn in *; [apply Hf|done|done].
Qed.
Lemma rp_lift {A} (e : outcome A) : e ≠ Block → returns_or_panics (hlift e).
Proof. by intros He m. Qed.
Lemma rp_hfor {A} (f : A → dbg ()) l : (∀ x, returns_or_panics (f x)) → returns_or_panics (hfor f l).
Proof. intros Hf. induction l as [|x l IH]; [done|]. by apply rp_bind. Qed.
Lemma rp_client p : returns_or_panics (client p).
Proof. apply rp_bind; [done|]. intros d. by destruct (_ !! _). Qed.

Lemma mapM_not_block {A B} (f : A → outcome B) l : (∀ x, f x ≠ Block) → mapM f l ≠ Block.
Proof.
  intros Hf. induction l as [|x l IH]; [done|]. cbn. specialize (Hf x). destruct (f x); [|done|done].
  cbn. by destruct (mapM f l).
Qed.
Lemma slice_get_not_block {A} (l : list A) i : slice_get l i ≠ Block.
Proof. unfold slice_get. case_bool_decide; [|done]. by destruct (_ !! _). Qed.

Lemma hFilterTx_not_block c i f : hFilterTx c i f ≠ Block.
Proof.
  unfold hFilterTx. pose proof (slice_get_not_block c.(cl_MsgTxs) i) as Hg. destruct (slice_get _ _) as [x| |] eqn:Hx; [|done|done].
  cbn [mbind outcome_bind]. destruct (TxParsed i c) as [q|]; [|done].
  assert (Hn : CalledStateNames (rx_Msg x) (ms_StatesIndex (cl_MsgStruct c)) ≠ Block).
  { unfold CalledStateNames. destruct (mx_CalledStates _); [done|]. apply mapM_not_block. intros k. apply slice_get_not_block. }
  destruct (CalledStateNames _ _); [|done|done]. cbn [mbind outcome_bind].
  assert (He : TxExecutedBy i c ≠ Block) by (unfold TxExecutedBy; rewrite Hx; cbn; by destruct (negb _)).
  destruct (TxExecutedBy i c); [| |done]; repeat (case_match; cbn [mbind outcome_bind]); done.
Qed.

Lemma rp_filter_selected : returns_or_panics filter_selected.
Proof.
  apply rp_bind; [done|]. intros d. destruct (d_C d) as [p|]; [|done]. apply rp_bind; [apply rp_client|]. intros c.
  apply rp_bind; [|done]. apply rp_lift. unfold hFilterClientTxs. destruct (negb _); [done|].
  assert (H : ∀ is_ acc, filter_txs c (filtersFromStates (d_on d)) acc is_ ≠ Block).
  { induction is_ as [|i is_ IH]; intros acc; cbn; [done|]. unfold filter_one.
    pose proof (hFilterTx_not_block c i (filtersFromStates (d_on d))) as Hb. destruct (hFilterTx _ _ _); [|done|done]. apply IH. }
  specialize (H (indexes (length (cl_MsgTxs c))) []). by destruct (filter_txs _ _ _ _).
Qed.

Lemma rp_gc_client p : returns_or_panics (gc_client p).
Proof.
  unfold gc_client. apply rp_bind; [apply rp_client|]. intros c. cbv zeta. apply rp_bind; [done|]. intros _.
  apply rp_bind; [by destruct (bool_decide _)|]. intros _. apply rp_bind; [done|]. intros _.
  apply rp_bind; [done|]. intros d. apply rp_bind.
  - destruct (bool_decide _); [|done]. apply rp_bind; [apply rp_client|]. intros c'. apply rp_bind; [done|]. intros _.
    apply rp_bind; [done|]. intros _. destruct (filtersActive _); [apply rp_filter_selected|done].
  - intros _. apply rp_bind; [apply rp_client|]. intros c'. by destruct (bool_decide _).
Qed.

Lemma mach_changes_not_block l step is_ : mach_changes l step is_ ≠ Block.
Proof.
  induction is_ as [|i is_ IH]; [done|]. cbn. pose proof (slice_get_not_block l i). destruct (slice_get l i); [|done..].
  pose proof (slice_get_not_block l (i + step)). cbn. destruct (slice_get l (i + step)); [|done..]. cbn. by destruct (negb _).
Qed.

Lemma rp_redraw : returns_or_panics hRedrawFull.
Proof.
  apply rp_bind; [|done]. apply rp_bind.
  { apply rp_bind; [done|]. intros d. destruct (d_C d); [|done]. by apply rp_bind; [apply rp_client|]. }
  intros sel. apply rp_bind.
  { destruct sel as [c|]; [|done]. case_bool_decide; [|done]. by apply rp_bind; [apply rp_lift, slice_get_not_block|]. }
  intros txId. apply rp_bind; [done|]. intros d. cbv zeta.
  apply rp_bind; [apply rp_lift, mach_changes_not_block|]. intros b1.
  apply rp_bind; [apply rp_lift, mach_changes_not_block|]. intros b2. apply rp_bind; [|done].
  destruct sel as [c|]; [|done]. case_bool_decide; [done|]. by destruct (hGetParentTags _ _ _ _).
Qed.

(** However little memory is won, collecting messages ends after at most a
    hundred and one rounds: the rounds counted out in the model are enough. *)
Theorem GcMsgs_ends over expired : returns_or_panics (GcMsgsState over expired).
Proof.
  apply rp_bind; [done|]. intros d. apply rp_bind.
  2: { intros _. apply rp_bind; [done|]. intros _. by apply rp_bind; [apply rp_redraw|]. }
  assert (H : ∀ fuel round ps, (102 ≤ fuel + round)%nat → (0 < fuel)%nat → returns_or_panics (gc_rounds fuel over expired round ps)).
  { induction fuel as [|fuel IH]; intros round ps Hf H0; [lia|]. cbn [gc_rounds].
    destruct (negb _); [done|]. destruct (expired _); [done|]. case_bool_decide; [done|].
    apply rp_bind; [done|]. intros _. apply rp_bind; [apply rp_hfor, rp_gc_client|]. intros _.
    apply IH; lia. }
  apply H; lia.
Qed.

(** ** Runs *)
Module Examples.

Definition hash0 (s : string) (n : Z) : string := s.
Definition schema0 : DbgMsgStruct :=
  mkMsgStruct "m" ["A"; "ErrB"; "Exception"] ∅ ∅ [] "" [].
Definition tx0 (id : string) (clocks : list Z) (tick time : Z) (auto accepted check : bool) : RxTx :=
  mkRxTx (mkMsgTx "m" id clocks tick 0 0 MutationAdd None [0] [] [] [] 0 auto accepted check false None) time.
Definition t1 := tx0 "t1" [1; 0; 0] 1 10 false true false.
Definition t2 := tx0 "t2" [1; 1; 0] 2 20 true true false.
Definition t3 := tx0 "t3" [2; 1; 0] 3 30 false true true.

Definition run_of (is_ : list Input) (m : DbgMem) : DbgMem :=
  fold_left (λ m i, (exec (λ _, "") hash0 false false (λ _, None) (λ _ _, None) false false i m).1) is_ m.
Definition start : DbgMem := mkMem newDebugger [] [].
Definition connected : list Input :=
  [IConnect schema0 "c"; IMsgs [t1; t2; t3] ["c"; "c"; "c"]; ISelect "m" "" true ∅; ISelecting true false false].
Definition cursor_of (m : DbgMem) : list (Z * Z) := (λ c, (c.(cl_CursorTx1), len_txs c)) <$> m.(fields).(d_objs).

Example run_cursor : cursor_of (run_of connected start) = [(3, 3)].
Proof. by vm_compute. Qed.
Example run_back : cursor_of (run_of (connected ++ [IBack 1; IActive {["FilterAutoTx"]}; ITool true]) start) = [(1, 3)].
Proof. by vm_compute. Qed.

Definition machine_of0 (id : string) : list string * string := (schema0.(ms_StatesIndex), "").
Lemma older0 id : (machine_of0 id).2 = "" ∨ (0 < 0)%nat.
Proof. by left. Qed.
Definition accepted (is_ : list Input) (m : DbgMem) : bool :=
  (fold_left (λ (acc : bool * DbgMem) i, (acc.1 && accepts i acc.2.(fields), run_of [i] acc.2)) is_ (true, m)).1.

Lemma accepted_false is_ m : (fold_left (λ (acc : bool * DbgMem) i, (acc.1 && accepts i acc.2.(fields), run_of [i] acc.2)) is_ (false, m)).1 = false.
Proof. revert m. induction is_ as [|i is_ IH]; intros m; [done|apply IH]. Qed.

Lemma run_rtc is_ m :
  Forall (valid hash0 machine_of0) is_ → accepted is_ m = true →
  rtc (dstep (λ _, "") hash0 false false (λ _, None) (λ _ _, None) false false machine_of0) m (run_of is_ m).
Proof.
  intros Hv. revert m. induction Hv as [|i is_ Hi _ IH]; intros m Ha; [done|].
  unfold accepted in Ha. cbn [fold_left fst snd andb] in Ha. destruct (accepts i (fields m)) eqn:He.
  - eapply rtc_l; [|apply (IH (run_of [i] m)); exact Ha]. by exists i.
  - by rewrite accepted_false in Ha.
Qed.

Lemma connected_valid : Forall (valid hash0 machine_of0) (connected ++ [IBack 1]).
Proof. repeat constructor; cbn; lia. Qed.

Lemma debugger_runs_witness :
  ∃ c, (run_of (connected ++ [IBack 1]) start).(fields).(d_objs) !! 0%nat = Some c ∧ c.(cl_CursorTx1) = 2
       ∧ length c.(cl_MsgTxsParsed) = length c.(cl_MsgTxs) ∧ 0 ≤ c.(cl_CursorTx1) ≤ len_txs c.
Proof.
  eexists. split; [vm_compute; reflexivity|]. split; [reflexivity|].
  refine (proj2 (debugger_runs (λ _, "") hash0 false false (λ _, None) (λ _ _, None) false false machine_of0 (λ _, 0%nat) older0 _
    (run_rtc (connected ++ [IBack 1]) start connected_valid _)) 0%nat _ _); vm_compute; reflexivity.
Defined.

(** *** What goes wrong *)

(** The selection of a transition is told late: moving onto the first one takes
    [TxSelected] away, moving off adds it. *)
Lemma selected_late :
  let first := run_of [IConnect schema0 "c"; IMsgs [t1] ["c"]; ISelect "m" "" true ∅] start in
  let onto := run_of [ISelecting true false false] first in
  let off := run_of [IBack 1] onto in
  cursor_of onto = [(1, 1)] ∧ drop (length first.(calls)) onto.(calls)
    = [CRemove ["TxSelected"]; CAdd ["ClientSelected"; "BuildingLog"; "TailMode"] []]
  ∧ cursor_of off = [(0, 1)] ∧ drop (length onto.(calls)) off.(calls) = [CRemove ["Back"]; CAdd ["TxSelected"] []].
Proof. by vm_compute. Qed.

(** Scrolling to the time of the second transition shows the first. *)
Lemma scroll_off_by_one :
  let d := set_time (Some 20) (run_of connected start).(fields) in
  cursor_of (run_of [ISelecting false false false] (mkMem d [] [])) = [(1, 3)].
Proof. by vm_compute. Qed.

(** Without filters the transition after the last one is a panic. *)
Lemma next_panics on c :
  filtersActive on = false → c.(cl_CursorTx1) = len_txs c → hNextTx on (Some c) = Panic "index out of range".
Proof.
  intros Hon Hc. assert (0 ≤ len_txs c) by (unfold len_txs; lia). unfold hNextTx, tx_or_nil, hNextTxIdx, hFilterTxCursor1. rewrite Hon. cbn [negb].
  rewrite bool_decide_eq_false_2 by lia. unfold slice_get. rewrite bool_decide_eq_true_2 by lia.
  rewrite lookup_ge_None_2; [done|]. unfold len_txs in *. lia.
Qed.

(** A machine that names itself as its parent has tags without end. *)
Lemma parent_tags_cycle d c p fuel tags :
  d.(d_Clients) !! c.(cl_MsgStruct).(ms_Parent) = Some p → d.(d_objs) !! p = Some c → hGetParentTags fuel d c tags = None.
Proof.
  intros Hp Hc. revert tags. induction fuel as [|fuel IH]; intros tags; [done|]. cbn. rewrite Hp. cbn. rewrite Hc. apply IH.
Qed.

(** Its messages overflow the stack, once it is selected. *)
Lemma cycle_overflows :
  let own := mkMsgStruct "m" ["A"; "ErrB"; "Exception"] ∅ ∅ [] "m" [] in
  (exec (λ _, "") hash0 false false (λ _, None) (λ _ _, None) false false (IMsgs [t1] ["c"])
     (run_of [IConnect own "c"; ISelect "m" "" true ∅] start)).2 = Panic "stack overflow".
Proof. by vm_compute. Qed.

(** A filter which is not of the group is not applied. *)
Lemma checks_not_filtered :
  filtersActive {["FilterChecks"; "FilterRpcMachs"]} = false
  ∧ ∀ c new back, hFilterTxCursor1 {["FilterChecks"; "FilterRpcMachs"]} c new back = new.
Proof. split; [by vm_compute|]. intros c new back. unfold hFilterTxCursor1. by replace (filtersActive _) with false by by vm_compute. Qed.

(** The hundred and first address leaves the oldest one as the whole history. *)
Lemma history_lost ts a old oldest addr :
  length old = 98%nat → StringBase ts (Some a) ≠ StringBase ts (Some addr) →
  hPrependHistory ts addr (mkHistory (a :: old ++ [oldest]) 0) = mkHistory [oldest] 0.
Proof.
  intros Hl Hne. unfold hPrependHistory, hTrimHistory. cbn [h_items h_cursor]. rewrite (bool_decide_eq_false_2 _ Hne).
  change (bool_decide (0 < 0)) with false. cbv iota.
  rewrite bool_decide_eq_true_2 by (cbn; rewrite length_app, Hl; cbn; lia). f_equal.
  change (addr :: a :: old ++ [oldest]) with ([addr; a] ++ (old ++ [oldest])).
  rewrite app_assoc. apply drop_app_length'. cbn. by rewrite Hl.
Qed.

(** Entries of other clients, left of the position, move it. *)
Lemma history_moves :
  let a id := mkAddress id "t" 0 0 0 None "" "" in
  hRemoveHistory "x" (mkHistory [a "m"; a "n"; a "o"] 2) = mkHistory [a "m"; a "n"; a "o"] 0.
Proof. by vm_compute. Qed.

(** Once a message could not be parsed, no later one of its client is. *)
Lemma parse_stuck graph ocl acl on idx c cs gs x y :
  c.(cl_MsgTxs) !! Z.to_nat (idx - 1) = Some x → c.(cl_MsgTxs) !! Z.to_nat idx = Some y → 0 < idx →
  Z.of_nat (length c.(cl_MsgTxsParsed)) < idx →
  (hParseMsg graph ocl acl on idx (mkMem c cs gs)).2 = Panic "index out of range"
  ∧ (hParseMsg graph ocl acl on idx (mkMem c cs gs)).1.(fields) = c.
Proof.
  intros Hx Hy Hi Hl. assert (Hp : prev_of c idx = Panic "index out of range").
  { unfold prev_of, len_txs. apply lookup_lt_Some in Hy as Hy'. rewrite !bool_decide_eq_true_2 by lia. cbn [andb].
    unfold slice_get. rewrite bool_decide_eq_true_2 by lia. rewrite Hx. cbn. rewrite lookup_ge_None_2 by lia. done. }
  unfold hParseMsg. rewrite peek_bind. cbn [fields].
  assert (Hg : slice_get (cl_MsgTxs c) idx = Ok y) by (apply slice_get_ok; split; [lia|done]).
  rewrite (held_lift_bind _ _ _ _ Hg). cbv zeta. rewrite (held_ok_bind _ _ _ _ _ (cond_tell _ _ _)), Hp. done.
Qed.

Lemma stuck_at_bad :
  let bad := mkRxTx (set_steps [mkStep StepRelation RelationAdd false false false "" (-2) "" 0] t1.(rx_Msg)) 10 in
  let m := run_of [IConnect schema0 "c"; IMsgs [bad] ["c"]; IMsgs [t2] ["c"]] start in
  (λ c, (length c.(cl_MsgTxs), length c.(cl_MsgTxsParsed))) <$> m.(fields).(d_objs) = [(2%nat, 0%nat)].
Proof. by vm_compute. Qed.

(** Collecting messages leaves the cursor of a client that is not selected behind
    its messages, and the errors at their old positions. *)
Lemma gc_leaves :
  let m := run_of connected start in
  let d := set_C None m.(fields) in
  let m' := (GcMsgsState (λ n, Nat.eqb n 0) (λ _, false) (mkMem d [] [])).1 in
  (λ c, (c.(cl_CursorTx1), len_txs c, c.(cl_Errors))) <$> m.(fields).(d_objs) = [(3, 3, [2; 1])]
  ∧ (λ c, (c.(cl_CursorTx1), len_txs c, c.(cl_Errors))) <$> m'.(fields).(d_objs) = [(3, 2, [2; 1])].
Proof. by vm_compute. Qed.
End Examples.
