(* ===== verification/DbgServer.v ===== *)
(** * The debugger's server ([src/tools/debugger/server/dbg_server.go])

    What comes from tracers over the network: schemas, which connect clients, and
    messages, which wait in a queue until a goroutine hands all of them to the
    debugger's machine (Module [Server], [messages_delivered]); and the connections
    that forward both to other debuggers, dialed again after longer and longer
    waits (Module [Fwd], [fwd_dials]).  The network and the time are answers. *)

From S2P Require Import Prelude StateList SchemaDef MachTime Mutation Machine GoStrings Logging Dbg NetMach Requests Effects Shipped DbgClient.
Import Client.

#[local] Open Scope Z_scope.

(** ** Forwarding connections *)
Module Fwd.

Definition fwdBackoffMin : Z := 500000000.
Definition fwdBackoffMax : Z := 30000000000.

(** [cli]: the number of the connection.  [dials]: the goroutines that will dial,
    by the time they wake up at; [pending]: the connections that running calls
    took. *)
Record Fwd := mkFwd {
  fw_cli : option nat;
  fw_backoff : Z;
  fw_nextDial : Z;
  fw_dials : list Z;
  fw_pending : list nat;
  fw_fresh : nat;
  fw_now : Z;
  fw_log : list string;
}.

(** What comes of a dial: no connection, one on which the schemas could not be
    sent, or a connection. *)
Inductive Dialed := DialErr (err : string) | ReplayErr (err : string) | DialOk.

Definition newFwdConn (now : Z) : Fwd := mkFwd None fwdBackoffMin 0 [now] [] 0 now [].

Definition retry (reason : string) (f : Fwd) : Fwd :=
  let delay := f.(fw_backoff) in
  mkFwd f.(fw_cli) (backoff fwdBackoffMax delay) (f.(fw_now) + delay) (f.(fw_dials) ++ [f.(fw_now) + delay])
    f.(fw_pending) f.(fw_fresh) f.(fw_now) (f.(fw_log) ++ [reason]).

Definition dial (a : Dialed) (f : Fwd) : Fwd :=
  if bool_decide (is_Some f.(fw_cli)) || bool_decide (f.(fw_now) < f.(fw_nextDial)) then f
  else
    match a with
    | DialErr err => retry err f
    | ReplayErr err => retry ("schema replay: " +:+ err) f
    | DialOk =>
        mkFwd (Some f.(fw_fresh)) fwdBackoffMin f.(fw_nextDial) f.(fw_dials) f.(fw_pending) (S f.(fw_fresh)) f.(fw_now)
          (f.(fw_log) ++ ["connected"])
    end.

Definition go_dial (f : Fwd) : Fwd :=
  mkFwd f.(fw_cli) f.(fw_backoff) f.(fw_nextDial) (f.(fw_dials) ++ [f.(fw_now)]) f.(fw_pending) f.(fw_fresh) f.(fw_now) f.(fw_log).

(** [Call], up to the call on the connection: whether there is one. *)
Definition call_begin (f : Fwd) : Fwd * bool :=
  match f.(fw_cli) with
  | None => (go_dial f, false)
  | Some c =>
      (mkFwd f.(fw_cli) f.(fw_backoff) f.(fw_nextDial) f.(fw_dials) (f.(fw_pending) ++ [c]) f.(fw_fresh) f.(fw_now) f.(fw_log), true)
  end.
(** After it: another call may have dropped the connection, and a dial made a new
    one. *)
Definition call_end (c : nat) (err : bool) (f : Fwd) : Fwd :=
  if err then
    go_dial (mkFwd (if bool_decide (f.(fw_cli) = Some c) then None else f.(fw_cli)) f.(fw_backoff) f.(fw_nextDial)
               f.(fw_dials) f.(fw_pending) f.(fw_fresh) f.(fw_now) f.(fw_log))
  else f.

Definition set_dials (l : list Z) (f : Fwd) : Fwd :=
  mkFwd f.(fw_cli) f.(fw_backoff) f.(fw_nextDial) l f.(fw_pending) f.(fw_fresh) f.(fw_now) f.(fw_log).
Definition set_pending (l : list nat) (f : Fwd) : Fwd :=
  mkFwd f.(fw_cli) f.(fw_backoff) f.(fw_nextDial) f.(fw_dials) l f.(fw_fresh) f.(fw_now) f.(fw_log).
Definition set_now (t : Z) (f : Fwd) : Fwd :=
  mkFwd f.(fw_cli) f.(fw_backoff) f.(fw_nextDial) f.(fw_dials) f.(fw_pending) f.(fw_fresh) t f.(fw_log).

Inductive step : Fwd → Fwd → Prop :=
| step_time f t : f.(fw_now) ≤ t → step f (set_now t f)
| step_dial f l1 w l2 a :
    f.(fw_dials) = l1 ++ w :: l2 → w ≤ f.(fw_now) → step f (dial a (set_dials (l1 ++ l2) f))
| step_call f : step f (call_begin f).1
| step_end f l1 c l2 err :
    f.(fw_pending) = l1 ++ c :: l2 → step f (call_end c err (set_pending (l1 ++ l2) f)).

(** Without a connection a goroutine will dial, and not too early; with one, the
    time of the next dial has passed. *)
Record inv (f : Fwd) : Prop := mkInv {
  iv_down : f.(fw_cli) = None → ∃ w, w ∈ f.(fw_dials) ∧ f.(fw_nextDial) ≤ w;
  iv_up : f.(fw_cli) ≠ None → f.(fw_nextDial) ≤ f.(fw_now);
  iv_backoff : fwdBackoffMin ≤ f.(fw_backoff) ≤ fwdBackoffMax;
}.

Lemma backoff_range d : fwdBackoffMin ≤ d ≤ fwdBackoffMax → fwdBackoffMin ≤ backoff fwdBackoffMax d ≤ fwdBackoffMax.
Proof.
  unfold fwdBackoffMin, fwdBackoffMax, backoff. intros Hd. rewrite bool_decide_eq_true_2 by lia.
  rewrite wrap_s64_id by lia. case_bool_decide; lia.
Qed.

Lemma inv_dial a f :
  inv f ∨ (f.(fw_nextDial) ≤ f.(fw_now) ∧ fwdBackoffMin ≤ f.(fw_backoff) ≤ fwdBackoffMax) → inv (dial a f).
Proof.
  intros Hf. unfold dial. destruct (bool_decide_reflect (is_Some (fw_cli f))) as [[c Hc]|Hn]; cbn [orb].
  { destruct Hf as [|[Hd Hb]]; [done|]. split; [by rewrite Hc|done|done]. }
  assert (Hcli : fw_cli f = None) by (destruct (fw_cli f); [destruct Hn; eauto|done]).
  case_bool_decide as Hearly. { destruct Hf as [|[Hd _]]; [done|lia]. }
  assert (Hb : fwdBackoffMin ≤ f.(fw_backoff) ≤ fwdBackoffMax) by (destruct Hf as [[]|[_ ?]]; done).
  assert (Hretry : ∀ err, inv (retry err f)).
  { intros err. split; cbn.
    - intros _. eexists. split; [apply elem_of_app; right; by left|done].
    - by rewrite Hcli.
    - by apply backoff_range. }
  destruct a; [apply Hretry..|]. split; cbn; [done|lia|unfold fwdBackoffMin, fwdBackoffMax; lia].
Qed.

Lemma dial_step_inv f g : inv f → step f g → inv g.
Proof.
  intros [H1 H2 H3] Hs. destruct Hs as [f t Ht|f l1 w l2 a Hl Hw|f|f l1 c l2 err Hl].
  - split; cbn; [done| |done]. intros Hc. specialize (H2 Hc). lia.
  - apply inv_dial. cbn. destruct (fw_cli f) as [c|] eqn:Hc; [right; split; [by apply H2|done]|].
    destruct (H1 eq_refl) as (w' & Hin & Hw'). destruct (decide (f.(fw_nextDial) ≤ f.(fw_now))); [by right|]. left.
    split; cbn; [|by rewrite Hc|done]. intros _. exists w'. split; [|done]. rewrite Hl in Hin.
    apply elem_of_app in Hin as [?|[->|?]%elem_of_cons]; [apply elem_of_app; by left|lia|apply elem_of_app; by right].
  - unfold call_begin. destruct (fw_cli f) as [c|] eqn:Hc; cbn.
    + split; cbn; [done|intros _; by apply H2|done].
    + split; cbn; [|by rewrite Hc|done]. intros _. destruct (H1 eq_refl) as (w & Hin & Hw). exists w.
      split; [apply elem_of_app; by left|done].
  - unfold call_end. destruct err; [|by split]. split; cbn; [|case_bool_decide; [done|exact H2]|done].
    case_bool_decide as Heq; intros Hc.
    + exists f.(fw_now). split; [apply elem_of_app; right; by left|]. apply H2. by rewrite Heq.
    + destruct (H1 Hc) as (w & Hin & Hw). exists w. split; [apply elem_of_app; by left|done].
Qed.

(** However calls, their errors and dials fall together: a forwarding connection
    that is down always has a goroutine that will dial, which then does not find
    it too early; and the wait before a next dial stays in its bounds. *)
Theorem fwd_dials start f :
  rtc step (newFwdConn start) f → 0 ≤ start →
  fwdBackoffMin ≤ f.(fw_backoff) ≤ fwdBackoffMax
  ∧ (f.(fw_cli) = None → ∃ w l1 l2, f.(fw_dials) = l1 ++ w :: l2 ∧
       ∀ t, f.(fw_now) ≤ t → w ≤ t →
         step (set_now t f) (dial DialOk (set_dials (l1 ++ l2) (set_now t f)))
         ∧ is_Some (dial DialOk (set_dials (l1 ++ l2) (set_now t f))).(fw_cli)).
Proof.
  intros Hr Hstart. assert (Hf : inv f).
  { remember (newFwdConn start) as f0 eqn:H0. assert (inv f0) as Hi.
    { subst. split; cbn; [|done|unfold fwdBackoffMin, fwdBackoffMax; lia]. intros _. exists start. split; [by left|lia]. }
    clear H0. induction Hr as [|f1 f2 f3 Hs _ IH]; [done|]. apply IH. by eapply dial_step_inv. }
  destruct Hf as [H1 H2 H3]. split; [done|]. intros Hc. destruct (H1 Hc) as (w & Hin & Hw).
  apply list_elem_of_split in Hin as (l1 & l2 & Hl). exists w, l1, l2. split; [done|]. intros t Ht Hwt. split.
  - by apply (step_dial _ _ w).
  - unfold dial. cbn. rewrite Hc. rewrite bool_decide_eq_false_2 by (by intros [? ?]).
    rewrite bool_decide_eq_false_2 by lia. eauto.
Qed.
End Fwd.

(** ** Schemas and messages *)
Module Server.

(** What is asked of the debugger's machine. *)
Inductive Call :=
| SConnect (msg : DbgMsgStruct) (connId clientId : string)
| SMsgs (ms : list RxTx) (connIds : list string)
| SDisconnect (connId : string).

(** The variables of the package; [flushes]: the goroutines that will hand over
    the queue. *)
Record Server := mkServer {
  s_queue : list RxTx;
  s_queueConnId : list string;
  s_scheduled : bool;
  s_flushes : nat;
  s_clientSchemas : gmap string DbgMsgStruct;
  s_calls : list Call;
}.

Definition newServer : Server := mkServer [] [] false 0 ∅ [].

(** Forwarding to the other debuggers, with their answers: the first error ends
    it.  How many were called, and the error. *)
Fixpoint forward (answers : list (option string)) : nat * option string :=
  match answers with
  | [] => (0%nat, None)
  | None :: answers => let '(n, err) := forward answers in (S n, err)
  | Some err :: _ => (1%nat, Some err)
  end.

Definition DbgMsgSchemaFwd (msg : DbgMsgStruct) (connId : string) (s : Server) : Server :=
  mkServer s.(s_queue) s.(s_queueConnId) s.(s_scheduled) s.(s_flushes) (<[connId := msg]> s.(s_clientSchemas))
    (s.(s_calls) ++ [SConnect msg connId msg.(ms_ID)]).
Definition DbgMsgSchema (msg : DbgMsgStruct) (connId : string) (answers : list (option string)) (s : Server)
  : Server * option string :=
  (DbgMsgSchemaFwd msg connId s, (forward answers).2).

(** A goroutine is started with the first message, and set to wait. *)
Definition enqueue (msg : DbgMsgTx) (connId : string) (now : Z) (s : Server) : Server :=
  mkServer (s.(s_queue) ++ [mkRxTx msg now]) (s.(s_queueConnId) ++ [connId]) true
    (if s.(s_scheduled) then s.(s_flushes) else S s.(s_flushes)) s.(s_clientSchemas) s.(s_calls).
Definition DbgMsgTx (msg : Dbg.DbgMsgTx) (connId : string) (now : Z) (answers : list (option string)) (s : Server)
  : Server * option string :=
  (enqueue msg connId now s, (forward answers).2).
Definition DbgMsgTxFwd := DbgMsgTx.

Definition flush (s : Server) : Server :=
  mkServer [] [] false (pred s.(s_flushes)) s.(s_clientSchemas) (s.(s_calls) ++ [SMsgs s.(s_queue) s.(s_queueConnId)]).

(** The end of [AcceptConn]: only the schema of the connection itself goes. *)
Definition conn_end (connId : string) (s : Server) : Server :=
  mkServer s.(s_queue) s.(s_queueConnId) s.(s_scheduled) s.(s_flushes) (delete connId s.(s_clientSchemas))
    (s.(s_calls) ++ [SDisconnect connId]).

(** The schemas sent over a new connection, in the order of the map. *)
Definition pushClientSchemas (s : Server) : list (string * DbgMsgStruct) := map_to_list s.(s_clientSchemas).

(** Calls of tracers and of other debuggers, in the order the lock takes them. *)
Inductive Event :=
| ESchema (msg : DbgMsgStruct) (connId : string) (answers : list (option string))
| ESchemaFwd (msg : DbgMsgStruct) (connId : string)
| ETx (msg : Dbg.DbgMsgTx) (connId : string) (now : Z) (answers : list (option string))
| ETxFwd (msg : Dbg.DbgMsgTx) (connId : string) (now : Z) (answers : list (option string))
| EFlush
| EEnd (connId : string).

Definition exec (e : Event) (s : Server) : option Server :=
  match e with
  | ESchema msg connId answers => Some (DbgMsgSchema msg connId answers s).1
  | ESchemaFwd msg connId => Some (DbgMsgSchemaFwd msg connId s)
  | ETx msg connId now answers => Some (DbgMsgTx msg connId now answers s).1
  | ETxFwd msg connId now answers => Some (DbgMsgTxFwd msg connId now answers s).1
  | EFlush => if bool_decide (s.(s_flushes) = 0%nat) then None else Some (flush s)
  | EEnd connId => Some (conn_end connId s)
  end.
Fixpoint execs (es : list Event) (s : Server) : option Server :=
  match es with
  | [] => Some s
  | e :: es => s ← exec e s; execs es s
  end.

(** The messages of the events, and those handed over. *)
Definition received (es : list Event) : list (RxTx * string) :=
  omap (λ e, match e with ETx m c now _ | ETxFwd m c now _ => Some (mkRxTx m now, c) | _ => None end) es.
Definition handed (calls : list Call) : list (RxTx * string) :=
  mjoin ((λ c, match c with SMsgs ms conns => zip ms conns | _ => [] end) <$> calls).
#[local] Arguments handed : simpl never.

Record ok (got : list (RxTx * string)) (s : Server) : Prop := mkOk {
  ok_all : handed s.(s_calls) ++ zip s.(s_queue) s.(s_queueConnId) = got;
  ok_len : length s.(s_queueConnId) = length s.(s_queue);
  ok_flush : s.(s_flushes) = if s.(s_scheduled) then 1%nat else 0%nat;
  ok_queue : s.(s_scheduled) = bool_decide (s.(s_queue) ≠ []);
  ok_calls : ∀ ms conns, SMsgs ms conns ∈ s.(s_calls) → ms ≠ [] ∧ length conns = length ms;
}.

Lemma handed_app l k : handed (l ++ k) = handed l ++ handed k.
Proof. unfold handed. by rewrite fmap_app, join_app. Qed.

Lemma exec_ok e got s s' : ok got s → exec e s = Some s' → ok (got ++ received [e]) s'.
Proof.
  intros [H1 H2 H3 H4 H5] He.
  assert (Henq : ∀ m c now, ok (got ++ [(mkRxTx m now, c)]) (enqueue m c now s)).
  { intros m c now. split; cbn.
    - by rewrite zip_with_app, app_assoc, H1 by done.
    - by rewrite !length_app, H2.
    - rewrite H3. by destruct (s_scheduled s).
    - rewrite bool_decide_eq_true_2; [done|]. by destruct (s_queue s).
    - done. }
  assert (Hcall : ∀ c sch, (∀ ms conns, c ≠ SMsgs ms conns) →
    ok got (mkServer s.(s_queue) s.(s_queueConnId) s.(s_scheduled) s.(s_flushes) sch (s.(s_calls) ++ [c]))).
  { intros c sch Hc. split; cbn; [|done..|].
    - rewrite handed_app. replace (handed [c]) with (@nil (RxTx * string)) by (destruct c; [done|by destruct (Hc ms connIds)|done]).
      by rewrite app_nil_r.
    - intros ms conns [?|Hin]%elem_of_app; [by apply H5|]. apply list_elem_of_singleton in Hin as <-. by destruct (Hc ms conns). }
  destruct e; cbn in He |- *; rewrite ?app_nil_r; try (injection He as <-; first [apply Henq | apply Hcall; done]).
  case_bool_decide as H0; [done|]. injection He as <-. rewrite H3 in H0. destruct (s_scheduled s) eqn:Hs; [|done].
  symmetry in H4. apply bool_decide_eq_true in H4. split; cbn.
  - rewrite handed_app, app_nil_r. unfold handed at 2. cbn. by rewrite app_nil_r.
  - done.
  - by rewrite H3.
  - done.
  - intros ms conns [?|Hin]%elem_of_app; [by apply H5|]. apply list_elem_of_singleton in Hin. injection Hin as -> ->. done.
Qed.

(** C29: However messages, forwarded ones among them, come in between the goroutines
    that hand the queue over: what was handed to the debugger and what waits are
    all messages, each once, in order and with its connection; a message that
    waits has a goroutine, and there is never more than one; and no empty list,
    and none without all its connections, is handed over. *)
Theorem messages_delivered es s :
  execs es newServer = Some s →
  handed s.(s_calls) ++ zip s.(s_queue) s.(s_queueConnId) = received es
  ∧ s.(s_flushes) = (if bool_decide (s.(s_queue) = []) then 0%nat else 1%nat)
  ∧ ∀ ms conns, SMsgs ms conns ∈ s.(s_calls) → ms ≠ [] ∧ length conns = length ms.
Proof.
  intros Hes. assert (H : ∀ got s0, ok got s0 → execs es s0 = Some s → ok (got ++ received es) s).
  { clear Hes. induction es as [|e es IH]; intros got s0 Hok He; cbn in He.
    - injection He as ->. by rewrite app_nil_r.
    - destruct (exec e s0) as [s1|] eqn:H1; [|done]. cbn in He. change (e :: es) with ([e] ++ es).
      unfold received. rewrite omap_app, app_assoc. apply (IH _ s1); [|done]. by eapply exec_ok. }
  destruct (H [] newServer) as [H1 H2 H3 H4 H5]; [|done|].
  - split; try done. by intros ms conns ?%not_elem_of_nil.
  - split_and!; [done| |done]. rewrite H3, H4. repeat case_bool_decide; naive_solver.
Qed.

Lemma messages_delivered_witness :
  let m := Dbg.mkMsgTx "m" "t" [1] 1 0 0 MutationAdd None [] [] [] [] 0 false true false false None in
  ∃ s, execs [ETx m "c" 1 []; ETxFwd m "d" 2 []; EFlush; ETx m "c" 3 []] newServer = Some s
       ∧ handed s.(s_calls) ++ zip s.(s_queue) s.(s_queueConnId) = [(mkRxTx m 1, "c"); (mkRxTx m 2, "d"); (mkRxTx m 3, "c")].
Proof.
  intros m. eexists. split; [reflexivity|].
  exact (proj1 (messages_delivered [ETx m "c" 1 []; ETxFwd m "d" 2 []; EFlush; ETx m "c" 3 []] _ eq_refl)).
Defined.

(** A target that cannot be reached makes each message of a tracer end with an
    error, though it was queued; the targets after it get nothing. *)
Lemma forward_error err answers msg connId now s :
  (DbgMsgTx msg connId now (Some err :: answers) s) = (enqueue msg connId now s, Some err)
  ∧ (forward (Some err :: answers)).1 = 1%nat.
Proof. done. Qed.

(** The schema of a forwarded client stays when the connection that brought it
    ends. *)
Lemma forwarded_schema_stays msg :
  let s := default newServer (execs [ESchemaFwd msg "origin"; EEnd "link"] newServer) in
  pushClientSchemas s = [("origin", msg)].
Proof. reflexivity. Qed.
End Server.
